(* ===== verification/_CoqProject ===== *)
-Q . S2P
Prelude.v
WriteUnlock.v
Credentials.v
QueryCancel.v
TaskSupervisor.v
StateStore.v
StateMachine.v
TwoPhaseCommit.v
SqlDialect.v
SqlSplitter.v
SqlRanges.v
SqlFile.v
SqlCursor.v
SqlImport.v
Delimited.v
Json.v
Identifiers.v
Floats.v
Wkb.v
QueryGuard.v
PoolKeys.v
Federation.v
SqlRisk.v
MongoFilter.v
MongoShell.v
ProductionSafety.v
McpSessions.v
McpPolicy.v
GridColumns.v
GridLiteral.v
GridSave.v
GridRefine.v
GridStores.v
RowCompare.v
SyncPlan.v
SyncRefine.v
FetchRows.v
TableSelect.v
AgentPolicy.v
Calibrator.v
Config.v
Correction.v
SchemaTypes.v
DependencyGraph.v
MysqlView.v
ObjectDiff.v
SchemaDiff.v
SchemaTables.v
