(* ===== verification/Prelude.v ===== *)
(** DBX core: a verification of the core logic of the DBX database client.

    DBX (crates/dbx-core) connects to some eighty databases, splits and runs
    the SQL its users write or import, exports results, keeps credentials and
    write permissions per session, and coordinates changes that span several
    databases.  The parts modelled here are the ones in which a mistake loses
    or corrupts data, or leaks a permission.  Positions under src/ are those
    of crates/dbx-core/src unless said otherwise.

    * Files

    - Prelude: text as lists of code points (so that byte offsets are the
      UTF-8 lengths of prefixes), results with [let?], machine integers with
      their wrap-around, the loop [scan] of the cursor-based scanners, and
      the shared lemmas.
    - WriteUnlock (write_unlock.rs): windows during which a session may write
      to a production connection; the clock is an argument.
    - Credentials (session_credentials.rs): session passwords by owner and
      connection, with the generation tokens that undo a write.
    - QueryCancel (query_cancel.rs): the registry of running queries.  Tokens,
      completion channels and interrupts are numbered objects of the state, so
      that cancelled, finished and fired ones can be told apart; dropping a
      guard, the delayed removal and the cancellation of a token by the code
      that holds it are steps of their own.
    - TaskSupervisor (task_supervisor.rs): background tasks; the steps include
      the return of a task's body and its late cleanup.
    - StateStore (state_persistence.rs, storage.rs): the [StateBackend] trait
      as a class, the SQLite table behind it as an instance, with SQL failures.
    - StateMachine (state_persistence.rs): the table of transitions and the
      operations of the persisted state machine, proved against the class;
      [attempt_load] and [sm_compare_and_swap] are the two halves between
      which other clients may act.
    - TwoPhaseCommit (two_phase_commit.rs): coordinator and recovery, over any
      backend and any behaviour of the participants; the calls made are
      recorded in the state.
    - SqlDialect (sql.rs, db/tdsql_mysql.rs): profiles of the dialects, comment
      and quote rules, client commands, blocks of MySQL, Oracle, GaussDB and
      HANA.  The tokenizer of the sqlparser crate is the class
      [OracleTokenizer]; the theorems hold for every tokenizer.
    - SqlSplitter (sql.rs): the streaming splitter; [push_char] is one turn of
      its loop.
    - SqlRanges (sql.rs): the statement ranges of the editor, with the slices
      that can panic.
    - SqlCursor (sql.rs): which statement runs for a cursor position of the
      editor, in UTF-16 units.
    - SqlFile (sql.rs, sql_file_import.rs): SQL Server batches, psql commands
      and the splitters used for files.
    - SqlImport (sql.rs): which statements of an import are run, skipped or
      merged.
    - Delimited (csv_export.rs, data_grid_extractors/delimited.rs): CSV, TSV
      and DSV writers, with a reader that serves as their specification.
    - Json: values and their equality.
    - Identifiers (sql_dialect/identifiers.rs, capabilities.rs): quoting and
      qualification of names, and how each dialect pages through a table.
    - Floats: binary floating-point numbers as their bits, with the shortest
      decimal text, reading, and order of the standard library.
    - Wkb (db/wkb.rs): the reader of geometry values, with the grammar of the
      format as its specification.
    - QueryGuard (query_execution_sql.rs): which texts pass in read-only mode,
      and the EXPLAIN statements built from a query.
    - PoolKeys (connection.rs, query.rs): the keys of connection pools, the
      search for the connection of a key and the read-only checks.
    - Federation (federated.rs, federation_schema_visibility.rs, query.rs):
      tables written with the name of a connection, where a query with such
      names is sent and how it is rewritten; the syntax trees of the sqlparser
      crate are the class [SqlAst], the regular expressions the class [Regexes].
    - SqlRisk (sql_risk.rs): the risk of a script and the writes that need a
      permission, over the syntax tree of the sqlparser crate; the parser is
      the class [SqlParser], [holds] gives predicates their meaning.
    - MongoFilter (mongo_shell.rs): filters that let every document through,
      against the meaning [matches] of a filter.
    - MongoShell (mongo_shell.rs): the parser of shell commands and the check
      before they run; JSON texts are the class [JsonText].
    - ProductionSafety (production_safety.rs): which databases a text refers
      to and whether it may change one that is marked as production; the
      matches of the regular expressions are the class [Patterns].
    - McpSessions (dbx-mcp/src/session.rs): the sessions that pin an agent's
      queries to one connection.
    - McpPolicy (storage.rs, dbx-mcp/src/server.rs): the policy of the MCP
      server and the way of a query from the tool to the backend.
    - GridColumns (data_grid_sql.rs): the columns of a table and what their
      types mean for literals and statements.
    - GridLiteral (data_grid_sql.rs, sqlserver_temporal.rs, transfer.rs): the
      literal of a cell for a column of a database; [None] is a panic, and
      [sql_scan] is the lexer the literals are read with.
    - GridSave (data_grid_sql.rs): the statements that save the edits of the
      data grid and those that take them back; a statement is a term with its
      text [statement_sql].
    - GridRefine: an abstract database, the class [GridDatabase], that runs
      these statements, and the contract of a save and its rollback.
    - GridStores (data_grid_sql.rs, data_grid_neo4j_sql.rs,
      data_grid_tdengine_sql.rs, data_grid_iotdb_sql.rs): the statements of the
      databases that are not relational, the validation and the preparation.
    - RowCompare (data_compare.rs): the comparison of two lists of rows, with
      the specification [compare_specification].
    - SyncPlan (data_compare.rs): the statements that synchronise the target;
      a statement is a term with its text [statement_sql].
    - SyncRefine: an abstract database that runs these statements, and the
      contract of the plans.
    - FetchRows (data_compare.rs, sql_dialect/table_select.rs): page and sample
      queries, the page loop, and the comparison of two tables of two
      connections; the class [Databases] is what it asks of the rest.
    - TableSelect (sql_dialect/table_select.rs): the statement that shows rows
      of a table.
    - AgentPolicy (agent_tools.rs, agent_loop.rs, agent_explain.rs,
      db/vector_driver.rs, dbx-web/src/routes/ai.rs, dbx-cli/src/main.rs): what
      the tools of an agent send to the database, and the checks of the command
      line; percent encoding is the class [PercentEncoding].
    - Calibrator (state_calibrator.rs): fingerprints of schema objects,
      reconciliation with a baseline, drift reports, rebase plans.
    - Config (config/layer.rs, tag.rs, expression.rs, trace.rs): layered
      configuration.
    - SchemaTypes (types.rs): the description of a schema.
    - DependencyGraph (schema_diff.rs): references between tables and views,
      Kahn's sort, coverage counts.
    - MysqlView (schema_diff.rs): the comparison of MySQL view definitions.
    - ObjectDiff (schema_diff.rs): the comparison of indexes, foreign keys,
      triggers, functions, sequences, rules, owners and permissions, and its
      inversion; the class [Comparable] is what a kind of object provides.
    - SchemaDiff (schema_diff.rs): the comparison of columns, renames included.
    - SchemaTables (schema_diff.rs): the comparison of whole schemas, in shards
      too, and the graph of forward and rollback differences.
    - Correction (correction.rs): plans made of schema and data changes.

    * How the parts interact

    The splitters use the dialect rules, and [SqlFile] and [SqlImport] use the
    splitters and scanners.  [QueryGuard] cuts a text into statements with the
    splitter of [SqlFile] before it looks at each, [Federation] routes a statement to a connection,
    whose pool [PoolKeys] finds again to ask [WriteUnlock] for an open window
    and [QueryGuard] about the text
    ([Federation.federated_writes_are_checked_where_they_run] composes them),
    [SqlRisk] falls back on
    [QueryGuard] for what the parser cannot read, and [MongoShell] asks
    [MongoFilter] about the filter of a write.  [McpPolicy] composes these
    guards for the MCP server: it finds the connection and its rule, resolves
    the session in [McpSessions], asks [SqlRisk], [QueryGuard],
    [ProductionSafety] and [MongoShell], and hands over what passes; its
    theorems follow from what the guards promise.  [AgentPolicy] does the same
    for the tools of the built-in agent, with the EXPLAIN of [QueryGuard] and
    the statement of [TableSelect], and for the command line.  [GridSave] names tables and
    columns with [Identifiers] and writes cells with [GridLiteral]; [SyncPlan]
    and [FetchRows] share the column rules of [GridColumns].  [TwoPhaseCommit] keeps its log in a backend and
    drives a [StateMachine]; both are clients of the class of [StateStore],
    whose laws are discharged by the SQLite table.  [FetchRows] reads two
    tables through the queries of [Identifiers], [RowCompare] compares them,
    [SyncPlan] writes the statements, and [Correction] puts them into a plan
    with the schema changes; [FetchRows.full_comparison_synchronises] composes
    the chain from the page queries to the synchronised table.
    [SchemaTables] compares two schemas with [ObjectDiff], [SchemaDiff] and
    [MysqlView] and ranks the differences by the order of [DependencyGraph];
    [SchemaTables.rollback_graph_is_consistent] composes them.  The other parts are
    independent stores behind locks: each operation is one atomic step, except
    where the source releases the lock, which is modelled as two steps.

    * What the theorems show

    - Commit protocol: no commit without unanimous votes, the persisted status
      is the one the calls entail, bounded retries, recovery of every status
      and its idempotence.
    - Concurrency: serialisation by optimistic locking, the invariant of the
      query registry, an account of every interrupt, stale guards and
      tokens that change nothing, shutdown that is final.
    - Isolation: credentials by owner, write windows by session and connection.
    - SQL: statements are split at exactly their terminators, chunking at line
      ends does not matter, nothing is invented, ranges are ordered slices, the
      cursor runs the statement it is in,
      import plans keep every statement in order and within their limits.
    - Guards: what passes in read-only mode is made of reads, what passes
      without permission for dangerous operations is made of bounded writes,
      the predicates flagged as unbounded are true by their logic, a MongoDB
      command that passes without permission calls a reading method, and the
      filters flagged as unbounded let every document through.
    - Policies: what the MCP server runs respects the policy, the rule and the
      scope of the connection, saved policies only restrict, an agent writes at
      most the one statement that was confirmed, what the production check
      cannot resolve it refuses, sessions are released exactly once.
    - Federation: a query is rewritten to name the tables where its connection
      has them, connections and schemas are checked first, and a routed write
      meets the read-only setting of the connection it runs on.
    - Editing: a literal cannot be escaped from, a save does to the table what
      the edits say and its rollback restores it, batches stay within their
      limits, a validated save selects rows by whole keys only.
    - Geometry: the reader accepts exactly the format.
    - Export: what is written can be read back, NULL included.
    - Comparison: the hash-map algorithm is the list comprehension one would
      write, its results are well typed, its plans synchronise the tables and
      stay within the batch sizes; the page loop ends when the dialect pages,
      and never does for two that do not.
    - Calibration: rebase plans are three-way merges, drift reports are exact.
    - Schemas: the order of creation follows the references, differences
      synchronise the objects and can be undone, the rollback of columns is
      the comparison in the other direction, renames lose no column.
    - Configuration: layers merge by priority, traces keep the last entries,
      expressions and names can be read back.
    - Theorems that exhibit a defect of the code stand beside the properties
      they limit: a concrete input and what the code does with it.

    * Bounds and fuel

    All recursion is structural: loops over text are [scan] with a count of
    characters to pass over, and the retries of the protocols have the
    constants of the source.  [trim_start_matches] takes fuel, the length of
    its text, and removes at least one character per turn; [par_chunks] takes
    the length of its list.  Kahn's sort takes the number of nodes, which its
    theorem shows to be enough, and the scans of [MysqlView] the length of the
    text; any larger fuel gives the same result there.  The same is proved of
    the comment strippers of [QueryGuard], the method chains, comments and
    constructors of [MongoShell] (one more than the length of the text) and the
    nested clauses of [MongoFilter] (the depth of the value), and the reader of
    [ProductionSafety] (the length of the text, since comments that are run are
    shorter than it).  The reader of
    [Wkb] takes one more than the number of bytes, since every nested geometry
    takes some; the shortest digits of a number are found within twenty.  The page loop [fetch_loop] takes any fuel, since
    it need not end: its theorems say for which fuel it returns, or that it
    returns for none.
    Versions of entries are 64-bit and wrap, those of the rows of the SQLite
    table stand for up to 2^63 - 1 writes of a key; sizes of import batches are compared as the
    source compares them.  Text lengths are natural numbers: a text does not
    exceed the address space.

    * What is not modelled

    Drivers and the queries of the catalogue, network services, file access,
    encryption, the conversation with language models, the web, MCP,
    command-line and desktop front ends beyond their guards; serialisation to JSON
    is a parameter with its round trip as hypothesis, or with the hypothesis that
    different key values have different texts; floating-point scores.  Of the
    parts that are modelled, these are left out: the DDL of schema differences,
    the filters and clipboard statements of the data grid, the JDBC addresses
    and the process of the agent that runs queries over several connections.
    Transfer and import of tables, and the masking of sensitive values, are not
    modelled either: they are loops around drivers and regular expressions. *)
From Stdlib Require Export Ascii String.
From stdpp Require Export base numbers list gmap sets strings pretty sorting.

(** * Text

    A Rust [String] is a sequence of Unicode scalar values; it is modelled as
    the list of its code points, so that [chars()] is the list itself and
    byte lengths are computed from the UTF-8 width of each code point. *)
Abbreviation char := N (only parsing).
Abbreviation str := (list N) (only parsing).

Declare Scope dbx_scope.
Delimit Scope dbx_scope with dbx.

(** ASCII literals of the source. *)
Fixpoint lit (s : string) : str :=
  match s with
  | EmptyString => []
  | String a r => N_of_ascii a :: lit r
  end.
Arguments lit s%_string.

Definition chr (a : ascii) : char := N_of_ascii a.
Arguments chr a%_char.

(** ** Character classes of [core::char]. *)
Definition is_ascii (c : char) : bool := bool_decide (c < 128)%N.
Definition is_ascii_digit (c : char) : bool := bool_decide (48 ≤ c ∧ c ≤ 57)%N.
Definition is_ascii_uppercase (c : char) : bool := bool_decide (65 ≤ c ∧ c ≤ 90)%N.
Definition is_ascii_lowercase (c : char) : bool := bool_decide (97 ≤ c ∧ c ≤ 122)%N.
Definition is_ascii_alphabetic (c : char) : bool := is_ascii_uppercase c || is_ascii_lowercase c.
Definition is_ascii_alphanumeric (c : char) : bool := is_ascii_alphabetic c || is_ascii_digit c.

(** [char::is_whitespace]: the Unicode property White_Space, in full. *)
Definition is_whitespace (c : char) : bool :=
  bool_decide ((9 ≤ c ∧ c ≤ 13) ∨ c = 32 ∨ c = 133 ∨ c = 160 ∨ c = 5760 ∨
               (8192 ≤ c ∧ c ≤ 8202) ∨ c = 8232 ∨ c = 8233 ∨ c = 8239 ∨ c = 8287 ∨ c = 12288)%N.

(** [char::is_control]: the general category Cc, in full. *)
Definition is_control (c : char) : bool := bool_decide (c ≤ 31 ∨ (127 ≤ c ∧ c ≤ 159))%N.

Definition ascii_lower (c : char) : char := if is_ascii_uppercase c then (c + 32)%N else c.
Definition ascii_upper (c : char) : char := if is_ascii_lowercase c then (c - 32)%N else c.
Definition to_ascii_lowercase (s : str) : str := ascii_lower <$> s.
Definition to_ascii_uppercase (s : str) : str := ascii_upper <$> s.
Definition eq_ignore_ascii_case (a b : str) : bool :=
  bool_decide (to_ascii_lowercase a = to_ascii_lowercase b).

(** The rest of the Unicode tables (letters, digits and case mappings beyond
    ASCII) is a parameter: only its use on ASCII text is fixed here. *)
Class Unicode := {
  u_alphanumeric : char → bool;
  u_upper : char → str;
  u_to_lowercase : str → str;
}.
(** The same for [char::is_alphabetic] and [char::is_alphanumeric] *)
Class Letters := { u_is_alphabetic : char → bool; u_is_alphanumeric : char → bool }.

(** An instance in which the non-ASCII characters are caseless and not
    alphanumeric; used to evaluate the definitions on concrete inputs. *)
Definition no_letters : Letters := {| u_is_alphabetic := λ _, false; u_is_alphanumeric := λ _, false |}.
Definition ascii_only : Unicode :=
  {| u_alphanumeric _ := false; u_upper c := [c]; u_to_lowercase s := s |}.

Definition letter `{Letters} (c : char) : bool := if is_ascii c then is_ascii_alphabetic c else u_is_alphabetic c.
Definition letter_or_digit `{Letters} (c : char) : bool := if is_ascii c then is_ascii_alphanumeric c else u_is_alphanumeric c.
Definition is_alphanumeric `{Unicode} (c : char) : bool :=
  if is_ascii c then is_ascii_alphanumeric c else u_alphanumeric c.
Definition char_to_uppercase `{Unicode} (c : char) : str :=
  if is_ascii c then [ascii_upper c] else u_upper c.
Definition to_uppercase `{Unicode} (s : str) : str := concat (char_to_uppercase <$> s).
Definition to_lowercase `{Unicode} (s : str) : str :=
  if forallb is_ascii s then to_ascii_lowercase s else u_to_lowercase s.

(** ** Byte lengths and byte slicing. *)
Definition len_utf8 (c : char) : nat :=
  if bool_decide (c < 128)%N then 1
  else if bool_decide (c < 2048)%N then 2
  else if bool_decide (c < 65536)%N then 3 else 4.
Fixpoint byte_len (s : str) : nat :=
  match s with [] => 0 | c :: r => len_utf8 c + byte_len r end.

(** [&s[..n]]: [None] is the panic of a slice that ends past the string or
    inside a character. *)
Fixpoint slice_to (n : nat) (s : str) : option str :=
  match n, s with
  | 0, _ => Some []
  | _, [] => None
  | _, c :: r =>
      if decide (len_utf8 c ≤ n) then (cons c) <$> slice_to (n - len_utf8 c) r else None
  end.

(** ** Searching and splitting. *)
Fixpoint strip_prefix (p s : str) : option str :=
  match p, s with
  | [], _ => Some s
  | a :: p', b :: s' => if decide (a = b) then strip_prefix p' s' else None
  | _ :: _, [] => None
  end.
Definition starts_with (p s : str) : bool := bool_decide (is_Some (strip_prefix p s)).
Definition ends_with (p s : str) : bool := starts_with (reverse p) (reverse s).

(** First occurrence of a substring: the text before it and after it. *)
Fixpoint split_once (p s : str) : option (str * str) :=
  match strip_prefix p s with
  | Some r => Some ([], r)
  | None =>
      match s with
      | [] => None
      | c :: s' => prod_map (cons c) id <$> split_once p s'
      end
  end.
Definition str_contains (p s : str) : bool := bool_decide (is_Some (split_once p s)).

(** [s.split(c)] for a character pattern. *)
Fixpoint split_char (c : char) (s : str) : list str :=
  match s with
  | [] => [[]]
  | x :: s' =>
      if decide (x = c) then [] :: split_char c s'
      else match split_char c s' with
           | [] => [[x]]
           | w :: ws => (x :: w) :: ws
           end
  end.

Fixpoint drop_while (f : char → bool) (s : str) : str :=
  match s with
  | [] => []
  | c :: r => if f c then drop_while f r else s
  end.
Fixpoint take_while (f : char → bool) (s : str) : str :=
  match s with
  | [] => []
  | c :: r => if f c then c :: take_while f r else []
  end.
Definition trim_start (s : str) : str := drop_while is_whitespace s.
Definition trim_end (s : str) : str := reverse (drop_while is_whitespace (reverse s)).
Definition trim (s : str) : str := trim_end (trim_start s).

Fixpoint join (sep : str) (l : list str) : str :=
  match l with
  | [] => []
  | [x] => x
  | x :: r => x ++ sep ++ join sep r
  end.

(** Decimal rendering of an unsigned integer ([to_string]). *)
Definition show_N (n : N) : str := lit (pretty n).
Definition show_nat (n : nat) : str := show_N (N.of_nat n).

(** [str::parse::<i64>] *)
Definition parse_i64 (s : str) : option Z :=
  let '(sign, digits) := match s with
                         | c :: r => if decide (c = chr "-") then ((-1)%Z, r) else if decide (c = chr "+") then (1%Z, r) else (1%Z, s)
                         | [] => (1%Z, [])
                         end in
  if bool_decide (digits = []) || negb (forallb is_ascii_digit digits) then None
  else
    let v := (sign * Z.of_N (fold_left (λ acc c, acc * 10 + (c - 48)) digits 0)%N)%Z in
    if bool_decide (-9223372036854775808 ≤ v ∧ v ≤ 9223372036854775807)%Z then Some v else None.

Definition is_ascii_hexdigit (c : char) : bool :=
  is_ascii_digit c || bool_decide ((65 ≤ c ∧ c ≤ 70) ∨ (97 ≤ c ∧ c ≤ 102))%N.

(** [s.rfind(c)] as a split: the text up to and including the last [c], and
    the text after it. *)
Fixpoint split_last (c : char) (s : str) : str * str :=
  match s with
  | [] => ([], [])
  | x :: r =>
      let '(a, b) := split_last c r in
      match a with
      | [] => if decide (x = c) then ([x], b) else ([], x :: b)
      | _ => (x :: a, b)
      end
  end.

(** [u8::is_ascii_whitespace] *)
Definition is_ascii_whitespace (c : char) : bool :=
  bool_decide (c = 32 ∨ c = 9 ∨ c = 10 ∨ c = 12 ∨ c = 13)%N.

(** [s.split_whitespace()] *)
Fixpoint words_acc (w : str) (s : str) : list str :=
  match s with
  | [] => match w with [] => [] | _ => [w] end
  | c :: r =>
      if is_whitespace c then match w with [] => words_acc [] r | _ => w :: words_acc [] r end
      else words_acc (w ++ [c]) r
  end.
Definition split_whitespace (s : str) : list str := words_acc [] s.

Definition NL : char := 10.
Definition CR : char := 13.
Definition TAB : char := 9.
Definition SPACE : char := 32.
Definition DQUOTE : char := 34.
Definition SQUOTE : char := 39.
Definition BACKSLASH : char := 92.
Definition BACKTICK : char := 96.

(** ** Cursor loops

    [while i < chars.len() { .. i += 1 + skip; }]: [step] sees the character
    under the cursor and the text after it, and returns the new state, what it
    emits and how many more characters to pass over. *)
Section scan.
Context {S A : Type} (step : S → char → str → S * list A * nat).

Fixpoint scan (skip : nat) (st : S) (s : str) : S * list A :=
  match s with
  | [] => (st, [])
  | ch :: rest =>
      match skip with
      | Datatypes.S k => scan k st rest
      | 0 => let '(st1, out, k) := step st ch rest in
             let '(st2, out2) := scan k st1 rest in (st2, out ++ out2)
      end
  end.
End scan.

(** [String]'s order; the UTF-8 byte order is the code point order. *)
Fixpoint str_leb (a b : str) : bool :=
  match a, b with
  | [], _ => true
  | _ :: _, [] => false
  | x :: a', y :: b' => if decide (x = y) then str_leb a' b' else bool_decide (x < y)%N
  end.
Definition str_le (a b : str) : Prop := str_leb a b = true.
#[export] Instance str_le_dec : RelDecision str_le.
Proof. intros a b. unfold str_le. apply _. Defined.

(** [s.lines()] *)
Definition strip_cr (line : str) : str :=
  match reverse line with c :: r => if decide (c = 13%N) then reverse r else line | [] => [] end.
Definition lines (s : str) : list str :=
  let pieces := split_char 10%N s in
  strip_cr <$> (match last pieces with Some [] => take (length pieces - 1) pieces | _ => pieces end).

(** * Results

    [Result<A, E>], with the [?] operator as [let?]. *)
Inductive result (A E : Type) : Type :=
| Ok (a : A)
| Err (e : E).
Arguments Ok {A E} a.
Arguments Err {A E} e.

Notation "'let?' x ':=' m 'in' k" :=
  (match m with Ok x => k | Err e => Err e end)
  (at level 10, x pattern, m at level 100, k at level 200) : dbx_scope.

Definition is_ok {A E} (r : result A E) : bool := match r with Ok _ => true | Err _ => false end.
Definition is_err {A E} (r : result A E) : bool := negb (is_ok r).

#[export] Instance result_eq_dec `{EqDecision A, EqDecision E} : EqDecision (result A E).
Proof. solve_decision. Defined.

(** * Machine integers *)
Definition u64_max : N := 18446744073709551615.
Definition wrap_u64 (n : N) : N := (n mod 18446744073709551616)%N.
Definition usize_max : N := u64_max.
Definition saturating_add (a b : N) : N := N.min (a + b) usize_max.
Definition saturating_mul (a b : N) : N := N.min (a * b) usize_max.

(** * Automation *)
Create HintDb dbx.

(** Split every boolean test and option in the goal or the context. *)
Ltac case_all :=
  repeat (case_match || case_bool_decide || case_decide); simplify_eq/=.

(** * Shared lemmas *)

Lemma filter_keep `{Countable K} {A} (P : K * A → Prop) `{!∀ x, Decision (P x)} (m : gmap K A) k :
  (∀ a, P (k, a)) → filter P m !! k = m !! k.
Proof.
  intros HP. apply option_eq; intros a. rewrite map_lookup_filter_Some. naive_solver.
Qed.

Lemma filter_drop `{Countable K} {A} (P : K * A → Prop) `{!∀ x, Decision (P x)} (m : gmap K A) k :
  (∀ a, ¬ P (k, a)) → filter P m !! k = None.
Proof. intros HP. apply map_lookup_filter_None. naive_solver. Qed.

Lemma filter_same {A} (P Q : A → Prop) `{!∀ x, Decision (P x), !∀ x, Decision (Q x)} (l : list A) :
  (∀ x, x ∈ l → P x ↔ Q x) → filter P l = filter Q l.
Proof.
  induction l as [|x l IH]; intros HPQ; [done|].
  rewrite !filter_cons, IH by (intros; apply HPQ; by right).
  specialize (HPQ x (list_elem_of_here _ _)). case_decide; case_decide; tauto.
Qed.

Lemma filter_all {A} (P : A → Prop) `{!∀ x, Decision (P x)} (l : list A) : (∀ x, x ∈ l → P x) → filter P l = l.
Proof.
  induction l as [|x l IH]; intros HP; [done|].
  rewrite filter_cons, decide_True by (apply HP; left). f_equal. apply IH. intros y Hy. apply HP. by right.
Qed.

Lemma filter_none {A} (P : A → Prop) `{!∀ x, Decision (P x)} (l : list A) : (∀ x, x ∈ l → ¬ P x) → filter P l = [].
Proof. intros HP. apply elem_of_nil_inv. intros x [Hx Hin]%list_elem_of_filter. by apply (HP x). Qed.

Lemma sublist_fmap {A B} (f : A → B) (l1 l2 : list A) :
  l1 `sublist_of` l2 → (f <$> l1) `sublist_of` (f <$> l2).
Proof. induction 1; simpl; by constructor. Qed.

Section text.
Implicit Types (s p q : str) (c : char).

Lemma strip_prefix_app p s : strip_prefix p (p ++ s) = Some s.
Proof. induction p as [|a p IH]; simpl; [done|]. by rewrite decide_True. Qed.

Lemma strip_prefix_Some p s r : strip_prefix p s = Some r ↔ s = p ++ r.
Proof.
  split; [|intros ->; apply strip_prefix_app].
  revert s; induction p as [|a p IH]; intros [|b s]; simpl; intros H; case_all; f_equal; eauto.
Qed.

Lemma starts_with_spec p s : starts_with p s = true ↔ p `prefix_of` s.
Proof.
  unfold starts_with. rewrite bool_decide_eq_true. split.
  - intros [r ->%strip_prefix_Some]. by exists r.
  - intros [r ->]. rewrite strip_prefix_app. by eexists.
Qed.

Lemma ends_with_spec p s : ends_with p s = true ↔ p `suffix_of` s.
Proof. unfold ends_with. rewrite starts_with_spec. by rewrite suffix_prefix_reverse. Qed.

Lemma split_once_Some p s a b : split_once p s = Some (a, b) → s = a ++ p ++ b.
Proof.
  revert a b; induction s as [|c s IH]; intros a b; simpl.
  - destruct (strip_prefix p []) eqn:E; [|done]. intros [= <- <-].
    by apply strip_prefix_Some in E.
  - destruct (strip_prefix p (c :: s)) eqn:E.
    + intros [= <- <-]. by apply strip_prefix_Some in E.
    + destruct (split_once p s) as [[a' b']|] eqn:E'; [|done]. intros [= <- <-].
      simpl. f_equal. by apply IH.
Qed.

Lemma reverse_sublist s p : s `sublist_of` p → reverse s `sublist_of` reverse p.
Proof.
  induction 1 as [|x l1 l2 _ IH|x l1 l2 _ IH]; rewrite ?reverse_cons; [done|..].
  - by apply sublist_app.
  - by apply sublist_inserts_r.
Qed.

Lemma trim_start_sublist s : trim_start s `sublist_of` s.
Proof.
  unfold trim_start. induction s as [|c s IH]; simpl; [done|].
  case_match; [by constructor|done].
Qed.

Lemma trim_end_sublist s : trim_end s `sublist_of` s.
Proof.
  unfold trim_end. rewrite <- (reverse_involutive s) at 2.
  apply reverse_sublist, trim_start_sublist.
Qed.

Lemma trim_sublist s : trim s `sublist_of` s.
Proof. unfold trim. etrans; [apply trim_end_sublist|apply trim_start_sublist]. Qed.

Lemma split_char_ne c s : split_char c s ≠ [].
Proof. destruct s as [|x s]; simpl; [done|]. case_decide; [done|]. by destruct (split_char c s). Qed.

Lemma join_split_char c s : join [c] (split_char c s) = s.
Proof.
  induction s as [|x s IH]; [done|]. cbn [split_char].
  pose proof (split_char_ne c s) as Hne. destruct (decide (x = c)) as [->|].
  - destruct (split_char c s) as [|w ws]; [done|]. cbn [join]. cbn [join] in IH. by rewrite IH.
  - destruct (split_char c s) as [|w ws]; [done|]. rewrite <- IH. by destruct ws.
Qed.

Lemma some_inj {A} (a b : A) : Some a = Some b → a = b.
Proof. congruence. Qed.
(** Texts of ASCII characters have one byte per character. *)
Lemma byte_len_ascii s : forallb is_ascii s = true → byte_len s = length s.
Proof.
  induction s as [|c s IH]; simpl; [done|]. intros [Hc Hs]%andb_true_iff. rewrite IH by done.
  unfold len_utf8. unfold is_ascii in Hc. by rewrite Hc.
Qed.
Lemma slice_to_ascii n s : forallb is_ascii s = true → n ≤ length s → slice_to n s = Some (take n s).
Proof.
  revert n. induction s as [|c s IH]; intros [|n] Ha Hn; simpl in *; [done|lia|done|].
  apply andb_true_iff in Ha as [Hc Hs]. unfold len_utf8, is_ascii in *. rewrite Hc.
  rewrite decide_True by (simpl; lia).
  replace (S n - 1) with n by lia. by rewrite IH by (done || lia).
Qed.
Lemma pretty_go_digits x (s : string) : forallb is_ascii_digit (lit s) = true → forallb is_ascii_digit (lit (pretty_N_go x s)) = true.
Proof.
  revert s. induction (N.lt_wf_0 x) as [x _ IH]. intros s Hs. destruct (decide (0 < x)%N) as [Hx |].
  - rewrite pretty_N_go_step by done. apply IH; [by apply N.div_lt |].
    change (lit (String ?c s)) with (N_of_ascii c :: lit s). cbn [forallb]. rewrite Hs, andb_true_r.
    unfold pretty_N_char. by repeat case_match.
  - assert (x = 0%N) as -> by lia. by rewrite pretty_N_go_0.
Qed.
Lemma pretty_go_nonempty x (s : string) : (0 < x)%N ∨ lit s ≠ [] → lit (pretty_N_go x s) ≠ [].
Proof.
  revert s. induction (N.lt_wf_0 x) as [x _ IH]. intros s Hs. destruct (decide (0 < x)%N) as [Hx |].
  - rewrite pretty_N_go_step by done. apply IH; [by apply N.div_lt | by right].
  - assert (x = 0%N) as -> by lia. rewrite pretty_N_go_0. destruct Hs as [Hs |]; [lia | done].
Qed.
Lemma show_N_digits (n : N) : forallb is_ascii_digit (lit (pretty n)) = true ∧ lit (pretty n) ≠ [].
Proof.
  unfold pretty, pretty_N. destruct (decide (n = 0%N)); [done |]. split; [by apply pretty_go_digits |].
  apply pretty_go_nonempty. left. lia.
Qed.
Lemma lit_inj (a b : string) : lit a = lit b → a = b.
Proof.
  revert b. induction a as [| x a IH]; intros [| y b]; cbn [lit]; [done | done | done |]. intros [= Hx Hab].
  f_equal; [| by apply IH]. rewrite <- (ascii_N_embedding x), Hx. apply ascii_N_embedding.
Qed.
Lemma show_nat_inj n m : show_nat n = show_nat m → n = m.
Proof. unfold show_nat, show_N. intros H%lit_inj%(inj pretty). lia. Qed.
Lemma take_drop_while f s : take_while f s ++ drop_while f s = s.
Proof. induction s as [|c s IH]; simpl; [done|]. destruct (f c); simpl; [by rewrite IH|done]. Qed.
Lemma drop_while_idemp f s : drop_while f (drop_while f s) = drop_while f s.
Proof.
  induction s as [|c s IH]; simpl; [done|]. destruct (f c) eqn:E; [done|]. simpl. by rewrite E.
Qed.

Lemma drop_while_suffix f s : drop_while f s `suffix_of` s.
Proof.
  induction s as [|c s IH]; simpl; [done|]. destruct (f c); [|done]. by apply suffix_cons_r.
Qed.

(** Nothing to drop: empty, or the first character is kept. *)
Lemma drop_while_fixed f s : drop_while f s = s ↔ match s with [] => True | c :: _ => f c = false end.
Proof.
  destruct s as [|c s]; simpl; [done|]. destruct (f c) eqn:E; split; try done.
  intros Hs. pose proof (drop_while_suffix f s) as Hl. rewrite Hs in Hl. apply suffix_length in Hl. simpl in Hl. lia.
Qed.

Lemma trim_start_trim_end s : trim_start s = s → trim_start (trim_end s) = trim_end s.
Proof.
  unfold trim_start, trim_end. rewrite !drop_while_fixed. intros Hs.
  destruct (drop_while_suffix is_whitespace (reverse s)) as [l Hl].
  apply (f_equal reverse) in Hl. rewrite reverse_involutive, reverse_app in Hl.
  destruct (reverse (drop_while is_whitespace (reverse s))); [done|]. by rewrite Hl in Hs.
Qed.

Lemma trim_idemp s : trim (trim s) = trim s.
Proof.
  unfold trim. rewrite (trim_start_trim_end (trim_start s)) by apply drop_while_idemp.
  unfold trim_end. by rewrite reverse_involutive, drop_while_idemp.
Qed.

Lemma split_last_app c s : (split_last c s).1 ++ (split_last c s).2 = s.
Proof.
  induction s as [|x s IH]; simpl; [done|]. destruct (split_last c s) as [[|y a] b]; simpl in *.
  - case_decide; simpl; by rewrite IH.
  - by rewrite IH.
Qed.

Lemma removelast_sublist s : removelast s `sublist_of` s.
Proof.
  induction s as [|x s IH]; [done|]. simpl. destruct s; [by constructor|]. by constructor.
Qed.

Lemma byte_len_app s1 s2 : byte_len (s1 ++ s2) = byte_len s1 + byte_len s2.
Proof. induction s1; simpl; lia. Qed.

Lemma len_utf8_pos c : 1 ≤ len_utf8 c.
Proof. unfold len_utf8. case_all; lia. Qed.

Lemma length_byte_len s : length s ≤ byte_len s.
Proof. induction s as [|c s IH]; simpl; [done|]. pose proof (len_utf8_pos c). lia. Qed.

Lemma slice_to_prefix n s r : slice_to n s = Some r → ∃ t, s = r ++ t ∧ byte_len r = n.
Proof.
  revert n r; induction s as [|c s IH]; intros [|n] r; cbn -[len_utf8].
  1-3: naive_solver.
  destruct (decide (len_utf8 c ≤ S n)) as [Hc|]; [|done].
  destruct (slice_to _ s) as [r'|] eqn:E; [|done]. intros [= <-].
  apply IH in E as (t & -> & Hl). exists t. split; [done|]. cbn -[len_utf8]. lia.
Qed.
End text.

Section scan_lemmas.
Context {S A : Type} (step : S → char → str → S * list A * nat).

(** A relation between the state, the text ahead, the final state and what
    was emitted, by induction on the iterations of the loop. *)
Lemma scan_rel (R : S → str → S → list A → Prop) :
  (∀ st, R st [] st []) →
  (∀ st ch rest st1 out k st2 out2,
     step st ch rest = (st1, out, k) → R st1 (drop k rest) st2 out2 → R st (ch :: rest) st2 (out ++ out2)) →
  ∀ s skip st st' out, scan step skip st s = (st', out) → R st (drop skip s) st' out.
Proof.
  intros Hnil Hstep s. induction s as [|ch rest IH]; intros skip st st' out; simpl.
  { intros [= <- <-]. by rewrite drop_nil. }
  destruct skip as [|k]; [|by apply IH]. simpl.
  destruct (step st ch rest) as [[st1 out1] k] eqn:E1.
  destruct (scan step k st1 rest) as [st2 out2] eqn:E2. intros [= <- <-].
  eapply Hstep; [done|]. by apply IH.
Qed.

(** Passing over text. *)
Lemma scan_skip s t k st : length s = k → scan step k st (s ++ t) = scan step 0 st t.
Proof.
  revert k. induction s as [|c s IH]; intros [|k]; simpl; try lia; [by destruct t|].
  intros [= <-]. by apply IH.
Qed.

(** A chunk ahead of [b] is processed as if it stood alone when no iteration
    looks past its end. *)
Lemma scan_app (I : S → Prop) (good : str → Prop) (b : str) :
  (∀ ch rest, good (ch :: rest) → rest ≠ [] → good rest) →
  (∀ st ch rest st1 out k, I st → good (ch :: rest) → step st ch rest = (st1, out, k) →
     step st ch (rest ++ b) = (st1, out, k) ∧ k ≤ length rest ∧ I st1) →
  ∀ a skip st st1 out, I st → (a ≠ [] → good a) → skip ≤ length a → scan step skip st a = (st1, out) →
    I st1 ∧ scan step skip st (a ++ b) = (let '(st2, out2) := scan step 0 st1 b in (st2, out ++ out2)).
Proof.
  intros Htail Hstep a. induction a as [|ch rest IH]; intros skip st st1 out HI Hg Hs; simpl.
  { intros [= <- <-]. destruct skip; simpl in Hs; [|lia]. split; [done|]. by destruct (scan step 0 st b). }
  assert (rest ≠ [] → good rest) as Hg' by (intros ?; eapply Htail; [by apply Hg|done]).
  destruct skip as [|k]; [|intros E; apply IH; simpl in *; auto; lia].
  destruct (step st ch rest) as [[st' out1] k] eqn:E1.
  destruct (scan step k st' rest) as [st2 out2] eqn:E2. intros [= <- <-].
  destruct (Hstep _ _ _ _ _ _ HI (Hg ltac:(done)) E1) as (E1' & Hk & HI'). rewrite E1'.
  destruct (IH k st' st2 out2 HI' Hg' Hk E2) as [HI2 ->]. split; [done|].
  destruct (scan step 0 st2 b). by rewrite app_assoc.
Qed.
End scan_lemmas.

(** ** The order of strings *)
#[export] Instance str_le_total : Total str_le.
Proof.
  unfold str_le. intros a. induction a as [|x a IH]; intros [|y b]; simpl; auto.
  destruct (decide (x = y)) as [->|Hne]; [rewrite decide_True by done; apply IH|].
  rewrite (decide_False (P := y = x)) by done. rewrite !bool_decide_eq_true. lia.
Qed.

#[export] Instance str_le_trans : Transitive str_le.
Proof.
  unfold str_le. intros a. induction a as [|x a IH]; intros [|y b] [|z c] Hab Hbc; simpl in *; try done.
  repeat case_decide; subst; rewrite ?bool_decide_eq_true in *; try done; try lia; eauto.
Qed.

#[export] Instance str_le_antisymm : AntiSymm (=) str_le.
Proof.
  unfold str_le. intros a. induction a as [|x a IH]; intros [|y b] Hab Hba; simpl in *; try done.
  repeat case_decide; subst; rewrite ?bool_decide_eq_true in *; try done; try lia. f_equal. eauto.
Qed.

#[export] Hint Resolve trim_sublist trim_start_sublist trim_end_sublist len_utf8_pos : dbx.
