(* ===== verification/WriteUnlock.v ===== *)
(** Temporary write-unlock windows of persistently read-only connections
    ([crates/dbx-core/src/write_unlock.rs]).

    The state is the [HashMap] behind the [RwLock]; [Instant] is a count of
    nanoseconds.  [remaining_ms] reads the map under the read lock and, when
    the window it read has expired, takes the write lock in a second step to
    remove the entry, so that step is a transition of its own in [wu_step]. *)
From S2P Require Import Prelude.
Local Open Scope dbx_scope.

Definition WRITE_UNLOCK_ONE_MINUTE_SECS : N := 60.
Definition WRITE_UNLOCK_FIVE_MINUTES_SECS : N := 300.

Abbreviation Instant := N (only parsing).
Abbreviation Duration := N (only parsing).

Definition from_secs (s : N) : Duration := (s * 1000000000)%N.
(** [as_millis() as u64] *)
Definition as_millis_u64 (d : Duration) : N := wrap_u64 (d / 1000000)%N.

Record WriteUnlockKey := mkKey { owner_scope : str; connection_id : str }.

#[export] Instance WriteUnlockKey_eq_dec : EqDecision WriteUnlockKey.
Proof. solve_decision. Defined.
#[export] Instance WriteUnlockKey_countable : Countable WriteUnlockKey.
Proof.
  refine (inj_countable' (λ k, (owner_scope k, connection_id k))
                         (λ p, mkKey p.1 p.2) _); by intros [].
Defined.

(** [WriteUnlockKey::current]: [owner] is the task-local credential owner. *)
Definition current (owner : option str) (connection_id : str) : WriteUnlockKey :=
  mkKey (default [] owner) connection_id.

Abbreviation WriteUnlockWindows := (gmap WriteUnlockKey N) (only parsing).

Definition parse_duration_secs (secs : N) : result Duration str :=
  if decide (secs = WRITE_UNLOCK_ONE_MINUTE_SECS) then Ok (from_secs WRITE_UNLOCK_ONE_MINUTE_SECS)
  else if decide (secs = WRITE_UNLOCK_FIVE_MINUTES_SECS) then Ok (from_secs WRITE_UNLOCK_FIVE_MINUTES_SECS)
  else Err (lit "Write unlock duration must be 1 minute or 5 minutes.").

Definition unlock (owner : option str) (now : Instant) (connection_id : str) (duration_secs : N)
    (w : WriteUnlockWindows) : WriteUnlockWindows * result N str :=
  if decide (trim connection_id = []) then (w, Err (lit "Connection id is required."))
  else match parse_duration_secs duration_secs with
       | Err e => (w, Err e)
       | Ok duration =>
           let expires_at := (now + duration)%N in
           (<[current owner connection_id := expires_at]> w, Ok (as_millis_u64 duration))
       end.

Definition lock (owner : option str) (connection_id : str) (w : WriteUnlockWindows) : WriteUnlockWindows :=
  delete (current owner connection_id) w.

Definition remaining_ms_from (expires_at now : Instant) (key : WriteUnlockKey)
    (w : WriteUnlockWindows) : WriteUnlockWindows * N :=
  if decide (expires_at ≤ now)%N then (delete key w, 0%N)
  else (w, as_millis_u64 (expires_at - now)).

Definition remaining_ms (owner : option str) (now : Instant) (connection_id : str)
    (w : WriteUnlockWindows) : WriteUnlockWindows * N :=
  let key := current owner connection_id in
  match w !! key with
  | None => (w, 0%N)
  | Some expires_at => remaining_ms_from expires_at now key w
  end.

Definition is_active (owner : option str) (now : Instant) (connection_id : str)
    (w : WriteUnlockWindows) : WriteUnlockWindows * bool :=
  let '(w', ms) := remaining_ms owner now connection_id w in (w', bool_decide (0 < ms)%N).

(** ** Interleaved executions

    The configuration holds the windows, the removals that some
    [remaining_ms] call has decided on and not yet performed, the clock and
    the successful [unlock] and [lock] calls so far, newest first. *)
Inductive wu_event :=
| EvUnlock (key : WriteUnlockKey) (at_ : Instant) (duration : Duration)
| EvLock (key : WriteUnlockKey).

Record wu_conf := mkConf {
  windows : WriteUnlockWindows;
  removing : list WriteUnlockKey;
  clock : Instant;
  history : list wu_event;
}.

Inductive wu_step : wu_conf → wu_conf → Prop :=
| step_tick c t :
    (clock c ≤ t)%N → wu_step c (mkConf (windows c) (removing c) t (history c))
| step_unlock c owner conn secs w ms :
    unlock owner (clock c) conn secs (windows c) = (w, Ok ms) →
    wu_step c (mkConf w (removing c) (clock c)
                 (EvUnlock (current owner conn) (clock c) (from_secs secs) :: history c))
| step_unlock_err c owner conn secs w e :
    unlock owner (clock c) conn secs (windows c) = (w, Err e) →
    wu_step c (mkConf w (removing c) (clock c) (history c))
| step_lock c owner conn :
    wu_step c (mkConf (lock owner conn (windows c)) (removing c) (clock c)
                 (EvLock (current owner conn) :: history c))
| step_read_expired c owner conn expires_at :
    windows c !! current owner conn = Some expires_at → (expires_at ≤ clock c)%N →
    wu_step c (mkConf (windows c) (current owner conn :: removing c) (clock c) (history c))
| step_remove c key pre post :
    removing c = pre ++ key :: post →
    wu_step c (mkConf (delete key (windows c)) (pre ++ post) (clock c) (history c)).

Definition wu_init : wu_conf := mkConf ∅ [] 0 [].

(** The window of [key] that the history grants: the newest event of the key
    when it is an unlock. *)
Fixpoint granted (key : WriteUnlockKey) (h : list wu_event) : option (Instant * Duration) :=
  match h with
  | [] => None
  | EvUnlock k t d :: h' => if decide (k = key) then Some (t, d) else granted key h'
  | EvLock k :: h' => if decide (k = key) then None else granted key h'
  end.

Definition wu_inv (c : wu_conf) : Prop :=
  (∀ key e, windows c !! key = Some e →
     ∃ t d, granted key (history c) = Some (t, d) ∧ e = (t + d)%N ∧
            (d = from_secs 60 ∨ d = from_secs 300)%N) ∧
  (∀ k t d, EvUnlock k t d ∈ history c → (t ≤ clock c)%N).

Lemma parse_duration_ok secs d :
  parse_duration_secs secs = Ok d →
  d = from_secs secs ∧ (d = from_secs 60 ∨ d = from_secs 300)%N.
Proof. unfold parse_duration_secs. intros H. case_all; auto. Qed.

Lemma unlock_ok owner now conn secs w w' ms :
  unlock owner now conn secs w = (w', Ok ms) →
  w' = <[current owner conn := (now + from_secs secs)%N]> w ∧
  (from_secs secs = from_secs 60 ∨ from_secs secs = from_secs 300)%N.
Proof.
  unfold unlock. destruct (decide _); [done|].
  destruct (parse_duration_secs secs) as [d|] eqn:E; [|done].
  apply parse_duration_ok in E as [-> ?]. by intros [= <- _].
Qed.

Lemma unlock_err owner now conn secs w w' e :
  unlock owner now conn secs w = (w', Err e) → w' = w.
Proof. unfold unlock. intros H. by case_all. Qed.

Lemma granted_in key h t d : granted key h = Some (t, d) → EvUnlock key t d ∈ h.
Proof.
  induction h as [|[] h IH]; simpl; intros H; case_all; set_solver.
Qed.

Lemma wu_inv_step c c' : wu_step c c' → wu_inv c → wu_inv c'.
Proof.
  intros Hstep [Hw Hh]. split; destruct Hstep; simpl in *.
  - eauto.
  - apply unlock_ok in H as [-> Hd]. intros key e [[<- <-]|[? ?]]%lookup_insert_Some.
    + rewrite decide_True by done. eauto 10.
    + rewrite decide_False by done. eauto.
  - apply unlock_err in H as ->. eauto.
  - unfold lock. intros key e [? ?]%lookup_delete_Some. rewrite decide_False by done. eauto.
  - eauto.
  - intros k e [? ?]%lookup_delete_Some. eauto.
  - intros k t' d Hin. etrans; [by eapply Hh|done].
  - intros k t d [[= -> -> ->]|Hin]%elem_of_cons; [done|eauto].
  - eauto.
  - intros k t d [Hf|Hin]%elem_of_cons; [done|eauto].
  - eauto.
  - eauto.
Qed.

Lemma wu_inv_reachable c : rtc wu_step wu_init c → wu_inv c.
Proof.
  apply (rtc_ind_r wu_inv); [|by intros; eapply wu_inv_step].
  split; simpl; [intros ?? []%lookup_empty_Some|set_solver].
Qed.

Lemma is_active_true owner now conn w w' :
  is_active owner now conn w = (w', true) →
  ∃ e, w !! current owner conn = Some e ∧ (now < e)%N ∧ w' = w.
Proof.
  unfold is_active, remaining_ms, remaining_ms_from.
  destruct (w !! current owner conn) as [e|] eqn:E; [|done].
  destruct (decide (e ≤ now)%N); [done|]. intros [= <- _]. exists e. split_and!; [done|lia|done].
Qed.

Lemma as_millis_pos d : (d ≤ from_secs 300)%N → (0 < as_millis_u64 d)%N ↔ (1000000 ≤ d)%N.
Proof.
  unfold as_millis_u64, wrap_u64, from_secs. intros Hd.
  rewrite N.mod_small.
  - split; intros H.
    + destruct (decide (1000000 ≤ d)%N); [done|]. rewrite N.div_small in H; lia.
    + pose proof (N.Div0.div_le_mono 1000000 d 1000000 H). rewrite N.div_same in H0; lia.
  - apply N.Div0.div_lt_upper_bound. lia.
Qed.

(** Whenever `is_active` answers true for a session and connection, the latest window granted
    to them was opened for 60 or 300 seconds and the clock lies inside it. *)
Theorem active_only_inside_granted_window c owner conn w' :
  rtc wu_step wu_init c →
  is_active owner (clock c) conn (windows c) = (w', true) →
  ∃ t d, granted (current owner conn) (history c) = Some (t, d) ∧
         (d = from_secs 60 ∨ d = from_secs 300)%N ∧
         (t ≤ clock c)%N ∧ (clock c < t + d)%N.
Proof.
  intros Hreach Hact. destruct (wu_inv_reachable c Hreach) as [Hw Hh].
  apply is_active_true in Hact as (e & He & Hlt & ->).
  apply Hw in He as (t & d & Hg & -> & Hd). eauto 10 using granted_in.
Qed.

(** A successful `unlock` makes `is_active` true until less than a millisecond of the requested
    duration is left, `lock` ends the window at once, and other sessions and connections see no
    difference. *)
Theorem unlock_opens_window owner now conn secs w w' ms later :
  unlock owner now conn secs w = (w', Ok ms) → (now ≤ later)%N →
  (is_active owner later conn w').2 = bool_decide (later + 1000000 ≤ now + from_secs secs)%N ∧
  (is_active owner later conn (lock owner conn w')).2 = false ∧
  (∀ owner' conn', current owner' conn' ≠ current owner conn →
     (is_active owner' later conn' w').2 = (is_active owner' later conn' w).2).
Proof.
  intros [-> Hd]%unlock_ok Hle. unfold lock, is_active, remaining_ms, remaining_ms_from.
  split_and!.
  - rewrite lookup_insert_eq. destruct (decide _) as [Hexp|Hlive]; simpl.
    + symmetry. apply bool_decide_eq_false. lia.
    + apply bool_decide_ext. rewrite as_millis_pos; [lia|].
      unfold from_secs in *. lia.
  - by rewrite lookup_delete_eq.
  - intros owner' conn' Hne. rewrite lookup_insert_ne by done.
    destruct (w !! current owner' conn'); [|done]. by destruct (decide _).
Qed.

(** ** The two-phase expiry *)

Definition k1 : WriteUnlockKey := current None (lit "c1").

Lemma unlock_c1 t w :
  unlock None t (lit "c1") 60 w = (<[k1 := (t + from_secs 60)%N]> w, Ok 60000%N).
Proof. unfold unlock. rewrite decide_False by (vm_compute; discriminate). reflexivity. Qed.

(** The removal of an expired window runs after the read lock is released: an
    [unlock] in between is lost. *)
Theorem expiry_cleanup_can_drop_fresh_window :
  ∃ c, rtc wu_step wu_init c ∧ clock c = from_secs 61 ∧
       granted k1 (history c) = Some (from_secs 61, from_secs 60) ∧
       (is_active None (clock c) (lit "c1") (windows c)).2 = false.
Proof.
  eexists. split.
  { eapply rtc_l; [eapply step_unlock, (unlock_c1 0)|].
    eapply rtc_l; [apply (step_tick _ (from_secs 61)); vm_compute; discriminate|].
    eapply rtc_l; [apply (step_read_expired _ None (lit "c1") (from_secs 60));
                   [apply lookup_insert_eq|vm_compute; discriminate]|].
    eapply rtc_l; [eapply step_unlock, unlock_c1|].
    eapply rtc_l; [apply (step_remove _ k1 [] []); reflexivity|].
    apply rtc_refl. }
  split_and!; [reflexivity|reflexivity|].
  simpl. unfold is_active, remaining_ms. fold k1. by rewrite lookup_delete_eq.
Qed.

Lemma active_window_witness :
  ∃ t d, granted k1 [EvUnlock k1 0 (from_secs 60)] = Some (t, d) ∧
         (d = from_secs 60 ∨ d = from_secs 300)%N ∧ (t ≤ 0)%N ∧ (0 < t + d)%N.
Proof.
  apply (active_only_inside_granted_window
           (mkConf (<[k1 := from_secs 60]> ∅) [] 0 [EvUnlock k1 0 (from_secs 60)])
           None (lit "c1") (<[k1 := from_secs 60]> ∅)).
  - eapply rtc_l; [eapply step_unlock, (unlock_c1 0)|]. apply rtc_refl.
  - vm_compute. reflexivity.
Defined.

Lemma unlock_opens_window_witness :
  (is_active None 59000000000 (lit "c1") (<[k1 := from_secs 60]> ∅)).2 = true.
Proof.
  refine (proj1 (unlock_opens_window None 0 (lit "c1") 60 ∅ (<[k1 := from_secs 60]> ∅) 60000
           59000000000 _ _)); [apply unlock_c1|vm_compute; discriminate].
Defined.
