(* ===== verification/Credentials.v ===== *)
(** Process-lifetime credentials of connections that do not save their
    password ([crates/dbx-core/src/session_credentials.rs]).

    [SessionCredentialState] is the record behind the [RwLock]; every method
    takes the lock once, so each is one state transformer.  [None] as the
    outcome of a write is the panic of the generation counter's
    [checked_add(1).expect(..)]. *)
From S2P Require Import Prelude.
Local Open Scope dbx_scope.

Definition DESKTOP_OWNER : str := [].

Record CredentialKey := mkCredentialKey { owner_scope : str; connection_id : str }.
Record PurposeCredentialKey := mkPurposeKey { credential : CredentialKey; purpose : str }.

#[export] Instance CredentialKey_eq_dec : EqDecision CredentialKey.
Proof. solve_decision. Defined.
#[export] Instance CredentialKey_countable : Countable CredentialKey.
Proof.
  refine (inj_countable' (λ k, (owner_scope k, connection_id k))
                         (λ p, mkCredentialKey p.1 p.2) _); by intros [].
Defined.
#[export] Instance PurposeCredentialKey_eq_dec : EqDecision PurposeCredentialKey.
Proof. solve_decision. Defined.
#[export] Instance PurposeCredentialKey_countable : Countable PurposeCredentialKey.
Proof.
  refine (inj_countable' (λ k, (credential k, purpose k))
                         (λ p, mkPurposeKey p.1 p.2) _); by intros [].
Defined.

Record SessionCredential := mkCred { password : str; generation : N }.

Record SessionCredentialState := mkState {
  credentials : gmap CredentialKey SessionCredential;
  purpose_credentials : gmap PurposeCredentialKey SessionCredential;
  pool_credential_owners : gmap str str;
  next_generation : N;
}.

Record SessionCredentialWriteToken := mkToken { key : CredentialKey; token_generation : N }.
Record PurposeSessionCredentialWriteToken :=
  mkPurposeToken { purpose_key : PurposeCredentialKey; purpose_token_generation : N }.

Definition new : SessionCredentialState := mkState ∅ ∅ ∅ 0.

(** [u64::checked_add(1)] *)
Definition bump (g : N) : option N := if decide (g < u64_max)%N then Some (g + 1)%N else None.

Definition set (owner conn pw : str) (st : SessionCredentialState)
  : option (SessionCredentialState * option SessionCredentialWriteToken) :=
  if decide (pw = []) then Some (st, None)
  else match bump (next_generation st) with
       | None => None
       | Some g =>
           let k := mkCredentialKey owner conn in
           Some (mkState (<[k := mkCred pw g]> (credentials st)) (purpose_credentials st)
                   (pool_credential_owners st) g, Some (mkToken k g))
       end.

Definition get (owner conn : str) (st : SessionCredentialState) : option str :=
  password <$> credentials st !! mkCredentialKey owner conn.

Definition set_for_purpose_with_token (owner conn purp pw : str) (st : SessionCredentialState)
  : option (SessionCredentialState * option PurposeSessionCredentialWriteToken) :=
  if decide (purp = [] ∨ pw = []) then Some (st, None)
  else match bump (next_generation st) with
       | None => None
       | Some g =>
           let k := mkPurposeKey (mkCredentialKey owner conn) purp in
           Some (mkState (credentials st) (<[k := mkCred pw g]> (purpose_credentials st))
                   (pool_credential_owners st) g, Some (mkPurposeToken k g))
       end.

Definition set_for_purpose (owner conn purp pw : str) (st : SessionCredentialState)
  : option SessionCredentialState :=
  fst <$> set_for_purpose_with_token owner conn purp pw st.

Definition get_for_purpose (owner conn purp : str) (st : SessionCredentialState) : option str :=
  password <$> purpose_credentials st !! mkPurposeKey (mkCredentialKey owner conn) purp.

Definition has (owner conn : str) (st : SessionCredentialState) : bool :=
  bool_decide (is_Some (get owner conn st)).

Definition remove (owner conn : str) (st : SessionCredentialState) : SessionCredentialState :=
  mkState (delete (mkCredentialKey owner conn) (credentials st))
    (filter (λ kv, owner_scope (credential kv.1) ≠ owner ∨ connection_id (credential kv.1) ≠ conn)
       (purpose_credentials st))
    (pool_credential_owners st) (next_generation st).

Definition remove_if_current (token : SessionCredentialWriteToken) (st : SessionCredentialState)
  : SessionCredentialState * bool :=
  match credentials st !! key token with
  | Some c =>
      if decide (generation c = token_generation token) then
        (mkState (delete (key token) (credentials st)) (purpose_credentials st)
           (pool_credential_owners st) (next_generation st), true)
      else (st, false)
  | None => (st, false)
  end.

Definition remove_purpose_if_current (token : PurposeSessionCredentialWriteToken)
    (st : SessionCredentialState) : SessionCredentialState * bool :=
  match purpose_credentials st !! purpose_key token with
  | Some c =>
      if decide (generation c = purpose_token_generation token) then
        (mkState (credentials st) (delete (purpose_key token) (purpose_credentials st))
           (pool_credential_owners st) (next_generation st), true)
      else (st, false)
  | None => (st, false)
  end.

Definition clear_owner (owner : str) (st : SessionCredentialState) : SessionCredentialState :=
  mkState (filter (λ kv, owner_scope kv.1 ≠ owner) (credentials st))
    (filter (λ kv, owner_scope (credential kv.1) ≠ owner) (purpose_credentials st))
    (pool_credential_owners st) (next_generation st).

Definition clear_connection (conn : str) (st : SessionCredentialState) : SessionCredentialState :=
  let pool_prefix := conn ++ lit ":" in
  mkState (filter (λ kv, connection_id kv.1 ≠ conn) (credentials st))
    (filter (λ kv, connection_id (credential kv.1) ≠ conn) (purpose_credentials st))
    (filter (λ kv, kv.1 ≠ conn ∧ starts_with pool_prefix kv.1 = false) (pool_credential_owners st))
    (next_generation st).

Definition clear (st : SessionCredentialState) : SessionCredentialState :=
  mkState ∅ ∅ (pool_credential_owners st) (next_generation st).

Definition record_pool_owner (pool_key owner : str) (st : SessionCredentialState)
  : SessionCredentialState :=
  mkState (credentials st) (purpose_credentials st)
    (<[pool_key := owner]> (pool_credential_owners st)) (next_generation st).

Definition pool_owner_mismatch (pool_key owner : str) (st : SessionCredentialState) : bool :=
  match pool_credential_owners st !! pool_key with
  | None => true
  | Some recorded => bool_decide (recorded ≠ owner)
  end.

Definition has_pool_owner (pool_key : str) (st : SessionCredentialState) : bool :=
  bool_decide (is_Some (pool_credential_owners st !! pool_key)).

Definition remove_pool_owners (pool_keys : list str) (st : SessionCredentialState)
  : SessionCredentialState :=
  mkState (credentials st) (purpose_credentials st)
    (foldl (λ m k, delete k m) (pool_credential_owners st) pool_keys) (next_generation st).

Definition clear_pool_owners (st : SessionCredentialState) : SessionCredentialState :=
  mkState (credentials st) (purpose_credentials st) ∅ (next_generation st).

Definition credential_count (st : SessionCredentialState) : nat :=
  size (credentials st) + size (purpose_credentials st).

(** ** Operation sequences *)
Inductive cred_op :=
| OpSet (owner conn pw : str)
| OpSetPurpose (owner conn purp pw : str)
| OpRemove (owner conn : str)
| OpRemoveIfCurrent (token : SessionCredentialWriteToken)
| OpRemovePurposeIfCurrent (token : PurposeSessionCredentialWriteToken)
| OpClearOwner (owner : str)
| OpClearConnection (conn : str)
| OpClear
| OpRecordPoolOwner (pool_key owner : str)
| OpRemovePoolOwners (pool_keys : list str)
| OpClearPoolOwners.

Definition cred_exec (op : cred_op) (st : SessionCredentialState) : option SessionCredentialState :=
  match op with
  | OpSet o c p => fst <$> set o c p st
  | OpSetPurpose o c u p => set_for_purpose o c u p st
  | OpRemove o c => Some (remove o c st)
  | OpRemoveIfCurrent t => Some (remove_if_current t st).1
  | OpRemovePurposeIfCurrent t => Some (remove_purpose_if_current t st).1
  | OpClearOwner o => Some (clear_owner o st)
  | OpClearConnection c => Some (clear_connection c st)
  | OpClear => Some (clear st)
  | OpRecordPoolOwner p o => Some (record_pool_owner p o st)
  | OpRemovePoolOwners ps => Some (remove_pool_owners ps st)
  | OpClearPoolOwners => Some (clear_pool_owners st)
  end.

Fixpoint cred_run (ops : list cred_op) (st : SessionCredentialState) : option SessionCredentialState :=
  match ops with
  | [] => Some st
  | op :: ops' => st' ← cred_exec op st; cred_run ops' st'
  end.

(** The session scope on whose behalf an operation acts; [None] for the
    instance-wide operations. *)
Definition op_owner (op : cred_op) : option str :=
  match op with
  | OpSet o _ _ | OpSetPurpose o _ _ _ | OpRemove o _ | OpClearOwner o | OpRecordPoolOwner _ o => Some o
  | OpRemoveIfCurrent t => Some (owner_scope (key t))
  | OpRemovePurposeIfCurrent t => Some (owner_scope (credential (purpose_key t)))
  | OpClearConnection _ | OpClear | OpRemovePoolOwners _ | OpClearPoolOwners => None
  end.

(** ** Effects of single operations *)

Lemma bump_Some g g' : bump g = Some g' → g' = (g + 1)%N ∧ (g' ≤ u64_max)%N.
Proof. unfold bump. intros H. case_all. lia. Qed.

Lemma set_inv owner conn pw st st' tok :
  set owner conn pw st = Some (st', tok) →
  (pw = [] ∧ st' = st ∧ tok = None) ∨
  (pw ≠ [] ∧ tok = Some (mkToken (mkCredentialKey owner conn) (next_generation st + 1)) ∧
   st' = mkState (<[mkCredentialKey owner conn := mkCred pw (next_generation st + 1)]> (credentials st))
           (purpose_credentials st) (pool_credential_owners st) (next_generation st + 1)).
Proof.
  unfold set. destruct (decide _); [naive_solver|].
  destruct (bump _) as [g|] eqn:E; [|done]. apply bump_Some in E as [-> _].
  intros [= <- <-]. eauto.
Qed.

Lemma set_purpose_inv owner conn purp pw st st' tok :
  set_for_purpose_with_token owner conn purp pw st = Some (st', tok) →
  (st' = st ∧ tok = None) ∨
  (let k := mkPurposeKey (mkCredentialKey owner conn) purp in
   tok = Some (mkPurposeToken k (next_generation st + 1)) ∧
   st' = mkState (credentials st) (<[k := mkCred pw (next_generation st + 1)]> (purpose_credentials st))
           (pool_credential_owners st) (next_generation st + 1)).
Proof.
  unfold set_for_purpose_with_token. destruct (decide _); [naive_solver|].
  destruct (bump _) as [g|] eqn:E; [|done]. apply bump_Some in E as [-> _].
  intros [= <- <-]. eauto.
Qed.

(** Case analysis on one executed operation. *)
Ltac exec_cases op :=
  destruct op as [ow cn pw|ow cn pu pw|ow cn|tk|tk|ow|cn| |pk ow|pks|]; simpl in *;
  [ destruct (set ow cn pw _) as [[? ?]|] eqn:Eset; simplify_eq/=;
    apply set_inv in Eset as [(-> & -> & _)|(? & _ & ->)]
  | unfold set_for_purpose in *;
    destruct (set_for_purpose_with_token ow cn pu pw _) as [[? ?]|] eqn:Eset; simplify_eq/=;
    apply set_purpose_inv in Eset as [(-> & _)|(_ & ->)]
  | simplify_eq/=
  | unfold remove_if_current in *; simplify_eq/=;
    destruct (credentials _ !! key tk) as [[? ?]|] eqn:Ecur; [destruct (decide _)|]
  | unfold remove_purpose_if_current in *; simplify_eq/=;
    destruct (purpose_credentials _ !! purpose_key tk) as [[? ?]|] eqn:Ecur; [destruct (decide _)|]
  | simplify_eq/= .. ]; simpl in *.

(** An entry of the store after an operation is an entry from before, or is
    the value just written under the next generation number. *)
Lemma exec_credentials op st st' k e :
  cred_exec op st = Some st' → credentials st' !! k = Some e →
  credentials st !! k = Some e ∨
  (generation e = (next_generation st + 1)%N ∧ next_generation st' = (next_generation st + 1)%N ∧
   ∃ p, op = OpSet (owner_scope k) (connection_id k) p ∧ p ≠ []).
Proof.
  intros Hexec Hk. exec_cases op; eauto.
  - apply lookup_insert_Some in Hk as [[<- <-]|[? ?]]; simpl; eauto 10.
  - apply lookup_delete_Some in Hk as [_ ?]; auto.
  - apply lookup_delete_Some in Hk as [_ ?]; auto.
  - apply map_lookup_filter_Some in Hk as [? _]; auto.
  - apply map_lookup_filter_Some in Hk as [? _]; auto.
Qed.

Lemma exec_purpose_credentials op st st' k e :
  cred_exec op st = Some st' → purpose_credentials st' !! k = Some e →
  purpose_credentials st !! k = Some e ∨
  (generation e = (next_generation st + 1)%N ∧ next_generation st' = (next_generation st + 1)%N ∧
   ∃ p, op = OpSetPurpose (owner_scope (credential k)) (connection_id (credential k)) (purpose k) p).
Proof.
  intros Hexec Hk. exec_cases op; eauto.
  - apply lookup_insert_Some in Hk as [[<- <-]|[? ?]]; simpl; eauto 10.
  - apply map_lookup_filter_Some in Hk as [? _]; auto.
  - apply lookup_delete_Some in Hk as [_ ?]; auto.
  - apply map_lookup_filter_Some in Hk as [? _]; auto.
  - apply map_lookup_filter_Some in Hk as [? _]; auto.
Qed.

Lemma exec_generation op st st' :
  cred_exec op st = Some st' → (next_generation st ≤ next_generation st')%N.
Proof. intros Hexec. exec_cases op; lia. Qed.

(** An operation on behalf of another session leaves the entries of a scope
    as they are. *)
Lemma exec_other_owner op o o' c st st' :
  op_owner op = Some o' → o' ≠ o → cred_exec op st = Some st' →
  credentials st' !! mkCredentialKey o c = credentials st !! mkCredentialKey o c ∧
  ∀ u, purpose_credentials st' !! mkPurposeKey (mkCredentialKey o c) u =
       purpose_credentials st !! mkPurposeKey (mkCredentialKey o c) u.
Proof.
  intros Ho Hne Hexec.
  exec_cases op; simplify_eq/=; split; intros; try done.
  all: rewrite ?lookup_insert_ne, ?lookup_delete_ne
         by (intros Heq; apply Hne; rewrite ?Heq; by simplify_eq/=); try done.
  all: apply filter_keep; naive_solver.
Qed.

Lemma run_inv (I : SessionCredentialState → Prop) ops st st' :
  (∀ op s s', op ∈ ops → I s → cred_exec op s = Some s' → I s') →
  I st → cred_run ops st = Some st' → I st'.
Proof.
  intros Hstep. revert st. induction ops as [|op ops IH]; intros st HI Hrun; simplify_eq/=; [done|].
  apply bind_Some in Hrun as (s & Hs & Hrun).
  eapply IH; [|eapply Hstep; [..|done]|done]; set_solver.
Qed.

(** ** Theorems *)

(** Operations of other owner scopes never change what `get` and `get_for_purpose` return for
    an owner. *)
Theorem sessions_are_isolated ops o st st' :
  Forall (λ op, ∃ o', op_owner op = Some o' ∧ o' ≠ o) ops →
  cred_run ops st = Some st' →
  ∀ c, get o c st' = get o c st ∧ ∀ u, get_for_purpose o c u st' = get_for_purpose o c u st.
Proof.
  rewrite Forall_forall. intros Hall Hrun c.
  eapply (run_inv (λ s, get o c s = get o c st ∧
                        ∀ u, get_for_purpose o c u s = get_for_purpose o c u st)); [|done..].
  intros op s s' Hin [HI1 HI2] Hexec. destruct (Hall op Hin) as (o' & Ho & Hne).
  destruct (exec_other_owner op o o' c s s') as [E1 E2]; [done..|].
  unfold get, get_for_purpose in *. rewrite E1. split; [done|]. intros u. by rewrite E2.
Qed.

(** Once a key has been written after generation [g], whatever it holds later
    is newer than [g]. *)
Lemma newer_than_stays g k ops st st' :
  (g ≤ next_generation st)%N →
  (∀ e, credentials st !! k = Some e → (g < generation e)%N) →
  cred_run ops st = Some st' →
  ∀ e, credentials st' !! k = Some e → (g < generation e)%N.
Proof.
  intros Hg Hk Hrun.
  refine (proj2 (run_inv (λ s, (g ≤ next_generation s)%N ∧
            ∀ e, credentials s !! k = Some e → (g < generation e)%N) ops st st' _ (conj Hg Hk) Hrun)).
  clear st st' Hg Hk Hrun. intros op s s' _ [Hg Hk] Hexec. split.
  - etrans; [done|by eapply exec_generation].
  - intros e He. eapply exec_credentials in He as [?|(? & ? & _)]; [eauto|lia|done].
Qed.

Lemma run_app ops1 ops2 st st' :
  cred_run (ops1 ++ ops2) st = Some st' →
  ∃ s, cred_run ops1 st = Some s ∧ cred_run ops2 s = Some st'.
Proof.
  revert st; induction ops1 as [|op ops IH]; intros st Hrun; simpl in *; [eauto|].
  apply bind_Some in Hrun as (s & -> & Hrun). by apply IH.
Qed.

Lemma run_generation ops st st' :
  cred_run ops st = Some st' → (next_generation st ≤ next_generation st')%N.
Proof.
  intros Hrun. eapply (run_inv (λ s, (next_generation st ≤ next_generation s)%N)); [|done..].
  intros op s s' _ ? Hexec. etrans; [done|by eapply exec_generation].
Qed.

Lemma cred_run_cons op ops st st' :
  cred_run (op :: ops) st = Some st' →
  ∃ s, cred_exec op st = Some s ∧ cred_run ops s = Some st'.
Proof. simpl. by intros (s & ? & ?)%bind_Some; eauto. Qed.

(** C33: After a password was stored again for the same owner and connection, whatever else happened
    before or after, the write token of the older write removes nothing. *)
Theorem stale_rollback_keeps_newer_password o c p p' st st1 tok pre post st2 :
  set o c p st = Some (st1, Some tok) → p' ≠ [] →
  cred_run (pre ++ OpSet o c p' :: post) st1 = Some st2 →
  remove_if_current tok st2 = (st2, false).
Proof.
  intros Hset Hp' (s & Hpre & (s' & Hexec & Hpost)%cred_run_cons)%run_app.
  apply set_inv in Hset as [(_ & _ & ?)|(_ & Htok & ->)]; [done|]. simplify_eq/=.
  apply run_generation in Hpre. simpl in Hpre.
  destruct (set o c p' s) as [[s1 tok']|] eqn:Eset; simplify_eq/=.
  apply set_inv in Eset as [(? & _)|(_ & _ & ->)]; [done|].
  unfold remove_if_current; simpl.
  destruct (credentials st2 !! mkCredentialKey o c) as [e|] eqn:Ee; [|done].
  rewrite decide_False; [done|].
  eapply (newer_than_stays (next_generation st + 1)) in Hpost; [..|done]; simpl; [lia|lia|].
  intros e'. rewrite lookup_insert_eq. intros [= <-]; simpl. lia.
Qed.

(** The operations that write or delete the entry of a key. *)
Definition touches (k : CredentialKey) (op : cred_op) : Prop :=
  match op with
  | OpSet o c p => mkCredentialKey o c = k ∧ p ≠ []
  | OpRemove o c => mkCredentialKey o c = k
  | OpRemoveIfCurrent t => key t = k
  | OpClearOwner o => o = owner_scope k
  | OpClearConnection c => c = connection_id k
  | OpClear => True
  | _ => False
  end.

Lemma exec_untouched k op st st' :
  ¬ touches k op → cred_exec op st = Some st' → credentials st' !! k = credentials st !! k.
Proof.
  intros Ht Hexec. exec_cases op; try done.
  all: rewrite ?lookup_insert_ne, ?lookup_delete_ne by naive_solver; try done.
  all: apply filter_keep; naive_solver.
Qed.

(** A write token whose entry was not touched since removes the password it wrote, and no other
    credential. *)
Theorem rollback_removes_exactly_its_write o c p st st1 tok ops st2 st3 b :
  set o c p st = Some (st1, Some tok) →
  Forall (λ op, ¬ touches (mkCredentialKey o c) op) ops →
  cred_run ops st1 = Some st2 →
  remove_if_current tok st2 = (st3, b) →
  b = true ∧ get o c st2 = Some p ∧ get o c st3 = None ∧
  (∀ o' c', (o', c') ≠ (o, c) → get o' c' st3 = get o' c' st2) ∧
  purpose_credentials st3 = purpose_credentials st2.
Proof.
  intros Hset Hops Hrun Hrem.
  apply set_inv in Hset as [(_ & _ & ?)|(_ & Htok & ->)]; [done|]. simplify_eq/=.
  set (g := (next_generation st + 1)%N) in *.
  assert (credentials st2 !! mkCredentialKey o c = Some (mkCred p g)) as Hcur.
  { rewrite Forall_forall in Hops.
    eapply (run_inv (λ s, credentials s !! mkCredentialKey o c = Some (mkCred p g))); [| |done];
      [|apply lookup_insert_eq].
    intros op s s' Hin Hs Hexec. rewrite (exec_untouched _ op s s'); [done| |done].
    by apply (Hops op). }
  unfold remove_if_current, get in *; simpl in *. rewrite Hcur in Hrem; simpl in Hrem.
  rewrite decide_True in Hrem by done. simplify_eq/=. rewrite Hcur, lookup_delete_eq.
  split_and!; try done. intros o' c' Hne. rewrite lookup_delete_ne by congruence. done.
Qed.

(** `clear_connection` removes every credential of the connection and the owner of each of its
    pools, and leaves all other connections and pools as they were. *)
Theorem clear_connection_forgets conn st :
  let st' := clear_connection conn st in
  (∀ o, get o conn st' = None ∧ ∀ u, get_for_purpose o conn u st' = None) ∧
  (∀ o pk, pk = conn ∨ conn ++ lit ":" `prefix_of` pk → pool_owner_mismatch pk o st' = true) ∧
  (∀ o c, c ≠ conn → get o c st' = get o c st ∧
          ∀ u, get_for_purpose o c u st' = get_for_purpose o c u st) ∧
  (∀ o pk, pk ≠ conn → ¬ conn ++ lit ":" `prefix_of` pk →
           pool_owner_mismatch pk o st' = pool_owner_mismatch pk o st).
Proof.
  unfold clear_connection, get, get_for_purpose, pool_owner_mismatch; simpl. split_and!.
  - intros o. split; intros; rewrite filter_drop by naive_solver; done.
  - intros o pk Hpk. rewrite filter_drop; [done|]. intros a [H1 H2]; simpl in *.
    destruct Hpk as [->|Hp%starts_with_spec]; [done|congruence].
  - intros o c Hc. split; intros; rewrite filter_keep by naive_solver; done.
  - intros o pk Hpk Hpre. rewrite filter_keep; [done|]. intros a; simpl. split; [done|].
    destruct (starts_with _ _) eqn:E; [|done]. by apply starts_with_spec in E.
Qed.

(** Every stored generation was handed out by the counter, and no two entries
    of the store carry the same one. *)
Definition cred_wf (st : SessionCredentialState) : Prop :=
  (∀ k e, credentials st !! k = Some e → (0 < generation e ≤ next_generation st)%N) ∧
  (∀ k e, purpose_credentials st !! k = Some e → (0 < generation e ≤ next_generation st)%N) ∧
  (∀ k1 k2 e1 e2, credentials st !! k1 = Some e1 → credentials st !! k2 = Some e2 →
                  generation e1 = generation e2 → k1 = k2) ∧
  (∀ k1 k2 e1 e2, purpose_credentials st !! k1 = Some e1 → purpose_credentials st !! k2 = Some e2 →
                  generation e1 = generation e2 → k1 = k2) ∧
  (∀ k1 k2 e1 e2, credentials st !! k1 = Some e1 → purpose_credentials st !! k2 = Some e2 →
                  generation e1 ≠ generation e2) ∧
  (next_generation st ≤ u64_max)%N.

Lemma exec_counter_bound op st st' :
  (next_generation st ≤ u64_max)%N → cred_exec op st = Some st' → (next_generation st' ≤ u64_max)%N.
Proof.
  intros Hb. destruct op; simpl; unfold set_for_purpose, set, set_for_purpose_with_token, bump,
    remove_if_current, remove_purpose_if_current; intros H; case_all; lia.
Qed.

Lemma cred_wf_exec op st st' : cred_wf st → cred_exec op st = Some st' → cred_wf st'.
Proof.
  intros (W1 & W2 & W3 & W4 & W5 & W6) Hexec.
  pose proof (exec_generation _ _ _ Hexec) as Hmono.
  pose proof (exec_credentials op st st') as Hc. pose proof (exec_purpose_credentials op st st') as Hp.
  split_and!.
  - intros k e He. destruct (Hc k e Hexec He) as [H|(? & ? & _)]; [apply W1 in H; lia|lia].
  - intros k e He. destruct (Hp k e Hexec He) as [H|(? & ? & _)]; [apply W2 in H; lia|lia].
  - intros k1 k2 e1 e2 H1 H2 Heq.
    destruct (Hc k1 e1 Hexec H1) as [O1|(G1 & _ & p1 & E1 & _)],
      (Hc k2 e2 Hexec H2) as [O2|(G2 & _ & p2 & E2 & _)].
    + eauto.
    + apply W1 in O1. lia.
    + apply W1 in O2. lia.
    + destruct k1, k2. simplify_eq/=. congruence.
  - intros k1 k2 e1 e2 H1 H2 Heq.
    destruct (Hp k1 e1 Hexec H1) as [O1|(G1 & _ & p1 & E1)],
      (Hp k2 e2 Hexec H2) as [O2|(G2 & _ & p2 & E2)].
    + eauto.
    + apply W2 in O1. lia.
    + apply W2 in O2. lia.
    + destruct k1 as [[]], k2 as [[]]. simplify_eq/=. congruence.
  - intros k1 k2 e1 e2 H1 H2 Heq.
    destruct (Hc k1 e1 Hexec H1) as [O1|(G1 & _ & p1 & E1 & _)],
      (Hp k2 e2 Hexec H2) as [O2|(G2 & _ & p2 & E2)].
    + eapply W5; eauto.
    + apply W1 in O1. lia.
    + apply W2 in O2. lia.
    + congruence.
  - by eapply exec_counter_bound.
Qed.

(** No stored generation exceeds the counter, and distinct entries carry the
    generations of distinct writes. *)
Theorem generations_identify_writes ops st :
  cred_run ops new = Some st → cred_wf st.
Proof.
  intros Hrun. eapply run_inv; [|  |exact Hrun].
  - intros op s s' _ Hs Hexec. by eapply cred_wf_exec.
  - by split_and!; intros *; rewrite ?lookup_empty.
Qed.

(** ** Witnesses *)
Definition pw1 : str := lit "hunter2".
Definition pw2 : str := lit "swordfish".
Definition alice : str := lit "session-a".
Definition bob : str := lit "session-b".
Definition c1 : str := lit "c1".
Definition st_alice : SessionCredentialState := default new (fst <$> set alice c1 pw1 new).
Definition tok_alice : SessionCredentialWriteToken := mkToken (mkCredentialKey alice c1) 1.

Lemma sessions_are_isolated_witness :
  get alice c1 (default new (cred_run [OpSet bob c1 pw2; OpClearOwner bob] st_alice)) = Some pw1.
Proof.
  refine (proj1 (sessions_are_isolated [OpSet bob c1 pw2; OpClearOwner bob] alice st_alice _ _ _ c1)).
  - repeat constructor; exists bob; split; [reflexivity|vm_compute; discriminate| |vm_compute; discriminate].
    reflexivity.
  - vm_compute. reflexivity.
Defined.

Lemma stale_rollback_witness :
  let st2 := default new (cred_run ([] ++ [OpSet alice c1 pw2]) st_alice) in
  remove_if_current tok_alice st2 = (st2, false).
Proof.
  refine (stale_rollback_keeps_newer_password alice c1 pw1 pw2 new st_alice tok_alice [] [] _ _ _ _);
    vm_compute; [reflexivity|discriminate|reflexivity].
Defined.

Lemma rollback_witness :
  (remove_if_current tok_alice (default new (cred_run [OpSet bob c1 pw2] st_alice))).2 = true.
Proof.
  refine (proj1 (rollback_removes_exactly_its_write alice c1 pw1 new st_alice tok_alice
                   [OpSet bob c1 pw2] _ _ _ _ _ _ _)).
  - vm_compute. reflexivity.
  - constructor; [|constructor]. intros [H _]. discriminate H.
  - vm_compute. reflexivity.
  - vm_compute. reflexivity.
Defined.

Lemma generations_witness : cred_wf st_alice.
Proof. apply (generations_identify_writes [OpSet alice c1 pw1]). reflexivity. Defined.
