(* ===== verification/QueryCancel.v ===== *)
(** The registry of running queries ([crates/dbx-core/src/query_cancel.rs]).

    The two maps of [RunningQueries] are [inner] and [completed].  The objects
    that tasks share with their callers are kept in the same record:
    [cancelled] holds the [CancellationToken]s on which [cancel()] was called,
    [terminal] the completion channels whose value is [true], [fired] the
    interrupt closures invoked so far.  A registration allocates one token and
    one channel, both named by the allocation counter [next_object]; an
    interrupt closure is named by a number of the caller's choice. *)
From S2P Require Import Prelude.
From stdpp Require Import sorting.
Local Open Scope dbx_scope.

Abbreviation Instant := N (only parsing).

(** 30 minutes, in nanoseconds *)
Definition DETACHED_REGISTRATION_GRACE_PERIOD : N := 30 * 60 * 1000000000.

Inductive RunningTaskKind := Query | Count | Explain | Export | Unknown.

#[export] Instance RunningTaskKind_eq_dec : EqDecision RunningTaskKind.
Proof. solve_decision. Defined.

Record RunningTaskMetadata := mkMetadata {
  kind : RunningTaskKind;
  connection_id : option str;
  database : option str;
  client_session_id : option str;
  owner_scope : option str;
}.

Definition metadata_default : RunningTaskMetadata := mkMetadata Unknown None None None None.

Definition task_kind_from_client_session_id (client_session_id : option str) : RunningTaskKind :=
  match client_session_id with
  | None => Query
  | Some sid =>
      let session_id := to_ascii_lowercase (trim sid) in
      if ends_with (lit ":count") session_id then Count
      else if ends_with (lit ":explain") session_id then Explain
      else if ends_with (lit ":export") session_id then Export
      else Query
  end.

Definition owner_scope_from_client_session_id (client_session_id : str) : option str :=
  owner ← head (split_char (chr ":") (trim client_session_id));
  let owner := trim owner in
  if decide (owner = []) then None else Some owner.

Definition metadata_query (conn db : str) (client_session_id : option str) : RunningTaskMetadata :=
  mkMetadata (task_kind_from_client_session_id client_session_id) (Some conn) (Some db)
    client_session_id (client_session_id ≫= owner_scope_from_client_session_id).

Definition with_owner_scope (scope : str) (m : RunningTaskMetadata) : RunningTaskMetadata :=
  mkMetadata (kind m) (connection_id m) (database m) (client_session_id m) (Some scope).

Record RunningTask := mkTask {
  registration_id : N;
  token : N;
  completion : N;
  remember_completion : bool;
  metadata : RunningTaskMetadata;
  pool_key : option str;
  interrupt : option N;
}.

Definition set_interrupt (i : option N) (t : RunningTask) : RunningTask :=
  mkTask (registration_id t) (token t) (completion t) (remember_completion t) (metadata t) (pool_key t) i.
Definition set_pool (p : option str) (t : RunningTask) : RunningTask :=
  mkTask (registration_id t) (token t) (completion t) (remember_completion t) (metadata t) p (interrupt t).

Record RunningQueries := mkRQ {
  inner : gmap str RunningTask;
  completed : gmap str N;
  next_registration_id : N;
  cancelled : gset N;
  terminal : gset N;
  fired : list N;
  next_object : N;
}.

Definition rq_default : RunningQueries := mkRQ ∅ ∅ 0 ∅ ∅ [] 0.

Record RegisteredQuery := mkGuard {
  g_execution_id : str;
  g_registration_id : N;
  g_token : N;
}.

Record CancellationWaitResult := mkWait { requested : bool; wait_terminal : bool }.

(** [elapsed() < DETACHED_REGISTRATION_GRACE_PERIOD] *)
Definition within_grace (now completed_at : Instant) : bool :=
  bool_decide (now - completed_at < DETACHED_REGISTRATION_GRACE_PERIOD)%N.

Definition retain_recent (now : Instant) (m : gmap str N) : gmap str N :=
  filter (λ kv, within_grace now kv.2 = true) m.

Definition fire (i : option N) (l : list N) : list N := l ++ option_list i.

Definition register_task_with_completion_tracking (now : Instant) (execution_id : str)
    (meta : RunningTaskMetadata) (remember : bool) (st : RunningQueries)
  : RunningQueries * RegisteredQuery :=
  let obj := next_object st in
  let registration_id := wrap_u64 (next_registration_id st + 1) in
  let task := mkTask registration_id obj obj remember meta None None in
  let completed' := delete execution_id (retain_recent now (completed st)) in
  let inner' := <[execution_id := task]> (inner st) in
  let st' :=
    match inner st !! execution_id with
    | Some previous =>
        mkRQ inner' completed' registration_id ({[token previous]} ∪ cancelled st)
          ({[completion previous]} ∪ terminal st) (fire (interrupt previous) (fired st)) (obj + 1)
    | None => mkRQ inner' completed' registration_id (cancelled st) (terminal st) (fired st) (obj + 1)
    end in
  (st', mkGuard execution_id registration_id obj).

Definition register_task now execution_id meta st :=
  register_task_with_completion_tracking now execution_id meta false st.
Definition register now execution_id st := register_task now execution_id metadata_default st.
Definition register_task_for_terminal_confirmation now execution_id meta st :=
  register_task_with_completion_tracking now execution_id meta true st.

Definition set_inner (m : gmap str RunningTask) (st : RunningQueries) : RunningQueries :=
  mkRQ m (completed st) (next_registration_id st) (cancelled st) (terminal st) (fired st) (next_object st).
Definition set_completed (m : gmap str N) (st : RunningQueries) : RunningQueries :=
  mkRQ (inner st) m (next_registration_id st) (cancelled st) (terminal st) (fired st) (next_object st).
Definition set_fired (l : list N) (st : RunningQueries) : RunningQueries :=
  mkRQ (inner st) (completed st) (next_registration_id st) (cancelled st) (terminal st) l (next_object st).

Definition completed_execution_is_terminal (now : Instant) (execution_id : str) (st : RunningQueries)
  : RunningQueries * bool :=
  match inner st !! execution_id with
  | Some _ => (st, false)
  | None =>
      let m := retain_recent now (completed st) in
      (set_completed m st, bool_decide (is_Some (m !! execution_id)))
  end.

Definition register_interrupt (execution_id : str) (i : N) (st : RunningQueries) : RunningQueries :=
  match inner st !! execution_id with
  | Some task =>
      if decide (token task ∈ cancelled st) then set_fired (fired st ++ [i]) st
      else set_inner (<[execution_id := set_interrupt (Some i) task]> (inner st)) st
  | None => set_fired (fired st ++ [i]) st
  end.

Definition cancel (execution_id : str) (st : RunningQueries) : RunningQueries * bool :=
  match inner st !! execution_id with
  | None => (st, false)
  | Some task =>
      let cancelled' := {[token task]} ∪ cancelled st in
      if remember_completion task then
        (mkRQ (<[execution_id := set_interrupt None task]> (inner st)) (completed st)
           (next_registration_id st) cancelled' (terminal st) (fire (interrupt task) (fired st))
           (next_object st), true)
      else
        (mkRQ (delete execution_id (inner st)) (completed st) (next_registration_id st) cancelled'
           ({[completion task]} ∪ terminal st) (fire (interrupt task) (fired st)) (next_object st), true)
  end.

(** [cancel_and_wait] up to its [timeout(..)]: the immediate answer, or the
    completion channel it goes on to wait for. *)
Definition cancel_and_wait_start (now : Instant) (execution_id : str) (st : RunningQueries)
  : RunningQueries * (CancellationWaitResult + N) :=
  match inner st !! execution_id with
  | None =>
      let '(st', t) := completed_execution_is_terminal now execution_id st in (st', inl (mkWait false t))
  | Some task =>
      let channel := completion task in
      let '(st', ok) := cancel execution_id st in
      if ok then (st', inr channel)
      else let '(st'', t) := completed_execution_is_terminal now execution_id st' in
           (st'', inl (mkWait false t))
  end.

(** One poll of the wait: [None] while it goes on. *)
Definition cancel_and_wait_poll (channel : N) (timed_out : bool) (st : RunningQueries)
  : option CancellationWaitResult :=
  if decide (channel ∈ terminal st) then Some (mkWait true true)
  else if timed_out then Some (mkWait true false) else None.

Definition matching_ids (predicate : RunningTask → bool) (st : RunningQueries) : list str :=
  (filter (λ kv, predicate kv.2 = true) (map_to_list (inner st))).*1.

Fixpoint cancel_each (ids : list str) (st : RunningQueries) : RunningQueries * nat :=
  match ids with
  | [] => (st, 0)
  | id :: ids' =>
      let '(st', ok) := cancel id st in
      let '(st'', n) := cancel_each ids' st' in
      (st'', if ok then S n else n)
  end.

Definition cancel_matching (predicate : RunningTask → bool) (st : RunningQueries) : RunningQueries * nat :=
  cancel_each (matching_ids predicate st) st.

Definition cancel_connection (conn : str) : RunningQueries → RunningQueries * nat :=
  cancel_matching (λ task, bool_decide (connection_id (metadata task) = Some conn)).
Definition cancel_client_session (sid : str) : RunningQueries → RunningQueries * nat :=
  cancel_matching (λ task, bool_decide (client_session_id (metadata task) = Some sid)).
Definition cancel_owner_scope (scope : str) : RunningQueries → RunningQueries * nat :=
  cancel_matching (λ task, bool_decide (owner_scope (metadata task) = Some scope)).
Definition cancel_all : RunningQueries → RunningQueries * nat := cancel_matching (λ _, true).

Definition set_pool_key (execution_id pool_key : str) (st : RunningQueries) : RunningQueries :=
  match inner st !! execution_id with
  | Some task => set_inner (<[execution_id := set_pool (Some pool_key) task]> (inner st)) st
  | None => st
  end.

Definition is_pool_active (pk : str) (st : RunningQueries) : bool :=
  existsb (λ kv, bool_decide (pool_key kv.2 = Some pk)) (map_to_list (inner st)).

Definition remove (now : Instant) (execution_id : str) (reg : N) (st : RunningQueries) : RunningQueries :=
  match inner st !! execution_id with
  | Some task =>
      if decide (registration_id task = reg) then
        mkRQ (delete execution_id (inner st))
          (if remember_completion task then <[execution_id := now]> (completed st) else completed st)
          (next_registration_id st) (cancelled st) ({[completion task]} ∪ terminal st) (fired st)
          (next_object st)
      else st
  | None => st
  end.

(** ** Diagnostics *)

Record RunningQueryDiagnostics := mkDiag {
  active_execution_ids : list str;
  active_by_connection : gmap str nat;
  interrupt_registrations : nat;
}.

Definition count_connection (m : gmap str nat) (task : RunningTask) : gmap str nat :=
  match connection_id (metadata task) with
  | Some conn => <[conn := S (default 0 (m !! conn))]> m
  | None => m
  end.

Definition diagnostics (st : RunningQueries) : RunningQueryDiagnostics :=
  let tasks := (map_to_list (inner st)).*2 in
  mkDiag (merge_sort str_le (map_to_list (inner st)).*1)
    (foldl count_connection ∅ tasks)
    (length (filter (λ task, is_Some (interrupt task)) tasks)).

(** ** Guards

    [detach] leaves the entry in place and schedules its removal; a dropped
    guard removes it at once. *)
Record reclaim := mkReclaim { deadline : Instant; r_execution_id : str; r_registration_id : N }.

Definition detach (now : Instant) (g : RegisteredQuery) : reclaim :=
  mkReclaim (now + DETACHED_REGISTRATION_GRACE_PERIOD)%N (g_execution_id g) (g_registration_id g).

Definition drop_guard (now : Instant) (g : RegisteredQuery) (st : RunningQueries) : RunningQueries :=
  remove now (g_execution_id g) (g_registration_id g) st.

Inductive QueryExecutionError (AgentCallError AgentErrorStage AgentOperationOutcome : Type) :=
| QAgent (e : AgentCallError)
| QDuckDb (code message : str)
| QCanceled (stage : AgentErrorStage) (operation_outcome : AgentOperationOutcome)
| QTimeout (message : str)
| QSql (message : str)
| QLegacy (message : str).
Arguments QAgent {_ _ _} e.
Arguments QDuckDb {_ _ _} code message.
Arguments QCanceled {_ _ _} stage operation_outcome.
Arguments QTimeout {_ _ _} message.
Arguments QSql {_ _ _} message.
Arguments QLegacy {_ _ _} message.

Definition finish_with_late_cancel {T A S O} (now : Instant) (g : RegisteredQuery)
    (result : result T (QueryExecutionError A S O)) (keep_timeout_reachable : bool)
    (st : RunningQueries) : RunningQueries * option reclaim :=
  match keep_timeout_reachable, result with
  | true, Err (QTimeout _) => (st, Some (detach now g))
  | _, _ => (drop_guard now g st, None)
  end.

Definition finish {T A S O} (now : Instant) (g : RegisteredQuery)
    (result : result T (QueryExecutionError A S O)) (st : RunningQueries)
  : RunningQueries * option reclaim :=
  finish_with_late_cancel now g result true st.

(** ** Executions

    A configuration adds the clock, the guards that callers hold and the
    scheduled removals.  Its ledger keeps what became of the interrupts: those
    handed to [register_interrupt], those that a later one of the same task
    replaced, and those dropped with a task that finished. *)
Record ledger := mkLedger { offered : list N; replaced : list N; discarded : list N }.

Record rq_conf := mkRConf {
  rq : RunningQueries;
  clock : Instant;
  guards : list RegisteredQuery;
  reclaims : list reclaim;
  book : ledger;
}.

Definition rq_init : rq_conf := mkRConf rq_default 0 [] [] (mkLedger [] [] []).

(** The interrupt that [register_interrupt] overwrites. *)
Definition replaced_by (execution_id : str) (st : RunningQueries) : option N :=
  task ← inner st !! execution_id; if decide (token task ∈ cancelled st) then None else interrupt task.
(** The interrupt that [remove] drops. *)
Definition discarded_by (execution_id : str) (reg : N) (st : RunningQueries) : option N :=
  task ← inner st !! execution_id; if decide (registration_id task = reg) then interrupt task else None.
Definition offer (i : N) (old : option N) (l : ledger) : ledger :=
  mkLedger (offered l ++ [i]) (replaced l ++ option_list old) (discarded l).
Definition discard (old : option N) (l : ledger) : ledger :=
  mkLedger (offered l) (replaced l) (discarded l ++ option_list old).
(** A [CancellationToken] is cloned to the code that runs the task, which may cancel it by itself
    and does not tell the registry. *)
Definition cancel_token (tok : N) (st : RunningQueries) : RunningQueries :=
  mkRQ (inner st) (completed st) (next_registration_id st) ({[tok]} ∪ cancelled st) (terminal st) (fired st) (next_object st).

Inductive rq_step : rq_conf → rq_conf → Prop :=
| rs_tick c t : (clock c ≤ t)%N → rq_step c (mkRConf (rq c) t (guards c) (reclaims c) (book c))
| rs_register c exec meta remember st' g :
    register_task_with_completion_tracking (clock c) exec meta remember (rq c) = (st', g) →
    rq_step c (mkRConf st' (clock c) (g :: guards c) (reclaims c) (book c))
| rs_interrupt c exec i :
    rq_step c (mkRConf (register_interrupt exec i (rq c)) (clock c) (guards c) (reclaims c)
                 (offer i (replaced_by exec (rq c)) (book c)))
| rs_cancel c exec :
    rq_step c (mkRConf (cancel exec (rq c)).1 (clock c) (guards c) (reclaims c) (book c))
| rs_token c tok :
    (tok < next_object (rq c))%N →
    rq_step c (mkRConf (cancel_token tok (rq c)) (clock c) (guards c) (reclaims c) (book c))
| rs_query_terminal c exec :
    rq_step c (mkRConf (completed_execution_is_terminal (clock c) exec (rq c)).1 (clock c)
                 (guards c) (reclaims c) (book c))
| rs_pool c exec pk :
    rq_step c (mkRConf (set_pool_key exec pk (rq c)) (clock c) (guards c) (reclaims c) (book c))
| rs_drop c g pre post :
    guards c = pre ++ g :: post →
    rq_step c (mkRConf (drop_guard (clock c) g (rq c)) (clock c) (pre ++ post) (reclaims c)
                 (discard (discarded_by (g_execution_id g) (g_registration_id g) (rq c)) (book c)))
| rs_detach c g pre post :
    guards c = pre ++ g :: post →
    rq_step c (mkRConf (rq c) (clock c) (pre ++ post) (detach (clock c) g :: reclaims c) (book c))
| rs_reclaim c r pre post :
    reclaims c = pre ++ r :: post → (deadline r ≤ clock c)%N →
    rq_step c (mkRConf (remove (clock c) (r_execution_id r) (r_registration_id r) (rq c))
                 (clock c) (guards c) (pre ++ post)
                 (discard (discarded_by (r_execution_id r) (r_registration_id r) (rq c)) (book c))).

(** ** Invariant *)
Record rq_wf (st : RunningQueries) : Prop := {
  (** A registered task has not reported completion. *)
  wf_running : ∀ e t, inner st !! e = Some t → completion t ∉ terminal st;
  (** A registration that is no longer in the registry has: nobody waits for it in vain. *)
  wf_settled : ∀ o, (o < next_object st)%N → o ∈ terminal st ∨ ∃ e t, inner st !! e = Some t ∧ completion t = o;
  (** Objects are allocated once. *)
  wf_fresh : ∀ e t, inner st !! e = Some t → (token t < next_object st)%N ∧ completion t = token t ∧
               registration_id t = wrap_u64 (token t + 1);
  wf_distinct : ∀ e1 e2 t1 t2, inner st !! e1 = Some t1 → inner st !! e2 = Some t2 →
                  token t1 = token t2 → e1 = e2;
  wf_alloc : (∀ o, o ∈ cancelled st → (o < next_object st)%N) ∧ (∀ o, o ∈ terminal st → (o < next_object st)%N);
  wf_counter : next_registration_id st = wrap_u64 (next_object st);
  (** A registered execution has no completion record. *)
  wf_completed : ∀ e t, inner st !! e = Some t → completed st !! e = None;
}.

Lemma wf_init : rq_wf rq_default.
Proof. split; simpl; try set_solver; intros *; (by rewrite lookup_empty) || lia. Qed.

(** Taking a task out of the registry, whether its token is cancelled on the
    way or not. *)
Lemma wf_retire st exec t comp cs fs :
  rq_wf st → inner st !! exec = Some t →
  (∀ e, e ≠ exec → completed st !! e = None → comp !! e = None) →
  cs ⊆ {[token t]} ∪ cancelled st →
  rq_wf (mkRQ (delete exec (inner st)) comp (next_registration_id st) cs ({[completion t]} ∪ terminal st) fs (next_object st)).
Proof.
  intros [W3 W9 W4 W5 [W6 W6'] W7 W8] Ht Hcomp Hcs.
  assert (∀ e u, delete exec (inner st) !! e = Some u →
                 e ≠ exec ∧ inner st !! e = Some u ∧ token u ≠ token t ∧ completion u ≠ completion t) as Hd.
  { intros e u [Hne Hu]%lookup_delete_Some.
    assert (token u ≠ token t) as Htok by (intros Heq; apply Hne; by eapply W5).
    destruct (W4 _ _ Hu) as (_ & -> & _), (W4 _ _ Ht) as (_ & -> & _). done. }
  split; simpl.
  - intros e u (_ & Hu & _ & Hne)%Hd Hin. set_solver.
  - intros o [Ho | (e & u & Hu & <-)]%W9; [set_solver |]. destruct (decide (e = exec)) as [-> |].
    + left. simplify_eq. set_solver.
    + right. exists e, u. split; [by rewrite lookup_delete_ne | done].
  - intros e u (_ & Hu & _)%Hd. eauto.
  - intros e1 e2 u1 u2 (_ & Hu1 & _)%Hd (_ & Hu2 & _)%Hd. eauto.
  - destruct (W4 _ _ Ht) as (? & ? & _). split; intros o Ho; [apply Hcs in Ho|];
      apply elem_of_union in Ho as [->%elem_of_singleton|]; eauto; congruence.
  - done.
  - intros e u (? & Hu & _)%Hd. eauto.
Qed.

(** Changing the pool key or the interrupt of a registered task. *)
Lemma wf_replace st exec t t' cs fs :
  rq_wf st → inner st !! exec = Some t →
  token t' = token t → completion t' = completion t → registration_id t' = registration_id t →
  cs ⊆ {[token t]} ∪ cancelled st →
  rq_wf (mkRQ (<[exec := t']> (inner st)) (completed st) (next_registration_id st) cs
           (terminal st) fs (next_object st)).
Proof.
  intros [W3 W9 W4 W5 [W6 W6'] W7 W8] Ht Etok Ecomp Ereg Hcs.
  assert (∀ e u, <[exec := t']> (inner st) !! e = Some u →
            (e = exec ∧ u = t') ∨ (e ≠ exec ∧ inner st !! e = Some u ∧ token u ≠ token t)) as Hd.
  { intros e u [[-> ->]|[Hne Hu]]%lookup_insert_Some; [by left|right].
    split_and!; [done..|]. intros Heq. apply Hne. by eapply W5. }
  split; simpl.
  - intros e u [[-> ->]|(_ & Hu & _)]%Hd; [rewrite Ecomp|]; eauto.
  - intros o [Ho | (e & u & Hu & <-)]%W9; [by left | right]. destruct (decide (e = exec)) as [-> |].
    + exists exec, t'. rewrite lookup_insert_eq. by simplify_eq.
    + exists e, u. by rewrite lookup_insert_ne.
  - intros e u [[-> ->]|(_ & Hu & _)]%Hd; [rewrite Etok, Ecomp, Ereg|]; eauto.
  - intros e1 e2 u1 u2 [[-> ->]|(_ & H1 & N1)]%Hd [[-> ->]|(_ & H2 & N2)]%Hd Heq; eauto; congruence.
  - split; [|done]. intros o Ho%Hcs. apply elem_of_union in Ho as [->%elem_of_singleton|]; [|eauto].
    by apply W4 in Ht as [? _].
  - done.
  - intros e u [[-> ->]|(_ & Hu & _)]%Hd; eauto.
Qed.

Lemma retain_recent_None now m (e : str) : m !! e = None → retain_recent now m !! e = None.
Proof. intros. apply map_lookup_filter_None. naive_solver. Qed.

(** Adding a task with freshly allocated objects under a free id. *)
Lemma wf_insert_fresh st exec comp meta remember :
  rq_wf st → inner st !! exec = None → comp !! exec = None →
  (∀ e, completed st !! e = None → comp !! e = None) →
  let reg := wrap_u64 (next_registration_id st + 1) in
  rq_wf (mkRQ (<[exec := mkTask reg (next_object st) (next_object st) remember meta None None]> (inner st))
           comp reg (cancelled st) (terminal st) (fired st) (next_object st + 1)).
Proof.
  intros [W3 W9 W4 W5 [W6 W6'] W7 W8] Hexec Hce Hcomp reg.
  assert (reg = wrap_u64 (next_object st + 1)) as Hreg.
  { unfold reg. rewrite W7. unfold wrap_u64. by rewrite N.Div0.add_mod_idemp_l. }
  assert (∀ e u, inner st !! e = Some u → (token u < next_object st)%N) as Hlt by naive_solver.
  split; simpl.
  - intros e u [[<- <-]|[? ?]]%lookup_insert_Some Hin; simpl in *; [apply W6' in Hin; lia|].
    by eapply W3.
  - intros o Ho. destruct (decide (o = next_object st)) as [-> |].
    + right. eexists exec, _. by rewrite lookup_insert_eq.
    + destruct (W9 o ltac:(lia)) as [? | (e & u & Hu & Hc)]; [by left | right]. exists e, u.
      rewrite lookup_insert_ne by congruence. done.
  - intros e u [[<- <-]|[? Hu]]%lookup_insert_Some; simpl; [split_and!; [lia|done|done]|].
    apply W4 in Hu as (? & ? & ?). split_and!; [lia|done..].
  - intros e1 e2 u1 u2 [[<- <-]|[? H1]]%lookup_insert_Some [[<- <-]|[? H2]]%lookup_insert_Some Heq;
      simpl in *; [done| | |eauto].
    + apply Hlt in H2. lia.
    + apply Hlt in H1. lia.
  - split; intros o Ho; [apply W6 in Ho|apply W6' in Ho]; lia.
  - done.
  - intros e u [[<- <-]|[? ?]]%lookup_insert_Some; eauto.
Qed.

Lemma wf_register now exec meta remember st :
  rq_wf st → rq_wf (register_task_with_completion_tracking now exec meta remember st).1.
Proof.
  intros Hwf. unfold register_task_with_completion_tracking. set (comp := delete exec _).
  assert (comp !! exec = None) as Hce by apply lookup_delete_eq.
  assert (∀ e, completed st !! e = None → comp !! e = None) as Hcomp.
  { intros e He. apply lookup_delete_None. right. by apply retain_recent_None. }
  destruct (inner st !! exec) as [prev|] eqn:Eprev; simpl.
  - pose proof (wf_retire st exec prev (completed st) ({[token prev]} ∪ cancelled st)
      (fire (interrupt prev) (fired st)) Hwf Eprev (λ e _ H, H) ltac:(done)) as Hret.
    apply (wf_insert_fresh _ exec comp meta remember) in Hret; [|apply lookup_delete_eq|done..].
    simpl in Hret. by rewrite insert_delete_eq in Hret.
  - by apply wf_insert_fresh.
Qed.

Lemma wf_register_interrupt exec i st : rq_wf st → rq_wf (register_interrupt exec i st).
Proof.
  intros Hwf. unfold register_interrupt.
  destruct (inner st !! exec) as [t|] eqn:Et; [destruct (decide _)|].
  - by destruct Hwf.
  - eapply wf_replace; [done..|set_solver].
  - by destruct Hwf.
Qed.

Lemma wf_cancel exec st : rq_wf st → rq_wf (cancel exec st).1.
Proof.
  intros Hwf. unfold cancel. destruct (inner st !! exec) as [t|] eqn:Et; [|done].
  destruct (remember_completion t) eqn:Er; simpl; [by eapply wf_replace|by eapply wf_retire].
Qed.

Lemma wf_cancel_token tok st : rq_wf st → (tok < next_object st)%N → rq_wf (cancel_token tok st).
Proof.
  intros [W3 W9 W4 W5 [W6 W6'] W7 W8] Hlt. split; simpl; eauto. split; [|done].
  intros o [->%elem_of_singleton|]%elem_of_union; eauto.
Qed.

Lemma wf_set_completed now st :
  rq_wf st → rq_wf (set_completed (retain_recent now (completed st)) st).
Proof. intros [W3 W9 W4 W5 W6 W7 W8]. split; simpl; eauto using retain_recent_None. Qed.

Lemma wf_completed_query now exec st :
  rq_wf st → rq_wf (completed_execution_is_terminal now exec st).1.
Proof.
  unfold completed_execution_is_terminal. case_match; simpl; auto using wf_set_completed.
Qed.

Lemma wf_set_pool_key exec pk st : rq_wf st → rq_wf (set_pool_key exec pk st).
Proof.
  intros Hwf. unfold set_pool_key. destruct (inner st !! exec) as [t|] eqn:Et; [|done].
  eapply wf_replace; [done..|set_solver].
Qed.

Lemma wf_remove now exec reg st : rq_wf st → rq_wf (remove now exec reg st).
Proof.
  intros Hwf. unfold remove. destruct (inner st !! exec) as [t|] eqn:Et; [|done].
  destruct (decide _) as [Hreg|]; [|done].
  eapply wf_retire; [done..| |set_solver].
  intros e Hne He. case_match; [by rewrite lookup_insert_ne|done].
Qed.

(** The invariant of every execution. *)
Lemma wf_step c c' : rq_step c c' → rq_wf (rq c) → rq_wf (rq c').
Proof.
  intros Hstep Hwf. destruct Hstep; simpl; auto using wf_register_interrupt, wf_cancel, wf_cancel_token,
    wf_completed_query, wf_set_pool_key; try by apply wf_remove.
  replace st' with (register_task_with_completion_tracking (clock c) exec meta remember (rq c)).1
    by by rewrite H. by apply wf_register.
Qed.

Lemma reachable_wf c : rtc rq_step rq_init c → rq_wf (rq c).
Proof.
  apply (rtc_ind_r (λ c, rq_wf (rq c))); [apply wf_init|eauto using wf_step].
Qed.

(** ** Interrupts are accounted for *)
Definition stored (st : RunningQueries) : list N := omap interrupt (map_to_list (inner st)).*2.

Lemma stored_delete (m : gmap str RunningTask) e t :
  m !! e = Some t →
  omap interrupt (map_to_list m).*2 ≡ₚ option_list (interrupt t) ++ omap interrupt (map_to_list (delete e m)).*2.
Proof.
  intros Ht. rewrite <- (insert_delete_id m e t Ht) at 1. rewrite map_to_list_insert by apply lookup_delete_eq.
  simpl. by destruct (interrupt t).
Qed.
Lemma stored_insert (m : gmap str RunningTask) e t :
  omap interrupt (map_to_list (<[e := t]> m)).*2 ≡ₚ option_list (interrupt t) ++ omap interrupt (map_to_list (delete e m)).*2.
Proof. rewrite (stored_delete _ e t) by apply lookup_insert_eq. by rewrite delete_insert_eq. Qed.

Definition accounted (st : RunningQueries) (l : ledger) : Prop :=
  offered l ≡ₚ fired st ++ stored st ++ replaced l ++ discarded l.

Lemma register_accounted now exec meta remember st st' g l :
  register_task_with_completion_tracking now exec meta remember st = (st', g) → accounted st l → accounted st' l.
Proof.
  unfold register_task_with_completion_tracking, accounted, stored. intros [= <- _] ->.
  destruct (inner st !! exec) as [prev|] eqn:Ep; cbn [inner fired]; rewrite stored_insert; cbn [interrupt option_list app].
  - rewrite (stored_delete _ _ _ Ep). unfold fire. solve_Permutation.
  - by rewrite delete_id.
Qed.
Lemma interrupt_accounted exec i st l :
  accounted st l → accounted (register_interrupt exec i st) (offer i (replaced_by exec st) l).
Proof.
  unfold register_interrupt, replaced_by, accounted, offer, stored. intros Ha. cbn [offered replaced discarded]. rewrite Ha.
  destruct (inner st !! exec) as [t|] eqn:Et; cbn [mbind option_bind]; [case_decide|]; cbn [set_fired set_inner inner fired option_list].
  - solve_Permutation.
  - rewrite stored_insert, (stored_delete _ _ _ Et). cbn [set_interrupt interrupt option_list]. solve_Permutation.
  - solve_Permutation.
Qed.
Lemma cancel_accounted exec st l : accounted st l → accounted (cancel exec st).1 l.
Proof.
  unfold cancel, accounted, stored. intros ->. destruct (inner st !! exec) as [t|] eqn:Et; [|done].
  destruct (remember_completion t); cbn [fst inner fired]; rewrite (stored_delete _ _ _ Et); unfold fire.
  - rewrite stored_insert. cbn [set_interrupt interrupt option_list]. solve_Permutation.
  - solve_Permutation.
Qed.
Lemma remove_accounted now exec reg st l :
  accounted st l → accounted (remove now exec reg st) (discard (discarded_by exec reg st) l).
Proof.
  unfold remove, discarded_by, accounted, discard, stored. intros Ha. cbn [offered replaced discarded]. rewrite Ha.
  destruct (inner st !! exec) as [t|] eqn:Et; cbn [mbind option_bind option_list]; [case_decide|]; cbn [inner fired option_list].
  - rewrite (stored_delete _ _ _ Et). solve_Permutation.
  - solve_Permutation.
  - solve_Permutation.
Qed.
Lemma pool_accounted exec pk st l : accounted st l → accounted (set_pool_key exec pk st) l.
Proof.
  unfold set_pool_key, accounted, stored. intros ->. destruct (inner st !! exec) as [t|] eqn:Et; [|done].
  cbn [set_inner inner fired]. by rewrite stored_insert, (stored_delete _ _ _ Et).
Qed.
Lemma step_accounted c c' : rq_step c c' → accounted (rq c) (book c) → accounted (rq c') (book c').
Proof.
  destruct 1; cbn [rq book]; eauto using register_accounted, interrupt_accounted, cancel_accounted, pool_accounted;
    try by apply remove_accounted.
  unfold completed_execution_is_terminal. by case_match.
Qed.
Lemma reachable_accounted c : rtc rq_step rq_init c → accounted (rq c) (book c).
Proof. apply (rtc_ind_r (λ c, accounted (rq c) (book c))); [vm_compute; reflexivity | eauto using step_accounted]. Qed.

(** ** Theorems *)

(** C36: Whatever the registry is asked to do, in any order, with tokens also cancelled directly by
    the code that holds them: the completion channel of a registered task is not terminal and that
    of every registration no longer in the registry is, so nobody waits in vain; tokens and channels
    are allocated once, registration ids count registrations modulo 2^64, and a registered execution
    has no completion record. *)
Theorem registry_invariant c : rtc rq_step rq_init c → rq_wf (rq c).
Proof. apply reachable_wf. Qed.

(** C32: In every reachable state the interrupts handed to `register_interrupt` are, each once,
    those that fired, those still stored, those that a later one of the same task replaced and those
    dropped with a task that finished; so distinct interrupts never fire twice. Cancelling or
    registering again a task that stores an interrupt fires exactly that one and it is stored no
    more, and an interrupt for an execution that is cancelled or not registered fires at once. *)
Theorem interrupts_are_accounted_for c :
  rtc rq_step rq_init c →
  let st := rq c in
  offered (book c) ≡ₚ fired st ++ stored st ++ replaced (book c) ++ discarded (book c) ∧
  (NoDup (offered (book c)) → NoDup (fired st)) ∧
  (∀ exec t i now meta remember, inner st !! exec = Some t → interrupt t = Some i →
     fired (cancel exec st).1 = fired st ++ [i] ∧ stored st ≡ₚ i :: stored (cancel exec st).1 ∧
     fired (register_task_with_completion_tracking now exec meta remember st).1 = fired st ++ [i]) ∧
  (∀ exec i, (∀ t, inner st !! exec = Some t → token t ∈ cancelled st) →
     fired (register_interrupt exec i st) = fired st ++ [i]).
Proof.
  intros Hr st. pose proof (reachable_accounted c Hr) as Ha. split_and!; [done | | |].
  - intros Hnd. rewrite Ha in Hnd. by apply NoDup_app in Hnd as [? _].
  - intros exec t i now meta remember Ht Hi. unfold cancel, register_task_with_completion_tracking, stored, fire.
    rewrite Ht, (stored_delete _ _ _ Ht), Hi. destruct (remember_completion t); cbn [fst inner fired option_list].
    + rewrite stored_insert. by split_and!.
    + by split_and!.
  - intros exec i Hc. unfold register_interrupt. destruct (inner st !! exec) as [t|] eqn:Et; [|done].
    by rewrite decide_True by by apply Hc.
Qed.

(** Guards name the objects of their own registration. *)
Lemma register_guard now exec meta remember st st' g :
  rq_wf st → register_task_with_completion_tracking now exec meta remember st = (st', g) →
  g = mkGuard exec (wrap_u64 (next_object st + 1)) (next_object st) ∧
  next_object st' = (next_object st + 1)%N ∧ g_token g ∉ cancelled st' ∧
  inner st' !! exec = Some (mkTask (g_registration_id g) (g_token g) (g_token g) remember meta None None).
Proof.
  intros Hwf. unfold register_task_with_completion_tracking.
  assert (wrap_u64 (next_registration_id st + 1) = wrap_u64 (next_object st + 1)) as Hw.
  { rewrite (wf_counter _ Hwf). unfold wrap_u64. by rewrite N.Div0.add_mod_idemp_l. }
  assert (next_object st ∉ cancelled st) as Hnc.
  { intros ?%(proj1 (wf_alloc _ Hwf)). lia. }
  intros [= <- <-]. rewrite Hw; simpl.
  destruct (inner st !! exec) as [prev|] eqn:Ep; simpl; rewrite lookup_insert_eq; split_and!; try done.
  apply (wf_fresh _ Hwf) in Ep as [? _]. rewrite elem_of_union, elem_of_singleton. intros [?|?]; [lia|done].
Qed.

Lemma next_object_mono c c' : rq_step c c' → (next_object (rq c) ≤ next_object (rq c'))%N.
Proof.
  destruct 1; simpl; unfold register_task_with_completion_tracking, register_interrupt, cancel, cancel_token,
    completed_execution_is_terminal, set_pool_key, drop_guard, remove in *; case_all; simpl; lia.
Qed.

Definition guard_wf (c : rq_conf) : Prop :=
  ∀ g, g ∈ guards c → (g_token g < next_object (rq c))%N ∧
                      g_registration_id g = wrap_u64 (g_token g + 1).

Lemma guard_wf_step c c' : rq_step c c' → rq_wf (rq c) → guard_wf c → guard_wf c'.
Proof.
  intros Hstep Hwf Hg g Hin. pose proof (next_object_mono c c' Hstep) as Hmono.
  assert (g ∈ guards c → (g_token g < next_object (rq c'))%N ∧ g_registration_id g = wrap_u64 (g_token g + 1))
    as Hold by (intros [? ?]%Hg; split; [lia|done]).
  destruct Hstep; simpl in *; auto.
  - apply register_guard in H as (-> & ? & _); [|done].
    apply elem_of_cons in Hin as [->|]; [split; simpl; [lia|done]|auto].
  - apply Hold. rewrite H. set_solver.
  - apply Hold. rewrite H. set_solver.
Qed.

Lemma reachable_guard_wf c : rtc rq_step rq_init c → guard_wf c.
Proof.
  intros Hr. enough (rq_wf (rq c) ∧ guard_wf c) by tauto. revert c Hr.
  apply (rtc_ind_r (λ c, rq_wf (rq c) ∧ guard_wf c)).
  - split; [apply wf_init|]. intros g Hg. simpl in Hg. set_solver.
  - intros x y _ Hxy [? ?]. eauto using wf_step, guard_wf_step.
Qed.

Lemma wrap_inj a b : (a ≤ u64_max)%N → (b ≤ u64_max)%N → wrap_u64 a = wrap_u64 b → a = b.
Proof. unfold wrap_u64, u64_max. intros. rewrite !N.mod_small in *; lia. Qed.

(** Dropping a guard whose execution id has since been registered again leaves the registry as
    it is. *)
Theorem stale_guard_drop_is_noop c g t now :
  rtc rq_step rq_init c → g ∈ guards c → (next_object (rq c) ≤ u64_max)%N →
  inner (rq c) !! g_execution_id g = Some t → token t ≠ g_token g →
  drop_guard now g (rq c) = rq c.
Proof.
  intros Hreach Hg Hmax Ht Hne.
  destruct (reachable_guard_wf c Hreach g Hg) as [Hlt Hreg].
  destruct (wf_fresh _ (reachable_wf c Hreach) _ _ Ht) as (Hlt' & _ & Hreg').
  unfold drop_guard, remove. rewrite Ht, decide_False; [done|].
  rewrite Hreg, Hreg'. intros Heq%wrap_inj; lia.
Qed.

(** Registering an execution id that is already running cancels the previous token, closes its
    completion channel and fires its interrupt, and installs a fresh, uncancelled token. *)
Theorem reregistration_supersedes c now exec meta remember prev st' g :
  rtc rq_step rq_init c → inner (rq c) !! exec = Some prev →
  register_task_with_completion_tracking now exec meta remember (rq c) = (st', g) →
  token prev ∈ cancelled st' ∧ completion prev ∈ terminal st' ∧
  fired st' = fired (rq c) ++ option_list (interrupt prev) ∧
  g_token g ∉ cancelled st' ∧ g_token g ≠ token prev ∧
  token <$> inner st' !! exec = Some (g_token g).
Proof.
  intros Hreach Hprev Hreg. pose proof (reachable_wf c Hreach) as Hwf.
  pose proof (register_guard _ _ _ _ _ _ _ Hwf Hreg) as (Hg & _ & Hnc & Hin).
  destruct (wf_fresh _ Hwf _ _ Hprev) as (Hlt & _). rewrite Hin.
  unfold register_task_with_completion_tracking in Hreg. rewrite Hprev in Hreg.
  simplify_eq/=. unfold fire. split_and!; [set_solver|set_solver|done|done|lia|done].
Qed.

(** `cancel_and_wait` on a tracked task cancels its token, reports it as not terminal while its
    guard lives and as terminal once the guard is dropped; later calls recognise the finished
    execution exactly within the grace period. *)
Theorem termination_is_confirmed_by_the_owner c exec t now :
  rtc rq_step rq_init c → inner (rq c) !! exec = Some t → remember_completion t = true →
  ∃ st1, cancel_and_wait_start now exec (rq c) = (st1, inr (completion t)) ∧
    token t ∈ cancelled st1 ∧
    cancel_and_wait_poll (completion t) false st1 = None ∧
    cancel_and_wait_poll (completion t) true st1 = Some (mkWait true false) ∧
    ∀ dropped, let st2 := remove dropped exec (registration_id t) st1 in
      cancel_and_wait_poll (completion t) false st2 = Some (mkWait true true) ∧
      ∀ asked, (cancel_and_wait_start asked exec st2).2 =
               inl (mkWait false (within_grace asked dropped)).
Proof.
  intros Hreach Ht Hrem. pose proof (wf_running _ (reachable_wf c Hreach) _ _ Ht) as Hrun.
  unfold cancel_and_wait_start, cancel_and_wait_poll. rewrite Ht. unfold cancel. rewrite Ht, Hrem.
  eexists. split; [reflexivity|]. simpl.
  split_and!; [set_solver|by rewrite decide_False|by rewrite decide_False|].
  intros dropped. unfold remove. simpl. rewrite lookup_insert_eq. simpl.
  destruct (decide (registration_id t = registration_id t)) as [_|?]; [|done]. rewrite Hrem; simpl. rewrite decide_True by set_solver. split; [done|].
  intros asked. rewrite lookup_delete_eq. unfold completed_execution_is_terminal; simpl.
  rewrite lookup_delete_eq. simpl. do 2 f_equal. unfold retain_recent.
  destruct (within_grace asked dropped) eqn:Hg.
  - apply bool_decide_eq_true. exists dropped. apply map_lookup_filter_Some.
    by rewrite lookup_insert_eq.
  - apply bool_decide_eq_false. intros [x Hx]. apply map_lookup_filter_Some in Hx as [Hx Hx'].
    rewrite lookup_insert_eq in Hx. simplify_eq/=. congruence.
Qed.

(** ** Bulk cancellation *)

Lemma cancel_frame exec e st :
  e ≠ exec → inner (cancel exec st).1 !! e = inner st !! e.
Proof.
  intros Hne. unfold cancel. destruct (inner st !! exec) as [t|]; [|done].
  destruct (remember_completion t); simpl; by rewrite ?lookup_insert_ne, ?lookup_delete_ne.
Qed.

Lemma cancel_mono exec st : cancelled st ⊆ cancelled (cancel exec st).1.
Proof. unfold cancel. repeat case_match; simpl; set_solver. Qed.

Lemma cancel_present exec st t :
  inner st !! exec = Some t →
  (cancel exec st).2 = true ∧ token t ∈ cancelled (cancel exec st).1 ∧
  inner (cancel exec st).1 !! exec =
    if remember_completion t then Some (set_interrupt None t) else None.
Proof.
  intros Ht. unfold cancel. rewrite Ht. destruct (remember_completion t); simpl;
    rewrite ?lookup_insert_eq, ?lookup_delete_eq; set_solver.
Qed.

Lemma cancel_each_spec ids st st' n :
  NoDup ids → (∀ e, e ∈ ids → is_Some (inner st !! e)) → cancel_each ids st = (st', n) →
  n = length ids ∧ cancelled st ⊆ cancelled st' ∧
  (∀ e, e ∉ ids → inner st' !! e = inner st !! e) ∧
  (∀ e t, e ∈ ids → inner st !! e = Some t →
     token t ∈ cancelled st' ∧
     inner st' !! e = if remember_completion t then Some (set_interrupt None t) else None).
Proof.
  revert st st' n. induction ids as [|id ids IH]; intros st st' n Hnd Hall Hrun; simpl in *.
  { simplify_eq. split_and!; set_solver. }
  apply NoDup_cons in Hnd as [Hid Hnd].
  destruct (Hall id) as [t Ht]; [set_solver|].
  pose proof (cancel_present id st t Ht) as (Hok & Htok & Hinner).
  pose proof (cancel_mono id st) as Hmono.
  destruct (cancel id st) as [st1 ok] eqn:Ec; simpl in *. subst ok.
  destruct (cancel_each ids st1) as [st2 m] eqn:Ee. simplify_eq.
  assert (∀ e, e ≠ id → inner st1 !! e = inner st !! e) as Hframe.
  { intros e He. pose proof (cancel_frame id e st He) as Hf. by rewrite Ec in Hf. }
  destruct (IH st1 st' m) as (-> & Hm & Hout & Hin); [done| |done|].
  { intros e He. rewrite Hframe by set_solver. set_solver. }
  split_and!; [done|set_solver| |].
  - intros e [? ?]%not_elem_of_cons. by rewrite Hout, Hframe.
  - intros e u [->|He]%elem_of_cons Hu; simplify_eq.
    + split; [set_solver|]. by rewrite Hout.
    + apply Hin; [done|]. rewrite Hframe; [done|]. set_solver.
Qed.

Lemma elem_of_matching p st e :
  e ∈ matching_ids p st ↔ ∃ t, inner st !! e = Some t ∧ p t = true.
Proof.
  unfold matching_ids. rewrite list_elem_of_fmap. split.
  - intros ([e' t] & -> & [Hp Hin]%list_elem_of_filter). apply elem_of_map_to_list in Hin. eauto.
  - intros (t & Ht & Hp). exists (e, t). split; [done|].
    apply list_elem_of_filter. split; [done|]. by apply elem_of_map_to_list.
Qed.

Lemma matching_NoDup p st : NoDup (matching_ids p st).
Proof.
  unfold matching_ids. apply (sublist_NoDup _ (map_to_list (inner st)).*1).
  - apply NoDup_fst_map_to_list.
  - apply sublist_fmap, sublist_filter.
Qed.

(** `cancel_matching` cancels exactly the tasks its predicate accepts, returns their number,
    removes those that are not tracked for terminal confirmation and leaves every other task as it
    was. *)
Theorem cancel_matching_cancels_exactly_the_matches p st st' n :
  cancel_matching p st = (st', n) →
  n = length (filter (λ kv, p kv.2 = true) (map_to_list (inner st))) ∧
  ∀ e t, inner st !! e = Some t →
    if p t then token t ∈ cancelled st' ∧
                inner st' !! e = (if remember_completion t then Some (set_interrupt None t) else None)
    else inner st' !! e = Some t.
Proof.
  unfold cancel_matching. intros Hrun.
  destruct (cancel_each_spec (matching_ids p st) st st' n) as (-> & _ & Hout & Hin);
    [apply matching_NoDup| |done|].
  { intros e (t & -> & _)%elem_of_matching. eauto. }
  split; [unfold matching_ids; by rewrite length_fmap|].
  intros e t Ht. destruct (p t) eqn:Hp.
  - apply Hin; [|done]. apply elem_of_matching. eauto.
  - rewrite Hout; [done|]. intros (u & Hu & Hpu)%elem_of_matching. congruence.
Qed.

(** `finish` keeps the registration of a query that timed out, which can then be cancelled
    until the scheduled removal after the grace period; any other result removes the registration at
    once and closes its channel. *)
Theorem timed_out_query_stays_cancellable {T A S O} st g t now (r : result T (QueryExecutionError A S O)) st' pending :
  inner st !! g_execution_id g = Some t → registration_id t = g_registration_id g →
  finish now g r st = (st', pending) →
  match pending with
  | Some p => (∃ m, r = Err (QTimeout m)) ∧ deadline p = (now + DETACHED_REGISTRATION_GRACE_PERIOD)%N ∧
              (cancel (g_execution_id g) st').2 = true ∧
              token t ∈ cancelled (cancel (g_execution_id g) st').1 ∧
              inner (remove (deadline p) (r_execution_id p) (r_registration_id p) st')
                !! g_execution_id g = None
  | None => (∀ m, r ≠ Err (QTimeout m)) ∧ inner st' !! g_execution_id g = None ∧
            completion t ∈ terminal st' ∧ cancelled st' = cancelled st
  end.
Proof.
  intros Ht Hreg. unfold finish, finish_with_late_cancel.
  assert (∀ d, inner (remove d (g_execution_id g) (g_registration_id g) st) !! g_execution_id g = None ∧
               completion t ∈ terminal (remove d (g_execution_id g) (g_registration_id g) st) ∧
               cancelled (remove d (g_execution_id g) (g_registration_id g) st) = cancelled st) as Hrem.
  { intros d. unfold remove. rewrite Ht, decide_True by done. simpl. rewrite lookup_delete_eq. set_solver. }
  destruct r as [a|[]]; intros [= <- <-]; unfold drop_guard; simpl;
    try (split; [done|apply Hrem]).
  destruct (cancel_present _ _ _ Ht) as (H1 & H2 & _). split_and!; eauto. apply Hrem.
Qed.

(** ** Witnesses *)
Definition e1 : str := lit "exec-1".
Definition meta1 : RunningTaskMetadata := metadata_query (lit "c1") (lit "app") (Some (lit "tab-7:count")).
Definition reg1 : RunningQueries * RegisteredQuery :=
  register_task_for_terminal_confirmation 0 e1 meta1 rq_default.
Definition conf1 : rq_conf := mkRConf reg1.1 0 [reg1.2] [] (mkLedger [] [] []).
Definition task1 : RunningTask := mkTask 1 0 0 true meta1 None None.
Definition reg2 : RunningQueries * RegisteredQuery := register 5 e1 reg1.1.
Definition conf2 : rq_conf := mkRConf reg2.1 5 [reg2.2; reg1.2] [] (mkLedger [] [] []).

Lemma conf1_reachable : rtc rq_step rq_init conf1.
Proof. apply rtc_once. by apply (rs_register rq_init e1 meta1 true). Qed.

Lemma conf2_reachable : rtc rq_step rq_init conf2.
Proof.
  etrans; [apply conf1_reachable|].
  eapply rtc_l; [apply (rs_tick conf1 5); vm_compute; discriminate|].
  apply rtc_once. by apply (rs_register (mkRConf reg1.1 5 [reg1.2] [] (mkLedger [] [] [])) e1 metadata_default false).
Qed.

Lemma registry_invariant_witness : rq_wf (rq conf2).
Proof. apply (registry_invariant conf2), conf2_reachable. Defined.

(** Two interrupts for one task, and its cancellation: the first is replaced and never fires. *)
Definition with_interrupt (i : N) (c : rq_conf) : rq_conf :=
  mkRConf (register_interrupt e1 i (rq c)) (clock c) (guards c) (reclaims c) (offer i (replaced_by e1 (rq c)) (book c)).
Definition with_cancel (c : rq_conf) : rq_conf := mkRConf (cancel e1 (rq c)).1 (clock c) (guards c) (reclaims c) (book c).
Definition conf3 : rq_conf := with_cancel (with_interrupt 42 (with_interrupt 7 conf1)).
Lemma conf3_reachable : rtc rq_step rq_init conf3.
Proof.
  etrans; [apply conf1_reachable|]. eapply rtc_l; [apply (rs_interrupt conf1 e1 7)|].
  eapply rtc_l; [apply (rs_interrupt (with_interrupt 7 conf1) e1 42)|].
  apply rtc_once, (rs_cancel (with_interrupt 42 (with_interrupt 7 conf1)) e1).
Qed.
Lemma interrupts_are_accounted_for_witness :
  [7; 42]%N ≡ₚ fired (rq conf3) ++ stored (rq conf3) ++ [7]%N ++ [] ∧ fired (rq conf3) = [42]%N ∧ stored (rq conf3) = [].
Proof.
  split; [| vm_compute; split; reflexivity]. pose proof (proj1 (interrupts_are_accounted_for conf3 conf3_reachable)) as Ha.
  vm_compute in Ha. vm_compute. exact Ha.
Defined.

(** A token cancelled by its holder leaves the interrupt in the registry, where a later [cancel]
    still fires it. *)
Example a_cancelled_token_keeps_its_interrupt :
  let st := cancel_token 0 (register_interrupt e1 42 (rq conf1)) in
  stored st = [42]%N ∧ fired st = [] ∧ fired (cancel e1 st).1 = [42]%N.
Proof. vm_compute. done. Qed.

Lemma stale_guard_witness : drop_guard 6 reg1.2 (rq conf2) = rq conf2.
Proof.
  apply (stale_guard_drop_is_noop conf2 reg1.2 (mkTask 2 1 1 false metadata_default None None) 6).
  - apply conf2_reachable.
  - vm_compute. right. left.
  - vm_compute. discriminate.
  - vm_compute. reflexivity.
  - vm_compute. discriminate.
Defined.

Lemma supersede_witness : token task1 ∈ cancelled reg2.1.
Proof.
  refine (proj1 (reregistration_supersedes conf1 5 e1 metadata_default false task1 reg2.1 reg2.2
                   conf1_reachable _ _)); vm_compute; reflexivity.
Defined.

Lemma confirmed_witness :
  ∃ st1, cancel_and_wait_start 9 e1 (rq conf1) = (st1, inr 0%N) ∧ token task1 ∈ cancelled st1.
Proof.
  destruct (termination_is_confirmed_by_the_owner conf1 e1 task1 9 conf1_reachable)
    as (st1 & H1 & H2 & _); [vm_compute; reflexivity|reflexivity|]. eauto.
Defined.

Definition on_c1 (task : RunningTask) : bool :=
  bool_decide (connection_id (metadata task) = Some (lit "c1")).

Lemma cancel_matching_witness :
  (cancel_matching on_c1 (rq conf1)).2 =
    length (filter (λ kv, on_c1 kv.2 = true) (map_to_list (inner (rq conf1)))) ∧
  (cancel_matching on_c1 (rq conf1)).2 = 1.
Proof.
  split; [|vm_compute; reflexivity].
  exact (proj1 (cancel_matching_cancels_exactly_the_matches on_c1 (rq conf1) _ _ (surjective_pairing _))).
Defined.

Lemma timed_out_witness : (cancel e1 (rq conf1)).2 = true.
Proof.
  refine (proj1 (proj2 (proj2 (timed_out_query_stays_cancellable (T := unit) (A := unit) (S := unit)
    (O := unit) (rq conf1) reg1.2 task1 3 (Err (QTimeout (lit "timed out"))) (rq conf1)
    (Some (detach 3 reg1.2)) _ _ _)))); vm_compute; reflexivity.
Defined.
