(* ===== verification/TaskSupervisor.v ===== *)
(** Supervised background tasks ([crates/dbx-core/src/task_supervisor.rs]).

    [tasks] is the map behind the mutex, from key to [JoinHandle]; a handle is
    named by its spawn number.  The supervisor's methods are state
    transformers; the tasks themselves run concurrently, so their progress is
    part of the step relation: a task body runs, may be aborted while it runs,
    and a [spawn_once] task whose body has returned still has to call
    [remove_completed], which an abort no longer prevents. *)
From S2P Require Import Prelude.

Inductive phase :=
| Running
| Finishing (cleanup_key : str)   (** body returned, [remove_completed] not yet called *)
| Finished
| Aborted.

#[export] Instance phase_eq_dec : EqDecision phase.
Proof. solve_decision. Defined.

(** What a spawned future does after its body: nothing ([spawn_replace]) or
    [cleanup.remove_completed(&task_key)] ([spawn_once]). *)
Record task := mkTask { on_return : option str; state : phase }.

Record TaskSupervisor := mkSup {
  accepting : bool;
  cancellation : bool;
  tasks : gmap str N;
  spawned : gmap N task;
  next_handle : N;
}.

Definition new : TaskSupervisor := mkSup true false ∅ ∅ 0.

Definition set_state (s : phase) (t : task) : task := mkTask (on_return t) s.

(** [JoinHandle::abort]: stops the task at its next suspension point, which a
    task past its body does not reach any more. *)
Definition abort_task (t : task) : task :=
  match state t with Running => set_state Aborted t | _ => t end.
Definition abort (h : N) (sv : TaskSupervisor) : TaskSupervisor :=
  mkSup (accepting sv) (cancellation sv) (tasks sv) (alter abort_task h (spawned sv)) (next_handle sv).

Definition spawn (on_return : option str) (key : str) (sv : TaskSupervisor) : TaskSupervisor :=
  mkSup (accepting sv) (cancellation sv) (<[key := next_handle sv]> (tasks sv))
    (<[next_handle sv := mkTask on_return Running]> (spawned sv)) (next_handle sv + 1).

Definition spawn_replace (key : str) (sv : TaskSupervisor) : TaskSupervisor * bool :=
  if accepting sv then
    let sv' := spawn None key sv in
    match tasks sv !! key with
    | Some previous => (abort previous sv', true)
    | None => (sv', true)
    end
  else (sv, false).

Definition spawn_once (key : str) (sv : TaskSupervisor) : TaskSupervisor * bool :=
  if negb (accepting sv) || bool_decide (is_Some (tasks sv !! key)) then (sv, false)
  else (spawn (Some key) key sv, true).

Definition remove_key (key : str) (sv : TaskSupervisor) : TaskSupervisor :=
  mkSup (accepting sv) (cancellation sv) (delete key (tasks sv)) (spawned sv) (next_handle sv).

Definition stop (key : str) (sv : TaskSupervisor) : TaskSupervisor :=
  match tasks sv !! key with
  | Some h => abort h (remove_key key sv)
  | None => sv
  end.

(** [stop_and_wait] stops the same way and then awaits the handle. *)
Definition stop_and_wait (key : str) (sv : TaskSupervisor) : TaskSupervisor * option N :=
  (stop key sv, tasks sv !! key).

Definition stop_many (keys : list str) (sv : TaskSupervisor) : TaskSupervisor :=
  foldl (λ s k, stop k s) sv keys.

Definition active_count (sv : TaskSupervisor) : nat := size (tasks sv).

Definition remove_completed (key : str) (sv : TaskSupervisor) : TaskSupervisor := remove_key key sv.

(** [shutdown] up to its wait: no further spawns, token cancelled, handles drained. *)
Definition shutdown_begin (sv : TaskSupervisor) : TaskSupervisor * list N :=
  (mkSup false true ∅ (spawned sv) (next_handle sv), (map_to_list (tasks sv)).*2).
(** The wait timed out: every drained handle is aborted. *)
Definition shutdown_timeout (handles : list N) (sv : TaskSupervisor) : TaskSupervisor :=
  foldl (λ s h, abort h s) sv handles.

Definition settled (h : N) (sv : TaskSupervisor) : bool :=
  match spawned sv !! h with
  | Some t => bool_decide (state t = Finished ∨ state t = Aborted)
  | None => true
  end.

(** ** Executions; [drained] is the list of handles a running [shutdown] waits for. *)
Record sup_conf := mkSConf { sup : TaskSupervisor; drained : list N }.

Inductive sup_step : sup_conf → sup_conf → Prop :=
| ss_spawn_replace c key : sup_step c (mkSConf (spawn_replace key (sup c)).1 (drained c))
| ss_spawn_once c key : sup_step c (mkSConf (spawn_once key (sup c)).1 (drained c))
| ss_stop c key : sup_step c (mkSConf (stop key (sup c)) (drained c))
| ss_shutdown c sv hs :
    shutdown_begin (sup c) = (sv, hs) → sup_step c (mkSConf sv (hs ++ drained c))
| ss_shutdown_timeout c : sup_step c (mkSConf (shutdown_timeout (drained c) (sup c)) [])
| ss_body_returns c h t :
    spawned (sup c) !! h = Some t → state t = Running →
    sup_step c (mkSConf
      (mkSup (accepting (sup c)) (cancellation (sup c)) (tasks (sup c))
         (<[h := set_state (match on_return t with Some k => Finishing k | None => Finished end) t]>
            (spawned (sup c))) (next_handle (sup c))) (drained c))
| ss_cleanup c h t k :
    spawned (sup c) !! h = Some t → state t = Finishing k →
    sup_step c (mkSConf
      (let sv := remove_completed k (sup c) in
       mkSup (accepting sv) (cancellation sv) (tasks sv) (<[h := set_state Finished t]> (spawned sv))
         (next_handle sv)) (drained c)).

Definition sup_init : sup_conf := mkSConf new [].

(** A task that still runs its body is reachable by the supervisor: through
    the map, or through a shutdown that waits for it. *)
Definition supervised (c : sup_conf) : Prop :=
  ∀ h t, spawned (sup c) !! h = Some t → state t = Running →
    (∃ k, tasks (sup c) !! k = Some h) ∨ h ∈ drained c.

Lemma lookup_abort h h' sv :
  spawned (abort h sv) !! h' = if decide (h' = h) then abort_task <$> spawned sv !! h' else spawned sv !! h'.
Proof. simpl. rewrite lookup_alter. repeat case_decide; congruence. Qed.

Lemma abort_not_running t : state (abort_task t) ≠ Running.
Proof. unfold abort_task. by destruct (state t) eqn:E; simpl; rewrite ?E. Qed.

Lemma lookup_abort_Some h h' sv t :
  spawned (abort h sv) !! h' = Some t → state t = Running → h' ≠ h ∧ spawned sv !! h' = Some t.
Proof.
  rewrite lookup_abort. case_decide; [|done]. intros (u & _ & ->)%fmap_Some Hr.
  by apply abort_not_running in Hr.
Qed.

Lemma abort_fields h sv :
  accepting (abort h sv) = accepting sv ∧ cancellation (abort h sv) = cancellation sv ∧
  tasks (abort h sv) = tasks sv ∧ next_handle (abort h sv) = next_handle sv.
Proof. done. Qed.

Lemma shutdown_timeout_fields hs sv :
  accepting (shutdown_timeout hs sv) = accepting sv ∧ cancellation (shutdown_timeout hs sv) = cancellation sv ∧
  tasks (shutdown_timeout hs sv) = tasks sv ∧ next_handle (shutdown_timeout hs sv) = next_handle sv.
Proof.
  unfold shutdown_timeout. revert sv. induction hs as [|h hs IH]; intros sv; simpl; [done|].
  destruct (IH (abort h sv)) as (-> & -> & -> & ->). done.
Qed.

Lemma shutdown_timeout_Some hs sv h t :
  spawned (shutdown_timeout hs sv) !! h = Some t → state t = Running → h ∉ hs ∧ spawned sv !! h = Some t.
Proof.
  unfold shutdown_timeout. revert sv. induction hs as [|h' hs IH]; intros sv; simpl; [set_solver|].
  intros Hl Hr. destruct (IH _ Hl Hr) as [? Hl']. apply lookup_abort_Some in Hl' as [? ?]; [set_solver|done].
Qed.

(** ** Shutdown *)
Definition closed (sv : TaskSupervisor) : Prop :=
  accepting sv = false ∧ cancellation sv = true ∧ tasks sv = ∅.

Lemma closed_step c c' : sup_step c c' → closed (sup c) → closed (sup c').
Proof.
  intros Hstep (Ha & Hc & Ht). destruct Hstep; unfold spawn_replace, spawn_once, stop, closed; simpl.
  - by rewrite Ha.
  - by rewrite Ha.
  - by rewrite Ht, lookup_empty.
  - unfold shutdown_begin in *. by simplify_eq.
  - by destruct (shutdown_timeout_fields (drained c) (sup c)) as (-> & -> & -> & _).
  - done.
  - by rewrite Ht, delete_empty.
Qed.

(** A handle that runs after a step from a closed supervisor ran before it. *)
Lemma closed_no_new_task c c' h t :
  sup_step c c' → closed (sup c) → spawned (sup c') !! h = Some t → state t = Running →
  ∃ t', spawned (sup c) !! h = Some t' ∧ state t' = Running.
Proof.
  intros Hstep (Ha & Hc & Ht). destruct Hstep; unfold spawn_replace, spawn_once, stop; simpl.
  - rewrite Ha. eauto.
  - rewrite Ha. eauto.
  - rewrite Ht, lookup_empty. eauto.
  - unfold shutdown_begin in *. simplify_eq. eauto.
  - intros Hl Hr. apply shutdown_timeout_Some in Hl as [_ ?]; eauto.
  - intros [[<- <-]|[? ?]]%lookup_insert_Some Hr; [|eauto]. simpl in Hr. by destruct (on_return t0).
  - intros [[<- <-]|[? ?]]%lookup_insert_Some Hr; [done|eauto].
Qed.

(** After `shutdown` has begun no task is accepted any more, under any later sequence of
    operations, and a task that still runs was already running when shutdown began. *)
Theorem shutdown_is_final sv ds c :
  rtc sup_step (mkSConf (shutdown_begin sv).1 ds) c →
  closed (sup c) ∧
  (∀ key, spawn_replace key (sup c) = (sup c, false) ∧ spawn_once key (sup c) = (sup c, false)) ∧
  (∀ h t, spawned (sup c) !! h = Some t → state t = Running →
     ∃ t', spawned sv !! h = Some t' ∧ state t' = Running).
Proof.
  intros Hr. enough (closed (sup c) ∧
    (∀ h t, spawned (sup c) !! h = Some t → state t = Running →
       ∃ t', spawned sv !! h = Some t' ∧ state t' = Running)) as [Hcl Hrun].
  { split_and!; [apply Hcl..| |done]. destruct Hcl as (Ha & _ & _). intros key.
    unfold spawn_replace, spawn_once. by rewrite Ha. }
  revert c Hr. apply (rtc_ind_r (λ c, closed (sup c) ∧ _)).
  - split; [done|]. simpl. eauto.
  - intros c c' _ Hstep [Hcl Hrun]. split; [by eapply closed_step|].
    intros h t Hh Ht. destruct (closed_no_new_task c c' h t) as (t' & ? & ?); [done..|]. eauto.
Qed.

(** ** Supervision *)

(** No task cleans up after itself, as when only [spawn_replace] is used. *)
Definition no_cleanup (c : sup_conf) : Prop :=
  ∀ h t, spawned (sup c) !! h = Some t → on_return t = None ∧ ∀ k, state t ≠ Finishing k.

Lemma supervised_step c c' : sup_step c c' → no_cleanup c → supervised c → supervised c'.
Proof.
  intros Hstep Hnc Hs. unfold supervised in *.
  destruct Hstep; unfold spawn_replace, spawn_once, stop, shutdown_begin in *; simpl.
  - destruct (accepting (sup c)); [|done]. destruct (tasks (sup c) !! key) as [p|] eqn:Ep; simpl.
    + intros h t Hl Hr. apply (lookup_abort_Some p h (spawn None key (sup c))) in Hl as [Hne Hl]; [|done].
      simpl in Hl. apply lookup_insert_Some in Hl as [[<- <-]|[Hne' Hl]].
      * left. exists key. apply lookup_insert_eq.
      * destruct (Hs h t Hl Hr) as [[k Hk]|]; [|by right]. left. exists k.
        rewrite lookup_insert_ne; [done|]. intros <-. congruence.
    + intros h t [[<- <-]|[? Hl]]%lookup_insert_Some Hr.
      * left. exists key. apply lookup_insert_eq.
      * destruct (Hs h t Hl Hr) as [[k Hk]|]; [|by right]. left. exists k.
        rewrite lookup_insert_ne; [done|]. intros <-. congruence.
  - destruct (negb _ || _) eqn:Eb; [done|]. apply orb_false_iff in Eb as [_ Eb%bool_decide_eq_false].
    simpl. intros h t [[<- <-]|[? Hl]]%lookup_insert_Some Hr; simpl.
    + left. exists key. apply lookup_insert_eq.
    + destruct (Hs h t Hl Hr) as [[k Hk]|]; [|by right]. left. exists k.
      rewrite lookup_insert_ne; [done|]. intros <-. by apply Eb; eexists.
  - destruct (tasks (sup c) !! key) as [p|] eqn:Ep; [|done].
    intros h t Hl Hr. apply (lookup_abort_Some p h (remove_key key (sup c))) in Hl as [Hne Hl]; [|done].
    destruct (Hs h t Hl Hr) as [[k Hk]|]; [|by right]. left. exists k. simpl.
    rewrite lookup_delete_ne; [done|]. intros <-. congruence.
  - simplify_eq/=. intros h t Hl Hr. right.
    destruct (Hs h t Hl Hr) as [[k Hk]|]; [|set_solver].
    apply elem_of_app. left. apply list_elem_of_fmap. exists (k, h). split; [done|].
    by apply elem_of_map_to_list.
  - intros h t Hl Hr. apply shutdown_timeout_Some in Hl as [Hnin Hl]; [|done].
    destruct (shutdown_timeout_fields (drained c) (sup c)) as (_ & _ & -> & _).
    destruct (Hs h t Hl Hr) as [?|]; [by left|done].
  - intros h' t' [[<- <-]|[? Hl]]%lookup_insert_Some Hr; [|eauto]. simpl in Hr. by destruct (on_return t).
  - by destruct (Hnc h t H) as [_ Hk]; destruct (Hk k).
Qed.

(** As long as no `spawn_once` cleanup is pending, every running task is held in the task map
    or by the shutdown that drains it. *)
Theorem replaceable_tasks_stay_supervised c :
  rtc (λ x y, sup_step x y ∧ no_cleanup y) sup_init c → supervised c.
Proof.
  intros Hr. enough (no_cleanup c ∧ supervised c) by tauto. revert c Hr.
  apply (rtc_ind_r (λ c, no_cleanup c ∧ supervised c)).
  - by split; intros h t; simpl; rewrite lookup_empty.
  - intros x y _ [Hstep Hy] [Hx Hs]. split; [done|]. by eapply supervised_step.
Qed.

(** The completion of a stopped [spawn_once] task races with the
    registration of its successor. *)
Definition k : str := lit "cleanup".

(** The cleanup of a stopped [spawn_once] task removes its successor from the
    supervisor. *)
Theorem late_cleanup_unsupervises_successor :
  ∃ c, rtc sup_step sup_init c ∧ accepting (sup c) = true ∧ tasks (sup c) = ∅ ∧ drained c = [] ∧
       spawned (sup c) !! 1%N = Some (mkTask (Some k) Running).
Proof.
  eexists. split.
  { eapply rtc_l; [apply (ss_spawn_once _ k)|].
    eapply rtc_l; [apply (ss_body_returns _ 0 (mkTask (Some k) Running)); reflexivity|].
    eapply rtc_l; [apply (ss_stop _ k)|].
    eapply rtc_l; [apply (ss_spawn_once _ k)|].
    eapply rtc_l; [apply (ss_cleanup _ 0 (mkTask (Some k) (Finishing k)) k); reflexivity|].
    apply rtc_refl. }
  vm_compute. done.
Qed.

(** ** Witnesses *)
Lemma shutdown_witness :
  closed (sup (mkSConf (shutdown_begin (spawn_replace k new).1).1 [0%N])).
Proof.
  exact (proj1 (shutdown_is_final (spawn_replace k new).1 [0%N] _ (rtc_refl _ _))).
Defined.

Lemma supervised_witness : supervised (mkSConf (spawn_replace k new).1 []).
Proof.
  apply (replaceable_tasks_stay_supervised (mkSConf (spawn_replace k new).1 [])).
  apply rtc_once. split; [apply (ss_spawn_replace sup_init k)|].
  intros h t Hl. change (<[0%N := mkTask None Running]> (∅ : gmap N task) !! h = Some t) in Hl.
  apply lookup_insert_Some in Hl as [[_ <-]|[_ Hl]]; [done|].
  by apply lookup_empty_Some in Hl.
Defined.
