(* ===== verification/StateStore.v ===== *)
(** The key-value store behind persisted state machines: the [StateBackend]
    trait and [LocalBackend] of [crates/dbx-core/src/state_persistence.rs],
    over the [state_store] table of [crates/dbx-core/src/storage.rs].

    The trait is the class [StateBackend]; what its clients rely on is
    [BackendLaws], stated through the abstract map a backend stores.
    [LocalBackend] is an instance, and its laws are proved.  A stored value
    ([Vec<u8>]) is an element of a type [blob]; serialisation is the class
    [Serde]. *)
From S2P Require Import Prelude.
Local Open Scope dbx_scope.

(** ** Effects: a store is threaded through fallible operations *)
Definition M (S A : Type) : Type := S → S * result A str.

Definition ret {S A} (a : A) : M S A := λ s, (s, Ok a).
Definition fail {S A} (e : str) : M S A := λ s, (s, Err e).
Definition bindM {S A B} (m : M S A) (k : A → M S B) : M S B :=
  λ s, let '(s', r) := m s in match r with Ok a => k a s' | Err e => (s', Err e) end.
(** [let _ = m.await;]: run [m] for its effect, ignoring its result. *)
Definition attempt {S A} (m : M S A) : M S (result A str) := λ s, let '(s', r) := m s in (s', Ok r).
Definition lift {S A} (r : result A str) : M S A := λ s, (s, r).

Notation "'let!' x ':=' m 'in' k" := (bindM m (λ x, k))
  (at level 10, x pattern, m at level 100, k at level 200) : dbx_scope.

(** ** Serialisation ([serde_json::to_vec], [serde_json::from_slice]) *)
Class Serde (blob A : Type) := {
  to_vec : A → result blob str;
  from_slice : blob → result A str;
}.
Class SerdeLaw (blob A : Type) `{Serde blob A} : Prop :=
  from_to_vec : ∀ a b, to_vec a = Ok b → from_slice b = Ok a.

(** [serde_json::Value] *)
Inductive json :=
| JNull
| JBool (b : bool)
| JNumber (text : str)
| JString (s : str)
| JArray (items : list json)
| JObject (fields : list (str * json)).

(** ** The trait *)
Class StateBackend (S blob : Type) := {
  save : str → blob → M S unit;
  save_with_content_type : str → blob → str → M S unit;
  load : str → M S (option blob);
  delete_key : str → M S unit;
  exists_key : str → M S bool;
  compare_and_swap : str → option blob → blob → M S bool;
}.

(** The default body of [compare_and_swap]. *)
Definition cas_unsupported {S blob} (key : str) (old : option blob) (new : blob) : M S bool :=
  fail (lit "CAS not supported by this backend").

(** What clients rely on: each operation either has its effect on the map of
    stored values or, when it fails, leaves the map as it is. *)
Class BackendLaws (S blob : Type) `{StateBackend S blob} (view : S → gmap str blob) : Prop := {
  save_ok k v s s' : save k v s = (s', Ok ()) → view s' = <[k := v]> (view s);
  save_err k v s s' e : save k v s = (s', Err e) → view s' = view s;
  load_view k s s' r : load k s = (s', r) → view s' = view s;
  load_ok k s s' o : load k s = (s', Ok o) → o = view s !! k;
  delete_ok k s s' : delete_key k s = (s', Ok ()) → view s' = delete k (view s);
  delete_err k s s' e : delete_key k s = (s', Err e) → view s' = view s;
  exists_view k s s' r : exists_key k s = (s', r) → view s' = view s;
  exists_ok k s s' b : exists_key k s = (s', Ok b) → b = bool_decide (is_Some (view s !! k));
  cas_swapped k old v s s' : compare_and_swap k old v s = (s', Ok true) → view s' = <[k := v]> (view s);
  cas_kept k old v s s' r : compare_and_swap k old v s = (s', r) → r ≠ Ok true → view s' = view s;
}.

(** ** The [state_store] table *)
Section storage.
Context {blob : Type}.

(** The version is an INTEGER column, a signed 64-bit number that starts at 1
    and grows by one with each write of its key.  [N] stands for it up to
    2^63 - 1 writes of one key; beyond them SQLite's [version + 1] is a REAL,
    which the code can no longer read as [u64], and the model says nothing. *)
Record row := mkRow { value : blob; content_type : str; version : N }.

(** The table, and the number of SQL statements issued so far: statement
    [n] fails with the error [fault n] when there is one. *)
Record Storage := mkStorage { rows : gmap str row; statements : N }.

Context (fault : N → option str).

Definition statement {A} (f : gmap str row → gmap str row * A) : M Storage A :=
  λ s, match fault (statements s) with
       | Some e => (mkStorage (rows s) (statements s + 1), Err e)
       | None => let '(m, a) := f (rows s) in (mkStorage m (statements s + 1), Ok a)
       end.

(** INSERT .. ON CONFLICT(key) DO UPDATE .. version = version + 1 *)
Definition save_state (key : str) (v : blob) (ct : str) : M Storage unit :=
  statement (λ m, (<[key := mkRow v ct (match m !! key with
                                       | Some r => version r + 1
                                       | None => 1 end)]> m, ())).

(** SELECT value, content_type .. WHERE key = ?1 *)
Definition load_state (key : str) : M Storage (option (blob * str)) :=
  statement (λ m, (m, (λ r, (value r, content_type r)) <$> m !! key)).

Definition delete_state (key : str) : M Storage unit := statement (λ m, (delete key m, ())).

Definition state_exists (key : str) : M Storage bool :=
  statement (λ m, (m, bool_decide (is_Some (m !! key)))).

Definition get_state_version (key : str) : M Storage (option N) :=
  statement (λ m, (m, version <$> m !! key)).

(** UPDATE .. SET version = version + 1 WHERE key = ?3 AND version = ?4 *)
Definition update_where_version (key : str) (expected : N) (v : blob) (ct : str) : M Storage bool :=
  statement (λ m, match m !! key with
                  | Some r => if decide (version r = expected)
                              then (<[key := mkRow v ct (version r + 1)]> m, true) else (m, false)
                  | None => (m, false)
                  end).

Definition compare_and_swap_state (key : str) (expected_version : option N) (new_value : blob) (ct : str)
  : M Storage bool :=
  let! current := get_state_version key in
  match current, expected_version with
  | None, None => statement (λ m, (<[key := mkRow new_value ct 1]> m, true))
  | Some v, Some expected =>
      if decide (v = expected) then update_where_version key expected new_value ct else ret false
  | _, _ => ret false
  end.
End storage.
Arguments row : clear implicits.
Arguments Storage : clear implicits.

(** ** State entries *)
Record StateEntry := mkEntry {
  key : str;
  current_state : str;
  entry_version : N;
  metadata : json;
}.

(** ** [LocalBackend] *)
Section local_backend.
Context {blob : Type} `{Serde blob StateEntry} (fault : N → option str).

Definition local_compare_and_swap (k : str) (old : option blob) (new : blob) : M (Storage blob) bool :=
  let! expected_version :=
    (match old with
     | Some data =>
         match from_slice data with
         | Ok entry => ret (Some (entry_version entry))
         | Err e => fail (lit "CAS deserialize error: " ++ e)
         end
     | None => ret None
     end) in
  compare_and_swap_state fault k expected_version new (lit "application/json").

#[global] Instance LocalBackend : StateBackend (Storage blob) blob := {
  save k v := save_state fault k v (lit "application/octet-stream");
  save_with_content_type k v ct := save_state fault k v ct;
  load k := let! opt := load_state fault k in ret (fst <$> opt);
  delete_key k := delete_state fault k;
  exists_key k := state_exists fault k;
  compare_and_swap k old new := local_compare_and_swap k old new;
}.

Definition local_view (s : Storage blob) : gmap str blob := value <$> rows s.
End local_backend.

(** ** Reasoning about sequenced effects *)
Section monad.
Context {S A B : Type}.

Lemma bindM_Ok (m : M S A) (k : A → M S B) s s' b :
  bindM m k s = (s', Ok b) ↔ ∃ s1 a, m s = (s1, Ok a) ∧ k a s1 = (s', Ok b).
Proof.
  unfold bindM. destruct (m s) as [s1 [a|e]] eqn:E; split; [eauto| |done|]; intros (? & ? & ? & ?); by simplify_eq.
Qed.

Lemma bindM_run (m : M S A) (k : A → M S B) s s1 a :
  m s = (s1, Ok a) → bindM m k s = k a s1.
Proof. unfold bindM. by intros ->. Qed.

Lemma bindM_fail (m : M S A) (k : A → M S B) s s1 e :
  m s = (s1, Err e) → bindM m k s = (s1, Err e).
Proof. unfold bindM. by intros ->. Qed.

(** Every result of a sequence satisfies [P] when each part preserves it. *)
Lemma bindM_inv (P : S → Prop) (m : M S A) (k : A → M S B) s :
  (∀ s' r, m s = (s', r) → P s') → (∀ s' a, m s = (s', Ok a) → P s' → P (k a s').1) →
  P (bindM m k s).1.
Proof.
  intros Hm Hk. unfold bindM. destruct (m s) as [s1 [a|e]] eqn:E; [eapply Hk; eauto|by eapply Hm].
Qed.
End monad.

Section storage_lemmas.
Context {blob : Type} `{Serde blob StateEntry} (fault : N → option str).
Implicit Types (s : Storage blob) (k : str).

Lemma statement_inv {A} (f : gmap str (row blob) → gmap str (row blob) * A) s s' r :
  statement fault f s = (s', r) →
  (∃ a, r = Ok a ∧ f (rows s) = (rows s', a)) ∨ (∃ e, r = Err e ∧ rows s' = rows s).
Proof.
  unfold statement. destruct (fault _); [intros [= <- <-]; eauto|].
  destruct (f (rows s)) as [m a]. intros [= <- <-]. eauto.
Qed.

Lemma cas_state_inv k expected v ct s s' r :
  compare_and_swap_state fault k expected v ct s = (s', r) →
  (r = Ok true ∧ version <$> rows s !! k = expected ∧
   rows s' = <[k := mkRow v ct (match expected with Some n => n + 1 | None => 1 end)%N]> (rows s)) ∨
  (r ≠ Ok true ∧ rows s' = rows s).
Proof.
  unfold compare_and_swap_state, bindM.
  destruct (get_state_version fault k s) as [s1 r1] eqn:E1.
  apply statement_inv in E1 as [(cur & -> & [= E1 <-])|(e & -> & E1)]; [|intros [= <- <-]; by right].
  destruct (rows s !! k) as [r0|] eqn:Er, expected as [n|]; simpl; try (intros [= <- <-]; by right).
  - destruct (decide (version r0 = n)) as [<-|]; [|intros [= <- <-]; by right].
    unfold update_where_version. intros E2.
    apply statement_inv in E2 as [(b & -> & E2)|(e & -> & ->)]; [|by right].
    rewrite <- E1, Er, decide_True in E2 by done. simplify_eq. by left.
  - intros E2. apply statement_inv in E2 as [(b & -> & E2)|(e & -> & ->)]; [|by right].
    rewrite <- E1 in E2. simplify_eq. by left.
Qed.

#[global] Instance LocalBackend_laws :
  BackendLaws (Storage blob) blob (H := LocalBackend fault) local_view.
Proof.
  unfold local_view. split; simpl.
  - intros k v s s' E. apply statement_inv in E as [(a & _ & [= <-])|(e & ? & _)]; [|done].
    by rewrite fmap_insert.
  - intros k v s s' e E. apply statement_inv in E as [(a & ? & _)|(e' & _ & ->)]; done.
  - intros k s s' r. unfold bindM. destruct (load_state fault k s) as [s1 r1] eqn:E1.
    apply statement_inv in E1 as [(a & -> & [= E1 <-])|(e & -> & E1)]; intros [= <- <-]; by rewrite E1.
  - intros k s s' o. unfold bindM. destruct (load_state fault k s) as [s1 r1] eqn:E1.
    apply statement_inv in E1 as [(a & -> & [= E1 <-])|(e & -> & _)]; [|done].
    intros [= <- <-]. rewrite lookup_fmap. by destruct (rows s !! k).
  - intros k s s' E. apply statement_inv in E as [(a & _ & [= <-])|(e & ? & _)]; [|done].
    by rewrite fmap_delete.
  - intros k s s' e E. apply statement_inv in E as [(a & ? & _)|(e' & _ & ->)]; done.
  - intros k s s' r E. apply statement_inv in E as [(a & _ & [= <-])|(e & _ & ->)]; done.
  - intros k s s' b E. apply statement_inv in E as [(a & [= ->] & [= _ <-])|(e & ? & _)]; [|done].
    apply bool_decide_ext. rewrite lookup_fmap. by rewrite fmap_is_Some.
  - intros k old v s s'. unfold local_compare_and_swap, bindM, ret, fail.
    destruct old as [d|]; [destruct (from_slice d); [|done]|]; intros E;
      apply cas_state_inv in E as [(_ & _ & ->)|[? _]]; try done; by rewrite fmap_insert.
  - intros k old v s s' r. unfold local_compare_and_swap, bindM, ret, fail.
    destruct old as [d|]; [destruct (from_slice d); [|by intros [= <- <-]]|]; intros E Hr;
      apply cas_state_inv in E as [(? & _)|[_ ->]]; done.
Qed.
End storage_lemmas.
