(* ===== verification/StateMachine.v ===== *)
(** Persisted state machines with optimistic locking: [StateTransition],
    [ALLOWED_TRANSITIONS] and [StateMachine] of
    [crates/dbx-core/src/state_persistence.rs].

    The machine is written against the [StateBackend] interface; the theorems
    on optimistic locking are about [LocalBackend], the backend that
    implements [compare_and_swap].  Other clients act between the load and the
    swap of an attempt: they are the function [env] of [transition_with]. *)
From S2P Require Import Prelude StateStore.
Local Open Scope dbx_scope.

Inductive StateTransition :=
| Created | Running | Paused | OscSyncing | Completed | Failed | Cancelled
| RollingBack | FullyRolledBack | PartiallyRolledBack | RecoveryRequired.

#[export] Instance StateTransition_eq_dec : EqDecision StateTransition.
Proof. solve_decision. Defined.

Definition as_str (t : StateTransition) : str :=
  match t with
  | Created => lit "created"
  | Running => lit "running"
  | Paused => lit "paused"
  | OscSyncing => lit "osc_syncing"
  | Completed => lit "completed"
  | Failed => lit "failed"
  | Cancelled => lit "cancelled"
  | RollingBack => lit "rolling_back"
  | FullyRolledBack => lit "fully_rolled_back"
  | PartiallyRolledBack => lit "partially_rolled_back"
  | RecoveryRequired => lit "recovery_required"
  end.

Definition from_str (s : str) : option StateTransition :=
  if decide (s = lit "created") then Some Created
  else if decide (s = lit "running") then Some Running
  else if decide (s = lit "paused") then Some Paused
  else if decide (s = lit "osc_syncing") then Some OscSyncing
  else if decide (s = lit "completed") then Some Completed
  else if decide (s = lit "failed") then Some Failed
  else if decide (s = lit "cancelled") then Some Cancelled
  else if decide (s = lit "rolling_back") then Some RollingBack
  else if decide (s = lit "fully_rolled_back") then Some FullyRolledBack
  else if decide (s = lit "partially_rolled_back") then Some PartiallyRolledBack
  else if decide (s = lit "recovery_required") then Some RecoveryRequired
  else None.

Definition ALLOWED_TRANSITIONS : list (StateTransition * list StateTransition) :=
  [ (Created, [Running; Cancelled]);
    (Running, [Paused; OscSyncing; Completed; Failed]);
    (Paused, [Running; Cancelled]);
    (OscSyncing, [Completed; Failed]);
    (Completed, [RollingBack; FullyRolledBack]);
    (Failed, [Running; Cancelled; RollingBack; RecoveryRequired]);
    (Cancelled, []);
    (RollingBack, [FullyRolledBack; PartiallyRolledBack; RecoveryRequired]);
    (FullyRolledBack, []);
    (PartiallyRolledBack, [RecoveryRequired]);
    (RecoveryRequired, []) ].

Definition is_valid_transition (from to : StateTransition) : bool :=
  existsb (λ p, bool_decide (p.1 = from) && existsb (λ t, bool_decide (t = to)) p.2) ALLOWED_TRANSITIONS.

Definition STATE_KEY_PREFIX : str := lit "state:".
Definition state_key (key : str) : str := STATE_KEY_PREFIX ++ key.

Section machine.
Context {S blob : Type} `{StateBackend S blob} `{Serde blob StateEntry}.

Definition create_state (key : str) (metadata : json) : M S StateEntry :=
  let entry := mkEntry key (as_str Created) 1 metadata in
  let! data := lift (to_vec entry) in
  let! _ := save (state_key key) data in
  ret entry.

Definition sm_compare_and_swap (key : str) (expected_version : N) (new_state : StateEntry) : M S bool :=
  let old_entry := mkEntry key [] expected_version JNull in
  let! old_data := lift (to_vec old_entry) in
  let! new_data := lift (to_vec new_state) in
  compare_and_swap (state_key key) (Some old_data) new_data.

(** The part of an attempt up to the swap: the entry as loaded, and as it is
    to be stored. *)
Definition attempt_load (k : str) (to : StateTransition) : M S (StateEntry * StateEntry) :=
  let! raw := load (state_key k) in
  let! entry := (match raw with
                 | Some data => lift (from_slice data)
                 | None => fail (lit "State not found: " ++ k)
                 end) in
  match from_str (current_state entry) with
  | None => fail (lit "Invalid current state: " ++ current_state entry)
  | Some current =>
      if is_valid_transition current to then
        ret (entry, mkEntry (key entry) (as_str to) (wrap_u64 (entry_version entry + 1))
                      (StateStore.metadata entry))
      else fail (lit "Invalid transition: " ++ as_str current ++ lit " -> " ++ as_str to)
  end.

Definition max_retries : nat := 3.

(** [remaining] counts the attempts left; attempt [n] of the loop is
    [max_retries + 1 - remaining]. *)
Fixpoint transition_loop (env : nat → S → S) (k : str) (to : StateTransition) (remaining : nat)
  : M S StateEntry :=
  match remaining with
  | 0 => fail (lit "CAS failed after " ++ show_nat max_retries ++ lit " retries for state key: " ++ k)
  | Datatypes.S remaining' =>
      let! (entry, entry') := attempt_load k to in
      let! success := (λ s, sm_compare_and_swap k (entry_version entry) entry' (env remaining' s)) in
      if success : bool then ret entry' else transition_loop env k to remaining'
  end.

Definition transition_with (env : nat → S → S) (k : str) (to : StateTransition) : M S StateEntry :=
  transition_loop env k to (max_retries + 1).

Definition transition (k : str) (to : StateTransition) : M S StateEntry :=
  transition_with (λ _ s, s) k to.

Definition get_state (key : str) : M S (option StateEntry) :=
  let! raw := load (state_key key) in
  match raw with
  | Some data => let! entry := lift (from_slice data) in ret (Some entry)
  | None => ret None
  end.

Definition sm_delete_state (key : str) : M S unit := delete_key (state_key key).
End machine.

(** ** The transition table *)

Lemma from_str_as_str t s : from_str s = Some t ↔ s = as_str t.
Proof.
  split.
  - unfold from_str. intros Hs. repeat case_decide; by simplify_eq.
  - intros ->. by destruct t.
Qed.

Definition valid (a b : StateTransition) : Prop := is_valid_transition a b = true.

Definition rank_final (t : StateTransition) : bool :=
  match t with Cancelled | FullyRolledBack | RecoveryRequired => true | _ => false end.

Definition undone (t : StateTransition) : bool :=
  match t with RollingBack | FullyRolledBack | PartiallyRolledBack | RecoveryRequired => true | _ => false end.

(** Along any sequence of allowed transitions cancelled, fully_rolled_back and
    recovery_required are final, a state of the rollback family is never left for one outside it,
    completed leads only to the rollback family, and created is never entered again. *)
Theorem transitions_only_move_forward a b :
  rtc valid a b →
  (rank_final a = true → b = a) ∧
  (undone a = true → undone b = true) ∧
  (a = Completed → b = Completed ∨ undone b = true) ∧
  (b = Created → a = Created).
Proof.
  induction 1 as [x|x y z Hxy Hyz IH]; [by split_and!; eauto|].
  unfold valid in Hxy. destruct x, y; try discriminate Hxy; simpl in *; naive_solver.
Qed.

(** ** Optimistic locking on [LocalBackend] *)
Section local.
Context {blob : Type} `{Serde blob StateEntry, !SerdeLaw blob StateEntry}.
Implicit Types (s : Storage blob) (k : str).

(** The entry a key holds, with the version of its row. *)
Definition stored s k (e : StateEntry) (v : N) : Prop :=
  ∃ r, rows s !! state_key k = Some r ∧ from_slice (value r) = Ok e ∧ version r = v.

Lemma stored_inj s k e1 e2 v1 v2 : stored s k e1 v1 → stored s k e2 v2 → e1 = e2 ∧ v1 = v2.
Proof. intros (r1 & Ha & ? & ?) (r2 & Hb & ? & ?). rewrite Ha in Hb. split; congruence. Qed.

Lemma attempt_load_inv fault k to s s' r :
  attempt_load (H := LocalBackend fault) k to s = (s', r) →
  rows s' = rows s ∧
  ∀ e e', r = Ok (e, e') →
    ∃ v cur, stored s k e v ∧ from_str (current_state e) = Some cur ∧ valid cur to ∧
             e' = mkEntry (key e) (as_str to) (wrap_u64 (entry_version e + 1)) (metadata e).
Proof.
  unfold attempt_load, bindM at 1. simpl.
  destruct (bindM (load_state fault (state_key k)) _ s) as [s1 r1] eqn:E1.
  assert (rows s1 = rows s ∧ ∀ o, r1 = Ok o → o = value <$> rows s !! state_key k) as [Hrows Ho].
  { revert E1. unfold bindM. destruct (load_state fault (state_key k) s) as [s2 r2] eqn:E2.
    apply statement_inv in E2 as [(a & -> & [= E2 <-])|(e & -> & E2)]; intros [= <- <-]; [|by split].
    split; [done|]. intros o [= <-]. by destruct (rows s !! state_key k). }
  destruct r1 as [o|e]; [|intros [= <- <-]; by split]. specialize (Ho o eq_refl) as ->.
  unfold bindM, lift, fail, ret.
  destruct (rows s !! state_key k) as [rw|] eqn:Erow; simpl; [|intros [= <- <-]; by split].
  destruct (from_slice (value rw)) as [e|] eqn:Ee; [|intros [= <- <-]; by split].
  destruct (from_str (current_state e)) as [cur|] eqn:Ecur; [|intros [= <- <-]; by split].
  destruct (is_valid_transition cur to) eqn:Ev; intros [= <- <-]; split; try done.
  intros e1 e2 [= <- <-]. exists (version rw), cur. split_and!; try done. by exists rw.
Qed.

Lemma sm_cas_inv fault k expected e' s s' r :
  sm_compare_and_swap (H := LocalBackend fault) k expected e' s = (s', r) →
  (r = Ok true ∧ (∃ rw, rows s !! state_key k = Some rw ∧ version rw = expected ∧
     ∃ d, rows s' = <[state_key k := mkRow d (lit "application/json") (expected + 1)]> (rows s) ∧
          from_slice d = Ok e')) ∨
  (r ≠ Ok true ∧ rows s' = rows s).
Proof.
  unfold sm_compare_and_swap, bindM, lift.
  destruct (to_vec _) as [old|] eqn:Eold; [|intros [= <- <-]; by right].
  destruct (to_vec e') as [d|] eqn:Ed; [|intros [= <- <-]; by right].
  simpl. unfold local_compare_and_swap, bindM, ret.
  rewrite (from_to_vec _ _ Eold). simpl. intros E.
  apply cas_state_inv in E as [(-> & Hv & Hrows)|[? ?]]; [|by right]. left. split; [done|].
  apply fmap_Some in Hv as (rw & Hrw & Hv). exists rw. split_and!; [done|done|].
  exists d. split; [done|]. by apply from_to_vec.
Qed.

(** *** Several clients on one key

    Each client loads, then swaps; the swaps that succeed are recorded in
    [history], newest first. *)
Record client := mkClient { target : StateTransition; loaded : StateEntry; proposed : StateEntry }.
Record sm_conf := mkSM { store : Storage blob; clients : gmap nat client; history : list StateTransition }.

Inductive sm_step (fault : N → option str) (k : str) : sm_conf → sm_conf → Prop :=
| sm_load c i to s' e e' :
    attempt_load (H := LocalBackend fault) k to (store c) = (s', Ok (e, e')) →
    sm_step fault k c (mkSM s' (<[i := mkClient to e e']> (clients c)) (history c))
| sm_load_fails c to s' err :
    attempt_load (H := LocalBackend fault) k to (store c) = (s', Err err) →
    sm_step fault k c (mkSM s' (clients c) (history c))
| sm_swap c i cl s' r :
    clients c !! i = Some cl →
    sm_compare_and_swap (H := LocalBackend fault) k (entry_version (loaded cl)) (proposed cl) (store c) = (s', r) →
    sm_step fault k c (mkSM s' (delete i (clients c))
                         (if decide (r = Ok true) then target cl :: history c else history c)).

Definition sm_inv (k : str) (c : sm_conf) : Prop :=
  ∃ e cur rest, history c = cur :: rest ∧
    stored (store c) k e (N.of_nat (length (history c))) ∧
    entry_version e = N.of_nat (length (history c)) ∧ from_str (current_state e) = Some cur ∧
    ∀ i cl, clients c !! i = Some cl →
      (entry_version (loaded cl) ≤ N.of_nat (length (history c)))%N ∧
      (entry_version (loaded cl) = N.of_nat (length (history c)) → loaded cl = e) ∧
      (∃ from, from_str (current_state (loaded cl)) = Some from ∧ valid from (target cl)) ∧
      current_state (proposed cl) = as_str (target cl) ∧
      entry_version (proposed cl) = wrap_u64 (entry_version (loaded cl) + 1).

(** Consecutive states, newest first, are related by the table. *)
Fixpoint valid_path (h : list StateTransition) : Prop :=
  match h with
  | b :: ((a :: _) as rest) => valid a b ∧ valid_path rest
  | _ => True
  end.

Lemma stored_rows s s' k e v : rows s' = rows s → stored s k e v → stored s' k e v.
Proof. unfold stored. by intros ->. Qed.

Lemma sm_inv_load fault k c i to s' e e' :
  attempt_load (H := LocalBackend fault) k to (store c) = (s', Ok (e, e')) →
  sm_inv k c → sm_inv k (mkSM s' (<[i := mkClient to e e']> (clients c)) (history c)).
Proof.
  intros [Hrows Hload]%attempt_load_inv (e0 & cur & rest & Hh & Hst & Hv & Hcur & Hcl).
  destruct (Hload e e' eq_refl) as (v & from & Hst' & Hfrom & Hvalid & ->).
  destruct (stored_inj _ _ _ _ _ _ Hst Hst') as [<- _].
  exists e0, cur, rest. split_and!; try done; [by eapply stored_rows|].
  simpl. intros j cl [[<- <-]|[? Hj]]%lookup_insert_Some; [|by eapply Hcl]. simpl.
  split_and!; [lia|done|eauto|done|done].
Qed.

Lemma sm_inv_swap fault k c i cl s' r :
  clients c !! i = Some cl → (N.of_nat (length (history c)) < u64_max)%N →
  sm_compare_and_swap (H := LocalBackend fault) k (entry_version (loaded cl)) (proposed cl) (store c) = (s', r) →
  sm_inv k c → valid_path (history c) →
  let h' := if decide (r = Ok true) then target cl :: history c else history c in
  sm_inv k (mkSM s' (delete i (clients c)) h') ∧ valid_path h'.
Proof.
  intros Hi Hmax Hcas (e0 & cur & rest & Hh & Hst & Hv & Hcur & Hcl) Hpath.
  pose proof (Hcl i cl Hi) as (Hle & Heq & (from & Hfrom & Hvalid) & Hps & Hpv).
  apply sm_cas_inv in Hcas as [(-> & rw & Hrw & Hver & d & Hrows & Hd)|[Hr Hrows]].
  - rewrite decide_True by done.
    assert (entry_version (loaded cl) = N.of_nat (length (history c))) as Hcurr.
    { destruct Hst as (r0 & Hr0 & _ & <-). by simplify_eq. }
    specialize (Heq Hcurr) as Hl. rewrite Hl in Hfrom. simplify_eq.
    split; [|simpl; rewrite Hh in *; done].
    exists (proposed cl), (target cl), (history c). split_and!; [done|..].
    + exists (mkRow d (lit "application/json") (entry_version (loaded cl) + 1)).
      simpl. rewrite Hrows, lookup_insert_eq. split_and!; [done|done|simpl; lia].
    + rewrite Hpv, Hcurr. simpl. unfold wrap_u64, u64_max in *. rewrite N.mod_small; lia.
    + apply from_str_as_str, Hps.
    + simpl. intros j cl' [? Hj]%lookup_delete_Some. destruct (Hcl j cl' Hj) as (? & ? & ? & ? & ?).
      split_and!; try done; simpl; lia.
  - rewrite decide_False by done. split; [|done].
    exists e0, cur, rest. split_and!; try done; [by eapply stored_rows|].
    simpl. intros j cl' [? Hj]%lookup_delete_Some. eauto.
Qed.

(** C30: Clients that load and swap the entry of one key in any interleaving, with any SQL failures,
    only ever add transitions of the table to its history: the stored entry is the newest state of
    that history, and its version and that of its row are the length of the history. *)
Theorem optimistic_locking_serialises fault k c0 c e :
  stored (store c0) k e 1 → entry_version e = 1%N → current_state e = as_str Created →
  clients c0 = ∅ → history c0 = [Created] →
  rtc (sm_step fault k) c0 c → (N.of_nat (length (history c)) ≤ u64_max)%N →
  valid_path (history c) ∧
  ∃ e' cur rest, history c = cur :: rest ∧ current_state e' = as_str cur ∧
    stored (store c) k e' (N.of_nat (length (history c))) ∧
    entry_version e' = N.of_nat (length (history c)).
Proof.
  intros Hst Hv Hs Hcl Hh Hreach.
  enough ((N.of_nat (length (history c)) ≤ u64_max)%N → sm_inv k c ∧ valid_path (history c)) as Hinv.
  { intros Hmax. destruct (Hinv Hmax) as [(e' & cur & rest & ? & ? & ? & Hc & _) ?].
    split; [done|]. exists e', cur, rest. split_and!; try done. by apply from_str_as_str. }
  revert c Hreach. apply (rtc_ind_r (λ c, _ → sm_inv k c ∧ valid_path (history c))).
  - intros _. rewrite Hh. split; [|done]. exists e, Created, []. rewrite Hh, Hcl.
    split_and!; [done|done|done|by apply from_str_as_str|]. intros i cl. by rewrite lookup_empty.
  - intros c c' _ Hstep IH Hmax.
    destruct Hstep as [c i to s' e0 e' Hload|c to s' err Hload|c i cl s' r Hi0 Hcas]; simpl in *.
    + destruct (IH Hmax). split; [|done]. by eapply sm_inv_load.
    + destruct (IH Hmax) as [(e0 & cur & rest & Hi) ?]. split; [|done].
      apply attempt_load_inv in Hload as [Hrows _]. exists e0, cur, rest. simpl.
      destruct Hi as (? & ? & ? & ? & ?). split_and!; try done. by eapply stored_rows.
    + assert (length (history c) ≤ length (if decide (r = Ok true) then target cl :: history c else history c))
        as Hlen by (case_decide; simpl; lia).
      destruct (IH ltac:(lia)) as [Hi Hp].
      destruct (decide (N.of_nat (length (history c)) < u64_max)%N) as [Hlt|Hge];
        [by eapply sm_inv_swap|].
      (* at the bound no further swap can have succeeded *)
      case_decide as Hok; simpl in *; [lia|]. split; [|done].
      apply sm_cas_inv in Hcas as [(? & _)|[_ Hrows]]; [done|].
      destruct Hi as (e0 & cur & rest & ? & ? & ? & ? & Hc). exists e0, cur, rest. simpl.
      split_and!; try done; [by eapply stored_rows|].
      intros j cl' [? Hj]%lookup_delete_Some. eauto.
Qed.

(** *** One client, no faults *)
Definition no_fault : N → option str := λ _, None.

Context (to_vec_total : ∀ e : StateEntry, ∃ b : blob, to_vec e = Ok b).

Abbreviation quiet := (LocalBackend no_fault).

Lemma attempt_load_quiet k to s e v :
  stored s k e v →
  let s' := mkStorage (rows s) (statements s + 1) in
  attempt_load (H := quiet) k to s =
  match from_str (current_state e) with
  | None => (s', Err (lit "Invalid current state: " ++ current_state e))
  | Some cur =>
      if is_valid_transition cur to then
        (s', Ok (e, mkEntry (key e) (as_str to) (wrap_u64 (entry_version e + 1)) (metadata e)))
      else (s', Err (lit "Invalid transition: " ++ as_str cur ++ lit " -> " ++ as_str to))
  end.
Proof.
  intros (r & Hr & He & _). unfold attempt_load, bindM, load; simpl.
  unfold bindM, load_state, statement, no_fault; simpl. rewrite Hr; simpl.
  unfold lift. rewrite He. by destruct (from_str _) as [cur|]; [destruct (is_valid_transition cur to)|].
Qed.

Lemma sm_cas_quiet k expected e' s e v :
  stored s k e v →
  ∃ s', sm_compare_and_swap (H := quiet) k expected e' s = (s', Ok (bool_decide (v = expected))) ∧
        if decide (v = expected) then
          ∃ d, rows s' = <[state_key k := mkRow d (lit "application/json") (v + 1)]> (rows s) ∧
               from_slice d = Ok e'
        else rows s' = rows s.
Proof.
  intros (r & Hr & He & Hv). unfold sm_compare_and_swap, bindM, lift.
  destruct (to_vec_total (mkEntry k [] expected JNull)) as [old Hold]. rewrite Hold.
  destruct (to_vec_total e') as [d Hd]. rewrite Hd. simpl.
  unfold local_compare_and_swap, bindM, ret. rewrite (from_to_vec _ _ Hold). simpl.
  unfold compare_and_swap_state, bindM, get_state_version, statement, no_fault. rewrite Hr. simpl. rewrite Hv.
  destruct (decide (v = expected)) as [<-|Hne]; simpl.
  - unfold update_where_version, statement, no_fault. simpl. rewrite Hr, Hv, decide_True by done.
    eexists. split; [by rewrite bool_decide_true|]. exists d. split; [done|]. by apply from_to_vec.
  - eexists. split; [by rewrite bool_decide_false|]. done.
Qed.

(** Without interference `transition` stores the target state with the version increased by one
    and touches no other key when the table allows the step, and otherwise returns the invalid-
    transition or invalid-state error and changes nothing. *)
Theorem transition_outcome k to s e v :
  stored s k e v → entry_version e = v → (v < u64_max)%N →
  ∃ s', match from_str (current_state e) with
        | Some cur =>
            if is_valid_transition cur to then
              let e' := mkEntry (key e) (as_str to) (v + 1) (metadata e) in
              transition (H := quiet) k to s = (s', Ok e') ∧ stored s' k e' (v + 1) ∧
              ∀ k', k' ≠ k → rows s' !! state_key k' = rows s !! state_key k'
            else
              transition (H := quiet) k to s =
                (s', Err (lit "Invalid transition: " ++ as_str cur ++ lit " -> " ++ as_str to)) ∧
              rows s' = rows s
        | None => transition (H := quiet) k to s =
                    (s', Err (lit "Invalid current state: " ++ current_state e)) ∧ rows s' = rows s
        end.
Proof.
  intros Hst Hv Hlt. pose proof (attempt_load_quiet k to s e v Hst) as Hload. simpl in Hload.
  unfold transition, transition_with, max_retries. simpl transition_loop.
  set (s1 := mkStorage (rows s) (statements s + 1)) in *.
  destruct (from_str (current_state e)) as [cur|] eqn:Ecur;
    [destruct (is_valid_transition cur to)|].
  - rewrite (bindM_run _ _ _ _ _ Hload).
    assert (stored s1 k e v) as Hst1 by by eapply stored_rows.
    destruct (sm_cas_quiet k (entry_version e) (mkEntry (key e) (as_str to)
      (wrap_u64 (entry_version e + 1)) (metadata e)) s1 e v Hst1) as (s2 & Hcas & Hrows).
    rewrite decide_True in Hrows by done. rewrite bool_decide_true in Hcas by done.
    destruct Hrows as (d & Hrows & Hd).
    exists s2. rewrite (bindM_run _ _ _ s2 true) by done.
    assert (wrap_u64 (entry_version e + 1) = (v + 1)%N) as Hw.
    { rewrite Hv. unfold wrap_u64, u64_max in *. apply N.mod_small. lia. }
    rewrite Hw in *. split_and!; [done| |].
    + eexists. rewrite Hrows, lookup_insert_eq. by split_and!.
    + intros k' Hne. rewrite Hrows, lookup_insert_ne; [done|]. unfold state_key. intros ?%app_inv_head. congruence.
  - exists s1. by rewrite (bindM_fail _ _ _ _ _ Hload).
  - exists s1. by rewrite (bindM_fail _ _ _ _ _ Hload).
Qed.

(** *** Re-creating a state

    The upsert of [save_state] advances the row version while the new entry
    starts again at version 1, so the swap of every later transition is
    refused. *)
Lemma out_of_step_loop k to n s e v cur :
  stored s k e v → entry_version e ≠ v → from_str (current_state e) = Some cur → valid cur to →
  ∃ s', transition_loop (H := quiet) (λ _ s, s) k to n s =
          (s', Err (lit "CAS failed after 3 retries for state key: " ++ k)) ∧ rows s' = rows s.
Proof.
  revert s. induction n as [|n IH]; intros s Hst Hne Hcur Hvalid.
  { exists s. split; reflexivity. }
  simpl. pose proof (attempt_load_quiet k to s e v Hst) as Hload. rewrite Hcur, Hvalid in Hload.
  rewrite (bindM_run _ _ _ _ _ Hload).
  set (s1 := mkStorage (rows s) (statements s + 1)) in *.
  assert (stored s1 k e v) as Hst1 by by eapply stored_rows.
  destruct (sm_cas_quiet k (entry_version e) (mkEntry (key e) (as_str to)
    (wrap_u64 (entry_version e + 1)) (metadata e)) s1 e v Hst1) as (s2 & Hcas & Hrows).
  rewrite decide_False in Hrows by done. rewrite bool_decide_false in Hcas by done.
  rewrite (bindM_run _ _ _ s2 false) by done.
  destruct (IH s2) as (s' & -> & Hs'); [by eapply stored_rows|done..|].
  exists s'. split; [done|]. by rewrite Hs'.
Qed.

(** Calling `create_state` for a key that already has a row leaves the entry's version behind
    the version of its row, so every later transition fails and changes nothing; the transitions the
    table allows fail with the retry error. *)
Theorem recreated_state_is_stuck k meta s s1 entry to :
  is_Some (rows s !! state_key k) →
  (∀ r, rows s !! state_key k = Some r → (1 ≤ version r)%N) →
  create_state (H := quiet) k meta s = (s1, Ok entry) →
  ∃ s2 err, transition (H := quiet) k to s1 = (s2, Err err) ∧ rows s2 = rows s1 ∧
    (valid Created to → err = lit "CAS failed after 3 retries for state key: " ++ k).
Proof.
  intros [r Hr] Hpos. specialize (Hpos r Hr). unfold create_state, bindM, lift.
  destruct (to_vec_total (mkEntry k (as_str Created) 1 meta)) as [d Hd]. rewrite Hd. simpl.
  unfold save_state, statement, no_fault. rewrite Hr. simpl. intros [= <- <-].
  set (s1 := mkStorage _ _).
  assert (stored s1 k (mkEntry k (as_str Created) 1 meta) (version r + 1)) as Hst.
  { eexists. unfold s1; simpl. rewrite lookup_insert_eq. split_and!; [done|by apply from_to_vec|done]. }
  destruct (is_valid_transition Created to) eqn:Ev.
  - destruct (out_of_step_loop k to (max_retries + 1) s1 _ _ Created Hst) as (s2 & Ht & Hrows);
      [simpl; lia|by apply from_str_as_str|done|].
    eauto 10.
  - unfold transition, transition_with, max_retries. simpl transition_loop.
    pose proof (attempt_load_quiet k to s1 _ _ Hst) as Hload. cbv zeta in Hload.
    change (from_str (current_state (mkEntry k (as_str Created) 1 meta))) with (Some Created) in Hload.
    cbv iota in Hload. rewrite Ev in Hload.
    eexists _, _. split; [by apply bindM_fail|]. split; [done|]. unfold valid. by rewrite Ev.
Qed.
End local.

(** ** Witnesses

    Concrete stores whose values are the entries themselves. *)
#[local] Instance entry_serde : Serde StateEntry StateEntry :=
  {| to_vec e := Ok e; from_slice e := Ok e |}.
#[local] Instance entry_serde_law : SerdeLaw StateEntry StateEntry.
Proof. intros a b [= ->]. reflexivity. Defined.

Lemma entry_total (e : StateEntry) : ∃ b : StateEntry, to_vec e = Ok b.
Proof. by exists e. Qed.

Definition job : str := lit "job-1".
Definition entry1 : StateEntry := mkEntry job (as_str Created) 1 JNull.
Definition store1 : Storage StateEntry :=
  mkStorage (<[state_key job := mkRow entry1 (lit "application/octet-stream") 1]> ∅) 1.
Definition entry2 : StateEntry := mkEntry job (as_str Running) 2 JNull.

Lemma store1_stored : stored store1 job entry1 1.
Proof. eexists. split; [apply lookup_insert_eq|]. by split. Qed.

Lemma forward_witness : undone FullyRolledBack = true.
Proof.
  refine (proj1 (proj2 (transitions_only_move_forward RollingBack FullyRolledBack _)) eq_refl).
  apply rtc_once. reflexivity.
Defined.

Lemma serialises_witness :
  valid_path [Running; Created] ∧
  ∃ e' cur rest, [Running; Created] = cur :: rest ∧ current_state e' = as_str cur ∧
    stored (sm_compare_and_swap (H := LocalBackend no_fault) job 1 entry2
              (mkStorage (rows store1) 2)).1 job e' 2 ∧ entry_version e' = 2%N.
Proof.
  refine (optimistic_locking_serialises no_fault job (mkSM store1 ∅ [Created])
    (mkSM _ (delete 0 (<[0 := mkClient Running entry1 entry2]> ∅)) [Running; Created])
    entry1 store1_stored eq_refl eq_refl eq_refl eq_refl _ _).
  - eapply rtc_l.
    { apply (sm_load no_fault job (mkSM store1 ∅ [Created]) 0 Running (mkStorage (rows store1) 2) entry1 entry2).
      exact (attempt_load_quiet job Running store1 entry1 1 store1_stored). }
    apply rtc_once.
    refine (sm_swap no_fault job (mkSM (mkStorage (rows store1) 2)
              (<[0 := mkClient Running entry1 entry2]> ∅) [Created]) 0
              (mkClient Running entry1 entry2) _ (Ok true) (lookup_insert_eq _ _ _) _).
    vm_compute. reflexivity.
  - vm_compute. discriminate.
Defined.

Lemma transition_witness :
  ∃ s', transition (H := LocalBackend no_fault) job Running store1 = (s', Ok entry2) ∧
        stored s' job entry2 2.
Proof.
  destruct (transition_outcome entry_total job Running store1 entry1 1 store1_stored eq_refl)
    as (s' & H1 & H2 & _); [reflexivity|]. by exists s'.
Defined.

Lemma recreated_witness :
  ∃ s2, transition (H := LocalBackend no_fault) job Running
          (create_state (H := LocalBackend no_fault) job JNull store1).1 =
        (s2, Err (lit "CAS failed after 3 retries for state key: job-1")).
Proof.
  destruct (recreated_state_is_stuck entry_total job JNull store1
      (create_state (H := LocalBackend no_fault) job JNull store1).1 entry1 Running)
    as (s2 & err & -> & _ & Herr).
  - eexists. apply lookup_insert_eq.
  - intros r Hr. assert (r = mkRow entry1 (lit "application/octet-stream") 1) as ->; [|reflexivity].
    apply (inj Some). rewrite <- Hr. apply lookup_insert_eq.
  - vm_compute. reflexivity.
  - exists s2. by rewrite Herr.
Defined.
