(* ===== verification/TwoPhaseCommit.v ===== *)
(** Two-phase commit ([crates/dbx-core/src/two_phase_commit.rs]).

    The coordinator runs over any [StateBackend] and records a
    [StateMachine] entry beside its own log.  Participants are code outside
    the coordinator: their answers are given by [respond], which may depend on
    every call made so far, so that each theorem holds for every behaviour of
    the participants.  The calls and their answers are recorded in [trace]. *)
From S2P Require Import Prelude StateStore StateMachine.
Local Open Scope dbx_scope.

Inductive TransactionStatus :=
| Preparing | Prepared | Committing | Committed | TxRollingBack | RolledBack | Mixed | Unknown.

#[export] Instance TransactionStatus_eq_dec : EqDecision TransactionStatus.
Proof. solve_decision. Defined.

Definition status_as_str (t : TransactionStatus) : str :=
  match t with
  | Preparing => lit "preparing"
  | Prepared => lit "prepared"
  | Committing => lit "committing"
  | Committed => lit "committed"
  | TxRollingBack => lit "rolling_back"
  | RolledBack => lit "rolled_back"
  | Mixed => lit "mixed"
  | Unknown => lit "unknown"
  end.

Definition status_from_str (s : str) : TransactionStatus :=
  if decide (s = lit "preparing") then Preparing
  else if decide (s = lit "prepared") then Prepared
  else if decide (s = lit "committing") then Committing
  else if decide (s = lit "committed") then Committed
  else if decide (s = lit "rolling_back") then TxRollingBack
  else if decide (s = lit "rolled_back") then RolledBack
  else if decide (s = lit "mixed") then Mixed
  else Unknown.

Record VoteResult := mkVote { v_participant_id : str; vote : bool; reason : option str }.
Record ParticipantCommitResult :=
  mkCommitResult { c_participant_id : str; committed : bool; error : option str }.
Record ParticipantInfo := mkInfo { id : str; name : str; role : str }.

Record TransactionLog := mkLog {
  transaction_id : str;
  status : str;
  participants : list ParticipantInfo;
  created_at : str;
  updated_at : str;
  log_metadata : json;
}.

(** A participant as the coordinator sees it. *)
Abbreviation Participant := ParticipantInfo (only parsing).

Inductive op := OpPrepare | OpCommit | OpRollback.
#[export] Instance op_eq_dec : EqDecision op.
Proof. solve_decision. Defined.
#[export] Instance ParticipantInfo_eq_dec : EqDecision ParticipantInfo.
Proof. solve_decision. Defined.

Record event := mkEvent { ev_op : op; ev_participant : Participant; ev_result : result unit str }.

(** The adapter of closures: calls ignore the transaction id. *)
Record FnParticipant := mkFn {
  fn_info : Participant;
  prepare_fn : list event → result unit str;
  commit_fn : list event → result unit str;
  rollback_fn : list event → result unit str;
}.

Definition fn_call (o : op) (p : FnParticipant) (tr : list event) : result unit str :=
  match o with
  | OpPrepare => prepare_fn p tr
  | OpCommit => commit_fn p tr
  | OpRollback => rollback_fn p tr
  end.

Definition log_key (transaction_id : str) : str := lit "2pc:tx:" ++ transaction_id.
Definition sm_key (transaction_id : str) : str := lit "2pc_" ++ transaction_id.

Section coordinator.
Context {S blob : Type} `{StateBackend S blob} `{Serde blob StateEntry} `{Serde blob TransactionLog}.
(** The participants and the clock. *)
Context (respond : list event → op → Participant → result unit str).
Context (now : nat → str).

Record TP := mkTP { store : S; trace : list event; ticks : nat }.

(** Backend operations inside the coordinator's state. *)
Definition on_store {A} (m : M S A) : M TP A :=
  λ st, let '(s, r) := m (store st) in (mkTP s (trace st) (ticks st), r).
Definition read_clock : M TP str :=
  λ st, (mkTP (store st) (trace st) (ticks st + 1), Ok (now (ticks st))).
Definition call (o : op) (p : Participant) : M TP (result unit str) :=
  λ st, let r := respond (trace st) o p in
        (mkTP (store st) (trace st ++ [mkEvent o p r]) (ticks st), Ok r).

Definition log_new (tx : str) (infos : list ParticipantInfo) (metadata : json) : M TP TransactionLog :=
  let! created := read_clock in
  let! updated := read_clock in
  ret (mkLog tx (status_as_str Preparing) infos created updated metadata).

Definition save_log (log : TransactionLog) : M TP unit :=
  let! data := lift (to_vec log) in
  on_store (save (log_key (transaction_id log)) data).

Definition load_log (tx : str) : M TP (option TransactionLog) :=
  let! raw := on_store (load (log_key tx)) in
  match raw with
  | Some data => let! log := lift (from_slice data) in ret (Some log)
  | None => ret None
  end.

Definition update_status (tx : str) (s : TransactionStatus) : M TP TransactionLog :=
  let! found := load_log tx in
  match found with
  | None => fail (lit "Transaction not found: " ++ tx)
  | Some log =>
      let! updated := read_clock in
      let log' := mkLog (transaction_id log) (status_as_str s) (participants log) (created_at log)
                    updated (log_metadata log) in
      let! _ := save_log log' in
      ret log'
  end.

Fixpoint prepare_each (ps : list Participant) (results : list VoteResult)
  : M TP (list VoteResult * bool) :=
  match ps with
  | [] => ret (results, true)
  | p :: ps' =>
      let! r := call OpPrepare p in
      match r with
      | Ok _ => prepare_each ps' (results ++ [mkVote (id p) true None])
      | Err e => ret (results ++ [mkVote (id p) false (Some e)], false)
      end
  end.

Definition prepare_phase (tx : str) (ps : list Participant) : M TP (list VoteResult) :=
  let! _ := update_status tx Preparing in
  let! (results, completed) := prepare_each ps [] in
  if completed : bool then
    let! _ := update_status tx Prepared in ret results
  else ret results.

(** One pass over the pending participants; [last] on the final attempt. *)
Fixpoint commit_round (last : bool) (pending : list Participant)
    (results : list ParticipantCommitResult) (next : list Participant)
  : M TP (list ParticipantCommitResult * list Participant) :=
  match pending with
  | [] => ret (results, next)
  | p :: pending' =>
      let! r := call OpCommit p in
      match r with
      | Ok _ => commit_round last pending' (results ++ [mkCommitResult (id p) true None]) next
      | Err e =>
          if last then commit_round last pending' (results ++ [mkCommitResult (id p) false (Some e)]) next
          else commit_round last pending' results (next ++ [p])
      end
  end.

(** [retries] attempts remain after this one. *)
Fixpoint commit_attempts (retries : nat) (pending : list Participant)
    (results : list ParticipantCommitResult) : M TP (list ParticipantCommitResult) :=
  let! (results', next) := commit_round (bool_decide (retries = 0)) pending results [] in
  match next, retries with
  | [], _ => ret results'
  | _, 0 => ret results'
  | _, Datatypes.S retries' => commit_attempts retries' next results'
  end.

Definition commit_phase (ps : list Participant) (max_retries : nat) : M TP (list ParticipantCommitResult) :=
  commit_attempts max_retries ps [].

Fixpoint rollback_each (ps : list Participant) (errors : list str) : M TP (list str) :=
  match ps with
  | [] => ret errors
  | p :: ps' =>
      let! r := call OpRollback p in
      match r with
      | Ok _ => rollback_each ps' errors
      | Err e => rollback_each ps' (errors ++ [id p ++ lit ": " ++ e])
      end
  end.

Definition rollback_phase (ps : list Participant) : M TP unit :=
  let! errors := rollback_each ps [] in
  match errors with
  | [] => ret ()
  | _ => fail (join (lit "; ") errors)
  end.

Definition all_committed (ps : list Participant) (results : list ParticipantCommitResult) : bool :=
  bool_decide (ps = []) || (negb (bool_decide (results = [])) && forallb committed results).
Definition has_committed (results : list ParticipantCommitResult) : bool := existsb committed results.
Definition failure_status (results : list ParticipantCommitResult) : TransactionStatus :=
  if has_committed results then Mixed else RolledBack.

Definition commit_failures (results : list ParticipantCommitResult) : list str :=
  (λ r, c_participant_id r ++ lit ": " ++ default (lit "unknown") (error r)) <$>
    filter (λ r, committed r = false) results.
Definition rejections (votes : list VoteResult) : list str :=
  (λ v, v_participant_id v ++ lit ": " ++ default (lit "no reason") (reason v)) <$>
    filter (λ v, vote v = false) votes.

Definition execute (tx : str) (ps : list Participant) (metadata : json) : M TP TransactionLog :=
  let! log := log_new tx ps metadata in
  let! _ := save_log log in
  let! _ := on_store (create_state (sm_key tx) (JObject [(lit "phase", JString (lit "begin"))])) in
  let! votes := prepare_phase tx ps in
  if forallb vote votes then
    let! _ := update_status tx Committing in
    let! results := commit_phase ps 2 in
    if all_committed ps results then
      let! log := update_status tx Committed in
      let! _ := attempt (on_store (transition (sm_key tx) Completed)) in
      ret log
    else
      let! _ := update_status tx TxRollingBack in
      let! _ := attempt (rollback_phase ps) in
      let! log := update_status tx (failure_status results) in
      let! _ := attempt (on_store (transition (sm_key tx) Failed)) in
      fail (lit "Commit phase failed: " ++ join (lit "; ") (commit_failures results) ++
            lit ". Status: " ++ status log)
  else
    let! _ := update_status tx TxRollingBack in
    let! _ := attempt (rollback_phase ps) in
    let! log := update_status tx RolledBack in
    let! _ := attempt (on_store (transition (sm_key tx) Failed)) in
    fail (lit "Prepare phase failed: participants did not agree. Rejections: [" ++
          join (lit ", ") (rejections votes) ++ lit "]. Status: " ++ status log).

Definition recover (tx : str) (ps : list Participant) : M TP TransactionLog :=
  let! found := load_log tx in
  match found with
  | None => fail (lit "No transaction log found for: " ++ tx)
  | Some log =>
      match status_from_str (status log) with
      | Preparing | Prepared | TxRollingBack =>
          let! _ := rollback_phase ps in
          update_status tx RolledBack
      | Committing =>
          let! results := commit_phase ps 2 in
          if all_committed ps results then update_status tx Committed
          else
            let! _ := rollback_phase ps in
            let! _ := update_status tx (failure_status results) in
            fail (lit "Recovery failed during commit: " ++ join (lit "; ") (commit_failures results))
      | Committed | RolledBack | Mixed => ret log
      | Unknown => fail (lit "Unknown transaction status for " ++ tx ++ lit ": cannot recover")
      end
  end.
End coordinator.

(** ** The calls each phase makes *)
Definition ok_event (e : event) : bool := is_ok (ev_result e).
Definition result_of (e : event) : ParticipantCommitResult :=
  match ev_result e with
  | Ok _ => mkCommitResult (id (ev_participant e)) true None
  | Err x => mkCommitResult (id (ev_participant e)) false (Some x)
  end.
(** The answers a participant gave, in order. *)
Definition answers (p : ParticipantInfo) (evs : list event) : list (result unit str) :=
  ev_result <$> filter (λ e, ev_participant e = p) evs.

Abbreviation oks := (filter (λ e, ok_event e = true)).
Abbreviation errs_of := (filter (λ e, ok_event e = false)).

Section phases.
Context {S blob : Type} `{StateBackend S blob} `{Serde blob StateEntry} `{Serde blob TransactionLog}.
Context (respond : list event → op → ParticipantInfo → result unit str) (now : nat → str).
Implicit Types (st : TP (S := S)) (evs : list event) (ps : list ParticipantInfo).

(** [m] makes exactly the calls [evs], leaving the store alone. *)
Definition emits st st' evs : Prop := store st' = store st ∧ trace st' = trace st ++ evs.

Lemma emits_nil st : emits st st [].
Proof. split; [done|]. by rewrite app_nil_r. Qed.

Lemma emits_trans st1 st2 st3 evs1 evs2 :
  emits st1 st2 evs1 → emits st2 st3 evs2 → emits st1 st3 (evs1 ++ evs2).
Proof. intros [S1 E1] [S2 E2]. split; [congruence|]. by rewrite E2, E1, app_assoc. Qed.


Lemma emits_call st st' e evs :
  emits (mkTP (store st) (trace st ++ [e]) (ticks st)) st' evs → emits st st' (e :: evs).
Proof. intros He. by apply (emits_trans st _ st' [e]) in He. Qed.

Lemma prepare_each_spec ps acc st st' r :
  prepare_each respond ps acc st = (st', r) →
  ∃ votes done evs, r = Ok (acc ++ votes, done) ∧ emits st st' evs ∧
    forallb vote votes = done ∧ Forall (λ e, ev_op e = OpPrepare) evs ∧
    if done : bool then evs = (λ p, mkEvent OpPrepare p (Ok ())) <$> ps
    else ∃ p e, mkEvent OpPrepare p (Err e) ∈ evs.
Proof.
  revert acc st. induction ps as [|p ps IH]; intros acc st; simpl.
  { intros [= <- <-]. exists [], true, []. rewrite app_nil_r. auto using emits_nil. }
  unfold bindM, call. destruct (respond (trace st) OpPrepare p) as [[]|e] eqn:Er.
  - intros (votes & dn & evs & -> & He & Hv & Hf & Hd)%IH.
    exists (mkVote (id p) true None :: votes), dn, (mkEvent OpPrepare p (Ok ()) :: evs).
    split_and!; [by rewrite <- app_assoc| |done|by constructor|].
    + by apply emits_call.
    + destruct dn; [by rewrite Hd|]. set_solver.
  - intros [= <- <-]. eexists [_], false, [_]. split_and!; [done|by split|done|by repeat constructor|set_solver].
Qed.

Lemma rollback_each_spec ps acc st st' r :
  rollback_each respond ps acc st = (st', r) →
  ∃ errs evs, r = Ok (acc ++ errs) ∧ emits st st' evs ∧ Forall (λ e, ev_op e = OpRollback) evs ∧
    ev_participant <$> evs = ps ∧ (errs = [] ↔ forallb ok_event evs = true).
Proof.
  revert acc st. induction ps as [|p ps IH]; intros acc st; simpl.
  { intros [= <- <-]. exists [], []. rewrite app_nil_r.
    split_and!; [done|apply emits_nil|done|done|done]. }
  unfold bindM, call. destruct (respond (trace st) OpRollback p) as [[]|e] eqn:Er.
  - intros (errs & evs & -> & He & Hf & <- & Hiff)%IH.
    exists errs, (mkEvent OpRollback p (Ok ()) :: evs).
    split_and!; [done| |by constructor|done|done]. by apply emits_call.
  - intros (errs & evs & -> & He & Hf & <- & Hiff)%IH.
    exists ((id p ++ lit ": " ++ e) :: errs), (mkEvent OpRollback p (Err e) :: evs).
    split_and!; [by rewrite <- app_assoc| |by constructor|done|done].
    by apply emits_call.
Qed.

Lemma commit_round_spec (last : bool) pending acc next st st' r :
  commit_round respond last pending acc next st = (st', r) →
  ∃ evs, emits st st' evs ∧ Forall (λ e, ev_op e = OpCommit) evs ∧ ev_participant <$> evs = pending ∧
    r = Ok (if last then (acc ++ (result_of <$> evs), next)
            else (acc ++ (result_of <$> filter (λ e, ok_event e = true) evs),
                  next ++ (ev_participant <$> filter (λ e, ok_event e = false) evs))).
Proof.
  revert acc next st. induction pending as [|p ps IH]; intros acc next st; simpl.
  { intros [= <- <-]. exists []. split_and!; [apply emits_nil|done|done|].
    destruct last; by rewrite ?app_nil_r. }
  unfold bindM, call. destruct (respond (trace st) OpCommit p) as [[]|x] eqn:Er; [|destruct last].
  - intros (evs & He & Hf & <- & ->)%IH. exists (mkEvent OpCommit p (Ok ()) :: evs).
    split_and!; [by apply emits_call|by constructor|done|].
    destruct last; simpl; by rewrite <- app_assoc.
  - intros (evs & He & Hf & <- & ->)%IH. exists (mkEvent OpCommit p (Err x) :: evs).
    split_and!; [by apply emits_call|by constructor|done|].
    simpl; by rewrite <- app_assoc.
  - intros (evs & He & Hf & <- & ->)%IH. exists (mkEvent OpCommit p (Err x) :: evs).
    split_and!; [by apply emits_call|by constructor|done|].
    simpl; by rewrite <- app_assoc.
Qed.

(** What retrying amounts to for one participant: failures, then an answer
    that is a success unless all [n] attempts were used up. *)
Definition retried (n : nat) (l : list (result unit str)) (final : result unit str) : Prop :=
  ∃ errs, l = errs ++ [final] ∧ Forall (λ r, is_ok r = false) errs ∧
          length l ≤ n ∧ (is_ok final = true ∨ length l = n).

Lemma oks_errs evs : oks evs ++ errs_of evs ≡ₚ evs.
Proof.
  induction evs as [|e evs IH]; [done|]. rewrite !filter_cons.
  destruct (ok_event e); simpl; [by rewrite IH|].
  by rewrite <- Permutation_middle, IH.
Qed.

Lemma result_of_committed e : committed (result_of e) = ok_event e.
Proof. unfold result_of, ok_event. by destruct (ev_result e). Qed.

Lemma result_of_id e : c_participant_id (result_of e) = id (ev_participant e).
Proof. unfold result_of. by destruct (ev_result e). Qed.

Lemma result_ids evs : c_participant_id <$> (result_of <$> evs) = id <$> (ev_participant <$> evs).
Proof.
  rewrite <- !list_fmap_compose. apply list_fmap_ext. intros i e _. apply result_of_id.
Qed.

Lemma committed_results evs :
  filter (λ r, committed r = true) (result_of <$> evs) = result_of <$> oks evs.
Proof.
  induction evs as [|e evs IH]; [done|].
  rewrite fmap_cons, !filter_cons, result_of_committed. destruct (ok_event e); csimpl; by rewrite IH.
Qed.

Lemma answers_app p evs1 evs2 : answers p (evs1 ++ evs2) = answers p evs1 ++ answers p evs2.
Proof. unfold answers. by rewrite filter_app, fmap_app. Qed.

Lemma answers_none p evs : p ∉ ev_participant <$> evs → answers p evs = [].
Proof.
  unfold answers. induction evs as [|e evs IH]; [done|].
  rewrite fmap_cons, not_elem_of_cons. intros [Hne Hni].
  rewrite filter_cons_False by congruence. by apply IH.
Qed.

(** In a pass over distinct participants each answers once. *)
Lemma answers_once p evs :
  NoDup (ev_participant <$> evs) → p ∈ ev_participant <$> evs →
  ∃ e, e ∈ evs ∧ ev_participant e = p ∧ answers p evs = [ev_result e].
Proof.
  induction evs as [|e evs IH]; [set_solver|]. rewrite fmap_cons, NoDup_cons. intros [Hni Hnd] Hin.
  destruct (decide (ev_participant e = p)) as [<-|Hne].
  - exists e. split_and!; [set_solver|done|]. unfold answers. rewrite filter_cons_True by done.
    rewrite fmap_cons. f_equal. by apply answers_none.
  - destruct IH as (e' & ? & ? & Ha); [done|set_solver|]. exists e'. split_and!; [set_solver|done|].
    unfold answers. rewrite filter_cons_False by done. apply Ha.
Qed.

Definition commit_spec (n : nat) (pending : list ParticipantInfo)
    (new : list ParticipantCommitResult) (evs : list event) : Prop :=
  c_participant_id <$> new ≡ₚ id <$> pending ∧
  length (filter (λ r, committed r = true) new) = length (oks evs) ∧
  length pending ≤ length evs ∧ length evs ≤ n * length pending ∧
  Forall (λ e, ev_op e = OpCommit) evs ∧
  (∀ p, p ∉ pending → answers p evs = []) ∧
  (NoDup pending → ∀ p, p ∈ pending →
     ∃ final, retried n (answers p evs) final ∧ result_of (mkEvent OpCommit p final) ∈ new).

Lemma commit_spec_nil n : commit_spec n [] [] [].
Proof. split_and!; try done; simpl; try lia. intros _ p. by rewrite elem_of_nil. Qed.

Lemma commit_spec_last evs :
  Forall (λ e, ev_op e = OpCommit) evs → commit_spec 1 (ev_participant <$> evs) (result_of <$> evs) evs.
Proof.
  intros Hf. split_and!; try done.
  - by rewrite result_ids.
  - by rewrite committed_results, length_fmap.
  - by rewrite length_fmap.
  - rewrite length_fmap. lia.
  - intros p. apply answers_none.
  - intros Hnd p Hp. destruct (answers_once p evs Hnd Hp) as (e & He & Hpe & Ha).
    exists (ev_result e). split.
    + exists []. rewrite Ha. split_and!; [done|done|done|by right].
    + apply list_elem_of_fmap. exists e. split; [|done]. unfold result_of. by rewrite <- Hpe.
Qed.

Lemma elem_of_retry p evs :
  p ∈ ev_participant <$> errs_of evs ↔ ∃ e, e ∈ evs ∧ ev_participant e = p ∧ ok_event e = false.
Proof. rewrite list_elem_of_fmap. setoid_rewrite list_elem_of_filter. naive_solver. Qed.

Lemma commit_spec_round n evs new2 evs2 :
  Forall (λ e, ev_op e = OpCommit) evs →
  commit_spec n (ev_participant <$> errs_of evs) new2 evs2 →
  commit_spec (Datatypes.S n) (ev_participant <$> evs) ((result_of <$> oks evs) ++ new2) (evs ++ evs2).
Proof.
  intros Hf (Hids & Hcnt & Hlo & Hhi & Hf2 & Hno & Hret).
  pose proof (Permutation_length (oks_errs evs)) as Hlen.
  rewrite length_app in Hlen. rewrite length_fmap in Hlo, Hhi.
  split_and!.
  - rewrite fmap_app, Hids. rewrite <- (oks_errs evs) at 3. rewrite !fmap_app.
    apply Permutation_app; [|done]. by rewrite result_ids.
  - rewrite !filter_app, !length_app, Hcnt. f_equal. rewrite committed_results, length_fmap.
    by rewrite list_filter_filter_l.
  - rewrite length_fmap, length_app. lia.
  - rewrite length_fmap, length_app. nia.
  - by apply Forall_app.
  - intros p Hp. rewrite answers_app, (answers_none p evs) by done. apply Hno.
    intros (e & He & <- & _)%elem_of_retry. apply Hp, list_elem_of_fmap. eauto.
  - intros Hnd p Hp. destruct (answers_once p evs Hnd Hp) as (e & He & Hpe & Ha).
    rewrite answers_app, Ha. destruct (ok_event e) eqn:Hok.
    + rewrite Hno. 2:{ intros (e' & He' & Hpe' & Hok')%elem_of_retry.
        assert (e' = e) as ->; [|congruence].
        apply list_elem_of_lookup in He as [i Hi], He' as [j Hj].
        assert (i = j) as ->; [|congruence].
        eapply NoDup_lookup; [exact Hnd|by rewrite list_lookup_fmap, Hi|].
        rewrite list_lookup_fmap, Hj. simpl. congruence. }
      exists (ev_result e). split.
      * exists []. split_and!; [done|done|simpl; lia|by left].
      * apply elem_of_app. left. apply list_elem_of_fmap. exists e. split.
        { unfold result_of. by rewrite <- Hpe. }
        by apply list_elem_of_filter.
    + destruct (Hret) with (p := p) as (final & (errs & -> & Herrs & Hl & Hor) & Hin).
      { eapply sublist_NoDup; [exact Hnd|]. apply sublist_fmap, sublist_filter. }
      { apply elem_of_retry. eauto. }
      exists final. split; [|by apply elem_of_app; right].
      exists (ev_result e :: errs). rewrite !length_app in *. simpl in *.
      split_and!; [done|by constructor|lia|destruct Hor; [by left|right; lia]].
Qed.

Lemma commit_attempts_spec retries pending acc st st' r :
  commit_attempts respond retries pending acc st = (st', r) →
  ∃ new evs, r = Ok (acc ++ new) ∧ emits st st' evs ∧ commit_spec (Datatypes.S retries) pending new evs.
Proof.
  revert pending acc st. induction retries as [|n IH]; intros pending acc st; simpl.
  - unfold bindM. destruct (commit_round respond true pending acc [] st) as [st1 r1] eqn:E1.
    apply commit_round_spec in E1 as (evs & He & Hf & <- & ->).
    intros [= <- <-]. exists (result_of <$> evs), evs. auto using commit_spec_last.
  - unfold bindM. destruct (commit_round respond false pending acc [] st) as [st1 r1] eqn:E1.
    apply commit_round_spec in E1 as (evs & He & Hf & <- & ->). simpl.
    destruct (ev_participant <$> errs_of evs) as [|q qs] eqn:Eq.
    + intros [= <- <-]. exists (result_of <$> oks evs), evs. split_and!; [done|done|].
      pose proof (commit_spec_round (Datatypes.S n) evs [] [] Hf) as Hs.
      rewrite Eq, !app_nil_r in Hs. apply Hs, commit_spec_nil.
    + intros (new & evs2 & -> & He2 & Hs)%IH. rewrite <- Eq in Hs.
      exists ((result_of <$> oks evs) ++ new), (evs ++ evs2).
      split_and!; [by rewrite app_assoc|by eapply emits_trans|by apply commit_spec_round].
Qed.
End phases.

(** ** What a run of the coordinator calls, for every backend *)
Section traces.
Context {S blob : Type} `{StateBackend S blob} `{Serde blob StateEntry} `{Serde blob TransactionLog}.
Context (respond : list event → op → ParticipantInfo → result unit str) (now : nat → str).
Implicit Types (evs : list event) (ps : list ParticipantInfo).

(** The calls [m] makes and its result satisfy [P]. *)
Definition traces {A} (m : M (TP (S := S)) A) (P : list event → result A str → Prop) : Prop :=
  ∀ st st' r, m st = (st', r) → ∃ evs, trace st' = trace st ++ evs ∧ P evs r.

Definition silent {A} (evs : list event) (r : result A str) : Prop := evs = [].

Lemma traces_weaken {A} (m : M TP A) (P Q : list event → result A str → Prop) :
  traces m P → (∀ evs r, P evs r → Q evs r) → traces m Q.
Proof. intros Hm HPQ st st' r E. destruct (Hm _ _ _ E) as (evs & ? & ?). eauto. Qed.

Lemma traces_bind {A B} (m : M TP A) (k : A → M TP B) (P : list event → result A str → Prop)
    (Q : list event → A → list event → result B str → Prop) (R : list event → result B str → Prop) :
  traces m P →
  (∀ a evs, P evs (Ok a) → traces (k a) (Q evs a)) →
  (∀ evs e, P evs (Err e) → R evs (Err e)) →
  (∀ evs a evs' r, P evs (Ok a) → Q evs a evs' r → R (evs ++ evs') r) →
  traces (bindM m k) R.
Proof.
  intros Hm Hk Herr Hok st st' r. unfold bindM. destruct (m st) as [st1 [a|e]] eqn:E1.
  - destruct (Hm _ _ _ E1) as (evs & Ht & HP). intros E2.
    destruct (Hk a evs HP _ _ _ E2) as (evs' & Ht' & HQ). exists (evs ++ evs').
    split; [by rewrite Ht', Ht, app_assoc|]. by eapply Hok.
  - intros [= <- <-]. destruct (Hm _ _ _ E1) as (evs & Ht & HP). eauto.
Qed.

(** A silent first part leaves the postcondition to the rest. *)
Lemma traces_bind_silent {A B} (m : M TP A) (k : A → M TP B) (R : list event → result B str → Prop) :
  traces m silent → (∀ e, R [] (Err e)) → (∀ a, traces (k a) R) → traces (bindM m k) R.
Proof.
  intros Hm Herr Hk. eapply (traces_bind _ _ _ (λ _ _, R)); [done|auto|..].
  - by intros evs e ->.
  - by intros evs a evs' r ->.
Qed.

Lemma traces_pure {A} (a : result A str) (m : M TP A) (R : list event → result A str → Prop) :
  (∀ st, m st = (st, a)) → R [] a → traces m R.
Proof. intros Hm HR st st' r. rewrite Hm. intros [= <- <-]. exists []. by rewrite app_nil_r. Qed.

Lemma traces_on_store {A} (m : M S A) : traces (on_store m) silent.
Proof.
  intros st st' r. unfold on_store. destruct (m (store st)) as [s r']. intros [= <- <-].
  exists []. by rewrite app_nil_r.
Qed.

Lemma traces_clock : traces (read_clock now) silent.
Proof. intros st st' r [= <- <-]. exists []. by rewrite app_nil_r. Qed.

Lemma traces_attempt {A} (m : M TP A) (P : list event → Prop) :
  traces m (λ evs _, P evs) → traces (attempt m) (λ evs r, P evs ∧ is_ok r = true).
Proof.
  intros Hm st st' r. unfold attempt. destruct (m st) as [s r'] eqn:E. intros [= <- <-].
  destruct (Hm _ _ _ E) as (evs & ? & ?). eauto.
Qed.

Lemma traces_save_log log : traces (save_log log) silent.
Proof.
  unfold save_log. apply traces_bind_silent; [|done|].
  - by apply (traces_pure (to_vec log)).
  - intros. apply traces_on_store.
Qed.

Lemma traces_load_log tx : traces (load_log tx) silent.
Proof.
  unfold load_log. apply traces_bind_silent; [apply traces_on_store|done|].
  intros [data|]; [|by apply (traces_pure (Ok None))].
  apply traces_bind_silent; [by apply (traces_pure (from_slice data))|done|].
  intros a. by apply (traces_pure (Ok (Some a))).
Qed.

Lemma traces_update_status tx s :
  traces (update_status now tx s)
    (λ evs r, evs = [] ∧ ∀ log, r = Ok log → status log = status_as_str s).
Proof.
  unfold update_status. apply traces_bind_silent; [apply traces_load_log|done|].
  intros [log|]; [|by eapply traces_pure].
  apply traces_bind_silent; [apply traces_clock|done|]. intros updated.
  apply traces_bind_silent; [apply traces_save_log|done|]. intros _.
  eapply traces_pure; [done|]. split; [done|]. by intros log' [= <-].
Qed.

Lemma traces_update_silent tx s : traces (update_status now tx s) silent.
Proof. eapply traces_weaken; [apply traces_update_status|]. by intros evs r [-> _]. Qed.

Definition prepares ps : list event := (λ p, mkEvent OpPrepare p (Ok ())) <$> ps.

Lemma traces_prepare_phase tx ps :
  traces (prepare_phase respond now tx ps)
    (λ evs r, Forall (λ e, ev_op e = OpPrepare) evs ∧
              ∀ votes, r = Ok votes → forallb vote votes = true → evs = prepares ps).
Proof.
  unfold prepare_phase. apply traces_bind_silent; [apply traces_update_silent|done|]. intros _.
  eapply (traces_bind _ _
    (λ evs r, Forall (λ e, ev_op e = OpPrepare) evs ∧
       ∃ votes dn, r = Ok (votes, dn) ∧ forallb vote votes = dn ∧ (dn = true → evs = prepares ps))
    (λ _ a evs' r, evs' = [] ∧ ∀ v, r = Ok v → v = a.1)).
  - intros st st' r E. apply prepare_each_spec in E as (votes & dn & evs & -> & [_ Ht] & Hv & Hf & Hd).
    exists evs. split_and!; [done|done|]. exists votes, dn. split_and!; [done|done|]. by intros ->.
  - intros [votes dn] evs _. simpl. destruct dn.
    + apply traces_bind_silent; [apply traces_update_silent|done|]. intros _.
      eapply traces_pure; [done|]. split; [done|]. by intros v [= <-].
    + eapply traces_pure; [done|]. split; [done|]. by intros v [= <-].
  - intros evs e [_ (votes & dn & ? & _)]. done.
  - intros evs a evs' r [Hf (votes & dn & [= ->] & Hdn & Hp)] [-> Hr]. rewrite app_nil_r.
    split; [done|]. intros v Hv Hall. apply Hr in Hv as ->. simpl in Hall. apply Hp. congruence.
Qed.

Lemma traces_rollback_phase ps :
  traces (rollback_phase respond ps)
    (λ evs r, Forall (λ e, ev_op e = OpRollback) evs ∧ ev_participant <$> evs = ps ∧
              is_ok r = forallb ok_event evs).
Proof.
  intros st st' r. unfold rollback_phase, bindM.
  destruct (rollback_each respond ps [] st) as [st1 r1] eqn:E1.
  apply rollback_each_spec in E1 as (errs & evs & -> & [_ Ht] & Hf & <- & Hiff). simpl.
  unfold ret, fail. intros E. exists evs. destruct errs; simplify_eq; split_and!; try done.
  - by rewrite (proj1 Hiff eq_refl).
  - destruct (forallb ok_event evs); [by specialize (proj2 Hiff eq_refl)|done].
Qed.

Lemma traces_commit_phase ps :
  traces (commit_phase respond ps 2) (λ evs r, ∃ results, r = Ok results ∧ commit_spec 3 ps results evs).
Proof.
  intros st st' r E. apply commit_attempts_spec in E as (new & evs & -> & [_ Ht] & Hs). eauto 10.
Qed.

(** A vote of no is never followed by a commit, a commit never precedes a
    complete vote. *)
Definition exec_post ps evs (r : result TransactionLog str) : Prop :=
  (Forall (λ e, ev_op e ≠ OpCommit) evs ∧ is_ok r = false) ∨
  (∃ tail, evs = prepares ps ++ tail ∧ Forall (λ e, ev_op e ≠ OpPrepare) tail ∧
     ∀ log, r = Ok log →
       status log = status_as_str Committed ∧ Forall (λ e, ev_op e = OpCommit) tail ∧
       length (oks tail) = length ps).

Lemma all_committed_spec ps results evs :
  commit_spec 3 ps results evs → all_committed ps results = true → length (oks evs) = length ps.
Proof.
  intros (Hids & Hcnt & _). unfold all_committed.
  apply Permutation_length in Hids. rewrite !length_fmap in Hids.
  intros [->%bool_decide_eq_true|[_ Hall]%andb_true_iff]%orb_true_iff; simpl in *.
  - destruct results; [|done]. by rewrite <- Hcnt.
  - rewrite <- Hcnt, <- Hids. f_equal. clear -Hall.
    induction results as [|r l IH]; [done|]. simpl in Hall. apply andb_true_iff in Hall as [Hr Hl].
    rewrite filter_cons_True by done. by rewrite IH.
Qed.

(** After a unanimous vote: commits, and on failure rollbacks. *)
Definition decided_post ps evs (r : result TransactionLog str) : Prop :=
  Forall (λ e, ev_op e ≠ OpPrepare) evs ∧
  ∀ log, r = Ok log →
    status log = status_as_str Committed ∧ Forall (λ e, ev_op e = OpCommit) evs ∧
    length (oks evs) = length ps.

Lemma Forall_op o o' evs : o ≠ o' → Forall (λ e, ev_op e = o) evs → Forall (λ e, ev_op e ≠ o') evs.
Proof. intros Hne Hf. eapply Forall_impl; [exact Hf|]. simpl. congruence. Qed.

Lemma traces_commit_branch tx ps results evs0 :
  commit_spec 3 ps results evs0 →
  traces (if all_committed ps results then
            let! log := update_status now tx Committed in
            let! _ := attempt (on_store (transition (sm_key tx) Completed)) in ret log
          else
            let! _ := update_status now tx TxRollingBack in
            let! _ := attempt (rollback_phase respond ps) in
            let! log := update_status now tx (failure_status results) in
            let! _ := attempt (on_store (transition (sm_key tx) Failed)) in
            fail (lit "Commit phase failed: " ++ join (lit "; ") (commit_failures results) ++
                  lit ". Status: " ++ status log))
    (λ evs r, decided_post ps (evs0 ++ evs) r).
Proof.
  intros Hs. pose proof (all_committed_spec ps results evs0 Hs) as Hall.
  destruct Hs as (_ & _ & _ & _ & Hf & _).
  assert (Forall (λ e, ev_op e ≠ OpPrepare) evs0) as Hnp by by apply (Forall_op OpCommit).
  assert (∀ e, decided_post ps (evs0 ++ []) (Err e)) as Herr by (intros e; by rewrite app_nil_r).
  destruct (all_committed ps results).
  - eapply (traces_bind _ _ _ (λ _ log evs r, evs = [] ∧ ∀ l, r = Ok l → l = log)); [apply traces_update_status|..].
    + intros log _ _. apply (traces_bind_silent (attempt _)).
      * eapply traces_weaken; [apply (traces_attempt _ (λ evs, evs = []))|by intros ?? [-> _]].
        apply traces_on_store.
      * done.
      * intros _. eapply traces_pure; [done|]. split; [done|]. by intros l [= <-].
    + intros evs e [-> _]. apply Herr.
    + intros evs log evs' r [-> Hst] [-> Hr]. rewrite app_nil_r. split; [done|].
      intros l Hl. apply Hr in Hl as ->. by auto.
  - apply traces_bind_silent; [apply traces_update_silent|apply Herr|]. intros _.
    eapply (traces_bind _ _ _ (λ _ _ evs r, evs = [] ∧ is_ok r = false)).
    + apply (traces_attempt _ (λ evs, Forall (λ e, ev_op e = OpRollback) evs)).
      eapply traces_weaken; [apply traces_rollback_phase|]. by intros evs r [? _].
    + intros _ _ _. apply traces_bind_silent; [apply traces_update_silent|done|]. intros log.
      apply (traces_bind_silent (attempt _)); [|done|intros _; by eapply traces_pure].
      eapply traces_weaken; [apply (traces_attempt _ (λ evs, evs = []))|by intros ?? [-> _]].
      apply traces_on_store.
    + by intros evs e [_ ?].
    + intros evs a evs' r [Hr _] [-> Hf']. rewrite app_nil_r. split; [|by intros log ->].
      apply Forall_app. split; [done|by apply (Forall_op OpRollback)].
Qed.

Lemma traces_abort_branch tx ps votes :
  traces (let! _ := update_status now tx TxRollingBack in
          let! _ := attempt (rollback_phase respond ps) in
          let! log := update_status now tx RolledBack in
          let! _ := attempt (on_store (transition (sm_key tx) Failed)) in
          fail (lit "Prepare phase failed: participants did not agree. Rejections: [" ++
                join (lit ", ") (rejections votes) ++ lit "]. Status: " ++ status log))
    (λ evs (r : result TransactionLog str), Forall (λ e, ev_op e = OpRollback) evs ∧ is_ok r = false).
Proof.
  apply traces_bind_silent; [apply traces_update_silent|done|]. intros _.
  eapply (traces_bind _ _ _ (λ _ _ evs r, evs = [] ∧ is_ok r = false)).
  - apply (traces_attempt _ (λ evs, Forall (λ e, ev_op e = OpRollback) evs)).
    eapply traces_weaken; [apply traces_rollback_phase|]. by intros evs r [? _].
  - intros _ _ _. apply traces_bind_silent; [apply traces_update_silent|done|]. intros log.
    apply (traces_bind_silent (attempt _)); [|done|intros _; by eapply traces_pure].
    eapply traces_weaken; [apply (traces_attempt _ (λ evs, evs = []))|by intros ?? [-> _]].
    apply traces_on_store.
  - by intros evs e [_ ?].
  - intros evs a evs' r [Hr _] [-> Hf']. by rewrite app_nil_r.
Qed.

Lemma traces_execute tx ps meta : traces (execute respond now tx ps meta) (exec_post ps).
Proof.
  assert (∀ e, exec_post ps [] (Err e)) as Herr by (intros e; by left).
  unfold execute. apply traces_bind_silent; [|done|].
  { unfold log_new. apply traces_bind_silent; [apply traces_clock|done|]. intros created.
    apply traces_bind_silent; [apply traces_clock|done|]. intros. by eapply traces_pure. }
  intros log. apply traces_bind_silent; [apply traces_save_log|done|]. intros _.
  apply traces_bind_silent; [apply traces_on_store|done|]. intros _.
  eapply (traces_bind _ _ _ (λ evs votes evs' r,
     if forallb vote votes then decided_post ps evs' r
     else Forall (λ e, ev_op e = OpRollback) evs' ∧ is_ok r = false)).
  - apply traces_prepare_phase.
  - intros votes evs _. destruct (forallb vote votes); [|apply traces_abort_branch].
    apply traces_bind_silent; [apply traces_update_silent|done|]. intros _.
    eapply (traces_bind _ _ _ (λ evs _ evs' r, decided_post ps (evs ++ evs') r)).
    + apply traces_commit_phase.
    + intros results evs1 (rs & [= <-] & Hs). by apply traces_commit_branch.
    + by intros evs1 e (rs & ? & _).
    + done.
  - intros evs e [Hf _]. left. split; [by apply (Forall_op OpPrepare)|done].
  - intros evs votes evs' r [Hf Hv]. specialize (Hv votes eq_refl).
    destruct (forallb vote votes).
    + intros [Hnp Hok]. right. exists evs'. split_and!; [by rewrite Hv|done|done].
    + intros [Hr Hno]. left. split; [|done]. apply Forall_app.
      split; [by apply (Forall_op OpPrepare)|by apply (Forall_op OpRollback)].
Qed.
End traces.

(** ** Theorems *)
Section theorems.
Context {S blob : Type} `{StateBackend S blob} `{Serde blob StateEntry} `{Serde blob TransactionLog}.
Context (respond : list event → op → ParticipantInfo → result unit str) (now : nat → str).

(** C3: On any backend, failing ones included, `execute` sends a commit to a participant only after
    every participant was asked to prepare, in order, and answered Ok; no prepare is sent after
    that. *)
Theorem no_commit_without_unanimous_vote tx ps meta st st' r :
  execute (S := S) respond now tx ps meta st = (st', r) →
  ∃ evs, trace st' = trace st ++ evs ∧
    (Forall (λ e, ev_op e ≠ OpCommit) evs ∨
     ∃ tail, evs = prepares ps ++ tail ∧ Forall (λ e, ev_op e ≠ OpPrepare) tail).
Proof.
  intros E. destruct (traces_execute respond now tx ps meta st st' r E)
    as (evs & Ht & [[? _]|(tail & ? & ? & _)]); eauto 10.
Qed.

(** When `execute` returns Ok, the log it returns says committed, the calls it made are one
    successful prepare per participant followed by commits only, and exactly as many commits
    succeeded as there are participants. *)
Theorem success_means_every_participant_committed tx ps meta st st' log :
  execute (S := S) respond now tx ps meta st = (st', Ok log) →
  status log = status_as_str Committed ∧
  ∃ commits, trace st' = trace st ++ prepares ps ++ commits ∧
    Forall (λ e, ev_op e = OpCommit) commits ∧ length (oks commits) = length ps.
Proof.
  intros E. destruct (traces_execute respond now tx ps meta st st' _ E)
    as (evs & Ht & [[_ ?]|(tail & -> & _ & Hok)]); [done|].
  destruct (Hok log eq_refl) as (? & ? & ?). eauto 10.
Qed.

(** The commit phase leaves the store alone, makes at most three calls per participant and
    reports each participant once; when the participants are distinct, each is retried until it
    answers Ok or has failed three times, and the reported result is its last answer. *)
Theorem commit_phase_retries ps st :
  ∃ results evs st', commit_phase (S := S) respond ps 2 st = (st', Ok results) ∧
    store st' = store st ∧ trace st' = trace st ++ evs ∧
    c_participant_id <$> results ≡ₚ id <$> ps ∧ length evs ≤ 3 * length ps ∧
    (NoDup ps → ∀ p, p ∈ ps →
       ∃ final, retried 3 (answers p evs) final ∧ result_of (mkEvent OpCommit p final) ∈ results).
Proof.
  destruct (commit_phase respond ps 2 st) as [st' r] eqn:E.
  apply commit_attempts_spec in E as (results & evs & -> & [Hs Ht] & (Hids & _ & _ & Hhi & _ & _ & Hret)).
  exists results, evs, st'. by split_and!.
Qed.
End theorems.

(** ** The verdict the calls of a run entail *)
Definition rejected (evs : list event) : bool :=
  existsb (λ e, bool_decide (ev_op e = OpPrepare) && negb (ok_event e)) evs.
Definition commits_ok (evs : list event) : nat :=
  length (filter (λ e, ev_op e = OpCommit ∧ ok_event e = true) evs).
Definition verdict (ps : list ParticipantInfo) (evs : list event) : TransactionStatus :=
  if rejected evs then RolledBack
  else if decide (commits_ok evs = length ps) then Committed
  else if decide (commits_ok evs = 0) then RolledBack else Mixed.

Section verdict.
Implicit Types (evs : list event).

Lemma rejected_app evs1 evs2 : rejected (evs1 ++ evs2) = rejected evs1 || rejected evs2.
Proof. apply existsb_app. Qed.
Lemma commits_ok_app evs1 evs2 : commits_ok (evs1 ++ evs2) = commits_ok evs1 + commits_ok evs2.
Proof. unfold commits_ok. by rewrite filter_app, length_app. Qed.

Lemma rejected_other o evs : o ≠ OpPrepare → Forall (λ e, ev_op e = o) evs → rejected evs = false.
Proof.
  intros Ho. induction 1 as [|e evs He _ IH]; [done|]. unfold rejected in *. simpl.
  rewrite bool_decide_eq_false_2 by congruence. exact IH.
Qed.
Lemma commits_ok_other o evs : o ≠ OpCommit → Forall (λ e, ev_op e = o) evs → commits_ok evs = 0.
Proof.
  intros Ho. induction 1 as [|e evs He _ IH]; [done|]. unfold commits_ok in *.
  rewrite filter_cons_False; [done|]. intros [? _]. congruence.
Qed.
Lemma rejected_prepare evs :
  Forall (λ e, ev_op e = OpPrepare) evs → rejected evs = negb (forallb ok_event evs).
Proof.
  induction 1 as [|e evs He _ IH]; [done|]. unfold rejected in *. simpl.
  rewrite bool_decide_eq_true_2 by done. simpl. rewrite IH. by destruct (ok_event e).
Qed.
Lemma commits_ok_commit evs :
  Forall (λ e, ev_op e = OpCommit) evs → commits_ok evs = length (oks evs).
Proof.
  induction 1 as [|e evs He _ IH]; [done|]. unfold commits_ok in *.
  destruct (ok_event e) eqn:Ho.
  - rewrite !filter_cons_True by done. simpl. by rewrite IH.
  - rewrite !filter_cons_False by (rewrite Ho; intuition congruence). exact IH.
Qed.

Lemma all_committed_count ps results evs :
  commit_spec 3 ps results evs → all_committed ps results = bool_decide (length (oks evs) = length ps).
Proof.
  intros Hs. destruct (all_committed ps results) eqn:Ha.
  - symmetry. apply bool_decide_eq_true. by eapply all_committed_spec.
  - symmetry. apply bool_decide_eq_false. intros Heq.
    destruct Hs as (Hids & Hcnt & _). apply Permutation_length in Hids. rewrite !length_fmap in Hids.
    unfold all_committed in Ha. apply orb_false_iff in Ha as [Hne%bool_decide_eq_false Ha].
    rewrite bool_decide_eq_false_2 in Ha by (intros ->; by destruct ps). simpl in Ha.
    rewrite <- Heq, <- Hcnt in Hids. clear -Hids Ha.
    induction results as [|r l IH]; [done|]. simpl in *.
    destruct (committed r) eqn:Hr.
    + rewrite filter_cons_True in Hids by done. simpl in *. by apply IH; [lia|].
    + rewrite filter_cons_False in Hids by congruence.
      pose proof (length_filter (λ r, committed r = true) l). simpl in *. lia.
Qed.

Lemma failure_status_count ps results evs :
  commit_spec 3 ps results evs →
  failure_status results = if decide (length (oks evs) = 0) then RolledBack else Mixed.
Proof.
  intros (_ & Hcnt & _). rewrite <- Hcnt. unfold failure_status, has_committed. clear Hcnt.
  induction results as [|r l IH]; [done|]. simpl.
  destruct (committed r) eqn:Hr; simpl.
  - by rewrite filter_cons_True.
  - rewrite filter_cons_False by congruence. done.
Qed.
End verdict.

(** ** What is persisted, on a backend that does not fail *)
Class Reliable (S blob : Type) `{StateBackend S blob} : Prop := {
  save_runs k v s : ∃ s', save k v s = (s', Ok ());
  load_runs k s : ∃ s' o, load k s = (s', Ok o);
}.
Class Serialises (blob A : Type) `{Serde blob A} : Prop := to_vec_runs (a : A) : ∃ b, to_vec a = Ok b.

Section reliable.
Context {S blob : Type} `{StateBackend S blob} {view : S → gmap str blob} `{!BackendLaws S blob view}.
Context `{!Reliable S blob} `{Serde blob StateEntry, !SerdeLaw blob StateEntry, !Serialises blob StateEntry}.
Context `{Serde blob TransactionLog, !SerdeLaw blob TransactionLog, !Serialises blob TransactionLog}.
Context (respond : list event → op → ParticipantInfo → result unit str) (now : nat → str).
Implicit Types (st : TP (S := S)) (ps : list ParticipantInfo) (tx : str).

Definition log_at st tx (log : TransactionLog) : Prop :=
  transaction_id log = tx ∧ ∃ b, view (store st) !! log_key tx = Some b ∧ from_slice b = Ok log.

(** [st'] differs from [st] at most in the log of [tx]. *)
Definition only_log tx st st' : Prop :=
  ∀ k, k ≠ log_key tx → view (store st') !! k = view (store st) !! k.

Lemma save_log_run log st :
  ∃ st', save_log log st = (st', Ok ()) ∧ log_at st' (transaction_id log) log ∧
         trace st' = trace st ∧ only_log (transaction_id log) st st'.
Proof.
  destruct (to_vec_runs log) as [b Hb].
  destruct (save_runs (log_key (transaction_id log)) b (store st)) as [s' Hs].
  exists (mkTP s' (trace st) (ticks st)). unfold save_log, bindM, lift, on_store. rewrite Hb, Hs.
  pose proof (save_ok _ _ _ _ Hs) as Hv. split_and!; [done| |done|].
  - split; [done|]. exists b. simpl. rewrite Hv, lookup_insert_eq. split; [done|by apply from_to_vec].
  - intros k Hk. simpl. by rewrite Hv, lookup_insert_ne.
Qed.

Lemma load_log_run tx log st :
  log_at st tx log →
  ∃ st', load_log tx st = (st', Ok (Some log)) ∧ view (store st') = view (store st) ∧ trace st' = trace st.
Proof.
  intros (_ & b & Hb & Hlog). destruct (load_runs (log_key tx) (store st)) as (s' & o & Hl).
  exists (mkTP s' (trace st) (ticks st)). unfold load_log, bindM, on_store. rewrite Hl.
  pose proof (load_ok _ _ _ _ Hl) as ->. rewrite Hb. unfold lift, ret. rewrite Hlog.
  split_and!; [done| |done]. simpl. by eapply load_view.
Qed.

Lemma update_status_run tx log s st :
  log_at st tx log →
  ∃ st' log', update_status now tx s st = (st', Ok log') ∧ log_at st' tx log' ∧
    status log' = status_as_str s ∧ trace st' = trace st ∧ only_log tx st st'.
Proof.
  intros Hlog. destruct (load_log_run tx log st Hlog) as (st1 & Hl & Hv1 & Ht1).
  set (st2 := mkTP (store st1) (trace st1) (ticks st1 + 1)).
  set (log' := mkLog (transaction_id log) (status_as_str s) (participants log) (created_at log)
                 (now (ticks st1)) (log_metadata log)).
  destruct (save_log_run log' st2) as (st3 & Hs & Hat & Ht & Hk).
  destruct Hlog as [Htx _]. simpl in *. rewrite Htx in *.
  exists st3, log'. split_and!; [|done|done|by rewrite Ht|].
  - unfold update_status. rewrite (bindM_run _ _ _ _ _ Hl).
    rewrite (bindM_run _ _ _ st2 (now (ticks st1))) by done.
    fold log'. by rewrite (bindM_run _ _ _ _ _ Hs).
  - intros k Hne. rewrite Hk by done. simpl. by rewrite Hv1.
Qed.

Lemma only_log_trans tx st1 st2 st3 : only_log tx st1 st2 → only_log tx st2 st3 → only_log tx st1 st3.
Proof. intros H12 H23 k Hk. by rewrite H23, H12. Qed.

Lemma only_log_store tx st st' : store st' = store st → only_log tx st st'.
Proof. by intros E k _; rewrite E. Qed.

Lemma log_at_store tx log st st' : store st' = store st → log_at st tx log → log_at st' tx log.
Proof. unfold log_at. by intros ->. Qed.

(** The state machine entry as [create_state] left it. *)
Definition begun st tx : Prop :=
  ∃ b e, view (store st) !! state_key (sm_key tx) = Some b ∧ from_slice b = Ok e ∧
         current_state e = as_str Created.

Lemma keys_differ tx : state_key (sm_key tx) ≠ log_key tx.
Proof. done. Qed.

Lemma begun_only_log tx st st' : only_log tx st st' → begun st tx → begun st' tx.
Proof.
  intros Hk (b & e & Hb & He & Hc). exists b, e. split_and!; [|done|done].
  rewrite Hk; [done|apply keys_differ].
Qed.

(** From [Created] the machine goes neither to [Completed] nor to [Failed]:
    the transition fails and changes nothing. *)
Lemma transition_refused tx t st :
  begun st tx → is_valid_transition Created t = false →
  ∃ st', attempt (on_store (transition (sm_key tx) t)) st = (st', Ok (Err
           (lit "Invalid transition: " ++ as_str Created ++ lit " -> " ++ as_str t))) ∧
         view (store st') = view (store st) ∧ trace st' = trace st.
Proof.
  intros (b & e & Hb & He & Hc) Ht.
  destruct (load_runs (state_key (sm_key tx)) (store st)) as (s' & o & Hl).
  pose proof (load_ok _ _ _ _ Hl) as ->.
  exists (mkTP s' (trace st) (ticks st)). split_and!; [|simpl; by eapply load_view|done].
  unfold attempt, on_store, transition, transition_with, max_retries. simpl transition_loop.
  assert (attempt_load (sm_key tx) t (store st) = (s', Err
    (lit "Invalid transition: " ++ as_str Created ++ lit " -> " ++ as_str t))) as E.
  { unfold attempt_load. rewrite (bindM_run _ _ _ _ _ Hl), Hb.
    rewrite (bindM_run _ _ _ s' e) by (unfold lift; by rewrite He).
    rewrite Hc. rewrite (proj2 (from_str_as_str Created _) eq_refl), Ht. done. }
  by rewrite (bindM_fail _ _ _ _ _ E).
Qed.

Lemma prepare_phase_run tx ps log st :
  log_at st tx log →
  ∃ st' votes evs log', prepare_phase respond now tx ps st = (st', Ok votes) ∧
    trace st' = trace st ++ evs ∧ log_at st' tx log' ∧ only_log tx st st' ∧
    Forall (λ e, ev_op e = OpPrepare) evs ∧ forallb vote votes = forallb ok_event evs.
Proof.
  intros Hlog. destruct (update_status_run tx log Preparing st Hlog) as (st1 & log1 & E1 & Hl1 & _ & Ht1 & Hk1).
  unfold prepare_phase. rewrite (bindM_run _ _ _ _ _ E1).
  destruct (prepare_each respond ps [] st1) as [st2 r] eqn:E2.
  pose proof E2 as (votes & dn & evs & -> & [Hst Ht2] & Hv & Hf & Hd)%prepare_each_spec.
  rewrite (bindM_run _ _ _ _ _ E2). simpl.
  assert (forallb vote votes = forallb ok_event evs) as Heq.
  { rewrite Hv. destruct dn.
    - symmetry. rewrite Hd. clear. by induction ps.
    - destruct Hd as (p & e & Hin). symmetry. apply not_true_iff_false. rewrite forallb_forall.
      intros Hall. apply list_elem_of_In, Hall in Hin. done. }
  apply (log_at_store _ _ _ st2) in Hl1; [|done].
  assert (only_log tx st st2) as Hk2 by (eapply only_log_trans; [done|by apply only_log_store]).
  destruct dn.
  - destruct (update_status_run tx log1 Prepared st2 Hl1) as (st3 & log3 & E3 & Hl3 & _ & Ht3 & Hk3).
    rewrite (bindM_run _ _ _ _ _ E3). exists st3, votes, evs, log3.
    split_and!; [done|by rewrite Ht3, Ht2, Ht1|done|by eapply only_log_trans|done|done].
  - exists st2, votes, evs, log1. split_and!; [done|by rewrite Ht2, Ht1|done..].
Qed.

Lemma rollback_phase_run ps st :
  ∃ st' r evs, rollback_phase respond ps st = (st', r) ∧ store st' = store st ∧
    trace st' = trace st ++ evs ∧ Forall (λ e, ev_op e = OpRollback) evs ∧
    ev_participant <$> evs = ps ∧ is_ok r = forallb ok_event evs.
Proof.
  destruct (rollback_phase respond ps st) as [st' r] eqn:E. exists st', r.
  destruct (traces_rollback_phase respond ps st st' r E) as (evs & Ht & Hf & Hp & Hr).
  exists evs. split_and!; try done.
  revert E. unfold rollback_phase, bindM. destruct (rollback_each respond ps [] st) as [st1 r1] eqn:E1.
  apply rollback_each_spec in E1 as (errs & evs' & -> & [Hs _] & _). simpl.
  by destruct errs; intros [= <- <-].
Qed.

Lemma create_state_run tx meta st :
  ∃ st' e, on_store (create_state (sm_key tx) meta) st = (st', Ok e) ∧ begun st' tx ∧
    trace st' = trace st ∧ ∀ k, k ≠ state_key (sm_key tx) → view (store st') !! k = view (store st) !! k.
Proof.
  set (e := mkEntry (sm_key tx) (as_str Created) 1 meta).
  destruct (to_vec_runs e) as [b Hb].
  destruct (save_runs (state_key (sm_key tx)) b (store st)) as [s' Hs].
  exists (mkTP s' (trace st) (ticks st)), e. pose proof (save_ok _ _ _ _ Hs) as Hv.
  split_and!; [|exists b, e; split_and!|done|].
  - unfold on_store, create_state, bindM, lift. fold e. by rewrite Hb, Hs.
  - simpl. by rewrite Hv, lookup_insert_eq.
  - by apply from_to_vec.
  - done.
  - intros k Hk. simpl. by rewrite Hv, lookup_insert_ne.
Qed.

(** The last steps of every run: the final status is stored, and the state
    machine refuses to follow. *)
Lemma settle_run tx log s t st :
  log_at st tx log → begun st tx → is_valid_transition Created t = false →
  ∃ st' log', log_at st' tx log' ∧ status log' = status_as_str s ∧ trace st' = trace st ∧ begun st' tx ∧
    ∀ B (k : TransactionLog → M TP B),
      bindM (update_status now tx s)
        (λ log, bindM (attempt (on_store (transition (sm_key tx) t))) (λ _, k log)) st = k log' st'.
Proof.
  intros Hlog Hb Ht. destruct (update_status_run tx log s st Hlog) as (st1 & log1 & E1 & Hl1 & Hs1 & Ht1 & Hk1).
  apply (begun_only_log _ _ _ Hk1) in Hb.
  destruct (transition_refused tx t st1 Hb Ht) as (st2 & E2 & Hv2 & Ht2).
  exists st2, log1. split_and!; [|done|congruence| |].
  - destruct Hl1 as (? & b & ? & ?). split; [done|]. exists b. by rewrite Hv2.
  - destruct Hb as (b & e & ? & ? & ?). exists b, e. by rewrite Hv2.
  - intros B k. by rewrite (bindM_run _ _ _ _ _ E1), (bindM_run _ _ _ _ _ E2).
Qed.

(** The steps before: the intent to roll back is stored, then everyone is
    told to. *)
Lemma undo_run tx ps log st :
  log_at st tx log → begun st tx →
  ∃ st' log' evs, log_at st' tx log' ∧ begun st' tx ∧ trace st' = trace st ++ evs ∧
    Forall (λ e, ev_op e = OpRollback) evs ∧
    ∀ B (k : M TP B),
      bindM (update_status now tx TxRollingBack)
        (λ _, bindM (attempt (rollback_phase respond ps)) (λ _, k)) st = k st'.
Proof.
  intros Hlog Hb.
  destruct (update_status_run tx log TxRollingBack st Hlog) as (st1 & log1 & E1 & Hl1 & _ & Ht1 & Hk1).
  destruct (rollback_phase_run ps st1) as (st2 & r & evs & E2 & Hst & Ht2 & Hf & _).
  exists st2, log1, evs. split_and!; [by eapply log_at_store| |congruence|done|].
  - apply (begun_only_log _ st); [|done]. eapply only_log_trans; [done|by apply only_log_store].
  - intros B k. rewrite (bindM_run _ _ _ _ _ E1). unfold bindM, attempt. by rewrite E2.
Qed.

Lemma commit_phase_run ps st :
  ∃ st' results evs, commit_phase respond ps 2 st = (st', Ok results) ∧ store st' = store st ∧
    trace st' = trace st ++ evs ∧ commit_spec 3 ps results evs.
Proof.
  destruct (commit_phase respond ps 2 st) as [st' r] eqn:E.
  apply commit_attempts_spec in E as (results & evs & -> & [Hs Ht] & Hc). eauto 10.
Qed.

Lemma begin_run tx ps meta st :
  ∃ st' log, log_at st' tx log ∧ begun st' tx ∧ trace st' = trace st ∧
    ∀ B (k : M TP B),
      bindM (log_new now tx ps meta) (λ log, bindM (save_log log) (λ _,
        bindM (on_store (create_state (sm_key tx) (JObject [(lit "phase", JString (lit "begin"))])))
          (λ _, k))) st = k st'.
Proof.
  set (st0 := mkTP (store st) (trace st) (ticks st + 1 + 1)).
  set (log := mkLog tx (status_as_str Preparing) ps (now (ticks st)) (now (ticks st + 1)) meta). destruct (save_log_run log st0) as (st1 & E1 & Hl1 & Ht1 & _).
  set (begin := JObject _).
  destruct (create_state_run tx begin st1) as (st2 & e & E2 & Hb2 & Ht2 & Hk2).
  exists st2, log. split_and!; [|done|by rewrite Ht2, Ht1|].
  - destruct Hl1 as (? & b & ? & ?). split; [done|]. exists b. rewrite Hk2; [done|].
    apply not_eq_sym, keys_differ.
  - intros B k. rewrite (bindM_run _ _ _ st0 log) by done.
    by rewrite (bindM_run _ _ _ _ _ E1), (bindM_run _ _ _ _ _ E2).
Qed.

Lemma verdict_rejected ps evs1 evs2 :
  Forall (λ e, ev_op e = OpPrepare) evs1 → forallb ok_event evs1 = false → verdict ps (evs1 ++ evs2) = RolledBack.
Proof. intros Hf Hno. unfold verdict. by rewrite rejected_app, (rejected_prepare evs1), Hno. Qed.

Lemma verdict_decided ps results evs1 evs2 evs3 :
  Forall (λ e, ev_op e = OpPrepare) evs1 → forallb ok_event evs1 = true →
  commit_spec 3 ps results evs2 → Forall (λ e, ev_op e = OpRollback) evs3 →
  verdict ps (evs1 ++ evs2 ++ evs3) = if all_committed ps results then Committed else failure_status results.
Proof.
  intros Hf1 Hok Hs Hf3. pose proof Hs as (_ & _ & _ & _ & Hf2 & _). unfold verdict.
  rewrite !rejected_app, (rejected_prepare evs1), Hok by done.
  rewrite (rejected_other OpCommit evs2), (rejected_other OpRollback evs3) by done. simpl.
  rewrite !commits_ok_app, (commits_ok_other OpPrepare evs1), (commits_ok_other OpRollback evs3),
    (commits_ok_commit evs2) by done.
  rewrite (all_committed_count _ _ _ Hs), (failure_status_count _ _ _ Hs), Nat.add_0_r. simpl.
  by case_decide; case_bool_decide.
Qed.

Lemma failure_not_committed results : failure_status results ≠ Committed.
Proof. unfold failure_status. by destruct (has_committed results). Qed.

(** C1: On a backend that stores what it is given, for every behaviour of the participants `execute`
    returns, and the status it leaves in the transaction log is the one its calls entail: RolledBack
    after a rejected prepare, Committed when the number of successful commits is the number of
    participants, RolledBack when none succeeded and Mixed otherwise; it returns Ok exactly when
    that status is Committed. The state-machine entry of the transaction is still in `created`
    afterwards. *)
Theorem execute_persists_the_verdict tx ps meta st :
  ∃ st' r evs log, execute respond now tx ps meta st = (st', r) ∧
    trace st' = trace st ++ evs ∧ log_at st' tx log ∧
    status log = status_as_str (verdict ps evs) ∧
    is_ok r = bool_decide (verdict ps evs = Committed) ∧ begun st' tx.
Proof.
  unfold execute. destruct (begin_run tx ps meta st) as (st0 & log0 & Hl0 & Hb0 & Ht0 & E0). rewrite E0.
  destruct (prepare_phase_run tx ps log0 st0 Hl0) as (st1 & votes & evs1 & log1 & E1 & Ht1 & Hl1 & Hk1 & Hf1 & Hv1).
  rewrite (bindM_run _ _ _ _ _ E1), Hv1. apply (begun_only_log _ _ _ Hk1) in Hb0 as Hb1.
  destruct (forallb ok_event evs1) eqn:Hok.
  - destruct (update_status_run tx log1 Committing st1 Hl1) as (st2 & log2 & E2 & Hl2 & _ & Ht2 & Hk2).
    rewrite (bindM_run _ _ _ _ _ E2).
    destruct (commit_phase_run ps st2) as (st3 & results & evs2 & E3 & Hst3 & Ht3 & Hs).
    rewrite (bindM_run _ _ _ _ _ E3). apply (begun_only_log _ _ _ Hk2) in Hb1 as Hb2.
    apply (begun_only_log _ _ st3) in Hb2 as Hb3; [|by apply only_log_store].
    apply (log_at_store _ _ _ st3) in Hl2 as Hl3; [|done].
    pose proof (λ evs3, verdict_decided ps results evs1 evs2 evs3 Hf1 Hok Hs) as Hver.
    destruct (all_committed ps results).
    + destruct (settle_run tx log2 Committed Completed st3 Hl3 Hb3 eq_refl)
        as (st4 & log4 & Hl4 & Hs4 & Ht4 & Hb4 & E4).
      specialize (Hver [] (Forall_nil_2 _)). rewrite app_nil_r in Hver.
      exists st4, (Ok log4), (evs1 ++ evs2), log4. rewrite E4, Hver.
      split_and!; try done. rewrite Ht4, Ht3, Ht2, Ht1, Ht0. by rewrite app_assoc.
    + destruct (undo_run tx ps log2 st3 Hl3 Hb3) as (st4 & log4 & evs3 & Hl4 & Hb4 & Ht4 & Hf3 & E4).
      rewrite E4. specialize (Hver evs3 Hf3).
      destruct (settle_run tx log4 (failure_status results) Failed st4 Hl4 Hb4 eq_refl)
        as (st5 & log5 & Hl5 & Hs5 & Ht5 & Hb5 & E5).
      rewrite E5. eexists st5, _, (evs1 ++ evs2 ++ evs3), log5. rewrite Hver.
      split_and!; try done.
      * rewrite Ht5, Ht4, Ht3, Ht2, Ht1, Ht0. by rewrite !app_assoc.
      * symmetry. apply bool_decide_eq_false, failure_not_committed.
  - destruct (undo_run tx ps log1 st1 Hl1 Hb1) as (st2 & log2 & evs2 & Hl2 & Hb2 & Ht2 & Hf2 & E2).
    rewrite E2. destruct (settle_run tx log2 RolledBack Failed st2 Hl2 Hb2 eq_refl)
      as (st3 & log3 & Hl3 & Hs3 & Ht3 & Hb3 & E3).
    rewrite E3. eexists st3, _, (evs1 ++ evs2), log3. rewrite verdict_rejected by done.
    split_and!; try done. by rewrite Ht3, Ht2, Ht1, Ht0, app_assoc.
Qed.

(** *** Recovery *)
Definition terminal (t : TransactionStatus) : bool :=
  match t with Committed | RolledBack | Mixed => true | _ => false end.

(** Calls, result and stored log of a recovery that found [log]. *)
Definition recovery_outcome ps log evs (r : result TransactionLog str) log' : Prop :=
  match status_from_str (status log) with
  | Preparing | Prepared | TxRollingBack =>
      Forall (λ e, ev_op e = OpRollback) evs ∧ ev_participant <$> evs = ps ∧
      if forallb ok_event evs then r = Ok log' ∧ status log' = status_as_str RolledBack
      else is_ok r = false ∧ log' = log
  | Committing =>
      ∃ commits rollbacks, evs = commits ++ rollbacks ∧ length commits ≤ 3 * length ps ∧
        Forall (λ e, ev_op e = OpCommit) commits ∧ Forall (λ e, ev_op e = OpRollback) rollbacks ∧
        if decide (length (oks commits) = length ps) then
          rollbacks = [] ∧ r = Ok log' ∧ status log' = status_as_str Committed
        else ev_participant <$> rollbacks = ps ∧ is_ok r = false ∧
          if forallb ok_event rollbacks then status log' = status_as_str (verdict ps evs) else log' = log
  | Committed | RolledBack | Mixed => evs = [] ∧ r = Ok log ∧ log' = log
  | Unknown => evs = [] ∧ is_ok r = false ∧ log' = log
  end.

Lemma status_round_trip t : status_from_str (status_as_str t) = t.
Proof. by destruct t. Qed.

(** Rolling back, then storing the final status [s]. *)
Lemma rollback_then_run {B} tx ps log s (k : TransactionLog → M TP B) st :
  log_at st tx log →
  ∃ st' evs log', trace st' = trace st ++ evs ∧ log_at st' tx log' ∧
    Forall (λ e, ev_op e = OpRollback) evs ∧ ev_participant <$> evs = ps ∧
    if forallb ok_event evs then
      bindM (rollback_phase respond ps) (λ _, bindM (update_status now tx s) k) st = k log' st' ∧
      status log' = status_as_str s
    else log' = log ∧
      ∃ e, bindM (rollback_phase respond ps) (λ _, bindM (update_status now tx s) k) st = (st', Err e).
Proof.
  intros Hlog. destruct (rollback_phase_run ps st) as (st1 & r & evs & E1 & Hst & Ht1 & Hf & Hp & Hr).
  apply (log_at_store _ _ _ st1) in Hlog; [|done]. destruct r as [[]|e]; simpl in Hr.
  - destruct (update_status_run tx log s st1 Hlog) as (st2 & log2 & E2 & Hl2 & Hs2 & Ht2 & _).
    exists st2, evs, log2. rewrite <- Hr. split_and!; [congruence|done..| |done].
    by rewrite (bindM_run _ _ _ _ _ E1), (bindM_run _ _ _ _ _ E2).
  - exists st1, evs, log. rewrite <- Hr. split_and!; [done..|]. exists e. by apply bindM_fail.
Qed.

Lemma recover_rollback tx ps log st :
  log_at st tx log →
  ∃ st' r evs log',
    (let! _ := rollback_phase respond ps in update_status now tx RolledBack) st = (st', r) ∧
    trace st' = trace st ++ evs ∧ log_at st' tx log' ∧
    Forall (λ e, ev_op e = OpRollback) evs ∧ ev_participant <$> evs = ps ∧
    if forallb ok_event evs then r = Ok log' ∧ status log' = status_as_str RolledBack
    else is_ok r = false ∧ log' = log.
Proof.
  intros Hlog. destruct (rollback_phase_run ps st) as (st1 & r & evs & E1 & Hst & Ht1 & Hf & Hp & Hr).
  apply (log_at_store _ _ _ st1) in Hlog; [|done]. destruct r as [[]|e]; simpl in Hr.
  - destruct (update_status_run tx log RolledBack st1 Hlog) as (st2 & log2 & E2 & Hl2 & Hs2 & Ht2 & _).
    exists st2, (Ok log2), evs, log2. rewrite <- Hr. split_and!; try done; [|congruence].
    by rewrite (bindM_run _ _ _ _ _ E1).
  - exists st1, (Err e), evs, log. rewrite <- Hr. split_and!; try done. by apply bindM_fail.
Qed.

Lemma recover_commit tx ps log st :
  log_at st tx log →
  ∃ st' r evs log',
    (let! results := commit_phase respond ps 2 in
     if all_committed ps results then update_status now tx Committed
     else
       let! _ := rollback_phase respond ps in
       let! _ := update_status now tx (failure_status results) in
       fail (lit "Recovery failed during commit: " ++ join (lit "; ") (commit_failures results))) st = (st', r) ∧
    trace st' = trace st ++ evs ∧ log_at st' tx log' ∧
    ∃ commits rollbacks, evs = commits ++ rollbacks ∧ length commits ≤ 3 * length ps ∧
      Forall (λ e, ev_op e = OpCommit) commits ∧ Forall (λ e, ev_op e = OpRollback) rollbacks ∧
      if decide (length (oks commits) = length ps) then
        rollbacks = [] ∧ r = Ok log' ∧ status log' = status_as_str Committed
      else ev_participant <$> rollbacks = ps ∧ is_ok r = false ∧
        if forallb ok_event rollbacks then status log' = status_as_str (verdict ps evs) else log' = log.
Proof.
  intros Hlog. destruct (commit_phase_run ps st) as (st1 & results & commits & E1 & Hst1 & Ht1 & Hs).
  rewrite (bindM_run _ _ _ _ _ E1). apply (log_at_store _ _ _ st1) in Hlog; [|done].
  pose proof (λ evs3, verdict_decided ps results [] commits evs3 (Forall_nil_2 _) eq_refl Hs) as Hver.
  pose proof (all_committed_count _ _ _ Hs) as Hall. pose proof Hs as (_ & _ & _ & Hlen & Hf & _).
  destruct (all_committed ps results).
  - destruct (update_status_run tx log Committed st1 Hlog) as (st2 & log2 & E2 & Hl2 & Hs2 & Ht2 & _).
    symmetry in Hall. apply bool_decide_eq_true in Hall.
    exists st2, (Ok log2), commits, log2. split_and!; [done|congruence|done|].
    exists commits, []. rewrite decide_True, app_nil_r by done. split_and!; done.
  - symmetry in Hall. apply bool_decide_eq_false in Hall.
    destruct (rollback_then_run (B := TransactionLog) tx ps log (failure_status results)
      (λ _, fail (lit "Recovery failed during commit: " ++ join (lit "; ") (commit_failures results))) st1 Hlog)
      as (st2 & evs & log2 & Ht2 & Hl2 & Hf2 & Hp2 & Hif). specialize (Hver evs Hf2). simpl in Hver.
    assert (trace st2 = trace st ++ commits ++ evs) as Htr by (by rewrite Ht2, Ht1, app_assoc).
    destruct (forallb ok_event evs) eqn:Hok.
    + destruct Hif as [E2 Hs2]. eexists st2, _, (commits ++ evs), log2. rewrite E2.
      split_and!; [done|done|done|]. exists commits, evs. rewrite decide_False, Hok, Hver by done. by split_and!.
    + destruct Hif as [-> [e E2]]. exists st2, (Err e), (commits ++ evs), log.
      split_and!; [done|done|done|]. exists commits, evs. rewrite decide_False, Hok by done. by split_and!.
Qed.

Lemma recover_found tx ps log st :
  log_at st tx log →
  ∃ st' r evs log', recover respond now tx ps st = (st', r) ∧ trace st' = trace st ++ evs ∧
    log_at st' tx log' ∧ recovery_outcome ps log evs r log'.
Proof.
  intros Hlog. destruct (load_log_run tx log st Hlog) as (st1 & E1 & Hv1 & Ht1).
  assert (log_at st1 tx log) as Hl1.
  { destruct Hlog as (? & b & ? & ?). split; [done|]. exists b. by rewrite Hv1. }
  unfold recover. rewrite (bindM_run _ _ _ _ _ E1). unfold recovery_outcome. rewrite <- Ht1.
  destruct (status_from_str (status log)).
  - by apply recover_rollback.
  - by apply recover_rollback.
  - by apply recover_commit.
  - exists st1, (Ok log), [], log. by rewrite app_nil_r.
  - by apply recover_rollback.
  - exists st1, (Ok log), [], log. by rewrite app_nil_r.
  - exists st1, (Ok log), [], log. by rewrite app_nil_r.
  - eexists st1, (Err _), [], log. by rewrite app_nil_r.
Qed.

Lemma outcome_ok ps log evs log1 log' :
  recovery_outcome ps log evs (Ok log1) log' → log' = log1 ∧ terminal (status_from_str (status log1)) = true.
Proof.
  unfold recovery_outcome.
  assert (∀ s, status log1 = status_as_str s → terminal s = true → terminal (status_from_str (status log1)) = true)
    as Hterm by (intros s -> ?; by rewrite status_round_trip).
  destruct (status_from_str (status log)) eqn:Es;
    try (intros (_ & _ & Hif); destruct (forallb ok_event evs); destruct Hif as [[= ->] ?]; by eauto).
  - intros (c & rb & _ & _ & _ & _ & Hif). case_decide; [destruct Hif as (_ & [= ->] & ?); by eauto|].
    by destruct Hif as (_ & ? & _).
  - intros (_ & [= ->] & ->). by rewrite Es.
  - intros (_ & [= ->] & ->). by rewrite Es.
  - intros (_ & [= ->] & ->). by rewrite Es.
  - by intros (_ & ? & _).
Qed.


(** After a recovery that returned Ok, a second recovery of the same transaction, for any list
    of participants, returns the same log and calls nobody. *)
Theorem recovery_is_idempotent tx ps ps' log st st1 log1 :
  log_at st tx log → recover respond now tx ps st = (st1, Ok log1) →
  ∃ st2, recover respond now tx ps' st1 = (st2, Ok log1) ∧ trace st2 = trace st1 ∧ log_at st2 tx log1.
Proof.
  intros Hlog E1. destruct (recover_found tx ps log st Hlog) as (s1 & r & evs & log' & E & _ & Hl1 & Hout).
  rewrite E1 in E. simplify_eq. apply outcome_ok in Hout as [-> Hterm].
  destruct (recover_found tx ps' log1 s1 Hl1) as (s2 & r2 & evs2 & log2 & E2 & Ht2 & Hl2 & Hout2).
  exists s2. unfold recovery_outcome in Hout2.
  destruct (status_from_str (status log1)); try discriminate Hterm;
    destruct Hout2 as (-> & -> & ->); by rewrite app_nil_r in Ht2.
Qed.
End reliable.

(** [LocalBackend] without SQL errors is reliable. *)
#[export] Instance LocalBackend_reliable (blob : Type) `{Serde blob StateEntry} :
  Reliable (Storage blob) blob (H := LocalBackend no_fault).
Proof. split; simpl; unfold bindM, load_state, save_state, statement; simpl; eauto. Qed.

(** ** Witnesses

    Stored values are the documents themselves; two participants, of which the
    second fails its first commit. *)
Inductive doc := DEntry (e : StateEntry) | DLog (l : TransactionLog).
#[local] Instance doc_entry : Serde doc StateEntry :=
  {| to_vec e := Ok (DEntry e); from_slice d := match d with DEntry e => Ok e | _ => Err (lit "missing field") end |}.
#[local] Instance doc_log : Serde doc TransactionLog :=
  {| to_vec l := Ok (DLog l); from_slice d := match d with DLog l => Ok l | _ => Err (lit "missing field") end |}.
#[local] Instance doc_entry_law : SerdeLaw doc StateEntry.
Proof. intros a b [= <-]. reflexivity. Qed.
#[local] Instance doc_log_law : SerdeLaw doc TransactionLog.
Proof. intros a b [= <-]. reflexivity. Qed.
#[local] Instance doc_entry_runs : Serialises doc StateEntry.
Proof. intros a. by eexists. Qed.
#[local] Instance doc_log_runs : Serialises doc TransactionLog.
Proof. intros a. by eexists. Qed.
#[local] Existing Instance LocalBackend.

Definition p_a : ParticipantInfo := mkInfo (lit "a") (lit "A") (lit "writer").
Definition p_b : ParticipantInfo := mkInfo (lit "b") (lit "B") (lit "writer").
Definition flaky (tr : list event) (o : op) (p : ParticipantInfo) : result unit str :=
  match o with
  | OpCommit => if decide (p = p_b) then if forallb ok_event tr then Err (lit "timeout") else Ok () else Ok ()
  | _ => Ok ()
  end.
Definition clock (n : nat) : str := show_nat n.
Definition empty_tp : TP := mkTP (mkStorage (blob := doc) ∅ 0) [] 0.
Abbreviation wit_backend := (LocalBackend (blob := doc) no_fault).
Abbreviation wit_run := (execute (H := wit_backend) flaky clock (lit "t1") [p_a; p_b] JNull empty_tp).

Lemma no_commit_witness :
  ∃ evs, trace wit_run.1 = trace empty_tp ++ evs ∧
    (Forall (λ e, ev_op e ≠ OpCommit) evs ∨
     ∃ tail, evs = prepares [p_a; p_b] ++ tail ∧ Forall (λ e, ev_op e ≠ OpPrepare) tail).
Proof.
  apply (no_commit_without_unanimous_vote (H := wit_backend) flaky clock (lit "t1") [p_a; p_b] JNull
    empty_tp wit_run.1 wit_run.2). apply surjective_pairing.
Defined.

Lemma success_witness :
  is_ok wit_run.2 = true ∧
  ∃ commits, trace wit_run.1 = trace empty_tp ++ prepares [p_a; p_b] ++ commits ∧
    Forall (λ e, ev_op e = OpCommit) commits ∧ length (oks commits) = 2.
Proof.
  destruct wit_run.2 as [log|e] eqn:E; [|vm_compute in E; discriminate E]. split; [reflexivity|].
  refine (proj2 (success_means_every_participant_committed (H := wit_backend) flaky clock (lit "t1")
    [p_a; p_b] JNull empty_tp wit_run.1 log _)).
  rewrite <- E. apply surjective_pairing.
Defined.

Lemma verdict_witness :
  ∃ st' r evs log, execute (H := wit_backend) flaky clock (lit "t1") [p_a; p_b] JNull empty_tp = (st', r) ∧
    trace st' = trace empty_tp ++ evs ∧ log_at (view := local_view) st' (lit "t1") log ∧
    status log = status_as_str (verdict [p_a; p_b] evs) ∧
    is_ok r = bool_decide (verdict [p_a; p_b] evs = Committed) ∧ begun (view := local_view) st' (lit "t1").
Proof.
  apply (execute_persists_the_verdict (H := wit_backend) (view := local_view)).
Defined.

(** A coordinator that stopped while committing. *)
Definition crashed_log : TransactionLog :=
  mkLog (lit "t2") (status_as_str Committing) [p_a; p_b] (lit "0") (lit "1") JNull.
Definition crashed_tp : TP :=
  mkTP (mkStorage (<[log_key (lit "t2") := mkRow (DLog crashed_log) (lit "application/octet-stream") 1%N]> ∅) 1) [] 0.

Lemma crashed_at : log_at (view := local_view) crashed_tp (lit "t2") crashed_log.
Proof.
  split; [done|]. exists (DLog crashed_log). split; [|done].
  unfold local_view. rewrite lookup_fmap. simpl. by rewrite lookup_insert_eq.
Qed.


Abbreviation wit_recovered := (recover (H := wit_backend) flaky clock (lit "t2") [p_a; p_b] crashed_tp).
Lemma idempotent_witness :
  ∃ log1, wit_recovered.2 = Ok log1 ∧
  ∃ st2, recover (H := wit_backend) flaky clock (lit "t2") [p_b] wit_recovered.1 = (st2, Ok log1) ∧
         trace st2 = trace wit_recovered.1 ∧ log_at (view := local_view) st2 (lit "t2") log1.
Proof.
  destruct wit_recovered.2 as [log|e] eqn:E; [|vm_compute in E; discriminate E]. exists log. split; [reflexivity|].
  apply (recovery_is_idempotent (H := wit_backend) (view := local_view) flaky clock (lit "t2") [p_a; p_b] [p_b]
    crashed_log crashed_tp wit_recovered.1 log crashed_at).
  rewrite <- E. apply surjective_pairing.
Defined.
