(* ===== verification/SqlDialect.v ===== *)
(** Lexical rules of the SQL dialects ([crates/dbx-core/src/sql.rs]): dialect
    profiles, comments, quoting, client commands and the recognition of
    procedural blocks.

    Text is a list of code points.  Where the source scans bytes it stops at
    ASCII bytes only, which are never part of another character, so that the
    scan over code points takes the same steps.  The tokenizer of the
    [sqlparser] crate is the class [OracleTokenizer]; the fallback used when it
    fails is modelled. *)
From S2P Require Import Prelude.
Local Open Scope dbx_scope.

(** The database types, generated from the connection type descriptors. *)
Module DatabaseType.
Inductive t :=
| Mysql | Postgres | Sqlite | Rqlite | Turso | CloudflareD1 | Redis | DuckDb | ClickHouse |
SqlServer | MongoDb | DynamoDb | Oracle | Elasticsearch | Easysearch | Meilisearch | Hbase |
Qdrant | ChromaDb | Milvus | Weaviate | Doris | StarRocks | ManticoreSearch | Redshift | Dameng
| Kingbase | Highgo | Uxdb | Vastbase | Goldendb | Databend | Gaussdb | Kwdb | Yashandb |
Databricks | SapHana | Teradata | Vertica | Firebird | Exasol | OpenGauss | Questdb |
OceanbaseOracle | Gbase | Access | H2 | Snowflake | Trino | PrestoSql | Hive | Argo | Kyuubi |
Impala | Db2 | Informix | Neo4j | Cassandra | Bigquery | Spanner | Kylin | Ignite | Ignite3 |
Sundb | Oscar | Tdengine | Xugu | Etcd | ZooKeeper | Nacos | Consul | MessageQueue | Mqtt |
Iotdb | Iris | InfluxDb | InfluxDb3 | VictoriaMetrics | Jdbc | Spark.
End DatabaseType.
#[export] Instance DatabaseType_eq_dec : EqDecision DatabaseType.t.
Proof. solve_decision. Defined.
Definition is_db (d : DatabaseType.t) (database_type : option DatabaseType.t) : bool := bool_decide (database_type = Some d).
Definition is_any_db (ds : list DatabaseType.t) (database_type : option DatabaseType.t) : bool := existsb (λ d, is_db d database_type) ds.

(** ** Profiles *)
Record SqlDialectProfile := mkProfile {
  supports_hash_line_comments : bool;
  supports_oracle_plsql_blocks : bool;
  supports_slash_line_block_delimiter : bool;
  supports_custom_delimiter_commands : bool;
  supports_mysql_routine_blocks : bool;
  supports_dollar_quoted_strings : bool;
  supports_postgres_dollar_quoted_routines : bool;
  supports_hana_do_blocks : bool;
  supports_go_batch_separator : bool;
  keeps_sqlserver_module_batch_at_cursor : bool;
  preserves_tdsql_leading_directives : bool;
  requires_whitespace_after_line_comment_dashes : bool;
  supports_psql_control_commands : bool;
}.

Definition profile_default : SqlDialectProfile :=
  mkProfile false false false true false true false false false false false false false.

Definition mysql_compatible : SqlDialectProfile :=
  mkProfile true false false true true true false false false false false true false.

Definition oracle_like : SqlDialectProfile :=
  mkProfile false true true true false true false false false false false false false.

Definition gaussdb : SqlDialectProfile :=
  mkProfile false true true true false true true false false false false false true.

Definition sql_server : SqlDialectProfile :=
  mkProfile false false false true false true false false true true false false false.

Definition sap_hana : SqlDialectProfile :=
  mkProfile false false false true false true false true false false false false false.

Definition is_mysql_compatible_database (d : DatabaseType.t) : bool :=
  match d with
  | DatabaseType.Mysql | DatabaseType.Doris | DatabaseType.StarRocks
  | DatabaseType.ManticoreSearch | DatabaseType.Goldendb => true
  | _ => false
  end.

Definition is_oracle_like_database (d : DatabaseType.t) : bool :=
  match d with
  | DatabaseType.Oracle | DatabaseType.Dameng | DatabaseType.Gaussdb | DatabaseType.Yashandb
  | DatabaseType.Oscar | DatabaseType.OceanbaseOracle | DatabaseType.Xugu => true
  | _ => false
  end.

Definition preserves_leading_directives_for_database_type (d : DatabaseType.t) : bool :=
  bool_decide (d = DatabaseType.Mysql).

Definition for_database_type (d : DatabaseType.t) : SqlDialectProfile :=
  if decide (d = DatabaseType.Mysql) then
    mkProfile true false false true true true false false false false
      (preserves_leading_directives_for_database_type d) true false
  else if decide (d = DatabaseType.Gaussdb) then gaussdb
  else if is_oracle_like_database d then oracle_like
  else if decide (d = DatabaseType.SqlServer) then sql_server
  else if is_mysql_compatible_database d then mysql_compatible
  else if decide (d = DatabaseType.SapHana) then sap_hana
  else profile_default.

Definition without_psql (p : SqlDialectProfile) : SqlDialectProfile :=
  mkProfile (supports_hash_line_comments p) (supports_oracle_plsql_blocks p)
    (supports_slash_line_block_delimiter p) (supports_custom_delimiter_commands p)
    (supports_mysql_routine_blocks p) (supports_dollar_quoted_strings p)
    (supports_postgres_dollar_quoted_routines p) (supports_hana_do_blocks p)
    (supports_go_batch_separator p) (keeps_sqlserver_module_batch_at_cursor p)
    (preserves_tdsql_leading_directives p) (requires_whitespace_after_line_comment_dashes p) false.

Definition dash_dash_starts_line_comment (p : SqlDialectProfile) (char_after_dashes : option char) : bool :=
  if negb (requires_whitespace_after_line_comment_dashes p) then true
  else match char_after_dashes with
       | None => true
       | Some ch => is_whitespace ch || is_control ch
       end.

Definition is_sql_ident_char (ch : char) : bool :=
  bool_decide (ch = chr "_") || bool_decide (ch = chr "$") || is_ascii_alphanumeric ch.

Definition has_odd_trailing_backslashes (sql : str) : bool :=
  Nat.odd (length (take_while (λ c, bool_decide (c = BACKSLASH)) (reverse sql))).

(** [(a, b)] are the next two characters. *)
Definition at2 (a b : char) (ch : char) (rest : str) : bool :=
  bool_decide (ch = a) && bool_decide (head rest = Some b).

(** ** Comments *)

(** [/*!] and [/*M!] are executed by MySQL. *)
Definition is_mysql_executable_comment_start (s : str) : bool :=
  starts_with (lit "/*!") s || starts_with (lit "/*M!") s.

(** The offset of the first [*/], and the text before it. *)
Definition find_block_comment_close (s : str) : option nat :=
  (λ ab, length ab.1) <$> split_once (lit "*/") s.

Definition not_nl (c : char) : bool := negb (bool_decide (c = NL)).

(** The position reached by the loop, as the text from there. *)
Fixpoint leading_executable (p : SqlDialectProfile) (skip : nat) (s : str) : str :=
  match s with
  | [] => []
  | ch :: rest =>
      match skip with
      | S k => leading_executable p k rest
      | 0 =>
          if is_ascii_whitespace ch then leading_executable p 0 rest
          else if at2 (chr "-") (chr "-") ch rest then
            leading_executable p (1 + length (take_while not_nl (drop 1 rest))) rest
          else if supports_hash_line_comments p && bool_decide (ch = chr "#") then
            leading_executable p (length (take_while not_nl rest)) rest
          else if at2 (chr "/") (chr "*") ch rest then
            if is_mysql_executable_comment_start s then s
            else match find_block_comment_close (drop 1 rest) with
                 | None => []
                 | Some close => leading_executable p (1 + close + 2) rest
                 end
          else s
      end
  end.

Definition leading_executable_sql_with_options (sql : str) (p : SqlDialectProfile) : str :=
  leading_executable p 0 sql.
Definition leading_executable_sql (sql : str) : str :=
  leading_executable_sql_with_options sql profile_default.

Definition is_token_char (c : char) : bool := is_ascii_alphabetic c || bool_decide (c = chr "_").

(** The token the scan stops at. *)
Fixpoint first_executable (p : SqlDialectProfile) (skip : nat) (s : str) : str :=
  match s with
  | [] => []
  | ch :: rest =>
      match skip with
      | S k => first_executable p k rest
      | 0 =>
          if is_ascii_whitespace ch || bool_decide (ch = chr "(") then first_executable p 0 rest
          else if at2 (chr "-") (chr "-") ch rest then
            first_executable p (1 + length (take_while not_nl (drop 1 rest))) rest
          else if supports_hash_line_comments p && bool_decide (ch = chr "#") then
            first_executable p (length (take_while not_nl rest)) rest
          else if at2 (chr "/") (chr "*") ch rest then
            if is_mysql_executable_comment_start s then
              drop_while (λ c, is_ascii_digit c || is_ascii_whitespace c)
                (drop (if bool_decide (rest !! 1 = Some (chr "!")) then 3 else 4) s)
            else match find_block_comment_close (drop 1 rest) with
                 | None => []
                 | Some close => first_executable p (1 + close + 2) rest
                 end
          else s
      end
  end.

Definition first_executable_sql_token_with_options (sql : str) (p : SqlDialectProfile) : option str :=
  match take_while is_token_char (first_executable p 0 sql) with
  | [] => None
  | token => Some token
  end.

Definition executable_sql_keyword_matches (token keyword : str) : bool :=
  eq_ignore_ascii_case token keyword ||
  (eq_ignore_ascii_case keyword (lit "DESCRIBE") && eq_ignore_ascii_case token (lit "DESC")).

Definition starts_with_executable_sql_keyword_with_options (sql : str) (keywords : list str)
    (p : SqlDialectProfile) : bool :=
  match first_executable_sql_token_with_options sql p with
  | None => false
  | Some token => existsb (executable_sql_keyword_matches token) keywords
  end.

(** [has_executable_sql_with_options]: is there anything outside comments? *)
Record exec_scan := mkExecScan { es_line : bool; es_block : bool; es_previous : option char }.

Fixpoint has_executable (p : SqlDialectProfile) (st : exec_scan) (s : str) : bool :=
  match s with
  | [] => false
  | ch :: rest =>
      if es_line st then
        has_executable p (mkExecScan (negb (bool_decide (ch = NL))) (es_block st) (Some ch)) rest
      else if es_block st then
        has_executable p (mkExecScan false
          (negb (bool_decide (es_previous st = Some (chr "*")) && bool_decide (ch = chr "/"))) (Some ch)) rest
      else if at2 (chr "-") (chr "-") ch rest then has_executable p (mkExecScan true false (Some ch)) rest
      else if supports_hash_line_comments p && bool_decide (ch = chr "#") then
        has_executable p (mkExecScan true false (Some ch)) rest
      else if at2 (chr "/") (chr "*") ch rest then
        if is_mysql_executable_comment_start s then true
        else has_executable p (mkExecScan false true (Some ch)) rest
      else if negb (is_whitespace ch) then true
      else has_executable p (mkExecScan false false (Some ch)) rest
  end.

Definition has_executable_sql_with_options (statement : str) (p : SqlDialectProfile) : bool :=
  has_executable p (mkExecScan false false None) statement.

(** ** Client commands *)
Definition parse_delimiter_command (line : str) : option str :=
  if bool_decide (10 < length line) &&
     (eq_ignore_ascii_case (take 10 line) (lit "delimiter ") ||
      eq_ignore_ascii_case (take 10 line) (lit "delimiter" ++ [TAB]))
  then match trim (drop 10 line) with [] => None | r => Some r end
  else None.

(** The unfinished line at the end of [s] starts with [delimiter]. *)
Definition on_delimiter_line_of (s : str) : bool :=
  eq_ignore_ascii_case (take 9 (trim_start (split_last NL s).2)) (lit "delimiter").

Inductive PsqlControlCommand := OnErrorStop | ClientDisplay.
#[export] Instance PsqlControlCommand_eq_dec : EqDecision PsqlControlCommand.
Proof. solve_decision. Defined.

Definition is_one_of (s : str) (l : list str) : bool := existsb (λ w, bool_decide (w = s)) l.

Definition parse_ignorable_psql_control_command (line : str) : option PsqlControlCommand :=
  match split_whitespace line with
  | [] => None
  | command :: parts =>
      if eq_ignore_ascii_case command (BACKSLASH :: lit "timing") then
        match parts with
        | [] => Some ClientDisplay
        | [value] => if eq_ignore_ascii_case value (lit "on") || eq_ignore_ascii_case value (lit "off")
                     then Some ClientDisplay else None
        | _ => None
        end
      else if negb (eq_ignore_ascii_case command (BACKSLASH :: lit "set")) then None
      else match parts with
           | [variable; value] =>
               if decide (to_ascii_uppercase variable = lit "ON_ERROR_STOP") then
                 if is_one_of (to_ascii_lowercase value) [lit "on"; lit "true"; lit "1"]
                 then Some OnErrorStop else None
               else if decide (to_ascii_uppercase variable = lit "VERBOSITY") then
                 if is_one_of (to_ascii_lowercase value) [lit "default"; lit "verbose"; lit "terse"; lit "sqlstate"]
                 then Some ClientDisplay else None
               else None
           | _ => None
           end
  end.

(** ** Dollar quoting *)
Definition is_tag_char (c : char) : bool := is_ascii_alphanumeric c || bool_decide (c = chr "_").

Definition dollar_quote_tag_at (s : str) : option str :=
  match s with
  | d :: c :: r =>
      if negb (bool_decide (d = chr "$")) then None
      else if decide (c = chr "$") then Some (lit "$$")
      else if is_ascii_alphabetic c || bool_decide (c = chr "_") then
        let name := take_while is_tag_char r in
        if bool_decide (drop_while is_tag_char r !! 0 = Some (chr "$"))
        then Some (chr "$" :: c :: name ++ lit "$") else None
      else None
  | _ => None
  end.

(** The variant used on byte offsets, which also accepts tags that start with
    a digit. *)
Definition dollar_quote_tag_at_str (s : str) : option str :=
  match s with
  | d :: r =>
      if negb (bool_decide (d = chr "$")) then None
      else match split_once (lit "$") r with
           | None => None
           | Some (name, _) => if forallb is_tag_char name then Some (chr "$" :: name ++ lit "$") else None
           end
  | [] => None
  end.

(** ** MySQL routines *)

(** [sql.split(|ch| !alphanumeric && ch != '_')], without the empty parts. *)
Fixpoint sql_tokens_acc (w : str) (s : str) : list str :=
  match s with
  | [] => match w with [] => [] | _ => [w] end
  | c :: r =>
      if is_tag_char c then sql_tokens_acc (w ++ [c]) r
      else match w with [] => sql_tokens_acc [] r | _ => w :: sql_tokens_acc [] r end
  end.
Definition first_sql_tokens (sql : str) (limit : nat) : list str := take limit (sql_tokens_acc [] sql).

Definition any_keyword (token : str) (keywords : list str) : bool :=
  existsb (eq_ignore_ascii_case token) keywords.

Fixpoint routine_kind (tokens : list str) : bool :=
  match tokens with
  | [] => false
  | token :: rest =>
      if any_keyword token [lit "PROCEDURE"; lit "FUNCTION"; lit "TRIGGER"; lit "EVENT"] then true
      else if any_keyword token [lit "DATABASE"; lit "INDEX"; lit "LOGFILE"; lit "ROLE"; lit "SCHEMA"; lit "SERVER";
                                 lit "SPATIAL"; lit "TABLE"; lit "TEMPORARY"; lit "UNIQUE"; lit "USER"; lit "VIEW"]
      then false
      else routine_kind rest
  end.

Definition is_mysql_routine_ddl_start (sql : str) : bool :=
  match first_sql_tokens (leading_executable_sql_with_options sql mysql_compatible) 16 with
  | [] => false
  | token :: rest => if eq_ignore_ascii_case token (lit "CREATE") then routine_kind rest else false
  end.

Inductive routine_mode := RCode | RLine | RBlock | RSingle | RDouble | RBacktick.

Definition quoted_step (q : char) (escapes : bool) (mode : routine_mode) (ch : char) (rest : str)
  : routine_mode * list str * nat :=
  if escapes && bool_decide (ch = BACKSLASH) && negb (bool_decide (rest = [])) then (mode, [], 1)
  else if decide (ch = q) then
    if bool_decide (head rest = Some q) then (mode, [], 1) else (RCode, [], 0)
  else (mode, [], 0).

Definition routine_step (mode : routine_mode) (ch : char) (rest : str) : routine_mode * list str * nat :=
  match mode with
  | RLine => (if decide (ch = NL) then RCode else RLine, [], 0)
  | RBlock => if at2 (chr "*") (chr "/") ch rest then (RCode, [], 1) else (RBlock, [], 0)
  | RSingle => quoted_step SQUOTE true RSingle ch rest
  | RDouble => quoted_step DQUOTE true RDouble ch rest
  | RBacktick => quoted_step BACKTICK false RBacktick ch rest
  | RCode =>
      if at2 (chr "-") (chr "-") ch rest then (RLine, [], 1)
      else if decide (ch = chr "#") then (RLine, [], 0)
      else if at2 (chr "/") (chr "*") ch rest then (RBlock, [], 1)
      else if decide (ch = SQUOTE) then (RSingle, [], 0)
      else if decide (ch = DQUOTE) then (RDouble, [], 0)
      else if decide (ch = BACKTICK) then (RBacktick, [], 0)
      else if decide (ch = chr ";") then (RCode, [lit ";"], 0)
      else if bool_decide (ch = chr "_") || is_ascii_alphabetic ch then
        let tail := take_while is_sql_ident_char rest in
        (RCode, [to_ascii_uppercase (ch :: tail)], length tail)
      else (RCode, [], 0)
  end.

Definition mysql_routine_tokens (sql : str) : list str := (scan routine_step 0 RCode sql).2.

Definition starts_with_mysql_routine_block (sql : str) : bool :=
  is_mysql_routine_ddl_start sql &&
  existsb (λ token, eq_ignore_ascii_case token (lit "BEGIN")) (mysql_routine_tokens sql).

Inductive MysqlRoutineBlockType := MBegin | MCase.
#[export] Instance MysqlRoutineBlockType_eq_dec : EqDecision MysqlRoutineBlockType.
Proof. solve_decision. Defined.

Definition is_mysql_control_block_suffix (token : str) : bool :=
  any_keyword token [lit "IF"; lit "LOOP"; lit "CASE"; lit "REPEAT"; lit "WHILE"].

Definition is_kw (o : option str) (kw : str) : bool :=
  match o with Some token => eq_ignore_ascii_case token kw | None => false end.

(** The word after the current token, semicolons skipped. *)
Definition next_mysql_routine_word (rest : list str) : option str :=
  head (filter (λ t, t ≠ lit ";") rest).

(** [previous] is the last token before that is not a semicolon; the stack
    has its top first. *)
Fixpoint mysql_blocks (previous : option str) (stack : list MysqlRoutineBlockType) (saw_begin : bool)
    (tokens : list str) : list MysqlRoutineBlockType * bool :=
  match tokens with
  | [] => (stack, saw_begin)
  | token :: rest =>
      if decide (token = lit ";") then mysql_blocks previous stack saw_begin rest
      else if eq_ignore_ascii_case token (lit "BEGIN") then
        if is_kw previous (lit "END") then mysql_blocks (Some token) stack saw_begin rest
        else mysql_blocks (Some token) (MBegin :: stack) true rest
      else if eq_ignore_ascii_case token (lit "CASE") then
        if is_kw previous (lit "END") then mysql_blocks (Some token) stack saw_begin rest
        else mysql_blocks (Some token) (MCase :: stack) saw_begin rest
      else if eq_ignore_ascii_case token (lit "END") && saw_begin then
        let suffix := next_mysql_routine_word rest in
        if is_kw suffix (lit "CASE") then
          mysql_blocks (Some token) (if decide (head stack = Some MCase) then tail stack else stack) saw_begin rest
        else if match suffix with Some n => is_mysql_control_block_suffix n | None => false end then
          mysql_blocks (Some token) stack saw_begin rest
        else mysql_blocks (Some token) (tail stack) saw_begin rest
      else mysql_blocks (Some token) stack saw_begin rest
  end.

Definition mysql_routine_block_is_complete (sql : str) : bool :=
  if negb (starts_with_mysql_routine_block sql) then false
  else
    let tokens := mysql_routine_tokens sql in
    let '(stack, saw_begin) := mysql_blocks None [] false tokens in
    saw_begin && bool_decide (stack = []) && bool_decide (last tokens = Some (lit ";")).

(** ** PL/SQL and HANA blocks *)
Inductive OraclePlSqlToken := Word (value : str) | Semicolon.
#[export] Instance OraclePlSqlToken_eq_dec : EqDecision OraclePlSqlToken.
Proof. solve_decision. Defined.

(** What [sqlparser]'s tokenizer for Oracle returns, as far as it is used. *)
Inductive Token := TWord (value : str) (quote_style : option char) | TSemiColon | TOther.
Class OracleTokenizer := tokenize : str → option (list Token).

Definition from_sqlparser_token (t : Token) : option OraclePlSqlToken :=
  match t with
  | TWord value None => Some (Word (to_ascii_uppercase value))
  | TSemiColon => Some Semicolon
  | _ => None
  end.

Definition as_word (t : OraclePlSqlToken) : option str :=
  match t with Word value => Some value | Semicolon => None end.
Definition is_word (t : OraclePlSqlToken) (expected : str) : bool := bool_decide (t = Word expected).
Definition is_any_word (t : OraclePlSqlToken) (expected : list str) : bool := existsb (is_word t) expected.
Definition is_semicolon (t : OraclePlSqlToken) : bool := bool_decide (t = Semicolon).

(** Characters the inner loops of the fallback consume: a block comment, a
    string and a quoted identifier, each after its opening. *)
Fixpoint block_comment_len (previous : char) (s : str) : nat :=
  match s with
  | [] => 0
  | c :: r => if bool_decide (previous = chr "*") && bool_decide (c = chr "/") then 1
              else S (block_comment_len c r)
  end.
Fixpoint single_quoted_len (s : str) : nat :=
  match s with
  | [] => 0
  | c :: r =>
      if decide (c = SQUOTE) then
        match r with
        | d :: r' => if decide (d = SQUOTE) then S (S (single_quoted_len r')) else 1
        | [] => 1
        end
      else S (single_quoted_len r)
  end.

Definition is_plsql_ident_char (c : char) : bool :=
  is_ascii_alphanumeric c || bool_decide (c = chr "_") || bool_decide (c = chr "$") || bool_decide (c = chr "#").

Definition fallback_step (st : unit) (ch : char) (rest : str) : unit * list OraclePlSqlToken * nat :=
  if is_whitespace ch then ((), [], 0)
  else if at2 (chr "-") (chr "-") ch rest then ((), [], 1 + length (take_while not_nl (drop 1 rest)) + 1)
  else if at2 (chr "/") (chr "*") ch rest then ((), [], 1 + block_comment_len 0 (drop 1 rest))
  else if decide (ch = SQUOTE) then ((), [], single_quoted_len rest)
  else if decide (ch = DQUOTE) then
    ((), [], length (take_while (λ c, negb (bool_decide (c = DQUOTE))) rest) + 1)
  else if decide (ch = chr ";") then ((), [Semicolon], 0)
  else if is_ascii_alphabetic ch || bool_decide (ch = chr "_") then
    let tail := take_while is_plsql_ident_char rest in
    ((), [Word (to_ascii_uppercase (ch :: tail))], length tail)
  else ((), [], 0).

Definition oracle_plsql_tokens_fallback (sql : str) : list OraclePlSqlToken := (scan fallback_step 0 () sql).2.

Section blocks.
Context `{OracleTokenizer}.

Definition oracle_plsql_tokens (sql : str) : list OraclePlSqlToken :=
  match tokenize sql with
  | Some tokens => omap from_sqlparser_token tokens
  | None => oracle_plsql_tokens_fallback sql
  end.

Fixpoint skip_create_modifiers (tokens : list OraclePlSqlToken) : list OraclePlSqlToken :=
  match tokens with
  | t :: rest =>
      match rest with
      | t' :: tail =>
          if is_word t (lit "OR") && is_word t' (lit "REPLACE") then skip_create_modifiers tail
          else if is_any_word t [lit "FORCE"; lit "NOFORCE"; lit "EDITIONABLE"; lit "NONEDITIONABLE"]
          then skip_create_modifiers rest else tokens
      | [] => if is_any_word t [lit "FORCE"; lit "NOFORCE"; lit "EDITIONABLE"; lit "NONEDITIONABLE"]
              then skip_create_modifiers rest else tokens
      end
  | [] => []
  end.

Definition is_transaction_begin_tail (t : OraclePlSqlToken) : bool :=
  is_semicolon t || is_any_word t [lit "TRANSACTION"; lit "WORK"].

(** PACKAGE BODY or TYPE BODY. *)
Definition is_body (tokens : list OraclePlSqlToken) : bool :=
  match tokens with
  | object :: body :: _ => is_any_word object [lit "PACKAGE"; lit "TYPE"] && is_word body (lit "BODY")
  | _ => false
  end.

Definition starts_create_plsql_object (tokens : list OraclePlSqlToken) : bool :=
  let tokens := skip_create_modifiers tokens in
  if is_body tokens then true
  else match tokens with
       | object :: _ =>
           if is_word object (lit "TYPE") then false
           else is_any_word object [lit "FUNCTION"; lit "PROCEDURE"; lit "TRIGGER"; lit "PACKAGE"]
       | [] => false
       end.

Definition plsql_starts_block (tokens : list OraclePlSqlToken) : bool :=
  match tokens with
  | [] => false
  | first :: rest =>
      if is_word first (lit "DECLARE") then true
      else if is_word first (lit "BEGIN") &&
              match rest with second :: _ => negb (is_transaction_begin_tail second) | [] => false end
      then true
      else if is_word first (lit "CREATE") then starts_create_plsql_object rest
      else false
  end.

Inductive OraclePlSqlCreateObjectKind := Spec | Body.

Definition create_object_kind (tokens : list OraclePlSqlToken) : option OraclePlSqlCreateObjectKind :=
  match tokens with
  | first :: rest =>
      if negb (is_word first (lit "CREATE")) then None
      else
        let tokens := skip_create_modifiers rest in
        if is_body tokens then Some Body
        else match tokens with
             | object :: _ => if is_word object (lit "PACKAGE") then Some Spec else None
             | [] => None
             end
  | [] => None
  end.

Inductive OraclePlSqlScope := ScObject | ScBlock | ScCase.
#[export] Instance OraclePlSqlScope_eq_dec : EqDecision OraclePlSqlScope.
Proof. solve_decision. Defined.

Record plsql_scan := mkPlsql { scopes : list OraclePlSqlScope; saw_begin : bool; complete : bool }.

(** One token; [previous] is the last word before it and [next] the token
    after it. *)
Definition plsql_token (previous : option str) (next : option OraclePlSqlToken) (t : OraclePlSqlToken)
    (st : plsql_scan) : plsql_scan :=
  if is_semicolon t then st
  else if is_word t (lit "BEGIN") then mkPlsql (ScBlock :: scopes st) true false
  else if is_word t (lit "CASE") then
    if decide (previous = Some (lit "END")) then st
    else mkPlsql (ScCase :: scopes st) (saw_begin st) (complete st)
  else if is_word t (lit "END") then
    let next := next ≫= as_word in
    if bool_decide (next = Some (lit "IF")) || bool_decide (next = Some (lit "LOOP")) then st
    else if bool_decide (next = Some (lit "CASE")) && negb (bool_decide (head (scopes st) = Some ScCase)) then st
    else match scopes st with
         | [] => st
         | _ :: outer => mkPlsql outer (saw_begin st) (bool_decide (outer = []))
         end
  else st.

Definition update_previous (previous : option str) (t : OraclePlSqlToken) : option str :=
  match as_word t with Some w => Some w | None => previous end.

Fixpoint plsql_scan_tokens (previous : option str) (st : plsql_scan) (tokens : list OraclePlSqlToken) : plsql_scan :=
  match tokens with
  | [] => st
  | t :: rest => plsql_scan_tokens (update_previous previous t) (plsql_token previous (head rest) t st) rest
  end.

Definition plsql_is_complete (tokens : list OraclePlSqlToken) : bool :=
  if negb (plsql_starts_block tokens) then false
  else
    let object_kind := create_object_kind tokens in
    let st := plsql_scan_tokens None
                (mkPlsql (match object_kind with Some _ => [ScObject] | None => [] end) false false) tokens in
    match object_kind with
    | Some _ => complete st
    | None => saw_begin st && complete st
    end.

Definition starts_with_oracle_plsql_block (sql : str) : bool := plsql_starts_block (oracle_plsql_tokens sql).
Definition oracle_plsql_block_is_complete (sql : str) : bool := plsql_is_complete (oracle_plsql_tokens sql).

Definition starts_with_postgres_dollar_quoted_routine_prefix (sql : str) : bool :=
  let tokens := oracle_plsql_tokens sql in
  match tokens with
  | [] => false
  | first :: rest =>
      is_word first (lit "CREATE") &&
      match skip_create_modifiers rest with
      | token :: _ => is_any_word token [lit "FUNCTION"; lit "PROCEDURE"]
      | [] => false
      end && bool_decide (last (omap as_word tokens) = Some (lit "AS"))
  end.

(** *** HANA anonymous blocks *)
Definition hana_token (previous : option str) (rest : list OraclePlSqlToken) (t : OraclePlSqlToken)
    (st : list str * bool) : list str * bool :=
  let '(stack, saw_begin) := st in
  if is_word t (lit "BEGIN") then
    if decide (previous = Some (lit "END")) then st else (lit "BLOCK" :: stack, true)
  else if is_any_word t [lit "IF"; lit "FOR"; lit "WHILE"; lit "CASE"] then
    if decide (previous = Some (lit "END")) then st
    else (default (lit "BLOCK") (as_word t) :: stack, saw_begin)
  else if is_word t (lit "END") then
    let next := head (omap as_word rest) in
    let target := match next with
                  | Some keyword =>
                      if is_one_of keyword [lit "IF"; lit "FOR"; lit "WHILE"] then keyword
                      else if bool_decide (head stack = Some (lit "CASE")) then lit "CASE" else lit "BLOCK"
                  | None => if bool_decide (head stack = Some (lit "CASE")) then lit "CASE" else lit "BLOCK"
                  end in
    if decide (head stack = Some target) then (tail stack, saw_begin) else st
  else st.

Fixpoint hana_scan (previous : option str) (st : list str * bool) (tokens : list OraclePlSqlToken)
  : list str * bool :=
  match tokens with
  | [] => st
  | t :: rest => hana_scan (update_previous previous t) (hana_token previous rest t st) rest
  end.

Definition hana_starts_block (tokens : list OraclePlSqlToken) : bool :=
  match tokens with first :: _ => is_word first (lit "DO") | [] => false end.

Definition hana_is_complete (tokens : list OraclePlSqlToken) : bool :=
  if negb (hana_starts_block tokens) then false
  else let '(stack, saw_begin) := hana_scan None ([], false) tokens in
       saw_begin && bool_decide (stack = []) && bool_decide (last tokens = Some Semicolon).

Definition starts_with_hana_do_block (sql : str) : bool := hana_starts_block (oracle_plsql_tokens sql).
Definition hana_do_block_is_complete (sql : str) : bool := hana_is_complete (oracle_plsql_tokens sql).
End blocks.

(** A tokenizer that always fails: the fallback is used. *)
Definition no_tokenizer : OracleTokenizer := λ _, None.
