(* ===== verification/SqlSplitter.v ===== *)
(** The streaming statement splitter ([SqlStatementSplitter] of
    [crates/dbx-core/src/sql.rs]).

    [push_char] is the body of the loop of [push_chunk_with_control] for the
    character under the cursor; [push_chunk_with_control] runs it over a chunk
    with [scan]. *)
From S2P Require Import Prelude SqlDialect.
Local Open Scope dbx_scope.

Record SqlStatementWithControl := mkStatement { sql : str; st_stop_on_error : bool }.

Record SqlStatementSplitter := mkSplitter {
  buffer : str;
  in_single_quote : bool;
  in_double_quote : bool;
  in_backtick : bool;
  in_line_comment : bool;
  in_block_comment : bool;
  dollar_quote_tag : option str;
  postgres_dollar_quoted_routine : bool;
  previous : option char;
  pending_mysql_line_comment_dashes : bool;
  custom_delimiter : option str;
  stop_on_error : bool;
  profile : SqlDialectProfile;
}.

Definition with_options (p : SqlDialectProfile) : SqlStatementSplitter :=
  mkSplitter [] false false false false false None false None false None false p.

(** *** Assignments to one field *)
Definition set_buffer (b : str) (st : SqlStatementSplitter) : SqlStatementSplitter :=
  let 'mkSplitter _ sq dq bt lc bc tag pg pv pd cd soe p := st in mkSplitter b sq dq bt lc bc tag pg pv pd cd soe p.
Definition set_previous (pv : option char) (st : SqlStatementSplitter) : SqlStatementSplitter :=
  let 'mkSplitter b sq dq bt lc bc tag pg _ pd cd soe p := st in mkSplitter b sq dq bt lc bc tag pg pv pd cd soe p.
Definition set_single (sq : bool) (st : SqlStatementSplitter) : SqlStatementSplitter :=
  let 'mkSplitter b _ dq bt lc bc tag pg pv pd cd soe p := st in mkSplitter b sq dq bt lc bc tag pg pv pd cd soe p.
Definition set_double (dq : bool) (st : SqlStatementSplitter) : SqlStatementSplitter :=
  let 'mkSplitter b sq _ bt lc bc tag pg pv pd cd soe p := st in mkSplitter b sq dq bt lc bc tag pg pv pd cd soe p.
Definition set_backtick (bt : bool) (st : SqlStatementSplitter) : SqlStatementSplitter :=
  let 'mkSplitter b sq dq _ lc bc tag pg pv pd cd soe p := st in mkSplitter b sq dq bt lc bc tag pg pv pd cd soe p.
Definition set_line (lc : bool) (st : SqlStatementSplitter) : SqlStatementSplitter :=
  let 'mkSplitter b sq dq bt _ bc tag pg pv pd cd soe p := st in mkSplitter b sq dq bt lc bc tag pg pv pd cd soe p.
Definition set_block (bc : bool) (st : SqlStatementSplitter) : SqlStatementSplitter :=
  let 'mkSplitter b sq dq bt lc _ tag pg pv pd cd soe p := st in mkSplitter b sq dq bt lc bc tag pg pv pd cd soe p.
Definition set_tag (tag : option str) (st : SqlStatementSplitter) : SqlStatementSplitter :=
  let 'mkSplitter b sq dq bt lc bc _ pg pv pd cd soe p := st in mkSplitter b sq dq bt lc bc tag pg pv pd cd soe p.
Definition set_pg_routine (pg : bool) (st : SqlStatementSplitter) : SqlStatementSplitter :=
  let 'mkSplitter b sq dq bt lc bc tag _ pv pd cd soe p := st in mkSplitter b sq dq bt lc bc tag pg pv pd cd soe p.
Definition set_pending (pd : bool) (st : SqlStatementSplitter) : SqlStatementSplitter :=
  let 'mkSplitter b sq dq bt lc bc tag pg pv _ cd soe p := st in mkSplitter b sq dq bt lc bc tag pg pv pd cd soe p.
Definition set_delimiter (cd : option str) (st : SqlStatementSplitter) : SqlStatementSplitter :=
  let 'mkSplitter b sq dq bt lc bc tag pg pv pd _ soe p := st in mkSplitter b sq dq bt lc bc tag pg pv pd cd soe p.
Definition set_stop (soe : bool) (st : SqlStatementSplitter) : SqlStatementSplitter :=
  let 'mkSplitter b sq dq bt lc bc tag pg pv pd cd _ p := st in mkSplitter b sq dq bt lc bc tag pg pv pd cd soe p.

Definition push (ch : char) (st : SqlStatementSplitter) : SqlStatementSplitter := set_buffer (buffer st ++ [ch]) st.
(** [buffer.push(ch); previous = Some(ch)] *)
Definition keep (ch : char) (st : SqlStatementSplitter) : SqlStatementSplitter :=
  set_previous (Some ch) (push ch st).
Definition push_all (s : str) (st : SqlStatementSplitter) : SqlStatementSplitter := foldl (λ st ch, keep ch st) st s.

Definition unquoted (st : SqlStatementSplitter) : bool :=
  negb (in_single_quote st) && negb (in_double_quote st) && negb (in_backtick st).

Definition emit (text : str) (st : SqlStatementSplitter) : list SqlStatementWithControl :=
  if has_executable_sql_with_options text (profile st) then [mkStatement text (stop_on_error st)] else [].

Definition push_current_statement (st : SqlStatementSplitter)
  : SqlStatementSplitter * list SqlStatementWithControl :=
  (set_pending false (set_previous None (set_pg_routine false (set_buffer [] st))), emit (trim (buffer st)) st).

Definition on_delimiter_line (st : SqlStatementSplitter) : bool := on_delimiter_line_of (buffer st).

Section splitter.
Context `{OracleTokenizer}.
Implicit Types (st : SqlStatementSplitter) (ch : char) (rest : str).
Abbreviation outcome := (SqlStatementSplitter * list SqlStatementWithControl * nat)%type.

(** *** Comments and dollar quotes, outside quotes: [None] when none starts here *)
Definition open_masked st ch rest : option (SqlStatementSplitter * nat) :=
  let p := profile st in
  let dashes := bool_decide (previous st = Some (chr "-")) && bool_decide (ch = chr "-") in
  if dashes && requires_whitespace_after_line_comment_dashes p && bool_decide (rest = []) then
    Some (keep ch (set_pending true st), 0)
  else if dashes && dash_dash_starts_line_comment p (head rest) then Some (keep ch (set_line true st), 0)
  else if bool_decide (previous st = Some (chr "/")) && bool_decide (ch = chr "*") then
    Some (keep ch (set_block true st), 0)
  else if supports_hash_line_comments p && bool_decide (ch = chr "#") then Some (keep ch (set_line true st), 0)
  else if at2 (chr "/") (chr "*") ch rest then Some (keep ch (set_block true st), 0)
  else
    match (if supports_dollar_quoted_strings p then dollar_quote_tag_at (ch :: rest) else None) with
    | Some tag =>
        if bool_decide (custom_delimiter st = None) && negb (on_delimiter_line st) then
          let st := if supports_postgres_dollar_quoted_routines p &&
                       starts_with_postgres_dollar_quoted_routine_prefix (buffer st)
                    then set_pg_routine true st else st in
          Some (set_tag (Some tag) (push_all tag st), length tag - 1)
        else None
    | None => None
    end.

(** *** A semicolon outside quotes *)
Definition on_semicolon st : SqlStatementSplitter * list SqlStatementWithControl :=
  let p := profile st in
  let ch := chr ";" in
  if (supports_custom_delimiter_commands p && on_delimiter_line st) || bool_decide (custom_delimiter st ≠ None)
  then (push ch st, [])
  else if supports_mysql_routine_blocks p && starts_with_mysql_routine_block (buffer st) then
    if mysql_routine_block_is_complete (buffer st ++ [ch]) then push_current_statement st else (push ch st, [])
  else if supports_oracle_plsql_blocks p && negb (postgres_dollar_quoted_routine st) &&
          starts_with_oracle_plsql_block (buffer st) then
    let st := push ch st in
    if oracle_plsql_block_is_complete (buffer st) then push_current_statement st else (st, [])
  else if supports_hana_do_blocks p && starts_with_hana_do_block (buffer st) then
    let st := push ch st in
    if hana_do_block_is_complete (buffer st) then push_current_statement st else (st, [])
  else push_current_statement st.

(** *** The [match ch] *)
Definition match_char st ch : SqlStatementSplitter * list SqlStatementWithControl :=
  if bool_decide (ch = SQUOTE) && negb (in_double_quote st) && negb (in_backtick st) &&
     negb (has_odd_trailing_backslashes (buffer st)) then
    (push ch (set_single (negb (in_single_quote st)) st), [])
  else if bool_decide (ch = DQUOTE) && negb (in_single_quote st) && negb (in_backtick st) &&
          negb (has_odd_trailing_backslashes (buffer st)) then
    (push ch (set_double (negb (in_double_quote st)) st), [])
  else if bool_decide (ch = BACKTICK) && negb (in_single_quote st) && negb (in_double_quote st) then
    (push ch (set_backtick (negb (in_backtick st)) st), [])
  else if bool_decide (ch = chr ";") && unquoted st then on_semicolon st
  else (push ch st, []).

(** Forgetting the text before the cursor. *)
Definition cleared st : SqlStatementSplitter :=
  set_previous None (set_pg_routine false (set_buffer [] st)).

(** *** The end of a line, outside quotes: [None] when the line is not a client command *)
Definition end_of_line st : option (SqlStatementSplitter * list SqlStatementWithControl) :=
  let p := profile st in
  let '(before, line) := split_last NL (removelast (buffer st)) in
  let last_line := trim line in
  match (if supports_psql_control_commands p then parse_ignorable_psql_control_command last_line else None) with
  | Some command =>
      let st := if decide (command = OnErrorStop) then set_stop true st else st in
      Some (set_previous (last before) (set_buffer before st), [])
  | None =>
      if supports_slash_line_block_delimiter p && bool_decide (last_line = lit "/") then
        Some (cleared st, emit (trim before) st)
      else
        match (if supports_custom_delimiter_commands p then parse_delimiter_command last_line else None) with
        | Some new_delim =>
            Some (cleared (set_delimiter (if decide (new_delim = lit ";") then None else Some new_delim) st),
                  match before with [] => [] | _ => emit (trim before) st end)
        | None => None
        end
  end.

(** A custom delimiter at the end of the buffer. *)
Definition at_delimiter st : SqlStatementSplitter * list SqlStatementWithControl :=
  match custom_delimiter st with
  | Some delim =>
      if ends_with delim (buffer st) then
        push_current_statement (set_buffer (take (length (buffer st) - length delim) (buffer st)) st)
      else (st, [])
  | None => (st, [])
  end.

Definition push_char st ch rest : outcome :=
  match dollar_quote_tag st with
  | Some tag =>
      if starts_with tag (ch :: rest) then (set_tag None (push_all tag st), [], length tag - 1)
      else (keep ch st, [], 0)
  | None =>
      if in_line_comment st then
        (keep ch (if decide (ch = NL) then set_line false st else st), [], 0)
      else if in_block_comment st then
        (keep ch (if bool_decide (previous st = Some (chr "*")) && bool_decide (ch = chr "/")
                  then set_block false st else st), [], 0)
      else
        match (if unquoted st then open_masked st ch rest else None) with
        | Some (st', k) => (st', [], k)
        | None =>
            let '(st1, out1) := match_char st ch in
            if unquoted st1 then
              match (if decide (ch = NL) then end_of_line st1 else None) with
              | Some (st2, out2) => (st2, out1 ++ out2, 0)
              | None => let '(st2, out2) := at_delimiter st1 in (set_previous (Some ch) st2, out1 ++ out2, 0)
              end
            else (set_previous (Some ch) st1, out1, 0)
        end
  end.

Definition push_chunk_with_control (chunk : str) st : SqlStatementSplitter * list SqlStatementWithControl :=
  let st := match chunk with
            | first :: _ =>
                if pending_mysql_line_comment_dashes st then
                  set_pending false (set_line (dash_dash_starts_line_comment (profile st) (Some first)) st)
                else st
            | [] => st
            end in
  scan push_char 0 st chunk.

Definition push_chunk (chunk : str) st : SqlStatementSplitter * list str :=
  let '(st, out) := push_chunk_with_control chunk st in (st, sql <$> out).

(** The last line of a trimmed text, and the text before its newline. *)
Definition last_line_of (trimmed : str) : str := trim (split_last NL trimmed).2.
Definition before_last_line (trimmed : str) : str := trim (removelast (split_last NL trimmed).1).

(** A client command on the last line. *)
Definition finish_psql st : SqlStatementSplitter :=
  match (if supports_psql_control_commands (profile st)
         then parse_ignorable_psql_control_command (last_line_of (trim (buffer st))) else None) with
  | Some command =>
      let st := if decide (command = OnErrorStop) then set_stop true st else st in
      set_buffer (split_last NL (buffer st)).1 st
  | None => st
  end.

Definition finish_with_control st : list SqlStatementWithControl :=
  let p := profile st in
  let st := if pending_mysql_line_comment_dashes st then set_pending false (set_line true st) else st in
  let st := finish_psql st in
  let trimmed := trim (buffer st) in
  let last_line := last_line_of trimmed in
  if supports_custom_delimiter_commands p && bool_decide (is_Some (parse_delimiter_command last_line)) then
    emit (before_last_line trimmed) st ++ (push_current_statement (set_buffer [] st)).2
  else if supports_slash_line_block_delimiter p && bool_decide (last_line = lit "/") then
    emit (before_last_line trimmed) st ++ (push_current_statement (set_buffer [] st)).2
  else
    match custom_delimiter st with
    | Some delim =>
        if ends_with delim (buffer st) then
          (push_current_statement (set_buffer (take (length (buffer st) - length delim) (buffer st)) st)).2
        else (push_current_statement st).2
    | None => (push_current_statement st).2
    end.

Definition finish st : list str := sql <$> finish_with_control st.

Definition split_sql_statements_with_options (text : str) (p : SqlDialectProfile) : list str :=
  let '(st, out) := push_chunk text (with_options p) in out ++ finish st.
Definition split_sql_statements (text : str) : list str := split_sql_statements_with_options text profile_default.

(** Several chunks, then the end of the input. *)
Fixpoint push_chunks (chunks : list str) st : SqlStatementSplitter * list SqlStatementWithControl :=
  match chunks with
  | [] => (st, [])
  | c :: cs => let '(st1, out1) := push_chunk_with_control c st in
               let '(st2, out2) := push_chunks cs st1 in (st2, out1 ++ out2)
  end.
Definition split_stream (p : SqlDialectProfile) (chunks : list str) : list SqlStatementWithControl :=
  let '(st, out) := push_chunks chunks (with_options p) in out ++ finish_with_control st.
End splitter.

(** ** What the splitter emits *)
Section emitted.
Context `{OracleTokenizer}.
Implicit Types (st : SqlStatementSplitter) (out : list SqlStatementWithControl).

Definition texts out : str := concat (sql <$> out).

Lemma texts_app out1 out2 : texts (out1 ++ out2) = texts out1 ++ texts out2.
Proof. unfold texts. by rewrite fmap_app, concat_app. Qed.

Lemma buffer_push_all s st : buffer (push_all s st) = buffer st ++ s.
Proof.
  revert st. induction s as [|c s IH]; intros st; simpl; [by rewrite app_nil_r|].
  rewrite IH. destruct st; simpl. by rewrite <- app_assoc.
Qed.

Lemma profile_push_all s st : profile (push_all s st) = profile st.
Proof. revert st. induction s as [|c s IH]; intros st; simpl; [done|]. rewrite IH. by destruct st. Qed.

(** A statement worth sending: trimmed, and not only comments. *)
Definition runnable (p : SqlDialectProfile) (x : SqlStatementWithControl) : Prop :=
  trim (sql x) = sql x ∧ has_executable_sql_with_options (sql x) p = true.

(** Text is only ever moved from the input to the buffer and from there to a
    statement, in order. *)
Definition moves st (consumed : str) st' out : Prop :=
  texts out ++ buffer st' `sublist_of` buffer st ++ consumed ∧ profile st' = profile st ∧
  Forall (runnable (profile st)) out.

Lemma emit_text text st : texts (emit text st) `sublist_of` text.
Proof. unfold emit, texts. case_match; simpl; [by rewrite app_nil_r|apply sublist_nil_l]. Qed.

Lemma emit_runnable text st : Forall (runnable (profile st)) (emit (trim text) st).
Proof. unfold emit. destruct (has_executable_sql_with_options _ _) eqn:E; [|done]. repeat constructor; [apply trim_idemp|done]. Qed.

Lemma moves_push ch st : moves st [ch] (push ch st) [].
Proof. by destruct st. Qed.

Lemma moves_current st st' out : push_current_statement st = (st', out) → moves st [] st' out.
Proof.
  unfold push_current_statement. intros [= <- <-]. split_and!; [|by destruct st|apply emit_runnable].
  destruct st; simpl. rewrite !app_nil_r. etrans; [apply emit_text|apply trim_sublist].
Qed.

Lemma moves_trans st1 c1 st2 out1 c2 st3 out2 :
  moves st1 c1 st2 out1 → moves st2 c2 st3 out2 → moves st1 (c1 ++ c2) st3 (out1 ++ out2).
Proof.
  intros (H1 & P1 & F1) (H2 & P2 & F2). split_and!; [|congruence|rewrite P1 in F2; by apply Forall_app].
  rewrite texts_app, <- app_assoc.
  etrans; [apply sublist_app; [reflexivity|exact H2]|]. rewrite !app_assoc. by apply sublist_app.
Qed.

(** Changes of the flags move no text. *)
Lemma moves_flags st c st1 st' out :
  buffer st1 = buffer st → profile st1 = profile st → moves st1 c st' out → moves st c st' out.
Proof. unfold moves. by intros -> ->. Qed.

Lemma moves_semicolon st st' out : on_semicolon st = (st', out) → moves st [chr ";"] st' out.
Proof.
  assert (∀ st', push_current_statement st = (st', out) → moves st [chr ";"] st' out) as Hcur.
  { intros st1 (H1 & P1 & F1)%moves_current. split_and!; [|done|done]. etrans; [exact H1|]. by apply sublist_app, sublist_nil_l. }
  assert (∀ st', push_current_statement (push (chr ";") st) = (st', out) → moves st [chr ";"] st' out) as Hpush.
  { intros st1 Hm%moves_current. by apply (moves_trans _ _ _ _ _ _ _ (moves_push (chr ";") st)) in Hm. }
  unfold on_semicolon. intros E. repeat case_match; eauto; simplify_eq; apply moves_push.
Qed.

Lemma moves_match st ch st' out : match_char st ch = (st', out) → moves st [ch] st' out.
Proof.
  unfold match_char. destruct (bool_decide (ch = chr ";") && unquoted st) eqn:Hsemi.
  - apply andb_true_iff in Hsemi as [->%bool_decide_eq_true _]. by apply moves_semicolon.
  - intros E. repeat case_match; simplify_eq; by destruct st.
Qed.

Lemma cleared_fields st : buffer (cleared st) = [] ∧ profile (cleared st) = profile st.
Proof. by destruct st. Qed.

Lemma moves_end_of_line st st' out : end_of_line st = Some (st', out) → moves st [] st' out.
Proof.
  unfold end_of_line. destruct (split_last NL (removelast (buffer st))) as [before line] eqn:Es.
  assert (before `sublist_of` buffer st) as Hb.
  { etrans; [|apply removelast_sublist]. rewrite <- (split_last_app NL (removelast (buffer st))), Es.
    by apply sublist_inserts_r. }
  assert (trim before `sublist_of` buffer st) as Ht by (etrans; [apply trim_sublist|done]).
  assert (∀ st1, buffer st1 = buffer st → profile st1 = profile st →
            moves st [] (cleared st1) (emit (trim before) st)) as Hclear.
  { intros st1 _ Hp. unfold moves. destruct (cleared_fields st1) as [-> ->]. rewrite !app_nil_r.
    split_and!; [|done|apply emit_runnable]. etrans; [apply emit_text|done]. }
  destruct (if supports_psql_control_commands _ then _ else _) as [command|].
  { intros [= <- <-]. unfold moves. rewrite app_nil_r. case_decide; by destruct st. }
  destruct (_ && bool_decide (trim line = lit "/")); [intros [= <- <-]; by apply Hclear|].
  destruct (if supports_custom_delimiter_commands _ then _ else _) as [delim|]; [|done].
  intros [= <- <-]. destruct before as [|c before].
  - unfold moves. split_and!; [|by destruct st|done].
    rewrite (proj1 (cleared_fields _)). apply sublist_nil_l.
  - apply Hclear; by destruct st.
Qed.

Lemma moves_at_delimiter st st' out : at_delimiter st = (st', out) → moves st [] st' out.
Proof.
  unfold at_delimiter. intros E. repeat case_match; simplify_eq; try (by split_and!; [rewrite app_nil_r|..]).
  apply moves_current in E as (Hm & Hp & Hf). split_and!; [|by rewrite Hp; destruct st|by destruct st].
  etrans; [exact Hm|]. destruct st; simpl. rewrite !app_nil_r. apply sublist_take.
Qed.

Lemma take_while_Forall f s : Forall (λ c, f c = true) (take_while f s).
Proof. induction s as [|c s IH]; simpl; [done|]. destruct (f c) eqn:E; by constructor. Qed.

Lemma dollar_tag_prefix s tag :
  dollar_quote_tag_at s = Some tag → tag `prefix_of` s ∧ tag ≠ [] ∧ NL ∉ tag.
Proof.
  unfold dollar_quote_tag_at. destruct s as [|d [|c r]]; try done.
  destruct (negb (bool_decide (d = chr "$"))) eqn:Hd; [done|].
  apply negb_false_iff, bool_decide_eq_true in Hd as ->.
  destruct (decide (c = chr "$")) as [->|Hc].
  { intros [= <-]. split_and!; [by exists r|done|]. by vm_compute; set_solver. }
  destruct (is_ascii_alphabetic c || bool_decide (c = chr "_")) eqn:Hal; [|done].
  destruct (bool_decide (drop_while is_tag_char r !! 0 = Some (chr "$"))) eqn:Hend; [|done].
  apply bool_decide_eq_true in Hend. intros [= <-].
  pose proof (take_drop_while is_tag_char r) as Hr.
  destruct (drop_while is_tag_char r) as [|e r'] eqn:Er; [done|]. injection Hend as ->.
  split_and!; [|done|].
  - exists r'. rewrite <- Hr at 1. simpl. by rewrite <- app_assoc.
  - rewrite !not_elem_of_cons, not_elem_of_app. split_and!; [done| | |by vm_compute; set_solver].
    + intros <-. done.
    + intros Hin. pose proof (take_while_Forall is_tag_char r) as Hall.
      rewrite Forall_forall in Hall. by apply Hall in Hin.
Qed.

Lemma prefix_is_take {A} (l1 l2 : list A) : l1 `prefix_of` l2 → l1 = take (length l1) l2.
Proof. intros [l ->]. by rewrite take_app_length. Qed.

Lemma moves_open st ch rest st' k :
  open_masked st ch rest = Some (st', k) → moves st (ch :: take k rest) st' [].
Proof.
  unfold open_masked. intros E.
  assert (∀ st1, buffer st1 = buffer st → profile st1 = profile st → moves st [ch] (keep ch st1) []) as Hkeep.
  { intros st1 Hb Hp. apply (moves_flags _ _ _ _ _ Hb Hp). by destruct st1. }
  destruct (if supports_dollar_quoted_strings _ then _ else _) as [tag|] eqn:Etag.
  2:{ repeat case_match; simplify_eq; apply Hkeep; by destruct st. }
  destruct (supports_dollar_quoted_strings (profile st)); [|done].
  apply dollar_tag_prefix in Etag as (Hp%prefix_is_take & Hne & _).
  assert (∀ st1, buffer st1 = buffer st → profile st1 = profile st →
            moves st (ch :: take (length tag - 1) rest) (set_tag (Some tag) (push_all tag st1)) []) as Htag.
  { intros st1 Hb Hpr. unfold moves. destruct tag as [|c tag]; [done|]. simpl in Hp. injection Hp as <- Hr.
    pose proof (buffer_push_all (c :: tag) st1) as Hbuf.
    pose proof (profile_push_all (c :: tag) st1) as Hprof.
    destruct (push_all (c :: tag) st1). simpl in *. rewrite Hbuf, Hprof, Hb, Nat.sub_0_r. by rewrite <- Hr. }
  repeat case_match; simplify_eq; first [apply Hkeep; by destruct st|apply Htag; by destruct st].
Qed.

Lemma moves_tag tag st ch rest :
  starts_with tag (ch :: rest) = true →
  moves st (ch :: take (length tag - 1) rest) (set_tag None (push_all tag st)) [].
Proof.
  intros Hp%starts_with_spec%prefix_is_take. unfold moves.
  pose proof (buffer_push_all tag st) as Hbuf. pose proof (profile_push_all tag st) as Hprof.
  destruct (push_all tag st). simpl in *. rewrite Hbuf, Hprof. split_and!; [|done|done].
  destruct tag as [|c tag]; [apply sublist_app; [done|apply sublist_nil_l]|].
  simpl in *. injection Hp as <- Hr. rewrite Nat.sub_0_r. by rewrite <- Hr.
Qed.

Lemma moves_step st ch rest st' out k :
  push_char st ch rest = (st', out, k) → moves st (ch :: take k rest) st' out.
Proof.
  assert (∀ st1, buffer st1 = buffer st → profile st1 = profile st → moves st [ch] (keep ch st1) []) as Hkeep.
  { intros st1 Hb Hp. apply (moves_flags _ _ _ _ _ Hb Hp). by destruct st1. }
  unfold push_char. destruct (dollar_quote_tag st) as [tag|].
  { case_match eqn:Et; intros [= <- <- <-]; [by apply moves_tag|by apply Hkeep]. }
  destruct (in_line_comment st); [intros [= <- <- <-]; apply Hkeep; case_decide; by destruct st|].
  destruct (in_block_comment st); [intros [= <- <- <-]; apply Hkeep; case_match; by destruct st|].
  destruct (if unquoted st then open_masked st ch rest else None) as [[st1 k1]|] eqn:Eo.
  { destruct (unquoted st); [|done]. intros [= <- <- <-]. by apply moves_open. }
  destruct (match_char st ch) as [st1 out1] eqn:Em. apply moves_match in Em as Hm.
  assert (∀ st2, buffer st2 = buffer st1 → profile st2 = profile st1 → moves st [ch] st2 out1) as Hsame.
  { intros st2 Hb Hp. destruct Hm as (? & ? & ?). split_and!; [by rewrite Hb|congruence|done]. }
  destruct (unquoted st1); [|intros [= <- <- <-]; apply Hsame; by destruct st1].
  destruct (if decide (ch = NL) then end_of_line st1 else None) as [[st2 out2]|] eqn:Ee.
  - destruct (decide (ch = NL)); [|done]. intros [= <- <- <-].
    apply moves_end_of_line in Ee. by apply (moves_trans _ _ _ _ _ _ _ Hm) in Ee.
  - destruct (at_delimiter st1) as [st2 out2] eqn:Ed. intros [= <- <- <-].
    apply moves_at_delimiter in Ed. apply (moves_trans _ _ _ _ _ _ _ Hm) in Ed.
    destruct Ed as (? & ? & ?). split_and!; by destruct st2.
Qed.

Lemma moves_scan s st st' out : scan push_char 0 st s = (st', out) → moves st s st' out.
Proof.
  intros E. apply (scan_rel push_char moves) in E; [by rewrite drop_0 in E|..].
  - intros st0. split_and!; [by rewrite app_nil_r|done..].
  - intros st0 ch rest st1 out1 k st2 out2 Hs%moves_step Hm.
    apply (moves_trans _ _ _ _ _ _ _ Hs) in Hm. simpl in Hm. by rewrite take_drop in Hm.
Qed.

Lemma moves_chunk chunk st st' out : push_chunk_with_control chunk st = (st', out) → moves st chunk st' out.
Proof.
  unfold push_chunk_with_control. intros E%moves_scan. revert E. apply moves_flags; repeat case_match; by destruct st.
Qed.

Lemma moves_chunks chunks st st' out : push_chunks chunks st = (st', out) → moves st (concat chunks) st' out.
Proof.
  revert st st' out. induction chunks as [|c cs IH]; intros st st' out; simpl.
  { intros [= <- <-]. split_and!; [by rewrite app_nil_r|done..]. }
  destruct (push_chunk_with_control c st) as [st1 out1] eqn:E1.
  destruct (push_chunks cs st1) as [st2 out2] eqn:E2. intros [= <- <-].
  apply moves_chunk in E1. eapply moves_trans; [exact E1|by apply IH].
Qed.

(** The end of the input. *)
Lemma finish_moves st :
  texts (finish_with_control st) `sublist_of` buffer st ∧ Forall (runnable (profile st)) (finish_with_control st).
Proof.
  unfold finish_with_control.
  set (st1 := if pending_mysql_line_comment_dashes st then _ else st).
  assert (buffer st1 = buffer st ∧ profile st1 = profile st) as [Hb1 Hp1]
    by (unfold st1; case_match; by destruct st).
  assert (buffer (finish_psql st1) `sublist_of` buffer st ∧ profile (finish_psql st1) = profile st) as [Hb2 Hp2].
  { unfold finish_psql. destruct (if supports_psql_control_commands _ then _ else _) as [command|];
      [|by rewrite Hb1, Hp1].
    split; [|case_decide; rewrite <- Hp1; by destruct st1].
    rewrite <- Hb1. transitivity (split_last NL (buffer st1)).1; [case_decide; by destruct st1|].
    rewrite <- (split_last_app NL (buffer st1)) at 2. by apply sublist_inserts_r. }
  set (st2 := finish_psql st1) in *. clearbody st2. rewrite <- Hp2.
  assert (∀ b, b `sublist_of` buffer st2 →
    texts (push_current_statement (set_buffer b st2)).2 `sublist_of` buffer st ∧
    Forall (runnable (profile st2)) (push_current_statement (set_buffer b st2)).2) as Hcur.
  { intros b Hb. destruct (push_current_statement (set_buffer b st2)) as [st3 out] eqn:E.
    apply moves_current in E as (Hm & _ & Hf). simpl. split; [|by destruct st2].
    etrans; [by apply sublist_inserts_r|]. etrans; [exact Hm|]. rewrite app_nil_r.
    etrans; [|exact Hb2]. by destruct st2. }
  assert (texts (emit (before_last_line (trim (buffer st2))) st2 ++ (push_current_statement (set_buffer [] st2)).2)
            `sublist_of` buffer st ∧
          Forall (runnable (profile st2)) (emit (before_last_line (trim (buffer st2))) st2 ++
            (push_current_statement (set_buffer [] st2)).2)) as Hbefore.
  { assert ((push_current_statement (set_buffer [] st2)).2 = []) as ->.
    { by destruct st2. }
    rewrite app_nil_r. unfold before_last_line. split; [|apply emit_runnable].
    etrans; [apply emit_text|]. etrans; [apply trim_sublist|]. etrans; [apply removelast_sublist|].
    etrans; [|exact Hb2]. etrans; [|apply (trim_sublist (buffer st2))].
    rewrite <- (split_last_app NL (trim (buffer st2))) at 2. by apply sublist_inserts_r. }
  pose proof (Hcur (buffer st2) ltac:(reflexivity)) as Hid.
  replace (set_buffer (buffer st2) st2) with st2 in Hid by by destruct st2.
  repeat case_match; try done; apply Hcur, sublist_take.
Qed.

(** However a text is cut into chunks, the statements the splitter emits, one after another,
    are a subsequence of the text: no character is added, repeated or moved. *)
Theorem split_invents_nothing p chunks : texts (split_stream p chunks) `sublist_of` concat chunks.
Proof.
  unfold split_stream. destruct (push_chunks chunks (with_options p)) as [st out] eqn:E.
  apply moves_chunks in E as (Hm & _). simpl in Hm. destruct (finish_moves st) as [Hf _].
  rewrite texts_app. etrans; [|exact Hm]. by apply sublist_app.
Qed.

(** Every emitted statement is trimmed and has something outside comments, so nothing empty is
    sent to the database. *)
Theorem split_emits_runnable_statements p chunks : Forall (runnable p) (split_stream p chunks).
Proof.
  unfold split_stream. destruct (push_chunks chunks (with_options p)) as [st out] eqn:E.
  apply moves_chunks in E as (_ & Hp & Hf). simpl in Hp, Hf. apply Forall_app. split; [done|].
  rewrite <- Hp. apply finish_moves.
Qed.
End emitted.

(** ** Chunks that end at a line end *)
Section lines.
Context `{OracleTokenizer}.
Implicit Types (st : SqlStatementSplitter) (b s : str).

Definition ends_line s : Prop := last s = Some NL.

Lemma ends_line_in s : ends_line s → NL ∈ s.
Proof. unfold ends_line. intros Hl. by apply last_Some_elem_of in Hl. Qed.

Lemma prefix_line t s b : NL ∉ t → ends_line s → t `prefix_of` s ++ b ↔ t `prefix_of` s.
Proof.
  intros Hni Hl. split; [|intros Hp; by apply prefix_app_r].
  intros Hp. destruct (prefix_weak_total t s (s ++ b)) as [?|[k ->]]; [done|by apply prefix_app_r|done|].
  destruct Hni. apply elem_of_app. left. by apply ends_line_in.
Qed.

Lemma while_stop f s b :
  Exists (λ c, f c = false) s →
  take_while f (s ++ b) = take_while f s ∧ drop_while f (s ++ b) = drop_while f s ++ b ∧ drop_while f s ≠ [].
Proof.
  induction 1 as [c s Hc|c s _ (IH1 & IH2 & IH3)]; simpl; [by rewrite Hc|].
  destruct (f c); [|done]. by rewrite IH1, IH2.
Qed.

Lemma dollar_tag_line s b : ends_line s → dollar_quote_tag_at (s ++ b) = dollar_quote_tag_at s.
Proof.
  intros Hl. destruct s as [|d [|c r]]; [done|..].
  { injection Hl as ->. by destruct b. }
  unfold dollar_quote_tag_at. rewrite <- !app_comm_cons.
  destruct (negb (bool_decide (d = chr "$"))); [done|]. destruct (decide (c = chr "$")); [done|].
  destruct r as [|e r]; [injection Hl as ->; by destruct b|].
  destruct (while_stop is_tag_char (e :: r) b) as (-> & -> & Hne).
  { apply Exists_exists. exists NL. split; [|done]. by apply ends_line_in. }
  by destruct (drop_while is_tag_char (e :: r)).
Qed.

(** Dollar tags hold no newline, and no [--] waits for its next character. *)
Definition line_inv st : Prop :=
  pending_mysql_line_comment_dashes st = false ∧
  ∀ tag, dollar_quote_tag st = Some tag → tag ≠ [] ∧ NL ∉ tag.

Lemma push_all_modes s st :
  dollar_quote_tag (push_all s st) = dollar_quote_tag st ∧
  pending_mysql_line_comment_dashes (push_all s st) = pending_mysql_line_comment_dashes st.
Proof. revert st. induction s as [|c s IH]; intros st; simpl; [done|]. destruct (IH (keep c st)) as [-> ->]. by destruct st. Qed.

Lemma match_char_inv st ch : line_inv st → line_inv (match_char st ch).1.
Proof.
  assert (∀ c st, line_inv st → line_inv (push c st)) as Hp by by intros c [].
  assert (∀ st, line_inv st → line_inv (push_current_statement st).1) as Hcur
    by (intros [] [_ Ht]; split; [done|exact Ht]).
  intros Hi. unfold match_char, on_semicolon.
  repeat case_match; first [by apply Hcur|by apply Hcur, Hp|by apply Hp|apply Hp; by destruct st].
Qed.

Lemma end_of_line_inv st st' out : end_of_line st = Some (st', out) → line_inv st → line_inv st'.
Proof.
  unfold end_of_line. destruct (split_last NL (removelast (buffer st))) as [before line].
  intros E Hi. repeat case_match; simplify_eq; by destruct st.
Qed.

Lemma at_delimiter_inv st : line_inv st → line_inv (at_delimiter st).1.
Proof.
  intros [Hp Ht]. unfold at_delimiter. repeat case_match; [|done..]. split; by destruct st.
Qed.

Lemma open_masked_line st ch rest b :
  ends_line (ch :: rest) → open_masked st ch (rest ++ b) = open_masked st ch rest.
Proof.
  intros Hl. unfold open_masked. rewrite app_comm_cons, dollar_tag_line by done.
  destruct rest as [|c rest]; simpl; [injection Hl as ->|done].
  rewrite (bool_decide_eq_false_2 (NL = chr "-")) by done.
  unfold at2. rewrite (bool_decide_eq_false_2 (NL = chr "/")) by done.
  by rewrite !andb_false_r.
Qed.

Lemma open_masked_inv st ch rest st' k :
  ends_line (ch :: rest) → line_inv st → open_masked st ch rest = Some (st', k) →
  line_inv st' ∧ k ≤ length rest.
Proof.
  intros Hl Hi E.
  assert (∀ st1, line_inv st1 → line_inv (keep ch st1)) as Hkeep by by intros [].
  unfold open_masked in E.
  destruct (_ && _ && bool_decide (rest = [])) eqn:Epend.
  { apply andb_true_iff in Epend as [Epend ->%bool_decide_eq_true].
    injection Hl as ->. rewrite (bool_decide_eq_false_2 (NL = chr "-")) in Epend by done.
    by rewrite andb_false_r in Epend. }
  destruct (if supports_dollar_quoted_strings _ then _ else _) as [tag|] eqn:Etag.
  2:{ repeat case_match; simplify_eq; (split; [apply Hkeep; by destruct st|lia]). }
  destruct (supports_dollar_quoted_strings (profile st)); [|done].
  apply dollar_tag_prefix in Etag as (Hp & Hne & Hni). apply prefix_length in Hp. simpl in Hp.
  assert (∀ st1, line_inv st1 → line_inv (set_tag (Some tag) (push_all tag st1))) as Htag.
  { intros st1 [Hpd _]. destruct (push_all_modes tag st1) as [_ Hq]. rewrite Hpd in Hq.
    split; destruct (push_all tag st1); simpl in *; [done|]. by intros t [= <-]. }
  repeat case_match; simplify_eq;
    (split; [first [apply Hkeep; by destruct st|apply Htag; by destruct st]|lia]).
Qed.

Lemma push_char_line st ch rest b st1 out k :
  line_inv st → ends_line (ch :: rest) → push_char st ch rest = (st1, out, k) →
  push_char st ch (rest ++ b) = (st1, out, k) ∧ k ≤ length rest ∧ line_inv st1.
Proof.
  intros Hi Hl. assert (∀ st1, line_inv st1 → line_inv (keep ch st1)) as Hkeep by by intros [].
  unfold push_char. destruct (dollar_quote_tag st) as [tag|] eqn:Et.
  { destruct Hi as [Hpd Htag]. destruct (Htag tag Et) as [Hne Hni].
    assert (starts_with tag (ch :: rest ++ b) = starts_with tag (ch :: rest)) as ->.
    { apply eq_true_iff_eq. rewrite !starts_with_spec, app_comm_cons. by apply prefix_line. }
    destruct (starts_with tag (ch :: rest)) eqn:Es; intros [= <- <- <-].
    - apply starts_with_spec, prefix_length in Es. simpl in Es. split_and!; [done|lia|].
      destruct (push_all_modes tag st) as [_ Hq]. rewrite Hpd in Hq. by destruct (push_all tag st).
    - split_and!; [done|lia|by apply Hkeep]. }
  destruct (in_line_comment st).
  { intros [= <- <- <-]. split_and!; [done|lia|apply Hkeep; case_decide; by destruct st]. }
  destruct (in_block_comment st).
  { intros [= <- <- <-]. split_and!; [done|lia|apply Hkeep; case_match; by destruct st]. }
  rewrite open_masked_line by done.
  destruct (if unquoted st then open_masked st ch rest else None) as [[st2 k2]|] eqn:Eo.
  { destruct (unquoted st); [|done]. intros [= <- <- <-].
    destruct (open_masked_inv _ _ _ _ _ Hl Hi Eo). done. }
  intros E. split; [done|]. revert E.
  pose proof (match_char_inv st ch Hi) as Hm. destruct (match_char st ch) as [st2 out2]. simpl in Hm.
  assert (∀ pv st, line_inv st → line_inv (set_previous pv st)) as Hprev by by intros pv [].
  destruct (unquoted st2); [|intros [= <- <- <-]; split; [lia|auto]].
  destruct (if decide (ch = NL) then end_of_line st2 else None) as [[st3 out3]|] eqn:Ee.
  - destruct (decide (ch = NL)); [|done]. intros [= <- <- <-]. split; [lia|by eapply end_of_line_inv].
  - pose proof (at_delimiter_inv st2 Hm) as Hd. destruct (at_delimiter st2) as [st3 out3].
    intros [= <- <- <-]. split; [lia|by apply Hprev].
Qed.

Lemma push_line_aligned a b st :
  line_inv st → ends_line a →
  push_chunk_with_control (a ++ b) st =
    (let '(st1, out1) := push_chunk_with_control a st in
     let '(st2, out2) := push_chunk_with_control b st1 in (st2, out1 ++ out2)) ∧
  line_inv (push_chunk_with_control a st).1.
Proof.
  intros Hi Hl. assert (a ≠ []) as Hne by by intros ->.
  assert (∀ c, push_chunk_with_control c st = scan push_char 0 st c) as Hst.
  { intros c. unfold push_chunk_with_control. destruct Hi as [Hp _]. rewrite Hp. by destruct c. }
  rewrite !Hst. destruct (scan push_char 0 st a) as [st1 out1] eqn:E1.
  destruct (scan_app push_char line_inv ends_line b) with (a := a) (skip := 0) (st := st) (st1 := st1) (out := out1)
    as [Hi1 ->]; try done.
  - intros ch rest Hch Hr. unfold ends_line in *. by destruct rest.
  - intros. by apply push_char_line.
  - lia.
  - split; [|done]. unfold push_chunk_with_control. destruct Hi1 as [Hp _]. rewrite Hp. by destruct b.
Qed.

Lemma push_lines_concat chunks b st :
  line_inv st → Forall ends_line chunks →
  push_chunks (chunks ++ [b]) st = push_chunk_with_control (concat chunks ++ b) st.
Proof.
  intros Hi Hf. revert st Hi. induction Hf as [|a chunks Ha _ IH]; intros st Hi; simpl.
  { destruct (push_chunk_with_control b st). by rewrite app_nil_r. }
  rewrite <- app_assoc. destruct (push_line_aligned a (concat chunks ++ b) st Hi Ha) as [-> Hi1].
  destruct (push_chunk_with_control a st) as [st1 out1]. by rewrite IH.
Qed.

(** Feeding a file in chunks that end at line breaks, the last one excepted, yields the
    statements of the whole text fed at once, in every dialect. *)
Theorem line_aligned_chunks_split_like_the_whole p chunks b :
  Forall ends_line chunks → split_stream p (chunks ++ [b]) = split_stream p [concat chunks ++ b].
Proof.
  intros Hf. unfold split_stream. rewrite push_lines_concat by done. simpl.
  destruct (push_chunk_with_control _ _). by rewrite app_nil_r.
Qed.
End lines.

(** ** Statements are split exactly at their terminators

    The statements of a script as sequences of pieces of text, for the
    dialects with the default profile. *)
Inductive piece :=
| Plain (s : str)
| Quoted (q : char) (body : str)
| DollarQuoted (tag body : str)
| LineComment (body : str)
| BlockComment (body : str).

Definition render (x : piece) : str :=
  match x with
  | Plain s => s
  | Quoted q body => [q] ++ body ++ [q]
  | DollarQuoted tag body => tag ++ body ++ tag
  | LineComment body => lit "--" ++ body ++ [NL]
  | BlockComment body => lit "/*" ++ body ++ lit "*/"
  end.

Definition plain_char (c : char) : bool := negb (bool_decide (c ∈ [SQUOTE; DQUOTE; BACKTICK; chr ";"])).

(** A dollar sign before [r] opens no dollar quote, whatever comes after [r]. *)
Definition no_tag_before (r : str) : bool :=
  match r with
  | [] => false
  | c :: r' => negb (bool_decide (c = chr "$")) &&
               if is_ascii_alphabetic c || bool_decide (c = chr "_")
               then match drop_while is_tag_char r' with x :: _ => negb (bool_decide (x = chr "$")) | [] => false end
               else true
  end.

(** No comment opens between a character and the next. *)
Definition apart (p c : option char) : bool :=
  negb (bool_decide (p = Some (chr "-")) && bool_decide (c = Some (chr "-"))) &&
  negb (bool_decide (p = Some (chr "/")) && bool_decide (c = Some (chr "*"))).

(** No quote, comment or dollar quote opens in the text. *)
Fixpoint plain (s : str) : bool :=
  match s with
  | [] => true
  | c :: r => plain_char c && apart (Some c) (head r) && (negb (bool_decide (c = chr "$")) || no_tag_before r) && plain r
  end.

Definition is_quote (q : char) : bool := bool_decide (q ∈ [SQUOTE; DQUOTE; BACKTICK]).

(** The text of a string without its quotes: a backslash escapes the next
    character, except between backticks. *)
Fixpoint string_body (q : char) (escaped : bool) (s : str) : bool :=
  match s with
  | [] => negb escaped
  | c :: r => if escaped then string_body q false r
              else if bool_decide (c = BACKSLASH) && negb (bool_decide (q = BACKTICK)) then string_body q true r
              else negb (bool_decide (c = q)) && string_body q false r
  end.

Definition piece_ok (x : piece) : bool :=
  match x with
  | Plain s => negb (bool_decide (s = [])) && plain s && negb (bool_decide (last s = Some BACKSLASH))
  | Quoted q body => is_quote q && string_body q false body
  | DollarQuoted tag body =>
      bool_decide (dollar_quote_tag_at tag = Some tag) && bool_decide (split_once tag (body ++ tag) = Some (body, []))
  | LineComment body => bool_decide (NL ∉ body)
  | BlockComment body =>
      bool_decide (split_once (lit "*/") (chr "*" :: body ++ lit "*/") = Some (chr "*" :: body, []))
  end.

(** No comment opens between two pieces. *)
Fixpoint pieces_apart (p : option char) (x : list piece) : bool :=
  match x with
  | [] => true
  | y :: r => apart p (head (render y)) && pieces_apart (last (render y)) r
  end.

Definition render_all (x : list piece) : str := concat (render <$> x).

(** No line of the text so far looks like a [DELIMITER] command. *)
Definition no_delimiter_line (t : str) : bool :=
  forallb (λ k, negb (on_delimiter_line_of (take k t))) (seq 0 (S (length t))).

Definition statement_ok (x : list piece) : bool := forallb piece_ok x && pieces_apart None x && no_delimiter_line (render_all x).

Section exact.
Context `{OracleTokenizer}.
Implicit Types (B s t tail : str) (pv : option char).

(** The splitter outside quotes and comments. *)
Definition outside B pv : SqlStatementSplitter :=
  mkSplitter B false false false false false None false pv false None false profile_default.

Lemma scan_silent {S A} (step : S → char → str → S * list A * nat) st ch rest st1 k :
  step st ch rest = (st1, [], k) → scan step 0 st (ch :: rest) = scan step k st1 rest.
Proof. intros E. simpl. rewrite E. by destruct (scan step k st1 rest). Qed.

Lemma parse_delimiter_line B cmd :
  parse_delimiter_command (trim (split_last NL B).2) = Some cmd → on_delimiter_line_of B = true.
Proof.
  unfold parse_delimiter_command, on_delimiter_line_of. set (line := (split_last NL B).2).
  assert (trim line `prefix_of` trim_start line) as [r Hr].
  { unfold trim, trim_end. destruct (drop_while_suffix is_whitespace (reverse (trim_start line))) as [l Hl].
    exists (reverse l). rewrite <- reverse_app, <- Hl. by rewrite reverse_involutive. }
  case_match eqn:E; [|done]. intros _. apply andb_true_iff in E as [Hlen%bool_decide_eq_true E].
  assert (take 9 (trim_start line) = take 9 (take 10 (trim line))) as ->.
  { rewrite Hr, take_app_le by lia. rewrite take_take. f_equal. }
  unfold eq_ignore_ascii_case, to_ascii_lowercase in *.
  apply bool_decide_eq_true. rewrite fmap_take.
  apply orb_true_iff in E as [->%bool_decide_eq_true| ->%bool_decide_eq_true]; done.
Qed.

Lemma plain_char_spec c : plain_char c = true → c ≠ SQUOTE ∧ c ≠ DQUOTE ∧ c ≠ BACKTICK ∧ c ≠ chr ";".
Proof. unfold plain_char. rewrite negb_true_iff, bool_decide_eq_false. set_solver. Qed.
Lemma apart_spec p c :
  apart p c = true ↔ (p = Some (chr "-") → c ≠ Some (chr "-")) ∧ (p = Some (chr "/") → c ≠ Some (chr "*")).
Proof.
  unfold apart. rewrite andb_true_iff, !negb_true_iff, !andb_false_iff, !bool_decide_eq_false.
  destruct (decide (p = Some (chr "-"))), (decide (p = Some (chr "/"))); naive_solver.
Qed.

Lemma no_tag ch rest : ch ≠ chr "$" → dollar_quote_tag_at (ch :: rest) = None.
Proof.
  intros Hne. unfold dollar_quote_tag_at. destruct rest; [done|].
  by rewrite bool_decide_eq_false_2.
Qed.
Lemma drop_while_head f s x r : drop_while f s = x :: r → f x = false.
Proof. induction s as [|c s IH]; [done|]. cbn [drop_while]. destruct (f c) eqn:E; [done|]. by intros [= <- _]. Qed.
Lemma no_tag_before_spec r tail : no_tag_before r = true → dollar_quote_tag_at (chr "$" :: r ++ tail) = None.
Proof.
  destruct r as [|c r]; [done|]. unfold no_tag_before, dollar_quote_tag_at. rewrite <- app_comm_cons.
  rewrite andb_true_iff, negb_true_iff, bool_decide_eq_false. intros [Hc Ht]. rewrite bool_decide_eq_true_2, decide_False by done. cbn [negb].
  destruct (is_ascii_alphabetic c || bool_decide (c = chr "_")); [|done].
  destruct (drop_while is_tag_char r) as [|x r'] eqn:E; [done|]. apply negb_true_iff, bool_decide_eq_false in Ht.
  destruct (while_stop is_tag_char r tail) as (-> & -> & Hne).
  { apply Exists_exists. exists x. split; [rewrite <- (take_drop_while is_tag_char r), E; set_solver|].
    by eapply drop_while_head. }
  rewrite E. cbn -[chr]. by rewrite bool_decide_eq_false_2 by congruence.
Qed.

(** Nothing opens before a character that is not part of an opening. *)
Lemma open_none B pv ch rest :
  dollar_quote_tag_at (ch :: rest) = None → apart pv (Some ch) = true → apart (Some ch) (head rest) = true →
  open_masked (outside B pv) ch rest = None.
Proof.
  intros H1 [H2 H3]%apart_spec [_ H4]%apart_spec. unfold open_masked, outside; cbn -[dollar_quote_tag_at chr at2]. rewrite H1.
  assert (bool_decide (pv = Some (chr "-")) && bool_decide (ch = chr "-") = false) as ->
    by (apply andb_false_iff; rewrite !bool_decide_eq_false; destruct (decide (ch = chr "-")); naive_solver).
  assert (bool_decide (pv = Some (chr "/")) && bool_decide (ch = chr "*") = false) as ->
    by (apply andb_false_iff; rewrite !bool_decide_eq_false; destruct (decide (ch = chr "*")); naive_solver).
  assert (at2 (chr "/") (chr "*") ch rest = false) as ->.
  { unfold at2. apply andb_false_iff. rewrite !bool_decide_eq_false. destruct (decide (ch = chr "/")); naive_solver. }
  done.
Qed.

Lemma end_of_line_none B pv : on_delimiter_line_of B = false → end_of_line (outside (B ++ [NL]) pv) = None.
Proof.
  intros Hd. unfold end_of_line, outside; cbn -[split_last parse_delimiter_command].
  rewrite removelast_last. destruct (split_last NL B) as [before line] eqn:Es.
  destruct (parse_delimiter_command (trim line)) as [cmd|] eqn:E; [|done].
  assert (on_delimiter_line_of B = true); [|congruence]. apply (parse_delimiter_line B cmd). by rewrite Es.
Qed.

Lemma plain_step B pv ch rest :
  plain_char ch = true → dollar_quote_tag_at (ch :: rest) = None → apart pv (Some ch) = true →
  open_masked (outside B pv) ch rest = None → on_delimiter_line_of B = false →
  push_char (outside B pv) ch rest = (outside (B ++ [ch]) (Some ch), [], 0).
Proof.
  intros (Hq & Hdq & Hb & Hs)%plain_char_spec H1 H2 Hopen Hd.
  unfold push_char. change (dollar_quote_tag (outside B pv)) with (@None str). cbv iota.
  change (in_line_comment (outside B pv)) with false. change (in_block_comment (outside B pv)) with false.
  change (unquoted (outside B pv)) with true. cbv iota. rewrite Hopen.
  assert (match_char (outside B pv) ch = (outside (B ++ [ch]) pv, [])) as ->.
  { unfold match_char. by rewrite !bool_decide_eq_false_2. }
  change (unquoted (outside (B ++ [ch]) pv)) with true. cbv iota.
  destruct (decide (ch = NL)) as [->|]; [rewrite end_of_line_none by done|]; done.
Qed.

Lemma no_delimiter_prefix t k : no_delimiter_line t = true → on_delimiter_line_of (take k t) = false.
Proof.
  unfold no_delimiter_line. rewrite forallb_forall. intros Hall.
  destruct (decide (k ≤ length t)) as [Hk|Hk].
  - apply negb_true_iff, Hall, in_seq. lia.
  - rewrite take_ge by lia. rewrite <- (take_ge t (length t)) by lia. apply negb_true_iff, Hall, in_seq. lia.
Qed.

(** Text that goes to the buffer and emits nothing. *)
Definition absorbed B pv t : Prop :=
  ∀ tail, apart (last t) (head tail) = true →
    scan push_char 0 (outside B pv) (t ++ tail) = scan push_char 0 (outside (B ++ t) (last t)) tail.

(** No prefix of [t] put after [B] ends in a delimiter line. *)
Definition quiet B t : Prop := ∀ k, on_delimiter_line_of (B ++ take k t) = false.

Lemma quiet_cons B c t : quiet B (c :: t) → on_delimiter_line_of B = false ∧ quiet (B ++ [c]) t.
Proof.
  intros Hq. split; [by rewrite <- (app_nil_r B); apply (Hq 0)|].
  intros k. rewrite <- app_assoc. apply (Hq (S k)).
Qed.

Lemma absorb_plain s B pv :
  s ≠ [] → plain s = true → apart pv (head s) = true → quiet B s → absorbed B pv s.
Proof.
  revert B pv. induction s as [|c s IH]; intros B pv Hne Hp Hpv Hq tail Ht; [done|]. apply quiet_cons in Hq as [HB Hq].
  cbn [plain] in Hp. rewrite !andb_true_iff in Hp. destruct Hp as [[[Hc Hn] Htag] Hp].
  assert (dollar_quote_tag_at (c :: s ++ tail) = None) as Hno.
  { destruct (decide (c = chr "$")) as [-> |]; [|by apply no_tag]. apply no_tag_before_spec. by rewrite bool_decide_eq_true_2 in Htag. }
  assert (apart (Some c) (head (s ++ tail)) = true) as Hnext by (by destruct s).
  rewrite <- app_comm_cons.
  rewrite (scan_silent _ _ _ _ _ _ (plain_step B pv c _ Hc Hno Hpv (open_none B pv c _ Hno Hpv Hnext) HB)).
  destruct s as [|c2 s]; [done|].
  rewrite (IH (B ++ [c]) (Some c) ltac:(done) Hp Hn Hq tail Ht). by rewrite <- app_assoc.
Qed.

(** *** Quoted text *)
Definition inside (q : char) B pv : SqlStatementSplitter :=
  mkSplitter B (bool_decide (q = SQUOTE)) (bool_decide (q = DQUOTE)) (bool_decide (q = BACKTICK))
    false false None false pv false None false profile_default.

Lemma odd_backslashes_last B : last B ≠ Some BACKSLASH → has_odd_trailing_backslashes B = false.
Proof.
  intros Hl. unfold has_odd_trailing_backslashes. destruct B as [|c B _] using rev_ind; [done|].
  rewrite last_snoc in Hl. rewrite reverse_snoc. cbn -[BACKSLASH]. by rewrite bool_decide_eq_false_2 by congruence.
Qed.

Lemma odd_snoc B c : has_odd_trailing_backslashes (B ++ [c]) = bool_decide (c = BACKSLASH) && negb (has_odd_trailing_backslashes B).
Proof.
  unfold has_odd_trailing_backslashes. rewrite reverse_snoc. cbn [take_while]. destruct (bool_decide (c = BACKSLASH)); [|done].
  cbn [length]. by rewrite Nat.odd_succ, <- Nat.negb_odd.
Qed.
Lemma quotes_are_apart q pv rest : is_quote q = true →
  dollar_quote_tag_at (q :: rest) = None ∧ apart pv (Some q) = true ∧ apart (Some q) (head rest) = true.
Proof.
  unfold is_quote. rewrite bool_decide_eq_true, !elem_of_cons, elem_of_nil. intros Hq.
  split_and!; [apply no_tag|apply apart_spec|apply apart_spec]; destruct Hq as [->|[->|[->|[]]]]; done.
Qed.

Lemma quote_step_open q B pv rest :
  is_quote q = true → has_odd_trailing_backslashes B = false →
  push_char (outside B pv) q rest = (inside q (B ++ [q]) (Some q), [], 0).
Proof.
  intros Hq HB. destruct (quotes_are_apart q pv rest Hq) as (H1 & H2 & H3).
  unfold is_quote in Hq. rewrite bool_decide_eq_true, !elem_of_cons, elem_of_nil in Hq.
  unfold push_char. change (dollar_quote_tag (outside B pv)) with (@None str). cbv iota.
  change (in_line_comment (outside B pv)) with false. change (in_block_comment (outside B pv)) with false.
  change (unquoted (outside B pv)) with true. cbv iota. rewrite open_none by done.
  unfold match_char. change (buffer (outside B pv)) with B. rewrite HB.
  destruct Hq as [->|[->|[->|[]]]]; reflexivity.
Qed.

(** Inside a string a character that is not its quote, or is escaped, is kept. *)
Lemma quote_step_body q B pv c rest :
  is_quote q = true → c ≠ q ∨ q ≠ BACKTICK ∧ has_odd_trailing_backslashes B = true →
  push_char (inside q B pv) c rest = (inside q (B ++ [c]) (Some c), [], 0).
Proof.
  unfold is_quote. rewrite bool_decide_eq_true, !elem_of_cons, elem_of_nil. intros Hq Hc.
  unfold push_char, match_char, unquoted, inside.
  destruct (decide (c = q)) as [-> | Hne]; [destruct Hc as [|[Hbt HB]]; [done|]|];
    destruct Hq as [->|[->|[->|[]]]]; try done; cbn -[SQUOTE DQUOTE BACKTICK chr has_odd_trailing_backslashes bool_decide];
    rewrite ?HB, ?(bool_decide_eq_false_2 _ Hne), ?andb_false_r; reflexivity.
Qed.

Lemma quote_step_close q B pv rest :
  is_quote q = true → q = BACKTICK ∨ has_odd_trailing_backslashes B = false →
  push_char (inside q B pv) q rest = (outside (B ++ [q]) (Some q), [], 0).
Proof.
  unfold is_quote. rewrite bool_decide_eq_true, !elem_of_cons, elem_of_nil. intros Hq HB.
  unfold push_char, match_char. destruct Hq as [->|[->|[->|[]]]]; cbn -[has_odd_trailing_backslashes];
    destruct HB as [|HB]; rewrite ?HB; done.
Qed.

(** [escaped] says whether the buffer ends in a backslash that escapes. *)
Lemma scan_quote_body q body escaped B pv tail :
  is_quote q = true → string_body q escaped body = true → (escaped = true → q ≠ BACKTICK) →
  q = BACKTICK ∨ has_odd_trailing_backslashes B = escaped →
  ∃ pv', scan push_char 0 (inside q B pv) (body ++ tail) = scan push_char 0 (inside q (B ++ body) pv') tail ∧
         (q = BACKTICK ∨ has_odd_trailing_backslashes (B ++ body) = false).
Proof.
  intros Hq. revert escaped B pv. induction body as [|c body IH]; intros escaped B pv; cbn [string_body].
  { rewrite negb_true_iff. intros -> _ HB. exists pv. by rewrite app_nil_r. }
  intros Hb He HB.
  assert (c ≠ q ∨ q ≠ BACKTICK ∧ has_odd_trailing_backslashes B = true) as Hkeep.
  { destruct escaped; [right; split; [auto|]; destruct HB; [naive_solver|done]|]. left.
    destruct (bool_decide (c = BACKSLASH) && negb _) eqn:E.
    - apply andb_true_iff in E as [-> %bool_decide_eq_true _]. intros <-. by unfold is_quote in Hq.
    - apply andb_true_iff in Hb as [Hne _]. by apply negb_true_iff, bool_decide_eq_false in Hne. }
  rewrite <- app_comm_cons. rewrite (scan_silent _ _ _ _ _ _ (quote_step_body q B pv c _ Hq Hkeep)).
  assert (∃ escaped', string_body q escaped' body = true ∧ (escaped' = true → q ≠ BACKTICK) ∧
            (q = BACKTICK ∨ has_odd_trailing_backslashes (B ++ [c]) = escaped')) as (escaped' & Hb' & He' & HB').
  { rewrite odd_snoc. destruct escaped.
    - exists false. split_and!; [done..|]. destruct HB as [-> | ->]; [by left|]. right. by rewrite andb_false_r.
    - destruct (decide (q = BACKTICK)) as [Hqb|Hqb].
      { exists false. rewrite (bool_decide_eq_true_2 _ Hqb), andb_false_r, andb_true_iff in Hb. naive_solver. }
      rewrite (bool_decide_eq_false_2 _ Hqb), andb_true_r in Hb. destruct HB as [|HB]; [done|]. rewrite HB, andb_true_r.
      destruct (bool_decide (c = BACKSLASH)); [exists true; auto|]. apply andb_true_iff in Hb as [_ Hb]. exists false. auto. }
  destruct (IH escaped' (B ++ [c]) (Some c) Hb' He' HB') as (pv' & -> & Hodd). exists pv'. rewrite <- !app_assoc in *. done.
Qed.

Lemma absorb_quoted q body B pv :
  is_quote q = true → string_body q false body = true → has_odd_trailing_backslashes B = false → absorbed B pv ([q] ++ body ++ [q]).
Proof.
  intros Hq Hbody HB tail _. rewrite <- !app_assoc. simpl ([q] ++ _).
  rewrite (scan_silent _ _ _ _ _ _ (quote_step_open q B pv _ Hq HB)).
  destruct (scan_quote_body q body false (B ++ [q]) (Some q) (q :: tail) Hq Hbody ltac:(done)) as (pv' & -> & Hodd).
  { right. rewrite odd_snoc, bool_decide_eq_false_2; [done|]. intros ->. by unfold is_quote in Hq. }
  rewrite (scan_silent _ _ _ _ _ _ (quote_step_close q _ pv' _ Hq Hodd)). by rewrite app_comm_cons, last_snoc, <- !app_assoc.
Qed.

(** *** Comments *)
Definition in_line B pv : SqlStatementSplitter :=
  mkSplitter B false false false true false None false pv false None false profile_default.
Definition in_block B pv : SqlStatementSplitter :=
  mkSplitter B false false false false true None false pv false None false profile_default.

Lemma scan_line_body body B pv tail :
  NL ∉ body →
  scan push_char 0 (in_line B pv) (body ++ NL :: tail) = scan push_char 0 (outside (B ++ body ++ [NL]) (Some NL)) tail.
Proof.
  revert B pv. induction body as [|c body IH]; intros B pv.
  { intros _. cbn [app]. by rewrite (scan_silent _ _ _ _ (outside (B ++ [NL]) (Some NL)) 0). }
  rewrite not_elem_of_cons. intros [Hc Hni]. rewrite <- app_comm_cons.
  rewrite (scan_silent _ _ _ _ (in_line (B ++ [c]) (Some c)) 0).
  - rewrite IH by done. by rewrite <- app_assoc.
  - unfold push_char, in_line; cbn -[NL]. by rewrite decide_False by congruence.
Qed.

Lemma absorb_line body B pv :
  NL ∉ body → pv ≠ Some (chr "-") → on_delimiter_line_of B = false → absorbed B pv (lit "--" ++ body ++ [NL]).
Proof.
  intros Hni Hpv Hd tail _. rewrite (app_assoc (lit "--")), last_snoc, <- !app_assoc.
  change (lit "--") with ([chr "-"; chr "-"]). rewrite <- !app_comm_cons.
  assert (apart pv (Some (chr "-")) = true) as Ha by (apply apart_spec; naive_solver). assert (chr "-" ≠ chr "$") as Hne by done.
  assert (∀ rest, open_masked (outside B pv) (chr "-") rest = None) as Hopen.
  { intros rest. unfold open_masked, outside; cbn -[chr dollar_quote_tag_at]. by rewrite no_tag, (bool_decide_eq_false_2 (pv = _)), ?andb_false_r by done. }
  rewrite (scan_silent _ _ _ _ _ _ (plain_step B pv (chr "-") _ eq_refl (no_tag (chr "-") _ Hne) Ha (Hopen _) Hd)).
  rewrite (scan_silent _ _ _ _ (in_line ((B ++ [chr "-"]) ++ [chr "-"]) (Some (chr "-"))) 0) by done.
  simpl ([] ++ _). rewrite scan_line_body by done. by rewrite <- !app_assoc.
Qed.

(** The first occurrence of [t] starts one character later. *)
Lemma split_once_tail t c s a r :
  split_once t (c :: s) = Some (c :: a, r) → strip_prefix t (c :: s) = None ∧ split_once t s = Some (a, r).
Proof.
  cbn -[strip_prefix]. destruct (strip_prefix t (c :: s)); [done|].
  destruct (split_once t s) as [[a' r']|]; [|done]. intros [= -> ->]. done.
Qed.

Lemma scan_block_body body B p tail :
  split_once (lit "*/") (p :: body ++ lit "*/") = Some (p :: body, []) →
  scan push_char 0 (in_block B (Some p)) (body ++ lit "*/" ++ tail) =
  scan push_char 0 (outside (B ++ body ++ lit "*/") (Some (chr "/"))) tail.
Proof.
  revert B p. induction body as [|c body IH]; intros B p.
  - intros _. change (lit "*/" ++ tail) with (chr "*" :: chr "/" :: tail). cbn [app].
    rewrite (scan_silent _ _ _ _ (in_block (B ++ [chr "*"]) (Some (chr "*"))) 0).
    2:{ unfold push_char, in_block. cbn. by rewrite andb_false_r. }
    rewrite (scan_silent _ _ _ _ (outside ((B ++ [chr "*"]) ++ [chr "/"]) (Some (chr "/"))) 0) by done.
    by rewrite <- app_assoc.
  - rewrite <- !app_comm_cons. intros [Hno Hrest]%split_once_tail.
    rewrite (scan_silent _ _ _ _ (in_block (B ++ [c]) (Some c)) 0).
    + rewrite IH by done. by rewrite <- app_assoc.
    + unfold push_char, in_block; cbn -[chr].
      destruct (bool_decide (Some p = Some (chr "*")) && bool_decide (c = chr "/")) eqn:E; [|done].
      apply andb_true_iff in E as [[= ->]%bool_decide_eq_true ->%bool_decide_eq_true]. done.
Qed.

Lemma absorb_block body B pv :
  split_once (lit "*/") (chr "*" :: body ++ lit "*/") = Some (chr "*" :: body, []) →
  absorbed B pv (lit "/*" ++ body ++ lit "*/").
Proof.
  intros Hs tail _. assert (last (lit "/*" ++ body ++ lit "*/") = Some (chr "/")) as -> by (by rewrite !last_app).
  rewrite <- !app_assoc. change (lit "/*" ++ ?x) with (chr "/" :: chr "*" :: x).
  rewrite (scan_silent _ _ _ _ (in_block (B ++ [chr "/"]) (Some (chr "/"))) 0).
  2:{ unfold push_char, outside, open_masked. cbn. by rewrite !andb_false_r. }
  rewrite (scan_silent _ _ _ _ (in_block ((B ++ [chr "/"]) ++ [chr "*"]) (Some (chr "*"))) 0) by done.
  rewrite scan_block_body by done. by rewrite <- !app_assoc.
Qed.

(** *** Dollar quotes *)
Definition in_dollar (tag : str) B pv : SqlStatementSplitter :=
  mkSplitter B false false false false false (Some tag) false pv false None false profile_default.

Lemma push_all_eq t st :
  push_all t st = set_previous (match last t with Some c => Some c | None => previous st end)
                    (set_buffer (buffer st ++ t) st).
Proof.
  revert st. induction t as [|c t IH]; intros st; [simpl; rewrite app_nil_r; by destruct st|].
  change (push_all (c :: t) st) with (push_all t (keep c st)). rewrite IH. destruct st; cbn -[last]. rewrite <- app_assoc, last_cons. by destruct (last t).
Qed.

Lemma dollar_tag_shape tag : dollar_quote_tag_at tag = Some tag → ∃ name, tag = chr "$" :: name ++ lit "$" ∧
  ∀ x, dollar_quote_tag_at (tag ++ x) = Some tag.
Proof.
  destruct tag as [|d [|c r]]; [done..|]. unfold dollar_quote_tag_at. intros E.
  destruct (negb (bool_decide (d = chr "$"))) eqn:Hd; [done|].
  pose proof Hd as ->%negb_false_iff%bool_decide_eq_true.
  destruct (decide (c = chr "$")) as [->|Hc].
  { injection E as <-. by exists []. }
  destruct (is_ascii_alphabetic c || bool_decide (c = chr "_")) eqn:Hal; [|done].
  destruct (bool_decide (drop_while is_tag_char r !! 0 = Some (chr "$"))) eqn:Hend; [|done].
  assert (take_while is_tag_char r ++ lit "$" = r) as Hr by (injection E as Hr; exact Hr).
  exists (c :: take_while is_tag_char r). split; [by rewrite <- app_comm_cons, Hr|].
  intros x. rewrite <- !app_comm_cons, Hd, decide_False, Hal by done.
  destruct (while_stop is_tag_char r x) as (-> & -> & Hne).
  { rewrite <- Hr. apply Exists_app. right. constructor. reflexivity. }
  destruct (drop_while is_tag_char r) as [|e r']; [done|]. simpl in *. by rewrite Hend, Hr.
Qed.

Lemma scan_dollar_body tag body B pv tail :
  tag ≠ [] → split_once tag (body ++ tag) = Some (body, []) →
  ∃ pv', scan push_char 0 (in_dollar tag B pv) (body ++ tag ++ tail) =
         scan push_char 0 (in_dollar tag (B ++ body) pv') (tag ++ tail).
Proof.
  intros Hne. revert B pv. induction body as [|c body IH]; intros B pv.
  { intros _. exists pv. by rewrite app_nil_r. }
  rewrite <- !app_comm_cons. intros [Hno Hrest]%split_once_tail.
  destruct (IH (B ++ [c]) (Some c) Hrest) as [pv' Hscan]. exists pv'.
  rewrite (scan_silent _ _ _ _ (in_dollar tag (B ++ [c]) (Some c)) 0); [rewrite Hscan; by rewrite <- app_assoc|].
  unfold push_char, in_dollar; cbn -[starts_with].
  destruct (starts_with tag (c :: body ++ tag ++ tail)) eqn:Es; [|done].
  apply starts_with_spec in Es. rewrite app_comm_cons, app_assoc in Es.
  assert (tag `prefix_of` (c :: body) ++ tag) as [r Hr].
  { destruct (prefix_weak_total tag ((c :: body) ++ tag) (((c :: body) ++ tag) ++ tail)) as [?|Hp];
      [done|by eexists|done|]. apply prefix_length in Hp. rewrite length_app in Hp. simpl in Hp. lia. }
  by rewrite <- app_comm_cons in Hr; rewrite Hr, strip_prefix_app in Hno.
Qed.

Lemma absorb_dollar tag body B pv :
  dollar_quote_tag_at tag = Some tag → split_once tag (body ++ tag) = Some (body, []) →
  on_delimiter_line_of B = false → absorbed B pv (tag ++ body ++ tag).
Proof.
  intros Htag Hs Hd tail _. destruct (dollar_tag_shape tag Htag) as (name & Hshape & Hat).
  assert (last tag = Some (chr "$")) as Hlast by (rewrite Hshape, app_comm_cons; apply last_snoc).
  assert (last (tag ++ body ++ tag) = Some (chr "$")) as -> by (by rewrite app_assoc, last_app, Hlast).
  rewrite <- !app_assoc.
  set (r := name ++ lit "$") in *.
  assert (∀ x, tag ++ x = chr "$" :: r ++ x) as Hcons by (intros x; by rewrite Hshape).
  rewrite (Hcons (body ++ tag ++ tail)).
  rewrite (scan_silent _ _ _ _ (in_dollar tag (B ++ tag) (Some (chr "$"))) (length r)).
  2:{ unfold push_char. change (dollar_quote_tag (outside B pv)) with (@None str). cbv iota.
      change (in_line_comment (outside B pv)) with false. change (in_block_comment (outside B pv)) with false.
      change (unquoted (outside B pv)) with true. cbv iota.
      unfold open_masked. rewrite <- Hcons, Hat. change (on_delimiter_line (outside B pv)) with (on_delimiter_line_of B).
      rewrite Hd. cbn -[chr]. rewrite push_all_eq, Hlast, Hshape. cbn -[chr]. by rewrite !andb_false_r, Nat.sub_0_r. }
  rewrite scan_skip by done.
  destruct (scan_dollar_body tag body (B ++ tag) (Some (chr "$")) tail) as [pv' ->]; [by rewrite Hshape|done|].
  rewrite (Hcons tail), (scan_silent _ _ _ _ (outside ((B ++ tag) ++ body ++ tag) (Some (chr "$"))) (length r)).
  - rewrite scan_skip by done. by rewrite <- !app_assoc.
  - unfold push_char. change (dollar_quote_tag (in_dollar tag _ _)) with (Some tag). cbv iota.
    assert (starts_with tag (chr "$" :: r ++ tail) = true) as ->.
    { apply starts_with_spec. exists tail. by rewrite Hcons. }
    rewrite push_all_eq, Hlast. assert (length tag - 1 = length r) as -> by (rewrite Hshape; simpl; lia).
    unfold in_dollar, outside. cbn -[chr]. by rewrite <- app_assoc.
Qed.

(** *** Whole statements *)
Lemma quiet_app B s t : quiet B (s ++ t) → quiet B s ∧ quiet (B ++ s) t.
Proof.
  intros Hq. split; intros k.
  - pose proof (Hq (k `min` length s)) as Hk. rewrite take_app_le in Hk by lia.
    destruct (decide (k ≤ length s)); [by rewrite Nat.min_l in Hk by lia|].
    rewrite Nat.min_r, firstn_all in Hk by lia. by rewrite take_ge by lia.
  - pose proof (Hq (length s + k)) as Hk. rewrite take_app_add in Hk. by rewrite <- app_assoc.
Qed.

(** A piece does not end with a backslash. *)
Lemma piece_ends x : piece_ok x = true → last (render x) ≠ Some BACKSLASH ∧ render x ≠ [].
Proof.
  destruct x as [s|q body|tag body|body|body]; unfold piece_ok, render; rewrite ?andb_true_iff.
  - rewrite !negb_true_iff, !bool_decide_eq_false. naive_solver.
  - unfold is_quote. rewrite !bool_decide_eq_true, !elem_of_cons, elem_of_nil. intros [Hq _].
    split; [rewrite app_assoc, last_snoc|done]; destruct Hq as [->|[->|[->|[]]]]; done.
  - rewrite !bool_decide_eq_true. intros [(name & -> & _)%dollar_tag_shape _]. split; [|done].
    change (lit "$") with [chr "$"]. rewrite app_comm_cons, !app_assoc. by rewrite last_snoc.
  - intros _. split; [|done]. by rewrite !app_assoc, last_snoc.
  - intros _. split; [|done]. change (lit "*/") with ([chr "*"] ++ [chr "/"]). by rewrite !app_assoc, last_snoc.
Qed.

Lemma absorb_piece x B pv :
  piece_ok x = true → quiet B (render x) → apart pv (head (render x)) = true → has_odd_trailing_backslashes B = false →
  absorbed B pv (render x).
Proof.
  intros Hok Hq Hpv HB. assert (on_delimiter_line_of B = false) as Hd
    by (rewrite <- (app_nil_r B); apply (Hq 0)).
  destruct x as [s|q body|tag body|body|body]; cbn -[chr BACKSLASH lit] in Hok; rewrite ?andb_true_iff in Hok.
  - destruct Hok as [[Hne Hp] _]. apply negb_true_iff, bool_decide_eq_false in Hne. by apply absorb_plain.
  - destruct Hok as [Hquote Hbody]. by apply absorb_quoted.
  - destruct Hok as [Ht%bool_decide_eq_true Hs%bool_decide_eq_true]. by apply absorb_dollar.
  - apply bool_decide_eq_true in Hok. apply absorb_line; [done| |done]. intros ->. by apply apart_spec in Hpv as [Hpv _]; destruct (Hpv eq_refl).
  - apply bool_decide_eq_true in Hok. by apply absorb_block.
Qed.

Lemma absorb_all x B pv tail :
  Forall (λ y, piece_ok y = true) x → pieces_apart pv x = true → quiet B (render_all x) → has_odd_trailing_backslashes B = false →
  (∀ p, apart p (head tail) = true) →
  ∃ pv', scan push_char 0 (outside B pv) (render_all x ++ tail) = scan push_char 0 (outside (B ++ render_all x) pv') tail.
Proof.
  intros Hf. revert B pv. induction Hf as [|y x Hy Hx IH]; intros B pv Hj Hq HB Ht.
  { exists pv. by rewrite app_nil_r. }
  unfold render_all in *. rewrite fmap_cons in *. cbn [concat] in *. apply quiet_app in Hq as [Hq1 Hq2].
  cbn [pieces_apart] in Hj. apply andb_true_iff in Hj as [Hj1 Hj2].
  destruct (piece_ends y Hy) as [Hl Hne].
  assert (has_odd_trailing_backslashes (B ++ render y) = false) as Hlast.
  { apply odd_backslashes_last. rewrite last_app. by destruct (last (render y)) eqn:E; [|apply last_None in E]. }
  assert (apart (last (render y)) (head (concat (render <$> x) ++ tail)) = true) as Hnext.
  { destruct Hx as [|z x Hz _]; [apply Ht|]. rewrite fmap_cons. cbn [concat pieces_apart] in *. apply andb_true_iff in Hj2 as [Hj2 _].
    destruct (piece_ends z Hz) as [_ Hz2]. by destruct (render z). }
  rewrite <- app_assoc, (absorb_piece y B pv Hy Hq1 Hj1 HB _ Hnext).
  destruct (IH (B ++ render y) (last (render y)) Hj2 Hq2 Hlast Ht) as [pv2 E2]. exists pv2. rewrite E2. by rewrite <- app_assoc.
Qed.

Lemma semicolon_step B pv rest :
  on_delimiter_line_of B = false →
  push_char (outside B pv) (chr ";") rest =
    (outside [] (Some (chr ";")), emit (trim B) (outside B pv), 0).
Proof.
  intros Hd. unfold push_char. change (dollar_quote_tag (outside B pv)) with (@None str). cbv iota.
  change (in_line_comment (outside B pv)) with false. change (in_block_comment (outside B pv)) with false.
  change (unquoted (outside B pv)) with true. cbv iota.
  rewrite open_none; [|by apply no_tag|apply apart_spec; naive_solver|apply apart_spec; naive_solver].
  assert (match_char (outside B pv) (chr ";") = (outside [] None, emit (trim B) (outside B pv))) as ->.
  { unfold match_char, on_semicolon. change (on_delimiter_line (outside B pv)) with (on_delimiter_line_of B).
    rewrite Hd. reflexivity. }
  change (unquoted (outside [] None)) with true. cbv iota.
  destruct (decide (chr ";" = NL)) as [?|_]; [done|].
  change (at_delimiter (outside [] None)) with (outside [] None, @nil SqlStatementWithControl). cbv iota beta.
  by rewrite app_nil_r.
Qed.

Definition terminated (x : list piece) : str := render_all x ++ lit ";".
Definition script (xs : list (list piece)) : str := concat (terminated <$> xs).

Lemma quiet_no_delimiter t : no_delimiter_line t = true → quiet [] t.
Proof. intros Hn k. by apply no_delimiter_prefix. Qed.

Lemma scan_script xs pv :
  Forall (λ x, statement_ok x = true) xs → pv = None ∨ pv = Some (chr ";") →
  ∃ pv', scan push_char 0 (outside [] pv) (script xs) =
         (outside [] pv', concat ((λ x, emit (trim (render_all x)) (outside [] None)) <$> xs)).
Proof.
  intros Hf. revert pv. induction Hf as [|x xs Hx _ IH]; intros pv Hpv; [by exists pv|].
  apply andb_true_iff in Hx as [[Hok Hj]%andb_true_iff Hq%quiet_no_delimiter].
  unfold script. rewrite !fmap_cons. cbn [concat]. unfold terminated at 1. rewrite <- app_assoc.
  change (lit ";" ++ ?y) with (chr ";" :: y).
  assert (Forall (λ y, piece_ok y = true) x) as Hps by (rewrite Forall_forall; intros y Hy;
    rewrite forallb_forall in Hok; by apply Hok, list_elem_of_In).
  assert (pieces_apart pv x = true) as Hj'.
  { destruct x as [|y x]; [done|]. cbn [pieces_apart] in *. apply andb_true_iff in Hj as [_ ->]. rewrite andb_true_r. apply apart_spec. naive_solver. }
  destruct (absorb_all x [] pv (chr ";" :: concat (terminated <$> xs)) Hps Hj' Hq eq_refl) as [pv1 ->].
  { intros p. apply apart_spec. naive_solver. }
  destruct (IH (Some (chr ";")) ltac:(auto)) as [pv2 E2]. exists pv2. cbn [scan]. rewrite app_nil_l.
  rewrite semicolon_step by (rewrite <- (firstn_all (render_all x)); apply (Hq (length (render_all x)))).
  unfold script in E2. rewrite E2. done.
Qed.

End exact.

(** ** Where the lexical rules fail *)

(** A dollar-quote tag that is cut by a chunk boundary is not recognised: the
    body of the function is split at its semicolons. *)
Theorem chunk_boundary_breaks_dollar_quotes `{OracleTokenizer} :
  let a := lit "CREATE FUNCTION f() AS $" in
  let b := lit "$ BEGIN x; END $$; SELECT 1" in
  sql <$> split_stream profile_default [a ++ b] =
    [lit "CREATE FUNCTION f() AS $$ BEGIN x; END $$"; lit "SELECT 1"] ∧
  sql <$> split_stream profile_default [a; b] =
    [lit "CREATE FUNCTION f() AS $$ BEGIN x"; lit "END $$; SELECT 1"].
Proof. vm_compute. done. Qed.

(** Block comments whose end shares a character with their start, and a [*]
    directly after a comment, are misread. *)
Theorem block_comment_boundaries_are_misread `{OracleTokenizer} :
  split_sql_statements (lit "SELECT /*/ a; b */ 1; SELECT 2") =
    [lit "SELECT /*/ a"; lit "b */ 1"; lit "SELECT 2"] ∧
  split_sql_statements (lit "SELECT 2 /* two */* 3; SELECT 4") =
    [lit "SELECT 2 /* two */* 3; SELECT 4"].
Proof. vm_compute. done. Qed.

(** ** Witnesses *)
Lemma line_aligned_witness :
  split_stream (H := no_tokenizer) mysql_compatible
    ([lit "SELECT 1; --" ++ [NL]; lit "SELECT" ++ [NL]] ++ [lit " 2;"]) =
  split_stream (H := no_tokenizer) mysql_compatible
    [concat [lit "SELECT 1; --" ++ [NL]; lit "SELECT" ++ [NL]] ++ lit " 2;"].
Proof.
  apply (line_aligned_chunks_split_like_the_whole (H := no_tokenizer)).
  repeat constructor.
Defined.

Definition script1 : list (list piece) :=
  [ [Plain (lit "SELECT "); Quoted SQUOTE (lit "a;b"); Quoted SQUOTE []; LineComment (lit " x; y"); Plain (lit " FROM t ")];
    [BlockComment (lit " only; a comment ")];
    [Plain (lit " CREATE FUNCTION f() AS "); DollarQuoted (lit "$x$") (lit " BEGIN a; END ")];
    [Plain (lit "SELECT a$b, \n - $1/"); Quoted SQUOTE (lit "it\'s; \\"); Plain (lit "*2")] ].

