(* ===== verification/SqlRanges.v ===== *)
(** Statement ranges of an editor text and SQL Server batches
    ([crates/dbx-core/src/sql.rs]).

    A position of the text is kept as the text before it, so that slices are
    lists; the byte offsets the source works with are the [byte_len] of these
    prefixes.  A slice whose start lies after its end panics in Rust: the
    operations that contain one return an [option], [None] being the panic. *)
From S2P Require Import Prelude SqlDialect SqlSplitter.
Local Open Scope dbx_scope.

Record SqlStatementRange := mkRange { text : str; start : nat; end_ : nat }.

(** ** The executable part of a slice *)

(** [s.rfind(f)] as a split, as [split_last]. *)
Fixpoint split_last_by (f : char → bool) (s : str) : str * str :=
  match s with
  | [] => ([], [])
  | x :: r =>
      let '(a, b) := split_last_by f r in
      match a with
      | [] => if f x then ([x], b) else ([], x :: b)
      | _ => (x :: a, b)
      end
  end.

(** The text before the directive that ends at the executable text; [prefix]
    is the text before the latter. *)
Definition leading_directive_start (prefix : str) : option str :=
  let '(before, line_prefix) := split_last_by (λ c, bool_decide (c = CR) || bool_decide (c = NL)) prefix in
  let trimmed_line_start := trim_start line_prefix in
  if starts_with (lit "/*") trimmed_line_start && ends_with (lit "*/") (trim_end trimmed_line_start) then
    Some (before ++ take (length line_prefix - length trimmed_line_start) line_prefix)
  else
    let trimmed_prefix := trim_end prefix in
    if ends_with (lit "/*proxy*/") trimmed_prefix
    then Some (take (length trimmed_prefix - length (lit "/*proxy*/")) trimmed_prefix) else None.

(** The leading part that is passed over, and the executable part. *)
Definition executable_sql_bounds (statement : str) (p : SqlDialectProfile) : option (str * str) :=
  let trimmed := trim_end statement in
  let executable := leading_executable_sql_with_options trimmed p in
  match executable with
  | [] => None
  | _ =>
      let prefix := take (length trimmed - length executable) trimmed in
      let start := if preserves_tdsql_leading_directives p
                   then default prefix (leading_directive_start prefix) else prefix in
      Some (start, drop (length start) trimmed)
  end.

(** The range of the executable part of [slice], which follows [before]. *)
Definition push_statement_range (before slice : str) (p : SqlDialectProfile) : list SqlStatementRange :=
  match executable_sql_bounds slice p with
  | None => []
  | Some (_, []) => []
  | Some (relative_start, t) =>
      let s := byte_len before + byte_len relative_start in
      [mkRange t s (s + byte_len t)]
  end.

(** ** The range splitter *)
Record ranges_state := mkRanges {
  before : str;                    (* [sql[..start]] *)
  cur : str;                       (* [sql[start..i]] *)
  single_quote : bool;
  double_quote : bool;
  backtick : bool;
  line_comment : bool;
  block_comment : bool;
  tag : option str;
  delimiter : option str;
  pg_routine : bool;
}.

Definition ranges_init : ranges_state := mkRanges [] [] false false false false false None None false.

(** The cursor moves over [s]. *)
Definition advance (s : str) (st : ranges_state) : ranges_state :=
  let 'mkRanges b c sq dq bt lc bc t d pg := st in mkRanges b (c ++ s) sq dq bt lc bc t d pg.
(** The next statement starts at the cursor. *)
Definition restart (st : ranges_state) : ranges_state :=
  let 'mkRanges b c sq dq bt lc bc t d pg := st in mkRanges (b ++ c) [] sq dq bt lc bc t d false.
Definition set_line_comment (lc : bool) (st : ranges_state) : ranges_state :=
  let 'mkRanges b c sq dq bt _ bc t d pg := st in mkRanges b c sq dq bt lc bc t d pg.
Definition set_block_comment (bc : bool) (st : ranges_state) : ranges_state :=
  let 'mkRanges b c sq dq bt lc _ t d pg := st in mkRanges b c sq dq bt lc bc t d pg.
Definition set_range_tag (t : option str) (st : ranges_state) : ranges_state :=
  let 'mkRanges b c sq dq bt lc bc _ d pg := st in mkRanges b c sq dq bt lc bc t d pg.
Definition set_range_delimiter (d : option str) (st : ranges_state) : ranges_state :=
  let 'mkRanges b c sq dq bt lc bc t _ pg := st in mkRanges b c sq dq bt lc bc t d pg.
Definition set_range_pg (pg : bool) (st : ranges_state) : ranges_state :=
  let 'mkRanges b c sq dq bt lc bc t d _ := st in mkRanges b c sq dq bt lc bc t d pg.
Definition set_quotes (sq dq bt : bool) (st : ranges_state) : ranges_state :=
  let 'mkRanges b c _ _ _ lc bc t d pg := st in mkRanges b c sq dq bt lc bc t d pg.

Definition range_unquoted (st : ranges_state) : bool :=
  negb (single_quote st) && negb (double_quote st) && negb (backtick st).

Section ranges.
Context `{OracleTokenizer}.
Implicit Types (st : ranges_state) (p : SqlDialectProfile).
Abbreviation outcome := (option ranges_state * list SqlStatementRange * nat)%type.

(** [&sql[start..line_start]], where [line_start] is the start of the line
    the cursor is on. *)
Definition slice_to_line st : option (str * str) :=
  let '(upto, line) := split_last NL (before st ++ cur st) in
  if decide (length (before st) ≤ length upto) then Some (drop (length (before st)) upto, line) else None.

(** The line the cursor is on. *)
Definition current_line st : str := trim (split_last NL (before st ++ cur st)).2.

(** Comments, dollar quotes and client command lines, outside quotes. *)
Definition range_open p st ch rest : option outcome :=
  if at2 (chr "-") (chr "-") ch rest then
    Some (Some (advance (lit "--") (set_line_comment true st)), [], 1)
  else if supports_hash_line_comments p && bool_decide (ch = chr "#") then
    Some (Some (advance [ch] (set_line_comment true st)), [], 0)
  else if at2 (chr "/") (chr "*") ch rest then
    Some (Some (advance (lit "/*") (set_block_comment true st)), [], 1)
  else
    match (if supports_dollar_quoted_strings p then dollar_quote_tag_at_str (ch :: rest) else None) with
    | Some t =>
        if bool_decide (delimiter st = None) && negb (on_delimiter_line_of (cur st)) then
          let st := if supports_postgres_dollar_quoted_routines p &&
                       starts_with_postgres_dollar_quoted_routine_prefix (cur st)
                    then set_range_pg true st else st in
          Some (Some (set_range_tag (Some t) (advance t st)), [], length t - 1)
        else None
    | None => None
    end.

Definition range_line p st : option (option ranges_state * list SqlStatementRange) :=
  let line := current_line st in
  if supports_slash_line_block_delimiter p && bool_decide (line = lit "/") then
    Some (match slice_to_line st with
          | Some (slice, _) =>
              (Some (restart (advance [NL] st)), push_statement_range (before st) slice p)
          | None => (None, [])
          end)
  else
    match (if supports_custom_delimiter_commands p then parse_delimiter_command line else None) with
    | Some new_delimiter =>
        Some (match slice_to_line st with
              | Some (slice, _) =>
                  (Some (restart (advance [NL]
                     (set_range_delimiter (if decide (new_delimiter = lit ";") then None else Some new_delimiter) st))),
                   if has_executable_sql_with_options (trim slice) p
                   then push_statement_range (before st) slice p else [])
              | None => (None, [])
              end)
    | None => None
    end.

(** A semicolon that may end a statement. *)
Definition range_semicolon p st : ranges_state * list SqlStatementRange :=
  let st1 := advance (lit ";") st in
  if supports_mysql_routine_blocks p && starts_with_mysql_routine_block (cur st) then
    if negb (mysql_routine_block_is_complete (cur st1)) then (st1, [])
    else (restart st1, push_statement_range (before st) (cur st) p)
  else if supports_oracle_plsql_blocks p && negb (pg_routine st) && starts_with_oracle_plsql_block (cur st) then
    if negb (oracle_plsql_block_is_complete (cur st1)) then (st1, [])
    else (restart st1, push_statement_range (before st) (cur st1) p)
  else if supports_hana_do_blocks p && starts_with_hana_do_block (cur st) then
    if negb (hana_do_block_is_complete (cur st1)) then (st1, [])
    else (restart st1, push_statement_range (before st) (cur st1) p)
  else (restart st1, push_statement_range (before st) (cur st) p).

Definition is_escaped_single_quote st : bool := bool_decide (last (before st ++ cur st) = Some BACKSLASH).

Definition range_char p st ch : ranges_state * list SqlStatementRange :=
  if bool_decide (ch = SQUOTE) && negb (double_quote st) && negb (backtick st) &&
     negb (is_escaped_single_quote st) then
    (advance [ch] (set_quotes (negb (single_quote st)) (double_quote st) (backtick st) st), [])
  else if bool_decide (ch = DQUOTE) && negb (single_quote st) && negb (backtick st) then
    (advance [ch] (set_quotes (single_quote st) (negb (double_quote st)) (backtick st) st), [])
  else if bool_decide (ch = BACKTICK) && negb (single_quote st) && negb (double_quote st) then
    (advance [ch] (set_quotes (single_quote st) (double_quote st) (negb (backtick st)) st), [])
  else if bool_decide (ch = chr ";") &&
          negb (single_quote st || double_quote st || backtick st || bool_decide (delimiter st ≠ None) ||
                (supports_custom_delimiter_commands p && on_delimiter_line_of (cur st))) then
    range_semicolon p st
  else
    let st1 := advance [ch] st in
    if range_unquoted st1 then
      match delimiter st1 with
      | Some d =>
          if ends_with d (cur st1) then
            (restart st1, push_statement_range (before st1) (take (length (cur st1) - length d) (cur st1)) p)
          else (st1, [])
      | None => (st1, [])
      end
    else (st1, []).

Definition range_step p (o : option ranges_state) ch rest : outcome :=
  match o with
  | None => (None, [], 0)
  | Some st =>
      match tag st with
      | Some t =>
          if starts_with t (ch :: rest) then (Some (set_range_tag None (advance t st)), [], length t - 1)
          else (Some (advance [ch] st), [], 0)
      | None =>
          if line_comment st then
            (Some (advance [ch] (if decide (ch = NL) then set_line_comment false st else st)), [], 0)
          else if block_comment st then
            if at2 (chr "*") (chr "/") ch rest
            then (Some (advance (lit "*/") (set_block_comment false st)), [], 1)
            else (Some (advance [ch] st), [], 0)
          else
            match (if range_unquoted st then range_open p st ch rest else None) with
            | Some r => r
            | None =>
                match (if range_unquoted st && bool_decide (ch = NL) then range_line p st else None) with
                | Some (o', out) => (o', out, 0)
                | None => let '(st', out) := range_char p st ch in (Some st', out, 0)
                end
            end
      end
  end.

Definition split_sql_statement_ranges_with_options (sql : str) p : option (list SqlStatementRange) :=
  let '(o, out) := scan (range_step p) 0 (Some ranges_init) sql in
  match o with
  | None => None
  | Some st =>
      let trimmed := trim (cur st) in
      let last_line := last_line_of trimmed in
      let upto := (split_last NL (cur st)).1 in
      Some (out ++
        if (supports_custom_delimiter_commands p && bool_decide (is_Some (parse_delimiter_command last_line))) ||
           (supports_slash_line_block_delimiter p && bool_decide (last_line = lit "/"))
        then match upto with [] => [] | _ => push_statement_range (before st) upto p end
        else push_statement_range (before st) (cur st) p)
  end.
End ranges.

(** ** Ranges are slices of the text *)
Lemma split_last_by_app f s : (split_last_by f s).1 ++ (split_last_by f s).2 = s.
Proof.
  induction s as [|x s IH]; simpl; [done|]. destruct (split_last_by f s) as [[|y a] b]; simpl in *.
  - case_match; simpl; by rewrite IH.
  - by rewrite IH.
Qed.

Lemma trim_end_prefix s : trim_end s `prefix_of` s.
Proof.
  unfold trim_end. destruct (drop_while_suffix is_whitespace (reverse s)) as [l Hl].
  exists (reverse l). rewrite <- reverse_app, <- Hl. by rewrite reverse_involutive.
Qed.

Lemma take_prefix_of (n : nat) (s : str) : take n s `prefix_of` s.
Proof. exists (drop n s). by rewrite take_drop. Qed.

Lemma directive_prefix prefix d : leading_directive_start prefix = Some d → d `prefix_of` prefix.
Proof.
  unfold leading_directive_start.
  pose proof (split_last_by_app (λ c, bool_decide (c = CR) || bool_decide (c = NL)) prefix) as Hs.
  destruct (split_last_by _ prefix) as [b l]. simpl in Hs. repeat case_match; intros [= <-].
  - rewrite <- Hs. apply prefix_app, take_prefix_of.
  - etrans; [apply take_prefix_of|apply trim_end_prefix].
Qed.

Lemma bounds_slice slice p rel t :
  executable_sql_bounds slice p = Some (rel, t) → ∃ tail, slice = rel ++ t ++ tail.
Proof.
  unfold executable_sql_bounds. destruct (leading_executable_sql_with_options (trim_end slice) p) as [|c e]; [done|].
  set (prefix := take _ (trim_end slice)). intros [= <- <-].
  set (start := if preserves_tdsql_leading_directives p then _ else prefix).
  assert (start `prefix_of` trim_end slice) as [r Hr].
  { transitivity prefix; [|apply take_prefix_of]. unfold start. case_match; [|done].
    destruct (leading_directive_start prefix) eqn:E; [by apply directive_prefix|done]. }
  destruct (trim_end_prefix slice) as [w Hw]. exists w. rewrite Hr, drop_app_length. by rewrite app_assoc, <- Hr.
Qed.

(** [r] is a non-empty slice of [sql], its offsets counted in bytes. *)
Definition is_slice (sql : str) (r : SqlStatementRange) : Prop :=
  ∃ pre post, sql = pre ++ text r ++ post ∧ text r ≠ [] ∧
    start r = byte_len pre ∧ end_ r = start r + byte_len (text r).

(** The ranges lie between [lo] and [hi], in order and without overlap. *)
Fixpoint between (lo hi : nat) (rs : list SqlStatementRange) : Prop :=
  match rs with
  | [] => lo ≤ hi
  | r :: rs' => lo ≤ start r ∧ start r ≤ end_ r ∧ between (end_ r) hi rs'
  end.

Lemma between_app lo mid hi rs1 rs2 : between lo mid rs1 → between mid hi rs2 → between lo hi (rs1 ++ rs2).
Proof.
  revert lo. induction rs1 as [|r rs1 IH]; intros lo; simpl; [|naive_solver].
  intros Hlo Hb. destruct rs2; simpl in *; [lia|]. destruct Hb as (? & ? & ?). split_and!; [lia|done..].
Qed.

Lemma push_range_ok b slice post p :
  Forall (is_slice (b ++ slice ++ post)) (push_statement_range b slice p) ∧
  between (byte_len b) (byte_len (b ++ slice)) (push_statement_range b slice p).
Proof.
  unfold push_statement_range. rewrite byte_len_app.
  destruct (executable_sql_bounds slice p) as [[rel t]|] eqn:E; [|split; simpl; [done|lia]].
  apply bounds_slice in E as [tail ->]. destruct t as [|c t]; [split; simpl; [done|lia]|].
  set (u := c :: t). split.
  - constructor; [|done]. exists (b ++ rel), (tail ++ post). cbn [text start end_]. rewrite byte_len_app.
    split_and!; [by rewrite <- !app_assoc|done|done|done].
  - cbn -[u byte_len]. rewrite !byte_len_app. lia.
Qed.

Section well_formed.
Context `{OracleTokenizer} (p : SqlDialectProfile).
Implicit Types (st : ranges_state) (o : option ranges_state).

(** The cursor went from [st] over [s] to [st'], emitting [out]. *)
Definition covers st (s : str) st' (out : list SqlStatementRange) : Prop :=
  before st' ++ cur st' = before st ++ cur st ++ s ∧
  (∀ post, Forall (is_slice (before st ++ cur st ++ s ++ post)) out) ∧
  between (byte_len (before st)) (byte_len (before st')) out.

Lemma covers_same s st st2 : before st2 = before st → cur st2 = cur st ++ s → covers st s st2 [].
Proof. intros Hb Hc. split_and!; simpl; [by rewrite Hb, Hc|done|by rewrite Hb]. Qed.

Lemma covers_advance s st st1 :
  before st1 = before st → cur st1 = cur st → covers st s (advance s st1) [].
Proof. intros Hb Hc. destruct st1; simpl in *. subst. split_and!; simpl; [done|done|lia]. Qed.

(** A statement that ends with [slice], in front of [rest]. *)
Lemma covers_emit s st st1 slice rest :
  before st1 = before st → cur st1 = cur st ++ s → cur st ++ s = slice ++ rest →
  covers st s (restart st1) (push_statement_range (before st) slice p).
Proof.
  intros Hb Hc Hs. destruct (push_range_ok (before st) slice rest p) as [_ Hbt]. unfold covers.
  assert (before (restart st1) = before st ++ slice ++ rest ∧ cur (restart st1) = []) as [-> ->]
    by (destruct st1; simpl in *; subst; by rewrite Hs).
  split_and!.
  - by rewrite app_nil_r, Hs.
  - intros post. rewrite (app_assoc (cur st)), Hs, <- app_assoc. apply push_range_ok.
  - rewrite app_assoc, byte_len_app. eapply between_app with (rs2 := []) in Hbt; [by rewrite app_nil_r in Hbt|simpl; lia].
Qed.

Lemma covers_trans st s1 st1 out1 s2 st2 out2 :
  covers st s1 st1 out1 → covers st1 s2 st2 out2 → covers st (s1 ++ s2) st2 (out1 ++ out2).
Proof.
  intros (E1 & F1 & B1) (E2 & F2 & B2). split_and!.
  - by rewrite E2, app_assoc, E1, <- !app_assoc.
  - intros post. apply Forall_app. split; [rewrite <- app_assoc; apply F1|].
    specialize (F2 post). rewrite app_assoc, E1 in F2. by rewrite <- !app_assoc in *.
  - by eapply between_app.
Qed.

Lemma covers_semicolon st st' out : range_semicolon p st = (st', out) → covers st (lit ";") st' out.
Proof.
  assert (∀ slice rest, cur st ++ lit ";" = slice ++ rest →
    covers st (lit ";") (restart (advance (lit ";") st)) (push_statement_range (before st) slice p)) as He.
  { intros slice rest Hs. apply (covers_emit _ _ _ _ rest); [by destruct st..|done]. }
  unfold range_semicolon. intros E. repeat case_match; simplify_eq;
    first [by apply covers_advance|by eapply He|eapply (He _ []); rewrite app_nil_r; by destruct st].
Qed.

Lemma covers_char st ch st' out : range_char p st ch = (st', out) → covers st [ch] st' out.
Proof.
  assert (∀ st1, before st1 = before st → cur st1 = cur st → covers st [ch] (advance [ch] st1) []) as Ha
    by (intros; by apply covers_advance).
  unfold range_char. intros E.
  destruct (bool_decide (ch = chr ";") && _) eqn:Hsemi.
  { repeat case_match; simplify_eq; try (apply Ha; by destruct st).
    apply andb_true_iff in Hsemi as [->%bool_decide_eq_true _]. by apply covers_semicolon. }
  repeat case_match; simplify_eq; try (apply Ha; by destruct st).
  replace (before (advance [ch] st)) with (before st) by by destruct st.
  eapply (covers_emit _ _ _ _ (drop _ (cur (advance [ch] st)))); [by destruct st..|].
  rewrite take_drop. by destruct st.
Qed.

Lemma str_tag_prefix ch rest t :
  dollar_quote_tag_at_str (ch :: rest) = Some t → ch :: take (length t - 1) rest = t ∧ t ≠ [].
Proof.
  unfold dollar_quote_tag_at_str. destruct (negb (bool_decide (ch = chr "$"))) eqn:Hd; [done|].
  apply negb_false_iff, bool_decide_eq_true in Hd as ->.
  destruct (split_once (lit "$") rest) as [[name r]|] eqn:Es; [|done]. apply split_once_Some in Es as ->.
  destruct (forallb is_tag_char name); [|done]. intros Ht%(inj Some). subst t. split; [|done].
  replace (length (chr "$" :: name ++ lit "$") - 1) with (length (name ++ lit "$")) by (simpl; lia).
  by rewrite app_assoc, take_app_length.
Qed.

Lemma covers_open st ch rest o out k :
  range_open p st ch rest = Some (o, out, k) →
  tag st ≠ Some [] →
  ∃ st', o = Some st' ∧ covers st (ch :: take k rest) st' out ∧ tag st' ≠ Some [].
Proof.
  intros E Ht. revert E. unfold range_open.
  destruct (at2 (chr "-") (chr "-") ch rest) eqn:E1.
  { apply andb_true_iff in E1 as [->%bool_decide_eq_true Hr%bool_decide_eq_true]. intros [= <- <- <-].
    eexists. split; [done|]. destruct rest; [done|]. injection Hr as ->.
    split; [apply covers_advance; by destruct st|by destruct st]. }
  destruct (_ && bool_decide (ch = chr "#")).
  { intros [= <- <- <-]. eexists. split; [done|]. split; [apply covers_advance; by destruct st|by destruct st]. }
  destruct (at2 (chr "/") (chr "*") ch rest) eqn:E2.
  { apply andb_true_iff in E2 as [->%bool_decide_eq_true Hr%bool_decide_eq_true]. intros [= <- <- <-].
    eexists. split; [done|]. destruct rest; [done|]. injection Hr as ->.
    split; [apply covers_advance; by destruct st|by destruct st]. }
  destruct (if supports_dollar_quoted_strings p then _ else _) as [t|] eqn:Et; [|done].
  destruct (supports_dollar_quoted_strings p); [|done].
  destruct (_ && negb (on_delimiter_line_of (cur st))); [|done]. intros [= <- <- <-].
  destruct (str_tag_prefix _ _ _ Et) as [-> Hne].
  eexists. split; [done|]. split; [apply covers_same; case_match; by destruct st|].
  case_match; destruct st; simpl; congruence.
Qed.

Lemma covers_line st o out :
  range_line p st = Some (o, out) → ∀ st', o = Some st' → covers st [NL] st' out.
Proof.
  intros E st' ->. unfold range_line, slice_to_line in E.
  pose proof (split_last_app NL (before st ++ cur st)) as Hs.
  destruct (split_last NL (before st ++ cur st)) as [upto line]. simpl in Hs.
  assert (∀ st1, before st1 = before st → cur st1 = cur st → length (before st) ≤ length upto →
    covers st [NL] (restart (advance [NL] st1)) (push_statement_range (before st) (drop (length (before st)) upto) p)) as He.
  { intros st1 Hb Hc Hle. apply (covers_emit _ _ _ _ (line ++ [NL])); [by destruct st1..| |];
      [destruct st1; simpl in *; by subst|].
    apply (f_equal (drop (length (before st)))) in Hs. rewrite drop_app_le, drop_app_length in Hs by done.
    by rewrite <- Hs, app_assoc. }
  assert (∀ st1, before st1 = before st → cur st1 = cur st → length (before st) ≤ length upto →
    covers st [NL] (restart (advance [NL] st1)) []) as Hn.
  { intros st1 Hb Hc Hle. destruct (He st1 Hb Hc Hle) as (E1 & _ & E3). split_and!; [done|done|].
    simpl. destruct st1; simpl in *. subst. rewrite byte_len_app. lia. }
  repeat case_match; simplify_eq;
    first [apply He; [by destruct st..|done]|apply Hn; [by destruct st..|done]].
Qed.

(** The other branches leave the dollar tag alone. *)
Lemma range_line_tag st st' out : range_line p st = Some (Some st', out) → tag st' = tag st.
Proof. unfold range_line. intros E. repeat case_match; simplify_eq; by destruct st. Qed.

Lemma range_char_tag st ch : tag (range_char p st ch).1 = tag st.
Proof. unfold range_char, range_semicolon. repeat case_match; by destruct st. Qed.

Lemma covers_step st ch rest st' out k :
  range_step p (Some st) ch rest = (Some st', out, k) → tag st ≠ Some [] →
  covers st (ch :: take k rest) st' out ∧ tag st' ≠ Some [].
Proof.
  intros E Htag. revert E. unfold range_step. destruct (tag st) as [t|] eqn:Et.
  { destruct (starts_with t (ch :: rest)) eqn:Es; intros [= <- <- <-].
    - apply starts_with_spec, prefix_is_take in Es.
      destruct t as [|c t]; [done|]. simpl in *. injection Es as -> Hr. rewrite Nat.sub_0_r, <- Hr.
      split; [apply covers_same; by destruct st|by destruct st].
    - split; [by apply covers_advance|]. by destruct st; simpl in *; simplify_eq. }
  assert (∀ s st1, before st1 = before st → cur st1 = cur st → tag st1 = None →
            covers st s (advance s st1) [] ∧ tag (advance s st1) ≠ Some []) as Ha.
  { intros s st1 Hb Hc Ht. split; [by apply covers_advance|]. destruct st1; simpl in *; congruence. }
  destruct (line_comment st); [intros [= <- <- <-]; apply Ha; case_decide; by destruct st|].
  destruct (block_comment st).
  { destruct (at2 (chr "*") (chr "/") ch rest) eqn:E2; intros [= <- <- <-]; [|by apply Ha].
    apply andb_true_iff in E2 as [->%bool_decide_eq_true Hr%bool_decide_eq_true].
    destruct rest; [done|]. injection Hr as ->. apply Ha; by destruct st. }
  destruct (if range_unquoted st then range_open p st ch rest else None) as [[[o1 out1] k1]|] eqn:Eo.
  { destruct (range_unquoted st); [|done]. intros [= -> -> ->].
    apply covers_open in Eo as (st1 & [= <-] & Hc); [done|congruence]. }
  destruct (if range_unquoted st && bool_decide (ch = NL) then range_line p st else None) as [[o1 out1]|] eqn:El.
  - destruct (range_unquoted st && bool_decide (ch = NL)) eqn:Hc; [|done].
    apply andb_true_iff in Hc as [_ ->%bool_decide_eq_true]. intros [= -> -> <-].
    split; [by eapply covers_line|]. apply range_line_tag in El. congruence.
  - pose proof (range_char_tag st ch) as Hr. destruct (range_char p st ch) as [st1 out1] eqn:Ec.
    intros [= <- <- <-]. split; [by apply covers_char|]. simpl in Hr. congruence.
Qed.

Lemma covers_scan s st st' out :
  scan (range_step p) 0 (Some st) s = (Some st', out) → tag st ≠ Some [] → covers st s st' out.
Proof.
  intros E. apply (scan_rel (range_step p) (λ o s o' out, (o = None → o' = None) ∧
    ∀ st st', o = Some st → o' = Some st' → tag st ≠ Some [] → covers st s st' out)) in E;
    [rewrite drop_0 in E; destruct E; by eauto|..].
  - intros o. split; [done|]. intros st0 st1 -> [= <-] _. apply covers_same; [done|by rewrite app_nil_r].
  - intros o ch rest o1 out1 k o2 out2 Hs [IHn IH]. split.
    { intros ->. injection Hs as <- <- <-. by apply IHn. }
    intros st0 st2 -> -> Ht. destruct o1 as [st1|]; [|by specialize (IHn eq_refl)].
    destruct (covers_step _ _ _ _ _ _ Hs Ht) as [Hc Ht1].
    pose proof (covers_trans _ _ _ _ _ _ _ Hc (IH st1 st2 eq_refl eq_refl Ht1)) as Hf.
    simpl in Hf. by rewrite take_drop in Hf.
Qed.

Lemma ranges_slices sql rs :
  split_sql_statement_ranges_with_options sql p = Some rs →
  Forall (is_slice sql) rs ∧ between 0 (byte_len sql) rs.
Proof.
  unfold split_sql_statement_ranges_with_options.
  destruct (scan (range_step p) 0 (Some ranges_init) sql) as [[st|] out] eqn:E; [|done].
  apply covers_scan in E as (Hsql & Hf & Hb); [|done]. simpl in Hsql, Hf, Hb.
  specialize (Hf []). rewrite app_nil_r in Hf. rewrite <- Hsql in *. intros [= <-].
  assert (∀ slice rest, cur st = slice ++ rest →
    Forall (is_slice (before st ++ cur st)) (push_statement_range (before st) slice p) ∧
    between (byte_len (before st)) (byte_len (before st ++ cur st)) (push_statement_range (before st) slice p)) as Hlast.
  { intros slice rest ->. destruct (push_range_ok (before st) slice rest p) as [H1 H2]. split; [done|].
    rewrite app_assoc, (byte_len_app (before st ++ slice)).
    eapply between_app with (rs2 := []) in H2; [by rewrite app_nil_r in H2|simpl; lia]. }
  assert (∀ rs, Forall (is_slice (before st ++ cur st)) rs ∧
    between (byte_len (before st)) (byte_len (before st ++ cur st)) rs →
    Forall (is_slice (before st ++ cur st)) (out ++ rs) ∧ between 0 (byte_len (before st ++ cur st)) (out ++ rs)) as Happ.
  { intros rs [H1 H2]. split; [by apply Forall_app|by eapply between_app]. }
  apply Happ. pose proof (split_last_app NL (cur st)) as Hu. destruct (split_last NL (cur st)) as [upto line].
  simpl in Hu |- *. repeat case_match.
  - split; [done|]. simpl. rewrite byte_len_app. lia.
  - by apply (Hlast _ line).
  - apply (Hlast _ []). by rewrite app_nil_r.
Qed.

(** When the range splitter returns, each range is a non-empty slice of the editor text at its
    byte offsets, and the ranges are in order and do not overlap. *)
Theorem ranges_are_ordered_slices sql rs :
  split_sql_statement_ranges_with_options sql p = Some rs →
  Forall (is_slice sql) rs ∧ between 0 (byte_len sql) rs.
Proof. apply ranges_slices. Qed.

(** *** Panics *)

(** The line that ends [u] is not a client command. *)
Definition not_command (u : str) : bool :=
  let line := trim (split_last NL u).2 in
  negb (bool_decide (is_Some (parse_delimiter_command line))) &&
  negb (supports_slash_line_block_delimiter p && bool_decide (line = lit "/")).

Lemma step_not_command st ch rest :
  not_command (before st ++ cur st) = true → tag st ≠ Some [] →
  ∃ st' out k, range_step p (Some st) ch rest = (Some st', out, k).
Proof.
  intros Hn Ht. unfold range_step. destruct (tag st) as [t|] eqn:Et; [case_match; eauto|].
  destruct (line_comment st); [eauto|]. destruct (block_comment st); [case_match; eauto|].
  destruct (if range_unquoted st then range_open p st ch rest else None) as [[[o1 out1] k1]|] eqn:Eo.
  { destruct (range_unquoted st); [|done]. apply covers_open in Eo as (st1 & -> & _); [eauto|congruence]. }
  assert (range_line p st = None) as ->.
  { unfold not_command in Hn. apply andb_true_iff in Hn as [Hd%negb_true_iff Hs%negb_true_iff].
    unfold range_line, current_line. rewrite Hs.
    destruct (supports_custom_delimiter_commands p); [|done].
    apply bool_decide_eq_false in Hd. destruct (parse_delimiter_command _) eqn:E; [|done]. destruct Hd. by eexists. }
  destruct (range_char p st ch). destruct (_ && bool_decide (ch = NL)); eauto.
Qed.

(** On a text without DELIMITER commands and, where the dialect has them, lines that are a
    single slash, no slice of the range splitter is out of order: it returns. *)
Theorem ranges_without_client_commands_do_not_panic sql :
  (∀ k, not_command (take k sql) = true) → is_Some (split_sql_statement_ranges_with_options sql p).
Proof.
  intros Hn. unfold split_sql_statement_ranges_with_options.
  destruct (scan (range_step p) 0 (Some ranges_init) sql) as [o out] eqn:E.
  enough (is_Some o) as [st ->] by by eexists.
  pose (R := λ (o : option ranges_state) (s : str) (o' : option ranges_state) (_ : list SqlStatementRange),
    ∀ st, o = Some st → tag st ≠ Some [] →
    (∀ k, not_command (before st ++ cur st ++ take k s) = true) → is_Some o').
  enough (R (Some ranges_init) (drop 0 sql) o out) as HR by (apply (HR ranges_init eq_refl); [done|exact Hn]).
  revert E. apply scan_rel; unfold R; clear.
  - intros o st -> _ _. by eexists.
  - intros o ch rest o1 out1 k o2 out2 Hs IH st -> Ht Hn.
    destruct (step_not_command st ch rest) as (st1 & out & k1 & Hs'); [specialize (Hn 0); simpl in Hn; by rewrite app_nil_r in Hn|done|].
    rewrite Hs in Hs'. simplify_eq. destruct (covers_step _ _ _ _ _ _ Hs Ht) as [(Hc & _) Ht1].
    apply (IH st1 eq_refl Ht1). intros j. specialize (Hn (S (k1 + j))). simpl in Hn.
    rewrite app_assoc, Hc, <- !app_assoc, <- app_comm_cons, take_take_drop. done.
Qed.
End well_formed.

(** A client command line that contains the delimiter in force makes the range
    splitter panic. *)
Theorem redeclared_delimiter_panics `{OracleTokenizer} :
  split_sql_statement_ranges_with_options
    (lit "DELIMITER //" ++ [NL] ++ lit "SELECT 1//" ++ [NL] ++ lit "DELIMITER //" ++ [NL]) mysql_compatible = None ∧
  split_sql_statement_ranges_with_options
    (lit "DELIMITER /" ++ [NL] ++ lit "SELECT 1" ++ [NL] ++ lit "/" ++ [NL]) oracle_like = None.
Proof. vm_compute. done. Qed.

(** The two splitters disagree on [--] in MySQL. *)
Theorem ranges_ignore_the_mysql_dash_rule `{OracleTokenizer} :
  let sql := lit "SELECT 5--1; SELECT 2" in
  split_sql_statements_with_options sql mysql_compatible = [lit "SELECT 5--1"; lit "SELECT 2"] ∧
  option_map (map text) (split_sql_statement_ranges_with_options sql mysql_compatible) = Some [sql].
Proof. vm_compute. done. Qed.

(** ** Witnesses *)
Definition ranges1 : str := lit "SELECT 1; -- x; y" ++ [NL] ++ lit "SELECT 'a;b'".

Lemma ranges_witness :
  Forall (is_slice ranges1) [mkRange (lit "SELECT 1") 0 8; mkRange (lit "SELECT 'a;b'") 18 30] ∧
  between 0 (byte_len ranges1) [mkRange (lit "SELECT 1") 0 8; mkRange (lit "SELECT 'a;b'") 18 30].
Proof.
  apply (ranges_are_ordered_slices (H := no_tokenizer) profile_default). vm_compute. reflexivity.
Defined.

Lemma no_panic_witness :
  is_Some (split_sql_statement_ranges_with_options (H := no_tokenizer) ranges1 profile_default).
Proof.
  apply (ranges_without_client_commands_do_not_panic (H := no_tokenizer) profile_default).
  intros k. destruct (decide (k ≤ length ranges1)) as [Hk|Hk].
  - do 31 (destruct k as [|k]; [vm_compute; reflexivity|]). vm_compute in Hk. lia.
  - rewrite take_ge by lia. vm_compute. reflexivity.
Defined.
