(* ===== verification/SqlFile.v ===== *)
(** SQL files: the masking scanner, SQL Server batches, [psql] client commands
    ([crates/dbx-core/src/sql.rs]) and the splitters that read a file chunk by
    chunk ([crates/dbx-core/src/sql_file_import.rs]). *)
From S2P Require Import Prelude SqlDialect SqlSplitter SqlRanges.
Local Open Scope dbx_scope.

(** ** The masking scanner *)
Record SqlScanner := mkScanner {
  sc_profile : SqlDialectProfile;
  sc_single : bool;
  sc_double : bool;
  sc_backtick : bool;
  sc_line : bool;
  sc_block : bool;
  sc_tag : option str;
  sc_previous : option char;
}.

Definition scanner_with_profile (p : SqlDialectProfile) : SqlScanner :=
  mkScanner p false false false false false None None.

Definition is_masked (sc : SqlScanner) : bool :=
  sc_single sc || sc_double sc || sc_backtick sc || sc_line sc || sc_block sc || bool_decide (sc_tag sc ≠ None).

(** [rest] is the text after [ch]. *)
Definition scanner_step (sc : SqlScanner) (ch : char) (rest : str) : SqlScanner :=
  let 'mkScanner p sq dq bt lc bc t pv := sc in
  match t with
  | Some tg => mkScanner p sq dq bt lc bc (if starts_with tg (ch :: rest) then None else Some tg) (Some ch)
  | None =>
      if lc then mkScanner p sq dq bt (negb (bool_decide (ch = NL))) bc t (Some ch)
      else if bc then
        mkScanner p sq dq bt lc (negb (bool_decide (pv = Some (chr "*")) && bool_decide (ch = chr "/"))) t (Some ch)
      else
        let '(lc, bc, t) :=
          if negb sq && negb dq && negb bt then
            if at2 (chr "-") (chr "-") ch rest || (supports_hash_line_comments p && bool_decide (ch = chr "#"))
            then (true, bc, t)
            else if at2 (chr "/") (chr "*") ch rest then (lc, true, t)
            else match (if supports_dollar_quoted_strings p then dollar_quote_tag_at_str (ch :: rest) else None) with
                 | Some tg => (lc, bc, Some tg)
                 | None => (lc, bc, t)
                 end
          else (lc, bc, t) in
        let escaped := bool_decide (pv = Some BACKSLASH) in
        if bool_decide (ch = SQUOTE) && negb dq && negb bt && negb escaped
        then mkScanner p (negb sq) dq bt lc bc t (Some ch)
        else if bool_decide (ch = DQUOTE) && negb sq && negb bt && negb escaped
        then mkScanner p sq (negb dq) bt lc bc t (Some ch)
        else if bool_decide (ch = BACKTICK) && negb sq && negb dq
        then mkScanner p sq dq (negb bt) lc bc t (Some ch)
        else mkScanner p sq dq bt lc bc t (Some ch)
  end.

(** The steps over [s], which stands before [after]. *)
Fixpoint scanner_steps (sc : SqlScanner) (s after : str) : SqlScanner :=
  match s with
  | [] => sc
  | ch :: r => scanner_steps (scanner_step sc ch (r ++ after)) r after
  end.

(** ** SQL Server batches of a whole text *)
Definition is_go_separator (line : str) : bool :=
  let trimmed := trim line in
  eq_ignore_ascii_case trimmed (lit "go") ||
  (starts_with (lit "go ") (to_ascii_lowercase trimmed) && bool_decide (trim (drop 2 trimmed) = [])).

(** The text after a line. *)
Definition after_line (rest : list str) : str := match rest with [] => [] | _ => NL :: join [NL] rest end.
(** The newline of a line that is not the last one. *)
Definition newline_of (rest : list str) : str := match rest with [] => [] | _ => [NL] end.

Definition push_batch_range (before slice : str) : list SqlStatementRange :=
  push_statement_range before slice profile_default.

(** [done] is [sql[..current_start]] and [batch] the text from there. *)
Fixpoint batch_lines (p : SqlDialectProfile) (sc : SqlScanner) (done batch : str) (lines : list str)
  : list SqlStatementRange :=
  match lines with
  | [] => push_batch_range done batch
  | line :: rest =>
      let newline sc := match rest with [] => sc | _ => scanner_step sc NL (join [NL] rest) end in
      if supports_go_batch_separator p && negb (is_masked sc) && is_go_separator line then
        push_batch_range done batch ++
        batch_lines p (newline sc) (done ++ batch ++ line ++ newline_of rest) [] rest
      else
        batch_lines p (newline (scanner_steps sc line (after_line rest))) done
          (batch ++ line ++ newline_of rest) rest
  end.

Definition split_sql_batch_ranges (sql : str) (p : SqlDialectProfile) : list SqlStatementRange :=
  batch_lines p (scanner_with_profile p) [] [] (split_char NL sql).

Definition split_sql_batches (sql : str) : list str :=
  match split_sql_batch_ranges sql sql_server with
  | [] => match trim sql with [] => [] | trimmed => [trimmed] end
  | ranges => text <$> ranges
  end.

(** ** [psql] client commands *)

(** [sql.split_inclusive('\n')]: the lines, each with whether it ends in a newline. *)
Fixpoint split_inclusive (s : str) : list (str * bool) :=
  match s with
  | [] => []
  | c :: r =>
      if decide (c = NL) then ([], true) :: split_inclusive r
      else match split_inclusive r with
           | [] => [([c], false)]
           | (l, b) :: ls => (c :: l, b) :: ls
           end
  end.

Definition segment (x : str * bool) : str := x.1 ++ if x.2 then [NL] else [].

Definition blank (c : char) : char := if is_whitespace c then c else 32%N.

Fixpoint psql_lines (sc : SqlScanner) (stop : bool) (lines : list (str * bool)) : str * bool :=
  match lines with
  | [] => ([], stop)
  | x :: rest =>
      let line := x.1 in
      let after := concat (segment <$> rest) in
      match (if is_masked sc then None else parse_ignorable_psql_control_command (trim line)) with
      | Some command =>
          let sc := if x.2 then scanner_step sc NL after else sc in
          let '(out, stop) := psql_lines sc (stop || bool_decide (command = OnErrorStop)) rest in
          ((blank <$> line) ++ (if x.2 then [NL] else []) ++ out, stop)
      | None =>
          let '(out, stop) := psql_lines (scanner_steps sc (segment x) after) stop rest in
          (segment x ++ out, stop)
      end
  end.

Definition preprocess_psql_control_commands (sql : str) (p : SqlDialectProfile) : str * bool :=
  psql_lines (scanner_with_profile p) false (split_inclusive sql).

Record SqlExecutionPlan := mkPlan { statements : list str; plan_stop_on_error : bool }.

Definition sql_execution_plan_for_database `{OracleTokenizer} (sql : str) (d : DatabaseType.t) : SqlExecutionPlan :=
  let p := for_database_type d in
  if negb (supports_psql_control_commands p)
  then mkPlan (split_sql_statements_with_options sql p) false
  else
    let '(sql, stop) := preprocess_psql_control_commands sql p in
    mkPlan (split_sql_statements_with_options sql (without_psql p)) stop.

Definition split_sql_statements_for_database `{OracleTokenizer} (sql : str) (d : DatabaseType.t) : list str :=
  statements (sql_execution_plan_for_database sql d).

(** ** SQL Server batches, chunk by chunk *)
Record SqlServerBatchSplitter := mkBatch { batch : str; partial_line : str }.

Definition batch_default : SqlServerBatchSplitter := mkBatch [] [].

Definition push_batch (st : SqlServerBatchSplitter) : SqlServerBatchSplitter * list str :=
  (mkBatch [] (partial_line st), match trim (batch st) with [] => [] | b => [b] end).

Definition push_line (st : SqlServerBatchSplitter) (line : str) : SqlServerBatchSplitter * list str :=
  if eq_ignore_ascii_case (trim line) (lit "go") then push_batch st
  else (mkBatch (batch st ++ line ++ [NL]) (partial_line st), []).

Definition trim_end_cr (line : str) : str := reverse (drop_while (λ c, bool_decide (c = CR)) (reverse line)).

(** The complete lines of a text, and what follows the last newline. *)
Fixpoint complete_lines (s : str) : list str * str :=
  match s with
  | [] => ([], [])
  | c :: r =>
      let '(ls, rem) := complete_lines r in
      if decide (c = NL) then ([] :: ls, rem)
      else match ls with
           | [] => ([], c :: rem)
           | l :: ls' => ((c :: l) :: ls', rem)
           end
  end.

Fixpoint push_lines (st : SqlServerBatchSplitter) (ls : list str) : SqlServerBatchSplitter * list str :=
  match ls with
  | [] => (st, [])
  | l :: ls' => let '(st1, out1) := push_line st (trim_end_cr l) in
                let '(st2, out2) := push_lines st1 ls' in (st2, out1 ++ out2)
  end.

Definition batch_push_chunk (chunk : str) (st : SqlServerBatchSplitter) : SqlServerBatchSplitter * list str :=
  let '(ls, rem) := complete_lines (partial_line st ++ chunk) in
  let '(st1, out) := push_lines st ls in (mkBatch (batch st1) rem, out).

Definition batch_finish (st : SqlServerBatchSplitter) : list str :=
  let '(st1, out1) := match partial_line st with
                      | [] => (st, [])
                      | line => push_line (mkBatch (batch st) []) (trim_end_cr line)
                      end in
  out1 ++ (push_batch st1).2.

(** ** The splitter of a file *)
Inductive StreamingSqlFileSplitter :=
| Statements (splitter : SqlStatementSplitter)
| SqlServerBatches (splitter : SqlServerBatchSplitter).

Definition streaming_new (d : option DatabaseType.t) (p : SqlDialectProfile) : StreamingSqlFileSplitter :=
  if decide (d = Some DatabaseType.SqlServer) then SqlServerBatches batch_default else Statements (with_options p).

Definition streaming_push_chunk `{OracleTokenizer} (chunk : str) (s : StreamingSqlFileSplitter)
  : StreamingSqlFileSplitter * list SqlStatementWithControl :=
  match s with
  | Statements st => let '(st, out) := push_chunk_with_control chunk st in (Statements st, out)
  | SqlServerBatches st =>
      let '(st, out) := batch_push_chunk chunk st in (SqlServerBatches st, (λ t, mkStatement t false) <$> out)
  end.

Definition streaming_finish `{OracleTokenizer} (s : StreamingSqlFileSplitter) : list SqlStatementWithControl :=
  match s with
  | Statements st => finish_with_control st
  | SqlServerBatches st => (λ t, mkStatement t false) <$> batch_finish st
  end.

(** ** Any chunking gives the same batches *)
Section batches.
Implicit Types (st : SqlServerBatchSplitter) (ls : list str) (a b s : str).

Lemma complete_lines_app a b :
  complete_lines (a ++ b) =
    (let '(la, ra) := complete_lines a in
     let '(lb, rb) := complete_lines (ra ++ b) in (la ++ lb, rb)).
Proof.
  induction a as [|c a IH]; simpl; [by destruct (complete_lines b)|]. rewrite IH.
  destruct (complete_lines a) as [la ra]. destruct (decide (c = NL)).
  - by destruct (complete_lines (ra ++ b)).
  - destruct la as [|l la]; simpl.
    + destruct (complete_lines (ra ++ b)) as [lb rb]. rewrite decide_False by done. by destruct lb.
    + by destruct (complete_lines (ra ++ b)).
Qed.

Lemma push_lines_app st ls1 ls2 :
  push_lines st (ls1 ++ ls2) =
    (let '(st1, out1) := push_lines st ls1 in
     let '(st2, out2) := push_lines st1 ls2 in (st2, out1 ++ out2)).
Proof.
  revert st. induction ls1 as [|l ls1 IH]; intros st; simpl; [by destruct (push_lines st ls2)|].
  destruct (push_line st (trim_end_cr l)) as [st1 out1]. rewrite IH.
  destruct (push_lines st1 ls1) as [st2 out2]. destruct (push_lines st2 ls2). by rewrite app_assoc.
Qed.

(** The unfinished line plays no part in the complete ones. *)
Lemma push_lines_partial b r r' ls :
  push_lines (mkBatch b r) ls =
    (let '(st, out) := push_lines (mkBatch b r') ls in (mkBatch (batch st) r, out)).
Proof.
  revert b. induction ls as [|l ls IH]; intros b; [done|]. cbn [push_lines].
  unfold push_line, push_batch. cbn [batch partial_line].
  destruct (eq_ignore_ascii_case (trim (trim_end_cr l)) (lit "go")); rewrite IH.
  - by destruct (push_lines (mkBatch [] r') ls).
  - by destruct (push_lines (mkBatch (b ++ trim_end_cr l ++ [NL]) r') ls).
Qed.

Lemma batch_push_app a b st :
  batch_push_chunk (a ++ b) st =
    (let '(st1, out1) := batch_push_chunk a st in
     let '(st2, out2) := batch_push_chunk b st1 in (st2, out1 ++ out2)).
Proof.
  unfold batch_push_chunk. rewrite app_assoc, complete_lines_app.
  destruct (complete_lines (partial_line st ++ a)) as [la ra]. 
  destruct (complete_lines (ra ++ b)) as [lb rb] eqn:Eb. rewrite push_lines_app.
  destruct (push_lines st la) as [[b1 r1] out1]. simpl. rewrite Eb, (push_lines_partial b1 r1 ra).
  by destruct (push_lines (mkBatch b1 ra) lb).
Qed.

Fixpoint batch_push_chunks (chunks : list str) st : SqlServerBatchSplitter * list str :=
  match chunks with
  | [] => (st, [])
  | c :: cs => let '(st1, out1) := batch_push_chunk c st in
               let '(st2, out2) := batch_push_chunks cs st1 in (st2, out1 ++ out2)
  end.

(** The batches of a file read in [chunks]. *)
Definition stream_batches (chunks : list str) : list str :=
  let '(st, out) := batch_push_chunks chunks batch_default in out ++ batch_finish st.

Lemma complete_lines_remainder s : complete_lines (complete_lines s).2 = ([], (complete_lines s).2).
Proof.
  induction s as [|c s IH]; simpl; [done|]. destruct (complete_lines s) as [ls rem] eqn:E. simpl in IH.
  destruct (decide (c = NL)); [done|]. destruct ls; simpl; [|done].
  rewrite IH. by rewrite decide_False.
Qed.

Lemma batch_push_nil st : complete_lines (partial_line st) = ([], partial_line st) → batch_push_chunk [] st = (st, []).
Proof. intros E. unfold batch_push_chunk. rewrite app_nil_r, E. by destruct st. Qed.

Lemma batch_push_chunks_concat chunks st :
  complete_lines (partial_line st) = ([], partial_line st) →
  batch_push_chunks chunks st = batch_push_chunk (concat chunks) st.
Proof.
  revert st. induction chunks as [|c cs IH]; intros st Hst; simpl; [by rewrite batch_push_nil|].
  rewrite batch_push_app. destruct (batch_push_chunk c st) as [st1 out1] eqn:E.
  rewrite IH; [done|]. revert E. unfold batch_push_chunk.
  pose proof (complete_lines_remainder (partial_line st ++ c)) as Hr.
  destruct (complete_lines (partial_line st ++ c)) as [ls rem].
  destruct (push_lines st ls). by intros [= <- <-].
Qed.

(** The streaming SQL Server batch splitter yields the same batches however the file is cut
    into chunks. *)
Theorem chunking_does_not_change_batches chunks :
  stream_batches chunks = stream_batches [concat chunks].
Proof.
  unfold stream_batches. rewrite !batch_push_chunks_concat by done. simpl. by rewrite app_nil_r.
Qed.

(** The streaming splitter ends a batch at a [GO] inside a comment. *)
Theorem streamed_batches_split_inside_comments :
  let sql := lit "SELECT 1 /*" ++ [NL] ++ lit "GO" ++ [NL] ++ lit "*/ + 2" in
  split_sql_batches sql = [sql] ∧
  stream_batches [sql] = [lit "SELECT 1 /*"; lit "*/ + 2"].
Proof. vm_compute. done. Qed.
End batches.

(** ** Batches of a whole text are slices of it *)
Lemma join_cons l rest : join [NL] (l :: rest) = l ++ after_line rest.
Proof. destruct rest; simpl; [by rewrite app_nil_r|done]. Qed.

Lemma newline_after rest : newline_of rest ++ join [NL] rest = after_line rest.
Proof. by destruct rest. Qed.

Lemma batch_lines_ok p sc done_ b lines :
  Forall (is_slice (done_ ++ b ++ join [NL] lines)) (batch_lines p sc done_ b lines) ∧
  between (byte_len done_) (byte_len (done_ ++ b ++ join [NL] lines)) (batch_lines p sc done_ b lines).
Proof.
  revert sc done_ b. induction lines as [|l rest IH]; intros sc done_ b.
  - unfold batch_lines, push_batch_range. cbn [join]. destruct (push_range_ok done_ b [] profile_default) as [H1 H2].
    rewrite !app_nil_r in *. done.
  - cbn [batch_lines]. rewrite join_cons, <- newline_after. case_match.
    + destruct (push_range_ok done_ b (l ++ newline_of rest ++ join [NL] rest) profile_default) as [H1 H2].
      destruct (IH (match rest with [] => sc | _ => scanner_step sc NL (join [NL] rest) end)
                  (done_ ++ b ++ l ++ newline_of rest) []) as [H3 H4].
      simpl app in H3, H4. rewrite <- !app_assoc in *. split; [by apply Forall_app|].
      eapply between_app; [exact H2|]. eapply (between_app _ _ _ []); [|exact H4]. simpl.
      rewrite !byte_len_app. lia.
    + match goal with |- context [batch_lines p ?sc1 done_ _ rest] =>
        destruct (IH sc1 done_ (b ++ l ++ newline_of rest)) as [H3 H4] end.
      rewrite <- !app_assoc in *. done.
Qed.

Lemma batch_ranges_slices sql p :
  Forall (is_slice sql) (split_sql_batch_ranges sql p) ∧ between 0 (byte_len sql) (split_sql_batch_ranges sql p).
Proof.
  pose proof (batch_lines_ok p (scanner_with_profile p) [] [] (split_char NL sql)) as Hok.
  simpl in Hok. by rewrite (join_split_char NL) in Hok.
Qed.

(** The batch ranges of a SQL Server script are non-empty slices at their byte offsets, in
    order and without overlap, for every text and profile. *)
Theorem batch_ranges_are_ordered_slices sql p :
  Forall (is_slice sql) (split_sql_batch_ranges sql p) ∧ between 0 (byte_len sql) (split_sql_batch_ranges sql p).
Proof. apply batch_ranges_slices. Qed.

(** ** Blanking client commands keeps every offset *)
Section psql.
Implicit Types (s line : str).

Lemma segments_concat s : concat (segment <$> split_inclusive s) = s.
Proof.
  induction s as [|c s IH]; [done|]. cbn [split_inclusive]. destruct (decide (c = NL)) as [->|].
  - rewrite fmap_cons. cbn [concat]. by rewrite IH.
  - destruct (split_inclusive s) as [|[l b] ls]; cbn in *; [by rewrite <- IH|]. by rewrite <- IH.
Qed.

Lemma words_cover_acc w s c :
  c ∈ w ++ s → is_whitespace c = true ∨ ∃ x, x ∈ words_acc w s ∧ c ∈ x.
Proof.
  revert w. induction s as [|d s IH]; intros w; simpl.
  - rewrite app_nil_r. intros Hc. right. destruct w; [set_solver|]. eexists. split; [apply list_elem_of_here|done].
  - intros Hc. destruct (is_whitespace d) eqn:Ed.
    + rewrite elem_of_app, elem_of_cons in Hc. destruct Hc as [Hc|[->|Hc]]; [|by left|].
      * right. destruct w; [set_solver|]. eexists. split; [apply list_elem_of_here|done].
      * destruct (IH [] Hc) as [?|(x & Hx & ?)]; [by left|]. right. exists x. split; [|done].
        destruct w; [done|]. by apply elem_of_cons; right.
    + apply IH. by rewrite <- app_assoc.
Qed.

Lemma drop_while_dropped f s c : c ∈ s → f c = true ∨ c ∈ drop_while f s.
Proof.
  induction s as [|d s IH]; [set_solver|]. simpl. rewrite elem_of_cons. destruct (f d) eqn:E; [|set_solver].
  intros [->|?]; [by left|auto].
Qed.

Lemma trim_dropped s c : c ∈ s → is_whitespace c = true ∨ c ∈ trim s.
Proof.
  intros [?|Hc]%(drop_while_dropped is_whitespace); [by left|].
  unfold trim, trim_end. rewrite elem_of_reverse. apply drop_while_dropped. by rewrite elem_of_reverse.
Qed.

Lemma ascii_lower_ascii c : is_ascii (ascii_lower c) = true → is_ascii c = true.
Proof. unfold is_ascii, ascii_lower, is_ascii_uppercase. rewrite !bool_decide_eq_true. case_bool_decide; lia. Qed.
Lemma ascii_upper_ascii c : is_ascii (ascii_upper c) = true → is_ascii c = true.
Proof. unfold is_ascii, ascii_upper, is_ascii_lowercase. rewrite !bool_decide_eq_true. case_bool_decide; lia. Qed.

Lemma ascii_map f s t :
  (∀ c, is_ascii (f c) = true → is_ascii c = true) → f <$> s = t → forallb is_ascii t = true →
  ∀ c, c ∈ s → is_ascii c = true.
Proof.
  intros Hf <-. rewrite forallb_forall. intros Hall c Hc. apply Hf, Hall, list_elem_of_In, list_elem_of_fmap. eauto.
Qed.

(** A word equal to an ASCII literal up to case is ASCII. *)
Lemma ascii_word w t c :
  eq_ignore_ascii_case w t = true → forallb is_ascii (to_ascii_lowercase t) = true → c ∈ w → is_ascii c = true.
Proof. unfold eq_ignore_ascii_case. rewrite bool_decide_eq_true. intros E Ht. exact (ascii_map _ _ _ ascii_lower_ascii E Ht c). Qed.

Lemma ascii_one_of w l c :
  is_one_of (to_ascii_lowercase w) l = true → forallb (forallb is_ascii) l = true → c ∈ w → is_ascii c = true.
Proof.
  unfold is_one_of. rewrite existsb_exists. intros (t & Ht & Heq%bool_decide_eq_true) Hall.
  rewrite forallb_forall in Hall. exact (ascii_map _ _ _ ascii_lower_ascii (eq_sym Heq) (Hall t Ht) c).
Qed.

Lemma command_ascii line cmd c :
  parse_ignorable_psql_control_command line = Some cmd → c ∈ line → is_whitespace c = true ∨ is_ascii c = true.
Proof.
  intros Hp Hc. destruct (words_cover_acc [] line c Hc) as [?|(x & Hx & Hcx)]; [by left|right].
  unfold parse_ignorable_psql_control_command in Hp. fold (split_whitespace line) in Hx.
  destruct (split_whitespace line) as [|command parts]; [done|].
  destruct (eq_ignore_ascii_case command (BACKSLASH :: lit "timing")) eqn:E1.
  { destruct parts as [|value [|? ?]]; [|case_match eqn:E2; [|done]|done].
    - apply list_elem_of_singleton in Hx as ->. by eapply ascii_word.
    - apply elem_of_cons in Hx as [->|Hx]; [by eapply ascii_word|]. apply list_elem_of_singleton in Hx as ->.
      apply orb_true_iff in E2 as [E2|E2]; by eapply ascii_word. }
  destruct (eq_ignore_ascii_case command (BACKSLASH :: lit "set")) eqn:E2; [|done]. cbn [negb] in Hp.
  destruct parts as [|variable [|value [|? ?]]]; try done.
  assert (∀ w t, to_ascii_uppercase w = t → forallb is_ascii t = true → c ∈ w → is_ascii c = true) as Hup.
  { intros w t Ew Ht. exact (ascii_map _ _ _ ascii_upper_ascii Ew Ht c). }
  rewrite !elem_of_cons, elem_of_nil in Hx.
  destruct (decide (to_ascii_uppercase variable = lit "ON_ERROR_STOP")) as [Hv|].
  { destruct (is_one_of (to_ascii_lowercase value) [lit "on"; lit "true"; lit "1"]) eqn:E3; [|done].
    destruct Hx as [->|[->|[->|[]]]]; [by eapply ascii_word|by eapply Hup|by eapply ascii_one_of]. }
  destruct (decide (to_ascii_uppercase variable = lit "VERBOSITY")) as [Hv|]; [|done].
  destruct (is_one_of (to_ascii_lowercase value) [lit "default"; lit "verbose"; lit "terse"; lit "sqlstate"]) eqn:E3; [|done].
  destruct Hx as [->|[->|[->|[]]]]; [by eapply ascii_word|by eapply Hup|by eapply ascii_one_of].
Qed.

(** [d] is [c], or a space in place of an ASCII character. *)
Definition blanked (c d : char) : Prop := d = c ∨ (is_ascii c = true ∧ d = 32%N).

Lemma blanked_refl s : Forall2 blanked s s.
Proof. induction s; constructor; [by left|done]. Qed.

Lemma psql_lines_blanked sc stop lines :
  Forall2 blanked (concat (segment <$> lines)) (psql_lines sc stop lines).1.
Proof.
  revert sc stop. induction lines as [|x rest IH]; intros sc stop; [constructor|].
  cbn [psql_lines]. rewrite fmap_cons. cbn [concat].
  destruct (if is_masked sc then None else _) as [command|] eqn:E.
  - set (sc' := if x.2 then _ else sc). set (stop' := stop || _). specialize (IH sc' stop').
    destruct (psql_lines sc' stop' rest) as [out st]. simpl in IH |- *. unfold segment. rewrite <- app_assoc.
    apply Forall2_app; [|apply Forall2_app; [apply blanked_refl|done]].
    destruct (is_masked sc); [done|]. apply Forall2_fmap_r, Forall_Forall2_diag. rewrite Forall_forall. intros c Hc.
    change (blanked c (blank c)). unfold blanked, blank. destruct (is_whitespace c) eqn:Ew; [by left|right]. split; [|done].
    apply trim_dropped in Hc as [?|Hc]; [congruence|]. by destruct (command_ascii _ _ _ E Hc); [congruence|].
  - set (sc' := scanner_steps _ _ _). specialize (IH sc' stop).
    destruct (psql_lines sc' stop rest) as [out st]. simpl in IH |- *.
    apply Forall2_app; [apply blanked_refl|done].
Qed.

Lemma blanked_byte_len s t : Forall2 blanked s t → byte_len t = byte_len s.
Proof.
  induction 1 as [|c d s t Hcd _ IH]; [done|]. cbn -[len_utf8]. rewrite IH. f_equal.
  destruct Hcd as [->|[Hc ->]]; [done|]. unfold is_ascii in Hc. unfold len_utf8. by rewrite Hc.
Qed.

(** Removing psql client commands before execution only replaces ASCII characters by spaces, so
    that every character and byte offset of the rest of the text stays what it was. *)
Theorem blanking_client_commands_keeps_offsets sql p :
  let out := (preprocess_psql_control_commands sql p).1 in
  Forall2 blanked sql out ∧ length out = length sql ∧ byte_len out = byte_len sql.
Proof.
  intros out. assert (Forall2 blanked sql out) as Hf.
  { unfold out, preprocess_psql_control_commands. rewrite <- (segments_concat sql) at 1. apply psql_lines_blanked. }
  split_and!; [done|symmetry; by eapply Forall2_length|by apply blanked_byte_len].
Qed.
End psql.
