(* ===== verification/SqlCursor.v ===== *)
(** The statement under the cursor of the editor
    ([find_statement_at_cursor_with_options] and its SQL Server variant in
    [crates/dbx-core/src/sql.rs]).

    Byte offsets that are not on a character boundary, and slices whose start
    lies after their end, panic in Rust; operations that slice return an
    [option], [None] being the panic. *)
From S2P Require Import Prelude SqlDialect SqlSplitter SqlRanges SqlFile.
Local Open Scope dbx_scope.

(** ** Offsets *)
Definition len_utf16 (c : char) : nat := if decide (c < 65536)%N then 1 else 2.
Fixpoint utf16_len (s : str) : nat := match s with [] => 0 | c :: r => len_utf16 c + utf16_len r end.

(** [seen] UTF-16 units and [byte] bytes precede [s]. *)
Fixpoint utf16_index (s : str) (byte seen offset : nat) : nat :=
  match s with
  | [] => byte
  | ch :: r =>
      if decide (offset ≤ seen) then byte
      else if decide (offset < seen + len_utf16 ch) then byte + len_utf8 ch
      else utf16_index r (byte + len_utf8 ch) (seen + len_utf16 ch) offset
  end.
Definition utf16_offset_to_byte_index (sql : str) (offset : nat) : nat := utf16_index sql 0 0 offset.

(** [&s[n..]] and [&s[a..b]] *)
Definition slice_from (n : nat) (s : str) : option str :=
  match slice_to n s with Some a => Some (drop (length a) s) | None => None end.
Definition slice (a b : nat) (s : str) : option str :=
  if decide (a ≤ b) then match slice_from a s with Some r => slice_to (b - a) r | None => None end else None.

Definition cursor_has_sql_after_cursor_on_line (sql : str) (cursor : nat) : option bool :=
  match slice_from cursor sql with
  | Some rest => Some (existsb (λ ch, negb (is_whitespace ch)) (take_while not_nl rest))
  | None => None
  end.

(** ** Choosing a range

    [prev] is the range before [ranges]; the last one is chosen when the
    cursor is behind all of them. *)
Fixpoint pick_range (sql : str) (cursor : nat) (prev : option SqlStatementRange) (ranges : list SqlStatementRange)
  : option (option SqlStatementRange) :=
  match ranges with
  | [] => Some prev
  | r :: rs =>
      if decide (start r < cursor ∧ cursor < end_ r) then Some (Some r)
      else if decide (cursor = start r) then
        match cursor_has_sql_after_cursor_on_line sql cursor with
        | Some true => Some (Some r)
        | Some false => Some (Some (default r prev))
        | None => None
        end
      else if decide (cursor < start r) then Some (Some (default r prev))
      else pick_range sql cursor (Some r) rs
  end.

Definition find_statement_text_in_ranges (sql : str) (ranges : list SqlStatementRange) (cursor : nat)
  : option (option str) :=
  match pick_range sql cursor None ranges with
  | Some r => Some (text <$> r)
  | None => None
  end.

Definition soft_keywords : list str :=
  [lit "CREATE"; lit "ALTER"; lit "DROP"; lit "INSERT"; lit "UPDATE"; lit "DELETE"; lit "MERGE"; lit "REPLACE";
   lit "TRUNCATE"; lit "GRANT"; lit "REVOKE"; lit "COMMENT"; lit "EXPLAIN"; lit "SHOW"; lit "DESCRIBE"; lit "USE";
   lit "SET"; lit "CALL"; lit "EXEC"; lit "EXECUTE"; lit "BEGIN"; lit "COMMIT"; lit "ROLLBACK"; lit "DECLARE";
   lit "ANALYZE"; lit "VACUUM"; lit "PRAGMA"; lit "REFRESH"; lit "COPY"].

Definition starts_with_soft_statement_keyword (sql : str) (p : SqlDialectProfile) : bool :=
  (supports_hana_do_blocks p && starts_with_executable_sql_keyword_with_options sql [lit "DO"] p) ||
  starts_with_executable_sql_keyword_with_options sql soft_keywords p.

(** The loop over the characters of a statement.  [before] is
    [sql[..current_start]], [cur] is [sql[current_start..line_start]] and
    [line] is [sql[line_start..idx]]; [after] follows the statement. *)
Fixpoint soft_loop (p : SqlDialectProfile) (after : str) (sc : SqlScanner) (before cur line : str)
    (line_has_non_whitespace : bool) (blank_line_run : nat) (s : str) : list SqlStatementRange :=
  match s with
  | [] => push_statement_range before (cur ++ line) p
  | ch :: r =>
      let sc' := scanner_step sc ch (r ++ after) in
      if decide (ch = NL) then
        soft_loop p after sc' before (cur ++ line ++ [ch]) [] false
          (if negb line_has_non_whitespace && negb (is_masked sc) then S blank_line_run else 0) r
      else if negb line_has_non_whitespace && negb (is_whitespace ch) then
        if bool_decide (2 ≤ blank_line_run) && negb (is_masked sc) && has_executable_sql_with_options cur p &&
           starts_with_soft_statement_keyword (line ++ ch :: r) p
        then push_statement_range before cur p ++
             soft_loop p after sc' (before ++ cur) [] (line ++ [ch]) true 0 r
        else soft_loop p after sc' before cur (line ++ [ch]) true 0 r
      else soft_loop p after sc' before cur (line ++ [ch]) line_has_non_whitespace blank_line_run r
  end.

Section cursor.
Context `{OracleTokenizer}.
Implicit Types (p : SqlDialectProfile) (statement : SqlStatementRange).

Definition split_statement_range_at_blank_lines (sql : str) statement p : option (list SqlStatementRange) :=
  if supports_oracle_plsql_blocks p && starts_with_oracle_plsql_block (text statement) then Some [statement]
  else if supports_hana_do_blocks p && starts_with_hana_do_block (text statement) then Some [statement]
  else
    match slice_to (start statement) sql, slice (start statement) (end_ statement) sql,
          slice_from (end_ statement) sql with
    | Some before, Some body, Some after =>
        Some (match soft_loop p after (scanner_with_profile p) before [] [] false 0 body with
              | [] => [statement]
              | ranges => ranges
              end)
    | _, _, _ => None
    end.

Definition statement_text_at_cursor (sql : str) statement (cursor : nat) p : option str :=
  match split_statement_range_at_blank_lines sql statement p with
  | Some soft_ranges =>
      match find_statement_text_in_ranges sql soft_ranges cursor with
      | Some t => Some (default (text statement) t)
      | None => None
      end
  | None => None
  end.

Definition find_statement_at_cursor_with_options (sql : str) (cursor_pos : nat) p : option str :=
  match split_sql_statement_ranges_with_options sql p with
  | None => None
  | Some statements =>
      let cursor := utf16_offset_to_byte_index sql cursor_pos in
      match pick_range sql cursor None statements with
      | None => None
      | Some None => Some (trim sql)
      | Some (Some statement) => statement_text_at_cursor sql statement cursor p
      end
  end.
Definition find_statement_at_cursor (sql : str) (cursor_pos : nat) : option str :=
  find_statement_at_cursor_with_options sql cursor_pos profile_default.

(** ** SQL Server *)
Definition is_sqlserver_module_keyword (token : str) : bool :=
  existsb (eq_ignore_ascii_case token) [lit "FUNCTION"; lit "PROC"; lit "PROCEDURE"; lit "TRIGGER"; lit "VIEW"].

Definition starts_with_sqlserver_module_ddl (sql : str) : bool :=
  match first_sql_tokens sql 4 with
  | a :: b :: rest =>
      match rest with
      | c :: d :: _ =>
          if eq_ignore_ascii_case a (lit "CREATE") && eq_ignore_ascii_case b (lit "OR") &&
             eq_ignore_ascii_case c (lit "ALTER")
          then is_sqlserver_module_keyword d
          else (eq_ignore_ascii_case a (lit "CREATE") || eq_ignore_ascii_case a (lit "ALTER")) &&
               is_sqlserver_module_keyword b
      | _ => (eq_ignore_ascii_case a (lit "CREATE") || eq_ignore_ascii_case a (lit "ALTER")) &&
             is_sqlserver_module_keyword b
      end
  | _ => false
  end.

Fixpoint find_in_batches (sql : str) (cursor : nat) (prev : option SqlStatementRange) (batches : list SqlStatementRange)
  : option str :=
  match batches with
  | [] => Some (match prev with Some b => text b | None => trim sql end)
  | batch :: rest =>
      if decide (start batch ≤ cursor ∧ cursor ≤ end_ batch) then
        if keeps_sqlserver_module_batch_at_cursor sql_server && starts_with_sqlserver_module_ddl (text batch)
        then Some (text batch)
        else
          match slice_to cursor sql, slice_to (start batch) sql with
          | Some upto, Some pre =>
              find_statement_at_cursor_with_options (text batch) (utf16_len upto - utf16_len pre) profile_default
          | _, _ => None
          end
      else if decide (cursor < start batch) then
        match prev with
        | Some b =>
            if keeps_sqlserver_module_batch_at_cursor sql_server && starts_with_sqlserver_module_ddl (text b)
            then Some (text b)
            else find_statement_at_cursor_with_options (text b) (utf16_len (text b)) profile_default
        | None => Some (text batch)
        end
      else find_in_batches sql cursor (Some batch) rest
  end.

Definition find_sqlserver_statement_at_cursor (sql : str) (cursor_pos : nat) : option str :=
  find_in_batches sql (utf16_offset_to_byte_index sql cursor_pos) None (split_sql_batch_ranges sql sql_server).

Definition find_statement_at_cursor_for_database (sql : str) (cursor_pos : nat) (d : DatabaseType.t) : option str :=
  if decide (d = DatabaseType.SqlServer) then find_sqlserver_statement_at_cursor sql cursor_pos
  else
    let p := for_database_type d in
    if supports_psql_control_commands p then
      find_statement_at_cursor_with_options (preprocess_psql_control_commands sql p).1 cursor_pos (without_psql p)
    else find_statement_at_cursor_with_options sql cursor_pos p.
End cursor.

(** ** Offsets and slices *)
Lemma slice_to_app a b : slice_to (byte_len a) (a ++ b) = Some a.
Proof.
  induction a as [|c a IH]; [by destruct b|]. cbn [app byte_len]. pose proof (len_utf8_pos c).
  destruct (len_utf8 c + byte_len a) eqn:E; [lia|]. cbn [slice_to]. rewrite <- E, decide_True by lia.
  replace (len_utf8 c + byte_len a - len_utf8 c) with (byte_len a) by lia. by rewrite IH.
Qed.
Lemma slice_from_app a b : slice_from (byte_len a) (a ++ b) = Some b.
Proof. unfold slice_from. by rewrite slice_to_app, drop_app_length. Qed.
Lemma slice_app a b c : slice (byte_len a) (byte_len a + byte_len b) (a ++ b ++ c) = Some b.
Proof.
  unfold slice. rewrite decide_True by lia. rewrite slice_from_app.
  replace (byte_len a + byte_len b - byte_len a) with (byte_len b) by lia. apply slice_to_app.
Qed.

Lemma len_utf16_pos c : 1 ≤ len_utf16 c.
Proof. unfold len_utf16. case_decide; lia. Qed.

Lemma utf16_index_boundary s byte seen offset :
  ∃ pre post, s = pre ++ post ∧ utf16_index s byte seen offset = byte + byte_len pre.
Proof.
  revert byte seen. induction s as [|c s IH]; intros byte seen; [by exists [], []; split; simpl; [|lia]|].
  cbn [utf16_index]. case_decide; [by exists [], (c :: s); split; simpl; [|lia]|].
  case_decide; [by exists [c], s; split; cbn -[len_utf8]; [|lia]|].
  destruct (IH (byte + len_utf8 c) (seen + len_utf16 c)) as (pre & post & -> & ->).
  exists (c :: pre), post. split; [done|]. cbn -[len_utf8]. lia.
Qed.

Lemma utf16_index_app pre post byte seen :
  utf16_index (pre ++ post) byte seen (seen + utf16_len pre) = byte + byte_len pre.
Proof.
  revert byte seen. induction pre as [|c pre IH]; intros byte seen.
  - cbn [app utf16_len byte_len]. rewrite !Nat.add_0_r. destruct post; [done|]. simpl. by rewrite decide_True.
  - cbn [app utf16_index utf16_len byte_len]. pose proof (len_utf16_pos c).
    rewrite !decide_False by lia. rewrite Nat.add_assoc, IH. lia.
Qed.

Lemma utf16_offset_app pre post : utf16_offset_to_byte_index (pre ++ post) (utf16_len pre) = byte_len pre.
Proof. apply (utf16_index_app pre post 0 0). Qed.

(** ** The chosen range *)
Lemma has_sql_boundary pre post : is_Some (cursor_has_sql_after_cursor_on_line (pre ++ post) (byte_len pre)).
Proof. unfold cursor_has_sql_after_cursor_on_line. rewrite slice_from_app. eauto. Qed.

Lemma pick_range_elem sql cursor prev ranges r :
  pick_range sql cursor prev ranges = Some (Some r) → r ∈ option_list prev ++ ranges.
Proof.
  revert prev. induction ranges as [|r0 rs IH]; intros prev; cbn [pick_range].
  - intros [= ->]. set_solver.
  - assert (default r0 prev ∈ option_list prev ++ r0 :: rs) by (destruct prev; set_solver).
    repeat case_match; intros E; simplify_eq; try set_solver.
    apply IH in E. destruct prev; set_solver.
Qed.

Lemma pick_range_total pre post prev ranges :
  ∃ o, pick_range (pre ++ post) (byte_len pre) prev ranges = Some o ∧ (o = None → prev = None ∧ ranges = []).
Proof.
  revert prev. induction ranges as [|r rs IH]; intros prev; cbn [pick_range]; [by eexists|].
  case_decide; [by eexists|]. case_decide.
  { destruct (has_sql_boundary pre post) as [b ->]. destruct b; by eexists. }
  case_decide; [by eexists|]. destruct (IH (Some r)) as (o & -> & Ho). exists o. split; [done|]. naive_solver.
Qed.

Lemma between_elem lo hi rs r : between lo hi rs → r ∈ rs → lo ≤ start r ∧ start r ≤ end_ r ∧ end_ r ≤ hi.
Proof.
  revert lo. induction rs as [|r0 rs IH]; intros lo; cbn [between]; [by rewrite elem_of_nil|].
  intros (H1 & H2 & H3) [->|Hin]%elem_of_cons.
  - split_and!; [done..|]. clear -H3. revert H3. generalize (end_ r0). induction rs as [|r rs IH]; intros lo; simpl; [done|].
    intros (? & ? & ?%IH). lia.
  - destruct (IH _ H3 Hin) as (? & ? & ?). lia.
Qed.

Lemma pick_range_inside sql cursor prev lo hi ranges r :
  between lo hi ranges → r ∈ ranges → start r < cursor → cursor < end_ r →
  pick_range sql cursor prev ranges = Some (Some r).
Proof.
  revert lo prev. induction ranges as [|r0 rs IH]; intros lo prev; cbn [pick_range between]; [by rewrite elem_of_nil|].
  intros (H1 & H2 & H3) [->|Hin]%elem_of_cons Hs He; [by rewrite decide_True|].
  destruct (between_elem _ _ _ _ H3 Hin) as (? & ? & ?).
  rewrite !decide_False by lia. by eapply IH.
Qed.

(** ** The parts of a statement *)
Lemma soft_loop_ok p after sc before cur line b n s :
  let out := soft_loop p after sc before cur line b n s in
  Forall (is_slice (before ++ cur ++ line ++ s ++ after)) out ∧
  between (byte_len before) (byte_len (before ++ cur ++ line ++ s)) out.
Proof.
  revert sc before cur line b n. induction s as [|ch s IH]; intros sc before cur line b n; cbn -[push_statement_range byte_len].
  - rewrite app_nil_r. destruct (push_range_ok before (cur ++ line) after p) as [H1 H2]. by rewrite <- app_assoc in H1.
  - assert (E : ∀ t, line ++ ch :: t = (line ++ [ch]) ++ t) by (intros t; by rewrite <- app_assoc).
    case_decide as Hnl.
    { specialize (IH (scanner_step sc ch (s ++ after)) before (cur ++ line ++ [ch]) [] false
        (if negb b && negb (is_masked sc) then S n else 0)). cbn [app] in IH.
      rewrite <- !app_assoc in IH. cbn [app] in IH. exact IH. }
    rewrite (E (s ++ after)), (E s). case_match; [|apply IH]. case_match; [|apply IH].
    destruct (IH (scanner_step sc ch (s ++ after)) (before ++ cur) [] (line ++ [ch]) true 0) as [H1 H2].
    destruct (push_range_ok before cur ((line ++ [ch]) ++ s ++ after) p) as [H3 H4].
    rewrite <- !app_assoc in *. cbn [app] in *. split; [by apply Forall_app|by eapply between_app].
Qed.

(** [t] is a contiguous part of [sql]. *)
Definition part_of (t sql : str) : Prop := ∃ a b, sql = a ++ t ++ b.

Lemma part_of_trans a b c : part_of a b → part_of b c → part_of a c.
Proof. intros (x & y & ->) (u & v & ->). exists (u ++ x), (y ++ v). by rewrite <- !app_assoc. Qed.

Lemma trim_part_of s : part_of (trim s) s.
Proof.
  unfold trim, trim_start. destruct (drop_while_suffix is_whitespace s) as [a Ha].
  destruct (trim_end_prefix (drop_while is_whitespace s)) as [b Hb].
  exists a, b. by rewrite <- Hb, <- Ha.
Qed.

Lemma slice_part_of sql r : is_slice sql r → part_of (text r) sql.
Proof. intros (a & b & E & _). by exists a, b. Qed.

Section found.
Context `{OracleTokenizer} (p : SqlDialectProfile).
Implicit Types (sql : str) (r : SqlStatementRange).

Lemma soft_ranges_ok sql r :
  is_slice sql r →
  ∃ soft, split_statement_range_at_blank_lines sql r p = Some soft ∧ soft ≠ [] ∧
    Forall (is_slice sql) soft ∧ between (start r) (end_ r) soft.
Proof.
  intros Hr. pose proof Hr as (pre & post & E & Hne & Hs & He).
  assert (Hself : [r] ≠ [] ∧ Forall (is_slice sql) [r] ∧ between (start r) (end_ r) [r]).
  { split_and!; [done|by apply Forall_singleton|]. simpl. lia. }
  unfold split_statement_range_at_blank_lines.
  case_match; [by eexists|]. case_match; [by eexists|].
  assert (slice_to (start r) sql = Some pre) as -> by (rewrite Hs, E; apply slice_to_app).
  assert (slice (start r) (end_ r) sql = Some (text r)) as -> by (rewrite He, Hs, E; apply slice_app).
  assert (slice_from (end_ r) sql = Some post) as ->.
  { rewrite He, Hs, <- byte_len_app, E, app_assoc. apply slice_from_app. }
  destruct (soft_loop_ok p post (scanner_with_profile p) pre [] [] false 0 (text r)) as [Hf Hbt]. cbn [app] in *.
  rewrite <- E in Hf. rewrite byte_len_app, <- Hs, <- He in Hbt.
  destruct (soft_loop _ _ _ _ _ _ _ _ _) as [|r1 rs] eqn:Es; by eexists.
Qed.

Lemma statement_text_ok pre post r :
  is_slice (pre ++ post) r →
  ∃ soft s, split_statement_range_at_blank_lines (pre ++ post) r p = Some soft ∧ s ∈ soft ∧ is_slice (pre ++ post) s ∧
    start r ≤ start s ∧ end_ s ≤ end_ r ∧
    statement_text_at_cursor (pre ++ post) r (byte_len pre) p = Some (text s) ∧
    (∀ s', s' ∈ soft → start s' < byte_len pre → byte_len pre < end_ s' → s' = s).
Proof.
  intros Hr. destruct (soft_ranges_ok _ _ Hr) as (soft & Es & Hne & Hsl & Hb).
  unfold statement_text_at_cursor, find_statement_text_in_ranges. rewrite Es.
  destruct (pick_range_total pre post None soft) as (o & Ep & Ho). destruct o as [s|]; [|naive_solver].
  rewrite Ep. pose proof (pick_range_elem _ _ _ _ _ Ep) as Hin. cbn [option_list app] in Hin.
  destruct (between_elem _ _ _ _ Hb Hin) as (? & ? & ?). exists soft, s.
  split_and!; try done; [by eapply Forall_forall|].
  intros s' Hin' Hlo Hhi. pose proof (pick_range_inside (pre ++ post) (byte_len pre) None _ _ _ _ Hb Hin' Hlo Hhi). congruence.
Qed.


Lemma found_is_part sql pos rs :
  split_sql_statement_ranges_with_options sql p = Some rs →
  ∃ t, find_statement_at_cursor_with_options sql pos p = Some t ∧ part_of t sql.
Proof.
  intros E. unfold find_statement_at_cursor_with_options. rewrite E. apply ranges_slices in E as [Hsl Hb].
  destruct (utf16_index_boundary sql 0 0 pos) as (pre & post & -> & Ei). unfold utf16_offset_to_byte_index.
  rewrite Ei. cbn [Nat.add]. destruct (pick_range_total pre post None rs) as (o & Ep & _). rewrite Ep.
  destruct o as [r|]; [|eexists; split; [done|apply trim_part_of]].
  assert (is_slice (pre ++ post) r) as Hr.
  { apply pick_range_elem in Ep. by eapply Forall_forall. }
  destruct (statement_text_ok _ _ _ Hr) as (soft & s & _ & _ & Hs & _ & _ & -> & _).
  eexists. split; [done|]. by apply slice_part_of.
Qed.

(** When the cursor of the editor, given in UTF-16 units, stands inside a statement range, the
    text that is run is a slice of that range, one of the parts into which blank lines divide it,
    and the part that contains the cursor when one does. *)
Theorem cursor_runs_the_statement_it_is_in pre post rs r :
  split_sql_statement_ranges_with_options (pre ++ post) p = Some rs → r ∈ rs →
  start r < byte_len pre → byte_len pre < end_ r →
  ∃ soft s, split_statement_range_at_blank_lines (pre ++ post) r p = Some soft ∧ s ∈ soft ∧ is_slice (pre ++ post) s ∧
    start r ≤ start s ∧ end_ s ≤ end_ r ∧
    find_statement_at_cursor_with_options (pre ++ post) (utf16_len pre) p = Some (text s) ∧
    (∀ s', s' ∈ soft → start s' < byte_len pre → byte_len pre < end_ s' → s' = s).
Proof.
  intros E Hin Hlo Hhi. unfold find_statement_at_cursor_with_options. rewrite E, utf16_offset_app.
  apply ranges_slices in E as [Hsl Hb]. rewrite (pick_range_inside _ _ None _ _ _ _ Hb Hin Hlo Hhi).
  apply statement_text_ok. by eapply Forall_forall.
Qed.
End found.

Section databases.
Context `{OracleTokenizer}.

Lemma found_part_of sql pos p t : find_statement_at_cursor_with_options sql pos p = Some t → part_of t sql.
Proof.
  intros E. destruct (split_sql_statement_ranges_with_options sql p) as [rs|] eqn:Er.
  - destruct (found_is_part p sql pos rs Er) as (t' & E' & Ht). congruence.
  - unfold find_statement_at_cursor_with_options in E. by rewrite Er in E.
Qed.

Lemma batches_part_of sql cursor prev batches t :
  Forall (is_slice sql) (option_list prev ++ batches) →
  find_in_batches sql cursor prev batches = Some t → part_of t sql.
Proof.
  assert (Hin : ∀ b pos t, is_slice sql b → find_statement_at_cursor_with_options (text b) pos profile_default = Some t →
    part_of t sql).
  { intros b pos u Hb Hf. eapply part_of_trans; [by eapply found_part_of|by apply slice_part_of]. }
  revert prev. induction batches as [|b bs IH]; intros prev Hall; cbn [find_in_batches].
  - intros [= <-]. destruct prev as [b|]; [|apply trim_part_of].
    rewrite app_nil_r in Hall. apply slice_part_of. by apply (proj1 (Forall_singleton _ _) Hall).
  - apply Forall_app in Hall as [Hp [Hb Hbs]%Forall_cons]. case_decide.
    + case_match; [intros [= <-]; by apply slice_part_of|]. repeat case_match; try done. by apply Hin.
    + case_decide.
      * destruct prev as [b'|]; [|intros [= <-]; by apply slice_part_of]. apply (proj1 (Forall_singleton _ _)) in Hp.
        case_match; [intros [= <-]; by apply slice_part_of|by apply Hin].
      * apply IH. by constructor.
Qed.

(** For every database and cursor position, what is run from the editor is a contiguous part of
    its text (with client commands blanked where the dialect has them), and outside SQL Server the
    lookup panics only where the range splitter does. *)
Theorem cursor_statement_is_part_of_the_text sql pos d :
  let blanked := supports_psql_control_commands (for_database_type d) in
  let body := if blanked then (preprocess_psql_control_commands sql (for_database_type d)).1 else sql in
  let p := if blanked then without_psql (for_database_type d) else for_database_type d in
  (∀ t, find_statement_at_cursor_for_database sql pos d = Some t → part_of t body) ∧
  (d ≠ DatabaseType.SqlServer → is_Some (split_sql_statement_ranges_with_options body p) →
   is_Some (find_statement_at_cursor_for_database sql pos d)).
Proof.
  intros blanked body p. unfold find_statement_at_cursor_for_database. split.
  - intros t. case_decide as Hd; [subst d|].
    + apply batches_part_of. apply batch_ranges_slices.
    + unfold body, blanked. case_match; apply found_part_of.
  - intros Hd [rs Hrs]. rewrite decide_False by done.
    destruct (found_is_part _ _ pos _ Hrs) as (t & Et & _). exists t. unfold body, p, blanked in Et. by case_match.
Qed.
End databases.

(** ** Concrete inputs *)
Definition cursor_pre : str := lit "SELECT 1; SELE".
Definition cursor_post : str := lit "CT 2".

Lemma cursor_inside_witness :
  ∃ soft s, split_statement_range_at_blank_lines (H := no_tokenizer) (cursor_pre ++ cursor_post)
      (mkRange (lit "SELECT 2") 10 18) profile_default = Some soft ∧
    s ∈ soft ∧ is_slice (cursor_pre ++ cursor_post) s ∧ 10 ≤ start s ∧ end_ s ≤ 18 ∧
    find_statement_at_cursor_with_options (H := no_tokenizer) (cursor_pre ++ cursor_post) (utf16_len cursor_pre)
      profile_default = Some (text s) ∧
    (∀ s', s' ∈ soft → start s' < byte_len cursor_pre → byte_len cursor_pre < end_ s' → s' = s).
Proof.
  apply (cursor_runs_the_statement_it_is_in (H := no_tokenizer) profile_default cursor_pre cursor_post
           [mkRange (lit "SELECT 1") 0 8; mkRange (lit "SELECT 2") 10 18] (mkRange (lit "SELECT 2") 10 18)).
  - vm_compute. reflexivity.
  - right. left.
  - vm_compute. lia.
  - vm_compute. lia.
Defined.

Lemma cursor_part_witness :
  is_Some (find_statement_at_cursor_for_database (H := no_tokenizer) (cursor_pre ++ cursor_post) 12 DatabaseType.Postgres).
Proof.
  apply (cursor_statement_is_part_of_the_text (H := no_tokenizer) (cursor_pre ++ cursor_post) 12 DatabaseType.Postgres);
    [done|vm_compute; eauto].
Defined.
