(* ===== verification/SqlImport.v ===== *)
(** Preparing and merging the statements of an imported SQL file
    ([crates/dbx-core/src/sql.rs]). *)
From S2P Require Import Prelude SqlDialect SqlSplitter SqlRanges SqlFile.
Local Open Scope dbx_scope.

(** ** What to do with a statement *)
Inductive SqlFileStatementAction := Execute (sql : str) | Skip.

Inductive SqlFileImportStatementKind := KExecute | KSkip.
#[export] Instance SqlFileImportStatementKind_eq_dec : EqDecision SqlFileImportStatementKind.
Proof. solve_decision. Defined.

Record SqlFileImportStatement := mkImport {
  kind : SqlFileImportStatementKind;
  import_sql : str;
  source_sqls : list str;
  source_statement_count : nat;
}.

Definition is_mysql_compatible_import_profile (profile : str) : bool :=
  is_one_of profile [lit "mariadb"; lit "tidb"; lit "oceanbase"; lit "custom_mysql"; lit "doris"; lit "starrocks";
                     lit "manticoresearch"; lit "selectdb"; lit "goldendb"].

Definition is_mysql_compatible_import_target (d : DatabaseType.t) (driver_profile : option str) : bool :=
  is_mysql_compatible_database d ||
  match driver_profile with
  | Some profile => is_mysql_compatible_import_profile (to_ascii_lowercase profile)
  | None => false
  end.

(** The text from the leading executable comment on. *)
Fixpoint leading_mysql_executable_comment_start (skip : nat) (s : str) : option str :=
  match s with
  | [] => None
  | ch :: rest =>
      match skip with
      | S k => leading_mysql_executable_comment_start k rest
      | 0 =>
          if is_ascii_whitespace ch then leading_mysql_executable_comment_start 0 rest
          else if at2 (chr "-") (chr "-") ch rest then
            leading_mysql_executable_comment_start (1 + length (take_while not_nl (drop 1 rest))) rest
          else if decide (ch = chr "#") then
            leading_mysql_executable_comment_start (length (take_while not_nl rest)) rest
          else if at2 (chr "/") (chr "*") ch rest then
            if is_mysql_executable_comment_start s then Some s
            else match find_block_comment_close (drop 1 rest) with
                 | None => None
                 | Some close => leading_mysql_executable_comment_start (1 + close + 2) rest
                 end
          else None
      end
  end.

Definition mysql_executable_comment_body (statement : str) : option str :=
  match leading_mysql_executable_comment_start 0 statement with
  | None => None
  | Some s =>
      let body := drop_while (λ c, is_ascii_digit c || is_ascii_whitespace c)
                    (drop (if bool_decide (s !! 2 = Some (chr "!")) then 3 else 4) s) in
      match split_once (lit "*/") body with
      | None => None
      | Some (inner, after) =>
          if has_executable_sql_with_options after profile_default then None else Some inner
      end
  end.

(** Words in upper case, one space between them. *)
Definition upper_words (s : str) : str := to_ascii_uppercase (join (lit " ") (split_whitespace s)).

Definition is_mysql_key_toggle_statement (statement : str) : bool :=
  let upper := upper_words statement in
  starts_with (lit "ALTER TABLE ") upper &&
  (ends_with (lit " ENABLE KEYS") upper || ends_with (lit " DISABLE KEYS") upper).

Definition is_mysql_lock_table_statement (statement : str) : bool :=
  let upper := upper_words (leading_executable_sql statement) in
  bool_decide (upper = lit "UNLOCK TABLES") ||
  (starts_with (lit "LOCK TABLES ") upper && ends_with (lit " WRITE") upper).

(** [s.trim_start_matches(p)] for a non-empty pattern. *)
Fixpoint trim_start_matches (fuel : nat) (p s : str) : str :=
  match fuel with
  | 0 => s
  | S n => match strip_prefix p s with Some r => trim_start_matches n p r | None => s end
  end.

Definition is_mysql_session_restore_statement (statement : str) : bool :=
  let upper := upper_words (leading_executable_sql_with_options statement mysql_compatible) in
  if negb (starts_with (lit "SET ") upper) then false
  else
    let assignment := trim (trim_start_matches (length upper) (lit "SET ") upper) in
    if starts_with (lit "@") assignment then false
    else str_contains (lit "= @OLD_") assignment || str_contains (lit "=@OLD_") assignment ||
         str_contains (lit "= @SAVED_") assignment || str_contains (lit "=@SAVED_") assignment.

Definition is_postgres_pg_dump_guard_command (line : str) : bool :=
  match split_whitespace line with
  | [command; key] =>
      is_one_of command [BACKSLASH :: lit "restrict"; BACKSLASH :: lit "unrestrict"] &&
      forallb is_ascii_alphanumeric key
  | _ => false
  end.

Definition strip_postgres_pg_dump_guard_command (statement : str) : option str :=
  let executable := leading_executable_sql_with_options statement (for_database_type DatabaseType.Postgres) in
  let line := take_while not_nl executable in
  if is_postgres_pg_dump_guard_command line then
    Some (take (length statement - length executable) statement ++ drop (length line + 1) executable)
  else None.

Definition prepare_sql_file_statement (statement0 : str) (d : DatabaseType.t) (driver_profile : option str)
  : SqlFileStatementAction :=
  let statement0 := trim statement0 in
  let postgres_statement :=
    if decide (d = DatabaseType.Postgres) then strip_postgres_pg_dump_guard_command statement0 else None in
  let statement := trim (default statement0 postgres_statement) in
  if bool_decide (statement = []) ||
     (bool_decide (d = DatabaseType.Postgres) && bool_decide (is_Some postgres_statement) &&
      negb (has_executable_sql_with_options statement (for_database_type DatabaseType.Postgres)))
  then Skip
  else
    let is_mysql := is_mysql_compatible_import_target d driver_profile in
    if is_mysql && is_mysql_lock_table_statement statement then Skip
    else
      match mysql_executable_comment_body statement with
      | None =>
          if is_mysql && is_mysql_session_restore_statement statement then Skip else Execute statement
      | Some body =>
          if negb is_mysql then Skip
          else
            let body := trim body in
            if bool_decide (body = []) || is_mysql_key_toggle_statement body ||
               is_mysql_session_restore_statement body
            then Skip else Execute body
      end.

(** ** INSERT statements that can be merged *)
Record MergeableInsert := mkInsert { prefix : str; prefix_key : str; values : str; insert_sql : str }.

Record PendingInsertBatch := mkPending {
  b_prefix : str;
  b_prefix_key : str;
  b_values : list str;
  b_source_sqls : list str;
  b_count : nat;
  b_byte_len : nat;
}.

Definition SQL_FILE_INSERT_BATCH_MAX_STATEMENTS : nat := 500.
Definition SQL_FILE_INSERT_BATCH_MAX_BYTES : N := 4194304.

Definition pending_new (i : MergeableInsert) : PendingInsertBatch :=
  mkPending (prefix i) (prefix_key i) [values i] [insert_sql i] 1
    (byte_len (prefix i) + byte_len (values i) + 16).

Definition can_accept (b : PendingInsertBatch) (i : MergeableInsert) : bool :=
  bool_decide (b_prefix_key b = prefix_key i) &&
  bool_decide (b_count b < SQL_FILE_INSERT_BATCH_MAX_STATEMENTS) &&
  bool_decide (N.of_nat (b_byte_len b + byte_len (values i) + 3) ≤ SQL_FILE_INSERT_BATCH_MAX_BYTES)%N.

Definition pending_push (b : PendingInsertBatch) (i : MergeableInsert) : PendingInsertBatch :=
  mkPending (b_prefix b) (b_prefix_key b) (b_values b ++ [values i]) (b_source_sqls b ++ [insert_sql i])
    (b_count b + 1) (b_byte_len b + (byte_len (values i) + 3)).

Definition to_sql (b : PendingInsertBatch) : str :=
  if decide (b_count b = 1) then default [] (head (b_source_sqls b))
  else b_prefix b ++ lit " VALUES" ++ [NL] ++ join (lit "," ++ [NL]) (b_values b).

(** The keyword stands at the start of [s], after the character [previous]. *)
Definition keyword_at (previous : option char) (s keyword : str) : bool :=
  eq_ignore_ascii_case (take (length keyword) s) keyword &&
  match previous with Some c => negb (is_sql_ident_char c) | None => true end &&
  match drop (length keyword) s with c :: _ => negb (is_sql_ident_char c) | [] => true end.

Definition starts_with_keyword (s keyword : str) : bool := keyword_at None s keyword.

(** The text before the keyword, and after it. *)
Fixpoint find_values (sc : SqlScanner) (depth : nat) (previous : option char) (s : str) : option (str * str) :=
  match s with
  | [] => None
  | ch :: rest =>
      let sc := scanner_step sc ch rest in
      let continue_ depth := prod_map (cons ch) id <$> find_values sc depth (Some ch) rest in
      if is_masked sc then continue_ depth
      else if decide (ch = chr "(") then continue_ (S depth)
      else if decide (ch = chr ")") then continue_ (pred depth)
      else if decide (depth = 0) then
        if keyword_at previous s (lit "values") then Some ([], drop (length (lit "values")) s)
        else if keyword_at previous s (lit "value") then Some ([], drop (length (lit "value")) s)
        else continue_ depth
      else continue_ depth
  end.

Definition find_top_level_values_keyword (sql : str) : option (str * str) :=
  find_values (scanner_with_profile profile_default) 0 None sql.

(** [s.trim_end_matches(';')] *)
Definition trim_end_semicolons (s : str) : str :=
  reverse (drop_while (λ c, bool_decide (c = chr ";")) (reverse s)).

Record tuples := mkTuples { depth : nat; saw_tuple : bool; expecting_tuple : bool }.

(** [None] is the early return. *)
Fixpoint tuples_loop (sc : SqlScanner) (t : tuples) (s : str) : option tuples :=
  match s with
  | [] => Some t
  | ch :: rest =>
      let sc := scanner_step sc ch rest in
      if is_masked sc then tuples_loop sc t rest
      else if expecting_tuple t then
        if is_whitespace ch || (saw_tuple t && bool_decide (ch = chr ",")) then tuples_loop sc t rest
        else if decide (ch = chr "(") then tuples_loop sc (mkTuples 1 true false) rest
        else None
      else if decide (ch = chr "(") then tuples_loop sc (mkTuples (S (depth t)) (saw_tuple t) false) rest
      else if decide (ch = chr ")") then
        match depth t with
        | 0 => None
        | S d => tuples_loop sc (mkTuples d (saw_tuple t) (bool_decide (d = 0))) rest
        end
      else if bool_decide (ch = chr ",") && bool_decide (depth t = 0) then tuples_loop sc t rest
      else if bool_decide (depth t = 0) && negb (is_whitespace ch) then None
      else tuples_loop sc t rest
  end.

Definition parse_insert_values_tail (tail0 : str) : option str :=
  let tail := trim (trim_end_semicolons (trim tail0)) in
  match tail with
  | [] => None
  | _ =>
      match tuples_loop (scanner_with_profile profile_default) (mkTuples 0 false true) tail with
      | Some t => if saw_tuple t && bool_decide (depth t = 0) then Some tail else None
      | None => None
      end
  end.

Fixpoint normalize_key (sc : SqlScanner) (previous_space : bool) (s : str) : str :=
  match s with
  | [] => []
  | ch :: rest =>
      let sc := scanner_step sc ch rest in
      if sc_single sc || sc_double sc || sc_backtick sc || bool_decide (sc_tag sc ≠ None) then
        ch :: normalize_key sc false rest
      else if is_whitespace ch then
        (if previous_space then [] else lit " ") ++ normalize_key sc true rest
      else ascii_lower ch :: normalize_key sc false rest
  end.

Definition normalize_insert_prefix_key (p : str) : str :=
  trim (normalize_key (scanner_with_profile profile_default) false p).

Definition parse_mergeable_insert (sql : str) (p : SqlDialectProfile) : option MergeableInsert :=
  let executable := trim (trim_end_semicolons (trim (leading_executable_sql_with_options sql p))) in
  if negb (starts_with_keyword executable (lit "insert")) then None
  else
    match find_top_level_values_keyword executable with
    | None => None
    | Some (before, after) =>
        match parse_insert_values_tail (trim after) with
        | None => None
        | Some v =>
            let prefix := trim_end before in
            Some (mkInsert prefix (normalize_insert_prefix_key prefix) v executable)
        end
    end.

(** ** Merging *)
Definition flush_pending_insert (pending : option PendingInsertBatch) : list SqlFileImportStatement :=
  match pending with
  | Some b => [mkImport KExecute (to_sql b) (b_source_sqls b) (b_count b)]
  | None => []
  end.

Section optimize.
Context (d : option DatabaseType.t) (driver_profile : option str).

Definition action_of (statement : str) : SqlFileStatementAction :=
  match d with
  | Some d => prepare_sql_file_statement statement d driver_profile
  | None => Execute (trim statement)
  end.

Definition import_options : SqlDialectProfile :=
  match d with Some d => for_database_type d | None => profile_default end.

Fixpoint optimize_loop (pending : option PendingInsertBatch) (statements : list str) : list SqlFileImportStatement :=
  match statements with
  | [] => flush_pending_insert pending
  | statement :: rest =>
      match action_of statement with
      | Skip =>
          flush_pending_insert pending ++
          mkImport KSkip (trim statement) [trim statement] 1 :: optimize_loop None rest
      | Execute sql =>
          match parse_mergeable_insert sql import_options with
          | Some insert =>
              match pending with
              | Some b =>
                  if can_accept b insert then optimize_loop (Some (pending_push b insert)) rest
                  else flush_pending_insert pending ++ optimize_loop (Some (pending_new insert)) rest
              | None => optimize_loop (Some (pending_new insert)) rest
              end
          | None =>
              flush_pending_insert pending ++ mkImport KExecute sql [sql] 1 :: optimize_loop None rest
          end
      end
  end.

Definition optimize_sql_file_import_statements (statements : list str) : list SqlFileImportStatement :=
  optimize_loop None statements.
End optimize.

(** ** What merging preserves *)
Section merging.
Context (d : option DatabaseType.t) (driver_profile : option str).
Implicit Types (b : PendingInsertBatch) (inserts : list MergeableInsert).

(** The text under which a statement is reported. *)
Definition reported (statement : str) : str :=
  match action_of d driver_profile statement with
  | Skip => trim statement
  | Execute sql => match parse_mergeable_insert sql (import_options d) with
                   | Some insert => insert_sql insert
                   | None => sql
                   end
  end.

Definition total_bytes (l : list str) : nat := sum_list (byte_len <$> l).

(** [b] is the batch of [inserts]. *)
Definition batch_of b inserts : Prop :=
  ∃ first rest, inserts = first :: rest ∧ b_prefix b = prefix first ∧
    b_values b = values <$> inserts ∧ b_source_sqls b = insert_sql <$> inserts ∧
    b_count b = length inserts ∧ Forall (λ i, prefix_key i = b_prefix_key b) inserts ∧
    b_byte_len b + 3 = byte_len (b_prefix b) + 16 + total_bytes (b_values b) + 3 * length inserts ∧
    length inserts ≤ SQL_FILE_INSERT_BATCH_MAX_STATEMENTS ∧
    (rest ≠ [] → (N.of_nat (b_byte_len b) ≤ SQL_FILE_INSERT_BATCH_MAX_BYTES)%N).

Lemma total_bytes_app l1 l2 : total_bytes (l1 ++ l2) = total_bytes l1 + total_bytes l2.
Proof. unfold total_bytes. rewrite fmap_app. apply sum_list_with_app with (f := id). Qed.

Lemma batch_of_new i : batch_of (pending_new i) [i].
Proof.
  exists i, []. unfold pending_new, total_bytes, SQL_FILE_INSERT_BATCH_MAX_STATEMENTS. simpl.
  split_and!; try done; [by repeat constructor|lia|lia].
Qed.

Lemma batch_of_push b i inserts :
  batch_of b inserts → can_accept b i = true → batch_of (pending_push b i) (inserts ++ [i]).
Proof.
  intros (first & rest & -> & Hp & Hv & Hs & Hc & Hk & Hb & Hn & _) Ha.
  unfold can_accept in Ha. rewrite !andb_true_iff, !bool_decide_eq_true in Ha. destruct Ha as [[Hkey Hlt] Hmax].
  exists first, (rest ++ [i]). simpl. rewrite Hc in *. simpl in *. split_and!; try done.
  - by rewrite Hv, fmap_app.
  - by rewrite Hs, fmap_app.
  - rewrite length_app. simpl. lia.
  - apply Forall_cons in Hk as [??]. constructor; [done|]. apply Forall_app. by repeat constructor.
  - rewrite total_bytes_app, length_app. unfold total_bytes at 2. simpl. lia.
  - rewrite length_app. simpl. lia.
  - intros _. lia.
Qed.

Definition pending_inv (pending : option PendingInsertBatch) inserts : Prop :=
  match pending with Some b => batch_of b inserts | None => inserts = [] end.

Definition sources (out : list SqlFileImportStatement) : list str := concat (source_sqls <$> out).

Lemma sources_app o1 o2 : sources (o1 ++ o2) = sources o1 ++ sources o2.
Proof. unfold sources. by rewrite fmap_app, concat_app. Qed.

Lemma sources_cons x o : sources (x :: o) = source_sqls x ++ sources o.
Proof. done. Qed.

Lemma flush_sources pending inserts :
  pending_inv pending inserts → sources (flush_pending_insert pending) = insert_sql <$> inserts.
Proof.
  destruct pending as [b|]; simpl; [|by intros ->].
  intros (first & rest & _ & _ & _ & Hs & _). unfold sources. simpl. by rewrite app_nil_r.
Qed.

Lemma optimize_sources statements pending inserts :
  pending_inv pending inserts →
  sources (optimize_loop d driver_profile pending statements) = (insert_sql <$> inserts) ++ (reported <$> statements).
Proof.
  revert pending inserts. induction statements as [|s rest IH]; intros pending inserts Hi; simpl.
  { rewrite app_nil_r. by apply flush_sources. }
  unfold reported at 1.
  destruct (action_of d driver_profile s) as [sql|].
  - destruct (parse_mergeable_insert sql (import_options d)) as [i|] eqn:Ep.
    + assert (∀ tl, (insert_sql <$> inserts) ++ insert_sql i :: tl = (insert_sql <$> (inserts ++ [i])) ++ tl) as Hsnoc.
      { intros tl. by rewrite fmap_app, <- app_assoc. }
      destruct pending as [b|]; [destruct (can_accept b i) eqn:Ea|].
      * rewrite (IH _ (inserts ++ [i])) by by apply batch_of_push. by rewrite Hsnoc.
      * rewrite sources_app, (flush_sources _ _ Hi), (IH _ [i]) by apply batch_of_new. done.
      * simpl in Hi. subst. by rewrite (IH _ [i]) by apply batch_of_new.
    + by rewrite sources_app, (flush_sources _ _ Hi), sources_cons, (IH None []).
  - by rewrite sources_app, (flush_sources _ _ Hi), sources_cons, (IH None []).
Qed.

(** The import plan reports every statement of the file exactly once and in order, whatever was
    merged or skipped. *)
Theorem merging_keeps_every_statement_in_order statements :
  sources (optimize_sql_file_import_statements d driver_profile statements) = reported <$> statements.
Proof. unfold optimize_sql_file_import_statements. by rewrite (optimize_sources statements None []). Qed.

(** *** Each planned statement *)
Definition planned (it : SqlFileImportStatement) : Prop :=
  source_statement_count it = length (source_sqls it) ∧
  (source_sqls it = [import_sql it] ∨
   ∃ first rest, kind it = KExecute ∧ rest ≠ [] ∧
     let inserts := first :: rest in
     Forall (λ i, prefix_key i = prefix_key first) inserts ∧
     source_sqls it = insert_sql <$> inserts ∧
     import_sql it = prefix first ++ lit " VALUES" ++ [NL] ++ join (lit "," ++ [NL]) (values <$> inserts) ∧
     length inserts ≤ SQL_FILE_INSERT_BATCH_MAX_STATEMENTS ∧
     (N.of_nat (byte_len (import_sql it)) ≤ SQL_FILE_INSERT_BATCH_MAX_BYTES)%N).

Lemma join_bytes l : l ≠ [] → byte_len (join (lit "," ++ [NL]) l) + 2 = total_bytes l + 2 * length l.
Proof.
  induction l as [|x [|y l] IH]; [done|..]; intros _.
  - unfold total_bytes. simpl. lia.
  - specialize (IH ltac:(done)). cbn [join]. rewrite !byte_len_app. unfold total_bytes in *. simpl in *. lia.
Qed.

Lemma flush_planned pending inserts :
  pending_inv pending inserts → Forall planned (flush_pending_insert pending).
Proof.
  destruct pending as [b|]; [|by constructor].
  intros (first & rest & -> & Hp & Hv & Hs & Hc & Hk & Hb & Hn & Hm). apply Forall_singleton. split.
  - simpl. by rewrite Hc, Hs, length_fmap.
  - unfold to_sql. cbn [import_sql source_sqls kind]. rewrite Hc. cbn [length]. destruct rest as [|second rest]; [left; by rewrite Hs|right].
    exists first, (second :: rest). rewrite decide_False by done. specialize (Hm ltac:(done)).
    split_and!; [done|done| |done|by rewrite Hp, Hv|done|].
    + apply Forall_cons in Hk as [Hk1 Hk2]. rewrite Hk1. by constructor.
    + etrans; [|exact Hm]. apply N2Z.inj_le. rewrite !nat_N_Z. apply inj_le.
      pose proof (join_bytes (b_values b)) as Hj. rewrite Hv in Hj at 1. specialize (Hj ltac:(done)).
      rewrite Hv in Hj. rewrite length_fmap in Hj.
      rewrite !byte_len_app. change (byte_len (lit " VALUES")) with 7. change (byte_len [NL]) with 1.
      rewrite Hv in *. simpl length in *. lia.
Qed.

Lemma optimize_planned statements pending inserts :
  pending_inv pending inserts → Forall planned (optimize_loop d driver_profile pending statements).
Proof.
  revert pending inserts. induction statements as [|s rest IH]; intros pending inserts Hi; simpl.
  { by eapply flush_planned. }
  pose proof (flush_planned _ _ Hi) as Hf.
  assert (∀ k t, planned (mkImport k t [t] 1)) as Hsingle by (intros; split; [done|by left]).
  pose proof (IH None [] eq_refl) as Hrest.
  destruct (action_of d driver_profile s) as [sql|].
  - destruct (parse_mergeable_insert sql (import_options d)) as [i|].
    + destruct pending as [b|]; [destruct (can_accept b i) eqn:Ea|].
      * eapply IH. by apply batch_of_push.
      * apply Forall_app. split; [done|]. eapply IH, batch_of_new.
      * eapply IH, batch_of_new.
    + apply Forall_app. split; [done|]. by constructor.
  - apply Forall_app. split; [done|]. by constructor.
Qed.

(** Each planned statement counts its sources and either is one statement as it stood, or joins
    at least two inserts with the same prefix key, in order, with at most 500 statements and 4 MiB.
    *)
Theorem merged_inserts_stay_within_limits statements :
  Forall planned (optimize_sql_file_import_statements d driver_profile statements).
Proof. by apply (optimize_planned statements None []). Qed.
End merging.

(** Inserts into tables whose names differ in case are merged. *)
Theorem merging_can_change_the_target_table :
  import_sql <$> optimize_sql_file_import_statements (Some DatabaseType.Mysql) None
    [lit "INSERT INTO Orders VALUES (1)"; lit "INSERT INTO orders VALUES (2)"] =
  [lit "INSERT INTO Orders VALUES" ++ [NL] ++ lit "(1)," ++ [NL] ++ lit "(2)"].
Proof. vm_compute. done. Qed.

(** The comma between merged inserts can end up in a line comment. *)
Theorem merging_can_swallow_the_separator :
  import_sql <$> optimize_sql_file_import_statements (Some DatabaseType.Postgres) None
    [lit "INSERT INTO t VALUES (1) -- first"; lit "INSERT INTO t VALUES (2)"] =
  [lit "INSERT INTO t VALUES" ++ [NL] ++ lit "(1) -- first," ++ [NL] ++ lit "(2)"].
Proof. vm_compute. done. Qed.
