(* ===== verification/Delimited.v ===== *)
(** Delimited text: CSV and TSV of query results
    ([crates/dbx-core/src/csv_export.rs]) and the configurable DSV extractor
    ([crates/dbx-core/src/data_grid_extractors/delimited.rs]).

    The writers append to a buffer and cannot fail; the sinks behind
    [write_bytes] are left out.  [display] is the [Display] of [serde_json]'s
    arrays and objects. *)
From S2P Require Import Prelude StateStore.
Local Open Scope dbx_scope.

(** ** Rendering of values *)
Section values.
Context (display : json → str).

Definition bool_text (b : bool) : str := if b then lit "true" else lit "false".

Definition value_text (v : json) : str :=
  match v with
  | JNull => lit "NULL"
  | JString s => s
  | JBool b => bool_text b
  | JNumber t => t
  | JArray _ | JObject _ => display v
  end.

Definition is_null (v : json) : bool := match v with JNull => true | _ => false end.

(** ** CSV *)

(** Each quote is written twice. *)
Fixpoint push_csv_escaped_content (value : str) : str :=
  match value with
  | [] => []
  | c :: r => if decide (c = DQUOTE) then [DQUOTE; DQUOTE] ++ push_csv_escaped_content r
              else c :: push_csv_escaped_content r
  end.
Definition push_csv_escaped (value : str) : str := [DQUOTE] ++ push_csv_escaped_content value ++ [DQUOTE].
Definition escape_csv (value : str) : str := push_csv_escaped value.

Definition push_csv_text_value (v : json) : str :=
  [DQUOTE] ++ match v with
              | JNull => []
              | JString s => push_csv_escaped_content s
              | JBool b => bool_text b
              | JNumber t => t
              | other => push_csv_escaped_content (display other)
              end ++ [DQUOTE].

Definition push_csv_value (v : json) : str := if is_null v then [] else push_csv_text_value v.

Definition push_query_result_csv_row (row : list json) : str := join (lit ",") (push_csv_value <$> row).
Definition push_table_csv_row (row : list json) : str := join (lit ",") (push_csv_text_value <$> row).
Definition push_query_result_csv_rows (rows : list (list json)) : str :=
  join [NL] (push_query_result_csv_row <$> rows).

Definition format_csv (columns : list str) (rows : list (list json)) : str :=
  join (lit ",") (push_csv_escaped <$> columns) ++ [NL] ++ push_query_result_csv_rows rows.

(** ** TSV *)
Definition tsv_needs_quote (value : str) : bool :=
  existsb (λ c, bool_decide (c = TAB) || bool_decide (c = NL) || bool_decide (c = CR) || bool_decide (c = DQUOTE)) value.

Definition push_tsv_escaped (value : str) : str :=
  if tsv_needs_quote value then push_csv_escaped value else value.
Definition escape_tsv (value : str) : str := push_tsv_escaped value.

Definition push_tsv_value (v : json) : str :=
  match v with
  | JNull => []
  | JString s => push_tsv_escaped s
  | JBool b => bool_text b
  | JNumber t => t
  | other => push_tsv_escaped (display other)
  end.

Definition push_tsv_row (row : list json) : str := join [TAB] (push_tsv_value <$> row).
Definition push_tsv_rows (rows : list (list json)) : str := join [NL] (push_tsv_row <$> rows).
Definition format_tsv (columns : list str) (rows : list (list json)) : str :=
  join [TAB] (push_tsv_escaped <$> columns) ++ [NL] ++ push_tsv_rows rows.

Definition ROWS_CAPACITY_ESTIMATE_MAX : N := 16777216.
Definition estimated_rows_capacity (rows : list (list json)) : N :=
  N.min (saturating_mul (foldl (λ a r, saturating_add a (N.of_nat (length r))) 0%N rows) 12) ROWS_CAPACITY_ESTIMATE_MAX.

(** ** DSV *)
Inductive DataGridQuotePolicy := Always | Minimal | Never.
#[export] Instance DataGridQuotePolicy_eq_dec : EqDecision DataGridQuotePolicy.
Proof. solve_decision. Defined.

Record DataGridDsvOptions := mkDsv {
  column_separator : str;
  row_separator : str;
  null_text : str;
  quote : char;
  quote_policy : DataGridQuotePolicy;
  include_column_header : bool;
  include_row_header : bool;
}.

Definition MAX_SEPARATOR_CHARACTERS : nat := 8.
Definition MAX_NULL_TEXT_CHARACTERS : nat := 64.

Definition has_char (c : char) (s : str) : bool := existsb (λ x, bool_decide (x = c)) s.

Definition validate_dsv_options (o : DataGridDsvOptions) (uses_row_separator : bool) : result unit str :=
  if bool_decide (column_separator o = []) || (uses_row_separator && bool_decide (row_separator o = [])) then
    Err (lit "DSV column and row separators must not be empty.")
  else if bool_decide (MAX_SEPARATOR_CHARACTERS < length (column_separator o)) ||
          bool_decide (MAX_SEPARATOR_CHARACTERS < length (row_separator o)) ||
          bool_decide (MAX_NULL_TEXT_CHARACTERS < length (null_text o)) then
    Err (lit "DSV separators may contain at most 8 characters and NULL text at most 64 characters.")
  else if uses_row_separator && (str_contains (row_separator o) (column_separator o) ||
                                 str_contains (column_separator o) (row_separator o)) then
    Err (lit "DSV column and row separators must not overlap.")
  else if is_control (quote o) || has_char (quote o) (column_separator o) ||
          (uses_row_separator && has_char (quote o) (row_separator o)) then
    Err (lit "DSV quote must be a non-control character that is not part of a separator.")
  else Ok ().

Definition dsv_needs_quote (o : DataGridDsvOptions) (value : str) : bool :=
  str_contains (column_separator o) value || str_contains (row_separator o) value ||
  has_char (quote o) value || has_char CR value || has_char NL value.

(** The segments between quotes, joined by two quotes. *)
Definition write_quoted_dsv_field (o : DataGridDsvOptions) (value : str) : str :=
  [quote o] ++ join [quote o; quote o] (split_char (quote o) value) ++ [quote o].

Definition write_dsv_field (o : DataGridDsvOptions) (value : str) : str :=
  let should_quote := match quote_policy o with
                      | Always => true
                      | Never => false
                      | Minimal => dsv_needs_quote o value
                      end in
  if should_quote then write_quoted_dsv_field o value else value.

(** A data cell: [None] is NULL. *)
Definition DsvCell := option str.

Definition write_dsv_data_field (o : DataGridDsvOptions) (cell : DsvCell) : str :=
  match cell with
  | None => null_text o
  | Some value =>
      let should_quote := match quote_policy o with
                          | Always => true
                          | Never => false
                          | Minimal => dsv_needs_quote o value || bool_decide (value = null_text o)
                          end in
      if should_quote then write_quoted_dsv_field o value else value
  end.

Definition write_dsv_row (o : DataGridDsvOptions) (row_header : option str) (names : list str) : str :=
  join (column_separator o) (option_list (write_dsv_field o <$> row_header) ++ (write_dsv_field o <$> names)).

Definition write_dsv_data_row (o : DataGridDsvOptions) (row_header : option str) (cells : list DsvCell) : str :=
  join (column_separator o) (option_list (write_dsv_field o <$> row_header) ++ (write_dsv_data_field o <$> cells)).

Definition cell_of (v : json) : DsvCell := if is_null v then None else Some (value_text v).

(** [&row[*source_index]] for the selected columns: [None] is the panic. *)
Definition select (indexes : list nat) (row : list json) : option (list json) := mapM (M:=option) (λ i, row !! i) indexes.

Definition data_lines (o : DataGridDsvOptions) (rows : list (list DsvCell)) : list str :=
  imap (λ i cells, write_dsv_data_row o (if include_row_header o then Some (show_nat (i + 1)) else None) cells) rows.

Definition write_dsv (names : list str) (indexes : list nat) (rows : list (list json)) (o : DataGridDsvOptions)
  : option (result str str) :=
  match validate_dsv_options o true with
  | Err e => Some (Err e)
  | Ok _ =>
      match (mapM (M:=option) (select indexes) rows : option (list (list json))) with
      | None => None
      | Some selected =>
          let header := if include_column_header o
                        then [write_dsv_row o (if include_row_header o then Some (lit "#") else None) names] else [] in
          Some (Ok (join (row_separator o) (header ++ data_lines o ((λ r : list json, cell_of <$> r) <$> selected))))
      end
  end.

(** All cells in one row, separated by commas. *)
Definition write_one_row (indexes : list nat) (rows : list (list json)) (o0 : DataGridDsvOptions)
  : option (result str str) :=
  let o := mkDsv (lit ",") (row_separator o0) (null_text o0) (quote o0) (quote_policy o0)
             (include_column_header o0) (include_row_header o0) in
  match validate_dsv_options o false with
  | Err e => Some (Err e)
  | Ok _ =>
      match (mapM (M:=option) (select indexes) rows : option (list (list json))) with
      | None => None
      | Some selected =>
          Some (Ok (join (column_separator o) (write_dsv_data_field o ∘ cell_of <$> concat selected)))
      end
  end.
End values.

(** ** Reading delimited text back

    A reader for quoted fields; separators are strings.  It tells quoted
    fields from bare ones. *)
Inductive field := Bare (s : str) | QuotedField (s : str).

Inductive read_mode := RStart | RBare (cell : str) | RQuoted (cell : str) | RAfter (cell : str).

Record reader := mkReader { mode : read_mode; row : list field }.

Section reader.
Context (col rowsep : str) (q : char).

Definition field_of (m : read_mode) : field :=
  match m with RStart => Bare [] | RBare s => Bare s | RQuoted s | RAfter s => QuotedField s end.

Definition extend (m : read_mode) (ch : char) : read_mode :=
  match m with
  | RStart => RBare [ch]
  | RBare s => RBare (s ++ [ch])
  | RQuoted s => RQuoted (s ++ [ch])
  | RAfter s => RAfter (s ++ [ch])
  end.

(** A separator or more text, outside quotes. *)
Definition read_bare (st : reader) (ch : char) (rest : str) : reader * list (list field) * nat :=
  if starts_with rowsep (ch :: rest) then
    (mkReader RStart [], [row st ++ [field_of (mode st)]], length rowsep - 1)
  else if starts_with col (ch :: rest) then
    (mkReader RStart (row st ++ [field_of (mode st)]), [], length col - 1)
  else (mkReader (extend (mode st) ch) (row st), [], 0).

Definition read_step (st : reader) (ch : char) (rest : str) : reader * list (list field) * nat :=
  match mode st with
  | RStart => if decide (ch = q) then (mkReader (RQuoted []) (row st), [], 0) else read_bare st ch rest
  | RQuoted s =>
      if decide (ch = q) then
        if bool_decide (head rest = Some q) then (mkReader (RQuoted (s ++ [q])) (row st), [], 1)
        else (mkReader (RAfter s) (row st), [], 0)
      else (mkReader (RQuoted (s ++ [ch])) (row st), [], 0)
  | RBare _ | RAfter _ => read_bare st ch rest
  end.

Definition read_dsv (text : str) : list (list field) :=
  let '(st, rows) := scan read_step 0 (mkReader RStart []) text in rows ++ [row st ++ [field_of (mode st)]].

(** Fields as they are written. *)
Definition escape_quotes (s : str) : str := concat ((λ c, if decide (c = q) then [q; q] else [c]) <$> s).
Definition write_field (f : field) : str :=
  match f with Bare s => s | QuotedField s => [q] ++ escape_quotes s ++ [q] end.

(** The first character of a separator stands in no bare field. *)
Definition head_of (s : str) : char := default 0%N (head s).
Definition field_ok (f : field) : Prop :=
  match f with
  | Bare s => q ∉ s ∧ head_of col ∉ s ∧ head_of rowsep ∉ s
  | QuotedField _ => True
  end.

Context (Hcol : col ≠ []) (Hrow : rowsep ≠ []).
Context (Hq : head_of col ≠ q) (Hq' : head_of rowsep ≠ q).
Context (Hsep : ∀ t, starts_with rowsep (col ++ t) = false).

Lemma starts_with_head sep ch rest : sep ≠ [] → ch ≠ head_of sep → starts_with sep (ch :: rest) = false.
Proof.
  intros Hne Hch. destruct sep as [|s sep]; [done|]. apply not_true_iff_false. rewrite starts_with_spec.
  intros [k [= ->]]. done.
Qed.

Lemma scan_one st ch rest st1 k :
  read_step st ch rest = (st1, [], k) → scan read_step 0 st (ch :: rest) = scan read_step k st1 rest.
Proof. intros E. simpl. rewrite E. by destruct (scan read_step k st1 rest). Qed.

(** The mode after a bare text of at least one character, or none. *)
Definition bare_mode (s : str) : read_mode := match s with [] => RStart | _ => RBare s end.

Lemma read_bare_text s r pre tail :
  q ∉ s → head_of col ∉ s → head_of rowsep ∉ s →
  scan read_step 0 (mkReader (bare_mode pre) r) (s ++ tail) = scan read_step 0 (mkReader (bare_mode (pre ++ s)) r) tail.
Proof.
  revert pre. induction s as [|c s IH]; intros pre; [by rewrite app_nil_r|].
  rewrite !not_elem_of_cons. intros [Hc1 H1] [Hc2 H2] [Hc3 H3]. rewrite <- app_comm_cons.
  rewrite (scan_one _ _ _ (mkReader (bare_mode (pre ++ [c])) r) 0).
  - rewrite IH by done. by rewrite <- app_assoc.
  - unfold read_step, read_bare.
    rewrite (starts_with_head rowsep), (starts_with_head col) by done.
    destruct pre as [|p pre]; simpl; [by rewrite decide_False by done|done].
Qed.

Lemma read_quoted_text s r acc tail :
  head tail ≠ Some q →
  scan read_step 0 (mkReader (RQuoted acc) r) (escape_quotes s ++ [q] ++ tail) =
  scan read_step 0 (mkReader (RAfter (acc ++ s)) r) tail.
Proof.
  intros Ht. revert acc. induction s as [|c s IH]; intros acc.
  - simpl app. rewrite (scan_one _ _ _ (mkReader (RAfter acc) r) 0); [by rewrite app_nil_r|].
    unfold read_step; simpl. by rewrite decide_True, bool_decide_eq_false_2.
  - unfold escape_quotes. rewrite fmap_cons. cbn [concat]. fold (escape_quotes s). rewrite <- app_assoc.
    destruct (decide (c = q)) as [->|Hc].
    + simpl ([q; q] ++ _). rewrite (scan_one _ _ _ (mkReader (RQuoted (acc ++ [q])) r) 1).
      * simpl. rewrite IH. by rewrite <- app_assoc.
      * unfold read_step; simpl. by rewrite decide_True, bool_decide_eq_true_2.
    + simpl ([c] ++ _). rewrite (scan_one _ _ _ (mkReader (RQuoted (acc ++ [c])) r) 0).
      * rewrite IH. by rewrite <- app_assoc.
      * unfold read_step; simpl. by rewrite decide_False.
Qed.

(** The mode in which a written field leaves the reader. *)
Definition end_mode (f : field) : read_mode :=
  match f with Bare s => bare_mode s | QuotedField s => RAfter s end.

Lemma read_field f r tail :
  field_ok f → head tail ≠ Some q →
  scan read_step 0 (mkReader RStart r) (write_field f ++ tail) = scan read_step 0 (mkReader (end_mode f) r) tail.
Proof.
  destruct f as [s|s]; cbn [write_field end_mode field_ok]; intros Hok Ht.
  - destruct Hok as (H1 & H2 & H3). by apply (read_bare_text s r []).
  - rewrite <- !app_assoc. change ([q] ++ escape_quotes s ++ [q] ++ tail) with (q :: escape_quotes s ++ [q] ++ tail).
    rewrite (scan_one _ _ _ (mkReader (RQuoted []) r) 0).
    + by rewrite (read_quoted_text s r []).
    + unfold read_step; simpl. by rewrite decide_True.
Qed.

Lemma field_of_end f : field_of (end_mode f) = f.
Proof. destruct f as [[|c s]|s]; done. Qed.

Lemma sep_head (sep t : str) : sep ≠ [] → head (sep ++ t) = Some (head_of sep).
Proof. by destruct sep. Qed.

(** A separator closes the field under way. *)
Lemma read_at_separator m r ch rest :
  ch ≠ q → (∀ s, m ≠ RQuoted s) → read_step (mkReader m r) ch rest = read_bare (mkReader m r) ch rest.
Proof.
  intros Hch Hm. unfold read_step. destruct m as [| |s|]; simpl; [|done|by destruct (Hm s)|done].
  by rewrite decide_False.
Qed.

Lemma end_mode_not_quoted f s : end_mode f ≠ RQuoted s.
Proof. destruct f as [[|c t]|t]; done. Qed.

Lemma read_col f r tail :
  scan read_step 0 (mkReader (end_mode f) r) (col ++ tail) = scan read_step 0 (mkReader RStart (r ++ [f])) tail.
Proof.
  destruct col as [|c cs] eqn:Ec; [done|]. rewrite <- app_comm_cons.
  rewrite (scan_one _ _ _ (mkReader RStart (r ++ [f])) (length cs)); [by apply scan_skip|].
  rewrite read_at_separator; [|done|by intros; apply end_mode_not_quoted].
  unfold read_bare. rewrite Ec, app_comm_cons, Hsep. rewrite (proj2 (starts_with_spec _ _)) by by eexists.
  simpl. by rewrite field_of_end, Nat.sub_0_r.
Qed.

Lemma read_row_sep f r tail :
  scan read_step 0 (mkReader (end_mode f) r) (rowsep ++ tail) =
  let '(st, rows) := scan read_step 0 (mkReader RStart []) tail in (st, (r ++ [f]) :: rows).
Proof.
  destruct rowsep as [|c cs] eqn:Ec; [done|]. rewrite <- app_comm_cons.
  cbn [scan]. rewrite read_at_separator; [|done|by intros; apply end_mode_not_quoted].
  unfold read_bare. rewrite Ec, app_comm_cons. rewrite (proj2 (starts_with_spec _ _)) by by eexists.
  simpl. rewrite Nat.sub_0_r, scan_skip by done. rewrite field_of_end. by destruct (scan _ _ _ _).
Qed.

Lemma read_row f fs r tail :
  field_ok f → Forall field_ok fs → head tail ≠ Some q →
  ∃ r' f', r ++ f :: fs = r' ++ [f'] ∧
    scan read_step 0 (mkReader RStart r) (join col (write_field <$> f :: fs) ++ tail) =
    scan read_step 0 (mkReader (end_mode f') r') tail.
Proof.
  revert f r. induction fs as [|g fs IH]; intros f r Hf Hfs Ht.
  - exists r, f. split; [done|]. by apply read_field.
  - apply Forall_cons in Hfs as [Hg Hfs].
    change (join col (write_field <$> f :: g :: fs)) with
      (write_field f ++ col ++ join col (write_field <$> g :: fs)).
    rewrite <- !app_assoc, read_field, read_col by (rewrite ?sep_head by done; naive_solver).
    destruct (IH g (r ++ [f]) Hg Hfs Ht) as (r' & f' & E & ->). exists r', f'. by rewrite <- E, <- app_assoc.
Qed.

Lemma read_rows rw rows :
  rw ≠ [] → Forall field_ok rw → Forall (λ l, l ≠ [] ∧ Forall field_ok l) rows →
  read_dsv (join rowsep ((λ l, join col (write_field <$> l)) <$> rw :: rows)) = rw :: rows.
Proof.
  revert rw. induction rows as [|rw2 rows IH]; intros [|f fs] Hne Hok Hrows; try done;
    apply Forall_cons in Hok as [Hf Hfs].
  - destruct (read_row f fs [] []) as (r' & f' & E & Es); try done.
    rewrite app_nil_r in Es. unfold read_dsv. cbn [fmap list_fmap join] in *. rewrite Es. simpl.
    by rewrite field_of_end, <- E.
  - apply Forall_cons in Hrows as [[Hne2 Hok2] Hrows].
    specialize (IH rw2 Hne2 Hok2 Hrows).
    set (more := join rowsep ((λ l, join col (write_field <$> l)) <$> rw2 :: rows)) in *.
    change (join rowsep _) with (join col (write_field <$> f :: fs) ++ rowsep ++ more).
    destruct (read_row f fs [] (rowsep ++ more)) as (r' & f' & E & Es); [done..| |].
    { rewrite sep_head by done. naive_solver. }
    unfold read_dsv in *. rewrite Es, read_row_sep.
    destruct (scan read_step 0 _ more) as [st rows'] eqn:Em. simpl. by rewrite IH, <- E.
Qed.
End reader.

(** ** Round trips *)
Section round_trips.
Context (display : json → str).

Lemma has_char_false c s : has_char c s = false ↔ c ∉ s.
Proof.
  unfold has_char. rewrite <- not_true_iff_false, existsb_exists. setoid_rewrite bool_decide_eq_true.
  rewrite list_elem_of_In. naive_solver.
Qed.

Lemma str_contains_app p a b : str_contains p (a ++ p ++ b) = true.
Proof.
  unfold str_contains. apply bool_decide_eq_true. induction a as [|c a IH].
  - rewrite app_nil_l. destruct (p ++ b) eqn:E; simpl; rewrite <- ?E, ?strip_prefix_app; eauto.
  - simpl. destruct (strip_prefix p _); [eauto|]. apply fmap_is_Some. done.
Qed.

Lemma quoted_field_text o v : write_quoted_dsv_field o v = write_field (quote o) (QuotedField v).
Proof.
  unfold write_quoted_dsv_field. cbn [write_field]. f_equal. f_equal.
  induction v as [|c v IH]; [done|]. cbn [split_char]. unfold escape_quotes in *. rewrite fmap_cons. cbn [concat].
  destruct (decide (c = quote o)) as [->|Hc].
  - rewrite <- IH. by destruct v; cbn [split_char]; repeat case_match.
  - destruct (split_char (quote o) v) as [|w ws] eqn:E.
    + destruct v; cbn [split_char] in E; repeat case_match; done.
    + rewrite <- IH. by destruct ws.
Qed.

(** The separators for which a field without them, CR or LF cannot be
    misread: one character, or starting with CR or LF. *)
Definition guarded (sep : str) : Prop := length sep = 1 ∨ head_of sep = CR ∨ head_of sep = NL.

Definition free_of_syntax (o : DataGridDsvOptions) (s : str) : Prop :=
  quote o ∉ s ∧ head_of (column_separator o) ∉ s ∧ head_of (row_separator o) ∉ s.

Lemma guarded_head sep v :
  guarded sep → str_contains sep v = false → CR ∉ v → NL ∉ v → head_of sep ∉ v.
Proof.
  intros [Hl|[->| ->]] Hc Hcr Hnl; try done. destruct sep as [|c [|]]; try done. change (head_of [c]) with c.
  intros (a & b & ->)%list_elem_of_split. pose proof (str_contains_app [c] a b) as E. cbn [app] in E. congruence.
Qed.

Lemma unquoted_is_free o v :
  guarded (column_separator o) → guarded (row_separator o) → dsv_needs_quote o v = false → free_of_syntax o v.
Proof.
  unfold dsv_needs_quote. rewrite !orb_false_iff, !has_char_false. intros Hc Hr ((((H1 & H2) & H3) & H4) & H5).
  split_and!; [done|by apply guarded_head..].
Qed.

(** The field a header or a cell is written as. *)
Definition header_field (o : DataGridDsvOptions) (v : str) : field :=
  if bool_decide (quote_policy o = Always) || dsv_needs_quote o v then QuotedField v else Bare v.
Definition cell_field (o : DataGridDsvOptions) (c : DsvCell) : field :=
  match c with
  | None => Bare (null_text o)
  | Some v => if bool_decide (quote_policy o = Always) || dsv_needs_quote o v || bool_decide (v = null_text o)
              then QuotedField v else Bare v
  end.

Definition text_of (f : field) : str := match f with Bare s | QuotedField s => s end.
(** A bare field with the NULL text is NULL. *)
Definition decode_cell (o : DataGridDsvOptions) (f : field) : DsvCell :=
  match f with QuotedField s => Some s | Bare s => if decide (s = null_text o) then None else Some s end.

Lemma text_of_header o v : text_of (header_field o v) = v.
Proof. unfold header_field. by case_match. Qed.
Lemma decode_cell_field o c : decode_cell o (cell_field o c) = c.
Proof.
  destruct c as [v|]; cbn [cell_field decode_cell]; [|by rewrite decide_True].
  destruct (_ || _) eqn:E; [done|]. cbn [decode_cell].
  apply orb_false_iff in E as [_ E%bool_decide_eq_false]. by rewrite decide_False.
Qed.

Lemma write_header_field o v : quote_policy o ≠ Never → write_dsv_field o v = write_field (quote o) (header_field o v).
Proof.
  intros Hp. unfold write_dsv_field, header_field. destruct (quote_policy o); simpl; try done; [by rewrite quoted_field_text|].
  destruct (dsv_needs_quote o v); [by rewrite quoted_field_text|done].
Qed.
Lemma write_cell_field o c : quote_policy o ≠ Never → write_dsv_data_field o c = write_field (quote o) (cell_field o c).
Proof.
  intros Hp. unfold write_dsv_data_field, cell_field. destruct c as [v|]; [|done].
  destruct (quote_policy o); simpl; try done; [by rewrite quoted_field_text|].
  destruct (_ || _); [by rewrite quoted_field_text|done].
Qed.

Section written.
Context (o : DataGridDsvOptions).
Context (Hpolicy : quote_policy o ≠ Never) (Hvalid : validate_dsv_options o true = Ok ()).
Context (Hgc : guarded (column_separator o)) (Hgr : guarded (row_separator o)).
Context (Hnull : free_of_syntax o (null_text o)).

Let ok := field_ok (column_separator o) (row_separator o) (quote o).
Let read := read_dsv (column_separator o) (row_separator o) (quote o).

Lemma header_field_ok v : ok (header_field o v).
Proof.
  unfold header_field. destruct (_ || _) eqn:E; [done|]. apply orb_false_iff in E as [_ E].
  by apply unquoted_is_free.
Qed.
Lemma cell_field_ok c : ok (cell_field o c).
Proof.
  destruct c as [v|]; cbn [cell_field]; [|done]. destruct (_ || _) eqn:E; [done|].
  rewrite !orb_false_iff in E. apply unquoted_is_free; naive_solver.
Qed.

Lemma valid_separators :
  column_separator o ≠ [] ∧ row_separator o ≠ [] ∧
  head_of (column_separator o) ≠ quote o ∧ head_of (row_separator o) ≠ quote o ∧
  ∀ t, starts_with (row_separator o) (column_separator o ++ t) = false.
Proof.
  unfold validate_dsv_options in Hvalid. cbn [andb] in Hvalid.
  destruct (_ || _) eqn:E1 in Hvalid; [done|]. destruct (_ || _) eqn:E2 in Hvalid; [done|].
  destruct (_ || _) eqn:E3 in Hvalid; [done|]. destruct (_ || _) eqn:E4 in Hvalid; [done|].
  rewrite ?orb_false_iff, ?has_char_false, ?bool_decide_eq_false in *.
  destruct E1 as [Hc Hr], E3 as [H1 H2], E4 as [[_ Hqc] Hqr]. split_and!; [done..| | |].
  - intros Eq. apply Hqc. rewrite <- Eq. destruct (column_separator o); [done|]. left.
  - intros Eq. apply Hqr. rewrite <- Eq. destruct (row_separator o); [done|]. left.
  - intros t. apply not_true_iff_false. rewrite starts_with_spec. intros Hp.
    destruct (prefix_weak_total _ _ _ Hp (prefix_app_r (column_separator o) (column_separator o) t ltac:(done))) as [[k Ek]|[k Ek]].
    + pose proof (str_contains_app (row_separator o) [] k) as X. rewrite app_nil_l, <- Ek in X. congruence.
    + pose proof (str_contains_app (column_separator o) [] k) as X. rewrite app_nil_l, <- Ek in X. congruence.
Qed.

Lemma written_rows_read_back rw rows :
  Forall (λ l : list field, l ≠ [] ∧ Forall ok l) (rw :: rows) →
  read (join (row_separator o) ((λ l, join (column_separator o) (write_field (quote o) <$> l)) <$> rw :: rows)) = rw :: rows.
Proof.
  intros [[H1 H2] H3]%Forall_cons. destruct valid_separators as (Hc & Hr & Hq1 & Hq2 & Hs). by apply read_rows.
Qed.

(** The lines of a table, as fields. *)
Definition header_line (names : list str) : list field :=
  option_list (header_field o <$> (if include_row_header o then Some (lit "#") else None)) ++ (header_field o <$> names).
Definition data_line (i : nat) (cells : list DsvCell) : list field :=
  option_list (header_field o <$> (if include_row_header o then Some (show_nat (i + 1)) else None)) ++ (cell_field o <$> cells).
Definition table_lines (names : list str) (rows : list (list DsvCell)) : list (list field) :=
  (if include_column_header o then [header_line names] else []) ++ imap data_line rows.

Lemma written_headers (l : list str) : write_dsv_field o <$> l = write_field (quote o) <$> (header_field o <$> l).
Proof. rewrite <- list_fmap_compose. apply list_fmap_ext. intros. by apply write_header_field. Qed.
Lemma written_cells (l : list DsvCell) : write_dsv_data_field o <$> l = write_field (quote o) <$> (cell_field o <$> l).
Proof. rewrite <- list_fmap_compose. apply list_fmap_ext. intros. by apply write_cell_field. Qed.
Lemma written_option (h : option str) :
  option_list (write_dsv_field o <$> h) = write_field (quote o) <$> option_list (header_field o <$> h).
Proof. destruct h as [h|]; simpl; [|done]. by rewrite write_header_field. Qed.

Lemma written_table names rows :
  (if include_column_header o
   then [write_dsv_row o (if include_row_header o then Some (lit "#") else None) names] else []) ++ data_lines o rows =
  (λ l, join (column_separator o) (write_field (quote o) <$> l)) <$> table_lines names rows.
Proof.
  unfold table_lines. rewrite fmap_app. f_equal.
  - destruct (include_column_header o); [|done]. unfold write_dsv_row, header_line.
    by rewrite written_option, written_headers, <- fmap_app.
  - unfold data_lines. rewrite fmap_imap. apply imap_ext. intros i cells _. unfold compose, write_dsv_data_row, data_line.
    by rewrite written_option, written_cells, <- fmap_app.
Qed.

Lemma table_lines_ok names rows :
  names ≠ [] → Forall (λ r, r ≠ []) rows → Forall (λ l : list field, l ≠ [] ∧ Forall ok l) (table_lines names rows).
Proof.
  intros Hn Hrows.
  assert (Hok : ∀ h, Forall ok (option_list (header_field o <$> h))).
  { intros [h|]; simpl; [|done]. apply Forall_singleton, header_field_ok. }
  apply Forall_app; split.
  - destruct (include_column_header o); [|done]. apply Forall_singleton. split.
    + unfold header_line. destruct names; [done|]. by destruct (include_row_header o).
    + apply Forall_app; split; [apply Hok|]. apply Forall_fmap, Forall_true. intros. apply header_field_ok.
  - apply Forall_lookup. intros i l. rewrite list_lookup_imap. intros (cells & Hc & ->)%fmap_Some.
    eapply Forall_lookup in Hrows; [|done]. split.
    + unfold data_line. destruct cells; [done|]. by destruct (include_row_header o).
    + apply Forall_app; split; [apply Hok|]. apply Forall_fmap, Forall_true. intros. apply cell_field_ok.
Qed.

(** The table in a text: the header names, and each row with its number. *)
Definition read_line (l : list field) : option str * list DsvCell :=
  if include_row_header o then (text_of <$> head l, decode_cell o <$> tail l) else (None, decode_cell o <$> l).
Definition read_table (text : str) : option (list str) * list (option str * list DsvCell) :=
  let lines := read_dsv (column_separator o) (row_separator o) (quote o) text in
  if include_column_header o then (Some (text_of <$> default [] (head lines)), read_line <$> tail lines)
  else (None, read_line <$> lines).

(** The table that was written. *)
Definition written_header (names : list str) : option (list str) :=
  if include_column_header o then Some ((if include_row_header o then [lit "#"] else []) ++ names) else None.
Definition written_body (rows : list (list DsvCell)) : list (option str * list DsvCell) :=
  imap (λ i r, (if include_row_header o then Some (show_nat (i + 1)) else None, r)) rows.

Lemma read_data_line i cells :
  read_line (data_line i cells) = (if include_row_header o then Some (show_nat (i + 1)) else None, cells).
Proof.
  assert (E : decode_cell o <$> (cell_field o <$> cells) = cells).
  { rewrite <- list_fmap_compose. rewrite <- (list_fmap_id cells) at 2. apply list_fmap_ext. intros. apply decode_cell_field. }
  unfold read_line, data_line. destruct (include_row_header o); simpl; by rewrite ?text_of_header, E.
Qed.

Lemma read_header_line names :
  text_of <$> header_line names = (if include_row_header o then [lit "#"] else []) ++ names.
Proof.
  assert (E : text_of <$> (header_field o <$> names) = names).
  { rewrite <- list_fmap_compose. rewrite <- (list_fmap_id names) at 2. apply list_fmap_ext. intros. apply text_of_header. }
  unfold header_line. rewrite fmap_app, E. destruct (include_row_header o); [|done]. simpl. by rewrite text_of_header.
Qed.

Lemma read_written_table names rows :
  names ≠ [] → Forall (λ r, r ≠ []) rows → include_column_header o = true ∨ rows ≠ [] →
  read_table (join (row_separator o) ((λ l, join (column_separator o) (write_field (quote o) <$> l)) <$> table_lines names rows)) =
  (written_header names, written_body rows).
Proof.
  intros Hn Hr Hsome. unfold read_table. pose proof (table_lines_ok names rows Hn Hr) as Hok.
  destruct (table_lines names rows) as [|l ls] eqn:E.
  { unfold table_lines in E. destruct (include_column_header o); [done|]. destruct rows; [naive_solver|done]. }
  fold read. rewrite (written_rows_read_back l ls Hok). rewrite <- E. unfold table_lines, written_header, written_body.
  destruct (include_column_header o); simpl; rewrite ?read_header_line; f_equal; rewrite fmap_imap; apply imap_ext;
    intros; apply read_data_line.
Qed.
End written.

(** C34: For accepted options with a quote policy other than Never, separators of one character or
    starting with CR or LF, and a NULL text free of quote and separator characters, the DSV writer
    succeeds and reading its text back yields the column names, the row numbers and the cells, NULL
    and the text that equals the NULL text kept apart. *)
Theorem dsv_round_trip names indexes rows selected o :
  quote_policy o ≠ Never → validate_dsv_options o true = Ok () →
  guarded (column_separator o) → guarded (row_separator o) → free_of_syntax o (null_text o) →
  names ≠ [] → indexes ≠ [] → include_column_header o = true ∨ rows ≠ [] →
  mapM (M:=option) (select indexes) rows = Some selected →
  ∃ text, write_dsv display names indexes rows o = Some (Ok text) ∧
    read_table o text = (written_header o names, written_body o ((λ r : list json, cell_of display <$> r) <$> selected)).
Proof.
  intros Hp Hv Hc Hr Hnull Hn Hi Hsome Hsel. unfold write_dsv. rewrite Hv, Hsel, written_table by done.
  eexists. split; [done|]. apply read_written_table; try done.
  - apply Forall_fmap, Forall_lookup. intros i r Hlk. apply mapM_Some in Hsel.
    destruct (Forall2_lookup_r _ _ _ _ _ Hsel Hlk) as (r0 & _ & E%length_mapM). simpl.
    destruct r; [|done]. by destruct indexes.
  - destruct Hsome as [|Hne]; [by left|right]. apply length_mapM in Hsel. by destruct rows, selected.
Qed.

(** ** CSV and TSV *)

(** The text of a JSON number has no tab, line break or quote. *)
Definition plain_number (v : json) : Prop := match v with JNumber t => tsv_needs_quote t = false | _ => True end.

Lemma tsv_needs_quote_false s : tsv_needs_quote s = false → DQUOTE ∉ s ∧ TAB ∉ s ∧ NL ∉ s.
Proof.
  unfold tsv_needs_quote. rewrite <- not_true_iff_false, existsb_exists. intros Hn.
  split_and!; intros Hin%list_elem_of_In; apply Hn; eexists; (split; [done|]); reflexivity.
Qed.

Definition csv_field (v : json) : field := if is_null v then Bare [] else QuotedField (value_text display v).

Lemma csv_escape_quotes s : push_csv_escaped_content s = escape_quotes DQUOTE s.
Proof.
  induction s as [|c s IH]; [done|]. cbn [push_csv_escaped_content]. unfold escape_quotes in *. rewrite fmap_cons.
  cbn [concat]. rewrite IH. by destruct (decide (c = DQUOTE)).
Qed.
Lemma escape_quotes_id q s : q ∉ s → escape_quotes q s = s.
Proof.
  unfold escape_quotes. induction s as [|c s IH]; [done|]. rewrite not_elem_of_cons. intros [H1 H2].
  rewrite fmap_cons. cbn [concat]. rewrite IH, decide_False by done. done.
Qed.

Lemma csv_value_text v : plain_number v → push_csv_value display v = write_field DQUOTE (csv_field v).
Proof.
  unfold push_csv_value, csv_field, push_csv_text_value. intros Hp.
  destruct v as [|b|t|s|l|m]; cbn [is_null write_field value_text]; rewrite ?csv_escape_quotes; try done.
  - by destruct b.
  - apply tsv_needs_quote_false in Hp as [Hp _]. by rewrite escape_quotes_id.
Qed.

(** A header line and at least one row, with single-character separators. *)
Lemma read_header_and_rows (c : char) h (line : list json → list field) (row_text : list json → str) rows :
  c ≠ DQUOTE → c ≠ NL → h ≠ [] → Forall (field_ok [c] [NL] DQUOTE) h → rows ≠ [] →
  (∀ r, r ∈ rows → row_text r = join [c] (write_field DQUOTE <$> line r) ∧ line r ≠ [] ∧
                   Forall (field_ok [c] [NL] DQUOTE) (line r)) →
  read_dsv [c] [NL] DQUOTE (join [c] (write_field DQUOTE <$> h) ++ [NL] ++ join [NL] (row_text <$> rows)) =
  h :: (line <$> rows).
Proof.
  intros Hc Hnl Hh Hhok Hr Hrows.
  rewrite <- (read_rows [c] [NL] DQUOTE) at 1; try done.
  - f_equal. destruct rows as [|r0 rows]; [done|]. cbn [fmap list_fmap join].
    f_equal. f_equal. change (join [NL] (row_text <$> r0 :: rows) =
      join [NL] ((λ l, join [c] (write_field DQUOTE <$> l)) <$> (line <$> r0 :: rows))).
    rewrite <- list_fmap_compose. f_equal. apply list_fmap_ext. intros i r Hi%list_elem_of_lookup_2. by apply Hrows.
  - intros t. apply starts_with_head; [done|]. simpl. by intros ->.
  - apply Forall_fmap, Forall_forall. intros r Hin. by apply Hrows.
Qed.

Definition csv_line (r : list json) : list field := csv_field <$> r.

(** Reading a CSV export with at least one column and row back yields the quoted column names
    and one field per cell: bare and empty for NULL, quoted with the text of the value otherwise, so
    that NULL and the empty string differ. *)
Theorem csv_round_trip columns rows :
  columns ≠ [] → rows ≠ [] → Forall (λ r, r ≠ [] ∧ Forall plain_number r) rows →
  read_dsv (lit ",") [NL] DQUOTE (format_csv display columns rows) = (QuotedField <$> columns) :: (csv_line <$> rows).
Proof.
  intros Hc Hr Hrows. rewrite Forall_forall in Hrows.
  rewrite <- (read_header_and_rows (chr "," ) (QuotedField <$> columns) csv_line (push_query_result_csv_row display)); try done.
  - unfold format_csv. do 3 f_equal. rewrite <- list_fmap_compose. apply list_fmap_ext. intros i x _.
    unfold push_csv_escaped. cbn [compose write_field]. by rewrite csv_escape_quotes.
  - by destruct columns.
  - apply Forall_fmap, Forall_true. done.
  - intros r [Hne Hp]%Hrows. split_and!.
    + unfold push_query_result_csv_row, csv_line. f_equal. rewrite <- list_fmap_compose. apply list_fmap_ext.
      intros i v Hi. apply csv_value_text. by eapply Forall_lookup.
    + by destruct r.
    + apply Forall_fmap, Forall_true. intros v. unfold csv_field. cbn [compose]. destruct (is_null v); [|done].
      split_and!; apply not_elem_of_nil.
Qed.

Definition tsv_text_field (s : str) : field := if tsv_needs_quote s then QuotedField s else Bare s.
Definition tsv_text (v : json) : str := if is_null v then [] else value_text display v.
Definition tsv_line (r : list json) : list field := tsv_text_field ∘ tsv_text <$> r.

Lemma tsv_text_field_ok s : field_ok [TAB] [NL] DQUOTE (tsv_text_field s).
Proof.
  unfold tsv_text_field. destruct (tsv_needs_quote s) eqn:E; [done|]. by apply tsv_needs_quote_false in E.
Qed.
Lemma tsv_escaped_text s : push_tsv_escaped s = write_field DQUOTE (tsv_text_field s).
Proof.
  unfold push_tsv_escaped, tsv_text_field. destruct (tsv_needs_quote s); [|done].
  unfold push_csv_escaped. cbn [write_field]. by rewrite csv_escape_quotes.
Qed.
Lemma tsv_value_text v : plain_number v → push_tsv_value display v = write_field DQUOTE (tsv_text_field (tsv_text v)).
Proof.
  rewrite <- tsv_escaped_text. destruct v as [|b|t|s|l|m]; try done; simpl.
  - by destruct b.
  - intros Hp. unfold push_tsv_escaped, tsv_text. simpl. by rewrite Hp.
Qed.

(** Reading a TSV export back yields the column names and the text of every
    cell, the empty text for NULL. *)
Theorem tsv_round_trip columns rows :
  columns ≠ [] → rows ≠ [] → Forall (λ r, r ≠ [] ∧ Forall plain_number r) rows →
  (λ l : list field, text_of <$> l) <$> read_dsv [TAB] [NL] DQUOTE (format_tsv display columns rows) =
  columns :: ((λ r : list json, tsv_text <$> r) <$> rows).
Proof.
  intros Hc Hr Hrows. rewrite Forall_forall in Hrows.
  assert (Ht : ∀ s, text_of (tsv_text_field s) = s) by (intros s; unfold tsv_text_field; by case_match).
  transitivity ((λ l : list field, text_of <$> l) <$> ((tsv_text_field <$> columns) :: (tsv_line <$> rows))).
  2:{ rewrite fmap_cons, <- !list_fmap_compose. f_equal.
      - rewrite <- (list_fmap_id columns) at 2. apply list_fmap_ext. intros i s _. apply Ht.
      - apply list_fmap_ext. intros i r _. unfold tsv_line. cbn [compose]. rewrite <- list_fmap_compose.
        apply list_fmap_ext. intros j v _. apply Ht. }
  f_equal. rewrite <- (read_header_and_rows TAB (tsv_text_field <$> columns) tsv_line (push_tsv_row display)); try done.
  - unfold format_tsv. do 3 f_equal. rewrite <- list_fmap_compose. apply list_fmap_ext. intros i x _. apply tsv_escaped_text.
  - by destruct columns.
  - apply Forall_fmap, Forall_true. intros. apply tsv_text_field_ok.
  - intros r [Hne Hp]%Hrows. split_and!.
    + unfold push_tsv_row, tsv_line. f_equal. rewrite <- list_fmap_compose. apply list_fmap_ext.
      intros i v Hi. apply tsv_value_text. by eapply Forall_lookup.
    + by destruct r.
    + apply Forall_fmap, Forall_true. intros v. apply tsv_text_field_ok.
Qed.
End round_trips.

Ltac closed := refine (bool_decide_eq_true_1 _ _); vm_compute; reflexivity.

#[export] Instance guarded_dec sep : Decision (guarded sep).
Proof. unfold guarded. apply _. Defined.
#[export] Instance plain_number_dec v : Decision (plain_number v).
Proof. destruct v; simpl; apply _. Defined.
#[export] Instance free_of_syntax_dec o s : Decision (free_of_syntax o s).
Proof. unfold free_of_syntax. apply _. Defined.

(** Semicolons, CR LF, row numbers; a text that is the NULL text, one with a
    separator and a quote, and a NULL. *)
Definition sample_options : DataGridDsvOptions := mkDsv (lit ";") [CR; NL] (lit "NULL") DQUOTE Minimal true true.
Definition sample_rows : list (list json) :=
  [[JString (lit "NULL"); JNull]; [JString ([DQUOTE] ++ lit ";"); JBool true]].

Lemma dsv_witness :
  ∃ text, write_dsv (λ _, []) [lit "b"; lit "a"] [1; 0] sample_rows sample_options = Some (Ok text) ∧
    read_table sample_options text =
      (Some [lit "#"; lit "b"; lit "a"],
       [(Some (lit "1"), [None; Some (lit "NULL")]); (Some (lit "2"), [Some (lit "true"); Some ([DQUOTE] ++ lit ";")])]).
Proof.
  apply (dsv_round_trip (λ _, []) [lit "b"; lit "a"] [1; 0] sample_rows
           [[JNull; JString (lit "NULL")]; [JBool true; JString ([DQUOTE] ++ lit ";")]] sample_options);
    [done|done|closed|closed|closed|done|done|by left|done].
Defined.

Lemma csv_witness :
  read_dsv (lit ",") [NL] DQUOTE (format_csv (λ _, []) [lit "a"; lit "b"] [[JNull; JString [DQUOTE]]; [JString []; JNumber (lit "1")]]) =
  [[QuotedField (lit "a"); QuotedField (lit "b")];
   [Bare []; QuotedField [DQUOTE]]; [QuotedField []; QuotedField (lit "1")]].
Proof. apply (csv_round_trip (λ _, [])); [done|done|closed]. Defined.

Lemma tsv_witness :
  (λ l : list field, text_of <$> l) <$>
    read_dsv [TAB] [NL] DQUOTE (format_tsv (λ _, []) [lit "a"; lit "b"] [[JNull; JString [DQUOTE; TAB]]]) =
  [[lit "a"; lit "b"]; [[]; [DQUOTE; TAB]]].
Proof. apply (tsv_round_trip (λ _, [])); [done|done|closed]. Defined.

(** Options that pass the validation and write two different tables of the
    same shape as the same text: a separator that overlaps itself, and a NULL
    text with a separator in it. *)
Definition overlapping_options : DataGridDsvOptions := mkDsv (lit "aa") [NL] (lit "NULL") DQUOTE Minimal false false.
Definition null_options : DataGridDsvOptions := mkDsv (lit ",") [NL] (lit "N,N") DQUOTE Minimal false false.

(** Accepted options under which different tables are written as the same text. *)
Theorem accepted_options_can_be_ambiguous display :
  validate_dsv_options overlapping_options true = Ok () ∧ validate_dsv_options null_options true = Ok () ∧
  write_dsv display [] [0; 1] [[JString (lit "xa"); JString (lit "y")]] overlapping_options =
  write_dsv display [] [0; 1] [[JString (lit "x"); JString (lit "ay")]] overlapping_options ∧
  write_dsv display [] [0; 1] [[JNull; JString (lit "N")]] null_options =
  write_dsv display [] [0; 1] [[JString (lit "N"); JNull]] null_options.
Proof. done. Qed.
