(* ===== verification/Json.v ===== *)
(** JSON values ([serde_json::Value], built with the features
    [arbitrary_precision] and [preserve_order]): decidable equality, the
    equality [==] of the source, which ignores the order of the fields of an
    object, and their text. *)
From S2P Require Import Prelude StateStore.
Local Open Scope dbx_scope.

#[export] Instance json_eq_dec : EqDecision json.
Proof.
  refine (fix go (x y : json) : Decision (x = y) :=
    let _ : EqDecision json := @go in
    match x, y with
    | JNull, JNull => left _
    | JBool a, JBool b => cast_if (decide (a = b))
    | JNumber a, JNumber b => cast_if (decide (a = b))
    | JString a, JString b => cast_if (decide (a = b))
    | JArray a, JArray b => cast_if (decide (a = b))
    | JObject a, JObject b => cast_if (decide (a = b))
    | _, _ => right _
    end); abstract congruence.
Defined.

(** [map.get(key)] of an object. *)
Fixpoint field_of_object (key : str) (fields : list (str * json)) : option json :=
  match fields with
  | [] => None
  | (k, v) :: r => if decide (k = key) then Some v else field_of_object key r
  end.

(** [a == b] *)
Fixpoint value_eqb (a b : json) : bool :=
  match a, b with
  | JNull, JNull => true
  | JBool x, JBool y => Bool.eqb x y
  | JNumber x, JNumber y => bool_decide (x = y)
  | JString x, JString y => bool_decide (x = y)
  | JArray xs, JArray ys =>
      (fix items (xs ys : list json) : bool :=
         match xs, ys with
         | [], [] => true
         | x :: xs', y :: ys' => value_eqb x y && items xs' ys'
         | _, _ => false
         end) xs ys
  | JObject fs, JObject gs =>
      bool_decide (length fs = length gs) &&
      forallb (λ kv, match field_of_object kv.1 gs with Some w => value_eqb kv.2 w | None => false end) fs
  | _, _ => false
  end.

(** Cells the source does not tell apart. *)
Definition same_value (a b : json) : Prop := a = b ∨ value_eqb a b = true.

Lemma value_eqb_null v : value_eqb v JNull = true → v = JNull.
Proof. by destruct v. Qed.
Lemma value_eqb_null_l v : value_eqb JNull v = true → v = JNull.
Proof. by destruct v. Qed.
