(* ===== verification/Identifiers.v ===== *)
(** Names in generated SQL ([crates/dbx-core/src/sql_dialect/identifiers.rs]
    and [capabilities.rs]): how the dialects quote identifiers and qualify
    table names, and how they page through a table. *)
From S2P Require Import Prelude SqlDialect.
Local Open Scope dbx_scope.

(** ** Capabilities *)
Definition is_schema_aware (d : DatabaseType.t) : bool :=
  match d with
  | DatabaseType.Postgres | DatabaseType.SqlServer | DatabaseType.Oracle | DatabaseType.Redshift
  | DatabaseType.Dameng | DatabaseType.Gaussdb | DatabaseType.Kwdb | DatabaseType.Kingbase
  | DatabaseType.Highgo | DatabaseType.Uxdb | DatabaseType.Vastbase | DatabaseType.Yashandb
  | DatabaseType.Oscar | DatabaseType.Databricks | DatabaseType.SapHana | DatabaseType.Teradata
  | DatabaseType.Vertica | DatabaseType.Exasol | DatabaseType.OpenGauss | DatabaseType.OceanbaseOracle
  | DatabaseType.Gbase | DatabaseType.Databend | DatabaseType.Jdbc | DatabaseType.H2
  | DatabaseType.Snowflake | DatabaseType.Trino | DatabaseType.PrestoSql | DatabaseType.Hive
  | DatabaseType.Kyuubi | DatabaseType.Impala | DatabaseType.Argo | DatabaseType.Spark
  | DatabaseType.Db2 | DatabaseType.Informix | DatabaseType.Tdengine | DatabaseType.Xugu
  | DatabaseType.Sqlite | DatabaseType.DuckDb | DatabaseType.Iris | DatabaseType.Spanner => true
  | _ => false
  end.

Inductive TablePaginationStrategy :=
| LimitOffset | FetchFirst | Db2FetchFirst | SqlServerTop | IrisTop | InformixFirst
| FirebirdRows | Rownum | QuestDbLimit | Unbounded | AgentMaxRows.
Inductive PaginationContext := TablePreview | BoundedRead | UserQuery.

Definition pagination_strategy (d : option DatabaseType.t) (context : PaginationContext) : TablePaginationStrategy :=
  match d with
  | Some DatabaseType.Jdbc => AgentMaxRows
  | Some DatabaseType.Oracle | Some DatabaseType.Oscar =>
      match context with TablePreview | BoundedRead => Rownum | UserQuery => Unbounded end
  | Some DatabaseType.Dameng => FetchFirst
  | Some DatabaseType.Db2 => Db2FetchFirst
  | Some DatabaseType.SqlServer => SqlServerTop
  | Some DatabaseType.Iris => IrisTop
  | Some DatabaseType.Informix => InformixFirst
  | Some DatabaseType.Firebird => FirebirdRows
  | Some DatabaseType.OceanbaseOracle => Rownum
  | Some DatabaseType.Questdb => QuestDbLimit
  | _ => LimitOffset
  end.

Definition firebird_rows_clause (limit offset : nat) : str :=
  if decide (0 < offset)
  then lit "ROWS " ++ show_nat (offset + 1) ++ lit " TO " ++ show_nat (offset + limit)
  else lit "ROWS " ++ show_nat limit.

Definition is_simple_informix_identifier (name : str) : bool :=
  match name with
  | [] => false
  | first :: rest =>
      (is_ascii_alphabetic first || bool_decide (first = chr "_")) &&
      forallb (λ ch, is_ascii_alphanumeric ch || bool_decide (ch = chr "_") || bool_decide (ch = chr "$")) rest
  end.

(** ** Quoting *)

(** [name.replace(q, "qq")] for a character [q]. *)
Definition double_char (q : char) (name : str) : str := concat ((λ c, if decide (c = q) then [q; q] else [c]) <$> name).

Definition quoted (open close : char) (name : str) : str := [open] ++ double_char close name ++ [close].
Definition backticks (name : str) : str := quoted BACKTICK BACKTICK name.
Definition brackets (name : str) : str := quoted (chr "[") (chr "]") name.
Definition double_quotes (name : str) : str := quoted DQUOTE DQUOTE name.

(** [name.starts_with(a) && name.ends_with(b)] *)
Definition between_chars (a b : char) (name : str) : bool :=
  bool_decide (head name = Some a) && bool_decide (last name = Some b).

Definition is_explicitly_quoted_identifier (name : str) : bool :=
  bool_decide (2 ≤ length name) &&
  (between_chars DQUOTE DQUOTE name || between_chars BACKTICK BACKTICK name || between_chars (chr "[") (chr "]") name).

Definition quote_table_identifier (d : option DatabaseType.t) (name : str) : str :=
  if bool_decide (d = Some DatabaseType.Gaussdb ∨ d = Some DatabaseType.OpenGauss) &&
     is_explicitly_quoted_identifier name
  then name
  else
    match d with
    | Some DatabaseType.Iotdb | Some DatabaseType.Jdbc => name
    | Some DatabaseType.Mysql | Some DatabaseType.ClickHouse | Some DatabaseType.Doris
    | Some DatabaseType.Goldendb | Some DatabaseType.StarRocks | Some DatabaseType.ManticoreSearch
    | Some DatabaseType.Hive | Some DatabaseType.Kyuubi | Some DatabaseType.Impala
    | Some DatabaseType.Argo | Some DatabaseType.Spark | Some DatabaseType.Databricks
    | Some DatabaseType.Databend | Some DatabaseType.Tdengine | Some DatabaseType.Access
    | Some DatabaseType.Bigquery | Some DatabaseType.Spanner | Some DatabaseType.Questdb => backticks name
    | Some DatabaseType.Informix => if is_simple_informix_identifier name then name else double_quotes name
    | Some DatabaseType.Neo4j => backticks name
    | Some DatabaseType.SqlServer => brackets name
    | _ => double_quotes name
    end.

Definition quote_transfer_identifier (name : str) (d : DatabaseType.t) : str :=
  match d with
  | DatabaseType.Mysql | DatabaseType.ClickHouse | DatabaseType.Doris | DatabaseType.StarRocks
  | DatabaseType.Hive | DatabaseType.Kyuubi | DatabaseType.Impala | DatabaseType.Argo
  | DatabaseType.Spark | DatabaseType.Questdb => backticks name
  | DatabaseType.SqlServer => brackets name
  | _ => double_quotes name
  end.

(** *** Names that need no quotes *)
Definition is_simple_lower_identifier (name : str) : bool :=
  match name with
  | [] => false
  | first :: rest =>
      (bool_decide (first = chr "_") || is_ascii_lowercase first) &&
      forallb (λ ch, bool_decide (ch = chr "_") || bool_decide (ch = chr "$") || is_ascii_lowercase ch || is_ascii_digit ch) rest
  end.
Definition is_simple_unquoted_identifier (name : str) : bool :=
  match name with
  | [] => false
  | first :: rest =>
      (bool_decide (first = chr "_") || is_ascii_alphabetic first) &&
      forallb (λ ch, bool_decide (ch = chr "_") || bool_decide (ch = chr "$") || is_ascii_alphanumeric ch) rest
  end.
Definition postgres_reserved : list str :=
  [lit "all"; lit "analyse"; lit "analyze"; lit "and"; lit "any"; lit "array"; lit "as"; lit "asc";
   lit "asymmetric"; lit "authorization"; lit "binary"; lit "both"; lit "case"; lit "cast"; lit "check";
   lit "collate"; lit "collation"; lit "column"; lit "concurrently"; lit "constraint"; lit "create";
   lit "cross"; lit "current_catalog"; lit "current_date"; lit "current_role"; lit "current_schema";
   lit "current_time"; lit "current_timestamp"; lit "current_user"; lit "default"; lit "deferrable"; lit "desc";
   lit "distinct"; lit "do"; lit "else"; lit "end"; lit "except"; lit "false"; lit "fetch"; lit "for";
   lit "foreign"; lit "freeze"; lit "from"; lit "full"; lit "grant"; lit "group"; lit "having"; lit "ilike";
   lit "in"; lit "initially"; lit "inner"; lit "intersect"; lit "into"; lit "is"; lit "isnull"; lit "join";
   lit "lateral"; lit "leading"; lit "left"; lit "like"; lit "limit"; lit "localtime"; lit "localtimestamp";
   lit "natural"; lit "not"; lit "notnull"; lit "null"; lit "offset"; lit "on"; lit "only"; lit "or";
   lit "order"; lit "outer"; lit "overlaps"; lit "placing"; lit "primary"; lit "references"; lit "returning";
   lit "right"; lit "select"; lit "session_user"; lit "similar"; lit "some"; lit "symmetric"; lit "system_user";
   lit "table"; lit "tablesample"; lit "then"; lit "to"; lit "trailing"; lit "true"; lit "union"; lit "unique";
   lit "user"; lit "using"; lit "variadic"; lit "verbose"; lit "when"; lit "where"; lit "window"; lit "with"].
Definition is_postgres_reserved_identifier (name : str) : bool := existsb (λ w, bool_decide (name = w)) postgres_reserved.

Definition mysql_only_reserved : list str :=
  [lit "accessible"; lit "auto_increment"; lit "change"; lit "database"; lit "databases"; lit "delayed";
   lit "describe"; lit "div"; lit "dual"; lit "enclosed"; lit "escaped"; lit "explain"; lit "force";
   lit "fulltext"; lit "high_priority"; lit "ignore"; lit "index"; lit "infile"; lit "key"; lit "keys";
   lit "kill"; lit "linear"; lit "lines"; lit "load"; lit "lock"; lit "low_priority";
   lit "master_ssl_verify_server_cert"; lit "maxvalue"; lit "mediumint"; lit "mod"; lit "no_write_to_binlog";
   lit "optimize"; lit "optionally"; lit "outfile"; lit "partition"; lit "purge"; lit "range"; lit "read_write";
   lit "regexp"; lit "release"; lit "rename"; lit "replace"; lit "require"; lit "rlike"; lit "schema";
   lit "schemas"; lit "separator"; lit "show"; lit "spatial"; lit "sql_big_result"; lit "sql_calc_found_rows";
   lit "sql_small_result"; lit "ssl"; lit "starting"; lit "straight_join"; lit "terminated"; lit "tinyint";
   lit "unlock"; lit "unsigned"; lit "use"; lit "utc_date"; lit "utc_time"; lit "utc_timestamp"; lit "values";
   lit "varbinary"; lit "varchar"; lit "write"; lit "xor"; lit "zerofill"].
Definition is_mysql_only_reserved_identifier (name : str) : bool := existsb (λ w, bool_decide (name = w)) mysql_only_reserved.

(** [s.replace(pat, rep)] for a non-empty pattern. *)
Fixpoint replace_from (pat rep : str) (skip : nat) (s : str) : str :=
  match s with
  | [] => []
  | c :: r =>
      match skip with
      | S k => replace_from pat rep k r
      | 0 => if starts_with pat s then rep ++ replace_from pat rep (length pat - 1) r
             else c :: replace_from pat rep 0 r
      end
  end.
Definition replace_str (pat rep s : str) : str := replace_from pat rep 0 s.

(** The driver reports the quote. *)
Definition quote_gaussdb_jdbc_identifier (name identifier_quote : str) : str :=
  if is_explicitly_quoted_identifier name then name
  else
    let quote := trim identifier_quote in
    if bool_decide (quote = []) then name
    else
      let requires_quote := negb (is_simple_lower_identifier name) || is_postgres_reserved_identifier name ||
                            (bool_decide (quote = lit "`") && is_mysql_only_reserved_identifier name) in
      if negb requires_quote then name
      else quote ++ replace_str quote (quote ++ quote) name ++ quote.

Definition transfer_column_identifier (name : str) (d : DatabaseType.t) (quote_target_column_names : bool) : str :=
  if quote_target_column_names || negb (bool_decide (d = DatabaseType.Gaussdb ∨ d = DatabaseType.OpenGauss)) ||
     negb (is_simple_unquoted_identifier name) || is_postgres_reserved_identifier (to_ascii_lowercase name)
  then quote_transfer_identifier name d
  else name.

(** ** Qualified names *)
Definition qualified_transfer_table (table_name schema : str) (d : DatabaseType.t) (catalog : option str) : str :=
  let table := quote_transfer_identifier table_name d in
  match catalog with
  | Some catalog => quote_transfer_identifier catalog d ++ lit "." ++ quote_transfer_identifier schema d ++ lit "." ++ table
  | None =>
      if bool_decide (schema = []) ||
         bool_decide (d = DatabaseType.Mysql ∨ d = DatabaseType.MongoDb ∨ d = DatabaseType.Questdb)
      then table
      else quote_transfer_identifier schema d ++ lit "." ++ table
  end.

Record SqlServerLinkedSchemaRef := mkLinked { server : str; linked_catalog : str; linked_schema : str }.
Definition SQLSERVER_LINKED_SCHEMA_PREFIX : str := lit "__dbx_sqlserver_linked__:".

Section qualified.
(** Percent decoding, as the [percent_encoding] crate does it; [None] when the
    result is not UTF-8. *)
Context (percent_decode : str → option str).

Definition parse_sqlserver_linked_schema_ref (schema : str) : option SqlServerLinkedSchemaRef :=
  match strip_prefix SQLSERVER_LINKED_SCHEMA_PREFIX schema with
  | None => None
  | Some payload =>
      match split_char (chr "|") payload with
      | [a; b; c] =>
          match percent_decode a, percent_decode b, percent_decode c with
          | Some server, Some catalog, Some schema =>
              if bool_decide (trim server = []) || bool_decide (trim catalog = []) || bool_decide (trim schema = [])
              then None else Some (mkLinked server catalog schema)
          | _, _, _ => None
          end
      | _ => None
      end
  end.

Definition sqlserver_linked_table_name (linked : SqlServerLinkedSchemaRef) (table_name : str) : str :=
  join (lit ".") (quote_table_identifier (Some DatabaseType.SqlServer) <$>
    [server linked; linked_catalog linked; linked_schema linked; table_name]).

Definition non_blank (s : option str) : option str :=
  match s with Some s => if decide (trim s = []) then None else Some (trim s) | None => None end.

Definition supports_qualifier (d : option DatabaseType.t) : bool :=
  match d with
  | Some d => is_schema_aware d ||
              bool_decide (d = DatabaseType.Mysql ∨ d = DatabaseType.Goldendb ∨ d = DatabaseType.StarRocks ∨ d = DatabaseType.Doris)
  | None => false
  end.

Definition qualified_table_name (d : option DatabaseType.t) (schema : option str) (table_name : str) : str :=
  if decide (d = Some DatabaseType.Iotdb) then
    let table_name := quote_table_identifier d table_name in
    match non_blank schema with
    | Some schema =>
        if bool_decide (table_name = schema) || starts_with (schema ++ lit ".") table_name then table_name
        else quote_table_identifier d schema ++ lit "." ++ table_name
    | None => table_name
    end
  else
    match schema with
    | Some schema =>
        if supports_qualifier d && negb (bool_decide (d = Some DatabaseType.Jdbc)) && negb (bool_decide (trim schema = []))
        then
          match (if decide (d = Some DatabaseType.SqlServer) then parse_sqlserver_linked_schema_ref schema else None) with
          | Some linked => sqlserver_linked_table_name linked table_name
          | None => quote_table_identifier d schema ++ lit "." ++ quote_table_identifier d table_name
          end
        else quote_table_identifier d table_name
    | None => quote_table_identifier d table_name
    end.

Definition qualified_table_name_with_catalog (d : option DatabaseType.t) (catalog schema database : option str)
    (table_name : str) : str :=
  match non_blank catalog with
  | Some catalog =>
      if decide (d = Some DatabaseType.SqlServer) then
        quote_table_identifier d catalog ++ lit "." ++ qualified_table_name d schema table_name
      else if bool_decide (d = Some DatabaseType.Doris ∨ d = Some DatabaseType.StarRocks) &&
              negb (bool_decide (catalog = lit "internal"))
      then
        let table := match (match non_blank schema with Some m => Some m | None => non_blank database end) with
                     | Some middle => quote_table_identifier d middle ++ lit "." ++ quote_table_identifier d table_name
                     | None => quote_table_identifier d table_name
                     end in
        quote_table_identifier d catalog ++ lit "." ++ table
      else qualified_table_name d schema table_name
  | None => qualified_table_name d schema table_name
  end.
End qualified.

Definition normalize_where_input (where_input : option str) : str :=
  let strip s := reverse (drop_while (λ c, bool_decide (c = chr ";")) (reverse s)) in
  let trimmed := trim (strip (trim (default [] where_input))) in
  if eq_ignore_ascii_case (take 5 trimmed) (lit "where") then trim (drop 5 trimmed) else trimmed.

(** ** Reading quoted names

    The lexical rule of quoted identifiers: a doubled closing quote stands for
    one, a single one ends the name. *)
Fixpoint read_body (close : char) (s : str) : option (str * str) :=
  match s with
  | [] => None
  | c :: r =>
      if decide (c = close) then
        match r with
        | c' :: r' => if decide (c' = close) then prod_map (cons close) id <$> read_body close r' else Some ([], r)
        | [] => Some ([], [])
        end
      else prod_map (cons c) id <$> read_body close r
  end.
Definition read_quoted (open close : char) (s : str) : option (str * str) :=
  match s with c :: r => if decide (c = open) then read_body close r else None | [] => None end.

(** A dotted name of at most [n] parts that takes up the whole text. *)
Fixpoint read_dotted (n : nat) (open close : char) (s : str) : option (list str) :=
  match n with
  | 0 => None
  | S n =>
      match read_quoted open close s with
      | Some (name, []) => Some [name]
      | Some (name, c :: r) => if decide (c = chr ".") then cons name <$> read_dotted n open close r else None
      | None => None
      end
  end.

(** The quotes of the dialects that quote every identifier. *)
Definition delimiters (d : option DatabaseType.t) : option (char * char) :=
  match d with
  | Some DatabaseType.Iotdb | Some DatabaseType.Jdbc | Some DatabaseType.Informix
  | Some DatabaseType.Gaussdb | Some DatabaseType.OpenGauss => None
  | Some DatabaseType.Mysql | Some DatabaseType.ClickHouse | Some DatabaseType.Doris
  | Some DatabaseType.Goldendb | Some DatabaseType.StarRocks | Some DatabaseType.ManticoreSearch
  | Some DatabaseType.Hive | Some DatabaseType.Kyuubi | Some DatabaseType.Impala
  | Some DatabaseType.Argo | Some DatabaseType.Spark | Some DatabaseType.Databricks
  | Some DatabaseType.Databend | Some DatabaseType.Tdengine | Some DatabaseType.Access
  | Some DatabaseType.Bigquery | Some DatabaseType.Spanner | Some DatabaseType.Questdb
  | Some DatabaseType.Neo4j => Some (BACKTICK, BACKTICK)
  | Some DatabaseType.SqlServer => Some (chr "[", chr "]")
  | _ => Some (DQUOTE, DQUOTE)
  end.

Lemma read_body_double close name rest :
  head rest ≠ Some close → read_body close (double_char close name ++ close :: rest) = Some (name, rest).
Proof.
  intros Hr. induction name as [|c name IH].
  - simpl. rewrite decide_True by done. destruct rest as [|c' r']; [done|]. rewrite decide_False by naive_solver. done.
  - unfold double_char in *. rewrite fmap_cons. cbn [concat]. destruct (decide (c = close)) as [->|Hc].
    + simpl. rewrite !decide_True by done. by rewrite IH.
    + simpl. rewrite decide_False by done. by rewrite IH.
Qed.

Lemma read_quoted_quoted open close name rest :
  head rest ≠ Some close → read_quoted open close (quoted open close name ++ rest) = Some (name, rest).
Proof.
  intros Hr. unfold quoted. rewrite <- !app_assoc. simpl. rewrite decide_True by done. by apply read_body_double.
Qed.

Lemma quote_delimited d o c name : delimiters d = Some (o, c) → quote_table_identifier d name = quoted o c name.
Proof. destruct d as [[]|]; simpl; intros [= <- <-]; done. Qed.

Lemma delimiter_not_dot d o c : delimiters d = Some (o, c) → c ≠ chr ".".
Proof. destruct d as [[]|]; intros [= <- <-]; done. Qed.

Lemma read_dotted_parts n d o c names :
  delimiters d = Some (o, c) → names ≠ [] → (length names <=? n) = true →
  read_dotted n o c (join (lit ".") (quote_table_identifier d <$> names)) = Some names.
Proof.
  intros Hd. revert n. induction names as [|a names IH]; intros n Hne Hn; [done|].
  destruct n as [|n]; simpl in Hn; [done|]. cbn [read_dotted]. destruct names as [|b names].
  - cbn [fmap list_fmap join]. rewrite (quote_delimited d o c) by done. rewrite <- (app_nil_r (quoted _ _ _)).
    by rewrite read_quoted_quoted.
  - change (join (lit ".") (quote_table_identifier d <$> a :: b :: names)) with
      (quote_table_identifier d a ++ chr "." :: join (lit ".") (quote_table_identifier d <$> b :: names)).
    rewrite (quote_delimited d o c a) by done. rewrite read_quoted_quoted.
    + rewrite decide_True by done. by rewrite IH.
    + simpl. intros [= E]. by apply (delimiter_not_dot d o c).
Qed.

(** The parts of the name of a table. *)
Definition name_parts (percent_decode : str → option str) (d : option DatabaseType.t) (schema : option str)
    (table_name : str) : list str :=
  match schema with
  | Some schema =>
      if supports_qualifier d && negb (bool_decide (trim schema = [])) then
        match (if decide (d = Some DatabaseType.SqlServer)
               then parse_sqlserver_linked_schema_ref percent_decode schema else None) with
        | Some linked => [server linked; linked_catalog linked; linked_schema linked; table_name]
        | None => [schema; table_name]
        end
      else [table_name]
  | None => [table_name]
  end.

(** For the dialects that quote with a pair of delimiters, reading the qualified name of a
    table back yields its parts, whatever characters schema and table contain. *)
Theorem qualified_names_read_back percent_decode d o c schema table_name :
  delimiters d = Some (o, c) →
  read_dotted 4 o c (qualified_table_name percent_decode d schema table_name) =
  Some (name_parts percent_decode d schema table_name).
Proof.
  intros Hd. unfold qualified_table_name, name_parts. rewrite decide_False by (intros ->; done).
  destruct schema as [schema|]; [|by apply (read_dotted_parts 4 d o c [table_name])].
  assert (bool_decide (d = Some DatabaseType.Jdbc) = false) as -> by (apply bool_decide_eq_false; intros ->; done).
  simpl negb. rewrite andb_true_r.
  destruct (_ && _) eqn:Eq; [|by apply (read_dotted_parts 4 d o c [table_name])].
  case_decide as Hs; [|by apply (read_dotted_parts 4 d o c [schema; table_name])]. subst d.
  destruct (parse_sqlserver_linked_schema_ref percent_decode schema) as [l|];
    [by apply (read_dotted_parts 4 _ o c [server l; linked_catalog l; linked_schema l; table_name])|by apply (read_dotted_parts 4 _ o c [schema; table_name])].
Qed.

Lemma qualified_witness :
  read_dotted 4 (chr "[") (chr "]")
    (qualified_table_name Some (Some DatabaseType.SqlServer) (Some (lit "a].b")) (lit "t]")) = Some [lit "a].b"; lit "t]"].
Proof. apply (qualified_names_read_back Some (Some DatabaseType.SqlServer)). reflexivity. Defined.

(** GaussDB takes a name that starts and ends with a quote for a quoted one,
    whatever stands between. *)
Theorem gaussdb_quoting_can_be_escaped :
  let name := lit "t" ++ [DQUOTE] ++ lit "; DROP TABLE " ++ [DQUOTE] ++ lit "u" in
  quote_table_identifier (Some DatabaseType.Gaussdb) (DQUOTE :: name ++ [DQUOTE]) = DQUOTE :: name ++ [DQUOTE] ∧
  read_quoted DQUOTE DQUOTE (DQUOTE :: name ++ [DQUOTE]) =
    Some (lit "t", lit "; DROP TABLE " ++ [DQUOTE] ++ lit "u" ++ [DQUOTE]).
Proof. vm_compute. done. Qed.

(** Transfers quote the names of some dialects otherwise than all other SQL. *)
Theorem transfer_quoting_differs name :
  quote_transfer_identifier name DatabaseType.Spanner = double_quotes name ∧
  quote_table_identifier (Some DatabaseType.Spanner) name = backticks name ∧
  quote_transfer_identifier name DatabaseType.Goldendb = double_quotes name ∧
  quote_table_identifier (Some DatabaseType.Goldendb) name = backticks name.
Proof. done. Qed.
