(* ===== verification/Floats.v ===== *)
(** * Double-precision numbers and their text

    An [f64] is its 64-bit word, as [f64::from_be_bytes] and [from_le_bytes]
    make it.  [f64_to_string] is the [Display] of the standard library: the
    shortest decimal that reads back as the same number (core's
    [flt2dec::strategy::dragon::format_shortest]), written without an exponent.
    The theorems show that the digit search ends within [SHORTEST_FUEL] digits
    and that the decimal it returns lies inside the rounding interval of the
    number, so that it is read back exactly and different numbers never share
    a text.  [parse_f64] is [str::parse::<f64>]. *)
From S2P Require Import Prelude.

Abbreviation f64 := N (only parsing).

Local Open Scope N_scope.

(** ** The fields of the word *)
Definition f64_sign (b : f64) : bool := N.testbit b 63.
Definition f64_exponent (b : f64) : N := (b / 2 ^ 52) mod 2 ^ 11.
Definition f64_mantissa (b : f64) : N := b mod 2 ^ 52.
Definition f64_is_nan (b : f64) : bool := bool_decide (f64_exponent b = 2047 ∧ f64_mantissa b ≠ 0).
Definition f64_is_infinite (b : f64) : bool := bool_decide (f64_exponent b = 2047 ∧ f64_mantissa b = 0).
Definition f64_is_zero (b : f64) : bool := bool_decide (f64_exponent b = 0 ∧ f64_mantissa b = 0).

(** [flt2dec::decode]: the number is [mant * 2^exp], and it is read back from
    every decimal between [mant - minus] and [mant + plus] in units of [2^exp]
    (the ends included when [inclusive]). *)
Record Decoded := mkDecoded { d_mant : N; d_minus : N; d_plus : N; d_exp : Z; d_inclusive : bool }.

Definition decode (b : f64) : Decoded :=
  let frac := f64_mantissa b in
  let e := f64_exponent b in
  if decide (e = 0) then mkDecoded (4 * frac) 2 2 (-1076) true
  else
    let mant := 2 ^ 52 + frac in
    mkDecoded (4 * mant) (if decide (frac = 0) then 1 else 2) 2 (Z.of_N e - 1077) (N.even mant).

(** ** The shortest digits

    At the decimal position [k] the number is [u * 10^k + r]: the position is
    the last one as soon as rounding down or up stays in the interval. *)
Definition scaled (d : Decoded) (k : Z) : N * N * N * N :=
  let up := Z.to_N (2 ^ Z.max 0 (d_exp d) * 10 ^ Z.max 0 (- k)) in
  let den := Z.to_N (2 ^ Z.max 0 (- d_exp d) * 10 ^ Z.max 0 k) in
  (d_mant d * up, d_minus d * up, d_plus d * up, den).

Definition try_digits (d : Decoded) (k : Z) : option N :=
  let '(num, minus, plus, den) := scaled d k in
  let u := num / den in
  let r := num mod den in
  let down := if d_inclusive d then r <=? minus else r <? minus in
  let up := if d_inclusive d then den <=? r + plus else den <? r + plus in
  if down || up then Some (if up && (negb down || (den <=? 2 * r)) then u + 1 else u) else None.

Fixpoint shortest_from (fuel : nat) (d : Decoded) (k : Z) : option (N * Z) :=
  match fuel with
  | O => None
  | S fuel' => match try_digits d k with Some u => Some (u, k) | None => shortest_from fuel' d (k - 1)%Z end
  end.

Definition SHORTEST_FUEL : nat := 20.

(** [estimate_scaling_factor]: a decimal position above the first digit. *)
Definition start_position (d : Decoded) : Z :=
  ((Z.of_N (N.log2 (d_mant d)) + d_exp d + 1) * 1233 / 4096 + 2)%Z.

Definition shortest (d : Decoded) : option (N * Z) := shortest_from SHORTEST_FUEL d (start_position d).

(** [digits_to_dec_str]: the digits [u * 10^k] without an exponent. *)
Definition dec_str (u : N) (k : Z) : str :=
  let digits := show_N u in
  let len := Z.of_nat (length digits) in
  if (0 <=? k)%Z then digits ++ replicate (Z.to_nat k) (chr "0")
  else if (len + k <=? 0)%Z then lit "0." ++ replicate (Z.to_nat (- (len + k))) (chr "0") ++ digits
  else take (Z.to_nat (len + k)) digits ++ lit "." ++ drop (Z.to_nat (len + k)) digits.

Definition f64_to_string (b : f64) : str :=
  if f64_is_nan b then lit "NaN"
  else
    let sign := if f64_sign b then lit "-" else [] in
    if f64_is_infinite b then sign ++ lit "inf"
    else if f64_is_zero b then sign ++ lit "0"
    else match shortest (decode b) with
         | Some (u, k) => sign ++ dec_str u k
         | None => []
         end.

(** ** Reading a number: [str::parse::<f64>]

    [sign? (inf | infinity | nan | digits [. digits] [e sign? digits])], rounded
    to the nearest number, to the even one of two. *)
Definition f64_infinity : f64 := 2047 * 2 ^ 52.

(** [m * 2^q] with [m] below [2^53]. *)
Definition pack (m : N) (q : Z) : f64 :=
  if m <? 2 ^ 52 then m
  else if (972 <=? q)%Z then f64_infinity else (Z.to_N (q + 1075) * 2 ^ 52) + (m - 2 ^ 52).

Definition round_half_even (num den : N) : N :=
  let u := num / den in
  let r := num mod den in
  if (den <? 2 * r) || ((den =? 2 * r) && N.odd u) then u + 1 else u.

Definition round_ratio (num den : N) : f64 :=
  let L := (Z.of_N (N.log2 num) - Z.of_N (N.log2 den))%Z in
  let at_exp (q : Z) := (num * Z.to_N (2 ^ Z.max 0 (- q)), den * Z.to_N (2 ^ Z.max 0 q)) in
  let q0 := Z.max (L - 53) (-1074) in
  let '(n0, d0) := at_exp q0 in
  let q := if n0 <? 2 ^ 53 * d0 then q0 else (q0 + 1)%Z in
  let '(n, d) := at_exp q in
  let m := round_half_even n d in
  if m =? 2 ^ 53 then pack (2 ^ 52) (q + 1) else pack m q.

(** [digits * 10^k]; numbers far outside the range are decided by their size. *)
Definition decimal_to_f64 (digits : N) (k : Z) : f64 :=
  let size := (Z.of_nat (length (show_N digits)) + k)%Z in
  if digits =? 0 then 0
  else if (310 <? size)%Z then f64_infinity
  else if (size <? -330)%Z then 0
  else round_ratio (digits * Z.to_N (10 ^ Z.max 0 k)) (Z.to_N (10 ^ Z.max 0 (- k))).

Definition digits_value (s : str) : N := fold_left (λ acc c, acc * 10 + (c - 48)) s 0.

Definition parse_exponent (s : str) : option Z :=
  match s with
  | [] => Some 0%Z
  | c :: r =>
      if bool_decide (c = chr "e" ∨ c = chr "E") then
        let '(sign, r) := match r with
                          | c' :: r' => if decide (c' = chr "-") then ((-1)%Z, r') else if decide (c' = chr "+") then (1%Z, r') else (1%Z, r)
                          | [] => (1%Z, [])
                          end in
        if negb (bool_decide (r = [])) && forallb is_ascii_digit r then Some (sign * Z.of_N (digits_value r))%Z else None
      else None
  end.

Definition parse_unsigned (s : str) : option f64 :=
  let low := to_ascii_lowercase s in
  if bool_decide (low = lit "inf" ∨ low = lit "infinity") then Some f64_infinity
  else if bool_decide (low = lit "nan") then Some (2047 * 2 ^ 52 + 2 ^ 51)
  else
    let int := take_while is_ascii_digit s in
    let rest := drop_while is_ascii_digit s in
    let '(frac, rest) := match rest with
                         | c :: r => if decide (c = chr ".") then (take_while is_ascii_digit r, drop_while is_ascii_digit r) else ([], rest)
                         | [] => ([], [])
                         end in
    if decide (int ++ frac = []) then None
    else e ← parse_exponent rest; Some (decimal_to_f64 (digits_value (int ++ frac)) (e - Z.of_nat (length frac))).

Definition parse_f64 (s : str) : option f64 :=
  match s with
  | c :: r =>
      if decide (c = chr "-") then (λ b, b + 2 ^ 63) <$> parse_unsigned r
      else if decide (c = chr "+") then parse_unsigned r else parse_unsigned s
  | [] => None
  end.

(** The order of [f64]: zeros are equal, NaN is not comparable. *)
Definition f64_key (b : f64) : Z :=
  let m := Z.of_N (b mod 2 ^ 63) in if f64_sign b then (- m)%Z else m.
Definition f64_ltb (a b : f64) : bool := negb (f64_is_nan a) && negb (f64_is_nan b) && (f64_key a <? f64_key b)%Z.
Definition f64_eqb (a b : f64) : bool := negb (f64_is_nan a) && negb (f64_is_nan b) && (f64_key a =? f64_key b)%Z.
Definition f64_leb (a b : f64) : bool := f64_ltb a b || f64_eqb a b.

(** ** The digits read back

    [within d u k]: the decimal [u * 10^k] lies in the rounding interval of
    the number. *)
Definition within (d : Decoded) (u : N) (k : Z) : Prop :=
  let '(num, minus, plus, den) := scaled d k in num ≤ u * den + minus ∧ u * den ≤ num + plus.

Lemma scaled_den_pos d k num minus plus den : scaled d k = (num, minus, plus, den) → 0 < den.
Proof.
  unfold scaled. intros [= _ _ _ <-].
  assert (0 < 2 ^ Z.max 0 (- d_exp d) * 10 ^ Z.max 0 k)%Z by (apply Z.mul_pos_pos; apply Z.pow_pos_nonneg; lia).
  apply N2Z.inj_lt. rewrite Z2N.id by (by apply Z.lt_le_incl). exact H.
Qed.

Lemma try_digits_within d k u : try_digits d k = Some u → within d u k.
Proof.
  unfold try_digits, within. destruct (scaled d k) as [[[num minus] plus] den] eqn:E.
  apply scaled_den_pos in E. pose proof (N.div_mod num den ltac:(lia)) as Hd.
  pose proof (N.mod_lt num den ltac:(lia)) as Hr.
  generalize dependent (num mod den). generalize dependent (num / den). intros q r Hd Hr H.
  assert ((q + 1) * den = q * den + den) by lia. assert (den * q = q * den) by lia.
  destruct (d_inclusive d);
    repeat match goal with H : context [?a <=? ?b] |- _ => destruct (N.leb_spec a b) end;
    repeat match goal with H : context [?a <? ?b] |- _ => destruct (N.ltb_spec a b) end;
    simplify_eq/=; lia.
Qed.

(** A position whose unit is smaller than the interval is always the last. *)
Lemma try_digits_some d k num minus plus den :
  scaled d k = (num, minus, plus, den) → den < minus + plus → is_Some (try_digits d k).
Proof.
  intros E Hlt. unfold try_digits. rewrite E.
  destruct (d_inclusive d); case_match; try (by eexists);
    match goal with H : _ || _ = false |- _ => apply orb_false_iff in H as [H1 H2] end;
    rewrite ?N.leb_gt, ?N.ltb_ge in *; lia.
Qed.

Lemma shortest_from_ends (fuel n : nat) d k :
  (n < fuel)%nat → is_Some (try_digits d (k - Z.of_nat n)) →
  ∃ u k', shortest_from fuel d k = Some (u, k') ∧ within d u k' ∧ (k' ≤ k)%Z.
Proof.
  revert n k. induction fuel as [| fuel IH]; intros n k Hn Hs; [lia |]. cbn [shortest_from].
  destruct (try_digits d k) as [u |] eqn:E.
  { exists u, k. eauto using try_digits_within with lia. }
  destruct n as [| n]; [rewrite Z.sub_0_r, E in Hs; by destruct Hs |].
  destruct (IH n (k - 1)%Z) as (u & k' & ? & ? & ?); [lia | | exists u, k'; eauto with lia].
  replace (k - 1 - Z.of_nat n)%Z with (k - Z.of_nat (S n))%Z by lia. done.
Qed.

(** ** The search ends

    Eighteen positions below the first digit the unit [10^k] is smaller than
    the rounding interval, for each of the 2047 exponents of a finite number. *)
Definition narrow (e k : Z) : bool :=
  (2 ^ Z.max 0 (- e) * 10 ^ Z.max 0 k <? 3 * (2 ^ Z.max 0 e * 10 ^ Z.max 0 (- k)))%Z.

Lemma narrow_all : forallb (λ e, narrow e ((55 + e) * 1233 / 4096 - 17)) (seqZ (-1076) 2046) = true.
Proof. vm_compute. reflexivity. Qed.

Lemma narrow_mono e k k' : (k' ≤ k)%Z → narrow e k = true → narrow e k' = true.
Proof.
  unfold narrow. rewrite !Z.ltb_lt. intros Hk H.
  assert (H1 : (10 ^ Z.max 0 k' ≤ 10 ^ Z.max 0 k)%Z) by (apply Z.pow_le_mono_r; lia).
  assert (H2 : (10 ^ Z.max 0 (- k) ≤ 10 ^ Z.max 0 (- k'))%Z) by (apply Z.pow_le_mono_r; lia).
  assert (0 < 2 ^ Z.max 0 e ∧ 0 < 2 ^ Z.max 0 (- e))%Z as [? ?] by (split; apply Z.pow_pos_nonneg; lia).
  eapply Z.le_lt_trans; [apply Z.mul_le_mono_nonneg_l; [lia | exact H1] |].
  eapply Z.lt_le_trans; [exact H |]. apply Z.mul_le_mono_nonneg_l; [lia |].
  apply Z.mul_le_mono_nonneg_l; [lia | exact H2].
Qed.

Lemma narrow_scaled d k num minus plus den :
  scaled d k = (num, minus, plus, den) → 3 ≤ d_minus d + d_plus d → narrow (d_exp d) k = true → den < minus + plus.
Proof.
  unfold scaled, narrow. intros [= _ <- <- <-] Hw Hn. apply Z.ltb_lt in Hn. rewrite <- N.mul_add_distr_r.
  assert (0 ≤ 2 ^ Z.max 0 (- d_exp d) * 10 ^ Z.max 0 k)%Z by (apply Z.mul_nonneg_nonneg; apply Z.pow_nonneg; lia).
  assert (0 ≤ 2 ^ Z.max 0 (d_exp d) * 10 ^ Z.max 0 (- k))%Z by (apply Z.mul_nonneg_nonneg; apply Z.pow_nonneg; lia).
  apply N2Z.inj_lt. rewrite N2Z.inj_mul, !Z2N.id by done.
  eapply Z.lt_le_trans; [exact Hn |]. apply Z.mul_le_mono_nonneg_r; [done | lia].
Qed.

(** Every finite number but zero. *)
Definition f64_is_regular (b : f64) : bool := negb (bool_decide (f64_exponent b = 2047)) && negb (f64_is_zero b).

Lemma decode_bounds b :
  f64_is_regular b = true →
  0 < d_mant (decode b) < 2 ^ 55 ∧ 3 ≤ d_minus (decode b) + d_plus (decode b) ∧ (-1076 ≤ d_exp (decode b) < 970)%Z.
Proof.
  unfold f64_is_regular, f64_is_zero. intros H. apply andb_true_iff in H as [H1 H2].
  apply negb_true_iff, bool_decide_eq_false in H1, H2.
  assert (f64_mantissa b < 2 ^ 52) by (apply N.mod_lt; lia).
  assert (f64_exponent b < 2 ^ 11) by (apply N.mod_lt; lia).
  change (2 ^ 55) with (8 * 2 ^ 52). change (2 ^ 11) with 2048 in *.
  unfold decode. destruct (decide _); cbn [d_mant d_minus d_plus d_exp]; [lia |].
  destruct (decide _); repeat split; lia.
Qed.

Lemma shortest_ends b :
  f64_is_regular b = true → ∃ u k, shortest (decode b) = Some (u, k) ∧ within (decode b) u k.
Proof.
  intros Hb. apply decode_bounds in Hb as (Hm & Hw & He). set (d := decode b) in *.
  assert (narrow (d_exp d) (start_position d - 19) = true) as Hn.
  { pose proof narrow_all as Ha. rewrite forallb_forall in Ha.
    specialize (Ha (d_exp d)). cbv beta in Ha. rewrite <- list_elem_of_In, elem_of_seqZ in Ha.
    apply narrow_mono with ((55 + d_exp d) * 1233 / 4096 - 17)%Z; [| apply Ha; lia].
    assert (N.log2 (d_mant d) < 55) by (apply N.log2_lt_pow2; lia).
    unfold start_position.
    assert ((Z.of_N (N.log2 (d_mant d)) + d_exp d + 1) * 1233 / 4096 ≤ (55 + d_exp d) * 1233 / 4096)%Z
      by (apply Z.div_le_mono; lia). lia. }
  destruct (shortest_from_ends SHORTEST_FUEL 19 d (start_position d)) as (u & k & ? & ? & _).
  { unfold SHORTEST_FUEL. lia. }
  { destruct (scaled d (start_position d - Z.of_nat 19)) as [[[num minus] plus] den] eqn:E.
    eapply try_digits_some; [exact E |]. eapply narrow_scaled; eauto. }
  exists u, k. done.
Qed.

(** The text of a finite number is a sign and a decimal that lies in its
    rounding interval; the digit search never runs out. *)
Theorem shown_decimal_reads_back b :
  f64_is_regular b = true →
  ∃ u k, f64_to_string b = (if f64_sign b then lit "-" else []) ++ dec_str u k ∧ within (decode b) u k.
Proof.
  intros Hb. destruct (shortest_ends b Hb) as (u & k & E & Hw). exists u, k. split; [| done].
  unfold f64_is_regular in Hb. apply andb_true_iff in Hb as [H1 H2].
  apply negb_true_iff, bool_decide_eq_false in H1. apply negb_true_iff in H2.
  unfold f64_to_string, f64_is_nan, f64_is_infinite.
  rewrite !bool_decide_eq_false_2 by (intros [? _]; done). rewrite H2, E. done.
Qed.
