(* ===== verification/Wkb.v ===== *)
(** * Well-known binary geometries (db/wkb.rs)

    The reader of WKB (MySQL) and EWKB (PostGIS) values and their text form.
    A reader is a position in the raw bytes; reading keeps the state also when
    it fails, because the code goes on after an unreadable SRID.  The loops
    [(0..count).map(..).collect::<Option<Vec<_>>>()] are [collect_count], which
    recurses on the binary count and stops at the first failure; the recursion
    on nested geometries takes fuel, and [parse_fuel_enough] shows that one more
    than the number of bytes is always enough.

    [WkbFormat] is the format as a grammar on byte strings (both byte orders,
    both notations of dimensions, SRID or not, at every level) and [Wkt] the
    grammar of the text.  [decoder_reads_wkb] shows that the decoder accepts
    every string of the format, and nothing else but members of MULTILINESTRING
    and MULTIPOLYGON with dimensions of their own. *)
From S2P Require Import Prelude Floats.

Local Open Scope N_scope.

Abbreviation byte := N (only parsing).
Abbreviation bytes := (list N) (only parsing).

Record WkbDimensions := mkDims { has_z : bool; has_m : bool }.
#[export] Instance WkbDimensions_eq_dec : EqDecision WkbDimensions.
Proof. solve_decision. Defined.

Definition suffix (d : WkbDimensions) : str :=
  match has_z d, has_m d with
  | false, false => lit ""
  | true, false => lit " Z"
  | false, true => lit " M"
  | true, true => lit " ZM"
  end.

Definition coordinate_len (d : WkbDimensions) : nat := (2 + Nat.b2n (has_z d) + Nat.b2n (has_m d))%nat.

Inductive WkbGeometry :=
| Point (dims : WkbDimensions) (coords : option (list f64))
| LineString (dims : WkbDimensions) (points : list (list f64))
| Polygon (dims : WkbDimensions) (rings : list (list (list f64)))
| MultiPoint (dims : WkbDimensions) (points : list (option (list f64)))
| MultiLineString (dims : WkbDimensions) (lines : list (list (list f64)))
| MultiPolygon (dims : WkbDimensions) (polygons : list (list (list (list f64))))
| GeometryCollection (dims : WkbDimensions) (geometries : list WkbGeometry).

Record DecodedGeometry := mkDecodedGeometry { wkt : str; srid : option N }.

(** ** The text form *)
Definition format_wkb_coordinate (coords : list f64) : str := join (lit " ") (f64_to_string <$> coords).
Definition format_wkb_coordinate_sequence (points : list (list f64)) : str :=
  join (lit ",") (format_wkb_coordinate <$> points).

Definition in_parens (s : str) : str := lit "(" ++ s ++ lit ")".
Definition tagged (name : string) (dims : WkbDimensions) (parts : list str) : str :=
  match parts with
  | [] => lit name ++ suffix dims ++ lit " EMPTY"
  | _ => lit name ++ suffix dims ++ in_parens (join (lit ",") parts)
  end.

Definition ring_wkt (ring : list (list f64)) : str := in_parens (format_wkb_coordinate_sequence ring).
Definition polygon_wkt (polygon : list (list (list f64))) : str := in_parens (join (lit ",") (ring_wkt <$> polygon)).
Definition multi_point_wkt (point : option (list f64)) : str :=
  match point with Some coords => in_parens (format_wkb_coordinate coords) | None => lit "EMPTY" end.

Fixpoint to_wkt (g : WkbGeometry) : str :=
  match g with
  | Point dims (Some coords) => lit "POINT" ++ suffix dims ++ in_parens (format_wkb_coordinate coords)
  | Point dims None => lit "POINT" ++ suffix dims ++ lit " EMPTY"
  | LineString dims points => tagged "LINESTRING" dims (format_wkb_coordinate <$> points)
  | Polygon dims rings => tagged "POLYGON" dims (ring_wkt <$> rings)
  | MultiPoint dims points => tagged "MULTIPOINT" dims (multi_point_wkt <$> points)
  | MultiLineString dims lines => tagged "MULTILINESTRING" dims (ring_wkt <$> lines)
  | MultiPolygon dims polygons => tagged "MULTIPOLYGON" dims (polygon_wkt <$> polygons)
  | GeometryCollection dims geometries => tagged "GEOMETRYCOLLECTION" dims (map to_wkt geometries)
  end.

(** ** The reader *)
Inductive WkbEndian := Big | Little.

Record WkbReader := mkReader { raw : bytes; pos : nat }.
Definition new (b : bytes) : WkbReader := mkReader b 0.

Definition M (A : Type) : Type := WkbReader → option A * WkbReader.
Definition ret {A} (a : A) : M A := λ r, (Some a, r).
Definition none {A} : M A := λ r, (None, r).
Definition bind {A B} (m : M A) (k : A → M B) : M B :=
  λ r, match m r with (Some a, r') => k a r' | (None, r') => (None, r') end.
Notation "'let!' x ':=' m 'in' k" := (bind m (λ x, k))
  (at level 10, x pattern, m at level 100, k at level 200).

Definition read_u8 : M byte := λ r,
  match raw r !! pos r with
  | Some value => (Some value, mkReader (raw r) (S (pos r)))
  | None => (None, r)
  end.

(** [raw.get(pos..pos + n)] *)
Definition read_array (n : nat) : M bytes := λ r,
  if decide (pos r + n ≤ length (raw r))%nat
  then (Some (take n (drop (pos r) (raw r))), mkReader (raw r) (pos r + n))
  else (None, r).

(** [from_le_bytes] *)
Fixpoint le_combine (l : bytes) : N := match l with [] => 0 | b :: r => b + 256 * le_combine r end.
Definition from_bytes (e : WkbEndian) (l : bytes) : N :=
  match e with Big => le_combine (reverse l) | Little => le_combine l end.

Definition read_u32 (e : WkbEndian) : M N := let! l := read_array 4 in ret (from_bytes e l).
Definition read_f64 (e : WkbEndian) : M f64 := let! l := read_array 8 in ret (from_bytes e l).

(** ** Loops

    [collect_times n] is the loop as written, [collect_count] the same loop on
    a binary count. *)
Fixpoint collect_times {A} (n : nat) (m : M A) : M (list A) :=
  match n with
  | O => ret []
  | S n' => let! x := m in let! l := collect_times n' m in ret (x :: l)
  end.

Fixpoint collect_pos {A} (p : positive) (m : M A) : M (list A) :=
  match p with
  | xH => let! x := m in ret [x]
  | xO q => let! l1 := collect_pos q m in let! l2 := collect_pos q m in ret (l1 ++ l2)
  | xI q => let! x := m in let! l1 := collect_pos q m in let! l2 := collect_pos q m in ret (x :: l1 ++ l2)
  end.
Definition collect_count {A} (n : N) (m : M A) : M (list A) :=
  match n with N0 => ret [] | Npos p => collect_pos p m end.

(** ** Headers and coordinates *)
Definition parse_wkb_dimensions (type_word : N) : N * WkbDimensions * bool :=
  let base_type := N.land type_word 0x1FFFFFFF in
  let z := negb (N.land type_word 0x80000000 =? 0) in
  let m := negb (N.land type_word 0x40000000 =? 0) in
  let has_srid := negb (N.land type_word 0x20000000 =? 0) in
  if 3000 <=? base_type then (base_type - 3000, mkDims true true, has_srid)
  else if 2000 <=? base_type then (base_type - 2000, mkDims z true, has_srid)
  else if 1000 <=? base_type then (base_type - 1000, mkDims true m, has_srid)
  else (base_type, mkDims z m, has_srid).

Definition read_endian : M WkbEndian :=
  let! b := read_u8 in
  match b with 0 => ret Big | 1 => ret Little | _ => none end.

Definition read_coords (e : WkbEndian) (dims : WkbDimensions) : M (list f64) :=
  collect_times (coordinate_len dims) (read_f64 e).

(** [(!coords.iter().all(|v| v.is_nan())).then_some(coords)] *)
Definition point_coords (coords : list f64) : option (list f64) :=
  if forallb f64_is_nan coords then None else Some coords.

Definition read_wkb_point_coords (dims : WkbDimensions) : M (option (list f64)) :=
  let! e := read_endian in
  let! type_word := read_u32 e in
  let '(base_type, parsed_dims, has_srid) := parse_wkb_dimensions type_word in
  if negb (base_type =? 1) || negb (bool_decide (parsed_dims = dims)) then none
  else
    let! _ := (if has_srid then let! _ := read_u32 e in ret tt else ret tt) in
    let! coords := read_coords e parsed_dims in
    ret (point_coords coords).

Definition parse_wkb_points (e : WkbEndian) (dims : WkbDimensions) : M (list (list f64)) :=
  let! count := read_u32 e in collect_count count (read_coords e dims).

(** [has_srid.then(|| reader.read_u32(endian)).flatten().filter(|v| *v != 0)]:
    an SRID that cannot be read is no SRID, and the reader goes on. *)
Definition read_srid (e : WkbEndian) (has_srid : bool) : M (option N) := λ r,
  if has_srid then
    let '(v, r') := read_u32 e r in
    (Some (match v with Some n => if n =? 0 then None else Some n | None => None end), r')
  else (Some None, r).

Definition as_line (g : WkbGeometry) : M (list (list f64)) :=
  match g with LineString _ points => ret points | _ => none end.
Definition as_polygon (g : WkbGeometry) : M (list (list (list f64))) :=
  match g with Polygon _ rings => ret rings | _ => none end.

(** The [match base_type] of the geometry, [child] reading a nested one. *)
Definition parse_wkb_body (child : M (WkbGeometry * option N)) (e : WkbEndian) (dims : WkbDimensions)
    (base_type : N) : M WkbGeometry :=
  match base_type with
  | 1 => let! coords := read_coords e dims in ret (Point dims (point_coords coords))
  | 2 => let! points := parse_wkb_points e dims in ret (LineString dims points)
  | 3 =>
      let! rings := (let! ring_count := read_u32 e in collect_count ring_count (parse_wkb_points e dims)) in
      ret (Polygon dims rings)
  | 4 =>
      let! points := (let! count := read_u32 e in collect_count count (read_wkb_point_coords dims)) in
      ret (MultiPoint dims points)
  | 5 =>
      let! lines := (let! count := read_u32 e in
                     collect_count count (let! parsed := child in as_line parsed.1)) in
      ret (MultiLineString dims lines)
  | 6 =>
      let! polygons := (let! count := read_u32 e in
                        collect_count count (let! parsed := child in as_polygon parsed.1)) in
      ret (MultiPolygon dims polygons)
  | 7 =>
      let! geometries := (let! count := read_u32 e in
                          collect_count count (let! parsed := child in ret parsed.1)) in
      ret (GeometryCollection dims geometries)
  | _ => none
  end.

Fixpoint parse_wkb_geometry (fuel : nat) : M (WkbGeometry * option N) :=
  match fuel with
  | O => none
  | S fuel' =>
      let! e := read_endian in
      let! type_word := read_u32 e in
      let '(base_type, dims, has_srid) := parse_wkb_dimensions type_word in
      let! srid := read_srid e has_srid in
      let! geometry := parse_wkb_body (parse_wkb_geometry fuel') e dims base_type in
      ret (geometry, srid)
  end.

Definition parse_wkb (b : bytes) : option (WkbGeometry * option N) :=
  let '(parsed, reader) := parse_wkb_geometry (S (length b)) (new b) in
  match parsed with
  | Some p => if decide (pos reader = length b) then Some p else None
  | None => None
  end.

Definition decode_wkb_geometry (b : bytes) : option DecodedGeometry :=
  '(geometry, srid) ← parse_wkb b; Some (mkDecodedGeometry (to_wkt geometry) srid).

Definition wkb_to_wkt (b : bytes) : option str := wkt <$> decode_wkb_geometry b.

(** ** The format

    Words in either byte order. *)
Fixpoint le_split (n : nat) (v : N) : bytes :=
  match n with O => [] | S n' => v mod 256 :: le_split n' (v / 256) end.
Definition to_bytes (e : WkbEndian) (n : nat) (v : N) : bytes :=
  match e with Big => reverse (le_split n v) | Little => le_split n v end.

Definition Word (e : WkbEndian) (n : nat) (v : N) (l : bytes) : Prop :=
  v < 256 ^ N.of_nat n ∧ l = to_bytes e n v.
Definition Endian (e : WkbEndian) (l : bytes) : Prop := l = [match e with Big => 0 | Little => 1 end].

(** Items one after the other, and a count before them. *)
Inductive Seq {A} (R : A → bytes → Prop) : list A → bytes → Prop :=
| Seq_nil : Seq R [] []
| Seq_cons x xs l1 l2 : R x l1 → Seq R xs l2 → Seq R (x :: xs) (l1 ++ l2).
Definition Counted {A} (e : WkbEndian) (R : A → bytes → Prop) (xs : list A) (l : bytes) : Prop :=
  ∃ c b, l = c ++ b ∧ Word e 4 (N.of_nat (length xs)) c ∧ Seq R xs b.

Definition ordinates (dims : WkbDimensions) : nat :=
  match dims with mkDims false false => 2 | mkDims true true => 4 | _ => 3 end%nat.
Definition Coords (e : WkbEndian) (dims : WkbDimensions) (c : list f64) (l : bytes) : Prop :=
  length c = ordinates dims ∧ Seq (Word e 8) c l.
Definition Points (e : WkbEndian) (dims : WkbDimensions) : list (list f64) → bytes → Prop :=
  Counted e (Coords e dims).

(** The type word: EWKB flags in the upper three bits, or the ISO offset of
    1000 for Z, 2000 for M and 3000 for ZM, or both. *)
Definition TypeWord (w base : N) (dims : WkbDimensions) (has_srid : bool) : Prop :=
  ∃ (zf mf : bool) (iso : N),
    iso ≤ 3 ∧
    w = base + 1000 * iso + 2 ^ 29 * N.b2n has_srid + 2 ^ 30 * N.b2n mf + 2 ^ 31 * N.b2n zf ∧
    dims = mkDims (zf || N.odd iso) (mf || (2 <=? iso)).

(** Byte order, type word and SRID; an SRID of zero is none. *)
Definition Srid (e : WkbEndian) (has_srid : bool) (s : option N) (l : bytes) : Prop :=
  if has_srid then ∃ v, Word e 4 v l ∧ s = (if v =? 0 then None else Some v) else l = [] ∧ s = None.
Definition Header (e : WkbEndian) (base : N) (dims : WkbDimensions) (s : option N) (l : bytes) : Prop :=
  ∃ w has_srid le lw ls, l = le ++ lw ++ ls ∧ Endian e le ∧ Word e 4 w lw ∧
    TypeWord w base dims has_srid ∧ Srid e has_srid s ls.

(** A point is empty when its coordinates are all NaN. *)
Definition PointOf (c : list f64) (p : option (list f64)) : Prop :=
  (Forall (λ v, f64_is_nan v = true) c ∧ p = None) ∨ (Exists (λ v, f64_is_nan v = false) c ∧ p = Some c).
Definition PointMember (dims : WkbDimensions) (p : option (list f64)) (l : bytes) : Prop :=
  ∃ e s c h b, l = h ++ b ∧ Header e 1 dims s h ∧ Coords e dims c b ∧ PointOf c p.

(** [fits dims d]: a line or polygon with dimensions [d] may be a member of a
    MULTILINESTRING or MULTIPOLYGON with dimensions [dims].  In the format they
    are the same, [WkbFormat]; the decoder does not look, [any_dims]. *)
Inductive Geometry (fits : WkbDimensions → WkbDimensions → Prop) : WkbGeometry → option N → bytes → Prop :=
| G_Point e dims s c p h b :
    Header e 1 dims s h → Coords e dims c b → PointOf c p → Geometry fits (Point dims p) s (h ++ b)
| G_LineString e dims s points h b :
    Header e 2 dims s h → Points e dims points b → Geometry fits (LineString dims points) s (h ++ b)
| G_Polygon e dims s rings h b :
    Header e 3 dims s h → Counted e (Points e dims) rings b → Geometry fits (Polygon dims rings) s (h ++ b)
| G_MultiPoint e dims s points h b :
    Header e 4 dims s h → Counted e (PointMember dims) points b → Geometry fits (MultiPoint dims points) s (h ++ b)
| G_MultiLineString e dims s lines h b :
    Header e 5 dims s h → Counted e (λ points l, ∃ d s', fits dims d ∧ Geometry fits (LineString d points) s' l) lines b →
    Geometry fits (MultiLineString dims lines) s (h ++ b)
| G_MultiPolygon e dims s polygons h b :
    Header e 6 dims s h → Counted e (λ rings l, ∃ d s', fits dims d ∧ Geometry fits (Polygon d rings) s' l) polygons b →
    Geometry fits (MultiPolygon dims polygons) s (h ++ b)
| G_GeometryCollection e dims s geometries h b :
    Header e 7 dims s h → Counted e (λ g l, ∃ s', Geometry fits g s' l) geometries b →
    Geometry fits (GeometryCollection dims geometries) s (h ++ b).

Abbreviation WkbFormat := (Geometry (=)).
Definition any_dims : WkbDimensions → WkbDimensions → Prop := λ _ _, True.

(** ** The text of a geometry

    Items with a separator between them. *)
Inductive Listed {A} (sep : str) (R : A → str → Prop) : list A → str → Prop :=
| Listed_one x t : R x t → Listed sep R [x] t
| Listed_more x y xs t u : R x t → Listed sep R (y :: xs) u → Listed sep R (x :: y :: xs) (t ++ sep ++ u).
Definition Coordinate (c : list f64) (t : str) : Prop := Listed (lit " ") (λ v t, t = f64_to_string v) c t.
(** EMPTY, or the items in parentheses. *)
Definition Braced {A} (R : A → str → Prop) (xs : list A) (t : str) : Prop :=
  (xs = [] ∧ t = lit "EMPTY") ∨ ∃ u, Listed (lit ",") R xs u ∧ t = lit "(" ++ u ++ lit ")".
Definition PointText (p : option (list f64)) (t : str) : Prop :=
  (p = None ∧ t = lit "EMPTY") ∨ ∃ c u, p = Some c ∧ Coordinate c u ∧ t = lit "(" ++ u ++ lit ")".
Definition LineText : list (list f64) → str → Prop := Braced Coordinate.
Definition PolygonText : list (list (list f64)) → str → Prop := Braced LineText.
(** The name of the type, Z, M or ZM, and the text, with a blank before EMPTY. *)
Definition Tagged (name : string) (dims : WkbDimensions) (text t : str) : Prop :=
  t = lit name ++ lit (match dims with
                       | mkDims false false => "" | mkDims true false => " Z"
                       | mkDims false true => " M" | mkDims true true => " ZM"
                       end)
               ++ (if decide (text = lit "EMPTY") then lit " " else []) ++ text.
Inductive Wkt : WkbGeometry → str → Prop :=
| T_Point dims p u t : PointText p u → Tagged "POINT" dims u t → Wkt (Point dims p) t
| T_LineString dims points u t : LineText points u → Tagged "LINESTRING" dims u t → Wkt (LineString dims points) t
| T_Polygon dims rings u t : PolygonText rings u → Tagged "POLYGON" dims u t → Wkt (Polygon dims rings) t
| T_MultiPoint dims points u t : Braced PointText points u → Tagged "MULTIPOINT" dims u t → Wkt (MultiPoint dims points) t
| T_MultiLineString dims lines u t : Braced LineText lines u → Tagged "MULTILINESTRING" dims u t → Wkt (MultiLineString dims lines) t
| T_MultiPolygon dims polygons u t : Braced PolygonText polygons u → Tagged "MULTIPOLYGON" dims u t → Wkt (MultiPolygon dims polygons) t
| T_GeometryCollection dims geometries u t :
    Braced Wkt geometries u → Tagged "GEOMETRYCOLLECTION" dims u t → Wkt (GeometryCollection dims geometries) t.

Abbreviation Lax := (Geometry any_dims).

(** ** Bytes and words *)
Abbreviation is_bytes l := (Forall (λ b : N, b < 256) l).

Lemma le_split_bytes n v : is_bytes (le_split n v).
Proof. revert v. induction n; intros; cbn; constructor; eauto. apply N.mod_lt. done. Qed.

Lemma length_le_split n v : length (le_split n v) = n.
Proof. revert v. induction n; intros; cbn; auto. Qed.

Lemma le_combine_split n v : v < 256 ^ N.of_nat n → le_combine (le_split n v) = v.
Proof.
  revert v. induction n as [| n IH]; intros v Hv; [cbn in *; lia |]. cbn [le_combine le_split].
  rewrite Nat2N.inj_succ, N.pow_succ_r' in Hv. rewrite IH; [| by apply N.Div0.div_lt_upper_bound].
  pose proof (N.div_mod' v 256). lia.
Qed.

Lemma le_split_combine l : is_bytes l → le_split (length l) (le_combine l) = l.
Proof.
  induction 1 as [| b l Hb _ IH]; [done |]. cbn [le_combine le_split length]. rewrite (N.mul_comm 256).
  rewrite N.Div0.mod_add, N.mod_small, N.div_add, N.div_small, N.add_0_l by lia. by rewrite IH.
Qed.

Lemma le_combine_bound l : is_bytes l → le_combine l < 256 ^ N.of_nat (length l).
Proof.
  induction 1 as [| b l Hb _ IH]; [done |]. cbn [le_combine length]. rewrite Nat2N.inj_succ, N.pow_succ_r'. lia.
Qed.

Lemma length_to_bytes e n v : length (to_bytes e n v) = n.
Proof. destruct e; unfold to_bytes; rewrite ?length_reverse; apply length_le_split. Qed.

(** What [read_array] returns and what the format says are the same word. *)
Lemma word_from_bytes e n v l : is_bytes l → Word e n v l ↔ length l = n ∧ from_bytes e l = v.
Proof.
  intros Hl. unfold Word. split.
  - intros [Hv ->]. split; [apply length_to_bytes |].
    destruct e; unfold to_bytes, from_bytes; rewrite ?reverse_involutive; by apply le_combine_split.
  - intros [<- <-]. destruct e; unfold to_bytes, from_bytes.
    + rewrite <- (length_reverse l). rewrite <- (Forall_reverse _ l) in Hl.
      rewrite le_split_combine by done. rewrite reverse_involutive. auto using le_combine_bound.
    + rewrite le_split_combine by done. auto using le_combine_bound.
Qed.

(** ** Readers of a format

    [Reads n m R]: on readers with fewer than [n] bytes left, [m] succeeds
    exactly on the strings of [R] at its position, and stops after them. *)
Definition rest (r : WkbReader) : bytes := drop (pos r) (raw r).
Definition ok (r : WkbReader) : Prop := is_bytes (raw r) ∧ (pos r ≤ length (raw r))%nat.
Definition after (r : WkbReader) (l : bytes) : WkbReader := mkReader (raw r) (pos r + length l).

Definition Reads {A} (n : nat) (m : M A) (R : A → bytes → Prop) : Prop :=
  ∀ r a r', ok r → (length (rest r) < n)%nat →
    (m r = (Some a, r') ↔ ∃ l t, rest r = l ++ t ∧ r' = after r l ∧ R a l).

Lemma ok_after r l t : ok r → rest r = l ++ t → ok (after r l) ∧ rest (after r l) = t.
Proof.
  intros [Hb Hp] Hr. assert (length (rest r) = length (raw r) - pos r)%nat by (apply length_drop).
  rewrite Hr, length_app in H. split; [split; [done | cbn; lia] |].
  unfold rest, after; cbn. rewrite <- drop_drop. fold (rest r). rewrite Hr. by rewrite drop_app_length.
Qed.

Lemma ok_rest r : ok r → is_bytes (rest r).
Proof. intros [Hb _]. by apply Forall_drop. Qed.

Lemma after_after r l1 l2 : after (after r l1) l2 = after r (l1 ++ l2).
Proof. unfold after. cbn. rewrite length_app. f_equal. lia. Qed.

Lemma Reads_weaken {A} n n' (m : M A) R : (n' ≤ n)%nat → Reads n m R → Reads n' m R.
Proof. intros Hn H r a r' Hok Hr. apply H; [done | lia]. Qed.

Lemma Reads_iff {A} n (m : M A) R R' : (∀ a l, R a l ↔ R' a l) → Reads n m R → Reads n m R'.
Proof.
  intros HR H r a r' Hok Hr. rewrite (H r a r' Hok Hr).
  split; intros (l & t & ? & ? & ?); exists l, t; naive_solver.
Qed.

Lemma Reads_ret {A} n (a : A) : Reads n (ret a) (λ x l, x = a ∧ l = []).
Proof.
  intros r x r' _ _. unfold ret. split.
  - intros [= -> ->]. exists [], (rest r'). repeat split; try done. unfold after. destruct r'; cbn. f_equal. lia.
  - intros (l & t & _ & -> & -> & ->). unfold after. destruct r; cbn. do 2 f_equal. lia.
Qed.

Lemma Reads_none {A} n : Reads (A := A) n none (λ _ _, False).
Proof. intros r x r' _ _. unfold none. split; [done |]. by intros (? & ? & _ & _ & ?). Qed.

Definition Then {A B} (R : A → bytes → Prop) (S : A → B → bytes → Prop) (b : B) (l : bytes) : Prop :=
  ∃ a l1 l2, l = l1 ++ l2 ∧ R a l1 ∧ S a b l2.

Lemma Reads_bind {A B} n (m : M A) (k : A → M B) R S :
  Reads n m R → (∀ a l, R a l → Reads (n - length l) (k a) (S a)) → Reads n (bind m k) (Then R S).
Proof.
  intros Hm Hk r b r' Hok Hn. unfold bind. split.
  - destruct (m r) as [[a |] r1] eqn:E; [| done]. intros Ek.
    apply Hm in E as (l1 & t & Hr & -> & HR); [| done..].
    destruct (ok_after _ _ _ Hok Hr) as [Hok1 Hr1].
    apply (Hk _ _ HR) in Ek as (l2 & t2 & Hr2 & -> & HS); [| done | rewrite Hr, length_app in Hn; rewrite Hr1; lia].
    exists (l1 ++ l2), t2. rewrite after_after. repeat split; [| by exists a, l1, l2].
    rewrite Hr, <- Hr1, Hr2. by rewrite app_assoc.
  - intros (l & t & Hr & -> & a & l1 & l2 & -> & HR & HS). rewrite <- app_assoc in Hr.
    assert (m r = (Some a, after r l1)) as -> by (apply Hm; eauto 10).
    destruct (ok_after _ _ _ Hok Hr) as [Hok1 Hr1].
    apply (Hk _ _ HR); [done | rewrite Hr, length_app in Hn; rewrite Hr1; lia |].
    rewrite <- after_after. eauto 10.
Qed.

(** [let! x := m in ret (f x)] reads the same strings. *)
Lemma Reads_map {A B} n (m : M A) (f : A → B) R :
  Reads n m R → Reads n (let! x := m in ret (f x)) (λ b l, ∃ a, R a l ∧ b = f a).
Proof.
  intros Hm. eapply Reads_iff; [| apply Reads_bind; [exact Hm | intros; apply Reads_ret]].
  intros b l. unfold Then. split.
  - intros (a & l1 & l2 & -> & ? & -> & ->). rewrite app_nil_r. eauto.
  - intros (a & ? & ->). exists a, l, []. rewrite app_nil_r. eauto.
Qed.

Lemma Reads_array n k : Reads n (read_array k) (λ a l, a = l ∧ length l = k ∧ is_bytes l).
Proof.
  intros r a r' Hok _. unfold read_array. pose proof (ok_rest _ Hok) as Hb. destruct Hok as [Hraw Hp].
  assert (length (rest r) = length (raw r) - pos r)%nat as Hlen by (apply length_drop).
  fold (rest r). destruct (decide _) as [Hle | Hle].
  - split.
    + intros [= <- <-]. exists (take k (rest r)), (drop k (rest r)).
      rewrite take_drop. unfold after. rewrite length_take, Nat.min_l by lia.
      repeat split. by apply Forall_take.
    + intros (l & t & Hr & -> & -> & <- & _). rewrite Hr, take_app_length. done.
  - split; [done |]. intros (l & t & Hr & -> & -> & <- & _). rewrite Hr, length_app in Hlen. lia.
Qed.

Lemma Reads_word n k e : Reads n (let! l := read_array k in ret (from_bytes e l)) (Word e k).
Proof.
  eapply Reads_iff; [| apply Reads_map, Reads_array]. intros v l. split.
  - intros (? & (-> & Hl & Hb) & ->). by apply word_from_bytes.
  - intros H. assert (is_bytes l) as Hb.
    { destruct H as [_ ->]. destruct e; unfold to_bytes; rewrite ?Forall_reverse; apply le_split_bytes. }
    apply word_from_bytes in H as [? <-]; [| done]. eauto.
Qed.

Lemma Reads_times {A} n k (m : M A) R :
  Reads n m R → Reads n (collect_times k m) (λ xs l, length xs = k ∧ Seq R xs l).
Proof.
  intros Hm. induction k as [| k IH]; cbn [collect_times].
  - eapply Reads_iff; [| apply Reads_ret]. intros xs l. split; [intros [-> ->]; by split; [| constructor] |].
    intros [Hx Hs]. destruct Hs; done.
  - eapply Reads_iff; [| apply Reads_bind; [exact Hm | intros; apply Reads_map; eapply Reads_weaken; [| exact IH]; lia]].
    intros xs l. split.
    + intros (x & l1 & l2 & -> & Hx & xs' & [Hl Hs] & ->). split; [cbn; lia | by constructor].
    + intros [Hl Hs]. destruct Hs as [| x xs l1 l2]; [done |]. exists x, l1, l2. repeat split; [done |]. eauto.
Qed.

Lemma bind_ext {A B} (m m' : M A) (k k' : A → M B) r :
  (∀ r, m r = m' r) → (∀ a r, k a r = k' a r) → bind m k r = bind m' k' r.
Proof. intros Hm Hk. unfold bind. rewrite Hm. destruct (m' r) as [[a |] r']; auto. Qed.

Lemma collect_times_add {A} i j (m : M A) r :
  collect_times (i + j) m r = (let! l1 := collect_times i m in let! l2 := collect_times j m in ret (l1 ++ l2)) r.
Proof.
  revert r. induction i as [| i IH]; intros r; unfold bind, ret; cbn.
  - by destruct (collect_times j m r) as [[] ?].
  - unfold bind. destruct (m r) as [[x |] r1]; [| done]. rewrite IH. unfold bind, ret.
    destruct (collect_times i m r1) as [[l1 |] r2]; [| done]. by destruct (collect_times j m r2) as [[] ?].
Qed.

Lemma collect_pos_times {A} p (m : M A) r : collect_pos p m r = collect_times (Pos.to_nat p) m r.
Proof.
  revert r. induction p as [p IH | p IH |]; intros r; cbn [collect_pos].
  - replace (Pos.to_nat p~1) with (1 + (Pos.to_nat p + Pos.to_nat p))%nat by lia.
    rewrite collect_times_add. unfold bind, ret. cbn. unfold bind, ret.
    destruct (m r) as [[x |] r1]; [| done]. rewrite IH, collect_times_add. unfold bind, ret.
    destruct (collect_times _ m r1) as [[l1 |] r2]; [| done]. rewrite IH. by destruct (collect_times _ m r2) as [[] ?].
  - replace (Pos.to_nat p~0) with (Pos.to_nat p + Pos.to_nat p)%nat by lia.
    rewrite collect_times_add. by apply bind_ext; [| intros; apply bind_ext].
  - done.
Qed.

Lemma collect_count_times {A} n (m : M A) r : collect_count n m r = collect_times (N.to_nat n) m r.
Proof. destruct n; [done |]. apply collect_pos_times. Qed.

Lemma Reads_ext {A} n (m m' : M A) R : (∀ r, m r = m' r) → Reads n m' R → Reads n m R.
Proof. intros Hm H r a r'. rewrite Hm. apply H. Qed.

Lemma Word_length e n v l : Word e n v l → length l = n.
Proof. intros [_ ->]. apply length_to_bytes. Qed.

(** A count and its items, whose reader is only needed past the count. *)
Lemma Reads_counted {A} n e (m : M A) R :
  Reads (n - 4) m R → Reads n (let! c := read_u32 e in collect_count c m) (Counted e R).
Proof.
  intros Hm. eapply Reads_iff; [| apply Reads_bind with (S := λ c xs l, length xs = N.to_nat c ∧ Seq R xs l);
    [apply Reads_word | intros c l Hc; apply Word_length in Hc as ->;
     eapply Reads_ext; [intros; apply collect_count_times | by apply Reads_times]]].
  intros xs l. unfold Counted, Then. split.
  - intros (c & l1 & l2 & -> & Hc & Hx & Hs). exists l1, l2. by rewrite Hx, N2Nat.id.
  - intros (c & b & -> & Hc & Hs). exists (N.of_nat (length xs)), c, b. by rewrite Nat2N.id.
Qed.

Lemma ordinates_len dims : coordinate_len dims = ordinates dims.
Proof. by destruct dims as [[] []]. Qed.
Lemma Reads_coords n e dims : Reads n (read_coords e dims) (Coords e dims).
Proof. unfold read_coords, Coords. rewrite ordinates_len. apply Reads_times, Reads_word. Qed.
Lemma point_coords_spec c p : PointOf c p ↔ p = point_coords c.
Proof.
  unfold PointOf, point_coords. destruct (forallb f64_is_nan c) eqn:E.
  - split.
    + intros [[_ ->] | [Hx _]]; [done |]. exfalso. rewrite Exists_exists in Hx. destruct Hx as (v & Hv & Hn).
      rewrite forallb_forall in E. apply list_elem_of_In in Hv. rewrite E in Hn; done.
    + intros ->. left. split; [| done]. apply Forall_forall. intros v Hv. rewrite forallb_forall in E. by apply E, list_elem_of_In.
  - assert (Exists (λ v, f64_is_nan v = false) c) as Hx.
    { clear p. induction c as [| v c IH]; [done |]. cbn in E. destruct (f64_is_nan v) eqn:Ev; [right; auto | by left]. }
    split; [| intros ->; by right]. intros [[Hf _] | [_ ->]]; [| done]. exfalso.
    apply Exists_exists in Hx as (v & Hv & Hn). rewrite Forall_forall in Hf. rewrite Hf in Hn; done.
Qed.

Lemma Reads_points n e dims : Reads n (parse_wkb_points e dims) (Points e dims).
Proof. apply Reads_counted, Reads_coords. Qed.

Lemma Reads_endian n : Reads n read_endian Endian.
Proof.
  unfold read_endian, bind, read_u8. intros r e r' [Hb Hp] _.
  destruct (raw r !! pos r) as [v |] eqn:E.
  - assert (rest r = v :: drop (S (pos r)) (raw r)) as Hr by (unfold rest; by apply drop_S).
    assert (mkReader (raw r) (S (pos r)) = after r [v]) as Ha by (unfold after; f_equal; cbn; lia).
    rewrite Hr, Ha. unfold Endian, ret, none. split.
    + intros H. exists [v], (drop (S (pos r)) (raw r)). destruct v as [| [p | p |]]; simplify_eq; done.
    + intros (l & t & Ht & -> & ->). destruct e; simplify_eq/=; done.
  - split; [done |]. intros (l & t & Ht & -> & ->). apply lookup_ge_None in E.
    assert (length (rest r) = 0)%nat by (unfold rest; rewrite length_drop; lia). by rewrite Ht in H.
Qed.

(** ** The type word *)
Lemma land_flag w k : negb (N.land w (2 ^ k) =? 0) = N.testbit w k.
Proof.
  destruct (N.testbit w k) eqn:E.
  - apply negb_true_iff, N.eqb_neq. intros H. assert (N.testbit (N.land w (2 ^ k)) k = true) as H1.
    { by rewrite N.land_spec, E, N.pow2_bits_true. }
    by rewrite H, N.bits_0 in H1.
  - apply negb_false_iff, N.eqb_eq, N.bits_inj. intros i. rewrite N.land_spec, N.bits_0, N.pow2_bits_eqb.
    destruct (N.eqb_spec k i) as [-> |]; [by rewrite E | by rewrite andb_false_r].
Qed.

Lemma word_flags w :
  w < 2 ^ 32 →
  w = w mod 2 ^ 29 + 2 ^ 29 * N.b2n (N.testbit w 29) + 2 ^ 30 * N.b2n (N.testbit w 30) + 2 ^ 31 * N.b2n (N.testbit w 31).
Proof.
  intros Hw. rewrite !N.testbit_spec'.
  pose proof (N.div_mod' w (2 ^ 29)). pose proof (N.div_mod' (w / 2 ^ 29) 2).
  pose proof (N.div_mod' (w / 2 ^ 30) 2). pose proof (N.div_mod' (w / 2 ^ 31) 2).
  assert (w / 2 ^ 29 / 2 = w / 2 ^ 30) by (by rewrite N.Div0.div_div).
  assert (w / 2 ^ 30 / 2 = w / 2 ^ 31) by (by rewrite N.Div0.div_div).
  assert (w / 2 ^ 31 / 2 = 0) by (rewrite N.Div0.div_div; by apply N.div_small).
  lia.
Qed.

Lemma dimensions_type_word w base dims hs :
  1 ≤ base ≤ 7 → (w < 2 ^ 32 ∧ parse_wkb_dimensions w = (base, dims, hs)) ↔ TypeWord w base dims hs.
Proof.
  intros Hbase. split.
  - intros [Hw H]. unfold parse_wkb_dimensions in H.
    change 0x80000000 with (2 ^ 31) in H. change 0x40000000 with (2 ^ 30) in H. change 0x20000000 with (2 ^ 29) in H.
    rewrite !land_flag in H. change 0x1FFFFFFF with (N.ones 29) in H. rewrite N.land_ones in H.
    pose proof (word_flags w Hw) as Hf. set (a := w mod 2 ^ 29) in *.
    exists (N.testbit w 31), (N.testbit w 30).
    destruct (N.leb_spec 3000 a); [exists 3 | destruct (N.leb_spec 2000 a); [exists 2 |
      destruct (N.leb_spec 1000 a); [exists 1 | exists 0]]]; simplify_eq; (split; [done |]);
      (split; [lia |]); by rewrite ?orb_true_r, ?orb_false_r.
  - intros (zf & mf & iso & Hiso & -> & ->).
    assert (base = 1 ∨ base = 2 ∨ base = 3 ∨ base = 4 ∨ base = 5 ∨ base = 6 ∨ base = 7) as Hb by lia.
    assert (iso = 0 ∨ iso = 1 ∨ iso = 2 ∨ iso = 3) as Hi by lia.
    destruct_or! Hb; destruct_or! Hi; subst; destruct zf, mf, hs; done.
Qed.

(** ** Points, bodies and geometries *)
Lemma Reads_member_srid n e (hs : bool) :
  Reads n (if hs then let! _ := read_u32 e in ret tt else ret tt) (λ _ l, ∃ s, Srid e hs s l).
Proof.
  destruct hs.
  - eapply Reads_iff; [| apply Reads_map, Reads_word]. intros [] l. cbn. split.
    + intros (v & Hv & _). eauto.
    + intros (s & v & Hv & _). eauto.
  - eapply Reads_iff; [| apply Reads_ret]. intros [] l. cbn. naive_solver.
Qed.

(** A reader that is only entered under [P]. *)
Lemma Reads_guard {A} n (P : Prop) (b : bool) (m : M A) R :
  (b = false ↔ P) → (P → Reads n m R) → Reads n (if b then none else m) (λ a l, P ∧ R a l).
Proof.
  intros HP Hm. destruct b.
  - eapply Reads_iff; [| apply Reads_none]. intros a l. split; [done | intros [H _]; by apply HP in H].
  - eapply Reads_iff; [| apply Hm; by apply HP]. intros a l. split; [| tauto]. intros; split; [by apply HP | done].
Qed.

Lemma Reads_point_member n dims : Reads n (read_wkb_point_coords dims) (PointMember dims).
Proof.
  unfold read_wkb_point_coords.
  eapply Reads_iff; [| apply Reads_bind with (S := λ e, Then (Word e 4) (λ w p l,
    (parse_wkb_dimensions w).1.1 = 1 ∧ (parse_wkb_dimensions w).1.2 = dims ∧
    Then (λ _ : unit, λ l, ∃ s, Srid e (parse_wkb_dimensions w).2 s l)
         (λ _ p l, ∃ c, Coords e dims c l ∧ p = point_coords c) p l));
    [apply Reads_endian | intros e le _; apply Reads_bind; [apply Reads_word |]]].
  - intros p l. unfold Then, PointMember, Header. setoid_rewrite point_coords_spec. split.
    + intros (e & le & ? & -> & He & w & lw & ? & -> & Hw & Hb & Hd & [] & ls & b & -> & (s & Hs) & c & Hc & ->).
      exists e, s, c, (le ++ lw ++ ls), b. rewrite !(assoc_L (++)).
      split; [done |]. split; [| done]. exists w, (parse_wkb_dimensions w).2, le, lw, ls. rewrite !(assoc_L (++)).
      split_and!; try done. apply dimensions_type_word; [lia |]. split; [apply Hw |].
      destruct (parse_wkb_dimensions w) as [[? ?] ?]. cbn in *. by subst.
    + intros (e & s & c & h & b & -> & (w & hs & le & lw & ls & -> & He & Hw & Ht & Hs) & Hc & ->).
      apply dimensions_type_word in Ht as [_ Ht]; [| lia].
      exists e, le, (lw ++ ls ++ b). rewrite <- !(assoc_L (++)). split; [done |]. split; [done |].
      exists w, lw, (ls ++ b). rewrite Ht. cbn. split_and!; try done. exists tt, ls, b. eauto 10.
  - intros w lw _. destruct (parse_wkb_dimensions w) as [[base d] hs]. cbn.
    eapply Reads_iff; [| apply Reads_guard with (P := base = 1 ∧ d = dims)
      (R := Then (λ _ : unit, λ l, ∃ s, Srid e hs s l) (λ _ p l, ∃ c, Coords e dims c l ∧ p = point_coords c))].
    + intros; tauto.
    + rewrite orb_false_iff, !negb_false_iff, N.eqb_eq, bool_decide_eq_true. done.
    + intros [-> ->]. apply Reads_bind; [apply Reads_member_srid | intros _ ls _; apply Reads_map, Reads_coords].
Qed.

(** What follows the header, by type. *)
Definition Body (fits : WkbDimensions → WkbDimensions → Prop) (base : N) (e : WkbEndian) (dims : WkbDimensions) (g : WkbGeometry) (l : bytes) : Prop :=
  match g with
  | Point d p => base = 1 ∧ d = dims ∧ ∃ c, Coords e dims c l ∧ PointOf c p
  | LineString d points => base = 2 ∧ d = dims ∧ Points e dims points l
  | Polygon d rings => base = 3 ∧ d = dims ∧ Counted e (Points e dims) rings l
  | MultiPoint d points => base = 4 ∧ d = dims ∧ Counted e (PointMember dims) points l
  | MultiLineString d lines =>
      base = 5 ∧ d = dims ∧ Counted e (λ points l, ∃ d s', fits dims d ∧ Geometry fits (LineString d points) s' l) lines l
  | MultiPolygon d polygons =>
      base = 6 ∧ d = dims ∧ Counted e (λ rings l, ∃ d s', fits dims d ∧ Geometry fits (Polygon d rings) s' l) polygons l
  | GeometryCollection d geometries =>
      base = 7 ∧ d = dims ∧ Counted e (λ g l, ∃ s', Geometry fits g s' l) geometries l
  end.

Lemma geometry_body fits g s l :
  Geometry fits g s l ↔ ∃ e base dims h b, 1 ≤ base ≤ 7 ∧ l = h ++ b ∧ Header e base dims s h ∧ Body fits base e dims g b.
Proof.
  split.
  - destruct 1 as [e dims s c p h b Hh Hc Hp | e dims s x h b Hh Hb | e dims s x h b Hh Hb | e dims s x h b Hh Hb | e dims s x h b Hh Hb | e dims s x h b Hh Hb | e dims s x h b Hh Hb];
      [exists e, 1, dims, h, b | exists e, 2, dims, h, b | exists e, 3, dims, h, b | exists e, 4, dims, h, b | exists e, 5, dims, h, b | exists e, 6, dims, h, b | exists e, 7, dims, h, b];
      (split; [lia | split; [done | split; [done | cbn [Body]; eauto]]]).
  - intros (e & base & dims & h & b & _ & -> & Hh & Hb).
    destruct g; cbn in Hb; destruct Hb as (-> & -> & Hb); [destruct Hb as (c & Hc & Hp) | ..]; by econstructor.
Qed.

Lemma body_long fits base e dims g l : Body fits base e dims g l → (4 ≤ length l)%nat.
Proof.
  assert (∀ A (R : A → bytes → Prop) xs l, Counted e R xs l → 4 ≤ length l)%nat as HC.
  { intros A R xs l' (c & b & -> & Hc & _). apply Word_length in Hc. rewrite length_app. lia. }
  destruct g; cbn [Body]; intros (_ & _ & H); eauto.
  destruct H as (c & [Hl Hs] & _). assert (2 ≤ length c)%nat by (rewrite Hl; destruct dims as [[] []]; cbn; lia).
  destruct Hs as [| x xs l1 l2 Hw]; [cbn in *; lia |]. apply Word_length in Hw. rewrite length_app. lia.
Qed.

Abbreviation Parsed := (λ (p : WkbGeometry * option N) (l : bytes), Lax p.1 p.2 l).

(** A nested geometry of one kind. *)
Lemma Reads_child {A} n (child : M (WkbGeometry * option N)) (pick : WkbGeometry → M A) (C : A → WkbGeometry → Prop) :
  Reads n child Parsed → (∀ n g, Reads n (pick g) (λ a l, l = [] ∧ C a g)) →
  Reads n (let! parsed := child in pick parsed.1) (λ a l, ∃ g s', C a g ∧ Lax g s' l).
Proof.
  intros Hc Hp. eapply Reads_iff; [| apply Reads_bind; [exact Hc | intros; apply Hp]].
  intros a l. unfold Then. split.
  - intros ([g s'] & l1 & l2 & -> & HG & -> & HC). rewrite app_nil_r. eauto.
  - intros (g & s' & HC & HG). exists (g, s'), l, []. by rewrite app_nil_r.
Qed.

Lemma Reads_line n child dims :
  Reads n child Parsed →
  Reads n (let! parsed := child in as_line parsed.1) (λ points l, ∃ d s', any_dims dims d ∧ Lax (LineString d points) s' l).
Proof.
  intros Hc. eapply Reads_iff; [| apply (Reads_child n child as_line (λ p g, ∃ d, g = LineString d p)); [done |]].
  - intros p l. naive_solver.
  - intros n' g. destruct g; cbn [as_line];
      (eapply Reads_iff; [| apply Reads_none || apply Reads_ret]); intros a l; naive_solver.
Qed.

Lemma Reads_polygon n child dims :
  Reads n child Parsed →
  Reads n (let! parsed := child in as_polygon parsed.1) (λ rings l, ∃ d s', any_dims dims d ∧ Lax (Polygon d rings) s' l).
Proof.
  intros Hc. eapply Reads_iff; [| apply (Reads_child n child as_polygon (λ p g, ∃ d, g = Polygon d p)); [done |]].
  - intros p l. naive_solver.
  - intros n' g. destruct g; cbn [as_polygon];
      (eapply Reads_iff; [| apply Reads_none || apply Reads_ret]); intros a l; naive_solver.
Qed.

Lemma Reads_any n child :
  Reads n child Parsed → Reads n (let! parsed := child in ret parsed.1) (λ g l, ∃ s', Lax g s' l).
Proof.
  intros Hc. eapply Reads_iff; [| apply (Reads_child n child ret (λ p g, p = g)); [done |]].
  - intros p l. naive_solver.
  - intros n' g. eapply Reads_iff; [| apply Reads_ret]. naive_solver.
Qed.

Lemma Reads_tag {A} n (m : M A) (R : A → bytes → Prop) (C : A → WkbGeometry) (B : WkbGeometry → bytes → Prop) :
  Reads n m R → (∀ g l, B g l ↔ ∃ x, R x l ∧ g = C x) → Reads n (let! x := m in ret (C x)) B.
Proof. intros Hm HB. eapply Reads_iff; [| by apply Reads_map]. intros g l. by rewrite HB. Qed.

Lemma Reads_body n child e dims base :
  Reads (n - 4) child Parsed → Reads n (parse_wkb_body child e dims base) (Body any_dims base e dims).
Proof.
  intros Hc. pose proof (Reads_line _ _ dims Hc) as HL. pose proof (Reads_polygon _ _ dims Hc) as HP.
  pose proof (Reads_any _ _ Hc) as HA.
  assert (∀ k, k = base → (k = 0 ∨ 8 ≤ k) → Reads n none (Body any_dims k e dims)) as Hnone.
  { intros k <- Hk. eapply Reads_iff; [| apply Reads_none]. intros g l. split; [done |].
    destruct g; intros [? _]; lia. }
  unfold parse_wkb_body. destruct base as [| p]; [apply Hnone; lia |].
  destruct p as [[[p | p |] | [p | p |] |] | [[p | p |] | [p | p |] |] |]; try (apply Hnone; lia);
    (eapply Reads_tag; [first [apply Reads_coords | apply Reads_points | apply Reads_counted;
       first [exact HL | exact HP | exact HA | apply Reads_points | apply Reads_point_member]] |]);
    intros g l; destruct g; cbn [Body]; try setoid_rewrite point_coords_spec; split; naive_solver.
Qed.

(** An SRID that cannot be read leaves fewer than four bytes, too few for any
    body: going on is the same as failing. *)
Lemma Reads_srid_body n e hs (body : M WkbGeometry) (B : WkbGeometry → bytes → Prop) :
  (∀ n', n' ≤ n → Reads n' body B)%nat → (∀ g l, B g l → 4 ≤ length l)%nat →
  Reads n (let! srid := read_srid e hs in let! geometry := body in ret (geometry, srid))
    (λ (p : WkbGeometry * option N) l, ∃ ls b, l = ls ++ b ∧ Srid e hs p.2 ls ∧ B p.1 b).
Proof.
  intros Hbody Hlong.
  assert (∀ s, Reads n (let! geometry := body in ret (geometry, s)) (λ (p : WkbGeometry * option N) l, B p.1 l ∧ p.2 = s)) as Hpair.
  { intros s. eapply Reads_iff; [| apply Reads_map, Hbody; done]. intros [g s'] l. naive_solver. }
  destruct hs; unfold bind at 1, read_srid; cbn [Srid].
  - intros r [g s] r' Hok Hn. destruct (read_u32 e r) as [[v |] r1] eqn:E.
    + set (s0 := if v =? 0 then None else Some v). assert (Hv := E).
      apply (Reads_word n) in Hv as (l1 & t & Hr & -> & Hw); [| done..].
      destruct (ok_after _ _ _ Hok Hr) as [Hok1 Hr1].
      rewrite (Hpair s0 _ _ _ Hok1) by (rewrite Hr, length_app in Hn; rewrite Hr1; lia).
      rewrite Hr1. setoid_rewrite after_after. split.
      * intros (l & t' & -> & -> & HB & ->). exists (l1 ++ l), t'. rewrite <- (assoc_L (++)) in *.
        repeat split; [done |]. eauto 10.
      * intros (l & t' & Hl & -> & ls & b & -> & (v' & Hw' & ->) & HB).
        assert (read_u32 e r = (Some v', after r ls)) as E'.
        { apply (Reads_word n); [done.. |]. exists ls, (b ++ t'). by rewrite Hl, <- (assoc_L (++)). }
        rewrite E in E'. injection E' as <- Hlen.
        assert (ls = l1) as ->.
        { rewrite Hr, <- (assoc_L (++)) in Hl. apply app_inj_1 in Hl as [? _]; [done |].
          apply Word_length in Hw, Hw'. by rewrite Hw, Hw'. }
        exists b, t'. rewrite Hr, <- (assoc_L (++)) in Hl. apply app_inv_head in Hl. eauto.
    + assert (¬ (4 ≤ length (rest r)))%nat as Hshort.
      { intros Hl. unfold read_u32, bind, read_array in E. unfold rest in Hl. rewrite length_drop in Hl.
        destruct (decide _); [done | lia]. }
      assert (r1 = r) as ->.
      { unfold read_u32, bind, read_array in E. destruct (decide _); by simplify_eq/=. }
      rewrite (Hpair None _ _ _ Hok) by done. split.
      * intros (l & t & Hr & -> & HB & _). exfalso. apply Hlong in HB. rewrite Hr, length_app in Hshort. lia.
      * intros (l & t & Hr & -> & ls & b & -> & _ & HB). exfalso. apply Hlong in HB.
        rewrite Hr, !length_app in Hshort. lia.
  - eapply Reads_iff; [| apply (Hpair None)]. intros [g s] l. cbn. split.
    + intros [? ->]. by exists [], l.
    + intros (ls & b & -> & (-> & ->) & ?). done.
Qed.

(** Fuel above the number of bytes left is enough. *)
Lemma parse_fuel_enough fuel : Reads fuel (parse_wkb_geometry fuel) Parsed.
Proof.
  induction fuel as [| fuel IH]; [intros r a r' _ Hn; lia |]. cbn [parse_wkb_geometry].
  eapply Reads_iff; [| apply Reads_bind with (S := λ e, Then (Word e 4) (λ w (p : WkbGeometry * option N) l,
    let '(base, dims, hs) := parse_wkb_dimensions w in
    ∃ ls b, l = ls ++ b ∧ Srid e hs p.2 ls ∧ Body any_dims base e dims p.1 b));
    [apply Reads_endian | intros e le He; apply Reads_bind; [apply Reads_word |]]].
  - intros [g s] l. cbn. rewrite geometry_body. unfold Then, Header. split.
    + intros (e & le & ? & -> & He & w & lw & ? & -> & Hw & H).
      destruct (parse_wkb_dimensions w) as [[base dims] hs] eqn:E. destruct H as (ls & b & -> & Hs & HB).
      assert (1 ≤ base ≤ 7) by (destruct g; destruct HB as [-> _]; lia).
      exists e, base, dims, (le ++ lw ++ ls), b. rewrite !(assoc_L (++)). split; [done |]. split; [done |].
      split; [| done]. exists w, hs, le, lw, ls. rewrite !(assoc_L (++)). split_and!; try done.
      apply dimensions_type_word; [done |]. split; [apply Hw | done].
    + intros (e & base & dims & h & b & Hbase & -> & (w & hs & le & lw & ls & -> & He & Hw & Ht & Hs) & HB).
      apply dimensions_type_word in Ht as [_ Ht]; [| done].
      exists e, le, (lw ++ ls ++ b). rewrite <- !(assoc_L (++)). split; [done |]. split; [done |].
      exists w, lw, (ls ++ b). rewrite Ht. split; [done |]. split; [done |]. by exists ls, b.
  - intros w lw Hw. destruct (parse_wkb_dimensions w) as [[base dims] hs].
    apply Word_length in Hw. apply Reads_srid_body.
    + intros n' Hn. apply Reads_body. eapply Reads_weaken; [| exact IH]. rewrite He, Hw in *. cbn in *. lia.
    + intros g l. apply body_long.
Qed.

Lemma parse_wkb_spec b g s : is_bytes b → parse_wkb b = Some (g, s) ↔ Lax g s b.
Proof.
  intros Hb. unfold parse_wkb. assert (ok (new b)) as Hok by (split; [done | cbn; lia]).
  assert (rest (new b) = b) as Hr by done. assert (length (rest (new b)) < S (length b))%nat as Hn by (rewrite Hr; lia).
  pose proof (λ a r', parse_fuel_enough (S (length b)) (new b) a r' Hok Hn) as Hp. rewrite Hr in Hp.
  destruct (parse_wkb_geometry (S (length b)) (new b)) as [[p |] r'] eqn:E.
  - destruct (proj1 (Hp p r') eq_refl) as (l & t & -> & -> & HG). cbn. rewrite length_app. split.
    + destruct (decide _) as [Hl |]; [| done]. intros [= ->]. cbn in HG.
      destruct t; [by rewrite app_nil_r | cbn in Hl; lia].
    + intros HG'. assert (Some p = Some (g, s) ∧ t = []) as [[= ->] ->]; [| cbn; by rewrite decide_True by lia].
      assert ((Some p, after (new (l ++ t)) l) = (Some (g, s), after (new (l ++ t)) (l ++ t))) as Heq.
      { apply Hp. exists (l ++ t), []. by rewrite app_nil_r. }
      injection Heq as -> Hlen. rewrite length_app in Hlen. destruct t; [done | cbn in Hlen; lia].
  - split; [done |]. intros HG. exfalso. assert ((None, r') = (Some (g, s), after (new b) b)) as Heq; [| done].
    apply Hp. exists b, []. by rewrite app_nil_r.
Qed.

(** ** From one grammar to the other *)
Lemma Seq_elem {A} (R : A → bytes → Prop) xs l x : Seq R xs l → x ∈ xs → ∃ l', R x l' ∧ (length l' ≤ length l)%nat.
Proof.
  induction 1 as [| y ys l1 l2 Hy _ IH]; [by intros ?%not_elem_of_nil |]. rewrite length_app.
  intros [-> | (l' & ? & ?)%IH]%elem_of_cons; [exists l1 | exists l']; (split; [done | lia]).
Qed.
Lemma Seq_impl {A} (R R' : A → bytes → Prop) xs l :
  Seq R xs l → (∀ x l', x ∈ xs → R x l' → (length l' ≤ length l)%nat → R' x l') → Seq R' xs l.
Proof.
  induction 1 as [| x xs l1 l2 Hx _ IH]; intros HR; constructor; rewrite length_app in HR.
  - apply HR; [left | done | lia].
  - apply IH. intros y l' Hy Hr Hl. apply HR; [by right | done | lia].
Qed.
Lemma Counted_impl {A} e (R R' : A → bytes → Prop) xs l :
  Counted e R xs l → (∀ x l', x ∈ xs → R x l' → (length l' ≤ length l)%nat → R' x l') → Counted e R' xs l.
Proof.
  intros (c & b & -> & Hc & Hs) HR. exists c, b. split; [done |]. split; [done |]. eapply Seq_impl; [done |].
  intros x l' Hx Hr Hl. apply HR; [done.. |]. rewrite length_app. lia.
Qed.
Lemma Counted_elem {A} e (R : A → bytes → Prop) xs l x : Counted e R xs l → x ∈ xs → ∃ l', R x l' ∧ (length l' ≤ length l)%nat.
Proof. intros (c & b & -> & _ & Hs) (l' & ? & ?)%(Seq_elem _ _ _ _ Hs). exists l'. rewrite length_app. split; [done | lia]. Qed.
Lemma header_long e base dims s h : Header e base dims s h → (0 < length h)%nat.
Proof. intros (w & hs & le & lw & ls & -> & -> & _). cbn. lia. Qed.

(** No MULTILINESTRING and no MULTIPOLYGON, at any depth. *)
Fixpoint plain (g : WkbGeometry) : bool :=
  match g with
  | MultiLineString _ _ | MultiPolygon _ _ => false
  | GeometryCollection _ geometries => forallb plain geometries
  | _ => true
  end.

Lemma geometry_change (fits fits' : WkbDimensions → WkbDimensions → Prop) g s l :
  Geometry fits g s l → (∀ d d', fits d d' → fits' d d') ∨ plain g = true → Geometry fits' g s l.
Proof.
  remember (length l) as n eqn:Hn. assert (length l ≤ n)%nat as Hle by lia. clear Hn. revert g s l Hle.
  induction n as [| n IH]; intros g s l Hle HG Hor; apply geometry_body in HG as (e & base & dims & h & b & Hb & -> & Hh & HB);
    rewrite length_app in Hle; pose proof (header_long _ _ _ _ _ Hh); [lia |].
  apply geometry_body. exists e, base, dims, h, b. do 3 (split; [done |]).
  destruct g; cbn [Body] in HB |- *; destruct HB as (-> & -> & HB); (split; [done |]); (split; [done |]); try done.
  - destruct Hor as [Hmono |]; [| done]. eapply Counted_impl; [done |]. intros x l' _ (d & s' & Hd & Hg) Hl.
    exists d, s'. split; [auto |]. apply IH; [lia | done | by left].
  - destruct Hor as [Hmono |]; [| done]. eapply Counted_impl; [done |]. intros x l' _ (d & s' & Hd & Hg) Hl.
    exists d, s'. split; [auto |]. apply IH; [lia | done | by left].
  - eapply Counted_impl; [done |]. intros x l' Hx (s' & Hg) Hl. exists s'. apply IH; [lia | done |].
    destruct Hor as [| Hp]; [by left | right]. cbn [plain] in Hp. rewrite forallb_forall in Hp. by apply Hp, list_elem_of_In.
Qed.

(** ** The text of what is decoded *)

(** No member of a geometry is empty, rings of polygons included; an empty point
    of a MULTIPOINT is no such member. *)
Definition filled_list {A} (l : list (list A)) : bool := forallb (λ x, negb (bool_decide (length x = 0%nat))) l.
Fixpoint filled (g : WkbGeometry) : bool :=
  match g with
  | Polygon _ rings => filled_list rings
  | MultiLineString _ lines => filled_list lines
  | MultiPolygon _ polygons => filled_list polygons && forallb filled_list polygons
  | GeometryCollection _ geometries => forallb filled geometries
  | _ => true
  end.
Lemma filled_elem {A} (l : list (list A)) x : filled_list l = true → x ∈ l → x ≠ [].
Proof.
  unfold filled_list. rewrite forallb_forall. intros H Hx%list_elem_of_In%H ->. by rewrite bool_decide_eq_true_2 in Hx.
Qed.

Lemma Listed_join {A} sep (R : A → str → Prop) (f : A → str) xs :
  xs ≠ [] → (∀ x, x ∈ xs → R x (f x)) → Listed sep R xs (join sep (f <$> xs)).
Proof.
  induction xs as [| x xs IH]; [done |]. intros _ Hf. destruct xs as [| y xs].
  - constructor. apply Hf. left.
  - change (join sep (f <$> x :: y :: xs)) with (f x ++ sep ++ join sep (f <$> y :: xs)). constructor; [apply Hf; left |].
    apply IH; [done |]. intros z Hz. apply Hf. by right.
Qed.
Lemma Braced_join {A} (R : A → str → Prop) (f : A → str) xs :
  xs ≠ [] → (∀ x, x ∈ xs → R x (f x)) → Braced R xs (in_parens (join (lit ",") (f <$> xs))).
Proof. intros Hx Hf. right. eexists. split; [by apply Listed_join | done]. Qed.
Lemma Tagged_suffix name dims u : (u = lit "EMPTY" ∨ ∃ v, u = in_parens v) →
  Tagged name dims u (lit name ++ suffix dims ++ (if decide (u = lit "EMPTY") then lit " EMPTY" else u)).
Proof.
  intros Hu. unfold Tagged. f_equal. assert (suffix dims = lit (match dims with
    | mkDims false false => "" | mkDims true false => " Z" | mkDims false true => " M" | mkDims true true => " ZM" end)) as -> by (by destruct dims as [[] []]).
  f_equal. destruct Hu as [-> | [v ->]]; [done |]. by rewrite decide_False by done.
Qed.
Lemma tagged_text {A} name dims (R : A → str → Prop) (f : A → str) xs :
  (∀ x, x ∈ xs → R x (f x)) → ∃ u, Braced R xs u ∧ Tagged name dims u (tagged name dims (f <$> xs)).
Proof.
  intros Hf. destruct xs as [| x xs].
  - exists (lit "EMPTY"). split; [by left |]. by apply (Tagged_suffix name dims (lit "EMPTY")); left.
  - exists (in_parens (join (lit ",") (f <$> x :: xs))). split; [by apply Braced_join |].
    pose proof (Tagged_suffix name dims (in_parens (join (lit ",") (f <$> x :: xs)))) as Ht.
    rewrite decide_False in Ht by done. apply Ht. eauto.
Qed.
Lemma coordinate_text e dims c l : Coords e dims c l → Coordinate c (format_wkb_coordinate c).
Proof. intros [Hl _]. apply Listed_join; [| done]. intros ->. by destruct dims as [[] []]. Qed.
Lemma ring_text e dims ring l : Points e dims ring l → ring ≠ [] → LineText ring (ring_wkt ring).
Proof.
  intros Hp Hr. apply Braced_join; [done |]. intros c (l' & Hc & _)%(Counted_elem _ _ _ _ _ Hp). by eapply coordinate_text.
Qed.
Lemma polygon_text e dims rings l :
  Counted e (Points e dims) rings l → filled_list rings = true → rings ≠ [] → PolygonText rings (polygon_wkt rings).
Proof.
  intros Hp Hf Hr. apply Braced_join; [done |]. intros ring Hring. destruct (Counted_elem _ _ _ _ _ Hp Hring) as (l' & Hl & _).
  eapply ring_text; [done |]. by eapply filled_elem.
Qed.
Lemma point_text e dims c l p : Coords e dims c l → PointOf c p → PointText p (multi_point_wkt p).
Proof.
  intros Hc [[_ ->] | [_ ->]]; [by left | right]. exists c, (format_wkb_coordinate c). split; [done |]. split; [by eapply coordinate_text | done].
Qed.

Lemma wkt_of_geometry fits g s l : Geometry fits g s l → filled g = true → Wkt g (to_wkt g).
Proof.
  remember (length l) as n eqn:Hn. assert (length l ≤ n)%nat as Hle by lia. clear Hn. revert g s l Hle.
  induction n as [| n IH]; intros g s l Hle HG Hf; apply geometry_body in HG as (e & base & dims & h & b & Hb & -> & Hh & HB);
    rewrite length_app in Hle; pose proof (header_long _ _ _ _ _ Hh); [lia |].
  destruct g as [d p | d points | d rings | d points | d lines | d polygons | d geometries]; cbn [Body filled] in HB, Hf; destruct HB as (-> & -> & HB).
  - destruct HB as (c & Hc & Hp). pose proof (point_text _ _ _ _ _ Hc Hp) as Ht. econstructor; [exact Ht |].
    destruct p as [c' |]; cbn [to_wkt multi_point_wkt].
    + pose proof (Tagged_suffix "POINT" dims (in_parens (format_wkb_coordinate c'))) as Hs. rewrite decide_False in Hs by done. eauto.
    + apply (Tagged_suffix "POINT" dims (lit "EMPTY")). by left.
  - destruct (tagged_text "LINESTRING" dims Coordinate format_wkb_coordinate points) as (u & Hu & Ht); [| by econstructor].
    intros c (l' & Hc & _)%(Counted_elem _ _ _ _ _ HB). by eapply coordinate_text.
  - destruct (tagged_text "POLYGON" dims LineText ring_wkt rings) as (u & Hu & Ht); [| by econstructor].
    intros ring Hr. destruct (Counted_elem _ _ _ _ _ HB Hr) as (l' & Hl & _). eapply ring_text; [done |]. by eapply filled_elem.
  - destruct (tagged_text "MULTIPOINT" dims PointText multi_point_wkt points) as (u & Hu & Ht); [| by econstructor].
    intros p (l' & (e' & s' & c & h' & b' & -> & _ & Hc & Hp) & _)%(Counted_elem _ _ _ _ _ HB). by eapply point_text.
  - destruct (tagged_text "MULTILINESTRING" dims LineText ring_wkt lines) as (u & Hu & Ht); [| by econstructor].
    intros line Hl. destruct (Counted_elem _ _ _ _ _ HB Hl) as (l' & (d' & s' & _ & Hg) & _).
    apply geometry_body in Hg as (e' & ? & dims' & h' & b' & _ & _ & _ & _ & _ & Hpts). eapply ring_text; [done |]. by eapply filled_elem.
  - apply andb_true_iff in Hf as [Hf1 Hf2].
    destruct (tagged_text "MULTIPOLYGON" dims PolygonText polygon_wkt polygons) as (u & Hu & Ht); [| by econstructor].
    intros polygon Hp. destruct (Counted_elem _ _ _ _ _ HB Hp) as (l' & (d' & s' & _ & Hg) & _).
    apply geometry_body in Hg as (e' & ? & dims' & h' & b' & _ & _ & _ & _ & _ & Hr).
    eapply polygon_text; [done | | by eapply filled_elem]. rewrite forallb_forall in Hf2. by apply Hf2, list_elem_of_In.
  - destruct (tagged_text "GEOMETRYCOLLECTION" dims Wkt to_wkt geometries) as (u & Hu & Ht); [| by econstructor].
    intros g Hg. destruct (Counted_elem _ _ _ _ _ HB Hg) as (l' & (s' & Hg') & Hl). eapply (IH g s' l'); [lia | done |].
    rewrite forallb_forall in Hf. by apply Hf, list_elem_of_In.
Qed.

(** ** What the decoder promises *)

(** C24: On strings of bytes: `decode_wkb_geometry` accepts every encoding of a geometry in the WKB
    format (either byte order and either notation of dimensions at every level, SRID or none; the
    members of a MULTIPOINT, MULTILINESTRING or MULTIPOLYGON have its dimensions, those of a
    collection their own), from its first byte to its last, and returns its SRID and, if no member
    is an empty line, ring or polygon, its well-known text, both given by grammars of their own.
    What it accepts is the encoding of such a geometry, except that the members of a MULTILINESTRING
    or MULTIPOLYGON may have other dimensions than it. *)
Theorem decoder_reads_wkb b :
  is_bytes b →
  (∀ g s, WkbFormat g s b → ∃ t, decode_wkb_geometry b = Some (mkDecodedGeometry t s) ∧ (filled g = true → Wkt g t)) ∧
  (∀ d, decode_wkb_geometry b = Some d →
     ∃ g, Geometry any_dims g (srid d) b ∧ (filled g = true → Wkt g (wkt d)) ∧ (plain g = true → WkbFormat g (srid d) b)).
Proof.
  intros Hb. unfold decode_wkb_geometry. split.
  - intros g s HG. exists (to_wkt g). assert (Geometry any_dims g s b) as HL by (eapply geometry_change; [done | by left]).
    rewrite (proj2 (parse_wkb_spec b g s Hb) HL). split; [done |]. by eapply wkt_of_geometry.
  - intros d Hd. destruct (parse_wkb b) as [[g s] |] eqn:E; [| done]. injection Hd as <-. apply parse_wkb_spec in E; [| done].
    exists g. cbn [srid wkt]. split; [done |]. split; [by eapply wkt_of_geometry |]. intros Hp. eapply geometry_change; [done | by right].
Qed.

(** A byte string is the encoding of at most one geometry, and no encoding is
    a proper prefix of another. *)
Lemma geometry_unambiguous g s g' s' l t : is_bytes (l ++ t) → Lax g s l → Lax g' s' (l ++ t) → t = [] ∧ g = g' ∧ s = s'.
Proof.
  intros Hb H H'. set (r := new (l ++ t)).
  assert (ok r) as Hok by (split; [done | cbn; lia]).
  assert (length (rest r) < S (length (l ++ t)))%nat as Hn by (change (rest r) with (l ++ t); lia).
  pose proof (λ a r', parse_fuel_enough (S (length (l ++ t))) r a r' Hok Hn) as Hp.
  assert (parse_wkb_geometry (S (length (l ++ t))) r = (Some (g, s), after r l)) as E1 by (apply Hp; by exists l, t).
  assert (parse_wkb_geometry (S (length (l ++ t))) r = (Some (g', s'), after r (l ++ t))) as E2.
  { apply Hp. exists (l ++ t), []. by rewrite app_nil_r. }
  rewrite E1 in E2. injection E2 as -> -> Hl. rewrite length_app in Hl.
  destruct t; [done | cbn in Hl; lia].
Qed.

(** The fuel of the decoder is no limit: more of it reads the same geometry. *)
Lemma more_fuel_reads_the_same b fuel p r :
  is_bytes b → (length b < fuel)%nat →
  parse_wkb_geometry fuel (new b) = (Some p, r) ↔ parse_wkb_geometry (S (length b)) (new b) = (Some p, r).
Proof.
  intros Hb Hf. assert (ok (new b)) as Hok by (split; [done | cbn; lia]).
  assert (rest (new b) = b) as Hr by done.
  rewrite (parse_fuel_enough fuel (new b) p r Hok) by (rewrite Hr; lia).
  by rewrite (parse_fuel_enough (S (length b)) (new b) p r Hok) by (rewrite Hr; lia).
Qed.

(** The values of the unit tests. *)
Example decode_wkb_geometry_examples :
  decode_wkb_geometry [1; 1; 0; 0; 32; 230; 16; 0; 0; 197; 32; 176; 114; 104; 25; 93; 64; 78; 98; 16; 88; 57; 244; 67; 64] =
    Some (mkDecodedGeometry (lit "POINT(116.397 39.908)") (Some 4326)) ∧
  decode_wkb_geometry [1; 1; 0; 0; 0; 0; 0; 0; 0; 0; 0; 240; 63; 0; 0; 0; 0; 0; 0; 0; 64] =
    Some (mkDecodedGeometry (lit "POINT(1 2)") None) ∧
  decode_wkb_geometry [0; 32; 0; 0; 1; 0; 0; 15; 17; 63; 240; 0; 0; 0; 0; 0; 0; 64; 0; 0; 0; 0; 0; 0; 0] =
    Some (mkDecodedGeometry (lit "POINT(1 2)") (Some 3857)) ∧
  decode_wkb_geometry [1; 1; 0; 0; 32; 0; 0; 0; 0; 0; 0; 0; 0; 0; 0; 240; 63; 0; 0; 0; 0; 0; 0; 0; 64] =
    Some (mkDecodedGeometry (lit "POINT(1 2)") None) ∧
  decode_wkb_geometry [1; 4; 0; 0; 0; 1; 0; 0; 0; 1; 1; 0; 0; 0; 0; 0; 0; 0; 0; 0; 248; 127; 0; 0; 0; 0; 0; 0; 248; 127] =
    Some (mkDecodedGeometry (lit "MULTIPOINT(EMPTY)") None) ∧
  decode_wkb_geometry [1; 4; 0; 0; 0; 1; 0; 0; 0; 1; 1; 0; 0; 0] = None.
Proof. vm_compute. repeat split. Qed.

Lemma decoder_reads_wkb_witness :
  ∃ g, WkbFormat g (Some 3857) [0; 32; 0; 0; 1; 0; 0; 15; 17; 63; 240; 0; 0; 0; 0; 0; 0; 64; 0; 0; 0; 0; 0; 0; 0].
Proof.
  destruct (decoder_reads_wkb [0; 32; 0; 0; 1; 0; 0; 15; 17; 63; 240; 0; 0; 0; 0; 0; 0; 64; 0; 0; 0; 0; 0; 0; 0]) as [_ H];
    [repeat constructor; lia |].
  destruct (H (mkDecodedGeometry (lit "POINT(1 2)") (Some 3857))) as (g & HG & _ & Hp); [vm_compute; reflexivity |].
  exists g. apply Hp. cbn [srid] in HG. apply parse_wkb_spec in HG; [| repeat constructor; lia].
  vm_compute in HG. injection HG as <-. reflexivity.
Defined.

(** The dimensions of a nested line or polygon are not compared with those of
    the collection that holds it, as they are for the points of a MULTIPOINT:
    a line with Z coordinates is shown inside a two-dimensional text. *)
Example nested_dimensions_are_not_checked :
  wkb_to_wkt [1; 5; 0; 0; 0; 1; 0; 0; 0; 1; 234; 3; 0; 0; 1; 0; 0; 0; 0; 0; 0; 0; 0; 0; 240; 63; 0; 0; 0; 0; 0; 0; 0; 64; 0; 0; 0; 0; 0; 0; 8; 64] =
    Some (lit "MULTILINESTRING((1 2 3))").
Proof. vm_compute. reflexivity. Qed.

(** An empty line of a MULTILINESTRING is shown as [()], where an empty point of
    a MULTIPOINT is EMPTY: that is no well-known text. *)
Example empty_members_are_not_named :
  wkb_to_wkt [1; 5; 0; 0; 0; 1; 0; 0; 0; 1; 2; 0; 0; 0; 0; 0; 0; 0] = Some (lit "MULTILINESTRING(())") ∧
  WkbFormat (MultiLineString (mkDims false false) [[]]) None [1; 5; 0; 0; 0; 1; 0; 0; 0; 1; 2; 0; 0; 0; 0; 0; 0; 0].
Proof.
  split; [vm_compute; reflexivity |].
  assert (∀ k, 1 ≤ k ≤ 7 → Header Little k (mkDims false false) None ([1] ++ to_bytes Little 4 k ++ [])) as Hh.
  { intros k Hk. exists k, false, [1], (to_bytes Little 4 k), []. split_and!; try done; [split; [cbn; lia | done] |].
    exists false, false, 0. split_and!; [lia | cbn [N.b2n]; lia | done]. }
  change ([1; 5; 0; 0; 0; 1; 0; 0; 0; 1; 2; 0; 0; 0; 0; 0; 0; 0] : bytes) with
    (([1] ++ to_bytes Little 4 5 ++ []) ++ (to_bytes Little 4 1 ++ (([1] ++ to_bytes Little 4 2 ++ []) ++ (to_bytes Little 4 0 ++ [])) ++ [])).
  eapply G_MultiLineString; [apply Hh; lia |]. eexists (to_bytes Little 4 1), _. split; [done |]. split; [done |].
  constructor; [| constructor]. exists (mkDims false false), None. split; [done |].
  eapply G_LineString; [apply Hh; lia |]. eexists (to_bytes Little 4 0), _. split; [done |]. split; [done |]. constructor.
Qed.
