(* ===== verification/QueryGuard.v ===== *)
(** * Guarding execution: read-only mode and EXPLAIN (query_execution_sql.rs)

    The lexical classifiers that decide whether a statement may run on a
    read-only connection, whether a plan may be asked for it, and whether an
    Oracle statement is proven to be a plain read.  The scanners
    [strip_sql_comments_and_literals_with_metadata] and [strip_sql_comments] are
    [scan]s over the characters with the mode they are in (the five booleans of
    the source, of which at most one is set); statements are split by the
    functions of SqlFile.v, with the tokenizer of [sqlparser] as a parameter.

    [Lexeme] is the reference: a statement is a sequence of plain text,
    comments and quoted texts, of which only the plain text counts. *)
From S2P Require Import Prelude SqlDialect SqlSplitter SqlFile Identifiers.
Local Open Scope dbx_scope.

(** ** Words *)
Definition is_identifier_byte (c : option char) : bool :=
  match c with Some b => is_ascii_alphanumeric b || bool_decide (b = chr "_") | None => false end.

Fixpoint word_from (before : option char) (word s : str) : bool :=
  match strip_prefix word s with
  | Some rest => negb (is_identifier_byte before) && negb (is_identifier_byte (head rest))
  | None => false
  end || match s with [] => false | c :: s' => word_from (Some c) word s' end.
Definition contains_word (source word : str) : bool :=
  match word with [] => false | _ => word_from None word source end.

Definition starts_with_keyword (upper keyword : str) : bool :=
  match strip_prefix keyword upper with
  | Some [] => true
  | Some (c :: _) => negb (is_ascii_alphanumeric c)
  | None => false
  end.

(** [sql.split(|ch| !ch.is_ascii_alphanumeric() && ch != '_').filter(non-empty)] *)
Fixpoint ident_words (w s : str) : list str :=
  match s with
  | [] => match w with [] => [] | _ => [w] end
  | c :: r =>
      if is_identifier_byte (Some c) then ident_words (w ++ [c]) r
      else match w with [] => ident_words [] r | _ => w :: ident_words [] r end
  end.

Fixpoint adjacent_words (first second : str) (previous : bool) (l : list str) : bool :=
  match l with
  | [] => false
  | w :: r => (previous && eq_ignore_ascii_case w second) || adjacent_words first second (eq_ignore_ascii_case w first) r
  end.
Definition contains_keyword_sequence (sql first second : str) : bool :=
  adjacent_words first second false (ident_words [] sql).

(** ** Scanners *)
Inductive Lex := Code | InLine | InBlock | InQuote (q : char).

Definition SLASH : char := chr "/".
Definition STAR : char := chr "*".
Definition DASH : char := chr "-".
Definition is_quote (c : char) : bool := bool_decide (c = SQUOTE ∨ c = DQUOTE ∨ c = BACKTICK).

(** Past the end of a line comment, a block comment or a quoted text. *)
Definition comment_step (st : Lex) (ch : char) (rest : str) : Lex * str * nat :=
  match st with
  | InLine => if decide (ch = NL) then (Code, [SPACE], 0) else (InLine, [], 0)
  | _ => if decide (ch = STAR ∧ head rest = Some SLASH) then (Code, [SPACE], 1) else (InBlock, [], 0)
  end.
Definition quote_step (q ch : char) (rest : str) : Lex * str * nat :=
  if decide (ch = q) then
    if decide (head rest = Some q) then (InQuote q, [SPACE], 1) else (Code, [SPACE], 0)
  else (InQuote q, [SPACE], 0).

Definition is_mysql_executable_comment_start (rest : str) : bool :=
  match rest with
  | c :: r => bool_decide (c = chr "!") || (bool_decide (c = chr "M") && bool_decide (head r = Some (chr "!")))
  | [] => false
  end.

Definition literals_step (detect : bool) (st : Lex * bool) (ch : char) (rest : str) : Lex * bool * str * nat :=
  let '(lex, flag) := st in
  let keep '(lex', out, k) := (lex', flag, out, k) in
  match lex with
  | InLine | InBlock => keep (comment_step lex ch rest)
  | InQuote q => keep (quote_step q ch rest)
  | Code =>
      if decide (ch = DASH ∧ head rest = Some DASH) then (InLine, flag, [], 1)
      else if decide (ch = chr "#") then (InLine, flag, [], 0)
      else if decide (ch = SLASH ∧ head rest = Some STAR) then
        (InBlock, flag || (detect && is_mysql_executable_comment_start (tail rest)), [], 1)
      else if is_quote ch then (InQuote ch, flag, [SPACE], 0)
      else (Code, flag, [ch], 0)
  end.

Definition strip_sql_comments_and_literals_with_metadata (sql : str) (detect : bool) : str * bool :=
  let '(_, flag, out) := scan (literals_step detect) 0 (Code, false) sql in (out, flag).
Definition strip_sql_comments_and_literals (sql : str) : str :=
  (strip_sql_comments_and_literals_with_metadata sql false).1.

(** The body of an executable comment and the number of characters read. *)
Fixpoint executable_body (skipping : bool) (s : str) : str * nat :=
  match s with
  | [] => ([], 0)
  | c :: r =>
      if decide (c = STAR ∧ head r = Some SLASH) then ([], 2)
      else if skipping && (is_ascii_digit c || is_whitespace c) then
        let '(b, n) := executable_body true r in (b, S n)
      else let '(b, n) := executable_body false r in (c :: b, S n)
  end.
Definition read_mysql_executable_comment_body (s : str) : option str * nat :=
  match s with
  | c :: r =>
      if decide (c = chr "!") then let '(b, n) := executable_body true r in (Some b, S n)
      else if decide (c = chr "M") then
        match r with
        | c' :: r' => if decide (c' = chr "!") then let '(b, n) := executable_body true r' in (Some b, S (S n)) else (None, 1)
        | [] => (None, 1)
        end
      else (None, 0)
  | [] => (None, 0)
  end.

(** [strip_sql_comments] calls itself on the body of an executable comment,
    which is shorter than the text: [fuel] bounds that nesting. *)
Definition comments_step (strip : str → str) (st : Lex) (ch : char) (rest : str) : Lex * str * nat :=
  match st with
  | InLine | InBlock => comment_step st ch rest
  | _ =>
      if decide (ch = DASH ∧ head rest = Some DASH) then (InLine, [], 1)
      else if decide (ch = chr "#") then (InLine, [], 0)
      else if decide (ch = SLASH ∧ head rest = Some STAR) then
        match read_mysql_executable_comment_body (tail rest) with
        | (Some body, n) => (Code, SPACE :: strip body ++ [SPACE], S n)
        | (None, n) => (InBlock, [], S n)
        end
      else (Code, [ch], 0)
  end.

Fixpoint strip_comments_fuel (fuel : nat) (sql : str) : str :=
  match fuel with
  | O => []
  | S fuel' => (scan (comments_step (strip_comments_fuel fuel')) 0 Code sql).2
  end.
Definition strip_sql_comments (sql : str) : str := strip_comments_fuel (S (length sql)) sql.

(** ** Keywords *)
Definition DANGEROUS_KEYWORDS : list str :=
  [lit "drop"; lit "delete"; lit "truncate"; lit "alter"; lit "update"; lit "merge"; lit "replace"; lit "insert"; lit "create"].
Definition READ_SQL_KEYWORDS : list str :=
  [lit "SELECT"; lit "WITH"; lit "SHOW"; lit "DESCRIBE"; lit "DESC"; lit "EXPLAIN"; lit "FROM"].
Definition SAFE_READ_PRAGMA_NAMES : list str :=
  [lit "TABLE_INFO"; lit "TABLE_XINFO"; lit "INDEX_LIST"; lit "INDEX_INFO"; lit "FOREIGN_KEY_LIST";
   lit "DATABASE_LIST"; lit "COMPILE_OPTIONS"; lit "DATA_VERSION"].
Definition FORBIDDEN_WORDS : list str :=
  lit <$> ["for"; "update"; "lock"; "begin"; "commit"; "rollback"; "savepoint"; "create"; "alter"; "drop"; "truncate";
    "rename"; "grant"; "revoke"; "comment"; "purge"; "audit"; "noaudit"; "analyze"; "flashback"; "merge"; "insert";
    "delete"; "union"; "minus"; "intersect"; "call"; "exec"; "execute"; "declare"; "nextval"; "currval"; "into"]%string.

Definition starts_with_show_create (upper : str) : bool :=
  match strip_prefix (lit "SHOW") upper with
  | None => false
  | Some after_show =>
      match after_show with
      | c :: _ => if is_ascii_alphanumeric c then false else starts_with_keyword (trim_start after_show) (lit "CREATE")
      | [] => starts_with_keyword (trim_start after_show) (lit "CREATE")
      end
  end.

(** The words at depth zero, in order; [chain(once(' '))] ends the last one. *)
Fixpoint into_from (token : str) (depth : nat) (saw_select : bool) (s : str) : bool :=
  match s with
  | [] => false
  | ch :: r =>
      if is_identifier_byte (Some ch) then into_from (token ++ [ch]) depth saw_select r
      else
        let depth' := if decide (ch = chr "(") then S depth else if decide (ch = chr ")") then pred depth else depth in
        let top := negb (bool_decide (token = [])) && bool_decide (depth = 0) in
        if top && negb (bool_decide (token = lit "SELECT")) && saw_select && bool_decide (token = lit "INTO") then true
        else into_from [] depth' (saw_select || (top && bool_decide (token = lit "SELECT"))) r
  end.
Definition select_contains_top_level_into (upper : str) : bool := into_from [] 0 false (upper ++ [SPACE]).

Definition is_safe_read_pragma (upper_stripped : str) : bool :=
  let rest := trim_start (default [] (strip_prefix (lit "PRAGMA") upper_stripped)) in
  let pragma_name := take_while (λ c, is_identifier_byte (Some c)) rest in
  if decide (rest = []) then false
  else if negb (bool_decide (pragma_name ∈ SAFE_READ_PRAGMA_NAMES)) then false
  else match trim_start (drop (length pragma_name) rest) with
       | [] => true
       | c :: _ => bool_decide (c = chr "(")
       end.

(** [trim_end_matches(c)] *)
Definition trim_end_matches (c : char) (s : str) : str := reverse (drop_while (λ x, bool_decide (x = c)) (reverse s)).
Definition strip_trailing_semicolons (sql : str) : str := trim_end (trim_end_matches (chr ";") (trim_end sql)).

Definition has_extra_statement_after_semicolon (sql : str) : bool :=
  existsb (λ part, negb (bool_decide (trim part = []))) (drop 1 (split_char (chr ";") (strip_sql_comments_and_literals sql))).

Section guard.
Context `{Unicode}.

Definition contains_dangerous_sql_keyword (sql : str) : bool :=
  let source := to_lowercase (strip_sql_comments_and_literals sql) in
  existsb (contains_word source) DANGEROUS_KEYWORDS.

(** ** One statement *)
Definition starts_with_read (upper : str) (allow_mysql_checksum : bool) : bool :=
  existsb (starts_with_keyword upper) READ_SQL_KEYWORDS ||
  (allow_mysql_checksum && starts_with_keyword upper (lit "CHECKSUM TABLE")).

Definition is_write_sql_statement (sql : str) (detect_mysql_executable_comments detect_select_into
    allow_mysql_checksum : bool) : bool :=
  let '(cleaned, has_mysql_executable_comment) :=
    strip_sql_comments_and_literals_with_metadata sql detect_mysql_executable_comments in
  if has_mysql_executable_comment then true
  else
    let trimmed := trim_start cleaned in
    if decide (trimmed = []) then false
    else
      let upper := to_uppercase trimmed in
      let starts_with_read := starts_with_read upper allow_mysql_checksum in
      if negb starts_with_read && starts_with_keyword upper (lit "PRAGMA") then negb (is_safe_read_pragma upper)
      else if starts_with_show_create upper then false
      else if detect_select_into && starts_with_keyword upper (lit "SELECT") && select_contains_top_level_into upper
      then true
      else negb starts_with_read || contains_dangerous_sql_keyword sql.

Definition is_oracle_proven_read_only_statement (sql : str) : bool :=
  let cleaned := strip_sql_comments_and_literals sql in
  let trimmed := trim_start cleaned in
  if decide (trimmed = []) then false
  else if negb (starts_with_keyword (to_uppercase trimmed) (lit "SELECT")) then false
  else
    let lower := to_lowercase cleaned in
    if bool_decide (chr "(" ∈ (lower : list N)) then false
    else if bool_decide (chr "@" ∈ (lower : list N)) then false
    else negb (existsb (contains_word lower) FORBIDDEN_WORDS).

(** ** Search engines and DynamoDB *)
Definition classify_dynamodb_statement_write (source : str) : option bool :=
  line ← head (filter (λ line : str, trim line ≠ []) (lines source));
  let header := to_ascii_uppercase (trim line) in
  if bool_decide (header ∈ [lit "DBX DYNAMODB SCAN"; lit "DBX DYNAMODB QUERY / SCAN"]) then Some false
  else if bool_decide (header ∈ [lit "DBX DYNAMODB INSERT ITEM"; lit "DBX DYNAMODB PUT ITEM"; lit "DBX DYNAMODB DELETE ITEM"])
  then Some true
  else if starts_with (lit "DBX DYNAMODB") header then Some true else None.

Inductive SearchEngineQueryRisk := ReadOnly | Write | Dangerous.

Fixpoint strip_engine_comments (fuel : nat) (input : str) : str :=
  match fuel with
  | O => []
  | S fuel' =>
      let rest := trim_start input in
      match (match strip_prefix (lit "#") rest with Some c => Some c | None => strip_prefix (lit "//") rest end) with
      | Some comment => strip_engine_comments fuel' (match split_once [NL] comment with Some (_, r) => r | None => [] end)
      | None =>
          match strip_prefix (lit "/*") rest with
          | Some comment => strip_engine_comments fuel' (match split_once (lit "*/") comment with Some (_, r) => r | None => [] end)
          | None => trim rest
          end
      end
  end.
Definition strip_leading_search_engine_comments (input : str) : str := strip_engine_comments (S (length input)) input.

Definition READ_ENDPOINTS : list str :=
  lit <$> ["_search"; "_count"; "_sql"; "_msearch"; "_field_caps"; "_terms_enum"; "_validate"; "_explain";
    "_rank_eval"; "_search_shards"]%string.
Definition WRITE_ENDPOINTS : list str := lit <$> ["_doc"; "_create"; "_update"; "_bulk"]%string.

Definition path_segments (path : str) : list str :=
  filter (λ s : str, s ≠ []) (split_char SLASH (trim_end_matches SLASH (default path (head (split_char (chr "?") path))))).
Definition has_segment (segments : list str) (candidate : str) : bool := existsb (λ s, eq_ignore_ascii_case s candidate) segments.
Fixpoint has_document_id (segments : list str) (candidate : str) : bool :=
  match segments with
  | [] => false
  | s :: r => if eq_ignore_ascii_case s candidate then match r with v :: _ => negb (bool_decide (v = [])) | [] => false end
              else has_document_id r candidate
  end.

Definition classify_request (method : str) (segments : list str) : option SearchEngineQueryRisk :=
  if bool_decide (method ∈ [lit "GET"; lit "HEAD"; lit "OPTIONS"]) then Some ReadOnly
  else if bool_decide (method = lit "POST") && existsb (has_segment segments) READ_ENDPOINTS then Some ReadOnly
  else if bool_decide (method = lit "POST") && existsb (has_segment segments) WRITE_ENDPOINTS then Some Write
  else if bool_decide (method = lit "PUT") && (has_document_id segments (lit "_doc") || has_document_id segments (lit "_create"))
  then Some Write
  else if bool_decide (method = lit "DELETE") && has_document_id segments (lit "_doc") then Some Write
  else if bool_decide (method ∈ [lit "POST"; lit "PUT"; lit "PATCH"; lit "DELETE"]) then Some Dangerous
  else None.

Definition is_search_engine (d : DatabaseType.t) : bool :=
  match d with DatabaseType.Elasticsearch | DatabaseType.Easysearch => true | _ => false end.

Definition classify_search_engine_query_risk (source : str) (d : DatabaseType.t) : option SearchEngineQueryRisk :=
  if negb (is_search_engine d) then None
  else
    request_line ← head (lines (strip_leading_search_engine_comments source));
    match split_whitespace (trim request_line) with
    | method :: path :: _ => classify_request (to_ascii_uppercase method) (path_segments path)
    | _ => None
    end.
End guard.

(** ** Statements of a database

    [Tokenizer::new(dialect, sql).tokenize()] of [sqlparser], reduced to what is
    asked of it: the values of the words without quotes, [None] on an error. *)
Inductive TokenDialect := PostgreSqlDialect | MsSqlDialect.
Class WordTokenizer := unquoted_words : TokenDialect → str → option (list str).

Definition contains_unquoted_keyword `{WordTokenizer} (sql : str) (dialect : TokenDialect) (keyword : str) : bool :=
  match unquoted_words dialect sql with
  | Some ws => existsb (λ w, eq_ignore_ascii_case w keyword) ws
  | None => false
  end.

Definition is_postgresql_family_database (d : DatabaseType.t) : bool :=
  match d with
  | DatabaseType.Postgres | DatabaseType.Redshift | DatabaseType.Gaussdb | DatabaseType.OpenGauss
  | DatabaseType.Kingbase | DatabaseType.Highgo | DatabaseType.Uxdb | DatabaseType.Vastbase | DatabaseType.Kwdb => true
  | _ => false
  end.
(** The second definition of the set, in this file of the source. *)
Definition is_mysql_compatible_database (d : DatabaseType.t) : bool :=
  match d with
  | DatabaseType.Mysql | DatabaseType.Doris | DatabaseType.StarRocks | DatabaseType.ManticoreSearch
  | DatabaseType.Goldendb => true
  | _ => false
  end.

Definition has_dialect_specific_write_statement `{WordTokenizer} (sql : str) (d : DatabaseType.t) : bool :=
  if is_mysql_compatible_database d then
    let '(cleaned, has_executable_comment) := strip_sql_comments_and_literals_with_metadata sql true in
    has_executable_comment || contains_keyword_sequence cleaned (lit "INTO") (lit "OUTFILE") ||
    contains_keyword_sequence cleaned (lit "INTO") (lit "DUMPFILE")
  else if is_postgresql_family_database d then contains_unquoted_keyword sql PostgreSqlDialect (lit "INTO")
  else match d with
       | DatabaseType.SqlServer => contains_unquoted_keyword sql MsSqlDialect (lit "INTO")
       | _ => false
       end.

Definition is_sqlserver_plan_capture_set (sql : str) : bool :=
  let tokens := (λ part, to_ascii_uppercase (trim_end_matches (chr ";") part)) <$> split_whitespace (strip_sql_comments sql) in
  match tokens with
  | [a; b; c] => bool_decide (a = lit "SET" ∧ b = lit "SHOWPLAN_XML" ∧ (c = lit "ON" ∨ c = lit "OFF"))
  | [a; b; c; d] => bool_decide (a = lit "SET" ∧ b = lit "STATISTICS" ∧ c = lit "XML" ∧ (d = lit "ON" ∨ d = lit "OFF"))
  | _ => false
  end.

Section database.
Context `{Unicode, OracleTokenizer, WordTokenizer}.

Definition has_dialect_specific_write (sql : str) (d : DatabaseType.t) : bool :=
  existsb (λ st, has_dialect_specific_write_statement st d) (split_sql_statements_for_database sql d).

Definition is_write_sql_with_database_type (sql : str) (database_type : option DatabaseType.t) : bool :=
  if bool_decide (database_type = Some DatabaseType.SqlServer) && is_sqlserver_plan_capture_set sql then false
  else if match database_type with Some d => has_dialect_specific_write sql d | None => false end then true
  else
    let untyped := bool_decide (database_type = None) in
    let statements := match database_type with
                      | Some d => split_sql_statements_for_database sql d
                      | None => split_sql_statements sql
                      end in
    existsb (λ st, is_write_sql_statement st untyped untyped (bool_decide (database_type = Some DatabaseType.Mysql))) statements.

Definition is_write_sql (sql : str) : bool := is_write_sql_with_database_type sql None.

Definition is_write_sql_for_database (sql : str) (d : DatabaseType.t) : bool :=
  if decide (d = DatabaseType.VictoriaMetrics) then false
  else match (if decide (d = DatabaseType.DynamoDb) then classify_dynamodb_statement_write sql else None) with
       | Some is_write => is_write
       | None =>
           match classify_search_engine_query_risk sql d with
           | Some ReadOnly => false
           | Some _ => true
           | None => is_write_sql_with_database_type sql (Some d)
           end
       end.

Definition read_only_message (connection_name : str) : str :=
  lit "Read-only mode: connection '" ++ connection_name ++
  lit "' has read-only protection enabled. Write operation (including stored procedure calls) blocked.".
Definition check_read_only (sql connection_name : str) (d : DatabaseType.t) : result unit str :=
  if is_write_sql_for_database sql d then Err (read_only_message connection_name) else Ok tt.

(** ** EXPLAIN *)
Definition is_safe_explain_source (sql : str) : bool :=
  let source := to_lowercase (trim_start (strip_sql_comments sql)) in
  existsb (λ kw, bool_decide (source = kw) || starts_with (kw ++ [SPACE]) source || starts_with (kw ++ [NL]) source)
    [lit "select"; lit "with"; lit "table"; lit "values"].

Definition is_safe_oracle_explain_dml_source (sql : str) : bool :=
  let source := to_ascii_uppercase (trim_start (strip_sql_comments_and_literals sql)) in
  existsb (starts_with_keyword source) [lit "INSERT"; lit "UPDATE"; lit "DELETE"; lit "MERGE"].

Definition is_safe_explain_sql_for_database (sql : str) (database_type : option DatabaseType.t) : bool :=
  let source := strip_trailing_semicolons (trim sql) in
  if decide (source = []) then false
  else if has_extra_statement_after_semicolon source then false
  else if bool_decide (database_type = Some DatabaseType.Oracle) && is_safe_oracle_explain_dml_source source then true
  else is_safe_explain_source source && negb (contains_dangerous_sql_keyword source).
Definition is_safe_explain_sql (sql : str) : bool := is_safe_explain_sql_for_database sql None.

Definition is_safe_dameng_autotrace_sql (sql : str) : bool :=
  let source := strip_trailing_semicolons (trim sql) in
  if decide (source = []) then false
  else if has_extra_statement_after_semicolon source then false
  else is_safe_explain_source source && negb (contains_dangerous_sql_keyword source).

Definition supports_sql_query (d : DatabaseType.t) : bool :=
  match d with
  | DatabaseType.Redis | DatabaseType.MongoDb | DatabaseType.Elasticsearch | DatabaseType.Easysearch
  | DatabaseType.Qdrant | DatabaseType.Milvus | DatabaseType.Weaviate | DatabaseType.ChromaDb
  | DatabaseType.InfluxDb | DatabaseType.InfluxDb3 | DatabaseType.VictoriaMetrics | DatabaseType.Neo4j
  | DatabaseType.Etcd => false
  | _ => true
  end.

Definition supports_explain_plan (database_type : option DatabaseType.t) : bool :=
  match database_type with
  | Some (DatabaseType.Mysql | DatabaseType.Postgres | DatabaseType.Questdb | DatabaseType.Dameng
         | DatabaseType.Oracle | DatabaseType.SqlServer) => true
  | _ => false
  end.

Inductive ExplainFormat := FormatJson | FormatStandard.
Record ExplainSqlOptions := mkExplain {
  ex_database_type : option DatabaseType.t; ex_format : option ExplainFormat; ex_analyze : option bool; ex_sql : str }.
Record ExplainSqlBuildResult := mkExplained { ex_ok : bool; explained : option str; reason : option str }.
Definition explain_err (r : str) : ExplainSqlBuildResult := mkExplained false None (Some r).

Definition is_analyze (o : ExplainSqlOptions) : bool :=
  match ex_analyze o with Some true => true | _ => false end.

(** The dialect's wrapper around the statement. *)
Definition explain_text (o : ExplainSqlOptions) (source : str) : str :=
  match ex_database_type o with
  | Some DatabaseType.Postgres =>
      if is_analyze o then lit "EXPLAIN (ANALYZE, FORMAT JSON) " ++ source else lit "EXPLAIN (FORMAT JSON) " ++ source
  | Some DatabaseType.MongoDb => lit "EXPLAIN (FORMAT JSON) " ++ source
  | Some DatabaseType.Dameng | Some DatabaseType.Questdb => lit "EXPLAIN " ++ source
  | Some DatabaseType.Oracle => lit "EXPLAIN PLAN FOR " ++ source
  | Some DatabaseType.SqlServer =>
      let kind := if is_analyze o then lit "STATISTICS XML" else lit "SHOWPLAN_XML" in
      lit "SET " ++ kind ++ lit " ON;" ++ [NL] ++ lit "GO" ++ [NL] ++ source ++ [NL] ++ lit "GO" ++ [NL] ++
      lit "SET " ++ kind ++ lit " OFF;"
  | Some DatabaseType.Mysql =>
      match ex_format o with
      | Some FormatStandard => lit "EXPLAIN FORMAT=TRADITIONAL " ++ source
      | _ => lit "EXPLAIN FORMAT=JSON " ++ source
      end
  | _ => lit "EXPLAIN FORMAT=JSON " ++ source
  end.

Definition runs_under_analyze (d : DatabaseType.t) : bool :=
  match d with DatabaseType.Postgres | DatabaseType.SqlServer => true | _ => false end.

Definition build_explain_sql (o : ExplainSqlOptions) : ExplainSqlBuildResult :=
  if negb (supports_explain_plan (ex_database_type o)) then explain_err (lit "unsupported")
  else
    let source := strip_trailing_semicolons (trim (ex_sql o)) in
    if decide (source = []) then explain_err (lit "empty")
    else if negb (is_safe_explain_sql_for_database source (ex_database_type o)) then explain_err (lit "unsafe")
    else if is_analyze o && match ex_database_type o with
                            | Some d => runs_under_analyze d && is_write_sql_for_database source d
                            | None => false
                            end then explain_err (lit "unsafe")
    else if bool_decide (ex_database_type o = Some DatabaseType.SqlServer) &&
            negb (bool_decide (length (split_sql_batches source) = 1)) then explain_err (lit "unsafe")
    else mkExplained true (Some (explain_text o source)) None.

(** ** Dropped files *)
Definition build_dropped_file_preview_sql (path : str) (limit : option N) : option str :=
  let lower := to_lowercase path in
  let escaped := replace_str [SQUOTE] [SQUOTE; SQUOTE] path in
  let limit := show_N (N.max (default 1000%N limit) 1) in
  let read (f options : str) :=
    Some (lit "SELECT * FROM " ++ f ++ lit "('" ++ escaped ++ lit "'" ++ options ++ lit ") LIMIT " ++ limit) in
  if ends_with (lit ".parquet") lower then read (lit "read_parquet") []
  else if ends_with (lit ".csv") lower then read (lit "read_csv") []
  else if ends_with (lit ".tsv") lower then read (lit "read_csv") (lit ", delim='\t'")
  else if ends_with (lit ".json") lower then read (lit "read_json") []
  else None.
End database.

(** ** The reference lexer

    A statement as a sequence of plain text, comments and quoted texts; a
    comment or quoted text that is not closed runs to the end. *)
Inductive Lexeme :=
| Text (s : str)
| Line (hash : bool) (body : str) (closed : bool)
| Block (body : str) (closed : bool)
| Quoted (q : char) (body : str) (closed : bool).

Definition double (q c : char) : str := if decide (c = q) then [q; q] else [c].

Definition render1 (x : Lexeme) : str :=
  match x with
  | Text s => s
  | Line h b c => (if h then [chr "#"] else [DASH; DASH]) ++ b ++ (if c then [NL] else [])
  | Block b c => [SLASH; STAR] ++ b ++ (if c then [STAR; SLASH] else [])
  | Quoted q b c => q :: concat (double q <$> b) ++ (if c then [q] else [])
  end.
Definition render (xs : list Lexeme) : str := concat (render1 <$> xs).

(** What counts: the plain text, with a blank for a closed comment and as many
    blanks for a quoted text as it has characters and quotes. *)
Definition erase1 (x : Lexeme) : str :=
  match x with
  | Text s => s
  | Line _ _ c | Block _ c => if c then [SPACE] else []
  | Quoted _ b c => replicate (1 + length b + Nat.b2n c) SPACE
  end.
Definition visible (xs : list Lexeme) : str := concat (erase1 <$> xs).
Definition executable1 (x : Lexeme) : bool :=
  match x with Block b _ => is_mysql_executable_comment_start b | _ => false end.
Definition executable (xs : list Lexeme) : bool := existsb executable1 xs.

(** Plain text opens neither a comment nor a quoted text, also with [next] after it. *)
Fixpoint plain (s next : str) : Prop :=
  match s with
  | [] => True
  | c :: r =>
      c ≠ chr "#" ∧ is_quote c = false ∧ ¬ (c = DASH ∧ head (r ++ next) = Some DASH) ∧
      ¬ (c = SLASH ∧ head (r ++ next) = Some STAR) ∧ plain r next
  end.
Fixpoint no_close (s : str) : Prop :=
  match s with [] => True | c :: r => ¬ (c = STAR ∧ head r = Some SLASH) ∧ no_close r end.

Fixpoint well_formed (xs : list Lexeme) : Prop :=
  match xs with
  | [] => True
  | x :: r =>
      match x with
      | Text s => plain s (render r)
      | Line _ b c => (NL ∉ (b : list N)) ∧ (c = false → r = [])
      | Block b c => no_close b ∧ (c = false → r = [])
      | Quoted q b c => is_quote q = true ∧ (if c then head (render r) ≠ Some q else r = [])
      end ∧ well_formed r
  end.

Section lexer.
Context (detect : bool).
Abbreviation run := (scan (literals_step detect) 0).

(** What a scan of the text does, ahead of [r]. *)
Definition passes (s : str) (f : bool) (out : str) (r : str) (st : Lex) (st' : Lex) (f' : bool) : Prop :=
  run (st, f) (s ++ r) = (let '(x, o) := run (st', f') r in (x, out ++ o)).

Lemma passes_nil f r st : passes [] f [] r st st f.
Proof. unfold passes. cbn. by destruct (run (st, f) r). Qed.

Lemma passes_step c s f out r st st1 f1 out1 st' f' :
  literals_step detect (st, f) c (s ++ r) = (st1, f1, out1, 0) → passes s f1 out r st1 st' f' →
  passes (c :: s) f (out1 ++ out) r st st' f'.
Proof.
  intros E H. unfold passes in *. cbn [app scan]. rewrite E. cbn. rewrite H.
  destruct (run (st', f') r). by rewrite <- app_assoc.
Qed.

Lemma passes_skip c c' s f out r st st1 f1 out1 st' f' :
  literals_step detect (st, f) c (c' :: s ++ r) = (st1, f1, out1, 1) → passes s f1 out r st1 st' f' →
  passes (c :: c' :: s) f (out1 ++ out) r st st' f'.
Proof.
  intros E H. unfold passes in *. cbn [app scan]. rewrite E. cbn. rewrite H.
  destruct (run (st', f') r). by rewrite <- app_assoc.
Qed.

Lemma passes_one c f out r st st' f' :
  literals_step detect (st, f) c r = (st', f', out, 0) → passes [c] f out r st st' f'.
Proof. intros E. rewrite <- (app_nil_r out). eapply passes_step; [exact E | apply passes_nil]. Qed.

Lemma passes_two c c' f out r st st' f' :
  literals_step detect (st, f) c (c' :: r) = (st', f', out, 1) → passes [c; c'] f out r st st' f'.
Proof. intros E. rewrite <- (app_nil_r out). eapply passes_skip; [exact E | apply passes_nil]. Qed.

Lemma passes_text s f r : plain s r → passes s f s r Code Code f.
Proof.
  induction s as [| c s IH]; [intros; apply passes_nil |]. intros (Hh & Hq & Hd & Hs & Hp).
  change (passes (c :: s) f ([c] ++ s) r Code Code f). eapply passes_step; [| by apply IH].
  cbn. rewrite (decide_False (P := _ ∧ _)), decide_False, (decide_False (P := _ ∧ _)), Hq by done. done.
Qed.

Lemma passes_trans s1 s2 f o1 o2 r st st1 f1 st2 f2 :
  passes s1 f o1 (s2 ++ r) st st1 f1 → passes s2 f1 o2 r st1 st2 f2 → passes (s1 ++ s2) f (o1 ++ o2) r st st2 f2.
Proof.
  unfold passes. intros H1 H2. rewrite <- app_assoc, H1, H2. destruct (run (st2, f2) r). by rewrite app_assoc.
Qed.

Lemma passes_line b f r : NL ∉ (b : list N) → passes b f [] r InLine InLine f.
Proof.
  induction b as [| c b IH]; [intros; apply passes_nil |]. rewrite not_elem_of_cons. intros [Hc Hb].
  change (passes (c :: b) f ([] ++ []) r InLine InLine f). eapply passes_step; [| by apply IH].
  cbn. by rewrite decide_False.
Qed.

Lemma passes_block b f r : no_close b → head r ≠ Some SLASH → passes b f [] r InBlock InBlock f.
Proof.
  intros Hb Hr. induction b as [| c b IH]; [apply passes_nil |]. destruct Hb as [Hc Hb].
  change (passes (c :: b) f ([] ++ []) r InBlock InBlock f). eapply passes_step; [| by apply IH].
  cbn. rewrite decide_False; [done |]. intros [-> H]. destruct b; [done | by apply Hc].
Qed.

Lemma passes_quoted q b f r : passes (concat (double q <$> b)) f (replicate (length b) SPACE) r (InQuote q) (InQuote q) f.
Proof.
  induction b as [| c b IH]; [apply passes_nil |]. cbn [fmap list_fmap concat length replicate].
  unfold double at 1. destruct (decide (c = q)) as [-> | Hne]; cbn [app].
  - eapply (passes_skip q q _ f _ r _ _ _ [SPACE]); [| exact IH]. cbn. unfold quote_step. by rewrite !decide_True by done.
  - eapply (passes_step c _ f _ r _ _ _ [SPACE]); [| exact IH]. cbn. unfold quote_step. by rewrite decide_False.
Qed.

(** One lexeme. *)
Lemma passes_lexeme x r f :
  well_formed (x :: r) →
  ∃ st, passes (render1 x) f (erase1 x) (render r) Code st (f || (detect && executable1 x)) ∧ (st = Code ∨ r = []).
Proof.
  intros [Hx _]. destruct x as [s | h b c | b c | q b c]; cbn [render1 erase1 executable1];
    rewrite ?andb_false_r, ?orb_false_r.
  - exists Code. split; [by apply passes_text | by left].
  - destruct Hx as [Hb Hc]. exists (if c then Code else InLine). split; [| destruct c; auto].
    assert (passes (if h then [chr "#"] else [DASH; DASH]) f [] ((b ++ (if c then [NL] else [])) ++ render r) Code InLine f) as H1.
    { destruct h; [by apply passes_one | by apply passes_two]. }
    eapply (passes_trans _ _ _ [] _); [exact H1 |]. eapply (passes_trans _ _ _ [] _); [by apply passes_line |].
    destruct c; [by apply passes_one | apply passes_nil].
  - destruct Hx as [Hb Hc]. exists (if c then Code else InBlock). split; [| destruct c; auto].
    set (t := (b ++ (if c then [STAR; SLASH] else [])) ++ render r).
    assert (is_mysql_executable_comment_start t = is_mysql_executable_comment_start b) as Ht.
    { subst t. destruct b as [| a [| a' b]]; [destruct c; [done | by rewrite Hc] | | done].
      cbn. destruct c; [done | by rewrite Hc]. }
    eapply (passes_trans [SLASH; STAR] _ _ [] _ _ _ InBlock (f || (detect && is_mysql_executable_comment_start b))).
    { apply passes_two. rewrite <- Ht. reflexivity. }
    eapply (passes_trans _ _ _ [] _); [apply passes_block; [done |] |].
    { destruct c; [done | by rewrite Hc]. }
    destruct c; [by apply passes_two | apply passes_nil].
  - destruct Hx as [Hq Hc]. exists (if c then Code else InQuote q). split; [| destruct c; auto].
    replace (replicate (1 + length b + Nat.b2n c) SPACE) with ([SPACE] ++ replicate (length b) SPACE ++ replicate (Nat.b2n c) SPACE)
      by (rewrite <- replicate_add; done).
    eapply (passes_step _ _ _ _ _ _ (InQuote q) f [SPACE]).
    { assert (q = SQUOTE ∨ q = DQUOTE ∨ q = BACKTICK) as Hq' by (by apply bool_decide_eq_true in Hq).
      destruct_or! Hq'; subst q; reflexivity. }
    eapply passes_trans; [apply passes_quoted |].
    destruct c; [| apply passes_nil]. apply passes_one. cbn. unfold quote_step. by rewrite decide_True, decide_False by done.
Qed.

Lemma run_render xs f :
  well_formed xs → ∃ st, run (Code, f) (render xs) = (st, f || (detect && executable xs), visible xs).
Proof.
  revert f. induction xs as [| x r IH]; intros f Hw; [exists Code; cbn; by rewrite andb_false_r, orb_false_r |].
  destruct (passes_lexeme x r f Hw) as (st & Hp & Hst). unfold passes in Hp.
  change (render (x :: r)) with (render1 x ++ render r). rewrite Hp. clear Hp.
  change (visible (x :: r)) with (erase1 x ++ visible r).
  change (executable (x :: r)) with (executable1 x || executable r).
  rewrite andb_orb_distrib_r, orb_assoc. destruct Hw as [_ Hw]. destruct Hst as [-> | ->].
  - destruct (IH (f || (detect && executable1 x)) Hw) as (st' & ->). by eexists.
  - cbn. rewrite andb_false_r, orb_false_r. by eexists.
Qed.
End lexer.

Lemma strip_render xs detect :
  well_formed xs →
  strip_sql_comments_and_literals_with_metadata (render xs) detect = (visible xs, detect && executable xs).
Proof.
  intros Hw. unfold strip_sql_comments_and_literals_with_metadata.
  destruct (run_render detect xs false Hw) as (st & ->). done.
Qed.

(** Every text is a well-formed sequence of lexemes. *)
Lemma line_cut s : ∃ b c r, s = b ++ (if (c : bool) then [NL] else []) ++ r ∧ (NL ∉ (b : list N)) ∧ (c = false → r = []).
Proof.
  induction s as [| a s (b & c & r & -> & Hb & Hc)]; [exists [], false, []; set_solver |].
  destruct (decide (a = NL)) as [-> |].
  - exists [], true, (b ++ (if c then [NL] else []) ++ r). set_solver.
  - exists (a :: b), c, r. rewrite not_elem_of_cons. done.
Qed.

Lemma block_cut s :
  ∃ b c r, s = b ++ (if (c : bool) then [STAR; SLASH] else []) ++ r ∧ no_close b ∧ (c = false → r = []).
Proof.
  induction s as [| a s IH]; [exists [], false, []; by repeat split |].
  destruct (decide (a = STAR ∧ head s = Some SLASH)) as [[-> Hs] | Hn].
  - destruct s as [| x s]; simplify_eq/=. by exists [], true, s.
  - destruct IH as (b & c & r & -> & Hb & Hc). exists (a :: b), c, r. split_and!; try done. split; [| done].
    intros [-> H]. apply Hn. split; [done |]. destruct b; [done | done].
Qed.

Lemma quote_cut q (n : nat) s : length s < n →
  ∃ b c r, s = concat (double q <$> b) ++ (if (c : bool) then [q] else []) ++ r ∧ (if c then head r ≠ Some q else r = []).
Proof.
  revert s. induction n as [| n IH]; intros s Hn; [lia |].
  destruct s as [| a s]; [by exists [], false, [] |]. cbn in Hn.
  destruct (decide (a = q)) as [-> | Ha].
  - destruct (decide (head s = Some q)) as [Hs | Hs]; [| by exists [], true, s].
    destruct s as [| a s]; simplify_eq/=. destruct (IH s) as (b & c & r & -> & Hc); [lia |].
    exists (q :: b), c, r. split; [| done]. cbn. unfold double at 2. by rewrite decide_True.
  - destruct (IH s) as (b & c & r & -> & Hc); [lia |]. exists (a :: b), c, r. split; [| done].
    cbn. unfold double at 2. by rewrite decide_False.
Qed.

Definition lexes (s : str) (xs : list Lexeme) : Prop := well_formed xs ∧ render xs = s ∧ (s = [] → xs = []).

Lemma lexes_cons x r s xs : lexes r xs → s = render1 x ++ r → render1 x ≠ [] → well_formed (x :: xs) → lexes s (x :: xs).
Proof.
  intros (Hw & Hr & _) -> Hx Hwx. split_and!; [done | cbn; by rewrite <- Hr |].
  intros E. apply app_eq_nil in E as [? _]. done.
Qed.

Lemma lexemes_exist s : ∃ xs, lexes s xs.
Proof.
  induction s as [s IH] using (induction_ltof1 _ (@length N)). unfold ltof in IH.
  destruct s as [| c s]; [by exists [] |].
  assert (∀ x r, c :: s = render1 x ++ r → render1 x ≠ [] →
    (∀ xs, lexes r xs → well_formed (x :: xs)) → ∃ xs, lexes (c :: s) xs) as Hcons.
  { intros x r E Hx Hw. destruct (IH r) as (xs & Hxs); [rewrite E, length_app; destruct (render1 x); cbn; [done | lia] |].
    exists (x :: xs). eapply lexes_cons; eauto. }
  destruct (decide (c = DASH ∧ head s = Some DASH)) as [[-> Hs] | Hd].
  { destruct s as [| c s]; simplify_eq/=. destruct (line_cut s) as (b & cl & r & -> & Hb & Hc).
    apply (Hcons (Line false b cl) r); [cbn; by rewrite <- app_assoc | done |].
    intros xs (Hw & _ & Hn). split_and!; eauto. }
  destruct (decide (c = chr "#")) as [-> | Hh].
  { destruct (line_cut s) as (b & cl & r & -> & Hb & Hc).
    apply (Hcons (Line true b cl) r); [cbn; by rewrite <- app_assoc | done |].
    intros xs (Hw & _ & Hn). split_and!; eauto. }
  destruct (decide (c = SLASH ∧ head s = Some STAR)) as [[-> Hs] | Hb].
  { destruct s as [| c s]; simplify_eq/=. destruct (block_cut s) as (b & cl & r & -> & Hb & Hc).
    apply (Hcons (Block b cl) r); [cbn; by rewrite <- app_assoc | done |].
    intros xs (Hw & _ & Hn). split_and!; eauto. }
  destruct (is_quote c) eqn:Hq.
  { destruct (quote_cut c (S (length s)) s) as (b & cl & r & -> & Hc); [lia |].
    apply (Hcons (Quoted c b cl) r); [cbn; by rewrite <- app_assoc | done |].
    intros xs (Hw & Hr & Hn). split_and!; [done | | done]. destruct cl; [by rewrite Hr | auto]. }
  apply (Hcons (Text [c]) s); [done | done |]. intros xs (Hw & Hr & _). split; [| done]. cbn. by rewrite Hr.
Qed.

(** ** Words of the visible text *)
Definition bounded (a b : str) : Prop := is_identifier_byte (last a) = false ∧ is_identifier_byte (head b) = false.

(** [keyword] stands in the text as a word of its own, in any case of letters. *)
Definition has_word (keyword text : str) : Prop :=
  ∃ a w b, text = a ++ w ++ b ∧ to_ascii_lowercase w = keyword ∧ bounded a b.

Lemma word_from_spec before w s :
  word_from before w s = true ↔
  ∃ a b, s = a ++ w ++ b ∧ is_identifier_byte (match last a with Some c => Some c | None => before end) = false ∧
         is_identifier_byte (head b) = false.
Proof.
  revert before. induction s as [| c s IH]; intros before; cbn [word_from]; rewrite orb_true_iff.
  - split.
    + intros [H | H]; [| done]. destruct (strip_prefix w []) as [r |] eqn:E; [| done].
      apply strip_prefix_Some in E. apply andb_true_iff in H as [H1 H2].
      exists [], r. rewrite negb_true_iff in *. done.
    + intros (a & b & E & Hb & Hh). left. symmetry in E. apply app_eq_nil in E as [-> E].
      rewrite <- E, strip_prefix_app. cbn in Hb. by rewrite Hb, Hh.
  - rewrite IH. split.
    + intros [H | (a & b & -> & Hb & Hh)].
      * destruct (strip_prefix w (c :: s)) as [r |] eqn:E; [| done].
        apply strip_prefix_Some in E. apply andb_true_iff in H as [H1 H2].
        exists [], r. rewrite negb_true_iff in *. done.
      * exists (c :: a), b. split_and!; [done | | done]. rewrite last_cons. by destruct (last a).
    + intros (a & b & E & Hb & Hh). destruct a as [| c' a].
      * left. cbn in E. rewrite E, strip_prefix_app. cbn in Hb. by rewrite Hb, Hh.
      * right. simplify_eq/=. exists a, b. split_and!; [done | | done]. rewrite last_cons in Hb. by destruct (last a).
Qed.

Lemma contains_word_spec s w : w ≠ [] → contains_word s w = true ↔ ∃ a b, s = a ++ w ++ b ∧ bounded a b.
Proof.
  intros Hw. unfold contains_word, bounded. destruct w as [| c w]; [done |]. rewrite word_from_spec.
  split; intros (a & b & -> & H); exists a, b; (split; [done |]); by destruct (last a).
Qed.

Lemma ident_lower c : is_identifier_byte (Some (ascii_lower c)) = is_identifier_byte (Some c).
Proof.
  cbn. unfold ascii_lower. destruct (is_ascii_uppercase c) eqn:E; [| done].
  unfold is_ascii_uppercase in E. apply bool_decide_eq_true in E.
  assert (is_ascii_alphanumeric (c + 32)%N = true) as ->.
  { unfold is_ascii_alphanumeric, is_ascii_alphabetic, is_ascii_lowercase.
    rewrite (bool_decide_eq_true_2 (97 ≤ c + 32 ∧ c + 32 ≤ 122)%N) by lia. by rewrite orb_true_r. }
  assert (is_ascii_alphanumeric c = true) as ->; [| done].
  unfold is_ascii_alphanumeric, is_ascii_alphabetic, is_ascii_uppercase. by rewrite bool_decide_eq_true_2.
Qed.

Lemma bounded_lower a b : bounded (to_ascii_lowercase a) (to_ascii_lowercase b) ↔ bounded a b.
Proof.
  unfold bounded, to_ascii_lowercase. rewrite fmap_last.
  assert (head (ascii_lower <$> b) = ascii_lower <$> head b) as -> by (by destruct b).
  destruct (last a), (head b); cbn [fmap option_fmap option_map]; by rewrite ?ident_lower.
Qed.

Lemma visible_word `{Unicode} s w :
  forallb is_ascii s = true → w ≠ [] → contains_word (to_lowercase s) w = true ↔ has_word w s.
Proof.
  intros Hs Hw. rewrite contains_word_spec by done. unfold to_lowercase, has_word. rewrite Hs. split.
  - intros (a & b & E & Hb). unfold to_ascii_lowercase in E.
    apply fmap_app_inv in E as (a' & s' & -> & E & ->). symmetry in E. apply fmap_app_inv in E as (w' & b' & -> & -> & ->).
    exists a', w', b'. split_and!; [done.. |]. by apply bounded_lower.
  - intros (a & w' & b & -> & <- & Hb). exists (to_ascii_lowercase a), (to_ascii_lowercase b).
    unfold to_ascii_lowercase. rewrite !fmap_app. split; [done |]. by apply bounded_lower.
Qed.

Lemma visible_ascii xs : forallb is_ascii (render xs) = true → forallb is_ascii (visible xs) = true.
Proof.
  induction xs as [| x xs IH]; [done |]. change (render (x :: xs)) with (render1 x ++ render xs).
  change (visible (x :: xs)) with (erase1 x ++ visible xs). rewrite !forallb_app, !andb_true_iff.
  intros [Hx Hr]. split; [| by apply IH]. destruct x as [s | h b c | b c | q b c]; cbn [erase1]; [done | by destruct c.. |].
  generalize (1 + length b + Nat.b2n c). induction n as [| n IHn]; [done | exact IHn].
Qed.

(** ** The verdict on a statement *)
Section verdict.
Context `{Unicode, OracleTokenizer, WordTokenizer}.

(** A read by its visible text: nothing, a safe PRAGMA, SHOW CREATE, or a
    statement that begins with a read keyword and has no write keyword. *)
Definition reads_only (checksum : bool) (v : str) : Prop :=
  let upper := to_uppercase (trim_start v) in
  trim_start v = [] ∨
  (starts_with_read upper checksum = false ∧ starts_with_keyword upper (lit "PRAGMA") = true ∧ is_safe_read_pragma upper = true) ∨
  starts_with_show_create upper = true ∨
  (starts_with_read upper checksum = true ∧ ∀ kw, kw ∈ DANGEROUS_KEYWORDS → ¬ has_word kw v).

(** No syntax of the dialect that writes inside a read. *)
Definition dialect_clear (d : DatabaseType.t) (st : str) (xs : list Lexeme) : Prop :=
  if is_mysql_compatible_database d then
    executable xs = false ∧ contains_keyword_sequence (visible xs) (lit "INTO") (lit "OUTFILE") = false ∧
    contains_keyword_sequence (visible xs) (lit "INTO") (lit "DUMPFILE") = false
  else if is_postgresql_family_database d then contains_unquoted_keyword st PostgreSqlDialect (lit "INTO") = false
  else d = DatabaseType.SqlServer → contains_unquoted_keyword st MsSqlDialect (lit "INTO") = false.

Lemma show_create_is_read upper checksum : starts_with_show_create upper = true → starts_with_read upper checksum = true.
Proof.
  unfold starts_with_show_create, starts_with_read. intros Hs.
  assert (starts_with_keyword upper (lit "SHOW") = true) as Hk.
  { unfold starts_with_keyword. destruct (strip_prefix (lit "SHOW") upper) as [[| c r] |]; [done | | done].
    by destruct (is_ascii_alphanumeric c). }
  unfold READ_SQL_KEYWORDS. cbn [existsb]. rewrite Hk. by rewrite !orb_true_r.
Qed.

Lemma existsb_forall {A} (f : A → bool) (l : list A) : existsb f l = false ↔ ∀ x, x ∈ l → f x = false.
Proof.
  rewrite <- not_true_iff_false, existsb_exists. setoid_rewrite <- list_elem_of_In. split.
  - intros Hn x Hx. destruct (f x) eqn:E; [| done]. destruct Hn. eauto.
  - intros Hf (x & Hx & E). by rewrite (Hf x Hx) in E.
Qed.

Lemma dangerous_spec st xs :
  lexes st xs → forallb is_ascii st = true →
  contains_dangerous_sql_keyword st = false ↔ ∀ kw, kw ∈ DANGEROUS_KEYWORDS → ¬ has_word kw (visible xs).
Proof.
  intros (Hw & <- & _) Ha. unfold contains_dangerous_sql_keyword, strip_sql_comments_and_literals.
  rewrite strip_render by done. cbn [fst]. apply visible_ascii in Ha. rewrite existsb_forall.
  assert (∀ kw, kw ∈ DANGEROUS_KEYWORDS → kw ≠ []) as Hne.
  { assert (bool_decide (([] : list N) ∈ DANGEROUS_KEYWORDS) = false) as Hb by reflexivity.
    apply bool_decide_eq_false in Hb. by intros kw Hk ->. }
  split; intros Hx kw Hk; specialize (Hx kw Hk).
  - rewrite <- visible_word; [| done | by apply Hne]. by rewrite Hx.
  - rewrite <- visible_word in Hx; [| done | by apply Hne]. by apply not_true_iff_false.
Qed.

Lemma statement_verdict st xs checksum :
  lexes st xs → forallb is_ascii st = true →
  is_write_sql_statement st false false checksum = false ↔ reads_only checksum (visible xs).
Proof.
  intros Hx Ha. pose proof (dangerous_spec st xs Hx Ha) as Hd. destruct Hx as (Hw & <- & _).
  unfold is_write_sql_statement, reads_only. rewrite strip_render by done. cbn [andb].
  set (upper := to_uppercase (trim_start (visible xs))).
  pose proof (show_create_is_read upper checksum) as Hs.
  destruct (decide (trim_start (visible xs) = [])) as [He | He]; [by split; [left | done] |].
  destruct (starts_with_read upper checksum) eqn:Hr; cbn [negb andb orb].
  - destruct (starts_with_show_create upper) eqn:Hc; [split; [auto | done] |]. rewrite Hd. intuition congruence.
  - destruct (starts_with_show_create upper) eqn:Hc; [by specialize (Hs eq_refl) |].
    destruct (starts_with_keyword upper (lit "PRAGMA")) eqn:Hp; [rewrite negb_false_iff |]; intuition congruence.
Qed.

Lemma dialect_verdict d st xs :
  lexes st xs → has_dialect_specific_write_statement st d = false ↔ dialect_clear d st xs.
Proof.
  intros (Hw & <- & _). unfold has_dialect_specific_write_statement, dialect_clear.
  rewrite strip_render by done. cbn [andb].
  destruct (is_mysql_compatible_database d); [rewrite !orb_false_iff; tauto |].
  destruct (is_postgresql_family_database d); [done |]. destruct d; naive_solver.
Qed.

(** A database whose statements are SQL for the guard. *)
Definition guarded_as_sql (d : DatabaseType.t) : bool :=
  negb (bool_decide (d = DatabaseType.VictoriaMetrics)) && negb (bool_decide (d = DatabaseType.DynamoDb)) && negb (is_search_engine d).

Lemma guarded_verdict sql d :
  guarded_as_sql d = true → is_write_sql_for_database sql d = is_write_sql_with_database_type sql (Some d).
Proof.
  unfold guarded_as_sql, is_write_sql_for_database, classify_search_engine_query_risk. rewrite !andb_true_iff, !negb_true_iff.
  rewrite !bool_decide_eq_false. intros [[Hv Hy] He]. by rewrite !decide_False, He by done.
Qed.

(** C6: On every database whose statements the guard takes for SQL, `check_read_only` accepts a text
    of ASCII statements exactly when it only toggles SQL Server plan capture, or when each statement
    the splitter cuts from it is, by what is left when comments and quoted texts are taken away,
    empty, a safe PRAGMA, SHOW CREATE, or begins with a read keyword and has none of the nine write
    keywords as a word of its own, and the dialect has no construct in it that writes inside a read
    (executable comments, INTO OUTFILE, SELECT INTO). *)
Theorem read_only_mode_runs_only_reads sql connection_name d :
  guarded_as_sql d = true → Forall (λ st, forallb is_ascii st = true) (split_sql_statements_for_database sql d) →
  check_read_only sql connection_name d = Ok tt ↔
    (d = DatabaseType.SqlServer ∧ is_sqlserver_plan_capture_set sql = true) ∨
    ∀ st xs, st ∈ split_sql_statements_for_database sql d → lexes st xs →
      dialect_clear d st xs ∧ reads_only (bool_decide (d = DatabaseType.Mysql)) (visible xs).
Proof.
  intros Hd Ha. unfold check_read_only. rewrite (guarded_verdict sql d Hd).
  assert (∀ b : bool, (if b then Err (read_only_message connection_name) else Ok tt) = Ok tt ↔ b = false) as ->
    by (by intros []). rewrite Forall_forall in Ha.
  unfold is_write_sql_with_database_type.
  rewrite (bool_decide_eq_false_2 (Some d = None)) by done.
  assert (bool_decide (Some d = Some DatabaseType.Mysql) = bool_decide (d = DatabaseType.Mysql)) as -> by (apply bool_decide_ext; naive_solver).
  destruct (bool_decide (Some d = Some DatabaseType.SqlServer) && is_sqlserver_plan_capture_set sql) eqn:Hp.
  { apply andb_true_iff in Hp as [Hq Hp]. apply bool_decide_eq_true in Hq. simplify_eq. tauto. }
  assert (¬ (d = DatabaseType.SqlServer ∧ is_sqlserver_plan_capture_set sql = true)) as Hp'.
  { intros [-> E]. by rewrite E in Hp. }
  unfold has_dialect_specific_write. destruct (existsb _ _) eqn:Hs.
  - split; [done |]. intros [? | Hall]; [done |]. exfalso. apply not_false_iff_true in Hs. apply Hs.
    rewrite existsb_forall. intros st Hst. destruct (lexemes_exist st) as (xs & Hx).
    eapply dialect_verdict; [done |]. by apply Hall.
  - rewrite existsb_forall in Hs |- *. split.
    + intros Hall. right. intros st xs Hst Hx. split; [eapply dialect_verdict; eauto |].
      eapply statement_verdict; eauto.
    + intros [? | Hall] st Hst; [done |]. destruct (lexemes_exist st) as (xs & Hx).
      apply (statement_verdict st xs); [done | auto |]. apply (Hall st xs Hst Hx).
Qed.
End verdict.

(** ** The other verdicts *)
Section other_verdicts.
Context `{Unicode}.

(** An Oracle statement of ASCII text is proven to be a read exactly when, by its visible text,
    it begins with SELECT, has no parenthesis and no at sign, and none of the forbidden words as a
    word of its own. *)
Theorem oracle_proven_read_is_a_plain_select sql xs :
  lexes sql xs → forallb is_ascii sql = true →
  is_oracle_proven_read_only_statement sql = true ↔
    starts_with_keyword (to_uppercase (trim_start (visible xs))) (lit "SELECT") = true ∧
    (chr "(" ∉ (visible xs : list N)) ∧ (chr "@" ∉ (visible xs : list N)) ∧
    ∀ kw, kw ∈ FORBIDDEN_WORDS → ¬ has_word kw (visible xs).
Proof.
  intros (Hw & <- & _) Ha. apply visible_ascii in Ha.
  unfold is_oracle_proven_read_only_statement, strip_sql_comments_and_literals. rewrite strip_render by done. cbn [fst].
  set (v := visible xs) in *.
  assert (∀ c : N, is_ascii_uppercase c = false → is_ascii_lowercase c = false → c ∈ (to_lowercase v : list N) ↔ c ∈ (v : list N)) as Hc.
  { intros c Hu Hl. unfold to_lowercase, to_ascii_lowercase. rewrite Ha, list_elem_of_fmap. split.
    - intros (x & -> & Hx). unfold ascii_lower in *. destruct (is_ascii_uppercase x) eqn:E; [| done].
      exfalso. unfold is_ascii_uppercase, is_ascii_lowercase in *.
      rewrite bool_decide_eq_true in E. rewrite bool_decide_eq_false in Hl. lia.
    - intros Hx. exists c. unfold ascii_lower. by rewrite Hu. }
  assert (∀ kw, kw ∈ FORBIDDEN_WORDS → kw ≠ []) as Hne.
  { assert (bool_decide (([] : list N) ∈ FORBIDDEN_WORDS) = false) as Hb by reflexivity.
    apply bool_decide_eq_false in Hb. by intros kw Hk ->. }
  assert (negb (existsb (contains_word (to_lowercase v)) FORBIDDEN_WORDS) = true ↔
    ∀ kw, kw ∈ FORBIDDEN_WORDS → ¬ has_word kw v) as Hf.
  { rewrite negb_true_iff, existsb_forall. split; intros Hx kw Hk; specialize (Hx kw Hk).
    - rewrite <- visible_word; [| done | by apply Hne]. by rewrite Hx.
    - rewrite <- visible_word in Hx; [| done | by apply Hne]. by apply not_true_iff_false. }
  destruct (decide (trim_start v = [])) as [He | He].
  { rewrite He. split; [done |]. by intros [? _]. }
  destruct (starts_with_keyword _ _); cbn [negb]; [| split; [done | by intros [? _]]].
  case_bool_decide as Hp; [rewrite Hc in Hp by done; split; [done | tauto] | rewrite Hc in Hp by done].
  case_bool_decide as Hq; [rewrite Hc in Hq by done; split; [done | tauto] | rewrite Hc in Hq by done].
  rewrite Hf. tauto.
Qed.
End other_verdicts.

(** A request is run on a read-only search engine only with a method that does
    not write, or as a POST to one of the read endpoints; nothing is left
    unclassified among the writing methods. *)
Lemma request_verdict method segments :
  classify_request method segments = Some ReadOnly ↔
    method ∈ [lit "GET"; lit "HEAD"; lit "OPTIONS"] ∨
    (method = lit "POST" ∧ ∃ e, e ∈ READ_ENDPOINTS ∧ has_segment segments e = true).
Proof.
  unfold classify_request. case_bool_decide as Hm; [naive_solver |].
  destruct (bool_decide (method = lit "POST") && existsb (has_segment segments) READ_ENDPOINTS) eqn:E.
  - apply andb_true_iff in E as [Hp He]. apply bool_decide_eq_true in Hp. apply existsb_exists in He as (e & He & Hs).
    rewrite <- list_elem_of_In in He. naive_solver.
  - split.
    + repeat (case_match; [done |]). done.
    + intros [? | (-> & e & He & Hs)]; [done |]. exfalso. rewrite bool_decide_eq_true_2 in E by done. cbn [andb] in E.
      rewrite existsb_forall in E. by rewrite (E e He) in Hs.
Qed.

(** ** Fuel *)
Lemma scan_ext {S A} (f g : S → N → list N → S * list A * nat) s :
  (∀ st pre ch rest, s = pre ++ ch :: rest → f st ch rest = g st ch rest) →
  ∀ k st, scan f k st s = scan g k st s.
Proof.
  induction s as [| c s IH]; intros Hf k st; [by destruct k |].
  assert (∀ k st, scan f k st s = scan g k st s) as IH'.
  { apply IH. intros st' pre ch rest ->. by apply (Hf st' (c :: pre)). }
  destruct k as [| k]; cbn [scan]; [| apply IH'].
  rewrite (Hf st [] c s) by done. destruct (g st c s) as [[? ?] k]. by rewrite IH'.
Qed.

Lemma executable_body_length b s : length (executable_body b s).1 ≤ length s.
Proof.
  revert b. induction s as [| c s IH]; intros b; [done |]. cbn [executable_body].
  destruct (decide _); [cbn; lia |]. destruct (_ && _).
  - specialize (IH true). destruct (executable_body true s). cbn in *. lia.
  - specialize (IH false). destruct (executable_body false s). cbn in *. lia.
Qed.

Lemma comment_body_length s body n : read_mysql_executable_comment_body s = (Some body, n) → length body < length s.
Proof.
  unfold read_mysql_executable_comment_body. destruct s as [| c s]; [done |]. cbn [length].
  destruct (decide (c = chr "!")).
  - pose proof (executable_body_length true s). destruct (executable_body true s). intros [= <- _]. cbn in *. lia.
  - destruct (decide (c = chr "M")); [| done]. destruct s as [| c' s]; [done |]. destruct (decide _); [| done].
    pose proof (executable_body_length true s). destruct (executable_body true s). intros [= <- _]. cbn in *. lia.
Qed.

(** The nesting of executable comments ends: more fuel changes nothing. *)
Lemma strip_comments_fuel_enough n m s : length s < n → length s < m → strip_comments_fuel n s = strip_comments_fuel m s.
Proof.
  revert m s. induction n as [| n IH]; intros m s Hn Hm; [lia |]. destruct m as [| m]; [lia |].
  cbn [strip_comments_fuel]. f_equal. apply scan_ext. intros st pre ch rest ->. rewrite length_app in Hn, Hm. cbn in Hn, Hm.
  unfold comments_step. destruct st; try done; repeat (destruct (decide _); [done |]); destruct (decide _); try done;
    destruct (read_mysql_executable_comment_body (tail rest)) as [[body |] k] eqn:E; try done;
    apply comment_body_length in E; rewrite (IH m body); try done; destruct rest; cbn in *; lia.
Qed.

Lemma strip_engine_comments_enough n m s : length s < n → length s < m → strip_engine_comments n s = strip_engine_comments m s.
Proof.
  revert m s. induction n as [| n IH]; intros m s Hn Hm; [lia |]. destruct m as [| m]; [lia |].
  assert (length (trim_start s) ≤ length s) as Ht by (apply sublist_length, trim_start_sublist).
  assert (∀ p c r rest, split_once p c = Some (r, rest) → length rest ≤ length c) as Hs.
  { intros p c r rest E%split_once_Some. subst. rewrite !length_app. lia. }
  assert (∀ p c t, strip_prefix p t = Some c → length t = length p + length c) as Hp.
  { intros p c t E%strip_prefix_Some. subst. by rewrite length_app. }
  cbn [strip_engine_comments].
  destruct (strip_prefix (lit "#") (trim_start s)) as [c |] eqn:E1.
  { apply Hp in E1. cbn in E1. destruct (split_once _ c) as [[? r] |] eqn:E; [apply Hs in E |]; apply IH; cbn; lia. }
  destruct (strip_prefix (lit "//") (trim_start s)) as [c |] eqn:E2.
  { apply Hp in E2. cbn in E2. destruct (split_once _ c) as [[? r] |] eqn:E; [apply Hs in E |]; apply IH; cbn; lia. }
  destruct (strip_prefix (lit "/*") (trim_start s)) as [c |] eqn:E3; [| done].
  apply Hp in E3. cbn in E3. destruct (split_once _ c) as [[? r] |] eqn:E; [apply Hs in E |]; apply IH; cbn; lia.
Qed.

(** ** Plans

    A plan is asked for one statement only, without a visible write keyword
    unless it is the DML of Oracle, whose EXPLAIN PLAN does not run it; where
    ANALYZE runs the statement it has passed the read-only check. *)
Section plans.
Context `{Unicode, OracleTokenizer, WordTokenizer}.

Theorem explain_is_guarded o source checked xs :
  source = strip_trailing_semicolons (trim (ex_sql o)) → checked = strip_trailing_semicolons (trim source) →
  lexes checked xs → forallb is_ascii checked = true → ex_ok (build_explain_sql o) = true →
  explained (build_explain_sql o) = Some (explain_text o source) ∧
  (∀ part, part ∈ drop 1 (split_char (chr ";") (visible xs)) → trim part = []) ∧
  (ex_database_type o = Some DatabaseType.Oracle ∨ ∀ kw, kw ∈ DANGEROUS_KEYWORDS → ¬ has_word kw (visible xs)) ∧
  (∀ d, ex_database_type o = Some d → is_analyze o = true → runs_under_analyze d = true → check_read_only source [] d = Ok tt).
Proof.
  intros -> -> Hx Ha. set (source := strip_trailing_semicolons (trim (ex_sql o))) in *. unfold build_explain_sql. fold source.
  destruct (negb (supports_explain_plan _)); [done |]. destruct (decide (source = [])); [done |].
  unfold is_safe_explain_sql_for_database. set (checked := strip_trailing_semicolons (trim source)) in *.
  destruct (decide (checked = [])); [done |].
  destruct (has_extra_statement_after_semicolon checked) eqn:Hextra; [done |].
  assert (∀ part, part ∈ drop 1 (split_char (chr ";") (visible xs)) → trim part = []) as Hparts.
  { unfold has_extra_statement_after_semicolon, strip_sql_comments_and_literals in Hextra.
    destruct Hx as (Hw & Hr & _). rewrite <- Hr, strip_render in Hextra by done. rewrite existsb_forall in Hextra.
    intros part Hp. specialize (Hextra part Hp). by apply negb_false_iff, bool_decide_eq_true in Hextra. }
  destruct (bool_decide (ex_database_type o = Some DatabaseType.Oracle) && _) eqn:Ho;
    [| destruct (is_safe_explain_source checked && negb (contains_dangerous_sql_keyword checked)) eqn:Hs]; [| | done]; cbn [negb];
    (destruct (is_analyze o && _) eqn:Hw; [done |]); 
    (destruct (bool_decide (ex_database_type o = Some DatabaseType.SqlServer) && _); [done |]); intros _;
    (split; [done |]; split; [done |]; split).
  - apply andb_true_iff in Ho as [Ho _]. apply bool_decide_eq_true in Ho. by left.
  - intros d Hd Han Hru. rewrite Hd, Han, Hru in Hw. cbn [andb] in Hw. unfold check_read_only. by rewrite Hw.
  - right. apply andb_true_iff in Hs as [_ Hs]. apply negb_true_iff in Hs. by apply (dangerous_spec checked).
  - intros d Hd Han Hru. rewrite Hd, Han, Hru in Hw. cbn [andb] in Hw. unfold check_read_only. by rewrite Hw.
Qed.
End plans.

(** ** Concrete statements *)
Definition no_words : WordTokenizer := λ _ _, Some [].

(** [SELECT 'drop' -- delete] *)
Definition quoted_drop : list Lexeme := [Text (lit "SELECT "); Quoted SQUOTE (lit "drop") true; Text (lit " "); Line false (lit " delete") false].

Lemma quoted_drop_lexes : lexes (lit "SELECT 'drop' -- delete") quoted_drop.
Proof.
  split_and!; [| reflexivity | done]. cbn. split_and!; try done; try (intros [? ?]; done); try (intros; done).
  intros Hin. assert (bool_decide (NL ∈ (lit " delete" : list N)) = false) as Hb by reflexivity.
  by apply bool_decide_eq_false in Hb.
Qed.

Lemma read_only_mode_runs_only_reads_witness :
  check_read_only (H := ascii_only) (H0 := no_tokenizer) (H1 := no_words) (lit "SELECT 'drop' -- delete") [] DatabaseType.Postgres = Ok tt ∧
  dialect_clear (H1 := no_words) DatabaseType.Postgres (lit "SELECT 'drop' -- delete") quoted_drop ∧
  reads_only (H := ascii_only) false (visible quoted_drop).
Proof.
  assert (check_read_only (H := ascii_only) (H0 := no_tokenizer) (H1 := no_words) (lit "SELECT 'drop' -- delete") [] DatabaseType.Postgres = Ok tt)
    as E by (vm_compute; reflexivity).
  split; [exact E |].
  destruct (proj1 (read_only_mode_runs_only_reads (H := ascii_only) (H0 := no_tokenizer) (H1 := no_words)
    (lit "SELECT 'drop' -- delete") [] DatabaseType.Postgres ltac:(reflexivity) ltac:(repeat constructor)) E) as [[? _] | Hall];
    [discriminate |].
  apply Hall; [vm_compute; left | exact quoted_drop_lexes].
Defined.

Lemma oracle_proven_read_is_a_plain_select_witness : ¬ has_word (lit "drop") (visible quoted_drop).
Proof.
  apply (oracle_proven_read_is_a_plain_select (H := ascii_only) (lit "SELECT 'drop' -- delete") quoted_drop quoted_drop_lexes);
    [vm_compute; reflexivity | vm_compute; reflexivity |].
  apply (bool_decide_unpack _). vm_compute. exact I.
Defined.

(** The guard reads every dialect with one lexer, and not with the rules of the
    dialect that will run the statement: [#] is an operator and [$$] a quote in
    PostgreSQL, a backslash escapes a quote and [--] needs a blank after it in
    MySQL.  Statements that write pass as reads. *)
Example lexer_of_the_guard_differs_from_the_database :
  check_read_only (H := ascii_only) (H0 := no_tokenizer) (H1 := no_words)
    (lit "WITH a AS (SELECT 1 # 2), d AS (DELETE FROM t RETURNING id) SELECT * FROM d") [] DatabaseType.Postgres = Ok tt ∧
  check_read_only (H := ascii_only) (H0 := no_tokenizer) (H1 := no_words)
    (lit "WITH a AS (SELECT $$'$$), d AS (DELETE FROM t RETURNING id) SELECT $$'$$ FROM d") [] DatabaseType.Postgres = Ok tt ∧
  check_read_only (H := ascii_only) (H0 := no_tokenizer) (H1 := no_words)
    (lit "SELECT * FROM t WHERE a = '\'' INTO OUTFILE '/tmp/x'") [] DatabaseType.Mysql = Ok tt ∧
  check_read_only (H := ascii_only) (H0 := no_tokenizer) (H1 := no_words)
    (lit "SELECT 5--1 INTO OUTFILE '/tmp/x'") [] DatabaseType.Mysql = Ok tt.
Proof. vm_compute. done. Qed.
