(* ===== verification/PoolKeys.v ===== *)
(** * Pool keys and read-only connections (connection.rs, query.rs)

    A connection pool is stored under a text made of the id of its connection,
    the database, the catalog, the client session and the role.  Before a
    statement runs, the connection is found again from that text to see whether
    it is read-only. *)
From S2P Require Import Prelude WriteUnlock SqlDialect Identifiers QueryGuard.
Local Open Scope dbx_scope.

(** The fields of [ConnectionConfig] that decide names, routes and permissions. *)
Record ConnectionConfig := {
  c_id : str;
  c_name : str;
  c_db_type : DatabaseType.t;
  c_host : str;
  c_port : N;
  c_database : option str;
  c_default_schema : option str;
  c_visible_schemas : option (gmap str (list str));
  c_read_only : bool;
  c_federation_enabled : bool;
  c_is_production : bool;
  c_production_databases : list str;
}.
(** The generated manifest of the database drivers. *)
Class DriverManifest := {
  is_single_connection_pool : DatabaseType.t → bool;
  is_agent_type : DatabaseType.t → bool;
}.
Inductive AgentSessionRole := Workload | Metadata.
#[export] Instance AgentSessionRole_eq_dec : EqDecision AgentSessionRole.
Proof. solve_decision. Defined.

Definition COLON : char := chr ":".
Definition not_blank (s : option str) : option str := t ← s; if decide (trim t = []) then None else Some t.

Section keys.
Context `{DriverManifest}.

Definition shares_database_pool_with_connection (d : DatabaseType.t) : bool := bool_decide (d = DatabaseType.Oracle).
Definition base_pool_key_for_with_catalog (d : option DatabaseType.t) (connection_id : str) (database catalog : option str)
    (include_elasticsearch_single_pool : bool) : str :=
  let is_single_connection_pool :=
    match d with
    | None => false
    | Some t =>
        (is_single_connection_pool t
         || (include_elasticsearch_single_pool &&
             is_any_db [DatabaseType.Elasticsearch; DatabaseType.Easysearch; DatabaseType.Qdrant; DatabaseType.Milvus;
                        DatabaseType.Weaviate; DatabaseType.ChromaDb] d))
        && (negb (is_agent_type t) || shares_database_pool_with_connection t)
    end in
  let key := if is_single_connection_pool then connection_id
             else match not_blank database with Some db => connection_id ++ lit ":" ++ db | None => connection_id end in
  match not_blank (trim <$> catalog) with Some c => key ++ lit ":catalog:" ++ c | None => key end.

(** [session.replace(':', "_")] *)
Definition normalize_client_session_id (client_session_id : option str) : option str :=
  replace_str (lit ":") (lit "_") <$> not_blank (trim <$> client_session_id).
Definition session_scoped_pool_key (base_pool_key : str) (client_session_id : option str) : str :=
  match normalize_client_session_id client_session_id with
  | Some session => base_pool_key ++ lit ":session:" ++ session
  | None => base_pool_key
  end.
Definition is_memory_database_path (path : str) : bool := eq_ignore_ascii_case (trim path) (lit ":memory:").
Definition session_scoped_pool_key_for (config : option ConnectionConfig) (base_pool_key : str) (client_session_id : option str) : str :=
  let shares_base_pool :=
    match config with
    | None => false
    | Some c => is_any_db [DatabaseType.DuckDb; DatabaseType.CloudflareD1] (Some (c_db_type c))
                || (bool_decide (c_db_type c = DatabaseType.Sqlite) && is_memory_database_path (c_host c))
    end in
  if shares_base_pool then base_pool_key else session_scoped_pool_key base_pool_key client_session_id.
Definition pool_key_for_session_role (config : option ConnectionConfig) (base_pool_key : str) (client_session_id : option str)
    (session_role : AgentSessionRole) : str :=
  let pool_key := session_scoped_pool_key_for config base_pool_key client_session_id in
  if bool_decide (session_role = Metadata) && match config with Some c => is_agent_type (c_db_type c) | None => false end
  then pool_key ++ lit ":role:metadata" else pool_key.
(** The key under which [get_or_create_pool_for_session_inner] puts a pool. *)
Definition pool_key_of (config : ConnectionConfig) (connection_id : str) (database catalog client_session_id : option str)
    (session_role : AgentSessionRole) : str :=
  pool_key_for_session_role (Some config)
    (base_pool_key_for_with_catalog (Some (c_db_type config)) connection_id database (not_blank (trim <$> catalog)) false)
    client_session_id session_role.
End keys.

(** ** Finding the connection again *)
Definition key_belongs_to (pool_key connection_id : str) : bool :=
  match strip_prefix connection_id pool_key with
  | Some rest => bool_decide (rest = []) || starts_with (lit ":") rest
  | None => false
  end.
(** [max_by_key]: the last of the longest ids. *)
Definition longer (best : option (str * ConnectionConfig)) (x : str * ConnectionConfig) : option (str * ConnectionConfig) :=
  match best with
  | Some b => if decide (byte_len b.1 ≤ byte_len x.1) then Some x else best
  | None => Some x
  end.
Definition config_for_pool_key (pool_key : str) (configs : gmap str ConnectionConfig) : option ConnectionConfig :=
  snd <$> fold_left longer (filter (λ x : str * ConnectionConfig, key_belongs_to pool_key x.1 = true) (map_to_list configs)) None.

Section guard.
Context `{Unicode, OracleTokenizer, WordTokenizer}.
Context (configs : gmap str ConnectionConfig) (windows : gmap WriteUnlockKey N) (owner : option str) (now : N).

Definition unlocked (connection_id : str) : bool := (is_active owner now connection_id windows).2.
Definition check_read_only_for_connection (pool_key sql : str) : result unit str :=
  match config_for_pool_key pool_key configs with
  | Some c => if c_read_only c then (if unlocked (c_id c) then Ok tt else check_read_only sql (c_name c) (c_db_type c)) else Ok tt
  | None => Ok tt
  end.
Fixpoint check_all (name : str) (d : DatabaseType.t) (statements : list str) : result unit str :=
  match statements with
  | [] => Ok tt
  | sql :: rest => match check_read_only sql name d with Ok _ => check_all name d rest | Err e => Err e end
  end.
Definition check_read_only_for_connection_multi (pool_key : str) (statements : list str) : result unit str :=
  match config_for_pool_key pool_key configs with
  | Some c => if c_read_only c then (if unlocked (c_id c) then Ok tt else check_all (c_name c) (c_db_type c) statements) else Ok tt
  | None => Ok tt
  end.
Definition connection_readonly_name (connection_id : str) : option str :=
  c ← configs !! connection_id;
  if c_read_only c then (if unlocked connection_id then None else Some (c_name c)) else None.
End guard.

(** ** The connection of a key *)
(** A key is the id of its connection, or the id, a colon and more. *)
Definition extends (id key : str) : Prop := ∃ rest, key = id ++ rest ∧ (rest = [] ∨ head rest = Some COLON).
Lemma extends_refl id : extends id id.
Proof. exists []. by rewrite app_nil_r; auto. Qed.
Lemma extends_app id key more : extends id key → head more = Some COLON → extends id (key ++ more).
Proof.
  intros (rest & -> & Hr) Hm. exists (rest ++ more). split; [by rewrite app_assoc |]. right. destruct Hr as [-> | Hr]; [done |]. by destruct rest.
Qed.
Lemma key_belongs_spec id key : key_belongs_to key id = true ↔ extends id key.
Proof.
  unfold key_belongs_to. destruct (strip_prefix id key) as [rest |] eqn:E.
  - apply strip_prefix_Some in E as ->. rewrite orb_true_iff, bool_decide_eq_true. split.
    + intros [-> | Hs]; [exists []; auto |]. exists rest. split; [done |]. right. apply starts_with_spec in Hs as [r ->]. done.
    + intros (rest' & Er & Hr). apply app_inv_head in Er as <-. destruct Hr as [-> | Hr]; [auto |]. right. apply starts_with_spec.
      destruct rest as [| c rest]; [done |]. injection Hr as ->. by exists rest.
  - split; [done |]. intros (rest & -> & _). by rewrite strip_prefix_app in E.
Qed.

Section found.
Context `{DriverManifest}.

Lemma base_key_extends d id database catalog e : extends id (base_pool_key_for_with_catalog d id database catalog e).
Proof.
  unfold base_pool_key_for_with_catalog.
  assert (∀ b : bool, extends id (if b then id else match not_blank database with Some db => id ++ lit ":" ++ db | None => id end)) as Hk.
  { intros []; [apply extends_refl |]. destruct (not_blank database); [apply extends_app; [apply extends_refl | done] | apply extends_refl]. }
  destruct (not_blank (trim <$> catalog)); [apply extends_app; [apply Hk | done] | apply Hk].
Qed.
Lemma pool_key_extends c id database catalog session role : extends id (pool_key_of c id database catalog session role).
Proof.
  unfold pool_key_of, pool_key_for_session_role.
  assert (∀ base, extends id base → extends id (session_scoped_pool_key_for (Some c) base session)) as Hs.
  { intros base Hb. unfold session_scoped_pool_key_for, session_scoped_pool_key. destruct (_ || _); [done |].
    destruct (normalize_client_session_id _); [by apply extends_app | done]. }
  destruct (_ && _); [apply extends_app; [| done] |]; apply Hs, base_key_extends.
Qed.

(** Two ids without a colon that a key extends are the same. *)
Lemma extends_unique a b key : COLON ∉ a → COLON ∉ b → extends a key → extends b key → a = b.
Proof.
  intros Ha Hb (ra & -> & Hra) (rb & E & Hrb). revert b Hb E. induction a as [| x a IH]; intros b Hb E.
  - destruct b as [| y b]; [done |]. cbn in E. destruct Hra as [-> | Hra]; [done |]. subst ra. injection Hra as ->. exfalso. apply Hb. left.
  - destruct b as [| y b].
    + cbn in E. destruct Hrb as [-> | Hrb]; [done |]. subst rb. injection Hrb as ->. exfalso. apply Ha. left.
    + cbn in E. injection E as -> E. f_equal. apply IH; [by intros ?; apply Ha; right | by intros ?; apply Hb; right | done].
Qed.

Lemma longer_elem l best x : fold_left longer l best = Some x → best = Some x ∨ x ∈ l.
Proof.
  revert best. induction l as [| y l IH]; intros best; cbn; [auto |]. intros [E | Hin]%IH; [| right; by right].
  unfold longer in E. destruct best as [b |]; [| injection E as ->; right; left]. destruct (decide _); injection E as ->; [right; left | auto].
Qed.
Lemma longer_some l x : x ∈ l → ∀ best, is_Some (fold_left longer l best).
Proof.
  assert (∀ l b, is_Some (fold_left longer l (Some b))) as Hb.
  { induction l0 as [| y l0 IH]; intros b; [eauto |]. cbn. destruct (decide _); apply IH. }
  intros Hin best. destruct l as [| y l]; [by apply not_elem_of_nil in Hin |]. cbn. unfold longer at 2. destruct best; [destruct (decide _) |]; apply Hb.
Qed.
Lemma config_for_key id c configs key :
  configs !! id = Some c → extends id key → (∀ id', is_Some (configs !! id') → extends id' key → id' = id) →
  config_for_pool_key key configs = Some c.
Proof.
  intros Hc He Hu. unfold config_for_pool_key. set (l := filter _ _).
  assert (∀ x, x ∈ l ↔ x = (id, c)) as Hl.
  { intros [id' c']. unfold l. rewrite list_elem_of_filter, elem_of_map_to_list, key_belongs_spec. cbn. split.
    - intros [He' Hc']. assert (id' = id) as -> by (apply Hu; eauto). congruence.
    - by intros [= -> ->]. }
  destruct (longer_some l (id, c) (proj2 (Hl _) eq_refl) None) as [x Hx]. rewrite Hx. apply longer_elem in Hx as [| Hx]; [done |].
  apply Hl in Hx as ->. done.
Qed.

(** The connection whose pool has the key is found again. *)
Lemma pool_keys_find_their_connection (configs : gmap str ConnectionConfig) c id database catalog session role :
  (∀ id', is_Some (configs !! id') → COLON ∉ id') → configs !! id = Some c →
  config_for_pool_key (pool_key_of c id database catalog session role) configs = Some c.
Proof.
  intros Hids Hc. eapply config_for_key; [done | apply pool_key_extends |]. intros id' Hid' He.
  eapply extends_unique; [by apply Hids | by apply Hids | exact He | apply pool_key_extends].
Qed.
End found.

Section read_only.
Context `{DriverManifest, Unicode, OracleTokenizer, WordTokenizer}.
Context (configs : gmap str ConnectionConfig) (windows : gmap WriteUnlockKey N) (owner : option str) (now : N).

(** Before a statement runs on a pool: writes are refused on a read-only
    connection without an open window. *)
Theorem read_only_pools_run_only_reads c id database catalog session role sql :
  (∀ id', is_Some (configs !! id') → COLON ∉ id') → configs !! id = Some c → c_id c = id →
  check_read_only_for_connection configs windows owner now (pool_key_of c id database catalog session role) sql = Ok tt ↔
  c_read_only c = false ∨ (is_active owner now id windows).2 = true ∨ is_write_sql_for_database sql (c_db_type c) = false.
Proof.
  intros Hids Hc Hid. unfold check_read_only_for_connection. rewrite (pool_keys_find_their_connection configs c) by done.
  unfold unlocked, check_read_only. rewrite Hid. destruct (c_read_only c); [| tauto].
  destruct (is_active owner now id windows).2; [tauto |]. destruct (is_write_sql_for_database sql (c_db_type c)); [| tauto].
  split; [done |]. intros [| [|]]; done.
Qed.
End read_only.

(** ** Examples *)
Definition test_connection (id : string) (read_only : bool) : ConnectionConfig :=
  {| c_id := lit id; c_name := lit id; c_db_type := DatabaseType.Postgres; c_host := lit "localhost"; c_port := 5432; c_database := None; c_default_schema := None;
     c_visible_schemas := None; c_read_only := read_only; c_federation_enabled := false;
     c_is_production := false; c_production_databases := [] |}.
Definition many_pools : DriverManifest := {| is_single_connection_pool := λ _, false; is_agent_type := λ _, false |}.
Definition one_connection : gmap str ConnectionConfig := {[ lit "prod" := test_connection "prod" true ]}.
Definition prod_pool : str :=
  pool_key_of (H := many_pools) (test_connection "prod" true) (lit "prod") (Some (lit "app")) None (Some (lit "tab:1")) Workload.
Definition delete_sql : str := lit "DELETE FROM t".
Example prod_pool_key : prod_pool = lit "prod:app:session:tab_1".
Proof. vm_compute. reflexivity. Qed.

Lemma read_only_pools_run_only_reads_witness :
  check_read_only_for_connection (H := ascii_only) (H0 := no_tokenizer) (H1 := no_words) one_connection ∅ None 0 prod_pool delete_sql = Ok tt ↔
  true = false ∨ (is_active None 0 (lit "prod") ∅).2 = true ∨
  is_write_sql_for_database (H := ascii_only) (H0 := no_tokenizer) (H1 := no_words) delete_sql DatabaseType.Postgres = false.
Proof.
  apply (read_only_pools_run_only_reads (H := many_pools) (H0 := ascii_only) (H1 := no_tokenizer) (H2 := no_words) one_connection ∅ None 0
           (test_connection "prod" true)).
  - intros id' Hid. unfold one_connection in Hid. apply lookup_singleton_is_Some in Hid as <-. apply (bool_decide_unpack _). vm_compute. exact I.
  - apply lookup_singleton_eq.
  - reflexivity.
Defined.

(** An id with a colon can be the key of another connection's pool: the write
    is checked against the permissions of the wrong connection. *)
Example ids_with_colons_are_confused :
  check_read_only_for_connection (H := ascii_only) (H0 := no_tokenizer) (H1 := no_words)
    (<[ lit "prod:app" := test_connection "prod:app" false ]> one_connection) ∅ None 0
    (pool_key_of (H := many_pools) (test_connection "prod" true) (lit "prod") (Some (lit "app")) None None Workload) delete_sql = Ok tt.
Proof. vm_compute. reflexivity. Qed.
