(* ===== verification/Federation.v ===== *)
(** * Federated queries (federated.rs, federation_schema_visibility.rs, query.rs)

    A table written as connection.database.table or
    connection.database.schema.table belongs to the connection it names.  A
    query over one such connection is rewritten and sent there, a query over
    several goes to an agent.  The syntax trees of the sqlparser crate are the
    class [SqlAst], which says what a visitor of the names of tables sees and
    changes; the regular expressions are the class [Regexes]. *)
From S2P Require Import Prelude WriteUnlock SqlDialect Identifiers QueryGuard PoolKeys.
Local Open Scope dbx_scope.

(** ** Names *)
Inductive ObjectNamePart :=
| Identifier (value : str) (quote_style : option char)
| FunctionPart (text : str).
#[export] Instance ObjectNamePart_eq_dec : EqDecision ObjectNamePart.
Proof. solve_decision. Defined.
Abbreviation ObjectName := (list ObjectNamePart) (only parsing).
(** [Ident::new] *)
Definition ident (value : str) : ObjectNamePart := Identifier value None.
Definition identifiers (name : ObjectName) : list str := omap (λ p, match p with Identifier v _ => Some v | FunctionPart _ => None end) name.

Class SqlAst := {
  statement : Type;
  parse_sql : str → option (list statement);
  statement_to_string : statement → str;
  name_to_string : ObjectName → str;
  relations : statement → list ObjectName;                          (* visit_relations *)
  map_relations : (ObjectName → ObjectName) → statement → statement; (* visit_relations_mut *)
}.
(** Names of tables in one parsed text are printed alike only if they are the
    same, and a visitor that changes names changes nothing else. *)
Class SqlAstLaws `{SqlAst} : Prop := {
  names_print_apart sql ss m n : parse_sql sql = Some ss → m ∈ ss ≫= relations → n ∈ ss ≫= relations →
    name_to_string m = name_to_string n → m = n;
  map_relations_ext f g s : (∀ n, n ∈ relations s → f n = g n) → map_relations f s = map_relations g s;
}.
Class Regexes := {
  escape : str → str;                                    (* regex::escape *)
  replace_all : str → (list str → str) → str → option str (* captures to replacement; None for a pattern that is not one *)
}.

Record FederatedTableRef := {
  original_name : str;
  connection_name : str;
  database_name : option str;
  schema_name : option str;
  ref_table_name : str;
  alias : option str;
}.
Record FederatedAnalysis := {
  table_refs : list FederatedTableRef;
  used_connections : list str;
  is_single_connection : bool;
  single_connection : option str;
  uses_federation_syntax : bool;
}.

(** ** Names of connections *)
Section names.
Context `{Letters, Unicode, Regexes}.

Definition needs_quoting (name : str) : bool :=
  let valid_start := match name with c :: _ => letter c || bool_decide (c = chr "_") | [] => false end in
  let valid_chars := forallb (λ c, letter_or_digit c || bool_decide (c = chr "_")) name in
  negb valid_start || negb valid_chars.
Definition validate_connection_name (name : str) : result unit str :=
  let trimmed := trim name in
  if decide (trimmed = []) then Ok tt
  else if needs_quoting trimmed then
    Err (lit "Connection name '" ++ trimmed ++
         lit "' contains characters that are invalid in SQL identifiers. Only letters, digits, and underscores are allowed, and the name must not start with a digit.")
  else Ok tt.

Definition capture (n : nat) (captures : list str) : str := default [] (captures !! n).
Definition name_pattern (name : str) : str := lit "(?i)(^|[^A-Za-z0-9_`" ++ [DQUOTE] ++ lit "])(" ++ escape name ++ lit ")\.".
Definition quote_name (text name : str) : str :=
  default text (replace_all (name_pattern name) (λ c, capture 1 c ++ [DQUOTE] ++ capture 2 c ++ [DQUOTE] ++ lit ".") text).
Definition preprocess_federated_sql (sql : str) (connection_names : list str) : str :=
  fold_left quote_name (filter (λ n, needs_quoting n = true) connection_names) sql.
Definition leading_dot_pattern : str := lit "(?i)([\s,(])(\.[A-Za-z_]\w*)".
Definition fix_leading_dot_table_refs (sql : str) : str :=
  default sql (replace_all leading_dot_pattern (λ c, capture 1 c ++ drop 1 (capture 2 c)) sql).
Definition prepared_sql (sql : str) (connection_names : list str) : str :=
  fix_leading_dot_table_refs (preprocess_federated_sql sql connection_names).

(** Of several connections with one name the last is kept. *)
Definition resolve_connection (connections : list ConnectionConfig) (name : str) : option ConnectionConfig :=
  match List.find (λ c, bool_decide (c_name c = name)) (reverse connections) with
  | Some c => Some c
  | None => List.find (λ c, bool_decide (to_lowercase (c_name c) = to_lowercase name)) (reverse connections)
  end.
End names.

(** ** Analysis *)
Section analysis.
Context `{Letters, Unicode, Regexes, SqlAst}.

Definition plain_ref (name : ObjectName) (schema : option str) (table : str) : FederatedTableRef :=
  {| original_name := name_to_string name; connection_name := []; database_name := None; schema_name := schema; ref_table_name := table; alias := None |}.
(** The database, schema and table that the parts after the connection name. *)
Definition named_table (rest : list str) : option (str * option str * str) :=
  match rest with
  | [database; table] => Some (database, None, table)
  | database :: schema :: table :: _ => Some (database, Some schema, table)
  | _ => None
  end.
(** The reference of a name, and whether it is a federated one. *)
Definition table_ref (connections : list ConnectionConfig) (name : ObjectName) : option (FederatedTableRef * bool) :=
  let parts := identifiers name in
  let plain := match parts with
               | schema :: table :: _ => Some (plain_ref name (Some schema) table, false)
               | [table] => Some (plain_ref name None table, false)
               | [] => None
               end in
  match parts with
  | first :: rest =>
      match named_table rest with
      | Some (database, schema, table) =>
          match resolve_connection connections first with
          | Some config =>
              Some ({| original_name := name_to_string name; connection_name := c_name config; database_name := Some database;
                       schema_name := schema; ref_table_name := table; alias := None |}, true)
          | None => plain
          end
      | None => plain
      end
  | [] => None
  end.
Definition extract_table_refs (connections : list ConnectionConfig) (stmt : statement) : list (FederatedTableRef * bool) :=
  omap (table_ref connections) (relations stmt).

Fixpoint first_appearances (seen names : list str) : list str :=
  match names with
  | [] => []
  | n :: rest => if decide (n = [] ∨ n ∈ seen) then first_appearances seen rest else n :: first_appearances (n :: seen) rest
  end.
Definition analyze_federation (sql : str) (connections : list ConnectionConfig) : FederatedAnalysis :=
  match parse_sql (prepared_sql sql (c_name <$> connections)) with
  | None => {| table_refs := []; used_connections := []; is_single_connection := true; single_connection := None; uses_federation_syntax := false |}
  | Some statements =>
      let refs := statements ≫= extract_table_refs connections in
      let seen := first_appearances [] (connection_name <$> refs.*1) in
      let single := bool_decide (length seen ≤ 1) in
      {| table_refs := refs.*1; used_connections := seen; is_single_connection := single;
         single_connection := if single then head seen else None; uses_federation_syntax := existsb snd refs |}
  end.

(** ** Rewriting for one connection *)
Definition get_default_schema (d : DatabaseType.t) (database : str) : str :=
  match d with
  | DatabaseType.Postgres | DatabaseType.Redshift | DatabaseType.Kingbase | DatabaseType.Highgo | DatabaseType.Uxdb | DatabaseType.Vastbase
  | DatabaseType.Gaussdb | DatabaseType.OpenGauss | DatabaseType.Kwdb | DatabaseType.Oscar | DatabaseType.Vertica | DatabaseType.Questdb => lit "public"
  | DatabaseType.Mysql | DatabaseType.Doris | DatabaseType.StarRocks | DatabaseType.Goldendb | DatabaseType.Gbase | DatabaseType.ManticoreSearch
  | DatabaseType.Databend | DatabaseType.ClickHouse | DatabaseType.Tdengine | DatabaseType.InfluxDb | DatabaseType.VictoriaMetrics => database
  | DatabaseType.Snowflake => lit "PUBLIC"
  | DatabaseType.Teradata | DatabaseType.Exasol | DatabaseType.Firebird => database
  | DatabaseType.SqlServer => lit "dbo"
  | DatabaseType.Oracle | DatabaseType.OceanbaseOracle | DatabaseType.Db2 | DatabaseType.Dameng => database
  | DatabaseType.Hive | DatabaseType.PrestoSql | DatabaseType.Trino | DatabaseType.Spark | DatabaseType.Kyuubi | DatabaseType.Impala
  | DatabaseType.Databricks => database
  | DatabaseType.Kylin | DatabaseType.Sundb => lit "PUBLIC"
  | DatabaseType.Sqlite | DatabaseType.Rqlite | DatabaseType.Turso | DatabaseType.CloudflareD1 => lit "main"
  | DatabaseType.Neo4j | DatabaseType.Cassandra | DatabaseType.Bigquery => database
  | DatabaseType.H2 | DatabaseType.Informix | DatabaseType.Xugu | DatabaseType.Yashandb => lit "PUBLIC"
  | _ => lit "public"
  end.
Definition default_schema_of (config : ConnectionConfig) : str :=
  default (get_default_schema (c_db_type config) (default [] (c_database config))) (c_default_schema config).
Definition new_parts (config : ConnectionConfig) (r : FederatedTableRef) : ObjectName :=
  let matches_conn := match database_name r with Some db => eq_ignore_ascii_case db (default [] (c_database config)) | None => false end in
  (if matches_conn then
     match schema_name r with
     | Some schema =>
         (if is_any_db [DatabaseType.Oracle; DatabaseType.OceanbaseOracle] (Some (c_db_type config)) then [ident (default_schema_of config)] else [])
         ++ [ident schema]
     | None => [ident (default_schema_of config)]
     end
   else
     match database_name r with Some db => [ident db] | None => [] end ++
     match schema_name r with Some schema => [ident schema] | None => [] end)
  ++ [ident (ref_table_name r)].
(** The map from printed names to their replacement: the last entry counts. *)
Definition rewrite_map (config : ConnectionConfig) (conn_name : str) (refs : list FederatedTableRef) : list (str * ObjectName) :=
  (λ r, (original_name r, new_parts config r)) <$> filter (λ r, connection_name r = conn_name) refs.
Definition map_get (m : list (str * ObjectName)) (k : str) : option ObjectName :=
  snd <$> List.find (λ kv : str * ObjectName, bool_decide (kv.1 = k)) (reverse m).
Definition replace_name (m : list (str * ObjectName)) (name : ObjectName) : ObjectName := default name (map_get m (name_to_string name)).
Definition find_connection (connections : list ConnectionConfig) (name : str) : option ConnectionConfig :=
  List.find (λ c, bool_decide (c_name c = name)) connections.
Definition rewrite_federated_sql (sql : str) (analysis : FederatedAnalysis) (connections : list ConnectionConfig) : option str :=
  if negb (uses_federation_syntax analysis) || negb (is_single_connection analysis) then None
  else
    conn_name ← single_connection analysis;
    config ← find_connection connections conn_name;
    let m := rewrite_map config conn_name (table_refs analysis) in
    if decide (m = []) then None
    else
      statements ← parse_sql (prepared_sql sql (used_connections analysis));
      Some (join (lit "; ") (statement_to_string ∘ map_relations (replace_name m) <$> statements)).

(** ** Permissions *)
Inductive FederationValidationError :=
| FederationNotEnabled (connection : str)
| SchemaNotVisible (connection schema : str).
Definition error_text (e : FederationValidationError) : str :=
  match e with
  | FederationNotEnabled conn =>
      lit "Connection '" ++ conn ++ lit "' does not have federated query enabled. Enable it in the connection settings."
  | SchemaNotVisible connection schema =>
      lit "Schema '" ++ schema ++ lit "' is not visible for connection '" ++ connection ++
      lit "'. Check the connection's visible schemas configuration."
  end.
Definition get_visible_schemas_for_database (config : ConnectionConfig) (database : str) : option (list str) :=
  m ← c_visible_schemas config; match m !! database with Some l => Some l | None => m !! lit "*" end.
Definition check_ref (connections : list ConnectionConfig) (r : FederatedTableRef) : result unit FederationValidationError :=
  if decide (connection_name r = []) then Ok tt
  else match resolve_connection connections (connection_name r) with
       | None => Ok tt
       | Some config =>
           if negb (c_federation_enabled config) then Err (FederationNotEnabled (connection_name r))
           else match schema_name r with
                | None => Ok tt
                | Some schema =>
                    let database := default (default [] (c_database config)) (database_name r) in
                    match get_visible_schemas_for_database config database with
                    | Some visible => if decide (schema ∈ visible) then Ok tt else Err (SchemaNotVisible (connection_name r) schema)
                    | None => Ok tt
                    end
                end
       end.
Fixpoint validate_refs (connections : list ConnectionConfig) (refs : list FederatedTableRef) : result unit FederationValidationError :=
  match refs with
  | [] => Ok tt
  | r :: rest => match check_ref connections r with Ok _ => validate_refs connections rest | Err e => Err e end
  end.
Definition validate_federation (analysis : FederatedAnalysis) (connections : list ConnectionConfig) : result unit FederationValidationError :=
  validate_refs connections (table_refs analysis).

(** ** Routes *)
Inductive route :=
| Direct (sql : str)
| OnConnection (config : ConnectionConfig) (sql : str)
| Agent (connections : list str) (sql : str).
(** The part of [execute_sql_statement_with_options_typed] between the checks
    and the pools; [info] says whether messages of that level are logged, which
    slices the text at byte 200 and can panic. *)
Definition federated_route (info : bool) (sql : str) (connections : list ConnectionConfig) : option (result route str) :=
  if info && bool_decide (slice_to (Nat.min (byte_len sql) 200) sql = None) then None
  else
    let analysis := analyze_federation sql connections in
    let valid := if uses_federation_syntax analysis then validate_federation analysis connections else Ok tt in
    Some (match valid with
          | Err e => Err (error_text e)
          | Ok _ =>
              if is_single_connection analysis && uses_federation_syntax analysis then
                match rewrite_federated_sql sql analysis connections with
                | Some rewritten =>
                    match single_connection analysis ≫= find_connection connections with
                    | Some config => Ok (OnConnection config rewritten)
                    | None => Ok (Direct rewritten)
                    end
                | None => Ok (Direct sql)
                end
              else if uses_federation_syntax analysis && negb (is_single_connection analysis)
              then Ok (Agent (used_connections analysis) (preprocess_federated_sql sql (used_connections analysis)))
              else Ok (Direct sql)
          end).
End analysis.

(** ** What a route means *)
(** The connection that a name belongs to, with the database, schema and table. *)
Definition owner `{Unicode} (connections : list ConnectionConfig) (name : ObjectName) : option (ConnectionConfig * (str * option str * str)) :=
  match identifiers name with
  | first :: rest => t ← named_table rest; c ← resolve_connection connections first; Some (c, t)
  | [] => None
  end.
(** Where a table is found by a session of the connection. *)
Definition relocated (config : ConnectionConfig) (database : str) (schema : option str) (table : str) : list str :=
  match eq_ignore_ascii_case database (default [] (c_database config)), schema with
  | true, None => [default_schema_of config; table]
  | true, Some s => if is_any_db [DatabaseType.Oracle; DatabaseType.OceanbaseOracle] (Some (c_db_type config))
                    then [default_schema_of config; s; table] else [s; table]
  | false, None => [database; table]
  | false, Some s => [database; s; table]
  end.
Definition relocate `{Unicode} (connections : list ConnectionConfig) (config : ConnectionConfig) (name : ObjectName) : ObjectName :=
  match owner connections name with
  | Some (c, (database, schema, table)) => if decide (c_name c = c_name config) then ident <$> relocated config database schema table else name
  | None => name
  end.

Lemma find_elem {A} (f : A → bool) l x : List.find f l = Some x → x ∈ l ∧ f x = true.
Proof. rewrite list_elem_of_In. apply find_some. Qed.

Section resolve.
Context `{Unicode} (connections : list ConnectionConfig).
Lemma resolve_elem name c : resolve_connection connections name = Some c → c ∈ connections.
Proof.
  unfold resolve_connection. destruct (List.find _ (reverse connections)) as [c' |] eqn:E.
  - intros [= ->]. apply find_elem in E as [Hin _]. by rewrite <- elem_of_reverse.
  - intros [Hin _]%find_elem. by rewrite <- elem_of_reverse.
Qed.
Hypothesis unique : NoDup (c_name <$> connections).
Lemma same_name c c' : c ∈ connections → c' ∈ connections → c_name c = c_name c' → c = c'.
Proof.
  intros [i Hi]%list_elem_of_lookup [j Hj]%list_elem_of_lookup E. assert (i = j) as ->; [| congruence].
  eapply NoDup_lookup; [exact unique | |]; rewrite list_lookup_fmap; [by rewrite Hi | rewrite Hj; cbn; by rewrite E].
Qed.
Lemma find_own_name l c : (∀ x, x ∈ l ↔ x ∈ connections) → c ∈ connections → List.find (λ x, bool_decide (c_name x = c_name c)) l = Some c.
Proof.
  intros Hl Hc. destruct (List.find _ l) as [c' |] eqn:E.
  - apply find_elem in E as [Hin He%bool_decide_eq_true]. f_equal. apply same_name; [by apply Hl | done | done].
  - exfalso. apply find_none with (x := c) in E; [| by apply list_elem_of_In, Hl]. by rewrite bool_decide_eq_true_2 in E.
Qed.
Lemma resolve_own_name c : c ∈ connections → resolve_connection connections (c_name c) = Some c.
Proof. intros Hc. unfold resolve_connection. rewrite (find_own_name (reverse connections) c); [done | intros x; apply elem_of_reverse | done]. Qed.
End resolve.

Lemma elem_of_first_appearances seen names n : n ∈ first_appearances seen names ↔ n ≠ [] ∧ n ∈ names ∧ n ∉ seen.
Proof.
  revert seen. induction names as [| m names IH]; intros seen; cbn [first_appearances].
  - split; [by intros Hn%not_elem_of_nil | by intros (_ & Hn%not_elem_of_nil & _)].
  - destruct (decide (m = [] ∨ m ∈ seen)) as [Hm | Hm].
    + rewrite IH, elem_of_cons. split; [tauto |]. intros (Hn & [-> | Hin] & Hs); tauto.
    + rewrite elem_of_cons, IH, !elem_of_cons. split.
      * intros [-> | (Hn & Hin & Hs)]; [tauto |]. split; [done |]. split; [tauto |]. intros ?. apply Hs. by right.
      * intros (Hn & [-> | Hin] & Hs); [by left |]. destruct (decide (n = m)) as [-> | Hne]; [by left | right]. split; [done |]. split; [done |].
        tauto.
Qed.

Section facts.
Context `{Letters, Unicode, Regexes, SqlAst}.
Context (connections : list ConnectionConfig).

Lemma table_ref_owner name :
  table_ref connections name =
  match owner connections name with
  | Some (c, (database, schema, table)) =>
      Some ({| original_name := name_to_string name; connection_name := c_name c; database_name := Some database;
               schema_name := schema; ref_table_name := table; alias := None |}, true)
  | None => match identifiers name with
            | schema :: table :: _ => Some (plain_ref name (Some schema) table, false)
            | [table] => Some (plain_ref name None table, false)
            | [] => None
            end
  end.
Proof.
  unfold table_ref, owner. destruct (identifiers name) as [| first rest]; [done |]. destruct (named_table rest) as [[[database schema] table] |]; [| done].
  cbn [mbind option_bind]. by destruct (resolve_connection connections first).
Qed.
Lemma table_ref_prints name r b : table_ref connections name = Some (r, b) → original_name r = name_to_string name.
Proof.
  rewrite table_ref_owner. destruct (owner connections name) as [[c [[database schema] table]] |]; [by intros [= <- <-] |].
  by destruct (identifiers name) as [| ? [| ? ?]]; intros [= <- <-].
Qed.
Lemma elem_of_refs ss r b :
  (r, b) ∈ ss ≫= extract_table_refs connections ↔ ∃ n, n ∈ ss ≫= relations ∧ table_ref connections n = Some (r, b).
Proof.
  rewrite list_elem_of_bind. unfold extract_table_refs. setoid_rewrite list_elem_of_omap. setoid_rewrite list_elem_of_bind. split.
  - intros (s & (n & Hn & Ht) & Hs). exists n. split; [by exists s | done].
  - intros (n & (s & Hn & Hs) & Ht). exists s. split; [by exists n | done].
Qed.
End facts.

Section routes.
Context `{Letters, Unicode, Regexes, SqlAst} {laws : SqlAstLaws}.
Context (connections : list ConnectionConfig).

Lemma map_get_spec (m : list (str * ObjectName)) k :
  match map_get m k with Some v => (k, v) ∈ m | None => ∀ v, (k, v) ∉ m end.
Proof using.
  unfold map_get. destruct (List.find _ (reverse m)) as [[k' v] |] eqn:E; cbn.
  - apply find_elem in E as [Hin Hk%bool_decide_eq_true]. cbn in Hk. subst k'. by rewrite elem_of_reverse in Hin.
  - intros v Hin. eapply find_none in E; [| apply list_elem_of_In, elem_of_reverse, Hin]. cbn in E. by rewrite bool_decide_eq_true_2 in E.
Qed.
Lemma new_parts_relocated config name c database schema table :
  new_parts config {| original_name := name; connection_name := c; database_name := Some database; schema_name := schema; ref_table_name := table; alias := None |}
  = ident <$> relocated config database schema table.
Proof using. unfold new_parts, relocated. cbn [database_name schema_name ref_table_name]. destruct (eq_ignore_ascii_case _ _), schema; try done. by destruct (is_any_db _ _). Qed.

(** The map of printed names replaces a name of the query by its place in the
    database of the connection, and leaves the other names alone. *)
Lemma replace_relocates sql ss config n :
  parse_sql sql = Some ss → n ∈ ss ≫= relations → c_name config ≠ [] →
  replace_name (rewrite_map config (c_name config) (ss ≫= extract_table_refs connections).*1) n = relocate connections config n.
Proof using laws.
  intros Hss Hn Hc. unfold replace_name.
  pose proof (map_get_spec (rewrite_map config (c_name config) (ss ≫= extract_table_refs connections).*1) (name_to_string n)) as Hm.
  destruct (map_get _ _) as [v |]; cbn [default].
  - apply list_elem_of_fmap in Hm as (r & [= Ho ->] & (Hr & ([r' b] & -> & Hin)%list_elem_of_fmap)%list_elem_of_filter). cbn in Ho, Hr.
    apply elem_of_refs in Hin as (n' & Hn' & Ht). assert (n' = n) as ->.
    { eapply names_print_apart; [done | done | done |]. by rewrite <- (table_ref_prints connections _ _ _ Ht). }
    cbn [fst] in *. rewrite table_ref_owner in Ht. unfold relocate. destruct (owner connections n) as [[c [[database schema] table]] |].
    + injection Ht as <- <-. cbn in Hr. rewrite decide_True by done. apply new_parts_relocated.
    + destruct (identifiers n) as [| ? [| ? ?]]; [done | |]; injection Ht as <- <-; cbn in Hr; congruence.
  - unfold relocate. destruct (owner connections n) as [[c [[database schema] table]] |] eqn:Eo; [| done].
    destruct (decide _) as [E |]; [exfalso | done].
    set (r := {| original_name := name_to_string n; connection_name := c_name c; database_name := Some database; schema_name := schema;
                 ref_table_name := table; alias := None |}).
    apply (Hm (new_parts config r)), list_elem_of_fmap. exists r. split; [done |]. apply list_elem_of_filter. split; [exact E |].
    apply list_elem_of_fmap. exists (r, true). split; [done |]. apply elem_of_refs. exists n. split; [done |]. by rewrite table_ref_owner, Eo.
Qed.

(** The connections used are those that own a name. *)
Lemma used_owner ss n c t :
  n ∈ ss ≫= relations → owner connections n = Some (c, t) → c_name c ≠ [] →
  c_name c ∈ first_appearances [] (connection_name <$> (ss ≫= extract_table_refs connections).*1).
Proof using.
  intros Hn Ho Hc. destruct t as [[database schema] table]. apply elem_of_first_appearances. split; [done |]. split; [| apply not_elem_of_nil].
  rewrite <- list_fmap_compose. apply list_elem_of_fmap. eexists (_, true). split; [| apply elem_of_refs; exists n; split; [done |]; by rewrite table_ref_owner, Ho]. done.
Qed.
Lemma singleton_elem {A} (l : list A) x y : length l ≤ 1 → head l = Some x → y ∈ l → y = x.
Proof using. destruct l as [| a [| b l]]; cbn; [done | | lia]. intros _ [= ->] Hy. by apply list_elem_of_singleton in Hy. Qed.

(** C18: A federated query that is sent to one connection is the parsed text in which every table of
    that connection is renamed to where a session of the connection finds it (its own database is
    replaced by the default schema, another database and a schema are kept) and no other name
    changes; every table with a connection prefix belongs to that connection. Names of connections
    are distinct, and quoting the names of the used connections prepares the text like quoting all
    of them. *)
Theorem federated_tables_are_relocated info sql config out :
  NoDup (c_name <$> connections) →
  prepared_sql sql (used_connections (analyze_federation sql connections)) = prepared_sql sql (c_name <$> connections) →
  federated_route info sql connections = Some (Ok (OnConnection config out)) →
  ∃ ss, parse_sql (prepared_sql sql (c_name <$> connections)) = Some ss ∧ config ∈ connections ∧
    out = join (lit "; ") (statement_to_string ∘ map_relations (relocate connections config) <$> ss) ∧
    ∀ n c t, n ∈ ss ≫= relations → owner connections n = Some (c, t) → c_name c ≠ [] → c = config.
Proof using laws.
  intros Hu Hprep Hroute. unfold federated_route in Hroute. destruct (info && _); [done |]. apply some_inj in Hroute.
  destruct (if uses_federation_syntax _ then _ else _); [| done].
  destruct (is_single_connection _ && uses_federation_syntax _) eqn:Es; [| destruct (uses_federation_syntax _ && negb _); discriminate Hroute].
  destruct (rewrite_federated_sql _ _ _) as [rewritten |] eqn:Er; [| done].
  destruct (single_connection _ ≫= _) as [config' |] eqn:Ec; [| done]. injection Hroute as -> ->.
  unfold rewrite_federated_sql in Er. rewrite Hprep in Er. apply andb_true_iff in Es as [Es1 Es2]. rewrite Es1, Es2 in Er. cbn [negb orb] in Er.
  destruct (single_connection _) as [conn_name |] eqn:En; [| done]. cbn [mbind option_bind] in Er, Ec. rewrite Ec in Er. cbn [mbind option_bind] in Er.
  apply find_elem in Ec as [Hin Hname%bool_decide_eq_true]. subst conn_name. destruct (decide _) as [| _]; [done |].
  destruct (parse_sql (prepared_sql sql (c_name <$> connections))) as [ss |] eqn:Ep; [| done]. cbn [mbind option_bind] in Er.
  unfold analyze_federation in En, Es1, Er. rewrite Ep in En, Es1, Er. cbn [single_connection is_single_connection table_refs] in En, Es1, Er.
  apply bool_decide_eq_true in Es1. rewrite bool_decide_eq_true_2 in En by done. apply some_inj in Er as <-.
  assert (c_name config ≠ []) as Hne.
  { assert (c_name config ∈ first_appearances [] (connection_name <$> (ss ≫= extract_table_refs connections).*1)) as Hf by (by apply head_Some_elem_of).
    by apply elem_of_first_appearances in Hf as (? & _). }
  exists ss. split; [done |]. split; [done |]. split.
  - f_equal. apply list_fmap_ext. intros i s Hs. cbn. f_equal. apply map_relations_ext. intros n Hn. eapply replace_relocates; [done | | done].
    apply list_elem_of_bind. exists s. split; [done |]. by eapply list_elem_of_lookup_2.
  - intros n c t Hn Ho Hc. apply (same_name connections Hu); [| done | eapply singleton_elem; [exact Es1 | exact En | by eapply used_owner]].
    unfold owner in Ho. destruct (identifiers n) as [| first rest]; [done |]. destruct (named_table rest); [| done]. cbn [mbind option_bind] in Ho.
    destruct (resolve_connection connections first) eqn:E; [| done]. injection Ho as <- <-. by eapply resolve_elem.
Qed.
Lemma check_all_refs refs r : validate_refs connections refs = Ok tt → r ∈ refs → check_ref connections r = Ok tt.
Proof using.
  induction refs as [| x refs IH]; cbn; [by intros _ Hr%not_elem_of_nil |]. destruct (check_ref connections x) as [[] |] eqn:E; [| done].
  intros Hv [-> | Hr]%elem_of_cons; [done | by apply IH].
Qed.
Lemma owner_elem n c t : owner connections n = Some (c, t) → c ∈ connections.
Proof using.
  unfold owner. destruct (identifiers n) as [| first rest]; [done |]. destruct (named_table rest); [| done]. cbn [mbind option_bind].
  destruct (resolve_connection connections first) eqn:E; [| done]. intros [= <- <-]. by eapply resolve_elem.
Qed.

Lemma checked_owner info sql r ss n c database schema table :
  NoDup (c_name <$> connections) → federated_route info sql connections = Some (Ok r) →
  parse_sql (prepared_sql sql (c_name <$> connections)) = Some ss → n ∈ ss ≫= relations →
  owner connections n = Some (c, (database, schema, table)) → c_name c ≠ [] →
  c_federation_enabled c = true ∧
  ∀ s visible, schema = Some s → get_visible_schemas_for_database c database = Some visible → s ∈ visible.
Proof using.
  intros Hu Hroute Hp Hn Ho Hc. unfold federated_route in Hroute. destruct (info && _); [done |]. apply some_inj in Hroute.
  unfold analyze_federation in Hroute. rewrite Hp in Hroute. cbn [uses_federation_syntax] in Hroute.
  set (fr := {| original_name := name_to_string n; connection_name := c_name c; database_name := Some database; schema_name := schema;
                ref_table_name := table; alias := None |}).
  assert ((fr, true) ∈ ss ≫= extract_table_refs connections) as Hin by (apply elem_of_refs; exists n; split; [done |]; by rewrite table_ref_owner, Ho).
  destruct (existsb snd (ss ≫= extract_table_refs connections)) eqn:Ee.
  2: { exfalso. apply not_true_iff_false in Ee. apply Ee, existsb_exists. exists (fr, true). split; [by apply list_elem_of_In | done]. }
  unfold validate_federation in Hroute. cbn [table_refs] in Hroute. destruct (validate_refs _ _) as [[] |] eqn:Ev; [| done].
  apply (check_all_refs _ fr) in Ev; [| apply list_elem_of_fmap; by exists (fr, true)].
  unfold check_ref in Ev. cbn [connection_name schema_name database_name fr] in Ev. rewrite decide_False in Ev by done.
  rewrite (resolve_own_name connections Hu) in Ev by (by eapply owner_elem). destruct (c_federation_enabled c); [| done]. split; [done |].
  intros s visible -> Hvis. cbn [negb from_option id] in Ev. rewrite Hvis in Ev. by destruct (decide _).
Qed.

(** C19: With distinct connection names, for a statement that parses and whatever route it takes:
    for every table that it names by three or more parts of which the first is a connection (with a
    name that is not empty), that connection takes part in federated queries; and in a name of four
    parts or more, connection.database.schema.table, the schema is among those visible for that
    database, if a list of them is configured. In a name of three parts the middle one is taken for
    the database, and is not looked up among the schemas. *)
Theorem federated_access_is_checked info sql r ss n prefix rest c :
  NoDup (c_name <$> connections) → federated_route info sql connections = Some (Ok r) →
  parse_sql (prepared_sql sql (c_name <$> connections)) = Some ss → n ∈ ss ≫= relations →
  identifiers n = prefix :: rest → 2 ≤ length rest → resolve_connection connections prefix = Some c → c_name c ≠ [] →
  c_federation_enabled c = true ∧
  ∀ database schema table more visible, rest = database :: schema :: table :: more →
    get_visible_schemas_for_database c database = Some visible → schema ∈ visible.
Proof using.
  intros Hu Hroute Hp Hn Hi Hl Hc Hne.
  assert (∃ t, named_table rest = Some t ∧ owner connections n = Some (c, t)) as ([[database schema] table] & Ht & Ho).
  { unfold owner. rewrite Hi, Hc. destruct rest as [| x [| y [| z rest]]]; cbn in *; eauto; lia. }
  destruct (checked_owner info sql r ss n c database schema table Hu Hroute Hp Hn Ho Hne) as [He Hv]. split; [done |].
  intros database' schema' table' more visible -> Hvis. cbn in Ht. injection Ht as <- <- <-. by eapply Hv.
Qed.
End routes.

Section dispatch.
Context `{Letters, Regexes, SqlAst, DriverManifest, Unicode, OracleTokenizer, WordTokenizer}.

Lemma route_elem info sql connections config out :
  federated_route info sql connections = Some (Ok (OnConnection config out)) → config ∈ connections.
Proof.
  unfold federated_route. destruct (info && _); [done |]. intros Hr%some_inj.
  destruct (if uses_federation_syntax _ then _ else _); [| done].
  destruct (is_single_connection _ && uses_federation_syntax _); [| destruct (uses_federation_syntax _ && negb _); discriminate Hr].
  destruct (rewrite_federated_sql _ _ _); [| done]. destruct (single_connection _ ≫= _) as [c |] eqn:E; [| done]. injection Hr as -> _.
  apply bind_Some in E as (name & _ & E). by apply find_elem in E as [Hin _].
Qed.

(** C20: A rewritten query that is routed to another connection passes the read-only check of the
    pool it runs in, found again from the key of the pool, exactly if that connection is not read-
    only, or its write window is open for the session, or the text is not a write for its database;
    ids of connections have no colon. *)
Theorem federated_writes_are_checked_where_they_run (configs : gmap str ConnectionConfig) (windows : gmap WriteUnlockKey N) (session_owner : option str)
    (now : N) info sql config out database catalog session role :
  (∀ id c, configs !! id = Some c → c_id c = id ∧ COLON ∉ id) →
  federated_route info sql (snd <$> map_to_list configs) = Some (Ok (OnConnection config out)) →
  check_read_only_for_connection configs windows session_owner now (pool_key_of config (c_id config) database catalog session role) out = Ok tt ↔
  c_read_only config = false ∨ (is_active session_owner now (c_id config) windows).2 = true ∨ is_write_sql_for_database out (c_db_type config) = false.
Proof.
  intros Hids Hr. apply route_elem in Hr. apply list_elem_of_fmap in Hr as ([id c] & -> & Hc%elem_of_map_to_list). cbn [snd].
  destruct (Hids id c Hc) as [-> _]. apply read_only_pools_run_only_reads; [| done | by apply Hids].
  intros id' [c' Hc']. by apply (Hids id' c').
Qed.
End dispatch.

(** ** Visibility of schemas *)
Record FederationVisibilityConfig := {
  v_connection_id : str;
  v_default_schema : str;
  allow_all_schemas : bool;
  allowed_schemas : list str;
  excluded_schemas : list str;
  excluded_tables : list str;
  include_system_schemas : bool;
}.
Definition default_public_schema : str := lit "public".
Definition new_visibility (connection_id : str) : FederationVisibilityConfig :=
  {| v_connection_id := connection_id; v_default_schema := default_public_schema; allow_all_schemas := true; allowed_schemas := [];
     excluded_schemas := []; excluded_tables := []; include_system_schemas := false |}.
Section visibility.
Context `{Unicode}.
Definition is_system_schema (schema : str) : bool :=
  bool_decide (to_lowercase schema ∈ [lit "information_schema"; lit "pg_catalog"; lit "sys"; lit "mysql"; lit "performance_schema"]).
Definition is_schema_accessible (v : FederationVisibilityConfig) (schema : str) : bool :=
  if bool_decide (schema = v_default_schema v) then true
  else if negb (include_system_schemas v) && is_system_schema schema then false
  else if bool_decide (schema ∈ excluded_schemas v) then false
  else if allow_all_schemas v then true
  else bool_decide (schema ∈ allowed_schemas v).
Definition qualified (schema table : str) : str := schema ++ lit "." ++ table.
Definition is_table_accessible (v : FederationVisibilityConfig) (schema table : str) : bool :=
  if negb (is_schema_accessible v schema) then false else negb (bool_decide (qualified schema table ∈ excluded_tables v)).
Definition get_accessible_schemas (v : FederationVisibilityConfig) (available : list str) : list str :=
  filter (λ s, is_schema_accessible v s = true) available.
End visibility.
Definition push_new (x : str) (l : list str) : list str := if decide (x ∈ l) then l else l ++ [x].
Definition without (x : str) (l : list str) : list str := filter (λ y, y ≠ x) l.
Definition with_lists (v : FederationVisibilityConfig) (allowed excluded tables : list str) : FederationVisibilityConfig :=
  {| v_connection_id := v_connection_id v; v_default_schema := v_default_schema v; allow_all_schemas := allow_all_schemas v; allowed_schemas := allowed;
     excluded_schemas := excluded; excluded_tables := tables; include_system_schemas := include_system_schemas v |}.
Definition add_excluded_schema (schema : str) (v : FederationVisibilityConfig) := with_lists v (allowed_schemas v) (push_new schema (excluded_schemas v)) (excluded_tables v).
Definition remove_excluded_schema (schema : str) (v : FederationVisibilityConfig) := with_lists v (allowed_schemas v) (without schema (excluded_schemas v)) (excluded_tables v).
Definition add_allowed_schema (schema : str) (v : FederationVisibilityConfig) := with_lists v (push_new schema (allowed_schemas v)) (excluded_schemas v) (excluded_tables v).
Definition remove_allowed_schema (schema : str) (v : FederationVisibilityConfig) := with_lists v (without schema (allowed_schemas v)) (excluded_schemas v) (excluded_tables v).
Definition add_excluded_table (schema table : str) (v : FederationVisibilityConfig) :=
  with_lists v (allowed_schemas v) (excluded_schemas v) (push_new (qualified schema table) (excluded_tables v)).
Definition remove_excluded_table (schema table : str) (v : FederationVisibilityConfig) :=
  with_lists v (allowed_schemas v) (excluded_schemas v) (without (qualified schema table) (excluded_tables v)).

(** The manager keeps a configuration per connection. *)
Abbreviation FederationVisibilityManager := (gmap str FederationVisibilityConfig) (only parsing).
Definition get_or_create_config (connection_id : str) (m : FederationVisibilityManager) : FederationVisibilityManager * FederationVisibilityConfig :=
  match m !! connection_id with
  | Some v => (m, v)
  | None => (<[connection_id := new_visibility connection_id]> m, new_visibility connection_id)
  end.
Definition get_config (connection_id : str) (m : FederationVisibilityManager) : option FederationVisibilityConfig := m !! connection_id.
Definition has_config (connection_id : str) (m : FederationVisibilityManager) : bool := bool_decide (is_Some (m !! connection_id)).
Definition remove_config (connection_id : str) (m : FederationVisibilityManager) : FederationVisibilityManager * option FederationVisibilityConfig :=
  (delete connection_id m, m !! connection_id).
Definition connection_ids (m : FederationVisibilityManager) : list str := (map_to_list m).*1.

Lemma elem_of_push_new x y l : y ∈ push_new x l ↔ y = x ∨ y ∈ l.
Proof. unfold push_new. destruct (decide _) as [Hx |]; [split; [auto | by intros [-> |]] |]. rewrite elem_of_app, list_elem_of_singleton. tauto. Qed.
Lemma elem_of_without x y l : y ∈ without x l ↔ y ≠ x ∧ y ∈ l.
Proof. unfold without. by rewrite list_elem_of_filter. Qed.
(** Excluding a schema hides it, unless it is the default one, and touches no
    other; taking the exclusion back restores what was visible before. *)
Lemma excluded_schemas_are_hidden `{Unicode} v schema other :
  is_schema_accessible (add_excluded_schema schema v) other =
    (if decide (other = schema ∧ other ≠ v_default_schema v) then false else is_schema_accessible v other) ∧
  (schema ∉ excluded_schemas v → is_schema_accessible (remove_excluded_schema schema (add_excluded_schema schema v)) other = is_schema_accessible v other).
Proof.
  unfold is_schema_accessible, add_excluded_schema, remove_excluded_schema, with_lists.
  cbn [v_default_schema include_system_schemas excluded_schemas allow_all_schemas allowed_schemas].
  assert (∀ a b : list str, (other ∈ a ↔ other ∈ b) → bool_decide (other ∈ a) = bool_decide (other ∈ b)) as Hd by (intros a b Hab; by apply bool_decide_ext).
  split.
  - destruct (decide (other = v_default_schema v)) as [-> | Hn].
    + rewrite bool_decide_eq_true_2 by done. by destruct (decide _) as [[_ ?] |].
    + rewrite (bool_decide_eq_false_2 (other = v_default_schema v)) by done. destruct (decide (other = schema ∧ _)) as [[-> _] | Hd'].
      * rewrite (bool_decide_eq_true_2 (schema ∈ _)) by (apply elem_of_push_new; auto). by destruct (_ && _).
      * rewrite (Hd (push_new schema (excluded_schemas v)) (excluded_schemas v)); [done |]. rewrite elem_of_push_new. split; [intros [-> |]; [tauto | done] | auto].
  - intros Hs. rewrite (Hd (without schema (push_new schema (excluded_schemas v))) (excluded_schemas v)); [done |].
    rewrite elem_of_without, elem_of_push_new. split; [intros [? [|]]; done |]. intros Hin. split; [| auto]. by intros ->.
Qed.

(** ** Examples *)
(** Queries that are nothing but names of tables, separated by blanks. *)
Definition word_name (w : str) : ObjectName := ident <$> split_char (chr ".") w.
Definition print_part (p : ObjectNamePart) : str :=
  match p with Identifier v None => v | Identifier v (Some q) => [q] ++ v ++ [q] | FunctionPart t => t end.
Definition print_name (n : ObjectName) : str := join [chr "."] (print_part <$> n).
Definition name_lists : SqlAst := {|
  statement := list ObjectName;
  parse_sql := λ sql, Some [word_name <$> split_char SPACE sql];
  statement_to_string := λ s, join [SPACE] (print_name <$> s);
  name_to_string := print_name;
  relations := id;
  map_relations := λ f s, f <$> s;
|}.
Lemma name_lists_laws : SqlAstLaws (H := name_lists).
Proof.
  split.
  - cbn. intros sql ss m n [= <-] Hm Hn. cbn in Hm, Hn. rewrite app_nil_r in Hm, Hn.
    apply list_elem_of_fmap in Hm as (v & -> & _). apply list_elem_of_fmap in Hn as (w & -> & _).
    assert (∀ w, print_name (word_name w) = w) as Hp.
    { intros w'. unfold print_name, word_name. rewrite <- list_fmap_compose. rewrite <- (join_split_char (chr ".") w') at 2.
      f_equal. apply list_fmap_id. }
    rewrite !Hp. by intros ->.
  - cbn. intros f g s Hf. apply list_fmap_ext. intros i n Hn. apply Hf. by eapply list_elem_of_lookup_2.
Qed.
Definition no_regexes : Regexes := {| escape := id; replace_all := λ _ _ text, Some text |}.
Definition federated_connection (name db : string) (schemas : option (list str)) : ConnectionConfig :=
  {| c_id := lit name; c_name := lit name; c_db_type := DatabaseType.Postgres; c_host := lit "localhost"; c_port := 5432; c_database := Some (lit db);
     c_default_schema := None; c_visible_schemas := (λ l, {[ lit "*" := l ]}) <$> schemas; c_read_only := false; c_federation_enabled := true;
     c_is_production := false; c_production_databases := [] |}.
Definition pg : ConnectionConfig := federated_connection "pg" "shop" (Some [lit "open"]).
Definition two_connections : list ConnectionConfig := [pg; federated_connection "other" "x" None].
Definition route_of (sql : string) : option (result route str) :=
  federated_route (H := no_letters) (H0 := ascii_only) (H1 := no_regexes) (H2 := name_lists) true (lit sql) two_connections.

Lemma federated_tables_are_relocated_witness :
  ∃ ss, parse_sql (SqlAst := name_lists) (lit "PG.shop.users pg.shop.open.items local.t") = Some ss ∧ pg ∈ two_connections ∧
    lit "public.users open.items local.t" =
      join (lit "; ") (statement_to_string (SqlAst := name_lists) ∘
        map_relations (SqlAst := name_lists) (relocate (H := ascii_only) two_connections pg) <$> ss).
Proof.
  destruct (federated_tables_are_relocated (H := no_letters) (H0 := ascii_only) (H1 := no_regexes) (H2 := name_lists) (laws := name_lists_laws)
    two_connections true (lit "PG.shop.users pg.shop.open.items local.t") pg (lit "public.users open.items local.t")) as (ss & Hss & Hin & Hout & _).
  - apply (bool_decide_unpack _). vm_compute. exact I.
  - vm_compute. reflexivity.
  - vm_compute. reflexivity.
  - exists ss. split; [exact Hss |]. split; [exact Hin | exact Hout].
Defined.

Lemma federated_access_is_checked_witness : c_federation_enabled pg = true ∧ lit "open" ∈ [lit "open"].
Proof.
  destruct (federated_access_is_checked (H := no_letters) (H0 := ascii_only) (H1 := no_regexes) (H2 := name_lists)
    two_connections true (lit "pg.shop.open.items") (OnConnection pg (lit "open.items")) [[word_name (lit "pg.shop.open.items")]]
    (word_name (lit "pg.shop.open.items")) (lit "pg") [lit "shop"; lit "open"; lit "items"] pg) as [He Hv].
  - apply (bool_decide_unpack _). vm_compute. exact I.
  - vm_compute. reflexivity.
  - vm_compute. reflexivity.
  - left.
  - vm_compute. reflexivity.
  - cbn. lia.
  - vm_compute. reflexivity.
  - discriminate.
  - split; [exact He |]. apply (Hv (lit "shop") (lit "open") (lit "items") []); vm_compute; reflexivity.
Defined.

(** The schema of a name with three parts is not checked: a schema that is
    hidden for four parts is reached when it stands for the database. *)
Example three_parts_reach_hidden_schemas :
  route_of "pg.shop.secret.items" = Some (Err (lit "Schema 'secret' is not visible for connection 'pg'. Check the connection's visible schemas configuration.")) ∧
  route_of "pg.secret.items" = Some (Ok (OnConnection pg (lit "secret.items"))).
Proof. split; vm_compute; reflexivity. Qed.

(** Quoted names lose their quotes when they are rewritten. *)
Example rewritten_names_lose_their_quotes (v : str) (q : char) :
  relocate (H := ascii_only) two_connections pg [ident (lit "pg"); ident (lit "shop"); Identifier v (Some q)] = [ident (lit "public"); ident v].
Proof. vm_compute. reflexivity. Qed.

(** The message that is logged before every statement slices it at byte 200. *)
Example long_statements_can_panic :
  federated_route (H := no_letters) (H0 := ascii_only) (H1 := no_regexes) (H2 := name_lists) true (replicate 199 (chr "x") ++ [8364%N]) two_connections = None.
Proof. vm_compute. reflexivity. Qed.

(** Matches of [leading_dot_pattern] in a text of ASCII characters. *)
Fixpoint strip_dots (f : list str → str) (fuel : nat) (s : str) : str :=
  match fuel, s with
  | S fuel, p :: d :: r =>
      let word := take_while (λ c, is_ascii_alphanumeric c || bool_decide (c = chr "_")) r in
      if (is_whitespace p || bool_decide (p = chr "," ∨ p = chr "(")) && bool_decide (d = chr ".")
         && match word with c :: _ => negb (is_ascii_digit c) | [] => false end
      then f [p :: d :: word; [p]; d :: word] ++ strip_dots f fuel (drop (length word) r)
      else p :: strip_dots f fuel (d :: r)
  | _, _ => s
  end.
Definition dot_regex : Regexes := {| escape := id; replace_all := λ pattern f text,
  Some (if decide (pattern = leading_dot_pattern) then strip_dots f (length text) text else text) |}.
(** The repair of dots before names also changes texts between quotes. *)
Example dots_are_removed_from_literals :
  fix_leading_dot_table_refs (H1 := dot_regex) (lit "SELECT * FROM pg.shop.t WHERE f LIKE '% .txt'") = lit "SELECT * FROM pg.shop.t WHERE f LIKE '% txt'".
Proof. vm_compute. reflexivity. Qed.

Definition shop_configs : gmap str ConnectionConfig := {[ lit "pg" := pg ]}.
Lemma federated_writes_are_checked_where_they_run_witness :
  check_read_only_for_connection (H := ascii_only) (H0 := no_tokenizer) (H1 := no_words) shop_configs ∅ None 0
    (pool_key_of (H := many_pools) pg (lit "pg") (Some (lit "app")) None None Workload) (lit "public.users") = Ok tt ↔
  c_read_only pg = false ∨ (is_active None 0 (lit "pg") ∅).2 = true ∨
  is_write_sql_for_database (H := ascii_only) (H0 := no_tokenizer) (H1 := no_words) (lit "public.users") DatabaseType.Postgres = false.
Proof.
  apply (federated_writes_are_checked_where_they_run (H := no_letters) (H0 := no_regexes) (H1 := name_lists) (H2 := many_pools) (H3 := ascii_only)
    (H4 := no_tokenizer) (H5 := no_words) shop_configs ∅ None 0 false (lit "pg.shop.users") pg (lit "public.users")).
  - intros id c Hc. unfold shop_configs in Hc. apply lookup_singleton_Some in Hc as [<- <-]. split; [reflexivity |].
    apply (bool_decide_unpack _). vm_compute. exact I.
  - vm_compute. reflexivity.
Defined.
