(* ===== verification/SqlRisk.v ===== *)
(** * Risk of SQL statements (sql_risk.rs)

    The classification of statements for agents: read, write, DDL or
    transaction control, and whether a write needs the permission for dangerous
    operations.  The syntax tree is that of the [sqlparser] crate, reduced to
    the constructors and fields the classifier looks at; the others are
    [EOther] and [SOther], with the expressions inside them.  A subquery in an
    expression is the list of the expressions in it, in the order of
    [visit_expressions].  The parser, the tokenizer and the derived order on
    expressions are parameters. *)
From S2P Require Import Prelude Floats SqlDialect SqlSplitter SqlFile QueryGuard.
Local Open Scope dbx_scope.

Inductive SqlRisk := RiskReadOnly | RiskWrite | RiskDdl | RiskTransaction.
#[export] Instance SqlRisk_eq_dec : EqDecision SqlRisk.
Proof. solve_decision. Defined.

Definition risk_display (r : SqlRisk) : str :=
  match r with
  | RiskReadOnly => lit "read-only" | RiskWrite => lit "write" | RiskDdl => lit "DDL" | RiskTransaction => lit "transaction"
  end.
(** [risk as u8] *)
Definition risk_rank (r : SqlRisk) : nat :=
  match r with RiskReadOnly => 0 | RiskWrite => 1 | RiskDdl => 2 | RiskTransaction => 3 end.

(** ** The syntax tree *)
Inductive Value :=
| VNumber (text : str) | VBoolean (b : bool) | VNull | VSingleQuotedString (s : str) | VOther (tag : N).
#[export] Instance Value_eq_dec : EqDecision Value.
Proof. solve_decision. Defined.

Inductive UnaryOperator := UNot | UOther (tag : N).
#[export] Instance UnaryOperator_eq_dec : EqDecision UnaryOperator.
Proof. solve_decision. Defined.

Inductive BinaryOperator :=
| BAnd | BOr | BEq | BNotEq | BGt | BLt | BGtEq | BLtEq | BSpaceship | BOther (tag : N).
#[export] Instance BinaryOperator_eq_dec : EqDecision BinaryOperator.
Proof. solve_decision. Defined.

Inductive Expr :=
| EIdentifier (value : str)
| ECompoundIdentifier (parts : list str)
| EValue (v : Value)
| ENested (e : Expr)
| EUnaryOp (op : UnaryOperator) (e : Expr)
| EBinaryOp (left : Expr) (op : BinaryOperator) (right : Expr)
| EIsNotDistinctFrom (left right : Expr)
| EIsDistinctFrom (left right : Expr)
| EIsTrue (e : Expr) | EIsNotTrue (e : Expr) | EIsFalse (e : Expr) | EIsNotFalse (e : Expr)
| EIsNull (e : Expr) | EIsNotNull (e : Expr)
| ELike (case_insensitive negated any : bool) (e pattern : Expr) (escape_char : option Value)
| EInList (e : Expr) (items : list Expr) (negated : bool)
| EBetween (e : Expr) (negated : bool) (low high : Expr)
| EFunction (last_name : option str) (args : list Expr)
| EInSubquery (e : Expr) (inner : list Expr)
| EExists (inner : list Expr)
| ESubquery (inner : list Expr)
| EOther (tag : N) (inner : list Expr).

(** The direct subexpressions, and [visit_expressions(..).is_break()]. *)
Definition children (e : Expr) : list Expr :=
  match e with
  | EIdentifier _ | ECompoundIdentifier _ | EValue _ => []
  | ENested e | EUnaryOp _ e | EIsTrue e | EIsNotTrue e | EIsFalse e | EIsNotFalse e | EIsNull e | EIsNotNull e => [e]
  | EBinaryOp l _ r | EIsNotDistinctFrom l r | EIsDistinctFrom l r => [l; r]
  | ELike _ _ _ e p _ => [e; p]
  | EInList e items _ => e :: items
  | EBetween e _ l h => [e; l; h]
  | EInSubquery e inner => e :: inner
  | EFunction _ inner | EExists inner | ESubquery inner | EOther _ inner => inner
  end.

Fixpoint visit (test : Expr → bool) (e : Expr) : bool :=
  test e ||
  match e with
  | EIdentifier _ | ECompoundIdentifier _ | EValue _ => false
  | ENested e | EUnaryOp _ e | EIsTrue e | EIsNotTrue e | EIsFalse e | EIsNotFalse e | EIsNull e | EIsNotNull e => visit test e
  | EBinaryOp l _ r | EIsNotDistinctFrom l r | EIsDistinctFrom l r => visit test l || visit test r
  | ELike _ _ _ e p _ => visit test e || visit test p
  | EInList e items _ => visit test e || existsb (visit test) items
  | EBetween e _ l h => visit test e || visit test l || visit test h
  | EInSubquery e inner => visit test e || existsb (visit test) inner
  | EFunction _ inner | EExists inner | ESubquery inner | EOther _ inner => existsb (visit test) inner
  end.

(** Statements whose fields do not matter. *)
Inductive StatementKind :=
| KExplainTable | KShowTables | KShowColumns | KShowCatalogs | KShowDatabases | KShowSchemas | KShowViews | KShowFunctions
| KShowCreate | KShowVariable | KShowVariables | KShowStatus | KShowProcessList | KShowCharset | KShowObjects | KShowCollation
| KCreateTable | KCreateView | KCreateIndex | KCreateSchema | KCreateSequence | KCreateRole | KCreateType | KAlterTable
| KAlterIndex | KAlterView | KDrop | KTruncate | KGrant | KRevoke | KStartTransaction | KCommit | KRollback | KCopy | KPragma.

Inductive SqliteOnConflict := ConflictReplace | ConflictOther.
Inductive OnInsert := DuplicateKeyUpdate | OnConflictDoUpdate | OnConflictDoNothing | OnInsertOther.

Inductive Query := mkQuery (ctes : list Query) (body : SetExpr) (has_locks : bool) (exprs : list Expr)
with SetExpr :=
| XSelect (into : bool) (exprs : list Expr)
| XQuery (q : Query)
| XSetOperation (left right : SetExpr)
| XInsert (s : Statement) | XUpdate (s : Statement) | XDelete (s : Statement) | XMerge (s : Statement)
| XValues (exprs : list Expr)
| XTable
with Statement :=
| SQuery (q : Query)
| SExplain (analyze : bool) (s : Statement)
| SInsert (replace_into overwrite : bool) (on_conflict : option SqliteOnConflict) (on : option OnInsert)
    (source : option Query) (exprs : list Expr)
| SUpdate (has_joins has_from : bool) (on_conflict : option SqliteOnConflict) (selection : option Expr) (exprs : list Expr)
| SDelete (has_tables has_using : bool) (from_joins : list bool) (selection : option Expr) (exprs : list Expr)
| SMerge (exprs : list Expr)
| SUse
| SKind (k : StatementKind) (exprs : list Expr)
| SOther (tag : N) (exprs : list Expr).

(** ** The classes of statements *)
Definition kind_risk (k : StatementKind) : SqlRisk :=
  match k with
  | KExplainTable | KShowTables | KShowColumns | KShowCatalogs | KShowDatabases | KShowSchemas | KShowViews | KShowFunctions
  | KShowCreate | KShowVariable | KShowVariables | KShowStatus | KShowProcessList | KShowCharset | KShowObjects | KShowCollation =>
      RiskReadOnly
  | KCreateTable | KCreateView | KCreateIndex | KCreateSchema | KCreateSequence | KCreateRole | KCreateType | KAlterTable
  | KAlterIndex | KAlterView | KDrop | KTruncate | KGrant | KRevoke => RiskDdl
  | KStartTransaction | KCommit | KRollback => RiskTransaction
  | KCopy | KPragma => RiskWrite
  end.

Definition SIDE_EFFECT_SELECT_FUNCTIONS : list str :=
  lit <$> ["lo_create"; "lo_import"; "lo_unlink"; "nextval"; "pg_advisory_lock"; "pg_advisory_unlock";
    "pg_advisory_unlock_all"; "pg_advisory_xact_lock"; "pg_cancel_backend"; "pg_reload_conf"; "pg_terminate_backend";
    "pg_try_advisory_lock"; "pg_try_advisory_xact_lock"; "setval"; "sys_cancel_backend"]%string.
Definition is_side_effect_call (e : Expr) : bool :=
  match e with
  | EFunction (Some name) _ => existsb (eq_ignore_ascii_case name) SIDE_EFFECT_SELECT_FUNCTIONS
  | _ => false
  end.

(** All expressions of a query, at any depth. *)
Fixpoint query_exprs (q : Query) : list Expr :=
  let '(mkQuery ctes body _ exprs) := q in concat (map query_exprs ctes) ++ set_exprs body ++ exprs
with set_exprs (x : SetExpr) : list Expr :=
  match x with
  | XSelect _ exprs | XValues exprs => exprs
  | XQuery q => query_exprs q
  | XSetOperation l r => set_exprs l ++ set_exprs r
  | XInsert s | XUpdate s | XDelete s | XMerge s => statement_exprs s
  | XTable => []
  end
with statement_exprs (s : Statement) : list Expr :=
  match s with
  | SQuery q => query_exprs q
  | SExplain _ s => statement_exprs s
  | SInsert _ _ _ _ source exprs => match source with Some q => query_exprs q | None => [] end ++ exprs
  | SUpdate _ _ _ selection exprs | SDelete _ _ _ selection exprs => match selection with Some e => [e] | None => [] end ++ exprs
  | SMerge exprs | SKind _ exprs | SOther _ exprs => exprs
  | SUse => []
  end.
Definition query_calls_known_side_effect_function (q : Query) : bool :=
  existsb (visit is_side_effect_call) (query_exprs q).

Fixpoint query_is_write_capable (detect_select_into : bool) (q : Query) : bool :=
  let '(mkQuery ctes body has_locks _) := q in
  existsb (query_is_write_capable detect_select_into) ctes || set_expr_is_write_capable detect_select_into body ||
  has_locks || query_calls_known_side_effect_function q
with set_expr_is_write_capable (detect_select_into : bool) (x : SetExpr) : bool :=
  match x with
  | XSelect into _ => detect_select_into && into
  | XQuery q => query_is_write_capable detect_select_into q
  | XSetOperation l r => set_expr_is_write_capable detect_select_into l || set_expr_is_write_capable detect_select_into r
  | XInsert _ | XUpdate _ | XDelete _ | XMerge _ => true
  | XValues _ | XTable => false
  end.

Fixpoint classify_statement (detect_select_into : bool) (s : Statement) : SqlRisk :=
  match s with
  | SQuery q => if query_is_write_capable detect_select_into q then RiskWrite else RiskReadOnly
  | SExplain analyze s' => if analyze then classify_statement detect_select_into s' else RiskReadOnly
  | SKind k _ => kind_risk k
  | SInsert _ _ _ _ _ _ | SUpdate _ _ _ _ _ | SDelete _ _ _ _ _ | SMerge _ => RiskWrite
  | SUse | SOther _ _ => RiskWrite
  end.

(** ** Equality and order of expressions

    [Expr: PartialEq + Ord], derived; [expr_le] is the order of the crate. *)
Class ExprOrder := { expr_eqb : Expr → Expr → bool; expr_leb : Expr → Expr → bool }.

Section list_eqb.
Context {A : Type} (eqb : A → A → bool).
Fixpoint list_eqb (l k : list A) : bool :=
  match l, k with
  | [], [] => true
  | x :: l', y :: k' => eqb x y && list_eqb l' k'
  | _, _ => false
  end.
End list_eqb.

(** [while let Expr::Nested(inner) = expr] *)
Fixpoint strip_nested_expr (e : Expr) : Expr :=
  match e with ENested inner => strip_nested_expr inner | _ => e end.

Definition SQL_VALUE_KEYWORDS : list str :=
  lit <$> ["current_catalog"; "current_date"; "current_role"; "current_schema"; "current_time"; "current_timestamp";
    "current_user"; "localtime"; "localtimestamp"; "session_user"; "system_user"; "user"]%string.
Definition is_sql_value_keyword (value : str) : bool := bool_decide (to_ascii_lowercase value ∈ SQL_VALUE_KEYWORDS).

Definition is_column (e : Expr) : bool :=
  match e with
  | EIdentifier value => negb (is_sql_value_keyword value)
  | ECompoundIdentifier _ => true
  | _ => false
  end.
Definition expr_contains_column_reference (e : Expr) : bool := visit is_column e.
Definition is_subquery (e : Expr) : bool :=
  match e with EInSubquery _ _ | EExists _ | ESubquery _ => true | _ => false end.
Definition expr_contains_subquery (e : Expr) : bool := visit is_subquery e.

Definition is_comparison_operator (op : BinaryOperator) : bool :=
  match op with BEq | BNotEq | BGt | BLt | BGtEq | BLtEq | BSpaceship => true | _ => false end.

Definition constant_comparison_truth (lhs : Expr) (op : BinaryOperator) (rhs : Expr) : option bool :=
  match lhs, rhs with
  | EValue l, EValue r =>
      match op with
      | BEq | BSpaceship => Some (bool_decide (l = r))
      | BNotEq => Some (bool_decide (l ≠ r))
      | BGt | BLt | BGtEq | BLtEq =>
          match l, r with
          | VNumber l, VNumber r =>
              a ← parse_f64 l; b ← parse_f64 r;
              Some (match op with BGt => f64_ltb b a | BLt => f64_ltb a b | BGtEq => f64_leb b a | _ => f64_leb a b end)
          | _, _ => None
          end
      | _ => None
      end
  | _, _ => None
  end.

Definition value_is_truthy (v : Value) : bool :=
  match v with
  | VBoolean b => b
  | VNumber t => match parse_f64 t with Some n => negb (f64_eqb n 0) | None => false end
  | _ => false
  end.
Definition value_is_falsy (v : Value) : bool :=
  match v with
  | VBoolean b => negb b
  | VNumber t => match parse_f64 t with Some n => f64_eqb n 0 | None => false end
  | VNull => true
  | _ => false
  end.

Definition like_pattern_matches_all (e : Expr) : bool :=
  match strip_nested_expr e with
  | EValue (VSingleQuotedString pattern) => negb (bool_decide (pattern = [])) && forallb (λ c, bool_decide (c = chr "%")) pattern
  | _ => false
  end.

(** The parts of a chain of ORs, through parentheses. *)
Fixpoint disjuncts (e : Expr) : list Expr :=
  match e with
  | ENested e => disjuncts e
  | EBinaryOp l BOr r => disjuncts l ++ disjuncts r
  | _ => [e]
  end.
Definition or_contains_conjunctive_branch (e : Expr) : bool :=
  existsb (λ d, match d with EBinaryOp _ BAnd _ => true | _ => false end) (disjuncts e).

(** [checks.iter().enumerate().any(|(i, c)| checks[i + 1..].iter().any(|o| ..))] *)
Fixpoint any_pair {A} (f : A → A → bool) (l : list A) : bool :=
  match l with [] => false | x :: r => existsb (f x) r || any_pair f r end.

(** Null checks, through parentheses and NOT. *)
Fixpoint null_check_with_negation (outer_negated : bool) (e : Expr) : option (Expr * bool) :=
  match e with
  | ENested e => null_check_with_negation outer_negated e
  | EUnaryOp UNot e => null_check_with_negation (negb outer_negated) e
  | EIsNull e => Some (strip_nested_expr e, outer_negated)
  | EIsNotNull e => Some (strip_nested_expr e, negb outer_negated)
  | _ => None
  end.
Definition null_check (e : Expr) : option (Expr * bool) := null_check_with_negation false e.

(** Comparisons *)
Inductive PredicateComparisonOperator := PEq | PNotEq | PGt | PGtEq | PLt | PLtEq.
#[export] Instance PredicateComparisonOperator_eq_dec : EqDecision PredicateComparisonOperator.
Proof. solve_decision. Defined.
Record PredicateComparisonCheck := mkComparison { cmp_left : Expr; cmp_right : Expr; cmp_operator : PredicateComparisonOperator }.

Definition predicate_comparison_operator (op : BinaryOperator) : option PredicateComparisonOperator :=
  match op with
  | BEq | BSpaceship => Some PEq | BNotEq => Some PNotEq | BGt => Some PGt | BGtEq => Some PGtEq
  | BLt => Some PLt | BLtEq => Some PLtEq | _ => None
  end.
Definition complementary_comparison_operator (op : PredicateComparisonOperator) : PredicateComparisonOperator :=
  match op with PEq => PNotEq | PNotEq => PEq | PGt => PLtEq | PGtEq => PLt | PLt => PGtEq | PLtEq => PGt end.
Definition reverse_comparison_operator (op : PredicateComparisonOperator) : PredicateComparisonOperator :=
  match op with PEq => PEq | PNotEq => PNotEq | PGt => PLt | PGtEq => PLtEq | PLt => PGt | PLtEq => PGtEq end.
Definition comparison_operators_are_complementary (l r : PredicateComparisonOperator) : bool :=
  bool_decide (complementary_comparison_operator l = r).

Record PredicateInListCheck := mkInList { in_expr : Expr; in_items : list Expr; in_negated : bool }.
Record PredicateBetweenCheck := mkBetween { bt_expr : Expr; bt_low : Expr; bt_high : Expr; bt_negated : bool }.

Section checks.
Context `{ExprOrder}.

Fixpoint comparison_check (outer_negated : bool) (e : Expr) : option PredicateComparisonCheck :=
  match e with
  | ENested e => comparison_check outer_negated e
  | EUnaryOp UNot e => comparison_check (negb outer_negated) e
  | EBinaryOp lhs op rhs =>
      if negb (expr_contains_column_reference e) then None
      else
        operator ← predicate_comparison_operator op;
        let operator := if outer_negated then complementary_comparison_operator operator else operator in
        let l := strip_nested_expr lhs in
        let r := strip_nested_expr rhs in
        Some (if expr_leb l r then mkComparison l r operator else mkComparison r l (reverse_comparison_operator operator))
  | _ => None
  end.

(** [dedup] removes equal neighbours. *)
Fixpoint dedup (l : list Expr) : list Expr :=
  match l with
  | x :: r => match dedup r with
              | y :: r' => if expr_eqb x y then x :: r' else x :: y :: r'
              | [] => [x]
              end
  | [] => []
  end.
Definition expr_le (a b : Expr) : Prop := expr_leb a b = true.
#[export] Instance expr_le_dec : RelDecision expr_le.
Proof. intros a b. unfold expr_le. apply _. Defined.
Definition sort_exprs (l : list Expr) : list Expr := merge_sort expr_le l.
Definition is_value (e : Expr) : bool := match strip_nested_expr e with EValue _ => true | _ => false end.

Fixpoint in_list_check (outer_negated : bool) (e : Expr) : option PredicateInListCheck :=
  match e with
  | ENested e => in_list_check outer_negated e
  | EUnaryOp UNot e => in_list_check (negb outer_negated) e
  | EInList e items negated =>
      if expr_contains_column_reference e && negb (bool_decide (length items = 0)) then
        let normalized := strip_nested_expr <$> items in
        let normalized := if forallb is_value normalized then dedup (sort_exprs normalized) else normalized in
        Some (mkInList (strip_nested_expr e) normalized (xorb negated outer_negated))
      else None
  | _ => None
  end.

Fixpoint between_check (outer_negated : bool) (e : Expr) : option PredicateBetweenCheck :=
  match e with
  | ENested e => between_check outer_negated e
  | EUnaryOp UNot e => between_check (negb outer_negated) e
  | EBetween e negated low high =>
      if expr_contains_column_reference e then
        Some (mkBetween (strip_nested_expr e) (strip_nested_expr low) (strip_nested_expr high) (xorb negated outer_negated))
      else None
  | _ => None
  end.

Definition or_contains_complementary_null_checks (e : Expr) : bool :=
  any_pair (λ a b, expr_eqb a.1 b.1 && xorb a.2 b.2) (omap null_check (disjuncts e)).
Definition or_contains_complementary_comparisons (e : Expr) : bool :=
  any_pair (λ a b, expr_eqb (cmp_left a) (cmp_left b) && expr_eqb (cmp_right a) (cmp_right b) &&
                   comparison_operators_are_complementary (cmp_operator a) (cmp_operator b))
    (omap (comparison_check false) (disjuncts e)).
Definition or_contains_complementary_in_lists (e : Expr) : bool :=
  any_pair (λ a b, expr_eqb (in_expr a) (in_expr b) && list_eqb expr_eqb (in_items a) (in_items b) && xorb (in_negated a) (in_negated b))
    (omap (in_list_check false) (disjuncts e)).
Definition or_contains_complementary_between_checks (e : Expr) : bool :=
  any_pair (λ a b, expr_eqb (bt_expr a) (bt_expr b) && expr_eqb (bt_low a) (bt_low b) && expr_eqb (bt_high a) (bt_high b) &&
                   xorb (bt_negated a) (bt_negated b))
    (omap (between_check false) (disjuncts e)).

(** ** Unbounded predicates

    [predicate_is_obviously_unbounded] and [predicate_is_obviously_false] call
    each other; [sign] says which of the two is meant. *)
Definition comparison_flag (sign : bool) (lhs : Expr) (op : BinaryOperator) (rhs : Expr) : bool :=
  if sign then
    match constant_comparison_truth lhs op rhs with
    | Some t => t
    | None => expr_eqb lhs rhs && match op with BEq | BGtEq | BLtEq | BSpaceship => true | _ => false end
    end
  else
    match constant_comparison_truth lhs op rhs with Some t => negb t | None => false end ||
    (expr_eqb lhs rhs && match op with BNotEq | BGt | BLt => true | _ => false end).

Definition complementary (e : Expr) : bool :=
  or_contains_conjunctive_branch e || or_contains_complementary_null_checks e || or_contains_complementary_comparisons e ||
  or_contains_complementary_in_lists e || or_contains_complementary_between_checks e.

Fixpoint obviously (sign : bool) (e : Expr) : bool :=
  (sign && (expr_contains_subquery e || negb (expr_contains_column_reference e))) ||
  match e with
  | ENested e => obviously sign e
  | EValue v => if sign then value_is_truthy v else value_is_falsy v
  | EUnaryOp UNot e => obviously (negb sign) e
  | EBinaryOp lhs BAnd rhs =>
      if sign then obviously true lhs && obviously true rhs else obviously false lhs || obviously false rhs
  | EBinaryOp lhs BOr rhs =>
      if sign then complementary e || obviously true lhs || obviously true rhs
      else obviously false lhs && obviously false rhs
  | EBinaryOp lhs op rhs => if is_comparison_operator op then comparison_flag sign lhs op rhs else false
  | EIsNotDistinctFrom lhs rhs => sign && expr_eqb (strip_nested_expr lhs) (strip_nested_expr rhs)
  | EIsDistinctFrom lhs rhs => negb sign && expr_eqb (strip_nested_expr lhs) (strip_nested_expr rhs)
  | EIsTrue e | EIsNotFalse e => sign && obviously true e
  | EIsFalse e | EIsNotTrue e => negb sign && obviously true e
  | ELike _ false false e pattern None => sign && expr_contains_column_reference e && like_pattern_matches_all pattern
  | _ => false
  end.
Definition predicate_is_obviously_unbounded (e : Expr) : bool := obviously true e.
Definition predicate_is_obviously_false (e : Expr) : bool := obviously false e.
End checks.

(** ** Dangerous statements *)
Section dangerous.
Context `{ExprOrder} (detect_select_into : bool).

Definition unbounded_selection (selection : option Expr) : bool :=
  match selection with Some e => predicate_is_obviously_unbounded e | None => true end.
Definition insert_is_dangerous (replace_into overwrite : bool) (on_conflict : option SqliteOnConflict) (on : option OnInsert)
    (source : option Query) : bool :=
  replace_into || overwrite || match on_conflict with Some ConflictReplace => true | _ => false end ||
  match on with Some OnConflictDoNothing => false | Some _ => true | None => false end ||
  match source with Some (mkQuery _ (XValues _) _ _) => false | Some _ => true | None => false end.

Fixpoint statement_is_dangerous (s : Statement) : bool :=
  match s with
  | SUse => false
  | SQuery q => query_is_dangerous q
  | SInsert replace_into overwrite on_conflict on source _ => insert_is_dangerous replace_into overwrite on_conflict on source
  | SUpdate has_joins has_from on_conflict selection _ =>
      has_joins || has_from || match on_conflict with Some ConflictReplace => true | _ => false end || unbounded_selection selection
  | SDelete has_tables has_using from_joins selection _ =>
      has_tables || has_using || negb (bool_decide (length from_joins = 1)) || default true (head from_joins) ||
      unbounded_selection selection
  | SMerge _ => true
  | SExplain true s' => statement_is_dangerous s'
  | SExplain false _ => false
  | SKind k _ => negb (bool_decide (kind_risk k = RiskReadOnly))
  | SOther _ _ => true
  end
with query_is_dangerous (q : Query) : bool :=
  let '(mkQuery ctes body has_locks _) := q in
  existsb query_is_dangerous ctes || set_expr_is_dangerous body || has_locks || query_calls_known_side_effect_function q
with set_expr_is_dangerous (x : SetExpr) : bool :=
  match x with
  | XSelect into _ => detect_select_into && into
  | XQuery q => query_is_dangerous q
  | XSetOperation l r => set_expr_is_dangerous l || set_expr_is_dangerous r
  | XInsert s | XUpdate s | XDelete s | XMerge s => statement_is_dangerous s
  | XValues _ | XTable => false
  end.
End dangerous.

(** ** Dialects *)
Definition debug_name (d : DatabaseType.t) : string :=
  match d with
  | DatabaseType.Mysql => "Mysql" | DatabaseType.Postgres => "Postgres" | DatabaseType.Sqlite => "Sqlite" |
  DatabaseType.Rqlite => "Rqlite" | DatabaseType.Turso => "Turso" | DatabaseType.CloudflareD1 => "CloudflareD1" |
  DatabaseType.Redis => "Redis" | DatabaseType.DuckDb => "DuckDb" | DatabaseType.ClickHouse => "ClickHouse" |
  DatabaseType.SqlServer => "SqlServer" | DatabaseType.MongoDb => "MongoDb" | DatabaseType.DynamoDb => "DynamoDb" |
  DatabaseType.Oracle => "Oracle" | DatabaseType.Elasticsearch => "Elasticsearch" | DatabaseType.Easysearch =>
  "Easysearch" | DatabaseType.Meilisearch => "Meilisearch" | DatabaseType.Hbase => "Hbase" | DatabaseType.Qdrant =>
  "Qdrant" | DatabaseType.ChromaDb => "ChromaDb" | DatabaseType.Milvus => "Milvus" | DatabaseType.Weaviate => "Weaviate"
  | DatabaseType.Doris => "Doris" | DatabaseType.StarRocks => "StarRocks" | DatabaseType.ManticoreSearch =>
  "ManticoreSearch" | DatabaseType.Redshift => "Redshift" | DatabaseType.Dameng => "Dameng" | DatabaseType.Kingbase =>
  "Kingbase" | DatabaseType.Highgo => "Highgo" | DatabaseType.Uxdb => "Uxdb" | DatabaseType.Vastbase => "Vastbase" |
  DatabaseType.Goldendb => "Goldendb" | DatabaseType.Databend => "Databend" | DatabaseType.Gaussdb => "Gaussdb" |
  DatabaseType.Kwdb => "Kwdb" | DatabaseType.Yashandb => "Yashandb" | DatabaseType.Databricks => "Databricks" |
  DatabaseType.SapHana => "SapHana" | DatabaseType.Teradata => "Teradata" | DatabaseType.Vertica => "Vertica" |
  DatabaseType.Firebird => "Firebird" | DatabaseType.Exasol => "Exasol" | DatabaseType.OpenGauss => "OpenGauss" |
  DatabaseType.Questdb => "Questdb" | DatabaseType.OceanbaseOracle => "OceanbaseOracle" | DatabaseType.Gbase => "Gbase"
  | DatabaseType.Access => "Access" | DatabaseType.H2 => "H2" | DatabaseType.Snowflake => "Snowflake" |
  DatabaseType.Trino => "Trino" | DatabaseType.PrestoSql => "PrestoSql" | DatabaseType.Hive => "Hive" |
  DatabaseType.Argo => "Argo" | DatabaseType.Kyuubi => "Kyuubi" | DatabaseType.Impala => "Impala" | DatabaseType.Db2 =>
  "Db2" | DatabaseType.Informix => "Informix" | DatabaseType.Neo4j => "Neo4j" | DatabaseType.Cassandra => "Cassandra" |
  DatabaseType.Bigquery => "Bigquery" | DatabaseType.Spanner => "Spanner" | DatabaseType.Kylin => "Kylin" |
  DatabaseType.Ignite => "Ignite" | DatabaseType.Ignite3 => "Ignite3" | DatabaseType.Sundb => "Sundb" |
  DatabaseType.Oscar => "Oscar" | DatabaseType.Tdengine => "Tdengine" | DatabaseType.Xugu => "Xugu" | DatabaseType.Etcd
  => "Etcd" | DatabaseType.ZooKeeper => "ZooKeeper" | DatabaseType.Nacos => "Nacos" | DatabaseType.Consul => "Consul" |
  DatabaseType.MessageQueue => "MessageQueue" | DatabaseType.Mqtt => "Mqtt" | DatabaseType.Iotdb => "Iotdb" |
  DatabaseType.Iris => "Iris" | DatabaseType.InfluxDb => "InfluxDb" | DatabaseType.InfluxDb3 => "InfluxDb3" |
  DatabaseType.VictoriaMetrics => "VictoriaMetrics" | DatabaseType.Jdbc => "Jdbc" | DatabaseType.Spark => "Spark"
  end.

Definition normalize_dialect (dialect : str) : str :=
  let name := to_ascii_lowercase dialect in
  if bool_decide (name ∈ lit <$> ["postgres"; "postgresql"; "redshift"; "opengauss"; "gaussdb"; "kingbase"; "highgo"; "uxdb";
                                   "vastbase"; "kwdb"]%string) then lit "postgres"
  else if bool_decide (name ∈ lit <$> ["mysql"; "mariadb"; "doris"; "starrocks"; "manticoresearch"; "oceanbase"]%string) then lit "mysql"
  else if bool_decide (name = lit "sqlite") then lit "sqlite"
  else if bool_decide (name ∈ lit <$> ["sqlserver"; "mssql"]%string) then lit "sqlserver"
  else if bool_decide (name = lit "clickhouse") then lit "clickhouse"
  else if bool_decide (name = lit "duckdb") then lit "duckdb"
  else lit "generic".

Inductive ParserDialect := DPostgres | DMySql | DSQLite | DMsSql | DClickHouse | DDuckDb | DGeneric.
Definition resolve_dialect (dialect : str) : ParserDialect :=
  if bool_decide (dialect = lit "postgres") then DPostgres
  else if bool_decide (dialect = lit "mysql") then DMySql
  else if bool_decide (dialect = lit "sqlite") then DSQLite
  else if bool_decide (dialect = lit "sqlserver") then DMsSql
  else if bool_decide (dialect = lit "clickhouse") then DClickHouse
  else if bool_decide (dialect = lit "duckdb") then DDuckDb else DGeneric.
Definition dialect_of (d : DatabaseType.t) : ParserDialect := resolve_dialect (normalize_dialect (lit (debug_name d))).

(** The parser and the tokenizer of [sqlparser]. *)
Inductive RiskToken := TWord (value : str) (quoted : bool) | TWhitespace | TSemiColon | TEof | TOtherToken.
Class SqlParser := { parse_sql : ParserDialect → str → option (list Statement); risk_tokens : ParserDialect → str → option (list RiskToken) }.

Definition supports_select_into_table_creation (d : DatabaseType.t) : bool :=
  match d with
  | DatabaseType.Postgres | DatabaseType.Redshift | DatabaseType.Gaussdb | DatabaseType.OpenGauss | DatabaseType.Kingbase
  | DatabaseType.Highgo | DatabaseType.Uxdb | DatabaseType.Vastbase | DatabaseType.Kwdb | DatabaseType.SqlServer => true
  | _ => false
  end.

(** ** Locking clauses: a window over the last four unquoted words *)
Fixpoint windows (n : nat) (l : list str) : list (list str) :=
  match l with
  | [] => []
  | _ :: r => if decide (n ≤ length l) then take n l :: windows n r else []
  end.
Definition LOCKING_PHRASES : list (list str) :=
  [[lit "FOR"; lit "UPDATE"]; [lit "FOR"; lit "SHARE"]; [lit "FOR"; lit "KEY"; lit "SHARE"];
   [lit "FOR"; lit "NO"; lit "KEY"; lit "UPDATE"]; [lit "LOCK"; lit "IN"; lit "SHARE"; lit "MODE"]].
Definition has_locking_phrase (words : list str) : bool :=
  existsb (λ p, bool_decide (p ∈ windows (length p) words)) LOCKING_PHRASES.
Fixpoint locking_from (words : list str) (tokens : list RiskToken) : bool :=
  match tokens with
  | [] => false
  | TWord value false :: r =>
      let words := words ++ [to_ascii_uppercase value] in
      let words := if decide (4 < length words) then drop 1 words else words in
      has_locking_phrase words || locking_from words r
  | TWhitespace :: r => locking_from words r
  | _ :: r => locking_from [] r
  end.

Fixpoint use_from (statement_start : bool) (tokens : list RiskToken) : bool :=
  match tokens with
  | [] => false
  | TWhitespace :: r | TEof :: r => use_from statement_start r
  | TSemiColon :: r => use_from true r
  | TWord value _ :: r =>
      if statement_start then eq_ignore_ascii_case value (lit "use") || use_from false r else use_from statement_start r
  | TOtherToken :: r => use_from false r
  end.

Section classify.
Context `{Unicode, OracleTokenizer, WordTokenizer, ExprOrder, SqlParser}.

Definition sql_contains_locking_clause (sql : str) (dialect : ParserDialect) : bool :=
  match risk_tokens dialect sql with Some tokens => locking_from [] tokens | None => false end.

Definition sql_has_use_statement (sql : str) (dialect : ParserDialect) : bool :=
  match parse_sql dialect sql with
  | Some statements => existsb (λ s, match s with SUse => true | _ => false end) statements
  | None => match risk_tokens dialect sql with Some tokens => use_from true tokens | None => false end
  end.

Definition max_risk (risks : list SqlRisk) : SqlRisk :=
  fold_left (λ m r, if decide (risk_rank m < risk_rank r) then r else m) risks RiskReadOnly.

Definition classify_sql_risk_with_database (sql normalized_dialect : str) (database_type : option DatabaseType.t) : result SqlRisk str :=
  let parser_dialect := resolve_dialect normalized_dialect in
  let detect_select_into := bool_decide (database_type = None) in
  let has_locking_clause := sql_contains_locking_clause sql parser_dialect in
  let dialect_write :=
    match database_type with
    | Some d => has_dialect_specific_write sql d
    | None => bool_decide (normalized_dialect = lit "mysql") && has_dialect_specific_write sql DatabaseType.Mysql
    end in
  match parse_sql parser_dialect sql with
  | Some ((_ :: _) as stmts) =>
      let m := max_risk (classify_statement detect_select_into <$> stmts) in
      if bool_decide (m = RiskReadOnly) && (dialect_write || has_locking_clause) then Ok RiskWrite else Ok m
  | _ =>
      let is_write := match database_type with Some d => is_write_sql_for_database sql d | None => is_write_sql sql end in
      if is_write || has_locking_clause then Ok RiskWrite else Ok RiskReadOnly
  end.

Definition classify_sql_risk (sql dialect : str) : result SqlRisk str :=
  classify_sql_risk_with_database sql (normalize_dialect dialect) None.

Definition classify_sql_risk_for_database (sql : str) (d : DatabaseType.t) : result SqlRisk str :=
  match classify_search_engine_query_risk sql d with
  | Some ReadOnly => Ok RiskReadOnly
  | Some Write => Ok RiskWrite
  | Some Dangerous => Ok RiskDdl
  | None => classify_sql_risk_with_database sql (normalize_dialect (lit (debug_name d))) (Some d)
  end.

Definition is_dangerous_sql_for_database (sql : str) (d : DatabaseType.t) : bool :=
  match classify_search_engine_query_risk sql d with
  | Some risk => match risk with Dangerous => true | _ => false end
  | None =>
      let parser_dialect := dialect_of d in
      let detect_select_into := supports_select_into_table_creation d in
      let has_locking_clause := sql_contains_locking_clause sql parser_dialect in
      let has_unparsed_dialect_specific_write := negb detect_select_into && has_dialect_specific_write sql d in
      match parse_sql parser_dialect sql with
      | Some ((_ :: _) as statements) =>
          has_locking_clause || has_unparsed_dialect_specific_write || existsb (statement_is_dangerous detect_select_into) statements
      | _ => has_locking_clause || is_write_sql_for_database sql d
      end
  end.

Definition mcp_sql_has_forbidden_database_switch (sql : str) (d : DatabaseType.t) : bool :=
  match classify_search_engine_query_risk sql d with
  | Some _ => false
  | None =>
      let dialect := dialect_of d in
      if sql_has_use_statement sql dialect then true
      else if is_mysql_compatible_database d then sql_has_use_statement (strip_sql_comments sql) dialect
      else false
  end.
End classify.

(** ** What a predicate means on a row without NULLs

    [atom] gives the values of columns, literals and calls, [opaque] the truth of
    the predicates the classifier does not look into; values are compared by
    [vcompare], a total order. *)
Class Row (V : Type) := {
  atom : Expr → V;
  opaque : Expr → bool;
  is_null : V → bool;
  vcompare : V → V → comparison;
  vcompare_refl v : vcompare v v = Eq;
  vcompare_antisym v w : vcompare w v = CompOpp (vcompare v w);
}.

Definition comparison_means (op : PredicateComparisonOperator) (c : comparison) : bool :=
  match op, c with
  | PEq, Eq | PNotEq, Lt | PNotEq, Gt | PGt, Gt | PGtEq, Gt | PGtEq, Eq | PLt, Lt | PLtEq, Lt | PLtEq, Eq => true
  | _, _ => false
  end.

Section meaning.
Context `{Row V, ExprOrder}.
Context (eqb_sound : ∀ a b, expr_eqb a b = true → a = b).

Definition scalar (e : Expr) : V := atom (strip_nested_expr e).
Definition veq (v w : V) : bool := match vcompare v w with Eq => true | _ => false end.
Definition vle (v w : V) : bool := match vcompare v w with Gt => false | _ => true end.

Fixpoint holds (e : Expr) : bool :=
  match e with
  | ENested e | EIsTrue e | EIsNotFalse e => holds e
  | EUnaryOp UNot e | EIsFalse e | EIsNotTrue e => negb (holds e)
  | EBinaryOp l op r =>
      match op with
      | BAnd => holds l && holds r
      | BOr => holds l || holds r
      | _ => match predicate_comparison_operator op with
             | Some o => comparison_means o (vcompare (scalar l) (scalar r))
             | None => opaque e
             end
      end
  | EIsNotDistinctFrom l r => veq (scalar l) (scalar r)
  | EIsDistinctFrom l r => negb (veq (scalar l) (scalar r))
  | EIsNull e => is_null (scalar e)
  | EIsNotNull e => negb (is_null (scalar e))
  | ELike _ false false _ pattern None => if like_pattern_matches_all pattern then true else opaque e
  | EInList x items negated => xorb negated (existsb (λ i, veq (scalar x) (scalar i)) items)
  | EBetween x negated low high => xorb negated (vle (scalar low) (scalar x) && vle (scalar x) (scalar high))
  | _ => opaque e
  end.

Lemma strip_idemp e : strip_nested_expr (strip_nested_expr e) = strip_nested_expr e.
Proof. induction e; done. Qed.
Lemma scalar_strip e : scalar (strip_nested_expr e) = scalar e.
Proof. unfold scalar. by rewrite strip_idemp. Qed.

Lemma holds_disjuncts e : holds e = existsb holds (disjuncts e).
Proof.
  induction e as [| | | | |l IHl op r IHr | | | | | | | | | | | | | | | |]; cbn -[holds]; rewrite ?orb_false_r; try done.
  destruct op; cbn -[holds]; rewrite ?orb_false_r; try done.
  rewrite existsb_app, <- IHl, <- IHr. done.
Qed.

Lemma complementary_means op c : comparison_means (complementary_comparison_operator op) c = negb (comparison_means op c).
Proof. by destruct op, c. Qed.
Lemma reverse_means op c : comparison_means (reverse_comparison_operator op) (CompOpp c) = comparison_means op c.
Proof. by destruct op, c. Qed.

(** Each kind of check says what its predicate means. *)
Lemma null_check_means o e x n :
  null_check_with_negation o e = Some (x, n) → xorb o (holds e) = xorb n (is_null (scalar x)).
Proof.
  revert o n. induction e; intros o n Hc; cbn in Hc; try done.
  - by apply IHe.
  - destruct op; [| done]. apply IHe in Hc. cbn. rewrite <- Hc. by destruct o, (holds e).
  - injection Hc as <- <-. cbn. by rewrite scalar_strip.
  - injection Hc as <- <-. cbn. rewrite scalar_strip. by destruct o, (is_null (scalar e)).
Qed.

Lemma comparison_check_means o e c :
  comparison_check o e = Some c →
  xorb o (holds e) = comparison_means (cmp_operator c) (vcompare (scalar (cmp_left c)) (scalar (cmp_right c))).
Proof.
  revert o c. induction e as [| | | e IHe | u e IHe | l _ op r _ | | | | | | | | | | | | | | | |]; intros o c Hc; cbn in Hc; try done.
  - by apply IHe.
  - destruct u; [| done]. apply IHe in Hc. cbn. rewrite <- Hc. by destruct o, (holds e).
  - destruct (negb _); [done |]. destruct (predicate_comparison_operator op) as [p |] eqn:Hp; [| done]. cbn in Hc.
    assert (xorb o (holds (EBinaryOp l op r)) =
      comparison_means (if o then complementary_comparison_operator p else p) (vcompare (scalar l) (scalar r))) as E.
    { cbn. destruct op; cbn in Hp; try done; rewrite ?Hp; injection Hp as <-; destruct o; cbn [xorb];
        by rewrite ?complementary_means, ?xorb_false_l, ?xorb_true_l || (destruct (vcompare _ _); done). }
    rewrite E. injection Hc as <-. destruct (expr_leb _ _); cbn; rewrite !scalar_strip; [done |].
    by rewrite (vcompare_antisym (scalar l)), reverse_means.
Qed.

Lemma xorb_shift a b c : xorb a (xorb b c) = xorb (xorb b a) c.
Proof. by destruct a, b, c. Qed.

Lemma existsb_perm {A} (f : A → bool) (l k : list A) : l ≡ₚ k → existsb f l = existsb f k.
Proof.
  induction 1; cbn; try congruence. by rewrite !orb_assoc, (orb_comm (f x)).
Qed.

Lemma existsb_dedup (f : Expr → bool) l : existsb f (dedup l) = existsb f l.
Proof.
  induction l as [| x l IH]; [done |]. cbn. rewrite <- IH. destruct (dedup l) as [| y r]; [done |].
  destruct (expr_eqb x y) eqn:E; [| done]. apply eqb_sound in E as ->. cbn. by destruct (f y).
Qed.

Lemma existsb_map {A B} (f : B → bool) (g : A → B) l : existsb f (g <$> l) = existsb (λ x, f (g x)) l.
Proof. induction l as [| x l IH]; [done |]. cbn. by f_equal. Qed.

Lemma existsb_same {A} (f g : A → bool) l : (∀ x, f x = g x) → existsb f l = existsb g l.
Proof. intros Hf. induction l as [| x l IH]; [done |]. cbn. by rewrite Hf, IH. Qed.

Definition in_list_means (c : PredicateInListCheck) : bool :=
  xorb (in_negated c) (existsb (λ i, veq (scalar (in_expr c)) (scalar i)) (in_items c)).
Lemma in_list_check_means o e c : in_list_check o e = Some c → xorb o (holds e) = in_list_means c.
Proof.
  revert o c. induction e as [| | | e IHe | u e IHe | | | | | | | | | | | x _ items negated | | | | | |]; intros o c Hc; cbn in Hc; try done.
  - by apply IHe.
  - destruct u; [| done]. apply IHe in Hc. cbn. rewrite <- Hc. by destruct o, (holds e).
  - destruct (_ && _); [| done]. injection Hc as <-. unfold in_list_means. cbn [holds in_negated in_items in_expr]. rewrite scalar_strip.
    assert (existsb (λ i, veq (scalar x) (scalar i)) items =
      existsb (λ i, veq (scalar x) (scalar i)) (strip_nested_expr <$> items)) as E.
    { rewrite existsb_map. apply existsb_same. intros i. by rewrite scalar_strip. }
    rewrite E. destruct (forallb is_value _).
    + rewrite existsb_dedup, (existsb_perm _ (sort_exprs _) (strip_nested_expr <$> items)) by apply merge_sort_Permutation.
      apply xorb_shift.
    + apply xorb_shift.
Qed.

Definition between_means (c : PredicateBetweenCheck) : bool :=
  xorb (bt_negated c) (vle (scalar (bt_low c)) (scalar (bt_expr c)) && vle (scalar (bt_expr c)) (scalar (bt_high c))).
Lemma between_check_means o e c : between_check o e = Some c → xorb o (holds e) = between_means c.
Proof.
  revert o c. induction e as [| | | e IHe | u e IHe | | | | | | | | | | | | x _ negated low _ high _ | | | | |]; intros o c Hc; cbn in Hc; try done.
  - by apply IHe.
  - destruct u; [| done]. apply IHe in Hc. cbn. rewrite <- Hc. by destruct o, (holds e).
  - destruct (expr_contains_column_reference x); [| done]. injection Hc as <-. unfold between_means.
    cbn [holds bt_negated bt_low bt_high bt_expr].
    rewrite !scalar_strip. apply xorb_shift.
Qed.

Lemma any_pair_spec {A} (f : A → A → bool) l : any_pair f l = true → ∃ x y, x ∈ l ∧ y ∈ l ∧ f x y = true.
Proof.
  induction l as [| x l IH]; [done |]. cbn. intros [Hx | Hl]%orb_true_iff.
  - apply existsb_exists in Hx as (y & Hy & E). rewrite <- list_elem_of_In in Hy. exists x, y. rewrite !elem_of_cons. auto.
  - apply IH in Hl as (a & b & Ha & Hb & E). exists a, b. rewrite !elem_of_cons. auto.
Qed.

(** Two disjuncts of which one must hold make the chain hold. *)
Lemma pair_holds {A} (check : Expr → option A) (means : A → bool) (f : A → A → bool) e :
  (∀ d c, check d = Some c → holds d = means c) → (∀ a b, f a b = true → means a || means b = true) →
  any_pair f (omap check (disjuncts e)) = true → holds e = true.
Proof.
  intros Hc Hf Hp. apply any_pair_spec in Hp as (a & b & Ha & Hb & E). apply Hf in E.
  rewrite holds_disjuncts. apply existsb_exists.
  apply list_elem_of_omap in Ha as (x & Hx & Ex). apply list_elem_of_omap in Hb as (y & Hy & Ey).
  apply Hc in Ex, Ey. rewrite <- Ex, <- Ey in E. apply orb_true_iff in E as [E | E]; [exists x | exists y];
    by rewrite <- list_elem_of_In.
Qed.

Lemma list_eqb_sound l k : list_eqb expr_eqb l k = true → l = k.
Proof.
  revert k. induction l as [| x l IH]; intros [| y k]; try done. cbn.
  intros [Hx Hl]%andb_true_iff. f_equal; eauto.
Qed.

Lemma complementary_holds e :
  or_contains_conjunctive_branch e = false → complementary e = true → holds e = true.
Proof.
  unfold complementary. intros -> Hc. cbn [orb] in Hc. rewrite !orb_true_iff in Hc. destruct Hc as [[[Hc | Hc] | Hc] | Hc].
  - refine (pair_holds null_check (λ p, xorb p.2 (is_null (scalar p.1))) _ e _ _ Hc).
    + intros d [x n] Hd. apply null_check_means in Hd. by rewrite xorb_false_l in Hd.
    + intros [x n] [y m]. cbn. intros [E Hn]%andb_true_iff. apply eqb_sound in E as ->. by destruct n, m, (is_null _).
  - refine (pair_holds (comparison_check false) (λ c, comparison_means (cmp_operator c) (vcompare (scalar (cmp_left c)) (scalar (cmp_right c)))) _ e _ _ Hc).
    + intros d c Hd. apply comparison_check_means in Hd. by rewrite xorb_false_l in Hd.
    + intros a b. rewrite !andb_true_iff. intros [[El Er] Ho]. apply eqb_sound in El as ->. apply eqb_sound in Er as ->.
      apply bool_decide_eq_true in Ho as <-. rewrite complementary_means. by destruct (comparison_means _ _).
  - refine (pair_holds (in_list_check false) in_list_means _ e _ _ Hc).
    + intros d c Hd. apply in_list_check_means in Hd. by rewrite xorb_false_l in Hd.
    + intros a b. rewrite !andb_true_iff. intros [[Ex El] Hn]. apply eqb_sound in Ex. apply list_eqb_sound in El.
      unfold in_list_means. rewrite Ex, El. by destruct (in_negated a), (in_negated b), (existsb _ _).
  - refine (pair_holds (between_check false) between_means _ e _ _ Hc).
    + intros d c Hd. apply between_check_means in Hd. by rewrite xorb_false_l in Hd.
    + intros a b. rewrite !andb_true_iff. intros [[[Ex El] Eh] Hn]. apply eqb_sound in Ex, El, Eh.
      unfold between_means. rewrite Ex, El, Eh. by destruct (bt_negated a), (bt_negated b), (vle _ _ && vle _ _).
Qed.

Definition both_literals (lhs rhs : Expr) : bool := match lhs, rhs with EValue _, EValue _ => true | _, _ => false end.

(** A verdict reached by logic alone: no part of the predicate is taken for
    unbounded because it has a subquery, no column, two literals or a
    conjunction under an OR. *)
Fixpoint decided (sign : bool) (e : Expr) : bool :=
  (negb sign || (negb (expr_contains_subquery e) && expr_contains_column_reference e)) &&
  match e with
  | ENested e => decided sign e
  | EValue _ => false
  | EUnaryOp UNot e => decided (negb sign) e
  | EBinaryOp lhs op rhs =>
      match op with
      | BAnd => decided sign lhs && decided sign rhs
      | BOr => (negb sign || negb (or_contains_conjunctive_branch e)) && decided sign lhs && decided sign rhs
      | _ => negb (both_literals lhs rhs)
      end
  | EIsTrue e | EIsNotFalse e | EIsFalse e | EIsNotTrue e => decided true e
  | _ => true
  end.

Lemma comparison_flag_holds sign lhs op rhs :
  constant_comparison_truth lhs op rhs = None → is_comparison_operator op = true → comparison_flag sign lhs op rhs = true →
  holds (EBinaryOp lhs op rhs) = sign.
Proof.
  unfold comparison_flag. intros -> Hop Hf. destruct sign; cbn [orb] in Hf; apply andb_true_iff in Hf as [He Ho];
    apply eqb_sound in He as ->; destruct op; try done; cbn; by rewrite vcompare_refl.
Qed.

Lemma no_guess (sign s c : bool) : negb sign || (negb s && c) = true → sign && (s || negb c) = false.
Proof. by destruct sign, s, c. Qed.

Lemma obviously_holds e : ∀ sign, decided sign e = true → obviously sign e = true → holds e = sign.
Proof.
  induction e as [| | v | e IHe | u e IHe | l IHl op r IHr | l IHl r IHr | l IHl r IHr | e IHe | e IHe | e IHe | e IHe | | |
    ci negated any x IHx pattern IHp esc | | | | | | |];
    intros sign Hd Ho; cbn [decided] in Hd; apply andb_true_iff in Hd as [Hg Hd]; cbn [obviously] in Ho;
    apply no_guess in Hg; rewrite Hg in Ho; cbn [orb] in Ho; try done.
  - by apply IHe.
  - destruct u; [| done]. cbn. rewrite (IHe _ Hd Ho). apply negb_involutive.
  - destruct op; cbn [is_comparison_operator] in Ho; try done;
      [| | apply comparison_flag_holds; [by destruct l, r | done | done] ..].
    + cbn in Hd. apply andb_true_iff in Hd as [Hl Hr]. cbn. destruct sign.
      * apply andb_true_iff in Ho as [Ol Or]. by rewrite (IHl _ Hl Ol), (IHr _ Hr Or).
      * apply orb_true_iff in Ho as [Ol | Or]; [by rewrite (IHl _ Hl Ol) | by rewrite (IHr _ Hr Or), andb_false_r].
    + apply andb_true_iff in Hd as [Hd Hr]. apply andb_true_iff in Hd as [Hc Hl]. destruct sign.
      * cbn in Hc. apply negb_true_iff in Hc. apply orb_true_iff in Ho as [Ho | Or]; [apply orb_true_iff in Ho as [Ho | Ol] |].
        -- by apply complementary_holds.
        -- cbn. by rewrite (IHl _ Hl Ol).
        -- cbn. by rewrite (IHr _ Hr Or), orb_true_r.
      * apply andb_true_iff in Ho as [Ol Or]. cbn. by rewrite (IHl _ Hl Ol), (IHr _ Hr Or).
  - apply andb_true_iff in Ho as [-> He]. apply eqb_sound in He. cbn. unfold veq, scalar. by rewrite He, vcompare_refl.
  - apply andb_true_iff in Ho as [Hs He]. apply negb_true_iff in Hs as ->. apply eqb_sound in He.
    cbn. unfold veq, scalar. by rewrite He, vcompare_refl.
  - apply andb_true_iff in Ho as [-> He]. cbn. auto.
  - apply andb_true_iff in Ho as [Hs He]. apply negb_true_iff in Hs as ->. cbn. by rewrite (IHe _ Hd He).
  - apply andb_true_iff in Ho as [Hs He]. apply negb_true_iff in Hs as ->. cbn. by rewrite (IHe _ Hd He).
  - apply andb_true_iff in Ho as [-> He]. cbn. auto.
  - destruct negated, any, esc; try done. apply andb_true_iff in Ho as [Ho Hp]. apply andb_true_iff in Ho as [-> _]. cbn. by rewrite Hp.
Qed.
End meaning.

(** C11: In any interpretation of columns and calls over a total order, on a row without NULLs: a
    predicate that is flagged as unbounded by its logic (and not because a part of it has a
    subquery, no column, two literals or a conjunction under an OR) is true, and one that is flagged
    as false is false; complementary null checks, comparisons written either way round, IN lists in
    any order and BETWEENs, through parentheses and NOT. *)
Theorem flagged_predicates_are_decided_by_logic `{Row V, ExprOrder} e :
  (∀ a b, expr_eqb a b = true → a = b) →
  (decided true e = true → predicate_is_obviously_unbounded e = true → holds e = true) ∧
  (decided false e = true → predicate_is_obviously_false e = true → holds e = false).
Proof. intros Hs. split; by apply obviously_holds. Qed.

(** ** Statements that need no permission

    A read that calls no function with side effects and takes no locks, a plain
    INSERT of values, or an UPDATE or DELETE of one table under a predicate that
    is not flagged. *)
Section harmless.
Context `{ExprOrder} (into : bool).

(** [x] is [e] or stands somewhere inside of it. *)
Inductive Inside : Expr → Expr → Prop :=
| inside_here e : Inside e e
| inside_below e c x : c ∈ children e → Inside c x → Inside e x.
(** The functions that change something although they are called in a read. *)
Definition changing_functions : list string :=
  ["lo_create"; "lo_import"; "lo_unlink"; "nextval"; "setval"; "pg_advisory_lock"; "pg_advisory_xact_lock"; "pg_try_advisory_lock";
   "pg_try_advisory_xact_lock"; "pg_advisory_unlock"; "pg_advisory_unlock_all"; "pg_cancel_backend"; "sys_cancel_backend";
   "pg_terminate_backend"; "pg_reload_conf"]%string.
Definition quiet (e : Expr) : Prop :=
  ∀ name args, Inside e (EFunction (Some name) args) → to_ascii_lowercase name ∉ lit <$> changing_functions.
(** The statements that only show something. *)
Inductive Shows : StatementKind → Prop :=
| shows_table : Shows KExplainTable | shows_tables : Shows KShowTables | shows_columns : Shows KShowColumns
| shows_catalogs : Shows KShowCatalogs | shows_databases : Shows KShowDatabases | shows_schemas : Shows KShowSchemas
| shows_views : Shows KShowViews | shows_functions : Shows KShowFunctions | shows_create : Shows KShowCreate
| shows_variable : Shows KShowVariable | shows_variables : Shows KShowVariables | shows_status : Shows KShowStatus
| shows_process_list : Shows KShowProcessList | shows_charset : Shows KShowCharset | shows_objects : Shows KShowObjects
| shows_collation : Shows KShowCollation.
Definition inserts_values (source : option Query) : Prop :=
  match source with Some (mkQuery _ body _ _) => ∃ exprs, body = XValues exprs | None => True end.

Inductive Harmless : Statement → Prop :=
| H_use : Harmless SUse
| H_query q : QuietQuery q → Harmless (SQuery q)
| H_explain s : Harmless (SExplain false s)
| H_analyze s : Harmless s → Harmless (SExplain true s)
| H_show k exprs : Shows k → Harmless (SKind k exprs)
| H_insert c on source exprs :
    c ≠ Some ConflictReplace → (on = None ∨ on = Some OnConflictDoNothing) → inserts_values source →
    Harmless (SInsert false false c on source exprs)
| H_update c e exprs :
    c ≠ Some ConflictReplace → predicate_is_obviously_unbounded e = false → Harmless (SUpdate false false c (Some e) exprs)
| H_delete e exprs : predicate_is_obviously_unbounded e = false → Harmless (SDelete false false [false] (Some e) exprs)
with QuietQuery : Query → Prop :=
| Q_query ctes body exprs :
    Forall QuietQuery ctes → QuietBody body → (∀ e, e ∈ query_exprs (mkQuery ctes body false exprs) → quiet e) →
    QuietQuery (mkQuery ctes body false exprs)
with QuietBody : SetExpr → Prop :=
| B_select b exprs : into && b = false → QuietBody (XSelect b exprs)
| B_query q : QuietQuery q → QuietBody (XQuery q)
| B_set l r : QuietBody l → QuietBody r → QuietBody (XSetOperation l r)
| B_insert s : Harmless s → QuietBody (XInsert s)
| B_update s : Harmless s → QuietBody (XUpdate s)
| B_delete s : Harmless s → QuietBody (XDelete s)
| B_merge s : Harmless s → QuietBody (XMerge s)
| B_values exprs : QuietBody (XValues exprs)
| B_table : QuietBody XTable.

Lemma visit_unfold test e : visit test e = test e || existsb (visit test) (children e).
Proof. destruct e; cbn; by rewrite ?orb_false_r, ?orb_assoc. Qed.
Lemma inside_visit test e x : Inside e x → test x = true → visit test e = true.
Proof.
  induction 1 as [e | e c x Hc _ IH]; intros Ht; rewrite visit_unfold; [by rewrite Ht |].
  apply orb_true_iff. right. apply existsb_exists. exists c. split; [by apply list_elem_of_In | auto].
Qed.
Lemma visit_inside test e : visit test e = true → ∃ x, Inside e x ∧ test x = true.
Proof.
  revert e. fix IH 1.
  assert (∀ l, existsb (visit test) l = true → ∃ c x, c ∈ l ∧ Inside c x ∧ test x = true) as IHl.
  { fix IHl 1. intros [| c l]; [done |]. cbn. intros [Hc | Hl]%orb_true_iff.
    - destruct (IH c Hc) as (x & ? & ?). exists c, x. split; [left | done].
    - destruct (IHl l Hl) as (c' & x & ? & ?). exists c', x. split; [by right | done]. }
  assert (∀ e, (∃ c x, c ∈ children e ∧ Inside c x ∧ test x = true) → ∃ x, Inside e x ∧ test x = true) as Hup.
  { intros e (c & x & Hc & Hx & Ht). exists x. split; [by eapply inside_below | done]. }
  intros e. destruct (test e) eqn:Ee; [intros _; exists e; split; [constructor | done] |].
  destruct e; cbn [visit]; rewrite Ee, orb_false_l, ?orb_true_iff; try done; intros Hv; apply Hup; cbn [children];
    repeat destruct Hv as [Hv | Hv];
    first [ apply IHl in Hv as (c & x & ? & ?); exists c, x; split; [by repeat constructor | done]
          | apply IH in Hv as (x & ? & ?); eexists _, x; split; [| done]; by repeat constructor ].
Qed.
Lemma quiet_spec e : visit is_side_effect_call e = false ↔ quiet e.
Proof.
  assert (∀ name, existsb (eq_ignore_ascii_case name) SIDE_EFFECT_SELECT_FUNCTIONS = true ↔ to_ascii_lowercase name ∈ lit <$> changing_functions) as Hn.
  { intros name. rewrite existsb_exists. unfold eq_ignore_ascii_case. split.
    - intros (f & Hf & Hl). apply list_elem_of_In in Hf. apply bool_decide_eq_true in Hl. rewrite Hl.
      assert (Forall (λ f, to_ascii_lowercase f ∈ lit <$> changing_functions) SIDE_EFFECT_SELECT_FUNCTIONS) as Hall
        by (apply (bool_decide_unpack _); vm_compute; exact I).
      rewrite Forall_forall in Hall. by apply Hall.
    - intros Hin. assert (Forall (λ f, f ∈ SIDE_EFFECT_SELECT_FUNCTIONS ∧ to_ascii_lowercase f = f) (lit <$> changing_functions)) as Hall
        by (apply (bool_decide_unpack _); vm_compute; exact I).
      rewrite Forall_forall in Hall. apply Hall in Hin as [Hf Hl]. exists (to_ascii_lowercase name). split; [by apply list_elem_of_In |].
      by apply bool_decide_eq_true. }
  rewrite <- not_true_iff_false. unfold quiet. split.
  - intros Hv name args Hi Hin. apply Hv. eapply inside_visit; [done |]. cbn. by apply Hn.
  - intros Hq (x & Hx & Ht)%visit_inside. unfold is_side_effect_call in Ht. destruct x as [| | | | | | | | | | | | | | | | | [name |] args | | | |]; try done.
    by eapply Hq, Hn.
Qed.
Lemma quiet_exprs (l : list Expr) : existsb (visit is_side_effect_call) l = false ↔ ∀ e, e ∈ l → quiet e.
Proof. rewrite existsb_forall. setoid_rewrite quiet_spec. done. Qed.
Lemma shows_spec k : kind_risk k = RiskReadOnly ↔ Shows k.
Proof. split; [destruct k; try done; constructor | by destruct 1]. Qed.

Lemma insert_spec a b c on source :
  insert_is_dangerous a b c on source = false ↔
  a = false ∧ b = false ∧ c ≠ Some ConflictReplace ∧ (on = None ∨ on = Some OnConflictDoNothing) ∧ inserts_values source.
Proof.
  unfold insert_is_dangerous. rewrite !orb_false_iff.
  assert (match c with Some ConflictReplace => true | _ => false end = false ↔ c ≠ Some ConflictReplace) as ->
    by (destruct c as [[] |]; naive_solver).
  assert (match on with Some OnConflictDoNothing => false | Some _ => true | None => false end = false ↔
    on = None ∨ on = Some OnConflictDoNothing) as -> by (destruct on as [[] |]; naive_solver).
  assert (match source with Some (mkQuery _ (XValues _) _ _) => false | Some _ => true | None => false end = false ↔
    inserts_values source) as ->
    by (destruct source as [[? body ? ?] |]; [destruct body; cbn; naive_solver | done]).
  tauto.
Qed.

Lemma not_replace c : match c with Some ConflictReplace => true | _ => false end = false ↔ c ≠ Some ConflictReplace.
Proof. destruct c as [[] |]; naive_solver. Qed.

Lemma statement_spec (s : Statement) : statement_is_dangerous into s = false ↔ Harmless s
with query_spec (q : Query) : query_is_dangerous into q = false ↔ QuietQuery q
with body_spec (x : SetExpr) : set_expr_is_dangerous into x = false ↔ QuietBody x.
Proof.
  - destruct s as [q | [] s' | a b c on source exprs | j f c sel exprs | t u fj sel exprs | | | k exprs |];
      cbn [statement_is_dangerous].
    + rewrite query_spec. split; [by constructor | by inversion 1].
    + rewrite statement_spec. split; [by constructor | by inversion 1].
    + split; [by constructor | done].
    + rewrite insert_spec. split; [intros (-> & -> & ? & ? & ?); by constructor | by inversion 1].
    + rewrite !orb_false_iff, not_replace. split.
      * intros [[[-> ->] Hc] Hs]. destruct sel; [| done]. by constructor.
      * by inversion 1.
    + rewrite !orb_false_iff, negb_false_iff, bool_decide_eq_true. split.
      * intros [[[[-> ->] Hl] Hj] Hs]. destruct sel; [| done]. destruct fj as [| [] [|]]; try done. by constructor.
      * by inversion 1.
    + split; [done | by inversion 1].
    + split; [by constructor | done].
    + rewrite negb_false_iff, bool_decide_eq_true, shows_spec. split; [by constructor | by inversion 1].
    + split; [done | by inversion 1].
  - destruct q as [ctes body locks exprs]. cbn [query_is_dangerous]. rewrite !orb_false_iff, body_spec.
    assert (existsb (query_is_dangerous into) ctes = false ↔ Forall QuietQuery ctes) as ->.
    { induction ctes as [| q ctes IH]; [split; [by constructor | done] |]. cbn. rewrite orb_false_iff, Forall_cons, query_spec.
      by rewrite IH. }
    unfold query_calls_known_side_effect_function. rewrite quiet_exprs. split.
    + intros [[[Hc Hb] ->] He]. by constructor.
    + inversion 1; subst. auto.
  - destruct x; cbn [set_expr_is_dangerous].
    + split; [by constructor | by inversion 1].
    + rewrite query_spec. split; [by constructor | by inversion 1].
    + rewrite orb_false_iff, !body_spec. split; [intros [? ?]; by constructor | by inversion 1].
    + rewrite statement_spec. split; [by constructor | by inversion 1].
    + rewrite statement_spec. split; [by constructor | by inversion 1].
    + rewrite statement_spec. split; [by constructor | by inversion 1].
    + rewrite statement_spec. split; [by constructor | by inversion 1].
    + split; [by constructor | done].
    + split; [by constructor | done].
Qed.
End harmless.

(** A statement that is classified as a read never needs the permission; DDL and
    transaction control always do. *)
Lemma write_capable_covers `{ExprOrder} into (q : Query) :
  query_is_write_capable into q = false → query_is_dangerous into q = false
with set_write_capable_covers `{ExprOrder} into (x : SetExpr) :
  set_expr_is_write_capable into x = false → set_expr_is_dangerous into x = false.
Proof.
  - destruct q as [ctes body locks exprs]. cbn [query_is_dangerous query_is_write_capable]. rewrite !orb_false_iff.
    intros [[[Hc Hb] ->] He]. repeat split; [| by apply set_write_capable_covers | done].
    clear He. induction ctes as [| q ctes IH]; [done |]. cbn in *. apply orb_false_iff in Hc as [Hq Hc].
    rewrite (write_capable_covers _ _ q Hq). by apply IH.
  - destruct x; cbn [set_expr_is_dangerous set_expr_is_write_capable]; try done; [apply write_capable_covers |].
    rewrite !orb_false_iff. intros [Hl Hr]. split; by apply set_write_capable_covers.
Qed.

Lemma reads_need_no_permission `{ExprOrder} into s :
  (classify_statement into s = RiskReadOnly → statement_is_dangerous into s = false) ∧
  (classify_statement into s = RiskDdl ∨ classify_statement into s = RiskTransaction → statement_is_dangerous into s = true).
Proof.
  induction s as [q | [] s IH | | | | | | k exprs |]; cbn [classify_statement statement_is_dangerous];
    try (split; [done | by intros [? | ?]]); [| done |].
  - destruct (query_is_write_capable into q) eqn:E; (split; [| by intros [? | ?]]); [done |].
    intros _. by apply write_capable_covers.
  - by destruct k; (split; [| intros [? | ?]]).
Qed.

Section classified.
Context `{Unicode, OracleTokenizer, WordTokenizer, ExprOrder, SqlParser}.

Lemma max_risk_spec risks :
  (∀ r, r ∈ risks → risk_rank r ≤ risk_rank (max_risk risks)) ∧ (max_risk risks = RiskReadOnly ∨ max_risk risks ∈ risks).
Proof.
  unfold max_risk.
  assert (∀ rs m, risk_rank m ≤ risk_rank (fold_left (λ m r, if decide (risk_rank m < risk_rank r) then r else m) rs m) ∧
    (∀ r, r ∈ rs → risk_rank r ≤ risk_rank (fold_left (λ m r, if decide (risk_rank m < risk_rank r) then r else m) rs m)) ∧
    (fold_left (λ m r, if decide (risk_rank m < risk_rank r) then r else m) rs m = m ∨
     fold_left (λ m r, if decide (risk_rank m < risk_rank r) then r else m) rs m ∈ rs)) as Hf.
  { induction rs as [| r rs IH]; intros m; cbn [fold_left].
    - split; [lia |]. split; [| by left]. intros r Hr. by apply not_elem_of_nil in Hr.
    - destruct (IH (if decide (risk_rank m < risk_rank r) then r else m)) as (H1' & H2' & H3').
      assert (risk_rank m ≤ risk_rank (if decide (risk_rank m < risk_rank r) then r else m) ∧
              risk_rank r ≤ risk_rank (if decide (risk_rank m < risk_rank r) then r else m)) as [? ?] by (case_decide; lia).
      split; [lia |]. split.
      + intros x. rewrite elem_of_cons. intros [-> | Hx]; [lia | by apply H2'].
      + rewrite elem_of_cons. destruct H3' as [-> | ?]; [case_decide; auto | auto]. }
  destruct (Hf risks RiskReadOnly) as (_ & Ha & Hb). auto.
Qed.

(** For SQL that parses, `classify_sql_risk_for_database` returns at least the risk of every
    statement, and read-only exactly when every statement is read-only and neither a locking clause
    nor a write in the syntax of the dialect was found; a statement that is read-only needs no
    permission for dangerous operations. *)
Theorem a_script_is_a_read_only_if_every_statement_is sql d stmts :
  classify_search_engine_query_risk sql d = None →
  parse_sql (resolve_dialect (normalize_dialect (lit (debug_name d)))) sql = Some stmts → stmts ≠ [] →
  ∃ r, classify_sql_risk_for_database sql d = Ok r ∧
    (r = RiskReadOnly ↔
      (∀ s, s ∈ stmts → classify_statement false s = RiskReadOnly) ∧ has_dialect_specific_write sql d = false ∧
      sql_contains_locking_clause sql (dialect_of d) = false) ∧
    (∀ s, s ∈ stmts → risk_rank (classify_statement false s) ≤ risk_rank r) ∧
    (∀ s, s ∈ stmts → classify_statement false s = RiskReadOnly → statement_is_dangerous false s = false).
Proof.
  intros He Hp Hne. unfold classify_sql_risk_for_database, classify_sql_risk_with_database. rewrite He, Hp.
  destruct stmts as [| s0 ss]; [done |]. clear Hne. set (stmts := s0 :: ss) in *.
  rewrite (bool_decide_eq_false_2 (Some d = None)) by done. fold (dialect_of d).
  set (risks := classify_statement false <$> stmts). destruct (max_risk_spec risks) as [Hmax Hin]. set (m := max_risk risks) in *.
  assert (m = RiskReadOnly ↔ ∀ s, s ∈ stmts → classify_statement false s = RiskReadOnly) as Hread.
  { split.
    - intros Em s Hs. assert (classify_statement false s ∈ risks) as Hr by (by apply list_elem_of_fmap_2).
      apply Hmax in Hr. rewrite Em in Hr. destruct (classify_statement false s); cbn in Hr; [done | lia..].
    - intros Hall. destruct Hin as [? | Hin]; [done |]. apply list_elem_of_fmap in Hin as (s & -> & Hs). auto. }
  assert (∀ s, s ∈ stmts → risk_rank (classify_statement false s) ≤ risk_rank m) as Hle.
  { intros s Hs. apply Hmax. by apply list_elem_of_fmap_2. }
  pose proof (λ s (_ : s ∈ stmts), proj1 (reads_need_no_permission false s)) as Hreads.
  destruct (bool_decide (m = RiskReadOnly) && (has_dialect_specific_write sql d || sql_contains_locking_clause sql (dialect_of d))) eqn:E.
  - apply andb_true_iff in E as [Em E]. apply bool_decide_eq_true in Em. exists RiskWrite. split; [done |].
    split; [| split; [| done]].
    + split; [done |]. intros (_ & Hd & Hl). by rewrite Hd, Hl in E.
    + intros s Hs. etransitivity; [by apply Hle |]. rewrite Em. cbn. lia.
  - exists m. split; [done |]. split; [| done]. rewrite <- Hread. split; [| tauto]. intros Em.
    rewrite (bool_decide_eq_true_2 _ Em) in E. apply orb_false_iff in E as [? ?]. done.
Qed.

(** C10: For a text that is not read as the request of a search engine (on Elasticsearch and its
    kind the method and path of a request decide instead) and that parses to at least one statement,
    `is_dangerous_sql_for_database` asks for no permission exactly when there is no locking clause,
    no syntax that writes inside a read where the dialect's tree cannot show it, and every statement
    is harmless: USE, a plan that is not run, one of sixteen SHOW and DESCRIBE statements, a query
    whose parts at every depth take no locks, call none of fifteen functions that change something
    (sequences, large objects, advisory locks, backends), create no table by SELECT INTO where the
    dialect has it and contain only harmless statements, a plain INSERT of values, or an UPDATE or
    DELETE of one table with a WHERE clause that is not flagged as unbounded. *)
Theorem safe_write_mode_admits_only_bounded_writes sql d stmts :
  classify_search_engine_query_risk sql d = None → parse_sql (dialect_of d) sql = Some stmts → stmts ≠ [] →
  is_dangerous_sql_for_database sql d = false ↔
    sql_contains_locking_clause sql (dialect_of d) = false ∧
    (supports_select_into_table_creation d = false → has_dialect_specific_write sql d = false) ∧
    (∀ s, s ∈ stmts → Harmless (supports_select_into_table_creation d) s).
Proof.
  intros He Hp Hne. unfold is_dangerous_sql_for_database. rewrite He, Hp. destruct stmts as [| s0 ss]; [done |].
  rewrite !orb_false_iff, existsb_forall. setoid_rewrite statement_spec.
  destruct (supports_select_into_table_creation d); cbn [negb andb]; intuition congruence.
Qed.
End classified.

(** ** An instance: structural equality *)
Fixpoint eqb_struct (a b : Expr) : bool :=
  match a, b with
  | EIdentifier v, EIdentifier w => bool_decide (v = w)
  | ECompoundIdentifier v, ECompoundIdentifier w => bool_decide (v = w)
  | EValue v, EValue w => bool_decide (v = w)
  | ENested x, ENested y | EIsTrue x, EIsTrue y | EIsNotTrue x, EIsNotTrue y | EIsFalse x, EIsFalse y
  | EIsNotFalse x, EIsNotFalse y | EIsNull x, EIsNull y | EIsNotNull x, EIsNotNull y => eqb_struct x y
  | EUnaryOp o x, EUnaryOp p y => bool_decide (o = p) && eqb_struct x y
  | EBinaryOp l o r, EBinaryOp l' p r' => bool_decide (o = p) && eqb_struct l l' && eqb_struct r r'
  | EIsNotDistinctFrom l r, EIsNotDistinctFrom l' r' | EIsDistinctFrom l r, EIsDistinctFrom l' r' => eqb_struct l l' && eqb_struct r r'
  | ELike i n a x p c, ELike i' n' a' x' p' c' => bool_decide ((i, n, a, c) = (i', n', a', c')) && eqb_struct x x' && eqb_struct p p'
  | EInList x l n, EInList y k m => bool_decide (n = m) && eqb_struct x y && list_eqb eqb_struct l k
  | EBetween x n l h, EBetween y m l' h' => bool_decide (n = m) && eqb_struct x y && eqb_struct l l' && eqb_struct h h'
  | EFunction f l, EFunction g k => bool_decide (f = g) && list_eqb eqb_struct l k
  | EInSubquery x l, EInSubquery y k => eqb_struct x y && list_eqb eqb_struct l k
  | EExists l, EExists k | ESubquery l, ESubquery k => list_eqb eqb_struct l k
  | EOther t l, EOther u k => bool_decide (t = u) && list_eqb eqb_struct l k
  | _, _ => false
  end.

Lemma eqb_struct_sound (a : Expr) : ∀ b, eqb_struct a b = true → a = b.
Proof.
  revert a. fix IH 1.
  assert (∀ l k, list_eqb eqb_struct l k = true → l = k) as IHl.
  { fix IHl 1. intros [| x l] [| y k]; try done. cbn. intros [Hx Hl]%andb_true_iff. f_equal; [by apply IH | by apply IHl]. }
  intros a b. destruct a, b; try done; cbn [eqb_struct]; rewrite ?andb_true_iff, ?bool_decide_eq_true; intros Hab; destruct_and?;
    simplify_eq; f_equal; first [by apply IH | by apply IHl].
Qed.

(** The order only serves to normalise, so that any order will do. *)
Definition struct_order : ExprOrder := {| expr_eqb := eqb_struct; expr_leb := λ _ _, true |}.

(** A row that gives every expression the length of its name. *)
Definition sample_row : Row nat :=
  {| atom e := match e with EIdentifier v => length v | _ => 0 end; opaque _ := false; is_null _ := false; vcompare := Nat.compare;
     vcompare_refl := Nat.compare_refl; vcompare_antisym v w := Nat.compare_antisym v w |}.

Definition col (s : string) : Expr := EIdentifier (lit s).
Definition num (s : string) : Expr := EValue (VNumber (lit s)).

(** [age > 5 OR NOT (age > 5)] *)
Definition split_range : Expr :=
  EBinaryOp (EBinaryOp (col "age") BGt (num "5")) BOr (EUnaryOp UNot (ENested (EBinaryOp (col "age") BGt (num "5")))).

Lemma flagged_predicates_are_decided_by_logic_witness : holds (H := sample_row) split_range = true.
Proof.
  apply (flagged_predicates_are_decided_by_logic (H := sample_row) (H0 := struct_order) split_range eqb_struct_sound);
    vm_compute; reflexivity.
Defined.

(** A parser that knows one statement: [DELETE FROM t WHERE id = 5]. *)
Definition delete_by_id : Statement := SDelete false false [false] (Some (EBinaryOp (col "id") BEq (num "5"))) [].
Definition one_statement (s : Statement) : SqlParser := {| parse_sql _ _ := Some [s]; risk_tokens _ _ := Some [] |}.

Lemma safe_write_mode_admits_only_bounded_writes_witness :
  is_dangerous_sql_for_database (H := ascii_only) (H0 := no_tokenizer) (H1 := no_words) (H2 := struct_order)
    (H3 := one_statement delete_by_id) (lit "DELETE FROM t WHERE id = 5") DatabaseType.Postgres = false ∧
  Harmless (H := struct_order) true delete_by_id.
Proof.
  assert (is_dangerous_sql_for_database (H := ascii_only) (H0 := no_tokenizer) (H1 := no_words) (H2 := struct_order)
    (H3 := one_statement delete_by_id) (lit "DELETE FROM t WHERE id = 5") DatabaseType.Postgres = false) as E by (vm_compute; reflexivity).
  split; [exact E |].
  apply (safe_write_mode_admits_only_bounded_writes (H := ascii_only) (H0 := no_tokenizer) (H1 := no_words) (H2 := struct_order)
    (H3 := one_statement delete_by_id) (lit "DELETE FROM t WHERE id = 5") DatabaseType.Postgres [delete_by_id]);
    [reflexivity | reflexivity | discriminate | exact E | left].
Defined.

Lemma a_script_is_a_read_only_if_every_statement_is_witness :
  ∃ r, classify_sql_risk_for_database (H := ascii_only) (H0 := no_tokenizer) (H1 := no_words)
    (H3 := one_statement delete_by_id) (lit "DELETE FROM t WHERE id = 5") DatabaseType.Postgres = Ok r ∧ risk_rank RiskWrite ≤ risk_rank r.
Proof.
  destruct (a_script_is_a_read_only_if_every_statement_is (H := ascii_only) (H0 := no_tokenizer) (H1 := no_words) (H2 := struct_order)
    (H3 := one_statement delete_by_id) (lit "DELETE FROM t WHERE id = 5") DatabaseType.Postgres [delete_by_id])
    as (r & E & _ & Hle & _); [reflexivity | reflexivity | discriminate |].
  exists r. split; [exact E | exact (Hle delete_by_id ltac:(left))].
Defined.

(** Parentheses hide a tautology: [(id) = id] is true on every row of every
    interpretation, and is not flagged, while [id = id] is. *)
Example parenthesised_tautology_is_not_flagged :
  predicate_is_obviously_unbounded (H := struct_order) (EBinaryOp (col "id") BEq (col "id")) = true ∧
  predicate_is_obviously_unbounded (H := struct_order) (EBinaryOp (ENested (col "id")) BEq (col "id")) = false ∧
  ∀ V (R : Row V), holds (EBinaryOp (ENested (col "id")) BEq (col "id")) = true.
Proof. split_and!; [done.. |]. intros V R. cbn. by rewrite vcompare_refl. Qed.
