(* ===== verification/MongoFilter.v ===== *)
(** * Filters of MongoDB writes (mongo_shell.rs)

    Whether the filter of an update or delete lets through every document.  A
    filter is a JSON value, an object a list of its fields in order (keys are
    unique in [serde_json]).  The check of a timestamp belongs to the chrono
    crate and is a parameter.

    [matches] is the meaning of a filter on a document, arrays included, after
    the documentation of the server: the comparison of values is a parameter
    that never orders values of different types.  Against it
    [unbounded_filters_are_recognised] shows that the classification is exact
    for filters without $or whose fields have one operator each; the examples
    at the end show that each of these restrictions is needed. *)
From S2P Require Import Prelude StateStore Json.
Local Open Scope dbx_scope.

(** ** Objects *)
Definition as_object (v : json) : option (list (str * json)) := match v with JObject fs => Some fs | _ => None end.
Definition as_array (v : json) : option (list json) := match v with JArray l => Some l | _ => None end.
Definition as_str (v : json) : option str := match v with JString s => Some s | _ => None end.
Definition as_bool (v : json) : option bool := match v with JBool b => Some b | _ => None end.
Definition contains_key (key : str) (fs : list (str * json)) : bool := bool_decide (is_Some (field_of_object key fs)).
Definition dollar (key : str) : bool := bool_decide (head key = Some (chr "$")).

(** [chrono::DateTime::parse_from_rfc3339(value).is_ok()] *)
Class Timestamps := is_rfc3339 : str → bool.

Inductive MongoFieldOperator := OpEq | OpNe | OpGt | OpGte | OpLt | OpLte | OpIn | OpNin | OpExists.
#[export] Instance MongoFieldOperator_eq_dec : EqDecision MongoFieldOperator.
Proof. solve_decision. Defined.
Record MongoPureFieldPredicate := mkPure { pf_field : str; pf_operator : MongoFieldOperator; pf_operand : json }.

Definition field_operator (key : str) : option MongoFieldOperator :=
  if decide (key = lit "$eq") then Some OpEq else if decide (key = lit "$ne") then Some OpNe
  else if decide (key = lit "$gt") then Some OpGt else if decide (key = lit "$gte") then Some OpGte
  else if decide (key = lit "$lt") then Some OpLt else if decide (key = lit "$lte") then Some OpLte
  else if decide (key = lit "$in") then Some OpIn else if decide (key = lit "$nin") then Some OpNin
  else if decide (key = lit "$exists") then Some OpExists else None.

(** ** Unbounded filters *)
Definition mongo_field_predicate_is_empty_nin (value : json) : bool :=
  match as_object value with
  | Some p => bool_decide (length p = 1) &&
      match field_of_object (lit "$nin") p with Some v => match as_array v with Some [] => true | _ => false end | None => false end
  | None => false
  end.
Definition mongo_field_predicate_is_exists_true (value : json) : bool :=
  match as_object value with
  | Some p => bool_decide (length p = 1) &&
      match field_of_object (lit "$exists") p with Some v => bool_decide (as_bool v = Some true) | None => false end
  | None => false
  end.

(** One entry of a filter, [rec] for the clauses of $and and $or. *)
Definition unbounded_entry (rec : json → bool) (kv : str * json) : bool :=
  let '(key, value) := kv in
  if decide (key = lit "$comment") then true
  else if decide (key = lit "$and") then
    match value with JArray clauses => bool_decide (length clauses = 0) || forallb rec clauses | _ => true end
  else if decide (key = lit "$or") then
    match value with JArray clauses => bool_decide (length clauses = 0) || existsb rec clauses | _ => true end
  else if decide (key = lit "$nor") then true
  else if mongo_field_predicate_is_empty_nin value then true
  else if bool_decide (key = lit "_id") && mongo_field_predicate_is_exists_true value then true
  else dollar key.
Fixpoint mongo_filter_value_is_unbounded (value : json) : bool :=
  match value with
  | JObject filter =>
      if bool_decide (filter = []) || contains_key (lit "$where") filter || contains_key (lit "$expr") filter then true
      else forallb (unbounded_entry mongo_filter_value_is_unbounded) filter
  | _ => true
  end.

(** ** Logic that is not looked into *)
Section opaque.
Context `{Timestamps}.

Definition mongo_extended_json_scalar_literal_is_valid (value : json) : bool :=
  match as_object value with
  | Some wrapper =>
      if negb (bool_decide (length wrapper = 1)) then false
      else match field_of_object (lit "$oid") wrapper ≫= as_str with
           | Some v => bool_decide (byte_len v = 24) && forallb is_ascii_hexdigit v
           | None =>
               match field_of_object (lit "$numberLong") wrapper ≫= as_str with
               | Some v => bool_decide (is_Some (parse_i64 v))
               | None => match field_of_object (lit "$date") wrapper ≫= as_str with Some v => is_rfc3339 v | None => false end
               end
           end
  | None => false
  end.

Definition mongo_field_predicate_contains_opaque_logic (value : json) : bool :=
  match as_object value with
  | None => false
  | Some predicate =>
      if mongo_extended_json_scalar_literal_is_valid value then false
      else existsb (λ kv, dollar kv.1) predicate && existsb (λ kv, negb (bool_decide (is_Some (field_operator kv.1)))) predicate
  end.

(** The one entry of an object, comments aside. *)
Definition pure_entry (fs : list (str * json)) : option (str * json) :=
  match filter (λ kv : str * json, kv.1 ≠ lit "$comment") fs with [kv] => Some kv | _ => None end.

(** The predicate on the value of a field. *)
Definition pure_field (field : str) (predicate : json) : option MongoPureFieldPredicate :=
  match as_object predicate with
  | None => Some (mkPure field OpEq predicate)
  | Some ops =>
      if mongo_extended_json_scalar_literal_is_valid predicate || negb (existsb (λ kv, dollar kv.1) ops)
      then Some (mkPure field OpEq predicate)
      else match ops with
           | [(operator, operand)] => op ← field_operator operator; Some (mkPure field op operand)
           | _ => None
           end
  end.

(** [mongo_pure_field_predicate] goes down into $and and $or; the fuel bounds
    the depth. *)
Fixpoint mongo_pure_field_predicate (fuel : nat) (value : json) : option MongoPureFieldPredicate :=
  match fuel with
  | O => None
  | S fuel' =>
      fs ← as_object value;
      '(field, predicate) ← pure_entry fs;
      if decide (field = lit "$and") then
        clauses ← as_array predicate;
        match filter (λ c, mongo_filter_value_is_unbounded c = false) clauses with
        | [clause] => mongo_pure_field_predicate fuel' clause
        | _ => None
        end
      else if decide (field = lit "$or") then
        clauses ← as_array predicate;
        match clauses with [clause] => mongo_pure_field_predicate fuel' clause | _ => None end
      else if dollar field then None
      else pure_field field predicate
  end.

Definition mongo_json_sets_equal (left right : json) : bool :=
  match as_array left, as_array right with
  | Some l, Some r => forallb (λ v, existsb (value_eqb v) r) l && forallb (λ v, existsb (value_eqb v) l) r
  | _, _ => false
  end.

Definition mongo_field_predicates_are_complementary (a b : MongoPureFieldPredicate) : bool :=
  if negb (bool_decide (pf_field a = pf_field b)) then false
  else match pf_operator a, pf_operator b with
       | OpExists, OpExists =>
           match as_bool (pf_operand a), as_bool (pf_operand b) with Some x, Some y => xorb x y | _, _ => false end
       | OpIn, OpNin | OpNin, OpIn => mongo_json_sets_equal (pf_operand a) (pf_operand b)
       | OpEq, OpNe | OpNe, OpEq | OpGt, OpLte | OpLte, OpGt | OpGte, OpLt | OpLt, OpGte => value_eqb (pf_operand a) (pf_operand b)
       | _, _ => false
       end.

Fixpoint json_depth (v : json) : nat :=
  match v with
  | JArray l => S (fold_right (λ x n, Nat.max (json_depth x) n) 0 l)
  | JObject fs => S (fold_right (λ kv n, Nat.max (json_depth kv.2) n) 0 fs)
  | _ => 1
  end.
Definition pure_predicate (value : json) : option MongoPureFieldPredicate := mongo_pure_field_predicate (json_depth value) value.

Fixpoint mongo_or_has_complementary_field_clauses (clauses : list json) : bool :=
  match clauses with
  | [] => false
  | clause :: rest =>
      match pure_predicate clause with
      | Some p => existsb (mongo_field_predicates_are_complementary p) (omap pure_predicate rest)
      | None => false
      end || mongo_or_has_complementary_field_clauses rest
  end.

Definition is_object (v : json) : bool := bool_decide (is_Some (as_object v)).
Definition has_and (v : json) : bool := match as_object v with Some fs => contains_key (lit "$and") fs | None => false end.

Definition opaque_entry (rec : json → bool) (kv : str * json) : bool :=
  let '(key, value) := kv in
  if decide (key = lit "$comment") then false
  else if decide (key = lit "$where" ∨ key = lit "$expr" ∨ key = lit "$nor") then true
  else if decide (key = lit "$and" ∨ key = lit "$or") then
    match value with
    | JArray clauses =>
        bool_decide (length clauses = 0) || existsb (λ c, negb (is_object c) || rec c) clauses ||
        (bool_decide (key = lit "$or") && existsb has_and clauses) ||
        (bool_decide (key = lit "$or") && mongo_or_has_complementary_field_clauses clauses)
    | _ => true
    end
  else dollar key || mongo_field_predicate_contains_opaque_logic value.
Fixpoint mongo_filter_contains_opaque_logic (value : json) : bool :=
  match value with
  | JObject filter => existsb (opaque_entry mongo_filter_contains_opaque_logic) filter
  | _ => true
  end.

(** The filter as text; [parse] is [serde_json::from_str]. *)
Definition mongo_filter_is_effectively_unbounded (parse : str → option json) (filter_json : str) : bool :=
  match parse filter_json with
  | Some value => mongo_filter_contains_opaque_logic value || mongo_filter_value_is_unbounded value
  | None => true
  end.
End opaque.

(** ** What a filter means

    A document gives the value at each path.  A condition on a field holds when
    one of its candidates satisfies it: the value itself and, for an array, its
    elements; a missing field counts as null. *)
Definition kind_of (v : json) : nat :=
  match v with JNull => 0 | JBool _ => 1 | JNumber _ => 2 | JString _ => 3 | JArray _ => 4 | JObject _ => 5 end.

(** The order of values on the server: only within one type. *)
Class ValueOrder := {
  vcmp : json → json → option comparison;
  vcmp_kind x y : vcmp x y ≠ None → kind_of x = kind_of y;
}.

Abbreviation document := (list N → option json).

Definition same (a b : json) : bool := bool_decide (a = b) || value_eqb a b.
Definition candidates (x : option json) : list json :=
  match x with None => [JNull] | Some (JArray l) => JArray l :: l | Some v => [v] end.
Definition truthy (v : json) : bool :=
  match v with JBool b => b | JNull => false | JNumber t => negb (bool_decide (t = lit "0")) | _ => true end.

Section meaning.
Context `{Timestamps, ValueOrder} (unknown : list N → json → document → bool).

Definition equals_field (x : option json) (v : json) : bool := existsb (same v) (candidates x).
Definition compares (ok : comparison → bool) (x : option json) (v : json) : bool :=
  existsb (λ c, match vcmp c v with Some o => ok o | None => false end) (candidates x).

Definition operator_holds (op : MongoFieldOperator) (x : option json) (operand : json) : bool :=
  match op with
  | OpEq => equals_field x operand
  | OpNe => negb (equals_field x operand)
  | OpGt => compares (λ o, match o with Gt => true | _ => false end) x operand
  | OpGte => compares (λ o, match o with Lt => false | _ => true end) x operand
  | OpLt => compares (λ o, match o with Lt => true | _ => false end) x operand
  | OpLte => compares (λ o, match o with Gt => false | _ => true end) x operand
  | OpIn => existsb (equals_field x) (default [] (as_array operand))
  | OpNin => negb (existsb (equals_field x) (default [] (as_array operand)))
  | OpExists => Bool.eqb (bool_decide (is_Some x)) (truthy operand)
  end.

(** A literal is compared; an object of operators holds when they all do. *)
Definition is_literal (p : json) : bool :=
  match as_object p with
  | None => true
  | Some ops => mongo_extended_json_scalar_literal_is_valid p || negb (existsb (λ kv, dollar kv.1) ops)
  end.
Definition field_holds (doc : document) (field : str) (p : json) : bool :=
  if is_literal p then equals_field (doc field) p
  else forallb (λ kv : str * json, match field_operator kv.1 with
                      | Some op => operator_holds op (doc field) kv.2
                      | None => unknown field p doc
                      end) (default [] (as_object p)).

Definition matches_entry (rec : json → bool) (doc : document) (kv : str * json) : bool :=
  let '(key, value) := kv in
  if decide (key = lit "$comment") then true
  else if decide (key = lit "$and") then match value with JArray cs => forallb rec cs | _ => false end
  else if decide (key = lit "$or") then match value with JArray cs => existsb rec cs | _ => false end
  else if dollar key then unknown key value doc
  else field_holds doc key value.
Fixpoint matches (doc : document) (value : json) : bool :=
  match value with JObject fs => forallb (matches_entry (matches doc) doc) fs | _ => false end.

(** ** Filters with one operator per field and without $or *)
Definition valid_operand (op : MongoFieldOperator) (v : json) : bool :=
  match op with
  | OpIn | OpNin => bool_decide (is_Some (as_array v))
  | OpExists => bool_decide (is_Some (as_bool v))
  | _ => true
  end.
Definition simple_field (p : json) : bool :=
  is_literal p ||
  match as_object p with
  | Some [(key, v)] => match field_operator key with Some op => valid_operand op v | None => false end
  | _ => false
  end.
Definition simple_entry (rec : json → bool) (kv : str * json) : bool :=
  let '(key, value) := kv in
  if decide (key = lit "$comment") then true
  else if decide (key = lit "$and") then match value with JArray cs => forallb rec cs | _ => false end
  else negb (dollar key) && simple_field value.
Fixpoint simple (value : json) : bool :=
  match value with JObject fs => forallb (simple_entry simple) fs | _ => false end.

(** Induction on filters: through the clauses of an array in a field. *)
Lemma filter_ind (P : json → Prop) :
  (∀ v, (∀ fs, v ≠ JObject fs) → P v) →
  (∀ fs, (∀ key cs c, (key, JArray cs) ∈ fs → c ∈ cs → P c) → P (JObject fs)) → ∀ v, P v.
Proof.
  intros Hv HO v. enough (P v ∧ match v with JArray l => Forall P l | _ => True end) by tauto. revert v. fix IH 1.
  intros [| b | t | s | l | fs]; try (split; [by apply Hv | done]).
  - split; [by apply Hv |]. induction l as [| x l IHl]; constructor; [apply IH | apply IHl].
  - split; [| done]. apply HO. intros key cs c Hin Hc.
    assert (Forall (λ kv : str * json, match kv.2 with JArray l => Forall P l | _ => True end) fs) as Hfs.
    { clear Hin. induction fs as [| [k w] fs IHf]; constructor; [apply (IH w) | apply IHf]. }
    rewrite Forall_forall in Hfs. specialize (Hfs _ Hin). cbn in Hfs. rewrite Forall_forall in Hfs. auto.
Qed.

Lemma single_field key (p : list (str * json)) v : length p = 1 → field_of_object key p = Some v → p = [(key, v)].
Proof.
  destruct p as [| [k w] [| ]]; try done. intros _. cbn. destruct (decide (k = key)) as [-> |]; [| done]. by intros [= ->].
Qed.

Lemma operator_not_literal key v :
  dollar key = true → key ≠ lit "$oid" → key ≠ lit "$numberLong" → key ≠ lit "$date" → is_literal (JObject [(key, v)]) = false.
Proof.
  intros Hd H1' H2' H3'. unfold is_literal, mongo_extended_json_scalar_literal_is_valid. cbn.
  rewrite !decide_False by done. cbn. by rewrite Hd.
Qed.

(** *** An unbounded filter lets every document through *)
Lemma empty_nin_holds doc field p : mongo_field_predicate_is_empty_nin p = true → field_holds doc field p = true.
Proof.
  unfold mongo_field_predicate_is_empty_nin. destruct p as [| | | | | fs]; try done. cbn [as_object].
  intros [Hl%bool_decide_eq_true Hn]%andb_true_iff. destruct (field_of_object _ fs) as [v |] eqn:E; [| done].
  apply single_field in E as ->; [| done]. by destruct v as [| | | | [| ] |].
Qed.

Lemma exists_true_holds (doc : document) field p :
  mongo_field_predicate_is_exists_true p = true → is_Some (doc field) → field_holds doc field p = true.
Proof.
  unfold mongo_field_predicate_is_exists_true. destruct p as [| | | | | fs]; try done. cbn [as_object].
  intros [Hl%bool_decide_eq_true Hn]%andb_true_iff Hs. destruct (field_of_object _ fs) as [v |] eqn:E; [| done].
  apply single_field in E as ->; [| done]. destruct v as [| [] | | | |]; try done.
  destruct Hs as [w Hw]. unfold field_holds. rewrite operator_not_literal by done. cbn. by rewrite Hw.
Qed.

Lemma not_opaque_entry fs kv :
  mongo_filter_contains_opaque_logic (JObject fs) = false → kv ∈ fs →
  opaque_entry mongo_filter_contains_opaque_logic kv = false.
Proof.
  intros Ho Hin. apply not_true_iff_false. intros E. apply not_true_iff_false in Ho. apply Ho.
  apply existsb_exists. exists kv. by rewrite <- list_elem_of_In.
Qed.

Lemma field_elem key fs v : field_of_object key fs = Some v → (key, v) ∈ fs.
Proof.
  induction fs as [| [k w] fs IH]; [done |]. cbn. destruct (decide (k = key)) as [-> |].
  - intros [= ->]. left.
  - intros Hv. right. by apply IH.
Qed.

Lemma no_opaque_key key fs :
  key = lit "$where" ∨ key = lit "$expr" → mongo_filter_contains_opaque_logic (JObject fs) = false → contains_key key fs = false.
Proof.
  intros Hk Ho. apply bool_decide_eq_false. intros [v Hv]. apply field_elem in Hv.
  apply (not_opaque_entry _ _ Ho) in Hv. cbn [opaque_entry] in Hv.
  rewrite decide_False, decide_True in Hv by (destruct Hk as [-> | ->]; auto; done). done.
Qed.

Lemma not_opaque_clauses (key : str) cs :
  key = lit "$and" ∨ key = lit "$or" → opaque_entry mongo_filter_contains_opaque_logic (key, JArray cs) = false →
  cs ≠ [] ∧ ∀ c, c ∈ cs → mongo_filter_contains_opaque_logic c = false.
Proof.
  intros Hk Ho. cbn [opaque_entry] in Ho.
  rewrite decide_False, decide_False, decide_True in Ho by (destruct Hk as [-> | ->]; auto; naive_solver).
  rewrite !orb_false_iff in Ho. destruct Ho as [[[Hl Hc] _] _]. split; [by intros -> |].
  intros c Hin. apply not_true_iff_false in Hc. destruct (mongo_filter_contains_opaque_logic c) eqn:E; [| done].
  destruct Hc. apply existsb_exists. exists c. rewrite <- list_elem_of_In, E, orb_true_r. done.
Qed.

Lemma unbounded_matches (doc : document) v :
  is_Some (doc (lit "_id")) → mongo_filter_contains_opaque_logic v = false → mongo_filter_value_is_unbounded v = true →
  matches doc v = true.
Proof.
  intros Hid. induction v as [v Hv | fs IH] using filter_ind; intros Ho Hu.
  { destruct v as [| | | | | fs]; try done. by destruct (Hv fs). }
  cbn [mongo_filter_value_is_unbounded] in Hu.
  rewrite (no_opaque_key (lit "$where")), (no_opaque_key (lit "$expr")), !orb_false_r in Hu by auto.
  case_bool_decide as Hfs; [by rewrite Hfs |].
  cbn [matches]. apply forallb_forall. intros [key p] Hin.
  pose proof (proj1 (forallb_forall _ _) Hu _ Hin) as Hk. rewrite <- list_elem_of_In in Hin.
  pose proof (not_opaque_entry _ _ Ho Hin) as He. cbn [unbounded_entry] in Hk. cbn [matches_entry].
  destruct (decide (key = lit "$comment")) as [| Hc]; [done |].
  destruct (decide (key = lit "$and")) as [-> | Ha].
  { destruct p as [| | | | cs |]; try done. apply not_opaque_clauses in He as [Hne Hcs]; [| auto].
    apply forallb_forall. intros c Hc'. rewrite <- list_elem_of_In in Hc'.
    apply (IH _ _ c Hin Hc'); [auto |]. case_bool_decide; [by destruct cs |]. cbn in Hk.
    rewrite forallb_forall in Hk. apply Hk. by rewrite <- list_elem_of_In. }
  destruct (decide (key = lit "$or")) as [-> | Hor].
  { destruct p as [| | | | cs |]; try done. apply not_opaque_clauses in He as [Hne Hcs]; [| auto].
    case_bool_decide; [by destruct cs |]. cbn in Hk. apply existsb_exists in Hk as (c & Hc' & Hk). apply existsb_exists.
    exists c. split; [done |]. rewrite <- list_elem_of_In in Hc'. by apply (IH _ _ c Hin Hc'); [auto |]. }
  cbn [opaque_entry] in He. rewrite decide_False in He by done.
  destruct (decide (key = lit "$where" ∨ _)) as [| Hw]; [done |]. rewrite decide_False in He by tauto.
  apply orb_false_iff in He as [Hd Hp]. rewrite Hd. rewrite decide_False in Hk by tauto.
  destruct (mongo_field_predicate_is_empty_nin p) eqn:Hn; [by apply empty_nin_holds |].
  destruct (bool_decide (key = lit "_id") && mongo_field_predicate_is_exists_true p) eqn:Hx; [| by rewrite Hd in Hk].
  apply andb_true_iff in Hx as [->%bool_decide_eq_true Hx]. by apply exists_true_holds.
Qed.

(** *** A filter that is not unbounded rejects a document *)
Definition other_scalar (v : json) : json := match v with JBool true => JBool false | _ => JBool true end.
Definition other_kind (v : json) : json := match v with JBool _ => JNull | _ => JBool true end.

Lemma other_scalar_differs v : equals_field (Some (other_scalar v)) v = false.
Proof. destruct v as [| [] | | | |]; done. Qed.

Lemma other_kind_incomparable f v : compares f (Some (other_kind v)) v = false.
Proof.
  unfold compares. assert (vcmp (other_kind v) v = None) as E.
  { destruct (vcmp (other_kind v) v) eqn:E; [| done]. assert (kind_of (other_kind v) = kind_of v) as Hk by (apply vcmp_kind; by rewrite E).
    by destruct v. }
  destruct v; cbn in *; by rewrite E.
Qed.

Lemma candidates_self v : v ∈ candidates (Some v).
Proof. destruct v; cbn; left. Qed.

Lemma equals_self v : equals_field (Some v) v = true.
Proof.
  apply existsb_exists. exists v. rewrite <- list_elem_of_In. split; [apply candidates_self |].
  unfold same. by rewrite bool_decide_eq_true_2.
Qed.

Lemma fresh_value (l : list json) : ∃ s, existsb (equals_field (Some (JString s))) l = false.
Proof.
  exists (fresh (omap as_str l)). apply not_true_iff_false. rewrite existsb_exists. intros (v & Hv & E).
  unfold equals_field in E. cbn in E. rewrite orb_false_r in E. unfold same in E.
  assert (v = JString (fresh (omap as_str l))) as ->.
  { apply orb_true_iff in E as [E | E]; [by apply bool_decide_eq_true in E |].
    destruct v; try done. cbn in E. by apply bool_decide_eq_true in E as ->. }
  apply (infinite_is_fresh (omap as_str l)). apply list_elem_of_omap. rewrite <- list_elem_of_In in Hv. eauto.
Qed.

(** One operator with a valid operand rejects some value that is there, except
    an empty $nin and $exists. *)
Lemma operator_rejects op v :
  valid_operand op v = true → (op = OpNin → v ≠ JArray []) → op ≠ OpExists → ∃ w, operator_holds op (Some w) v = false.
Proof.
  intros Hv Hn He. destruct op; cbn [operator_holds] in *.
  - eexists. apply other_scalar_differs.
  - exists v. by rewrite equals_self.
  - eexists. apply other_kind_incomparable.
  - eexists. apply other_kind_incomparable.
  - eexists. apply other_kind_incomparable.
  - eexists. apply other_kind_incomparable.
  - destruct (fresh_value (default [] (as_array v))) as [s Hs]. by exists (JString s).
  - cbn in Hv. apply bool_decide_eq_true in Hv as [l Hl]. destruct v; simplify_eq/=. destruct l as [| y l]; [by destruct Hn |].
    exists y. change (negb (equals_field (Some y) y || existsb (equals_field (Some y)) l) = false). by rewrite equals_self.
  - done.
Qed.

Lemma operator_key key op : field_operator key = Some op → dollar key = true ∧ key ≠ lit "$oid" ∧ key ≠ lit "$numberLong" ∧ key ≠ lit "$date".
Proof.
  unfold field_operator. intros E.
  repeat (case_decide as Hk; [by rewrite Hk | clear Hk]). done.
Qed.

Lemma field_operator_nin key : field_operator key = Some OpNin → key = lit "$nin".
Proof. unfold field_operator. intros E. by repeat (case_decide as Hk; [first [done | by rewrite Hk] | clear Hk]). Qed.
Lemma field_operator_exists key : field_operator key = Some OpExists → key = lit "$exists".
Proof. unfold field_operator. intros E. by repeat (case_decide as Hk; [first [done | by rewrite Hk] | clear Hk]). Qed.

(** A field that is not unbounded rejects a document that has an [_id]. *)
Lemma field_rejects key p :
  simple_field p = true → mongo_field_predicate_is_empty_nin p = false →
  bool_decide (key = lit "_id") && mongo_field_predicate_is_exists_true p = false →
  ∃ doc : document, is_Some (doc (lit "_id")) ∧ field_holds doc key p = false.
Proof.
  intros Hs Hn Hx.
  assert (∀ x : option json, (key = lit "_id" → is_Some x) →
    (if is_literal p then equals_field x p else forallb (λ kv : str * json, match field_operator kv.1 with
       | Some op => operator_holds op x kv.2 | None => true end) (default [] (as_object p))) = false →
    (∀ ops kv, as_object p = Some ops → is_literal p = false → kv ∈ ops → is_Some (field_operator kv.1)) →
    ∃ doc : document, is_Some (doc (lit "_id")) ∧ field_holds doc key p = false) as Hdoc.
  { intros x Hid Hf Hops. exists (λ k, if decide (k = key) then x else Some JNull). split.
    - destruct (decide (lit "_id" = key)) as [<- |]; [by apply Hid | done].
    - unfold field_holds. rewrite decide_True by done. destruct (is_literal p) eqn:Hl; [done |].
      destruct (as_object p) as [ops |] eqn:Ho; [| done]. cbn in *.
      rewrite <- Hf. clear Hf. assert (∀ kv, kv ∈ ops → is_Some (field_operator kv.1)) as Hall by (intros; by eapply Hops).
      clear -Hall. induction ops as [| kv ops IH]; [done |]. cbn [forallb]. destruct (Hall kv) as [op ->]; [left |].
      f_equal. apply IH. intros. apply Hall. by right. }
  destruct (is_literal p) eqn:Hl.
  { apply (Hdoc (Some (other_scalar p))); [done | apply other_scalar_differs | done]. }
  unfold simple_field in Hs. rewrite Hl in Hs. cbn in Hs.
  destruct (as_object p) as [[| [k v] [| ]] |] eqn:Ho; try done. destruct p; simplify_eq/=.
  destruct (field_operator k) as [op |] eqn:Hop; [| done].
  assert (∀ ops kv, Some [(k, v)] = Some ops → false = false → kv ∈ ops → is_Some (field_operator kv.1)) as Hops.
  { intros ops kv [= <-] _ Hin. apply list_elem_of_singleton in Hin as ->. cbn. by rewrite Hop. }
  destruct (decide (op = OpExists)) as [-> | He].
  - apply field_operator_exists in Hop as ->. destruct v; try done.
    destruct b; [apply (Hdoc None) | apply (Hdoc (Some JNull))]; try done.
    intros ->. by rewrite bool_decide_eq_true_2 in Hx.
  - destruct (operator_rejects op v Hs) as [w Hw]; [| done |].
    + intros ->. apply field_operator_nin in Hop as ->. intros ->. by cbn in Hn.
    + apply (Hdoc (Some w)); [done | by rewrite Hw | done].
Qed.

Lemma simple_rejects v :
  simple v = true → mongo_filter_value_is_unbounded v = false →
  ∃ doc : document, is_Some (doc (lit "_id")) ∧ matches doc v = false.
Proof.
  induction v as [v Hv | fs IH] using filter_ind; intros Hs Hu.
  { destruct v as [| | | | | fs]; try done. by destruct (Hv fs). }
  cbn [mongo_filter_value_is_unbounded] in Hu. destruct (_ || _ || _); [done |].
  assert (∃ kv, kv ∈ fs ∧ unbounded_entry mongo_filter_value_is_unbounded kv = false) as ([key p] & Hin & Hk).
  { clear -Hu. induction fs as [| kv fs IHf]; [done |]. cbn in Hu. apply andb_false_iff in Hu as [Hu | Hu].
    - exists kv. split; [left | done].
    - destruct (IHf Hu) as (kv' & ? & ?). exists kv'. split; [by right | done]. }
  cbn [simple] in Hs. assert (simple_entry simple (key, p) = true) as Hse.
  { rewrite forallb_forall in Hs. apply Hs. by rewrite <- list_elem_of_In. }
  enough (∃ doc : document, is_Some (doc (lit "_id")) ∧ matches_entry (matches doc) doc (key, p) = false) as (doc & Hid & Hm).
  { exists doc. split; [done |]. cbn [matches]. apply not_true_iff_false. rewrite forallb_forall. intros Hall.
    rewrite (Hall (key, p)) in Hm; [done | by rewrite <- list_elem_of_In]. }
  cbn [unbounded_entry] in Hk. cbn [simple_entry] in Hse.
  destruct (decide (key = lit "$comment")) as [| Hc]; [done |].
  destruct (decide (key = lit "$and")) as [-> | Ha].
  - destruct p as [| | | | cs |]; try done. apply orb_false_iff in Hk as [_ Hk].
    assert (∃ c, c ∈ cs ∧ mongo_filter_value_is_unbounded c = false) as (c & Hcin & Hcu).
    { clear -Hk. induction cs as [| c cs IHc]; [done |]. cbn in Hk. apply andb_false_iff in Hk as [Hu | Hu].
      - exists c. split; [left | done].
      - destruct (IHc Hu) as (c' & ? & ?). exists c'. split; [by right | done]. }
    destruct (IH _ _ c Hin Hcin) as (doc & Hid & Hm); [| done |].
    { rewrite forallb_forall in Hse. apply Hse. by rewrite <- list_elem_of_In. }
    exists doc. split; [done |]. cbn [matches_entry]. rewrite decide_False, decide_True by done.
    apply not_true_iff_false. rewrite forallb_forall. intros Hall. rewrite (Hall c) in Hm; [done | by rewrite <- list_elem_of_In].
  - apply andb_true_iff in Hse as [Hd Hsf]. apply negb_true_iff in Hd.
    rewrite decide_False in Hk by (by intros ->). rewrite decide_False in Hk by (by intros ->).
    destruct (mongo_field_predicate_is_empty_nin p) eqn:Hn; [done |].
    destruct (bool_decide (key = lit "_id") && mongo_field_predicate_is_exists_true p) eqn:Hx; [done |].
    destruct (field_rejects key p Hsf Hn Hx) as (doc & Hid & Hm). exists doc. split; [done |].
    cbn [matches_entry]. rewrite !decide_False by (by intros ->). by rewrite Hd.
Qed.

(** C25: For a filter that parses and in which `mongo_filter_contains_opaque_logic` finds nothing
    opaque, in every order of values that compares only values of one type: if
    `mongo_filter_is_effectively_unbounded` flags it, it matches every document that has an _id. If
    it is not flagged, and is built with $and and $comment only, from fields that are compared with
    a literal or have exactly one known operator, with an array for $in and $nin and a boolean for
    $exists, then some document with an _id does not match it. (Other operands, such as {_id:
    {$exists: 1}}, or a second operator on a field can match everything without being flagged.) *)
Theorem unbounded_filters_are_recognised parse text v :
  parse text = Some v → mongo_filter_contains_opaque_logic v = false →
  (mongo_filter_is_effectively_unbounded parse text = true → ∀ doc : document, is_Some (doc (lit "_id")) → matches doc v = true) ∧
  (simple v = true → mongo_filter_is_effectively_unbounded parse text = false →
   ∃ doc : document, is_Some (doc (lit "_id")) ∧ matches doc v = false).
Proof.
  intros Hp Ho. unfold mongo_filter_is_effectively_unbounded. rewrite Hp, Ho. cbn [orb].
  split; [intros Hu doc Hid; by apply unbounded_matches | apply simple_rejects].
Qed.
End meaning.

(** ** Fuel: the depth of the value is enough *)
Lemma pure_fuel `{Timestamps} n m v :
  json_depth v ≤ n → json_depth v ≤ m → mongo_pure_field_predicate n v = mongo_pure_field_predicate m v.
Proof.
  revert m v. induction n as [| n IH]; intros m v Hn Hm; [destruct v; cbn in Hn; lia |].
  destruct m as [| m]; [destruct v; cbn in Hm; lia |]. cbn [mongo_pure_field_predicate].
  destruct v as [| | | | | fs]; try done. cbn [as_object mbind option_bind].
  destruct (pure_entry fs) as [[field p] |] eqn:E; [| done]. cbn [mbind option_bind].
  assert (∀ cs c, p = JArray cs → c ∈ cs → json_depth c ≤ n ∧ json_depth c ≤ m) as Hd.
  { intros cs c -> Hc. assert ((field, JArray cs) ∈ fs) as Hin.
    { unfold pure_entry in E. destruct (filter _ fs) as [| kv [|]] eqn:Ef; simplify_eq.
      assert ((field, JArray cs) ∈ filter (λ kv : str * json, kv.1 ≠ lit "$comment") fs) as Hf by (rewrite Ef; left).
      by apply list_elem_of_filter in Hf as [_ Hf]. }
    assert (json_depth c < json_depth (JArray cs)) as H1'.
    { cbn. clear -Hc. induction cs as [| x cs IHc]; [by apply not_elem_of_nil in Hc |].
      apply elem_of_cons in Hc as [-> | Hc]; cbn; [lia |]. specialize (IHc Hc). lia. }
    assert (json_depth (JArray cs) < json_depth (JObject fs)) as H2'.
    { clear -Hin. cbn [json_depth] in *. induction fs as [| [k x] fs IHf]; [by apply not_elem_of_nil in Hin |].
      apply elem_of_cons in Hin as [[= -> <-] | Hin]; cbn in *; [lia |]. specialize (IHf Hin). lia. }
    lia. }
  destruct (decide (field = lit "$and")).
  { destruct p as [| | | | cs |]; try done. cbn [as_array mbind option_bind].
    destruct (filter _ cs) as [| c [|]] eqn:Ef; try done.
    assert (c ∈ filter (λ c, mongo_filter_value_is_unbounded c = false) cs) as Hf by (rewrite Ef; left).
    apply list_elem_of_filter in Hf as [_ Hf]. destruct (Hd cs c eq_refl Hf). by apply IH. }
  destruct (decide (field = lit "$or")); [| done].
  destruct p as [| | | | cs |]; try done. cbn [as_array mbind option_bind].
  destruct cs as [| c [|]]; try done. destruct (Hd [c] c eq_refl); [left |]. by apply IH.
Qed.

(** ** Concrete filters *)
Definition no_timestamps : Timestamps := λ _, false.
Definition string_order : ValueOrder.
Proof.
  refine {| vcmp x y := match x, y with
                        | JString a, JString b => Some (if decide (a = b) then Eq else if str_leb a b then Lt else Gt)
                        | _, _ => None
                        end |}.
  intros [] []; done.
Defined.
Definition nothing_unknown : list N → json → document → bool := λ _ _ _, false.

Definition obj (k : string) (v : json) : json := JObject [(lit k, v)].
Definition jnum (t : string) : json := JNumber (lit t).

(** [{$and: [{tenant: "a"}, {id: {$in: [1]}}]}] *)
Definition tenant_filter : json :=
  obj "$and" (JArray [obj "tenant" (JString (lit "a")); obj "id" (obj "$in" (JArray [jnum "1"]))]).

Lemma unbounded_filters_are_recognised_witness :
  ∃ doc : document, is_Some (doc (lit "_id")) ∧
    matches (H := no_timestamps) (H0 := string_order) nothing_unknown doc tenant_filter = false.
Proof.
  apply (unbounded_filters_are_recognised (H := no_timestamps) (H0 := string_order) nothing_unknown (λ _, Some tenant_filter) [] tenant_filter);
    vm_compute; reflexivity.
Defined.

(** Filters that let every document through and are not recognised: the server
    takes the operand 1 of $exists for true; a second operator hides the first. *)
Example unbounded_filters_that_pass `{Timestamps, ValueOrder} unknown :
  let truthy_exists := obj "_id" (obj "$exists" (jnum "1")) in
  let two_operators := obj "_id" (JObject [(lit "$exists", JBool true); (lit "$nin", JArray [])]) in
  (mongo_filter_contains_opaque_logic truthy_exists = false ∧ mongo_filter_value_is_unbounded truthy_exists = false ∧
   mongo_filter_contains_opaque_logic two_operators = false ∧ mongo_filter_value_is_unbounded two_operators = false) ∧
  ∀ doc : document, is_Some (doc (lit "_id")) →
    matches unknown doc truthy_exists = true ∧ matches unknown doc two_operators = true.
Proof. split; [done |]. intros doc [w Hw]. vm_compute in Hw. split; vm_compute; by rewrite Hw. Qed.

(** Two different $ne under an $or: every document whose field is not an array
    that holds both values. *)
Example different_ne_under_or_passes `{Timestamps, ValueOrder} unknown :
  let f := obj "$or" (JArray [obj "a" (obj "$ne" (jnum "1")); obj "a" (obj "$ne" (jnum "2"))]) in
  (mongo_filter_contains_opaque_logic f = false ∧ mongo_filter_value_is_unbounded f = false) ∧
  ∀ doc : document, (∀ l, doc (lit "a") ≠ Some (JArray l)) → matches unknown doc f = true.
Proof.
  split; [done |]. intros doc Ha.
  set (x := doc (lit "a")) in *.
  change ((((negb (equals_field x (jnum "1")) && true) && true) || (((negb (equals_field x (jnum "2")) && true) && true) || false)) && true = true).
  rewrite !andb_true_r, orb_false_r. clearbody x.
  destruct x as [[| | t | | l |] |]; [done | done | | done | by destruct (Ha l) | done | done].
  unfold equals_field, same. cbn [candidates existsb]. rewrite !orb_false_r.
  destruct (decide (t = lit "1")) as [-> | Hn]; [done |]. apply orb_true_iff. left.
  rewrite bool_decide_eq_false_2 by (intros [= E]; by apply Hn). cbn [value_eqb jnum].
  by rewrite bool_decide_eq_false_2 by congruence.
Qed.
