(* ===== verification/MongoShell.v ===== *)
(** * MongoDB shell commands (mongo_shell.rs)

    The parser of shell commands and the check before they run.  Positions are
    numbers of characters; the scanners of the source go over bytes and stop at
    ASCII bytes only.  JSON and JSON5 texts belong to the serde_json and json5
    crates and are the class [JsonText].  [transform_shell_constructors] and
    [normalized_json] call each other on the inside of a constructor, which is
    shorter; their fuel bounds that nesting. *)
From S2P Require Import Prelude StateStore Json Floats QueryGuard MongoFilter.
Local Open Scope dbx_scope.

Class JsonText := {
  from_str : str → option json;          (* serde_json::from_str *)
  json5_from_str : str → result json str;  (* json5::from_str *)
  to_string : json → str;                (* serde_json::to_string *)
}.

Inductive MongoCommand :=
| CVersion
| CUse (database : str)
| CShowDatabases
| CRunCommand (command_json : str)
| CCreateUser (user_json : str) (write_concern_json : option str)
| CFind (collection filter : str) (projection sort collation : option str) (skip : N) (limit : Z)
| CFindExplain (collection filter : str) (projection sort collation : option str) (skip : N) (limit : Z) (verbosity : str)
| CFindOne (collection filter : str) (projection options : option str)
| CCount (collection filter : str) (accurate : bool)
| CAggregate (collection pipeline : str) (options : option str)
| CDistinct (collection field : str) (filter : option str)
| CGetIndexes (collection : str)
| CCollectionStats (collection metric : str) (scale : option f64)
| CInsert (collection documents : str)
| CUpdate (collection filter update : str) (options : option str) (many : bool)
| CDelete (collection filter : str) (many : bool)
| CCreateIndex (collection keys : str) (options : option str)
| CDropIndexes (collection : str) (indexes : option str) (single : bool)
| CDropCollection (collection : str)
| CFindOneAndUpdate (collection filter update : str) (options : option str)
| CFindOneAndReplace (collection filter replacement : str) (options : option str)
| CFindOneAndDelete (collection filter : str) (options : option str).

Inductive MongoSafetyError := WritesDisabled | EmptyFilter | DangerousCommand | ProductionWrite.

(** ** Brackets and arguments *)
Record Scan := mkScan { sc_quote : option char; sc_escape : bool }.

(** The quoting of one character: the new state, and whether the character is
    outside of quotes. *)
Definition quote_scan (st : Scan) (ch : char) : Scan * bool :=
  if sc_escape st then (mkScan (sc_quote st) false, false)
  else match sc_quote st with
       | Some q =>
           if decide (ch = BACKSLASH) then (mkScan (Some q) true, false)
           else if decide (ch = q) then (mkScan None false, false) else (st, false)
       | None => if is_quote ch then (mkScan (Some ch) false, false) else (st, true)
       end.

Fixpoint close_from (st : Scan) (depth : Z) (index : nat) (s : str) : option nat :=
  match s with
  | [] => None
  | ch :: r =>
      let '(st, outside) := quote_scan st ch in
      if outside && bool_decide (ch = chr "(") then close_from st (depth + 1) (S index) r
      else if outside && bool_decide (ch = chr ")") then
        if decide (depth - 1 = 0)%Z then Some index else close_from st (depth - 1) (S index) r
      else close_from st depth (S index) r
  end.
Definition matching_paren (source : str) (open : nat) : option nat := close_from (mkScan None false) 0 open (drop open source).

Definition is_open (c : char) : bool := bool_decide (c = chr "(" ∨ c = chr "[" ∨ c = chr "{").
Definition is_close (c : char) : bool := bool_decide (c = chr ")" ∨ c = chr "]" ∨ c = chr "}").

(** [cur] is the text since the last separator. *)
Fixpoint split_from (st : Scan) (depth : Z) (cur s : str) : list str :=
  match s with
  | [] => [trim cur]
  | ch :: r =>
      let '(st, outside) := quote_scan st ch in
      if negb outside then split_from st depth (cur ++ [ch]) r
      else if is_open ch then split_from st (depth + 1) (cur ++ [ch]) r
      else if is_close ch then split_from st (depth - 1) (cur ++ [ch]) r
      else if bool_decide (ch = chr ",") && bool_decide (depth = 0)%Z then trim cur :: split_from st depth [] r
      else split_from st depth (cur ++ [ch]) r
  end.
Definition split_top_level (source : str) : list str :=
  if decide (trim source = []) then [] else split_from (mkScan None false) 0 [] source.

(** [s.find(c)] *)
Fixpoint find_char (f : char → bool) (s : str) : option nat :=
  match s with [] => None | c :: r => if f c then Some 0 else S <$> find_char f r end.
Definition find_eq (c : char) (s : str) : option nat := find_char (λ x, bool_decide (x = c)) s.

(** ** Calls *)
Definition slice (a b : nat) (s : str) : str := take (b - a) (drop a s).

Definition method_call (source : str) (prefix_end : nat) (method : str) : option (list str * str) :=
  let raw_suffix := drop prefix_end source in
  let suffix := trim_start raw_suffix in
  let whitespace := length raw_suffix - length suffix in
  let expected := lit "." ++ method in
  match strip_prefix (expected ++ lit "(") suffix with
  | None => None
  | Some _ =>
      let open := prefix_end + whitespace + length expected in
      close ← matching_paren source open;
      Some (split_top_level (slice (S open) close source), trim (drop (S close) source))
  end.

(** [s.get(..n).is_some_and(|p| p.eq_ignore_ascii_case(k))] for an ASCII [k] of
    length [n], and what follows. *)
Definition strip_prefix_ci (k s : str) : option str :=
  if eq_ignore_ascii_case (take (length k) s) k then Some (drop (length k) s) else None.

Definition database_method_call (source method : str) : option (list str * str) :=
  after_db ← strip_prefix_ci (lit "db") source;
  after_dot ← strip_prefix (lit ".") (trim_start after_db);
  after_method ← strip_prefix_ci method (trim_start after_dot);
  let after_method := trim_start after_method in
  if negb (starts_with (lit "(") after_method) then None
  else
    let open := length source - length after_method in
    close ← matching_paren source open;
    Some (split_top_level (slice (S open) close source), trim (drop (S close) source)).

Definition invalid_chain : str := lit "Invalid MongoDB method chain.".
Fixpoint chained_from (fuel : nat) (rest : str) : result (list (str * list str)) str :=
  match fuel with
  | O => Ok []
  | S fuel' =>
      match rest with
      | [] => Ok []
      | _ =>
          match strip_prefix (lit ".") rest with
          | None => Err invalid_chain
          | Some after_dot =>
              match find_eq (chr "(") after_dot with
              | None => Err invalid_chain
              | Some open =>
                  match matching_paren after_dot open with
                  | None => Err invalid_chain
                  | Some close =>
                      let? calls := chained_from fuel' (trim (drop (S close) after_dot)) in
                      Ok ((trim (take open after_dot), split_top_level (slice (S open) close after_dot)) :: calls)
                  end
              end
          end
      end
  end.
Definition chained_calls (chain : str) : result (list (str * list str)) str := chained_from (S (length chain)) (trim chain).

Definition parse_integer (args : list str) (name : str) : result Z str :=
  match args with
  | [arg] =>
      match parse_i64 (trim arg) with
      | Some v => if (v <? 0)%Z then Err (lit "MongoDB " ++ name ++ lit "() requires a non-negative integer.") else Ok v
      | None => Err (lit "MongoDB " ++ name ++ lit "() requires a non-negative integer.")
      end
  | _ => Err (lit "MongoDB " ++ name ++ lit "() requires one integer.")
  end.

(** ** Comments around a command *)
Definition is_newline (c : char) : bool := bool_decide (c = NL ∨ c = CR).
Fixpoint trim_leading_comments (fuel : nat) (source : str) : str :=
  match fuel with
  | O => source
  | S fuel' =>
      let source := trim_start source in
      if starts_with (lit "//") source || starts_with (lit "--") source then
        trim_leading_comments fuel' (drop 1 (drop_while (λ c, negb (is_newline c)) source))
      else if starts_with (lit "/*") source then
        match split_once (lit "*/") source with
        | Some (_, rest) => trim_leading_comments fuel' rest
        | None => source
        end
      else source
  end.
Definition comment_left (source : str) : bool :=
  let s := trim_start source in starts_with (lit "/*") s && bool_decide (split_once (lit "*/") s = None).

Inductive Outer := OCode | OLine | OBlock | OQuote (q : char) (escaped : bool).
(** The text up to the last character that is neither blank nor comment;
    [pending] are the characters since then. *)
Fixpoint body_of (st : Outer) (skip : bool) (pending s : str) : str :=
  match s with
  | [] => []
  | ch :: r =>
      if skip then body_of st false (pending ++ [ch]) r
      else
        match st with
        | OLine => body_of (if is_newline ch then OCode else OLine) false (pending ++ [ch]) r
        | OBlock =>
            if decide (ch = STAR ∧ head r = Some SLASH) then body_of OCode true (pending ++ [ch]) r
            else body_of OBlock false (pending ++ [ch]) r
        | OQuote q escaped =>
            let st := if escaped then OQuote q false else if decide (ch = BACKSLASH) then OQuote q true
                      else if decide (ch = q) then OCode else OQuote q false in
            pending ++ ch :: body_of st false [] r
        | OCode =>
            if decide ((ch = SLASH ∧ head r = Some SLASH) ∨ (ch = DASH ∧ head r = Some DASH)) then body_of OLine true (pending ++ [ch]) r
            else if decide (ch = SLASH ∧ head r = Some STAR) then body_of OBlock true (pending ++ [ch]) r
            else
              let st := if is_quote ch then OQuote ch false else OCode in
              if is_whitespace ch then body_of st false (pending ++ [ch]) r
              else pending ++ ch :: body_of st false [] r
        end
  end.
Definition trim_mongo_outer_comments (source : str) : str :=
  let lead := trim_leading_comments (S (length source)) source in
  if comment_left lead then lead
  else trim_end (body_of OCode false [] (trim_end lead)).

Definition parse_show_databases (source : str) : bool :=
  match split_whitespace source with
  | [a; b] => eq_ignore_ascii_case a (lit "show") && (eq_ignore_ascii_case b (lit "dbs") || eq_ignore_ascii_case b (lit "databases"))
  | _ => false
  end.

Definition parse_use_database (source : str) : option str :=
  match split_whitespace source with
  | [a; database] =>
      if eq_ignore_ascii_case a (lit "use") &&
         forallb (λ c, is_ascii_alphanumeric c || bool_decide (c = chr "_" ∨ c = chr "-")) database
      then Some database else None
  | _ => None
  end.

(** ** Arguments *)
Definition first_or_empty (args : list str) : str := default (lit "{}") (head args).
Definition text_given (arg : option str) : option str := a ← arg; if decide (trim a = []) then None else Some a.

(** [map.remove(key)]: the last field takes the place of the removed one. *)
Definition swap_remove (key : str) (fs : list (str * json)) : option (json * list (str * json)) :=
  '(i, (_, v)) ← list_find (λ kv, kv.1 = key) fs;
  let rest := drop (S i) fs in
  Some (v, take i fs ++ match reverse rest with [] => [] | l :: r => l :: reverse r end).

Section shell.
Context `{JsonText, Timestamps}.

Definition parse_json_value (value : str) : option json := from_str value.
Definition is_empty_object (value : str) : bool :=
  match parse_json_value value ≫= as_object with Some [] => true | _ => false end.

(** [normalized_json] and [parse_string_arg], given the transformation of the
    constructors. *)
Definition normalized_by (transform : str → result str str) (input : str) : result str str :=
  let? transformed := transform (trim input) in
  match json5_from_str transformed with
  | Ok value => Ok (to_string value)
  | Err error => Err (lit "Invalid MongoDB JSON argument: " ++ error)
  end.
Definition string_by (transform : str → result str str) (arg : str) : result str str :=
  let? n := normalized_by transform arg in
  match parse_json_value n with
  | None => Err (lit "Invalid MongoDB string argument.")
  | Some value => match as_str value with Some s => Ok s | None => Err (lit "MongoDB argument must be a string.") end
  end.

Definition constructor_at (rest : str) : option (str * str) :=
  if starts_with (lit "ObjectId(") rest then Some (lit "ObjectId(", lit "$oid")
  else if starts_with (lit "ISODate(") rest then Some (lit "ISODate(", lit "$date")
  else None.
Definition wrapped (key value : str) : str := lit "{" ++ [DQUOTE] ++ key ++ [DQUOTE] ++ lit ":" ++ to_string (JString value) ++ lit "}".

Fixpoint transform_shell_constructors (fuel : nat) (input : str) : result str str :=
  match fuel with
  | O => Err (lit "Invalid MongoDB argument.")
  | S fuel' =>
      match constructor_at input with
      | None =>
          match input with
          | [] => Ok []
          | ch :: r => let? output := transform_shell_constructors fuel' r in Ok (ch :: output)
          end
      | Some (constructor, key) =>
          let open := length constructor - 1 in
          match matching_paren input open with
          | None => Err (lit "Unclosed MongoDB value constructor.")
          | Some close =>
              let? value := string_by (transform_shell_constructors fuel') (trim (slice (S open) close input)) in
              let? output := transform_shell_constructors fuel' (drop (S close) input) in
              Ok (wrapped key value ++ output)
          end
      end
  end.
Definition transform (input : str) : result str str := transform_shell_constructors (S (length input)) input.
Definition normalized_json (input : str) : result str str := normalized_by transform input.
Definition parse_string_arg (arg : str) : result str str := string_by transform arg.

Definition optional_json_argument (value : option str) : result (option str) str :=
  match text_given value with
  | None => Ok None
  | Some v => let? n := normalized_json v in Ok (Some n)
  end.

Definition parse_explain_verbosity (args : list str) : result str str :=
  if decide (1 < length args) then Err (lit "MongoDB explain() accepts at most one verbosity string.")
  else
    let? verbosity := match head args with Some value => parse_string_arg value | None => Ok (lit "queryPlanner") end in
    if decide (verbosity = lit "queryPlanner" ∨ verbosity = lit "executionStats" ∨ verbosity = lit "allPlansExecution")
    then Ok verbosity
    else Err (lit "MongoDB explain() verbosity must be queryPlanner, executionStats, or allPlansExecution.").

Definition legacy_update_options (value : option str) : result (option str * bool) str :=
  match text_given value with
  | None => Ok (None, false)
  | Some value =>
      let? normalized := normalized_json value in
      match parse_json_value normalized with
      | None => Err (lit "Invalid MongoDB update() options.")
      | Some (JObject options) =>
          let print fs := match fs with [] => None | _ => Some (to_string (JObject fs)) end in
          match swap_remove (lit "multi") options with
          | Some (JBool many, options) => Ok (print options, many)
          | Some _ => Err (lit "MongoDB update() multi option must be a boolean.")
          | None => Ok (print options, false)
          end
      | Some _ => Err (lit "MongoDB update() options must be a document.")
      end
  end.

(** ** The collection of a command: its name, and where the method starts *)
Definition no_method : str := lit "MongoDB collection method is required.".
Definition parse_collection_prefix (source : str) : result (str * nat) str :=
  match strip_prefix_ci (lit "db.") source with
  | None => Err (lit "MongoDB command must start with db.<collection>.")
  | Some rest =>
      if starts_with (lit "getCollection") rest then
        match open ← find_eq (chr "(") rest; close ← matching_paren rest open; Some (open, close) with
        | None => Err (lit "Invalid db.getCollection() command.")
        | Some (open, close) =>
            match split_top_level (slice (S open) close rest) with
            | [arg] =>
                let? collection := parse_string_arg arg in
                let end_ := 3 + close + 1 in
                let suffix := drop end_ source in
                let trimmed := trim_start suffix in
                if negb (starts_with (lit ".") trimmed) then Err no_method
                else Ok (collection, end_ + length suffix - length trimmed)
            | _ => Err (lit "db.getCollection() requires one collection name.")
            end
        end
      else
        match find_char (λ ch, bool_decide (ch = chr ".") || is_whitespace ch) rest with
        | None => Err no_method
        | Some collection_end =>
            let collection := take collection_end rest in
            if decide (collection = []) then Err (lit "Invalid MongoDB collection name.")
            else
              let suffix := drop collection_end rest in
              match find_eq (chr ".") suffix with
              | None => Err no_method
              | Some dot =>
                  if decide (trim (take dot suffix) = []) then Ok (collection, 3 + collection_end + dot)
                  else Err (lit "Invalid MongoDB collection name.")
              end
        end
  end.

(** ** Commands of the database *)
Definition run_command (args : list str) (tail : str) : result MongoCommand str :=
  match args, tail with
  | [arg], [] =>
      let? command_json := normalized_json arg in
      match parse_json_value command_json ≫= as_object with
      | None => Err (lit "MongoDB runCommand() requires a command document.")
      | Some [] => Err (lit "MongoDB runCommand() requires a non-empty command document.")
      | Some _ => Ok (CRunCommand command_json)
      end
  | _, _ => Err (lit "MongoDB runCommand() requires exactly one command document.")
  end.

Definition named_user (user : list (str * json)) : bool :=
  match field_of_object (lit "user") user ≫= as_str with Some u => negb (bool_decide (trim u = [])) | None => false end.
Definition create_user (args : list str) (tail : str) : result MongoCommand str :=
  match args with
  | arg :: more =>
      if bool_decide (tail ≠ []) || bool_decide (1 < length more)
      then Err (lit "MongoDB createUser() requires a user document and optional write concern.")
      else
        let? user_json := normalized_json arg in
        match parse_json_value user_json ≫= as_object with
        | None => Err (lit "MongoDB createUser() requires a user document.")
        | Some user =>
            if negb (named_user user) then Err (lit "MongoDB createUser() requires a non-empty user name.")
            else
              let? write_concern_json := optional_json_argument (head more) in
              if match write_concern_json ≫= parse_json_value with Some v => negb (is_object v) | None => false end
              then Err (lit "MongoDB createUser() write concern must be a document.")
              else Ok (CCreateUser user_json write_concern_json)
        end
  | [] => Err (lit "MongoDB createUser() requires a user document and optional write concern.")
  end.

(** ** find() and its chain *)
Record Cursor := mkCursor { cu_sort : option str; cu_collation : option str; cu_skip : N; cu_limit : Z }.

Fixpoint find_chain (collection filter : str) (projection : option str) (cu : Cursor) (calls : list (str * list str))
  : result MongoCommand str :=
  match calls with
  | [] => Ok (CFind collection filter projection (cu_sort cu) (cu_collation cu) (cu_skip cu) (cu_limit cu))
  | (name, call_args) :: rest =>
      if decide (name = lit "sort") then
        let? sort := normalized_json (first_or_empty call_args) in
        find_chain collection filter projection (mkCursor (Some sort) (cu_collation cu) (cu_skip cu) (cu_limit cu)) rest
      else if decide (name = lit "collation") then
        match call_args with
        | [arg] =>
            let? collation := normalized_json arg in
            find_chain collection filter projection (mkCursor (cu_sort cu) (Some collation) (cu_skip cu) (cu_limit cu)) rest
        | _ => Err (lit "MongoDB collation() requires one options object.")
        end
      else if decide (name = lit "skip") then
        let? skip := parse_integer call_args (lit "skip") in
        find_chain collection filter projection (mkCursor (cu_sort cu) (cu_collation cu) (Z.to_N skip) (cu_limit cu)) rest
      else if decide (name = lit "limit") then
        let? limit := parse_integer call_args (lit "limit") in
        find_chain collection filter projection (mkCursor (cu_sort cu) (cu_collation cu) (cu_skip cu) limit) rest
      else if decide (name = lit "count" ∧ call_args = []) then Ok (CCount collection filter false)
      else if decide (name = lit "explain") then
        match rest with
        | [] =>
            let? verbosity := parse_explain_verbosity call_args in
            Ok (CFindExplain collection filter projection (cu_sort cu) (cu_collation cu) (cu_skip cu) (cu_limit cu) verbosity)
        | _ => Err (lit "MongoDB explain() must be the final find() chain operation.")
        end
      else Err (lit "Unsupported MongoDB find() chain: " ++ name ++ lit "()")
  end.

Definition find_command (collection : str) (args : list str) (tail : str) : result MongoCommand str :=
  let? filter := normalized_json (first_or_empty args) in
  let? projection := optional_json_argument (args !! 1) in
  if decide (2 < length args) then Err (lit "MongoDB find() accepts at most filter and projection arguments.")
  else
    let? calls := chained_calls tail in
    find_chain collection filter projection (mkCursor None None 0 100) calls.

(** ** The other methods of a collection *)
Definition invalid (method : str) : str := lit "Invalid MongoDB " ++ method ++ lit "() command.".
(** [tail.is_empty() && (least..=most).contains(&args.len())] *)
Definition arity (least most : nat) (args : list str) (tail : str) : bool :=
  bool_decide (tail = [] ∧ least ≤ length args ∧ length args ≤ most).
Definition arg (i : nat) (args : list str) : str := default [] (args !! i).

Definition find_one_command (collection : str) (args : list str) (tail : str) : result MongoCommand str :=
  if negb (arity 0 3 args tail) then Err (invalid (lit "findOne"))
  else
    let? filter := normalized_json (first_or_empty args) in
    let? projection := optional_json_argument (args !! 1) in
    let? options := optional_json_argument (args !! 2) in
    Ok (CFindOne collection filter projection options).

Definition find_one_and_set (method : str) (build : str → str → option str → MongoCommand) (args : list str) (tail : str)
  : result MongoCommand str :=
  if negb (arity 2 3 args tail) then Err (invalid method)
  else
    let? filter := normalized_json (arg 0 args) in
    let? value := normalized_json (arg 1 args) in
    let? options := optional_json_argument (args !! 2) in
    Ok (build filter value options).

Definition find_one_and_delete (collection : str) (args : list str) (tail : str) : result MongoCommand str :=
  if negb (arity 1 2 args tail) then Err (invalid (lit "findOneAndDelete"))
  else
    let? filter := normalized_json (arg 0 args) in
    let? options := optional_json_argument (args !! 1) in
    Ok (CFindOneAndDelete collection filter options).

Definition count_command (method collection : str) (accurate : bool) (args : list str) (tail : str) : result MongoCommand str :=
  if negb (arity 0 1 args tail) then Err (invalid method)
  else
    let? filter := normalized_json (first_or_empty args) in
    Ok (CCount collection filter accurate).

Definition is_array_text (text : str) : bool := bool_decide (is_Some (parse_json_value text ≫= as_array)).
Definition is_object_text (text : str) : bool := bool_decide (is_Some (parse_json_value text ≫= as_object)).

Definition aggregate_command (collection : str) (args : list str) (tail : str) : result MongoCommand str :=
  if negb (arity 1 2 args tail) then Err (invalid (lit "aggregate"))
  else
    let? pipeline := normalized_json (arg 0 args) in
    if negb (is_array_text pipeline) then Err (lit "MongoDB aggregate() requires a pipeline array.")
    else
      let? options := optional_json_argument (args !! 1) in
      Ok (CAggregate collection pipeline options).

Definition distinct_command (collection : str) (args : list str) (tail : str) : result MongoCommand str :=
  if negb (arity 1 2 args tail) then Err (invalid (lit "distinct"))
  else
    let? field := parse_string_arg (arg 0 args) in
    let? filter := optional_json_argument (args !! 1) in
    Ok (CDistinct collection field filter).

Definition get_indexes_command (collection : str) (args : list str) (tail : str) : result MongoCommand str :=
  if negb (arity 0 0 args tail) then Err (invalid (lit "getIndexes")) else Ok (CGetIndexes collection).

(** The scale has to be a finite number. *)
Definition stats_command (metric collection : str) (args : list str) (tail : str) : result MongoCommand str :=
  if negb (arity 0 1 args tail) then Err (invalid metric)
  else match text_given (args !! 0) with
       | None => Ok (CCollectionStats collection metric None)
       | Some a =>
           match parse_f64 (trim a) with
           | Some x => if f64_is_nan x || f64_is_infinite x then Err (lit "Invalid " ++ metric ++ lit " scale.")
                       else Ok (CCollectionStats collection metric (Some x))
           | None => Err (lit "Invalid " ++ metric ++ lit " scale.")
           end
       end.

Definition insert_command (method collection : str) (accepted : str → bool) (refused : str) (args : list str) (tail : str)
  : result MongoCommand str :=
  if negb (arity 1 1 args tail) then Err (invalid method)
  else
    let? documents := normalized_json (arg 0 args) in
    if accepted documents then Ok (CInsert collection documents) else Err refused.

Definition update_command (method collection : str) (many : bool) (args : list str) (tail : str) : result MongoCommand str :=
  if negb (arity 2 3 args tail) then Err (invalid method)
  else
    let? filter := normalized_json (arg 0 args) in
    let? update := normalized_json (arg 1 args) in
    let? options := optional_json_argument (args !! 2) in
    Ok (CUpdate collection filter update options many).

Definition legacy_update_command (collection : str) (args : list str) (tail : str) : result MongoCommand str :=
  if negb (arity 2 3 args tail) then Err (invalid (lit "update"))
  else
    let? (options, many) := legacy_update_options (args !! 2) in
    let? filter := normalized_json (arg 0 args) in
    let? update := normalized_json (arg 1 args) in
    Ok (CUpdate collection filter update options many).

Definition delete_command (method collection : str) (many : bool) (args : list str) (tail : str) : result MongoCommand str :=
  if negb (arity 1 1 args tail) then Err (invalid method)
  else
    let? filter := normalized_json (arg 0 args) in
    Ok (CDelete collection filter many).

Definition create_index_command (collection : str) (args : list str) (tail : str) : result MongoCommand str :=
  if negb (arity 1 2 args tail) then Err (invalid (lit "createIndex"))
  else
    let? keys := normalized_json (arg 0 args) in
    let? options := optional_json_argument (args !! 1) in
    Ok (CCreateIndex collection keys options).

Definition drop_index_command (collection : str) (args : list str) (tail : str) : result MongoCommand str :=
  if negb (arity 1 1 args tail) then Err (invalid (lit "dropIndex"))
  else
    let? index := normalized_json (arg 0 args) in
    Ok (CDropIndexes collection (Some index) true).

Definition drop_indexes_command (collection : str) (args : list str) (tail : str) : result MongoCommand str :=
  if negb (arity 0 1 args tail) then Err (invalid (lit "dropIndexes"))
  else
    let? indexes := optional_json_argument (args !! 0) in
    Ok (CDropIndexes collection indexes false).

Definition drop_command (collection : str) (args : list str) (tail : str) : result MongoCommand str :=
  if negb (arity 0 0 args tail) then Err (invalid (lit "drop")) else Ok (CDropCollection collection).

(** The methods of a collection in the order they are tried. *)
Definition methods (collection : str) : list (str * (list str → str → result MongoCommand str)) :=
  [(lit "find", find_command collection);
   (lit "findOne", find_one_command collection);
   (lit "findOneAndUpdate", find_one_and_set (lit "findOneAndUpdate") (CFindOneAndUpdate collection));
   (lit "findOneAndReplace", find_one_and_set (lit "findOneAndReplace") (CFindOneAndReplace collection));
   (lit "findOneAndDelete", find_one_and_delete collection);
   (lit "countDocuments", count_command (lit "countDocuments") collection true);
   (lit "count", count_command (lit "count") collection false);
   (lit "aggregate", aggregate_command collection);
   (lit "distinct", distinct_command collection);
   (lit "getIndexes", get_indexes_command collection);
   (lit "stats", stats_command (lit "stats") collection);
   (lit "dataSize", stats_command (lit "dataSize") collection);
   (lit "storageSize", stats_command (lit "storageSize") collection);
   (lit "totalIndexSize", stats_command (lit "totalIndexSize") collection);
   (lit "insertOne", insert_command (lit "insertOne") collection (λ _, true) []);
   (lit "insertMany", insert_command (lit "insertMany") collection is_array_text (lit "MongoDB insertMany() requires an array."));
   (lit "insert", insert_command (lit "insert") collection (λ d, is_object_text d || is_array_text d)
                    (lit "MongoDB insert() requires a document or document array."));
   (lit "updateOne", update_command (lit "updateOne") collection false);
   (lit "updateMany", update_command (lit "updateMany") collection true);
   (lit "update", legacy_update_command collection);
   (lit "deleteOne", delete_command (lit "deleteOne") collection false);
   (lit "deleteMany", delete_command (lit "deleteMany") collection true);
   (lit "createIndex", create_index_command collection);
   (lit "dropIndex", drop_index_command collection);
   (lit "dropIndexes", drop_indexes_command collection);
   (lit "drop", drop_command collection)].

Fixpoint first_call (source : str) (prefix_end : nat) (ms : list (str * (list str → str → result MongoCommand str)))
  : result MongoCommand str :=
  match ms with
  | [] => Err (lit "Unsupported MongoDB shell command.")
  | (method, handler) :: rest =>
      match method_call source prefix_end method with
      | Some (args, tail) => handler args tail
      | None => first_call source prefix_end rest
      end
  end.

Definition parse (input : str) : result MongoCommand str :=
  let show_source := trim (trim_end_matches (chr ";") (trim_mongo_outer_comments input)) in
  if parse_show_databases show_source then Ok CShowDatabases
  else
    let source := trim (trim_end_matches (chr ";") (trim input)) in
    if eq_ignore_ascii_case source (lit "db.version()") then Ok CVersion
    else match parse_use_database source with
    | Some database => Ok (CUse database)
    | None =>
        match database_method_call source (lit "runCommand") with
        | Some (args, tail) => run_command args tail
        | None =>
            match database_method_call source (lit "createUser") with
            | Some (args, tail) => create_user args tail
            | None =>
                let? (collection, prefix_end) := parse_collection_prefix source in
                first_call source prefix_end (methods collection)
            end
        end
    end.

(** ** The check before a command runs *)
Definition aggregate_writes (pipeline : str) : bool :=
  match parse_json_value pipeline ≫= as_array with
  | Some stages =>
      existsb (λ stage, match as_object stage with
                        | Some object => existsb (λ kv : str * json, bool_decide (kv.1 = lit "$out" ∨ kv.1 = lit "$merge")) object
                        | None => false
                        end) stages
  | None => false
  end.

Definition is_mutating (c : MongoCommand) : bool :=
  match c with
  | CRunCommand _ | CCreateUser _ _ | CInsert _ _ | CUpdate _ _ _ _ _ | CDelete _ _ _ | CCreateIndex _ _ _
  | CDropIndexes _ _ _ | CDropCollection _ | CFindOneAndUpdate _ _ _ _ | CFindOneAndReplace _ _ _ _ | CFindOneAndDelete _ _ _ => true
  | CAggregate _ pipeline _ => aggregate_writes pipeline
  | _ => false
  end.
Definition is_dangerous (c : MongoCommand) : bool :=
  match c with
  | CRunCommand _ | CCreateUser _ _ | CDropCollection _ | CDropIndexes _ None false => true
  | CAggregate _ pipeline _ => aggregate_writes pipeline
  | _ => false
  end.
Definition write_filter (c : MongoCommand) : option str :=
  match c with
  | CUpdate _ f _ _ _ | CDelete _ f _ | CFindOneAndUpdate _ f _ _ | CFindOneAndReplace _ f _ _ | CFindOneAndDelete _ f _ => Some f
  | _ => None
  end.
Definition has_empty_filter (c : MongoCommand) : bool :=
  match write_filter c with Some f => is_empty_object f | None => false end.
Definition has_effectively_unbounded_filter (c : MongoCommand) : bool :=
  match write_filter c with Some f => mongo_filter_is_effectively_unbounded from_str f | None => false end.

Definition validate_safety (c : MongoCommand) (allow_writes allow_dangerous production_database : bool)
  : result unit MongoSafetyError :=
  if is_mutating c && negb allow_writes then Err WritesDisabled
  else if has_effectively_unbounded_filter c && negb allow_dangerous then Err EmptyFilter
  else if is_dangerous c && negb allow_dangerous then Err DangerousCommand
  else if is_mutating c && production_database then Err ProductionWrite
  else Ok tt.
End shell.

(** ** Scanning arguments that stand on their own

    Quotes are closed, brackets and parentheses come out even, no parenthesis
    closes too early and no comma is outside of them. *)
Fixpoint contained_from (st : Scan) (depth parens : Z) (s : str) : bool :=
  match s with
  | [] => negb (sc_escape st) && bool_decide (sc_quote st = None ∧ depth = 0 ∧ parens = 0)%Z
  | ch :: r =>
      let '(st, outside) := quote_scan st ch in
      if negb outside then contained_from st depth parens r
      else if bool_decide (ch = chr "(") then contained_from st (depth + 1) (parens + 1) r
      else if bool_decide (ch = chr ")") then bool_decide (0 < parens)%Z && contained_from st (depth - 1) (parens - 1) r
      else if is_open ch then contained_from st (depth + 1) parens r
      else if is_close ch then contained_from st (depth - 1) parens r
      else negb (bool_decide (ch = chr ",") && bool_decide (depth = 0)%Z) && contained_from st depth parens r
  end.
Definition outside_quotes : Scan := mkScan None false.
Definition contained (s : str) : bool := contained_from outside_quotes 0 0 s.

Lemma contained_end st d p : contained_from st d p [] = true → st = outside_quotes ∧ d = 0%Z ∧ p = 0%Z.
Proof.
  destruct st as [q e]. cbn. rewrite andb_true_iff, negb_true_iff, bool_decide_eq_true. naive_solver.
Qed.

Lemma close_contained st d p i s rest :
  contained_from st d p s = true → (0 ≤ p)%Z →
  close_from st (p + 1) i (s ++ rest) = close_from outside_quotes 1 (i + length s) rest.
Proof.
  revert st d p i. induction s as [| ch s IH]; intros st d p i Hc Hp.
  { apply contained_end in Hc as (-> & -> & ->). cbn [app length]. f_equal; lia. }
  cbn [app length contained_from close_from] in *. destruct (quote_scan st ch) as [st' o].
  replace (i + S (length s)) with (S i + length s) by lia.
  destruct o; cbn [negb andb] in *; [| by eapply IH].
  case_bool_decide; [replace (p + 1 + 1)%Z with ((p + 1) + 1)%Z by lia; eapply IH; [done | lia] |].
  case_bool_decide.
  { apply andb_true_iff in Hc as [Hp'%bool_decide_eq_true Hc]. rewrite decide_False by lia.
    replace (p + 1 - 1)%Z with (p - 1 + 1)%Z by lia. eapply IH; [done | lia]. }
  destruct (is_open ch); [by eapply IH |]. destruct (is_close ch); [by eapply IH |].
  apply andb_true_iff in Hc as [_ Hc]. by eapply IH.
Qed.

Lemma split_contained st d p cur s rest :
  contained_from st d p s = true → split_from st d cur (s ++ rest) = split_from outside_quotes 0 (cur ++ s) rest.
Proof.
  revert st d p cur. induction s as [| ch s IH]; intros st d p cur Hc.
  { apply contained_end in Hc as (-> & -> & ->). by rewrite app_nil_r. }
  cbn [app contained_from split_from] in *. destruct (quote_scan st ch) as [st' o].
  rewrite (cons_middle ch cur s), app_assoc.
  destruct o; cbn [negb] in *; [| by eapply IH].
  case_bool_decide as H1; [subst; by eapply IH |]. case_bool_decide as H2.
  { subst. apply andb_true_iff in Hc as [_ Hc]. by eapply IH. }
  destruct (is_open ch); [by eapply IH |]. destruct (is_close ch); [by eapply IH |].
  apply andb_true_iff in Hc as [Hn%negb_true_iff Hc]. rewrite Hn. by eapply IH.
Qed.

Definition COMMA : char := chr ",".
Lemma close_arguments args rest i :
  forallb contained args = true →
  close_from outside_quotes 1 i (join [COMMA] args ++ chr ")" :: rest) = Some (i + length (join [COMMA] args)).
Proof.
  revert i. induction args as [| a args IH]; intros i Ha; [cbn; by rewrite Nat.add_0_r |].
  cbn [forallb] in Ha. apply andb_true_iff in Ha as [Ha Hr]. destruct args as [| b args].
  - cbn [join]. rewrite (close_contained outside_quotes 0 0) by done. done.
  - change (join [COMMA] (a :: b :: args)) with (a ++ COMMA :: join [COMMA] (b :: args)).
    rewrite <- app_assoc, (close_contained outside_quotes 0 0) by done. rewrite length_app. cbn [app length].
    change (close_from outside_quotes 1 (i + length a) (COMMA :: ?s)) with (close_from outside_quotes 1 (S (i + length a)) s).
    rewrite IH by done. f_equal. lia.
Qed.

Lemma split_arguments a args cur :
  forallb contained (a :: args) = true →
  split_from outside_quotes 0 cur (join [COMMA] (a :: args)) = trim (cur ++ a) :: (trim <$> args).
Proof.
  revert a cur. induction args as [| b args IH]; intros a cur Ha; cbn [forallb] in Ha; apply andb_true_iff in Ha as [Ha Hr].
  - cbn [join]. rewrite <- (app_nil_r a) at 1. by rewrite (split_contained _ _ 0) by done.
  - change (join [COMMA] (a :: b :: args)) with (a ++ COMMA :: join [COMMA] (b :: args)).
    rewrite (split_contained _ _ 0) by done.
    change (split_from outside_quotes 0 (cur ++ a) (COMMA :: ?s)) with (trim (cur ++ a) :: split_from outside_quotes 0 [] s).
    by rewrite IH.
Qed.

Lemma trim_nil s : trim s = [] ↔ forallb is_whitespace s = true.
Proof.
  assert (∀ f s, drop_while f s = [] ↔ forallb f s = true) as Hd.
  { intros f t. induction t as [| c t IH]; [done |]. cbn. destruct (f c); cbn; [done |]. split; done. }
  unfold trim, trim_end. split.
  - intros E. apply (f_equal reverse) in E. rewrite reverse_involutive in E. apply Hd in E.
    rewrite forallb_forall in E. apply Hd. change (trim_start s = []). destruct (trim_start s) as [| c t] eqn:Et; [done |].
    assert (is_whitespace c = false) as Hc.
    { pose proof (drop_while_idemp is_whitespace s) as Hi. unfold trim_start in Et. rewrite Et in Hi. by apply drop_while_fixed in Hi. }
    rewrite (E c) in Hc; [done |]. apply list_elem_of_In, elem_of_reverse. left.
  - intros Hs. apply Hd in Hs. unfold trim_start. by rewrite Hs.
Qed.

Lemma split_top_level_join args :
  forallb contained args = true → (∀ a, args = [a] → trim a ≠ []) → split_top_level (join [COMMA] args) = trim <$> args.
Proof.
  intros Ha Hn. unfold split_top_level. destruct args as [| a args]; [done |]. rewrite decide_False.
  - by rewrite split_arguments.
  - rewrite trim_nil. destruct args as [| b args]; [cbn [join]; rewrite <- trim_nil; by apply Hn |].
    change (join [COMMA] (a :: b :: args)) with (a ++ COMMA :: join [COMMA] (b :: args)).
    rewrite forallb_app. cbn [forallb]. change (is_whitespace COMMA) with false. by rewrite andb_false_r.
Qed.

(** ** Calls read back *)
Lemma trim_start_kept c s : is_whitespace c = false → trim_start (c :: s) = c :: s.
Proof. intros Hc. by apply drop_while_fixed. Qed.

Lemma method_call_printed pre method args rest :
  forallb contained args = true → (∀ a, args = [a] → trim a ≠ []) →
  method_call (pre ++ lit "." ++ method ++ lit "(" ++ join [COMMA] args ++ lit ")" ++ rest) (length pre) method =
  Some (trim <$> args, trim rest).
Proof.
  intros Ha Hn. unfold method_call. rewrite drop_app_length.
  change (trim_start (lit "." ++ ?s)) with (trim_start (chr "." :: s)). rewrite trim_start_kept by done. change (chr "." :: ?s) with (lit "." ++ s).
  rewrite (app_assoc (lit ".")), (app_assoc (lit "." ++ method)). rewrite strip_prefix_app, Nat.sub_diag, Nat.add_0_r.
  set (pm := pre ++ lit "." ++ method). set (body := join [COMMA] args).
  assert (pre ++ ((lit "." ++ method) ++ lit "(") ++ body ++ lit ")" ++ rest = pm ++ chr "(" :: body ++ chr ")" :: rest) as Hs.
  { unfold pm. by rewrite <- !app_assoc. }
  rewrite Hs. rewrite <- length_app. fold pm. unfold matching_paren.
  rewrite drop_app_length. change (close_from (mkScan None false) 0 ?i (chr "(" :: ?s)) with (close_from outside_quotes 1 (S i) s).
  unfold body. rewrite close_arguments by done. fold body. cbn [mbind option_bind].
  replace (drop (S (S (length pm) + length body)) (pm ++ chr "(" :: body ++ chr ")" :: rest)) with rest.
  2:{ replace (pm ++ chr "(" :: body ++ chr ")" :: rest) with ((pm ++ [chr "("] ++ body ++ [chr ")"]) ++ rest) by (by rewrite <- !app_assoc).
      rewrite drop_app_length'; [done |]. rewrite !length_app. cbn [length]. lia. }
  unfold slice. replace (S (length pm) + length body - S (length pm)) with (length body) by lia.
  replace (drop (S (length pm)) (pm ++ chr "(" :: body ++ chr ")" :: rest)) with (body ++ chr ")" :: rest).
  2:{ replace (pm ++ chr "(" :: body ++ chr ")" :: rest) with ((pm ++ [chr "("]) ++ body ++ chr ")" :: rest) by (by rewrite <- !app_assoc).
      rewrite drop_app_length'; [done |]. rewrite !length_app. cbn [length]. lia. }
  rewrite take_app_length. unfold body. by rewrite split_top_level_join.
Qed.

(** A name is what stands before the first parenthesis, so a text calls at most
    one method. *)
Lemma before_open (a b s t : str) :
  chr "(" ∉ a → chr "(" ∉ b → a ++ chr "(" :: s = b ++ chr "(" :: t → a = b.
Proof.
  revert b. induction a as [| x a IH]; intros [| y b] Ha Hb E; simplify_eq/=; [done | set_solver | set_solver |].
  f_equal. apply IH; set_solver.
Qed.

Lemma method_call_starts source e m r :
  method_call source e m = Some r → ∃ s, trim_start (drop e source) = (lit "." ++ m) ++ chr "(" :: s.
Proof.
  unfold method_call. destruct (strip_prefix _ _) as [s |] eqn:E; [| done]. intros _.
  apply strip_prefix_Some in E. exists s. rewrite E. by rewrite <- app_assoc.
Qed.

Lemma method_call_unique source e m m' r r' :
  chr "(" ∉ m → chr "(" ∉ m' → method_call source e m = Some r → method_call source e m' = Some r' → m = m'.
Proof.
  intros Hm Hm' [s Hs]%method_call_starts [s' Hs']%method_call_starts. rewrite Hs in Hs'.
  apply before_open in Hs'; [by apply app_inv_head in Hs' | set_solver..].
Qed.

Section calls.
Context `{JsonText, Timestamps}.

Lemma method_names collection m h : (m, h) ∈ methods collection → chr "(" ∉ m.
Proof.
  intros Hin. assert (Forall (λ p, chr "(" ∉ p.1) (methods collection)) as Hall.
  { unfold methods. repeat (constructor; [by apply (bool_decide_unpack _); vm_compute |]). constructor. }
  rewrite Forall_forall in Hall. by apply (Hall (m, h)).
Qed.

Lemma first_call_Ok source e ms c :
  first_call source e ms = Ok c → ∃ m h args tail, (m, h) ∈ ms ∧ method_call source e m = Some (args, tail) ∧ h args tail = Ok c.
Proof.
  induction ms as [| [m h] ms IH]; [done |]. cbn. destruct (method_call source e m) as [[args tail] |] eqn:E.
  - intros Hh. exists m, h, args, tail. repeat split; [left | done | done].
  - intros (m' & h' & a & t & ? & ? & ?)%IH. exists m', h', a, t. repeat split; [by right | done | done].
Qed.

Lemma first_call_found source e ms m h args tail :
  (∀ m h, (m, h) ∈ ms → chr "(" ∉ m) → NoDup ms.*1 →
  (m, h) ∈ ms → method_call source e m = Some (args, tail) → first_call source e ms = h args tail.
Proof.
  intros Hn Hd Hin Hc. induction ms as [| [m' h'] ms IH]; [by apply not_elem_of_nil in Hin |].
  rewrite fmap_cons in Hd. apply NoDup_cons in Hd as [Hd1 Hd2]. cbn.
  apply elem_of_cons in Hin as [[= <- <-] | Hin]; [by rewrite Hc |].
  destruct (method_call source e m') as [[a t] |] eqn:E.
  - assert (m = m') as <-.
    { eapply method_call_unique; [| | exact Hc | exact E]; eapply Hn; [by right | by left]. }
    destruct Hd1. apply list_elem_of_fmap. by exists (m, h).
  - apply IH; [| done | done]. intros. eapply Hn. by right.
Qed.

Lemma methods_distinct collection : NoDup (methods collection).*1.
Proof. apply (bool_decide_unpack _). vm_compute. done. Qed.

(** *** What stands before the call *)
Definition source_of (input : str) : str := trim (trim_end_matches (chr ";") (trim input)).
Definition is_word (c : char) : bool := is_ascii_alphanumeric c || bool_decide (c = chr "_").
Definition call_text (collection method : str) (args : list str) : str :=
  lit "db." ++ collection ++ lit "." ++ method ++ lit "(" ++ join [COMMA] args ++ lit ")".

Lemma trim_ends a b s : is_whitespace a = false → is_whitespace b = false → trim (a :: s ++ [b]) = a :: s ++ [b].
Proof.
  intros Ha Hb. unfold trim. rewrite trim_start_kept by done. unfold trim_end.
  rewrite app_comm_cons, reverse_snoc. change (drop_while is_whitespace ?s) with (trim_start s). rewrite trim_start_kept by done.
  by rewrite reverse_cons, reverse_involutive.
Qed.

Lemma call_text_shape collection method args : ∃ s, call_text collection method args = chr "d" :: s ++ [chr ")"].
Proof.
  exists (lit "b." ++ collection ++ lit "." ++ method ++ lit "(" ++ join [COMMA] args).
  unfold call_text. by rewrite <- !app_assoc.
Qed.

Lemma source_of_call collection method args : source_of (call_text collection method args) = call_text collection method args.
Proof.
  destruct (call_text_shape collection method args) as [s ->]. unfold source_of.
  rewrite trim_ends by done. unfold trim_end_matches. rewrite app_comm_cons, reverse_snoc.
  cbn [drop_while]. rewrite bool_decide_eq_false_2 by done. rewrite <- reverse_snoc, reverse_involutive. cbn [app]. by apply trim_ends.
Qed.

(** The first word of a text that starts with [c] starts with it. *)
Lemma words_first c s : is_whitespace c = false → ∃ w ws, split_whitespace (c :: s) = (c :: w) :: ws.
Proof.
  intros Hc. unfold split_whitespace. cbn [words_acc]. rewrite Hc. change ([] ++ [c]) with [c].
  assert (∀ w s, ∃ v ws, words_acc (c :: w) s = (c :: v) :: ws) as Hw.
  { intros w t. revert w. induction t as [| x t IH]; intros w; cbn; [eauto |].
    destruct (is_whitespace x); [eauto |]. change ((c :: w) ++ [x]) with (c :: w ++ [x]). apply IH. }
  apply Hw.
Qed.

Lemma drop_while_end f c s : f c = false → ∃ t, reverse (drop_while f (reverse (c :: s))) = c :: t.
Proof.
  intros Hc. rewrite reverse_cons. generalize (reverse s). clear s. intros s. induction s as [| x s IH].
  - cbn. rewrite Hc. by exists [].
  - cbn [app drop_while]. destruct (f x); [apply IH |]. rewrite app_comm_cons, reverse_snoc. eauto.
Qed.

Lemma trim_end_matches_first x c s : c ≠ x → ∃ t, trim_end_matches x (c :: s) = c :: t.
Proof. intros Hc. apply drop_while_end. by apply bool_decide_eq_false_2. Qed.

Lemma trim_first c s : is_whitespace c = false → ∃ t, trim (c :: s) = c :: t.
Proof. intros Hc. unfold trim. rewrite trim_start_kept by done. by apply drop_while_end. Qed.

Lemma outer_comments_first s : ∃ t, trim_mongo_outer_comments (chr "d" :: s) = chr "d" :: t.
Proof.
  unfold trim_mongo_outer_comments. cbn [trim_leading_comments].
  rewrite trim_start_kept by done.
  assert (∀ p, p ≠ [] → head p ≠ Some (chr "d") → starts_with p (chr "d" :: s) = false) as Hp.
  { intros [| x p] Hn Hh; [done |]. apply not_true_iff_false. rewrite starts_with_spec. intros [k E]. by simplify_eq/=. }
  rewrite !Hp by done. cbn [orb]. unfold comment_left. rewrite trim_start_kept, Hp by done. cbn [andb].
  destruct (drop_while_end is_whitespace (chr "d") s eq_refl) as [t Ht]. unfold trim_end at 2. rewrite Ht.
  assert (∃ u, body_of OCode false [] (chr "d" :: t) = chr "d" :: u) as [u ->].
  { cbn [body_of]. rewrite !decide_False by (vm_compute; naive_solver). eexists. reflexivity. }
  by apply drop_while_end.
Qed.

Lemma not_show s : parse_show_databases (chr "d" :: s) = false.
Proof.
  unfold parse_show_databases. destruct (words_first (chr "d") s eq_refl) as (w & ws & ->).
  by destruct ws as [| b [|]].
Qed.

Lemma not_use s : parse_use_database (chr "d" :: s) = None.
Proof.
  unfold parse_use_database. destruct (words_first (chr "d") s eq_refl) as (w & ws & ->).
  by destruct ws as [| b [|]].
Qed.

Lemma not_version collection method args : eq_ignore_ascii_case (call_text collection method args) (lit "db.version()") = false.
Proof.
  apply bool_decide_eq_false. intros E.
  apply (f_equal (λ s, length (filter (λ c, c = chr ".") s))) in E. revert E.
  unfold call_text, to_ascii_lowercase. rewrite !fmap_app, !filter_app, !length_app.
  repeat match goal with |- context [length (filter ?P (ascii_lower <$> lit ?x))] =>
    let n := eval vm_compute in (length (filter P (ascii_lower <$> lit x))) in
    change (length (filter P (ascii_lower <$> lit x))) with n end. lia.
Qed.

Lemma ci_word name collection t rest :
  chr "." ∉ to_ascii_lowercase name → strip_prefix_ci name (collection ++ chr "." :: t) = Some rest →
  ∃ c', rest = c' ++ chr "." :: t ∧ c' `suffix_of` collection.
Proof.
  intros Hn. unfold strip_prefix_ci. destruct (eq_ignore_ascii_case _ _) eqn:E; [| done]. intros [= <-].
  apply bool_decide_eq_true in E. destruct (decide (length name ≤ length collection)) as [Hl | Hl].
  - exists (drop (length name) collection). rewrite drop_app_le by done. split; [done |]. apply suffix_drop.
  - destruct Hn. rewrite <- E. unfold to_ascii_lowercase. apply list_elem_of_fmap. exists (chr "."). split; [done |].
    rewrite take_app_ge by lia. apply elem_of_app. right.
    destruct (length name - length collection) as [| k] eqn:Ek; [lia |]. left.
Qed.

Lemma prefix_word p a t : chr "." ∉ p → p `prefix_of` a ++ chr "." :: t → p `prefix_of` a.
Proof.
  revert a. induction p as [| x p IH]; intros a Hp [k E]; [apply prefix_nil |].
  destruct a as [| y a]; simplify_eq/=; [set_solver |]. apply prefix_cons. apply IH; [set_solver |]. by exists k.
Qed.

Lemma word_not_space c : is_word c = true → is_whitespace c = false ∧ c ≠ chr "." ∧ c ≠ chr "(".
Proof.
  unfold is_word, is_ascii_alphanumeric, is_ascii_alphabetic, is_ascii_uppercase, is_ascii_lowercase, is_ascii_digit, is_whitespace.
  rewrite !orb_true_iff, !bool_decide_eq_true, bool_decide_eq_false. change (chr ".") with 46%N. change (chr "(") with 40%N.
  change (chr "_") with 95%N. lia.
Qed.

Lemma word_tail c t :
  forallb is_word c = true →
  trim_start (c ++ chr "." :: t) = c ++ chr "." :: t ∧ starts_with (lit "(") (c ++ chr "." :: t) = false.
Proof.
  intros Hw. destruct c as [| x c]; cbn [app].
  - split; [by apply trim_start_kept | done].
  - cbn in Hw. apply andb_true_iff in Hw as [(Hs & _ & Ho)%word_not_space _].
    split; [by apply trim_start_kept |]. apply not_true_iff_false. rewrite starts_with_spec. intros [k E]. by simplify_eq/=.
Qed.

(** Not a command of the database. *)
Lemma not_database_method name collection t :
  chr "." ∉ to_ascii_lowercase name → forallb is_word collection = true →
  database_method_call (lit "db." ++ collection ++ chr "." :: t) name = None.
Proof.
  intros Hn Hw. unfold database_method_call.
  change (strip_prefix_ci (lit "db") (lit "db." ++ ?s)) with (Some (chr "." :: s)). cbn [mbind option_bind].
  rewrite trim_start_kept by done. change (strip_prefix (lit ".") (chr "." :: ?s)) with (Some s). cbn [mbind option_bind].
  rewrite (proj1 (word_tail collection t Hw)).
  destruct (strip_prefix_ci name _) as [rest |] eqn:E; [| done]. apply ci_word in E as (c' & -> & [k Hk]); [| done].
  cbn [mbind option_bind]. rewrite Hk, forallb_app in Hw. apply andb_true_iff in Hw as [_ Hw].
  destruct (word_tail c' t Hw) as [-> ->]. done.
Qed.

Lemma find_char_app f a c t : forallb (λ x, negb (f x)) a = true → f c = true → find_char f (a ++ c :: t) = Some (length a).
Proof.
  intros Ha Hc. induction a as [| x a IH]; cbn [app find_char length]; [by rewrite Hc |].
  cbn in Ha. apply andb_true_iff in Ha as [Hx%negb_true_iff Ha]. by rewrite Hx, IH.
Qed.

Lemma collection_prefix_printed collection t :
  collection ≠ [] → forallb is_word collection = true → starts_with (lit "getCollection") collection = false →
  parse_collection_prefix (lit "db." ++ collection ++ chr "." :: t) = Ok (collection, 3 + length collection).
Proof.
  intros Hc Hw Hg. unfold parse_collection_prefix.
  change (strip_prefix_ci (lit "db.") (lit "db." ++ ?s)) with (Some s). cbn match.
  replace (starts_with (lit "getCollection") (collection ++ chr "." :: t)) with false.
  2:{ symmetry. apply not_true_iff_false. rewrite starts_with_spec. intros Hp%prefix_word; [| by apply (bool_decide_unpack _); vm_compute].
      apply starts_with_spec in Hp. congruence. }
  rewrite find_char_app; [| | done].
  2:{ apply forallb_forall. intros x Hx. rewrite forallb_forall in Hw. apply Hw in Hx.
      apply word_not_space in Hx as (-> & ? & _). by rewrite bool_decide_eq_false_2. }
  rewrite take_app_length, drop_app_length, decide_False by done.
  change (find_eq (chr ".") (chr "." :: t)) with (Some 0). cbn match. rewrite decide_True by done. by rewrite Nat.add_0_r.
Qed.

(** The text db.<collection>.<method>(<arguments>) of any of the 26 methods, for a collection
    named by letters, digits and underscores and arguments whose quotes and brackets are closed, is
    parsed by the code of that method, with exactly these arguments, trimmed, in order and nothing
    left over. *)
Theorem printed_calls_reach_their_method collection method handler args :
  collection ≠ [] → forallb is_word collection = true → starts_with (lit "getCollection") collection = false →
  (method, handler) ∈ methods collection →
  forallb contained args = true → (∀ a, args = [a] → trim a ≠ []) →
  parse (call_text collection method args) = handler (trim <$> args) [].
Proof.
  intros Hc Hw Hg Hm Ha Hn. unfold parse. fold (source_of (call_text collection method args)). rewrite source_of_call.
  replace (parse_show_databases _) with false.
  2:{ destruct (call_text_shape collection method args) as [s ->]. destruct (outer_comments_first (s ++ [chr ")"])) as [t ->].
      destruct (trim_end_matches_first (chr ";") (chr "d") t) as [u ->]; [done |].
      destruct (trim_first (chr "d") u eq_refl) as [v ->]. by rewrite not_show. }
  rewrite not_version.
  replace (parse_use_database _) with (@None str).
  2:{ destruct (call_text_shape collection method args) as [s ->]. by rewrite not_use. }
  change (call_text collection method args) with (lit "db." ++ collection ++ chr "." :: (method ++ lit "(" ++ join [COMMA] args ++ lit ")")).
  rewrite !not_database_method by (first [done | by apply (bool_decide_unpack _); vm_compute]).
  rewrite collection_prefix_printed by done.
  eapply first_call_found; [intros; by eapply method_names | apply methods_distinct | done |].
  pose proof (method_call_printed (lit "db." ++ collection) method args [] Ha Hn) as Hp.
  rewrite <- app_assoc in Hp. exact Hp.
Qed.

(** ** What the check lets through *)
Lemma validate_safety_ok c allow_writes allow_dangerous production :
  validate_safety c allow_writes allow_dangerous production = Ok tt ↔
  (is_mutating c = true → allow_writes = true ∧ production = false) ∧
  (has_effectively_unbounded_filter c = true ∨ is_dangerous c = true → allow_dangerous = true).
Proof.
  unfold validate_safety.
  destruct (is_mutating c), allow_writes, (has_effectively_unbounded_filter c), allow_dangerous, (is_dangerous c), production;
    cbn; split; try done; naive_solver.
Qed.

(** What is dangerous or has a filter writes. *)
Lemma dangerous_is_mutating c : is_dangerous c = true → is_mutating c = true.
Proof. by destruct c as [| | | | | | | | | | | | | | | | | ? [] [] | | | |]. Qed.

Definition reading_methods : list str :=
  lit <$> ["find"; "findOne"; "countDocuments"; "count"; "aggregate"; "distinct"; "getIndexes";
           "stats"; "dataSize"; "storageSize"; "totalIndexSize"].
(** The two stages of a pipeline that write: $out and $merge. *)
Inductive writing_stage : json → Prop :=
| stage_out fields target : (lit "$out", target) ∈ fields → writing_stage (JObject fields)
| stage_merge fields target : (lit "$merge", target) ∈ fields → writing_stage (JObject fields).
Definition reads (method : str) (args : list str) : Prop :=
  method ∈ reading_methods ∧
  (method = lit "aggregate" → ∀ pipeline stages stage, normalized_json (arg 0 args) = Ok pipeline →
     parse_json_value pipeline = Some (JArray stages) → stage ∈ stages → ¬ writing_stage stage).

Lemma aggregate_writes_stages pipeline stages stage :
  aggregate_writes pipeline = false → parse_json_value pipeline = Some (JArray stages) → stage ∈ stages → ¬ writing_stage stage.
Proof.
  unfold aggregate_writes. intros Hw Hp Hin Hs. rewrite Hp in Hw. cbn [mbind option_bind as_array] in Hw.
  apply not_true_iff_false in Hw. apply Hw, existsb_exists. exists stage. split; [by apply list_elem_of_In |].
  destruct Hs as [fields target Hk | fields target Hk]; cbn [as_object]; apply existsb_exists;
    (eexists; split; [by apply list_elem_of_In |]); apply bool_decide_eq_true; [by left | by right].
Qed.

Local Ltac steps := repeat (case_match; simplify_eq/=; try done).

Lemma method_reads collection m h args tail c :
  (m, h) ∈ methods collection → h args tail = Ok c → is_mutating c = false → reads m args.
Proof.
  intros Hin Hh Hm. unfold methods in Hin.
  repeat (apply elem_of_cons in Hin as [[= -> ->] | Hin]; [
    first
      [ exfalso; clear -Hh Hm;
        unfold find_one_and_set, find_one_and_delete, insert_command, update_command, legacy_update_command, delete_command,
          create_index_command, drop_index_command, drop_indexes_command, drop_command in Hh; by steps
      | split; [by apply (bool_decide_unpack _); vm_compute |]; intros Ha;
        first [by apply (f_equal (λ s, bool_decide (s = lit "aggregate"))) in Ha |
               intros pipeline stages stage Hp; apply aggregate_writes_stages; unfold aggregate_command in Hh; rewrite Hp in Hh; by steps] ] |]).
  by apply not_elem_of_nil in Hin.
Qed.

(** C12: Whatever the text, a command that `parse` returns and `validate_safety` lets through
    without permission to write is show dbs, db.version(), use, or the call of a collection whose
    only method is one of eleven reading methods, and if that method is aggregate, its pipeline has
    no $out and no $merge stage. *)
Theorem without_permission_only_reads_run input c allow_dangerous production :
  parse input = Ok c → validate_safety c false allow_dangerous production = Ok tt →
  c = CShowDatabases ∨ c = CVersion ∨ (∃ database, c = CUse database) ∨
  ∃ collection prefix_end, parse_collection_prefix (source_of input) = Ok (collection, prefix_end) ∧
    (∃ m, is_Some (method_call (source_of input) prefix_end m)) ∧
    ∀ m args tail, chr "(" ∉ m → method_call (source_of input) prefix_end m = Some (args, tail) → reads m args.
Proof.
  intros Hp [Hv _]%validate_safety_ok.
  assert (is_mutating c = false) as Hm by (destruct (is_mutating c); [by destruct Hv | done]). clear Hv.
  unfold parse in Hp. fold (source_of input) in Hp.
  destruct (parse_show_databases _); [left; congruence |]. destruct (eq_ignore_ascii_case _ _); [right; left; congruence |].
  destruct (parse_use_database _) as [db |]; [right; right; left; exists db; congruence |]. do 3 right.
  destruct (database_method_call _ _) as [[args tail] |].
  { exfalso. unfold run_command in Hp. by steps. }
  destruct (database_method_call _ (lit "createUser")) as [[args tail] |].
  { exfalso. unfold create_user in Hp. by steps. }
  destruct (parse_collection_prefix _) as [[collection e] |]; [| done]. exists collection, e. split; [done |].
  apply first_call_Ok in Hp as (m & h & args & tail & Hin & Hc & Hh). split; [by exists m |].
  intros m' args' tail' Hm' Hc'. assert (m' = m) as -> by (eapply method_call_unique; eauto using method_names).
  rewrite Hc in Hc'. simplify_eq. by eapply method_reads.
Qed.

(** ** The fuel of the constructors *)
Lemma close_from_bound st d i s j : close_from st d i s = Some j → i ≤ j < i + length s.
Proof.
  revert st d i. induction s as [| ch s IH]; intros st d i; [done |]. cbn [close_from length].
  destruct (quote_scan st ch) as [st' o].
  destruct (o && bool_decide (ch = chr "(")); [intros ?%IH; lia |].
  destruct (o && bool_decide (ch = chr ")")); [| intros ?%IH; lia].
  destruct (decide _); [intros [= <-]; lia | intros ?%IH; lia].
Qed.

Lemma string_by_ext f g arg : f (trim arg) = g (trim arg) → string_by f arg = string_by g arg.
Proof. unfold string_by, normalized_by. by intros ->. Qed.

Lemma transform_fuel n m input :
  length input < n → length input < m → transform_shell_constructors n input = transform_shell_constructors m input.
Proof.
  revert m input. induction n as [| n IH]; intros m input Hn Hm; [lia |]. destruct m as [| m]; [lia |].
  cbn [transform_shell_constructors]. destruct (constructor_at input) as [[k key] |].
  - destruct (matching_paren input _) as [close |] eqn:E; [| done].
    assert (0 < length input ∧ close < length input) as [Hpos Hclose].
    { unfold matching_paren in E. apply close_from_bound in E. rewrite length_drop in E. lia. }
    assert (∀ s, s `sublist_of` drop 1 input → length s < n ∧ length s < m) as Hsub.
    { intros s Hs%sublist_length. rewrite length_drop in Hs. lia. }
    rewrite (string_by_ext _ (transform_shell_constructors m)).
    2:{ apply IH; apply Hsub; rewrite !trim_sublist; unfold slice; (etrans; [apply sublist_take |]).
        all: replace (S (length k - 1)) with (1 + (length k - 1)) by lia; rewrite <- drop_drop; apply sublist_drop. }
    destruct (string_by _ _); [| done].
    by rewrite (IH m) by (rewrite length_drop; lia).
  - destruct input as [| ch r]; [done |]. cbn [length] in *. by rewrite (IH m) by lia.
Qed.
End calls.

(** The fuel of the other loops: each round drops a character. *)
Lemma chained_fuel n m rest : length rest < n → length rest < m → chained_from n rest = chained_from m rest.
Proof.
  revert m rest. induction n as [| n IH]; intros m rest Hn Hm; [lia |]. destruct m as [| m]; [lia |].
  cbn [chained_from]. destruct rest as [| c r]; [done |]. destruct (strip_prefix _ _) as [after |] eqn:E; [| done].
  destruct (find_eq _ after) as [open |]; [| done]. destruct (matching_paren after open) as [close |]; [| done].
  apply strip_prefix_Some in E. apply (f_equal length) in E. rewrite length_app in E. cbn [length] in *.
  pose proof (sublist_length _ _ (trim_sublist (drop (S close) after))) as Hl. rewrite length_drop in Hl.
  change (length (lit ".")) with 1 in E. by rewrite (IH m) by lia.
Qed.

Lemma leading_comments_fuel n m source :
  length source < n → length source < m → trim_leading_comments n source = trim_leading_comments m source.
Proof.
  revert m source. induction n as [| n IH]; intros m source Hn Hm; [lia |]. destruct m as [| m]; [lia |].
  cbn [trim_leading_comments]. pose proof (sublist_length _ _ (trim_start_sublist source)) as Hl.
  set (s := trim_start source) in *. clearbody s.
  destruct (starts_with (lit "//") s || starts_with (lit "--") s) eqn:E.
  - assert (0 < length s) by (destruct s; [done | cbn; lia]).
    pose proof (suffix_length _ _ (drop_while_suffix (λ c, negb (is_newline c)) s)).
    apply IH; rewrite length_drop; lia.
  - destruct (starts_with (lit "/*") s); [| done]. destruct (split_once (lit "*/") s) as [[a b] |] eqn:Eb; [| done].
    apply split_once_Some in Eb. apply (f_equal length) in Eb. rewrite !length_app in Eb. change (length (lit "*/")) with 2 in Eb.
    apply IH; lia.
Qed.

(** ** Concrete commands

    A few JSON texts, with single quotes for double ones here. *)
Definition quoted (s : string) : str := (λ c, if decide (c = SQUOTE) then DQUOTE else c) <$> lit s.
Definition some_json : list (str * json) :=
  [(quoted "{}", JObject []); (quoted "{'a':1}", obj "a" (jnum "1")); (quoted "1", jnum "1");
   (quoted "{'a':{'$exists':1}}", obj "a" (obj "$exists" (jnum "1")));
   (quoted "[{'$out':'t'}]", JArray [obj "$out" (JString (lit "t"))])].
Definition some_json5 : list (str * json) :=
  [(lit "{a: 1}", obj "a" (jnum "1")); (lit "[{$out: 't'}]", JArray [obj "$out" (JString (lit "t"))])].
Definition value_of (table : list (str * json)) (text : str) : option json := field_of_object text table.
Definition some_texts : JsonText := {|
  from_str := value_of some_json;
  json5_from_str text := match value_of (some_json ++ some_json5) text with Some v => Ok v | None => Err (lit "expected a value") end;
  to_string v := match list_find (λ p : str * json, p.2 = v) some_json with Some (_, p) => p.1 | None => lit "null" end;
|}.

Lemma printed_calls_reach_their_method_witness :
  parse (H := some_texts) (lit "db.users.deleteMany({a: 1})") = Ok (CDelete (lit "users") (quoted "{'a':1}") true).
Proof.
  etrans; [apply (printed_calls_reach_their_method (H := some_texts) (lit "users") (lit "deleteMany")
             (delete_command (H := some_texts) (lit "deleteMany") (lit "users") true) [lit "{a: 1}"]) |].
  - done.
  - vm_compute. reflexivity.
  - vm_compute. reflexivity.
  - unfold methods. repeat first [apply list_elem_of_here | apply list_elem_of_further].
  - vm_compute. reflexivity.
  - intros a [= <-]. done.
  - vm_compute. reflexivity.
Defined.

Lemma without_permission_only_reads_run_witness : lit "find" ∈ reading_methods.
Proof.
  destruct (without_permission_only_reads_run (H := some_texts) (H0 := no_timestamps) (lit "db.users.find({a: 1})")
    (CFind (lit "users") (quoted "{'a':1}") None None None 0 100) false true) as [E | [E | [[db E] | (c & e & Hc & _ & Hr)]]];
    [vm_compute; reflexivity | vm_compute; reflexivity | discriminate E.. |].
  vm_compute in Hc. injection Hc as <- <-. apply (Hr _ [lit "{a: 1}"] []); [by apply (bool_decide_unpack _); vm_compute |].
  vm_compute. reflexivity.
Defined.

(** The pipeline decides: a stage $out makes an aggregation a write. *)
Example out_is_a_write :
  (let? c := parse (H := some_texts) (lit "db.c.aggregate([{$out: 't'}])") in
   Ok (validate_safety (H := some_texts) (H0 := no_timestamps) c false true false)) = Ok (Err WritesDisabled).
Proof. vm_compute. reflexivity. Qed.

(** ObjectId( is taken for a constructor inside of a string too: a text that
    mentions it cannot be searched for. *)
Example constructors_in_strings_are_rewritten :
  parse (H := some_texts) (lit "db.c.find({note: 'ObjectId(1)'})") = Err (lit "MongoDB argument must be a string.").
Proof. vm_compute. reflexivity. Qed.
