(* ===== verification/ProductionSafety.v ===== *)
(** * Production databases (production_safety.rs)

    Which databases a text refers to, and whether it may change one that is
    marked as production.  The text is first freed of comments and literals,
    with a token for every quoted name; the names that follow the keywords of a
    statement are then found with regular expressions, the class [Patterns]. *)
From S2P Require Import Prelude SqlDialect QueryGuard StateStore Json MongoFilter MongoShell PoolKeys.
Local Open Scope dbx_scope.

(** The groups of every match of a pattern in a text, the whole match first. *)
Class Patterns := captures_iter : str → str → list (list (option str)).
Definition group (n : nat) (capture : list (option str)) : option str := mjoin (capture !! n).
Definition is_match `{Patterns} (pattern text : str) : bool := bool_decide (captures_iter pattern text ≠ []).
Definition first_group `{Patterns} (pattern text : str) (n : nat) : option str := head (captures_iter pattern text) ≫= group n.

Definition IDENTIFIER : string := "[A-Za-z0-9_@$#-]*[A-Za-z_@$#][A-Za-z0-9_@$#-]*".
Definition MORE_PARTS : string := "(?:\s*\.\s*(?:\*|[A-Za-z0-9_@$#-]*[A-Za-z_@$#][A-Za-z0-9_@$#-]*))".
Definition TARGET_NAME : string := IDENTIFIER +:+ MORE_PARTS +:+ "{0,3}".
Definition QUALIFIED_NAME : string := IDENTIFIER +:+ MORE_PARTS +:+ "{1,3}".

Definition DML_TARGET_RE := lit ("(?is)\b(?:FROM|JOIN|UPDATE|INTO|REFERENCES)\s+(" +:+ TARGET_NAME +:+ ")").
Definition APPLY_TARGET_RE := lit ("(?is)\b(?:CROSS|OUTER)\s+APPLY\s+(" +:+ TARGET_NAME +:+ ")").
Definition APPLY_RE := lit "(?is)\b(?:CROSS|OUTER)\s+APPLY\b".
Definition FROM_CLAUSE_RE :=
  lit "(?is)\bFROM\s+(.+?)(?:\b(?:WHERE|GROUP\s+BY|HAVING|ORDER\s+BY|LIMIT|OFFSET|FETCH|FOR|UNION|EXCEPT|INTERSECT|JOIN)\b|$)".
Definition LEADING_TARGET_RE := lit ("(?is)^\s*(" +:+ TARGET_NAME +:+ ")(?:\s+(?:AS\s+)?" +:+ IDENTIFIER +:+ ")?\s*$").
Definition DDL_OBJECT_TARGET_RE :=
  lit ("(?is)\b(?:CREATE|ALTER|DROP)\s+(?:OR\s+REPLACE\s+)?(?:TABLE|VIEW|MATERIALIZED\s+VIEW|INDEX|SEQUENCE|FUNCTION|PROCEDURE|ROUTINE|TRIGGER|EVENT|TYPE|SYNONYM)\s+(?:IF\s+(?:NOT\s+)?EXISTS\s+)?(?:ONLY\s+)?("
       +:+ TARGET_NAME +:+ ")").
Definition INDEX_ON_TARGET_RE := lit ("(?is)\b(?:CREATE|ALTER|DROP)\s+(?:UNIQUE\s+)?INDEX\b.*?\bON\s+(" +:+ TARGET_NAME +:+ ")").
Definition DATABASE_TARGET_RE :=
  lit ("(?is)\b(?:CREATE|ALTER|DROP)\s+(DATABASE|SCHEMA|CATALOG)\s+(?:IF\s+(?:NOT\s+)?EXISTS\s+)?(" +:+ IDENTIFIER +:+ ")").
Definition USE_RE := lit ("(?is)^\s*USE\s+(" +:+ IDENTIFIER +:+ ")").
Definition COPY_TARGET_RE := lit ("(?is)^\s*COPY\s+(" +:+ TARGET_NAME +:+ ")\s+FROM\b").
Definition TRUNCATE_TARGET_RE := lit ("(?is)\bTRUNCATE\s+(?:TABLE\s+)?(" +:+ TARGET_NAME +:+ ")").
Definition RENAME_TABLE_TARGET_RE := lit ("(?is)\bRENAME\s+TABLE\s+(" +:+ TARGET_NAME +:+ ")\s+TO\s+(" +:+ TARGET_NAME +:+ ")").
Definition MAINTENANCE_TABLE_TARGET_RE :=
  lit ("(?is)\b(?:ANALYZE|OPTIMIZE|REPAIR|CHECK)\s+(?:NO_WRITE_TO_BINLOG\s+|LOCAL\s+)?TABLE\s+(" +:+ TARGET_NAME +:+ ")").
Definition COMMENT_TARGET_RE :=
  lit ("(?is)\bCOMMENT\s+ON\s+(?:TABLE|VIEW|COLUMN|INDEX|SEQUENCE|FUNCTION|PROCEDURE|TYPE)\s+(" +:+ TARGET_NAME +:+ ")").
Definition ROUTINE_CALL_TARGET_RE := lit ("(?is)\b(?:CALL|EXEC|EXECUTE)\s+(" +:+ QUALIFIED_NAME +:+ ")").
Definition PRIVILEGE_TARGET_RE :=
  lit ("(?is)\b(?:GRANT|REVOKE|DENY)\b.*?\bON\s+(?:(?:TABLE|SEQUENCE|FUNCTION|PROCEDURE|ROUTINE|OBJECT)\s+|OBJECT\s*::\s*)?(" +:+ QUALIFIED_NAME +:+ ")").
Definition PRIVILEGE_DATABASE_TARGET_RE :=
  lit ("(?is)\b(?:GRANT|REVOKE|DENY)\b.*?\bON\s+(?:DATABASE|CATALOG)(?:::|\s+)\s*(" +:+ IDENTIFIER +:+ ")").
Definition GLOBAL_PRIVILEGE_TARGET_RE := lit "(?is)\b(?:GRANT|REVOKE|DENY)\b.*?\bON\s+\*\s*\.\s*\*".
Definition GLOBAL_DDL_TARGET_RE :=
  lit "(?is)^\s*(?:CREATE|ALTER|DROP)\s+(?:USER|ROLE|LOGIN|SERVER|TABLESPACE|RESOURCE|PROFILE|ACCOUNT)\b".
Definition MULTI_TARGET_MUTATION_RE := lit "(?is)^\s*(?:DROP\s+(?:TEMPORARY\s+)?TABLE\b.*,|RENAME\s+TABLE\b.*,)".
Definition FIRST_KEYWORD_RE := lit IDENTIFIER.

(** ** The text without comments and literals *)
Record SqlTargetSafetyText := { safety_text : str; quoted_identifiers : gmap str str }.
Definition push_text (s : str) (r : SqlTargetSafetyText) : SqlTargetSafetyText :=
  {| safety_text := safety_text r ++ s; quoted_identifiers := quoted_identifiers r |}.

Definition in_line (c : char) : bool := bool_decide (c ≠ NL ∧ c ≠ CR).
Fixpoint after_block (s : str) : str :=
  match s with
  | c :: ((d :: r) as t) => if decide (c = chr "*" ∧ d = chr "/") then r else after_block t
  | _ => []
  end.
Fixpoint split_block (s : str) : str * str :=
  match s with
  | c :: ((d :: r) as t) => if decide (c = chr "*" ∧ d = chr "/") then ([], r) else let (body, rest) := split_block t in (c :: body, rest)
  | _ => (s, [])
  end.
(** The body of a comment that MySQL or MariaDB runs, and what follows it. *)
Definition mysql_executable_comment_body (s : str) : option (str * str) :=
  rest ← strip_prefix (lit "/*") s;
  body ← match rest with
         | c :: r => if decide (c = chr "!") then Some r
                     else match r with d :: r' => if decide (c = chr "M" ∧ d = chr "!") then Some r' else None | [] => None end
         | [] => None
         end;
  Some (split_block (drop_while (λ c, is_ascii_digit c || is_whitespace c) body)).
Definition tag_char (c : char) : bool := is_ascii_alphanumeric c || bool_decide (c = chr "_").
Definition dollar_quote_tag_at (s : str) : option str :=
  match s with
  | c :: d :: r =>
      if decide (c ≠ chr "$") then None
      else if decide (d = chr "$") then Some (lit "$$")
      else if is_ascii_alphabetic d || bool_decide (d = chr "_") then
        if decide (head (drop_while tag_char r) = Some (chr "$")) then Some (c :: d :: take_while tag_char r ++ [chr "$"]) else None
      else None
  | _ => None
  end.
Fixpoint after_tag (tag s : str) : str :=
  match strip_prefix tag s with
  | Some r => r
  | None => match s with [] => [] | _ :: t => after_tag tag t end
  end.
(** What follows a literal whose opening quote has been read. *)
Fixpoint skip_string_literal (opening closing : char) (s : str) : str :=
  match s with
  | [] => []
  | c :: r =>
      if decide (c = BACKSLASH ∧ (opening = SQUOTE ∨ opening = DQUOTE)) then match r with [] => [] | _ :: r' => skip_string_literal opening closing r' end
      else if decide (c = closing) then
        match r with
        | d :: r' => if decide (d = closing) then skip_string_literal opening closing r' else r
        | [] => []
        end
      else skip_string_literal opening closing r
  end.
(** The name between quotes, and what follows it. *)
Fixpoint quoted_identifier (closing : char) (s : str) : str * str :=
  match s with
  | [] => ([], [])
  | c :: r =>
      if decide (c = closing) then
        match r with
        | d :: r' => if decide (d = closing) then let (name, rest) := quoted_identifier closing r' in (closing :: name, rest) else ([], r)
        | [] => ([], [])
        end
      else let (name, rest) := quoted_identifier closing r in ((if decide (c = chr ";") then SPACE else c) :: name, rest)
  end.
Definition quoted_token (n : nat) : str := lit "__dbxq" ++ show_nat n ++ lit "__".
Definition append_quoted_identifier_token (closing : char) (s : str) (r : SqlTargetSafetyText) : SqlTargetSafetyText * str :=
  let (name, rest) := quoted_identifier closing s in
  let token := quoted_token (size (quoted_identifiers r)) in
  ({| safety_text := safety_text r ++ [SPACE] ++ token ++ [SPACE];
      quoted_identifiers := <[to_ascii_lowercase token := name]> (quoted_identifiers r) |}, rest).

Fixpoint append_sql_target_safety_text (fuel : nat) (s : str) (result : SqlTargetSafetyText) : SqlTargetSafetyText :=
  match fuel, s with
  | S fuel, c :: rest =>
      if decide (c = chr "-" ∧ head rest = Some (chr "-")) then
        append_sql_target_safety_text fuel (drop_while in_line (drop 1 rest)) (push_text [SPACE] result)
      else if decide (c = chr "#") then append_sql_target_safety_text fuel (drop_while in_line rest) (push_text [SPACE] result)
      else if decide (c = chr "/" ∧ head rest = Some (chr "*")) then
        match mysql_executable_comment_body s with
        | Some (body, tail) =>
            append_sql_target_safety_text fuel tail
              (push_text [SPACE] (append_sql_target_safety_text fuel body (push_text [SPACE] result)))
        | None => append_sql_target_safety_text fuel (after_block (drop 1 rest)) (push_text [SPACE] result)
        end
      else match dollar_quote_tag_at s with
           | Some tag => append_sql_target_safety_text fuel (after_tag tag (drop (length tag) s)) (push_text [SPACE] result)
           | None =>
               if decide (c = SQUOTE) then append_sql_target_safety_text fuel (skip_string_literal SQUOTE SQUOTE rest) (push_text [SPACE] result)
               else if decide (c = DQUOTE ∨ c = BACKTICK ∨ c = chr "[") then
                 let closing := if decide (c = chr "[") then chr "]" else c in
                 let (result', tail) := append_quoted_identifier_token closing rest result in
                 append_sql_target_safety_text fuel tail result'
               else append_sql_target_safety_text fuel rest (push_text [c] result)
           end
  | _, _ => result
  end.
Definition sql_target_safety_text (sql : str) : SqlTargetSafetyText :=
  append_sql_target_safety_text (length sql) sql {| safety_text := []; quoted_identifiers := ∅ |}.

(** ** Names of databases *)
Definition name_quote (c : char) : bool := bool_decide (c = BACKTICK ∨ c = DQUOTE ∨ c = chr "[" ∨ c = chr "]").
Definition normalize_database_name (value : str) : str :=
  to_ascii_lowercase (reverse (drop_while name_quote (reverse (drop_while name_quote (trim value))))).
Definition normalize_target_database_name (value : str) (quoted : gmap str str) : str :=
  let normalized := normalize_database_name value in
  match quoted !! normalized with Some name => normalize_database_name name | None => normalized end.
Definition schema_first_qualifier_type (d : DatabaseType.t) : bool :=
  is_any_db [DatabaseType.Postgres; DatabaseType.Redshift; DatabaseType.Gaussdb; DatabaseType.Kwdb; DatabaseType.OpenGauss; DatabaseType.Kingbase;
             DatabaseType.Highgo; DatabaseType.Uxdb; DatabaseType.Vastbase; DatabaseType.Yashandb; DatabaseType.Oracle; DatabaseType.OceanbaseOracle;
             DatabaseType.Dameng; DatabaseType.Firebird; DatabaseType.Exasol; DatabaseType.Teradata; DatabaseType.Vertica; DatabaseType.Db2;
             DatabaseType.Informix; DatabaseType.H2; DatabaseType.Iris; DatabaseType.Xugu; DatabaseType.Oscar; DatabaseType.Gbase; DatabaseType.SapHana;
             DatabaseType.SqlServer; DatabaseType.Snowflake; DatabaseType.Trino; DatabaseType.PrestoSql; DatabaseType.Databricks; DatabaseType.Bigquery;
             DatabaseType.Spanner] (Some d).
Definition qualified_first_part_is_database (d : DatabaseType.t) (part_count : nat) : bool :=
  if bool_decide (3 ≤ part_count) &&
     is_any_db [DatabaseType.SqlServer; DatabaseType.Snowflake; DatabaseType.Trino; DatabaseType.PrestoSql; DatabaseType.Databricks; DatabaseType.Bigquery] (Some d)
  then true
  else if schema_first_qualifier_type d then false
  else bool_decide (2 ≤ part_count).
Definition database_target_kind_means_database (kind : str) (d : DatabaseType.t) : bool :=
  if eq_ignore_ascii_case kind (lit "database") || eq_ignore_ascii_case kind (lit "catalog") then true
  else eq_ignore_ascii_case kind (lit "schema") && negb (schema_first_qualifier_type d).
Definition non_empty (s : str) : option str := if decide (s = []) then None else Some s.
Definition database_from_qualified_name (qualified_name : str) (d : DatabaseType.t) (quoted : gmap str str) (current_database : str) : option str :=
  let parts := omap (λ part, non_empty (normalize_target_database_name part quoted)) (split_char (chr ".") qualified_name) in
  if decide (length parts < 2) then non_empty current_database
  else if decide (d = DatabaseType.SqlServer ∧ 4 ≤ length parts) then parts !! 1
  else if qualified_first_part_is_database d (length parts) then head parts
  else non_empty current_database.
Fixpoint split_targets (depth : nat) (current s : str) : list str :=
  match s with
  | [] => [trim (reverse current)]
  | c :: r =>
      if decide (c = chr "(") then split_targets (S depth) (c :: current) r
      else if decide (c = chr ")") then split_targets (depth - 1) (c :: current) r
      else if decide (c = chr "," ∧ depth = 0) then trim (reverse current) :: split_targets 0 [] r
      else split_targets depth (c :: current) r
  end.
Definition split_top_level_comma_separated_targets (value : str) : list str := split_targets 0 [] value.

Section targets.
Context `{Patterns, Unicode, OracleTokenizer, WordTokenizer}.
Context (d : DatabaseType.t) (quoted : gmap str str).

Definition collect_qualified_target_database_groups (statement current_database pattern : str) (indexes : list nat) : gset str :=
  list_to_set (captures_iter pattern statement ≫= λ capture,
    omap (λ i, target ← group i capture; database_from_qualified_name target d quoted current_database ≫= non_empty) indexes).
Definition collect_qualified_target_databases (statement current_database : str) (patterns : list str) : gset str :=
  ⋃ ((λ p, collect_qualified_target_database_groups statement current_database p [1]) <$> patterns).
Definition from_factors (statement : str) : list str :=
  captures_iter FROM_CLAUSE_RE statement ≫= λ capture,
    match group 1 capture with
    | Some body => let factors := split_top_level_comma_separated_targets body in if decide (length factors < 2) then [] else factors
    | None => []
    end.
Definition factor_database (current_database factor : str) : option str :=
  target ← first_group LEADING_TARGET_RE factor 1; database_from_qualified_name target d quoted current_database.
Definition collect_comma_separated_from_databases (statement current_database : str) : gset str * bool :=
  let found := factor_database current_database <$> from_factors statement in
  (list_to_set (omap id found), existsb (λ f, match f with None => true | Some _ => false end) found).

Definition first_keyword (statement : str) : option str := to_ascii_lowercase <$> first_group FIRST_KEYWORD_RE statement 0.
Definition is_transaction_keyword (keyword : str) : bool :=
  bool_decide (keyword ∈ [lit "begin"; lit "start"; lit "commit"; lit "rollback"; lit "abort"; lit "savepoint"; lit "release"]).
Definition is_ambiguous_production_target_statement (statement : str) (has_resolved_target : bool) : bool :=
  if negb (is_write_sql statement) then false
  else match first_keyword statement with
       | None => true
       | Some keyword => if is_transaction_keyword keyword then false else is_match GLOBAL_DDL_TARGET_RE statement || negb has_resolved_target
       end.

Definition used_database (statement : str) : option str :=
  value ← first_group USE_RE statement 1; non_empty (normalize_target_database_name value quoted).
(** The databases that a statement names, other than by USE. *)
Definition statement_databases (statement current_database : str) (include_read_references : bool) : gset str :=
  collect_qualified_target_databases statement current_database
    [DML_TARGET_RE; APPLY_TARGET_RE; DDL_OBJECT_TARGET_RE; INDEX_ON_TARGET_RE; TRUNCATE_TARGET_RE; MAINTENANCE_TABLE_TARGET_RE;
     COMMENT_TARGET_RE; ROUTINE_CALL_TARGET_RE; PRIVILEGE_TARGET_RE]
  ∪ (if include_read_references then (collect_comma_separated_from_databases statement current_database).1 else ∅)
  ∪ collect_qualified_target_database_groups statement current_database RENAME_TABLE_TARGET_RE [1; 2]
  ∪ list_to_set (omap (λ capture,
      kind ← group 1 capture;
      if database_target_kind_means_database kind d
      then value ← group 2 capture; non_empty (normalize_target_database_name value quoted) else None) (captures_iter DATABASE_TARGET_RE statement))
  ∪ list_to_set (omap (λ capture, value ← group 1 capture; non_empty (normalize_target_database_name value quoted))
                      (captures_iter PRIVILEGE_DATABASE_TARGET_RE statement))
  ∪ list_to_set (option_list (target ← first_group COPY_TARGET_RE statement 1;
                              database_from_qualified_name target d quoted current_database ≫= non_empty)).
Definition statement_uncertain (statement current_database : str) (include_read_references : bool) : bool :=
  (include_read_references && (collect_comma_separated_from_databases statement current_database).2)
  || (include_read_references && negb (bool_decide (length (captures_iter APPLY_RE statement) = length (captures_iter APPLY_TARGET_RE statement))))
  || is_match GLOBAL_PRIVILEGE_TARGET_RE statement || is_match MULTI_TARGET_MUTATION_RE statement
  || is_ambiguous_production_target_statement statement
       (bool_decide (statement_databases statement current_database include_read_references ≠ ∅)).

Record ReferencedDatabaseAssessment := { databases : gset str; uncertain : bool; use_database : str }.
Definition assess_statement (active_database : str) (include_read_references : bool) (a : ReferencedDatabaseAssessment) (statement : str)
    : ReferencedDatabaseAssessment :=
  match used_database statement with
  | Some database => {| databases := {[ database ]} ∪ databases a; uncertain := uncertain a; use_database := database |}
  | None =>
      if negb (is_write_sql statement) && negb include_read_references then a
      else
        let current_database := if decide (use_database a = []) then normalize_database_name active_database else use_database a in
        {| databases := databases a ∪ statement_databases statement current_database include_read_references;
           uncertain := uncertain a || statement_uncertain statement current_database include_read_references;
           use_database := use_database a |}
  end.
End targets.

Definition statements_of (text : str) : list str := omap (λ s, non_empty (trim s)) (split_char (chr ";") text).
Section production.
Context `{Patterns, Unicode, OracleTokenizer, WordTokenizer}.

Definition referenced_databases (sql : str) (d : DatabaseType.t) (active_database : str) (include_read_references : bool) : ReferencedDatabaseAssessment :=
  let cleaned := sql_target_safety_text sql in
  fold_left (assess_statement d (quoted_identifiers cleaned) active_database include_read_references)
    (statements_of (safety_text cleaned)) {| databases := ∅; uncertain := false; use_database := [] |}.

Definition is_production_database (config : ConnectionConfig) (database : str) : bool :=
  c_is_production config ||
  (negb (bool_decide (trim database = [])) &&
   existsb (λ name, bool_decide (normalize_database_name name = normalize_database_name database)) (c_production_databases config)).
Definition marked_databases (config : ConnectionConfig) : gset str := list_to_set (normalize_database_name <$> c_production_databases config).
Definition targets_production_database (config : ConnectionConfig) (active_database sql : str) : bool :=
  if is_production_database config active_database then true
  else if decide (marked_databases config = ∅) then false
  else
    let assessment := referenced_databases sql (c_db_type config) active_database false in
    bool_decide (databases assessment ∩ marked_databases config ≠ ∅) || uncertain assessment.
Definition sql_references_disallowed_database (sql : str) (d : DatabaseType.t) (active_database : str) (allowed_databases : list str) : bool :=
  let allowed : gset str := list_to_set (omap (λ name, non_empty (normalize_database_name name)) allowed_databases) in
  let assessment := referenced_databases sql d active_database true in
  uncertain assessment || negb (bool_decide (databases assessment ⊆ allowed)).
End production.

(** ** Pipelines of MongoDB *)
Section mongo.
Context `{JsonText}.
Definition add_mongo_current_database (active_database : str) : option str :=
  if decide (trim active_database = []) then None else Some active_database.
Definition named_database (fields : list (str * json)) : option str :=
  database ← field_of_object (lit "db") fields ≫= as_str; if decide (trim database = []) then None else Some database.
(** The database that a writing stage names; [None] if that is uncertain. *)
Definition out_target (active_database : str) (target : json) : option str :=
  match target with
  | JString _ => add_mongo_current_database active_database
  | JObject fields => named_database fields
  | _ => None
  end.
Definition merge_target (active_database : str) (target : json) : option str :=
  match target with
  | JString _ => add_mongo_current_database active_database
  | JObject fields =>
      match field_of_object (lit "into") fields with
      | Some (JString _) => add_mongo_current_database active_database
      | Some (JObject into) => named_database into
      | _ => None
      end
  | _ => None
  end.
Definition stage_targets (active_database : str) (stage : json) : list (option str) :=
  match as_object stage with
  | Some document =>
      option_list (out_target active_database <$> field_of_object (lit "$out") document)
      ++ option_list (merge_target active_database <$> field_of_object (lit "$merge") document)
  | None => []
  end.
Definition mongo_pipeline_targets_production_database (config : ConnectionConfig) (active_database pipeline_json : str) : bool :=
  if is_production_database config active_database then true
  else match from_str pipeline_json with
       | Some (JArray stages) =>
           existsb (λ target, match target with Some database => is_production_database config database | None => true end)
             (stages ≫= stage_targets active_database)
       | _ => true
       end.
End mongo.

(** ** Enough fuel *)
Lemma drop_while_length f s : length (drop_while f s) ≤ length s.
Proof. apply suffix_length, drop_while_suffix. Qed.
Lemma after_block_length s : length (after_block s) ≤ length s.
Proof.
  induction s as [| c [| e r] IH]; cbn [after_block]; [done | cbn; lia |].
  destruct (decide _); [cbn; lia |]. etrans; [exact IH | cbn; lia].
Qed.
Lemma split_block_step c e r :
  split_block (c :: e :: r) =
  if decide (c = chr "*" ∧ e = chr "/") then ([], r) else let (body, rest) := split_block (e :: r) in (c :: body, rest).
Proof. done. Qed.
Lemma split_block_length s : length (split_block s).1 ≤ length s ∧ length (split_block s).2 ≤ length s.
Proof.
  induction s as [| c [| e r] IH]; [done | cbn; lia |]. rewrite split_block_step.
  destruct (decide _); [cbn; lia |]. destruct (split_block (e :: r)) as [body rest]. cbn in *. lia.
Qed.
Lemma after_tag_length tag s : length (after_tag tag s) ≤ length s.
Proof.
  induction s as [| c s IH]; cbn [after_tag]; destruct (strip_prefix tag _) as [r |] eqn:E;
    [| done | | cbn; lia]; apply strip_prefix_Some in E; apply (f_equal length) in E; rewrite length_app in E; lia.
Qed.
Lemma skip_string_step o q c r :
  skip_string_literal o q (c :: r) =
  if decide (c = BACKSLASH ∧ (o = SQUOTE ∨ o = DQUOTE)) then match r with [] => [] | _ :: r' => skip_string_literal o q r' end
  else if decide (c = q) then match r with e :: r' => if decide (e = q) then skip_string_literal o q r' else r | [] => [] end
  else skip_string_literal o q r.
Proof. done. Qed.
Lemma quoted_identifier_step q c r :
  quoted_identifier q (c :: r) =
  if decide (c = q) then
    match r with
    | e :: r' => if decide (e = q) then let (name, rest) := quoted_identifier q r' in (q :: name, rest) else ([], r)
    | [] => ([], [])
    end
  else let (name, rest) := quoted_identifier q r in ((if decide (c = chr ";") then SPACE else c) :: name, rest).
Proof. done. Qed.
Lemma skip_string_length o q s : length (skip_string_literal o q s) ≤ length s.
Proof.
  induction s as [s IH] using (induction_ltof1 _ length). unfold ltof in IH.
  destruct s as [| c [| e r]]; [done | cbn; repeat case_decide; cbn; lia |]. rewrite skip_string_step.
  pose proof (IH r ltac:(cbn; lia)) as H1. pose proof (IH (e :: r) ltac:(cbn; lia)) as H2. repeat case_decide; cbn [length] in *; lia.
Qed.
Lemma quoted_identifier_length q s : length (quoted_identifier q s).2 ≤ length s.
Proof.
  induction s as [s IH] using (induction_ltof1 _ length). unfold ltof in IH.
  destruct s as [| c [| e r]]; [done | cbn; case_decide; cbn; lia |]. rewrite quoted_identifier_step.
  pose proof (IH r ltac:(cbn; lia)) as H1. pose proof (IH (e :: r) ltac:(cbn; lia)) as H2.
  destruct (quoted_identifier q r), (quoted_identifier q (e :: r)). repeat case_decide; cbn [length snd] in *; lia.
Qed.
Lemma executable_length s body tail : mysql_executable_comment_body s = Some (body, tail) → length body < length s ∧ length tail < length s.
Proof.
  unfold mysql_executable_comment_body. intros (rest & Hs%strip_prefix_Some & H)%bind_Some. apply bind_Some in H as (b & Hb & [= H]).
  assert (length b ≤ length rest) as Hl.
  { destruct rest as [| c r]; [done |]. destruct (decide _); [injection Hb as <-; cbn; lia |]. destruct r as [| e r]; [done |].
    destruct (decide _); [| done]. injection Hb as <-. cbn. lia. }
  pose proof (split_block_length (drop_while (λ c, is_ascii_digit c || is_whitespace c) b)) as [H1 H2].
  pose proof (drop_while_length (λ c, is_ascii_digit c || is_whitespace c) b). rewrite H in H1, H2. subst s. cbn in *. lia.
Qed.
Lemma tag_length s tag : dollar_quote_tag_at s = Some tag → 1 ≤ length tag.
Proof.
  unfold dollar_quote_tag_at. destruct s as [| c [| e r]]; [done | done |].
  destruct (decide _); [done |]. destruct (decide _); [intros <-%some_inj; cbn; lia |]. destruct (_ || _); [| done].
  destruct (decide _); [| done]. intros <-%some_inj. cbn. lia.
Qed.
Lemma append_text_fuel fuel s r : length s ≤ fuel → append_sql_target_safety_text fuel s r = append_sql_target_safety_text (length s) s r.
Proof.
  revert s r. induction fuel as [fuel IH] using lt_wf_ind. intros s r Hf. destruct s as [| c rest]; [by destruct fuel |].
  destruct fuel as [| fuel]; [cbn in Hf; lia |]. cbn [length] in Hf |- *. cbn [append_sql_target_safety_text].
  assert (∀ n t x, n ≤ fuel → length t ≤ n → append_sql_target_safety_text n t x = append_sql_target_safety_text (length t) t x) as IH'
    by (intros n t x Hn Ht; apply IH; lia).
  assert (∀ t x, length t ≤ length rest → append_sql_target_safety_text fuel t x = append_sql_target_safety_text (length rest) t x) as Hstep.
  { intros t x Ht. by rewrite (IH' fuel), (IH' (length rest)) by lia. }
  destruct (decide (c = chr "-" ∧ _)); [apply Hstep; etrans; [apply drop_while_length | rewrite length_drop; lia] |].
  destruct (decide (c = chr "#")); [apply Hstep, drop_while_length |].
  destruct (decide (c = chr "/" ∧ _)).
  { destruct (mysql_executable_comment_body _) as [[body tail] |] eqn:E.
    - apply executable_length in E. cbn [length] in E. by rewrite (Hstep body), (Hstep tail) by lia.
    - apply Hstep. etrans; [apply after_block_length | rewrite length_drop; lia]. }
  destruct (dollar_quote_tag_at _) as [tag |] eqn:E.
  { apply tag_length in E. apply Hstep. etrans; [apply after_tag_length | rewrite length_drop; cbn; lia]. }
  destruct (decide (c = SQUOTE)); [apply Hstep, skip_string_length |].
  destruct (decide (_ ∨ _)); [| by apply Hstep]. unfold append_quoted_identifier_token.
  pose proof (quoted_identifier_length (if decide (c = chr "[") then chr "]" else c) rest) as Hq.
  destruct (quoted_identifier _ _) as [name tail]. by apply Hstep.
Qed.

(** ** What is kept of a text

    A script as its author sees it: code, names between quotes, literals and
    comments. *)
(** A literal is read with doubled quotes and backslash escapes. *)
Inductive unit_of_literal := UChar (c : char) | UQuote | UEscape (c : char).
Inductive piece :=
| PText (s : str)
| PName (opening : char) (name : str)
| PString (us : list unit_of_literal)
| PDollar (name body : str)
| PLine (s : str)
| PHash (s : str)
| PBlock (s : str)
| PRun (mariadb : bool) (version body : str).
(** A character of code, by the one that follows: none that opens a quoted text or a comment. *)
Definition code_char (c : char) (next : option char) : bool :=
  bool_decide (c ∉ [chr "#"; SQUOTE; DQUOTE; BACKTICK; chr "["])
  && negb (bool_decide (c = chr "-" ∧ next = Some (chr "-"))) && negb (bool_decide (c = chr "/" ∧ next = Some (chr "*")))
  && match next with
     | Some n => negb (bool_decide (c = chr "$") && (bool_decide (n = chr "$" ∨ n = chr "_") || is_ascii_alphabetic n))
     | None => true
     end.
Fixpoint is_code (s rest : str) : bool :=
  match s with [] => true | c :: t => code_char c (head (t ++ rest)) && is_code t rest end.
Definition closing_of (opening : char) : char := if decide (opening = chr "[") then chr "]" else opening.
Definition doubled (q : char) (s : str) : str := s ≫= λ c, if decide (c = q) then [q; q] else [c].
Definition print_unit (u : unit_of_literal) : str :=
  match u with UChar c => [c] | UQuote => [SQUOTE; SQUOTE] | UEscape c => [BACKSLASH; c] end.
Definition dollar_tag (name : str) : str := chr "$" :: name ++ [chr "$"].
Definition print_piece (p : piece) : str :=
  match p with
  | PText s => s
  | PName o name => o :: doubled (closing_of o) name ++ [closing_of o]
  | PString us => SQUOTE :: (us ≫= print_unit) ++ [SQUOTE]
  | PDollar name body => dollar_tag name ++ body ++ dollar_tag name
  | PLine s => lit "--" ++ s
  | PHash s => chr "#" :: s
  | PBlock s => lit "/*" ++ s ++ lit "*/"
  | PRun mariadb version body => lit "/*" ++ (if mariadb then lit "M!" else lit "!") ++ version ++ body ++ lit "*/"
  end.
Definition print_pieces (ps : list piece) : str := ps ≫= print_piece.
Definition version_char (c : char) : bool := is_ascii_digit c || is_whitespace c.
(** The tag does not come up before its end. *)
Fixpoint tag_free (tag body : str) : Prop :=
  match body with [] => True | _ :: t => strip_prefix tag (body ++ tag) = None ∧ tag_free tag t end.
Definition ends_line (rest : str) : Prop := match rest with [] => True | c :: _ => in_line c = false end.
Definition piece_ok (p : piece) (rest : str) : Prop :=
  match p with
  | PText s => is_code s rest = true
  | PName o _ => o ∈ [DQUOTE; BACKTICK; chr "["] ∧ head rest ≠ Some (closing_of o)
  | PString us => (∀ c, UChar c ∈ us → c ≠ SQUOTE ∧ c ≠ BACKSLASH) ∧ head rest ≠ Some SQUOTE
  | PDollar name body =>
      match name with [] => True | c :: r => is_ascii_alphabetic c || bool_decide (c = chr "_") = true ∧ forallb tag_char r = true end ∧
      tag_free (dollar_tag name) body
  | PLine s | PHash s => forallb in_line s = true ∧ ends_line rest
  | PBlock s => head s ≠ Some (chr "!") ∧ take 2 s ≠ lit "M!" ∧ str_contains (lit "*/") s = false
  | PRun _ version body =>
      forallb version_char version = true ∧ (∀ c, head body = Some c → version_char c = false) ∧
      str_contains (lit "*/") body = false ∧ is_code body [] = true
  end.
Fixpoint pieces_ok (ps : list piece) : Prop :=
  match ps with [] => True | p :: rest => piece_ok p (print_pieces rest) ∧ pieces_ok rest end.
(** What the check sees, where [n] quoted names came before. *)
Fixpoint seen_text (n : nat) (ps : list piece) : str :=
  match ps with
  | [] => []
  | PText s :: rest => s ++ seen_text n rest
  | PName _ _ :: rest => [SPACE] ++ quoted_token n ++ [SPACE] ++ seen_text (S n) rest
  | PRun _ _ body :: rest => [SPACE] ++ body ++ [SPACE] ++ seen_text n rest
  | _ :: rest => SPACE :: seen_text n rest
  end.
Definition seen_name (name : str) : str := (λ c, if decide (c = chr ";") then SPACE else c) <$> name.
Definition names_of (ps : list piece) : list str := omap (λ p, match p with PName _ name => Some (seen_name name) | _ => None end) ps.
Definition token_map (names : list str) : gmap str str := list_to_map (imap (λ i name, (quoted_token i, name)) names).

Lemma quoted_token_inj i j : quoted_token i = quoted_token j → i = j.
Proof. unfold quoted_token. intros H%app_inv_head%app_inv_tail. by apply show_nat_inj. Qed.
Lemma ascii_lower_digit c : is_ascii_digit c = true → ascii_lower c = c.
Proof. unfold is_ascii_digit, ascii_lower, is_ascii_uppercase. rewrite bool_decide_eq_true. intros H. rewrite bool_decide_eq_false_2; [done | lia]. Qed.
Lemma lower_digits s : forallb is_ascii_digit s = true → to_ascii_lowercase s = s.
Proof.
  induction s as [| c s IH]; [done |]. cbn [forallb]. intros [Hc Hs]%andb_true_iff. unfold to_ascii_lowercase in *. cbn [fmap list_fmap].
  by rewrite IH, ascii_lower_digit.
Qed.
Lemma token_lower n : to_ascii_lowercase (quoted_token n) = quoted_token n.
Proof.
  unfold quoted_token. unfold to_ascii_lowercase. rewrite !fmap_app. f_equal. f_equal.
  apply lower_digits. apply show_N_digits.
Qed.
Lemma token_fresh (names : list str) n : length names ≤ n → quoted_token n ∉ (imap (λ i (name : str), (quoted_token i, name)) names).*1.
Proof.
  intros Hn Hin. apply list_elem_of_fmap in Hin as ([k name] & Hkey & Hin). cbn in Hkey. subst k. apply list_elem_of_lookup in Hin as [i Hi].
  rewrite list_lookup_imap in Hi. destruct (names !! i) as [x |] eqn:E; [| done]. apply lookup_lt_Some in E. cbn [fmap option_fmap option_map] in Hi.
  apply some_inj in Hi. apply (f_equal fst), quoted_token_inj in Hi. lia.
Qed.
Lemma token_map_snoc names name : token_map (names ++ [name]) = <[quoted_token (length names) := name]> (token_map names).
Proof.
  unfold token_map. rewrite imap_app. cbn [imap]. rewrite Nat.add_0_r. apply list_to_map_snoc. by apply token_fresh.
Qed.
Lemma token_map_lookup names i : token_map names !! quoted_token i = names !! i.
Proof.
  induction names as [| name names IH] using rev_ind; [done |]. rewrite token_map_snoc.
  destruct (decide (i = length names)) as [-> | Hi].
  - rewrite lookup_insert_eq. symmetry. apply list_lookup_middle. done.
  - rewrite lookup_insert_ne by (intros H%quoted_token_inj; done). rewrite IH. destruct (decide (i < length names)).
    + by rewrite lookup_app_l.
    + rewrite !lookup_ge_None_2; [done | rewrite length_app; cbn; lia | lia].
Qed.
Lemma token_map_size names : size (token_map names) = length names.
Proof.
  induction names as [| name names IH] using rev_ind; [done |]. rewrite token_map_snoc, map_size_insert_None, IH, length_app; [cbn; lia |].
  rewrite token_map_lookup. by apply lookup_ge_None_2.
Qed.

(** The rest of the text is read after each piece. *)
Definition read_text (s : str) (r : SqlTargetSafetyText) : SqlTargetSafetyText := append_sql_target_safety_text (length s) s r.
Lemma read_cons c rest r :
  read_text (c :: rest) r =
  (if decide (c = chr "-" ∧ head rest = Some (chr "-")) then read_text (drop_while in_line (drop 1 rest)) (push_text [SPACE] r)
   else if decide (c = chr "#") then read_text (drop_while in_line rest) (push_text [SPACE] r)
   else if decide (c = chr "/" ∧ head rest = Some (chr "*")) then
     match mysql_executable_comment_body (c :: rest) with
     | Some (body, tail) => read_text tail (push_text [SPACE] (read_text body (push_text [SPACE] r)))
     | None => read_text (after_block (drop 1 rest)) (push_text [SPACE] r)
     end
   else match dollar_quote_tag_at (c :: rest) with
        | Some tag => read_text (after_tag tag (drop (length tag) (c :: rest))) (push_text [SPACE] r)
        | None =>
            if decide (c = SQUOTE) then read_text (skip_string_literal SQUOTE SQUOTE rest) (push_text [SPACE] r)
            else if decide (c = DQUOTE ∨ c = BACKTICK ∨ c = chr "[") then
              let (r', tail) := append_quoted_identifier_token (closing_of c) rest r in read_text tail r'
            else read_text rest (push_text [c] r)
        end).
Proof.
  unfold read_text. cbn [length append_sql_target_safety_text].
  destruct (decide (c = chr "-" ∧ _)); [apply append_text_fuel; etrans; [apply drop_while_length | rewrite length_drop; lia] |].
  destruct (decide (c = chr "#")); [apply append_text_fuel, drop_while_length |].
  destruct (decide (c = chr "/" ∧ _)).
  { destruct (mysql_executable_comment_body _) as [[body tail] |] eqn:E.
    - apply executable_length in E. cbn [length] in E. by rewrite (append_text_fuel _ body), (append_text_fuel _ tail) by lia.
    - apply append_text_fuel. etrans; [apply after_block_length | rewrite length_drop; lia]. }
  destruct (dollar_quote_tag_at _) as [tag |] eqn:E.
  { apply tag_length in E. apply append_text_fuel. etrans; [apply after_tag_length | rewrite length_drop; cbn; lia]. }
  destruct (decide (c = SQUOTE)); [apply append_text_fuel, skip_string_length |].
  destruct (decide (_ ∨ _)); [| by apply append_text_fuel]. unfold append_quoted_identifier_token, closing_of.
  pose proof (quoted_identifier_length (if decide (c = chr "[") then chr "]" else c) rest) as Hq.
  destruct (quoted_identifier _ _) as [name tail]. by apply append_text_fuel.
Qed.
Lemma no_dollar_tag c rest : c ≠ chr "$" → dollar_quote_tag_at (c :: rest) = None.
Proof. intros Hc. destruct rest; cbn [dollar_quote_tag_at]; [done |]. by rewrite decide_True. Qed.
Lemma code_no_tag c rest : code_char c (head rest) = true → dollar_quote_tag_at (c :: rest) = None.
Proof.
  unfold code_char. destruct rest as [| n rest]; [done |]. cbn [head]. intros [_ Hn]%andb_true_iff. cbn [dollar_quote_tag_at].
  destruct (decide (c ≠ chr "$")) as [| Hc]; [done |]. apply dec_stable in Hc. rewrite bool_decide_eq_true_2, andb_true_l in Hn by done.
  apply negb_true_iff, orb_false_iff in Hn as [Hn Ha]. apply bool_decide_eq_false in Hn.
  rewrite decide_False, Ha, bool_decide_eq_false_2 by tauto. done.
Qed.

Lemma push_text_app a b r : push_text b (push_text a r) = push_text (a ++ b) r.
Proof. unfold push_text. cbn. by rewrite app_assoc. Qed.
Lemma push_text_nil r : push_text [] r = r.
Proof. unfold push_text. rewrite app_nil_r. by destruct r. Qed.

Lemma read_code s rest r : is_code s rest = true → read_text (s ++ rest) r = read_text rest (push_text s r).
Proof.
  revert r. induction s as [| c s IH]; intros r; [by rewrite push_text_nil |]. cbn [is_code app]. intros [Hc Hs]%andb_true_iff.
  pose proof (code_no_tag _ _ Hc) as Ht. unfold code_char in Hc. rewrite !andb_true_iff, !negb_true_iff, !bool_decide_eq_false in Hc.
  destruct Hc as [[[Hq%bool_decide_eq_true Hm] Hb] _].
  rewrite read_cons, (decide_False (P := c = chr "-" ∧ _)), (decide_False (P := c = chr "#")), (decide_False (P := c = chr "/" ∧ _)), Ht,
    (decide_False (P := c = SQUOTE)), decide_False by (first [done | set_solver]).
  by rewrite IH, push_text_app by done.
Qed.

Lemma read_name o name rest r :
  o ∈ [DQUOTE; BACKTICK; chr "["] → head rest ≠ Some (closing_of o) →
  read_text (o :: doubled (closing_of o) name ++ closing_of o :: rest) r =
  read_text rest {| safety_text := safety_text r ++ [SPACE] ++ quoted_token (size (quoted_identifiers r)) ++ [SPACE];
                    quoted_identifiers := <[quoted_token (size (quoted_identifiers r)) := seen_name name]> (quoted_identifiers r) |}.
Proof.
  intros Ho Hrest.
  assert (quoted_identifier (closing_of o) (doubled (closing_of o) name ++ closing_of o :: rest) = (seen_name name, rest)) as Hq.
  { assert (closing_of o ≠ chr ";") as Hsemi by (unfold closing_of; case_decide; set_solver).
    set (q := closing_of o) in *. clearbody q. clear Ho. induction name as [| c name IH].
    - cbn [doubled mbind list_bind app]. rewrite quoted_identifier_step, decide_True by done. destruct rest as [| e rest]; [done |].
      rewrite decide_False; [done |]. intros ->. by apply Hrest.
    - change (doubled q (c :: name)) with ((if decide (c = q) then [q; q] else [c]) ++ doubled q name). destruct (decide (c = q)) as [-> | Hc]; cbn [app].
      + rewrite quoted_identifier_step, !decide_True by done. rewrite IH. unfold seen_name. cbn [fmap list_fmap]. by rewrite decide_False.
      + rewrite quoted_identifier_step, decide_False by done. by rewrite IH. }
  rewrite read_cons.
  assert (c_ne : ∀ x, x ∉ [DQUOTE; BACKTICK; chr "["] → o ≠ x) by (by intros x Hx ->).
  rewrite (decide_False (P := o = chr "-" ∧ _)) by (intros [? _]; by eapply (c_ne (chr "-")); [apply (bool_decide_unpack _) |]).
  rewrite (decide_False (P := o = chr "#")) by (by apply c_ne, (bool_decide_unpack _)).
  rewrite (decide_False (P := o = chr "/" ∧ _)) by (intros [? _]; by eapply (c_ne (chr "/")); [apply (bool_decide_unpack _) |]).
  rewrite no_dollar_tag by (by apply c_ne, (bool_decide_unpack _)). rewrite (decide_False (P := o = SQUOTE)) by (by apply c_ne, (bool_decide_unpack _)).
  rewrite decide_True by set_solver. unfold append_quoted_identifier_token. rewrite Hq, token_lower. done.
Qed.
Lemma read_string us rest r :
  (∀ c, UChar c ∈ us → c ≠ SQUOTE ∧ c ≠ BACKSLASH) → head rest ≠ Some SQUOTE →
  read_text (SQUOTE :: (us ≫= print_unit) ++ SQUOTE :: rest) r = read_text rest (push_text [SPACE] r).
Proof.
  intros Hs Hrest. rewrite read_cons, !decide_False, no_dollar_tag, decide_True by (first [done | by intros [? _]]). f_equal.
  induction us as [| u us IH].
  - cbn [mbind list_bind app]. rewrite skip_string_step, decide_False, decide_True by (first [done | by intros [? _]]).
    destruct rest as [| e rest]; [done |]. rewrite decide_False; [done |]. intros ->. by apply Hrest.
  - rewrite bind_cons, <- app_assoc. specialize (IH (λ c Hc, Hs c (list_elem_of_further _ _ _ Hc))). destruct u as [c | | c]; cbn [print_unit app].
    + destruct (Hs c (list_elem_of_here _ _)) as [H1 H2]. rewrite skip_string_step, !decide_False by (first [done | by intros [? _]]). exact IH.
    + rewrite skip_string_step, decide_False, decide_True, decide_True by (first [done | by intros [? _]]). exact IH.
    + rewrite skip_string_step, decide_True by auto. exact IH.
Qed.
Lemma strip_prefix_longer p a b : strip_prefix p (a ++ p) = None → strip_prefix p (a ++ p ++ b) = None.
Proof.
  intros Hn. destruct (strip_prefix p (a ++ p ++ b)) as [t |] eqn:E; [| done]. exfalso. apply strip_prefix_Some in E.
  assert (take (length p) (a ++ p) = p) as Ht.
  { apply (f_equal (take (length p))) in E. rewrite take_app_length, app_assoc, take_app_le in E; [done |]. rewrite length_app. lia. }
  assert (strip_prefix p (a ++ p) = Some (drop (length p) (a ++ p))) as Hs; [| congruence].
  apply strip_prefix_Some. rewrite <- Ht at 2. by rewrite take_drop.
Qed.
Lemma after_tag_end tag body rest : tag ≠ [] → tag_free tag body → after_tag tag (body ++ tag ++ rest) = rest.
Proof.
  intros Hne. assert (∀ s, after_tag tag s = match strip_prefix tag s with Some r => r | None => match s with [] => [] | _ :: t => after_tag tag t end end) as Hstep
    by (by intros []).
  induction body as [| c body IH]; intros Hf; rewrite Hstep.
  - cbn [app]. by rewrite strip_prefix_app.
  - destruct Hf as [Hn Hf]. rewrite strip_prefix_longer by done. cbn [app]. by apply IH.
Qed.
Lemma while_app (f : char → bool) s c rest : forallb f s = true → f c = false → drop_while f (s ++ c :: rest) = c :: rest ∧ take_while f (s ++ c :: rest) = s.
Proof.
  induction s as [| x s IH]; cbn; [intros _ ->; done |]. intros [-> Hs]%andb_true_iff Hc. destruct (IH Hs Hc) as [-> ->]. done.
Qed.
Lemma tag_at name rest :
  match name with [] => True | c :: r => is_ascii_alphabetic c || bool_decide (c = chr "_") = true ∧ forallb tag_char r = true end →
  dollar_quote_tag_at (dollar_tag name ++ rest) = Some (dollar_tag name).
Proof.
  unfold dollar_tag. destruct name as [| c name]; [done |]. intros [Hc Hn]. cbn [app dollar_quote_tag_at].
  rewrite decide_False by (intros H; by apply H). rewrite decide_False by (intros ->; done). rewrite Hc.
  destruct (while_app tag_char name (chr "$") rest Hn eq_refl) as [Hd Ht]. rewrite <- app_assoc. cbn [app]. rewrite Hd, Ht. by rewrite decide_True.
Qed.
Lemma read_dollar name body rest r :
  match name with [] => True | c :: r => is_ascii_alphabetic c || bool_decide (c = chr "_") = true ∧ forallb tag_char r = true end →
  tag_free (dollar_tag name) body →
  read_text (dollar_tag name ++ body ++ dollar_tag name ++ rest) r = read_text rest (push_text [SPACE] r).
Proof.
  intros Hn Hf. pose proof (tag_at name (body ++ dollar_tag name ++ rest) Hn) as Ht.
  assert (∃ t, dollar_tag name ++ body ++ dollar_tag name ++ rest = chr "$" :: t) as [t E] by (by eexists).
  rewrite E, read_cons, !decide_False by (first [done | by intros [? _]]). rewrite <- E, Ht. f_equal.
  rewrite drop_app_length. by apply after_tag_end.
Qed.
Lemma drop_line s rest : forallb in_line s = true → ends_line rest → drop_while in_line (s ++ rest) = rest.
Proof.
  intros Hs Hrest. induction s as [| c s IH]; cbn [app].
  - destruct rest as [| c rest]; [done |]. by apply drop_while_fixed.
  - cbn [forallb] in Hs. apply andb_true_iff in Hs as [Hc Hs].
    change (drop_while in_line (c :: s ++ rest)) with (if in_line c then drop_while in_line (s ++ rest) else c :: s ++ rest). rewrite Hc. by apply IH.
Qed.
Lemma read_line s rest r :
  forallb in_line s = true → ends_line rest → read_text (lit "--" ++ s ++ rest) r = read_text rest (push_text [SPACE] r).
Proof.
  intros Hs Hrest. change (lit "--" ++ s ++ rest) with (chr "-" :: chr "-" :: s ++ rest). rewrite read_cons, decide_True by done.
  change (drop 1 (chr "-" :: s ++ rest)) with (s ++ rest). by rewrite drop_line.
Qed.
Lemma read_hash s rest r :
  forallb in_line s = true → ends_line rest → read_text (chr "#" :: s ++ rest) r = read_text rest (push_text [SPACE] r).
Proof. intros Hs Hrest. rewrite read_cons, decide_False, decide_True by (first [done | by intros [? _]]). by rewrite drop_line. Qed.
Lemma after_block_step c e t :
  after_block (c :: e :: t) = if decide (c = chr "*" ∧ e = chr "/") then t else after_block (e :: t).
Proof. done. Qed.
Lemma split_once_none p c s : split_once p (c :: s) = None → strip_prefix p (c :: s) = None ∧ split_once p s = None.
Proof. cbn [split_once]. destruct (strip_prefix p (c :: s)); [done |]. by destruct (split_once p s) as [[] |]. Qed.
Lemma after_block_end s rest : split_once (lit "*/") s = None → after_block (s ++ lit "*/" ++ rest) = rest.
Proof.
  induction s as [| c s IH]; intros Hs; [done |]. apply split_once_none in Hs as [Hp Hs]. cbn [app].
  destruct (s ++ lit "*/" ++ rest) as [| e t] eqn:E; [by destruct s |]. rewrite after_block_step, decide_False; [by apply IH |].
  intros [-> ->]. destruct s as [| e' s]; [done |]. cbn [app] in E. injection E as -> _. done.
Qed.
Lemma read_block s rest r :
  head s ≠ Some (chr "!") → take 2 s ≠ lit "M!" → str_contains (lit "*/") s = false →
  read_text (lit "/*" ++ s ++ lit "*/" ++ rest) r = read_text rest (push_text [SPACE] r).
Proof.
  intros H1 H2 Hs. unfold str_contains in Hs. apply bool_decide_eq_false in Hs. rewrite <- eq_None_not_Some in Hs.
  change (lit "/*" ++ s ++ lit "*/" ++ rest) with (chr "/" :: chr "*" :: s ++ lit "*/" ++ rest).
  rewrite read_cons, !decide_False by (first [done | by intros [? _]]). rewrite decide_True by done.
  assert (mysql_executable_comment_body (chr "/" :: chr "*" :: s ++ lit "*/" ++ rest) = None) as ->.
  { unfold mysql_executable_comment_body. change (chr "/" :: chr "*" :: s ++ lit "*/" ++ rest) with (lit "/*" ++ s ++ lit "*/" ++ rest).
    rewrite strip_prefix_app. cbn [mbind option_bind]. destruct s as [| c s]; [done |]. cbn [app].
    rewrite decide_False by (intros ->; by apply H1). destruct (s ++ _) as [| e t] eqn:E; [by destruct s |].
    rewrite decide_False; [done |]. intros [-> ->]. destruct s as [| e' s]; [done |]. cbn [app] in E. injection E as -> _. by apply H2. }
  change (drop 1 (chr "*" :: s ++ lit "*/" ++ rest)) with (s ++ lit "*/" ++ rest). by rewrite after_block_end.
Qed.

Lemma split_block_end s rest : split_once (lit "*/") s = None → split_block (s ++ lit "*/" ++ rest) = (s, rest).
Proof.
  induction s as [| c s IH]; intros Hs; [done |]. apply split_once_none in Hs as [Hp Hs]. cbn [app].
  destruct (s ++ lit "*/" ++ rest) as [| e t] eqn:E; [by destruct s |]. rewrite split_block_step, decide_False; [by rewrite IH |].
  intros [-> ->]. destruct s as [| e' s]; [done |]. cbn [app] in E. injection E as -> _. done.
Qed.
Lemma skip_version version body rest :
  forallb version_char version = true → (∀ c, head body = Some c → version_char c = false) →
  drop_while version_char (version ++ body ++ lit "*/" ++ rest) = body ++ lit "*/" ++ rest.
Proof.
  intros Hv Hb. assert (∃ c t, body ++ lit "*/" ++ rest = c :: t ∧ version_char c = false) as (c & t & -> & Hc).
  { destruct body as [| c body]; [by exists (chr "*"), (chr "/" :: rest) |]. exists c, (body ++ lit "*/" ++ rest). split; [done | by apply Hb]. }
  by apply while_app.
Qed.
Lemma read_run (mariadb : bool) version body rest r :
  forallb version_char version = true → (∀ c, head body = Some c → version_char c = false) → str_contains (lit "*/") body = false → is_code body [] = true →
  read_text (lit "/*" ++ (if mariadb then lit "M!" else lit "!") ++ version ++ body ++ lit "*/" ++ rest) r =
  read_text rest (push_text ([SPACE] ++ body ++ [SPACE]) r).
Proof.
  intros Hv Hh Hb Hc. unfold str_contains in Hb. apply bool_decide_eq_false in Hb. rewrite <- eq_None_not_Some in Hb.
  assert (mysql_executable_comment_body (lit "/*" ++ (if mariadb then lit "M!" else lit "!") ++ version ++ body ++ lit "*/" ++ rest) = Some (body, rest)) as He.
  { unfold mysql_executable_comment_body. rewrite strip_prefix_app. cbn [mbind option_bind]. fold version_char.
    destruct mariadb.
    - change (lit "M!" ++ version ++ body ++ lit "*/" ++ rest) with (chr "M" :: chr "!" :: version ++ body ++ lit "*/" ++ rest).
      cbv beta iota. rewrite decide_False, decide_True by done. cbn [mbind option_bind]. by rewrite skip_version, split_block_end.
    - change (lit "!" ++ version ++ body ++ lit "*/" ++ rest) with (chr "!" :: version ++ body ++ lit "*/" ++ rest).
      cbv beta iota. rewrite decide_True by done. cbn [mbind option_bind]. by rewrite skip_version, split_block_end. }
  assert (∃ t, lit "/*" ++ (if mariadb then lit "M!" else lit "!") ++ version ++ body ++ lit "*/" ++ rest = chr "/" :: chr "*" :: t) as [t E] by (by eexists).
  rewrite E in *. rewrite read_cons, !decide_False by (first [done | by intros [? _]]). rewrite decide_True by done. rewrite He.
  pose proof (read_code body [] (push_text [SPACE] r) Hc) as Hcode. rewrite app_nil_r in Hcode. rewrite Hcode.
  assert (∀ x, read_text [] x = x) as -> by done. by rewrite !push_text_app.
Qed.

Lemma read_pieces ps names text :
  pieces_ok ps →
  read_text (print_pieces ps) {| safety_text := text; quoted_identifiers := token_map names |} =
  {| safety_text := text ++ seen_text (length names) ps; quoted_identifiers := token_map (names ++ names_of ps) |}.
Proof.
  revert names text. induction ps as [| p ps IH]; intros names text; [by rewrite !app_nil_r |].
  cbn [pieces_ok]. intros [Hp Hps]. change (print_pieces (p :: ps)) with (print_piece p ++ print_pieces ps).
  destruct p as [s | o name | us | name body | s | s | s | mariadb version body]; cbn [piece_ok print_piece] in *.
  - rewrite read_code by done. unfold push_text. cbn [safety_text quoted_identifiers]. rewrite IH by done. by rewrite <- app_assoc.
  - destruct Hp as [Ho Hrest]. cbn [app]. rewrite <- app_assoc. cbn [app]. rewrite read_name by done.
    cbn [safety_text quoted_identifiers]. rewrite token_map_size, <- token_map_snoc, IH by done.
    cbn [seen_text names_of omap list_omap]. rewrite length_app, Nat.add_1_r, <- !app_assoc. done.
  - destruct Hp as [Hs Hrest]. cbn [app]. rewrite <- app_assoc. cbn [app]. rewrite read_string by done.
    unfold push_text. cbn [safety_text quoted_identifiers]. rewrite IH by done. by rewrite <- app_assoc.
  - destruct Hp as [Hn Hf]. rewrite <- !app_assoc, read_dollar by done.
    unfold push_text. cbn [safety_text quoted_identifiers]. rewrite IH by done. by rewrite <- app_assoc.
  - destruct Hp as [Hs Hrest]. rewrite <- app_assoc, read_line by done.
    unfold push_text. cbn [safety_text quoted_identifiers]. rewrite IH by done. by rewrite <- app_assoc.
  - destruct Hp as [Hs Hrest]. cbn [app]. rewrite read_hash by done.
    unfold push_text. cbn [safety_text quoted_identifiers]. rewrite IH by done. by rewrite <- app_assoc.
  - destruct Hp as (H1 & H2 & Hs). rewrite <- !app_assoc, read_block by done.
    unfold push_text. cbn [safety_text quoted_identifiers]. rewrite IH by done. by rewrite <- app_assoc.
  - destruct Hp as (Hv & Hh & Hb & Hc). rewrite <- !app_assoc, read_run by done.
    unfold push_text. cbn [safety_text quoted_identifiers]. rewrite IH by done. cbn [seen_text]. by rewrite <- !app_assoc.
Qed.
Lemma ends_kept (f : char → bool) a s b : f a = false → f b = false → reverse (drop_while f (reverse (drop_while f (a :: s ++ [b])))) = a :: s ++ [b].
Proof.
  intros Ha Hb. rewrite (proj2 (drop_while_fixed f (a :: s ++ [b]))) by done. rewrite (proj2 (drop_while_fixed f _)); [apply reverse_involutive |].
  by rewrite app_comm_cons, reverse_snoc.
Qed.
Lemma token_normalized n : normalize_database_name (quoted_token n) = quoted_token n.
Proof.
  unfold normalize_database_name, trim, trim_end, trim_start.
  assert (∃ s, quoted_token n = chr "_" :: s ++ [chr "_"]) as [s E].
  { unfold quoted_token. exists (lit "_dbxq" ++ show_nat n ++ [chr "_"]). rewrite <- !app_assoc. done. }
  rewrite E, !ends_kept by done. rewrite <- E. apply token_lower.
Qed.

(** C15: For a script that is a sequence of code, names in double quotes, backticks or brackets (the
    closing quote doubled inside), literals in single quotes (with doubled quotes and backslash
    escapes), dollar-quoted strings, comments after -- and # to the end of the line, block comments
    without nesting, and comments that MySQL or MariaDB runs (with code in them): the production
    check sees exactly the code, that of the comments that run included, with a blank for each
    literal and other comment and a token for each quoted name, and the token stands for the name
    that was quoted, with blanks for semicolons. Code has no #, quotes or [, no -- and no /*, and $
    only where no letter, _ or $ follows; so # opens a comment, a backslash escapes and -- opens a
    comment also without a blank after it, in every dialect, and the claim says nothing of a dialect
    that reads them otherwise (SQL Server's #tmp, the text '\' in PostgreSQL, 5--1 in MySQL). *)
Theorem the_check_sees_code_and_names ps :
  pieces_ok ps →
  safety_text (sql_target_safety_text (print_pieces ps)) = seen_text 0 ps ∧
  ∀ i name, names_of ps !! i = Some name →
    normalize_target_database_name (quoted_token i) (quoted_identifiers (sql_target_safety_text (print_pieces ps))) = normalize_database_name name.
Proof.
  intros Hok. pose proof (read_pieces ps [] [] Hok) as Hr. unfold sql_target_safety_text.
  change {| safety_text := []; quoted_identifiers := ∅ |} with {| safety_text := []; quoted_identifiers := token_map [] |}.
  unfold read_text in Hr. rewrite Hr. cbn [safety_text quoted_identifiers app length]. split; [done |]. intros i name Hi.
  unfold normalize_target_database_name. by rewrite token_normalized, token_map_lookup, Hi.
Qed.

(** ** The verdict

    The database that statements without a qualified name refer to: the one of
    the last USE, or the one that is selected. *)
Section verdict.
Context `{Patterns, Unicode, OracleTokenizer, WordTokenizer}.
Context (d : DatabaseType.t) (quoted : gmap str str) (active_database : str).

Definition last_used (before : list str) : option str := last (omap (used_database quoted) before).
Definition database_in_force (before : list str) : str := default (normalize_database_name active_database) (last_used before).
(** What a statement adds to the databases, and to the doubts. *)
Definition adds (reads : bool) (before : list str) (statement database : str) : Prop :=
  match used_database quoted statement with
  | Some used => database = used
  | None => (is_write_sql statement = true ∨ reads = true) ∧ database ∈ statement_databases d quoted statement (database_in_force before) reads
  end.
Definition doubtful (reads : bool) (before : list str) (statement : str) : Prop :=
  used_database quoted statement = None ∧ (is_write_sql statement = true ∨ reads = true) ∧
  statement_uncertain d quoted statement (database_in_force before) reads = true.

Definition assess (reads : bool) (statements : list str) : ReferencedDatabaseAssessment :=
  fold_left (assess_statement d quoted active_database reads) statements {| databases := ∅; uncertain := false; use_database := [] |}.
Lemma used_database_non_empty statement : used_database quoted statement ≠ Some [].
Proof. unfold used_database. intros (v & _ & Hv)%bind_Some. unfold non_empty in Hv. case_decide; congruence. Qed.
Lemma assess_snoc reads statements s : assess reads (statements ++ [s]) = assess_statement d quoted active_database reads (assess reads statements) s.
Proof. unfold assess. by rewrite fold_left_app. Qed.
Lemma last_used_snoc before s : last_used (before ++ [s]) = match used_database quoted s with Some u => Some u | None => last_used before end.
Proof.
  unfold last_used. rewrite omap_app. cbn [omap list_omap]. destruct (used_database quoted s); [apply last_snoc | by rewrite app_nil_r].
Qed.
Lemma assess_use reads statements : use_database (assess reads statements) = default [] (last_used statements).
Proof.
  induction statements as [| s statements IH] using rev_ind; [done |]. rewrite assess_snoc, last_used_snoc. unfold assess_statement.
  destruct (used_database quoted s); [done |]. by destruct (_ && _).
Qed.
Lemma last_used_non_empty before : last_used before ≠ Some [].
Proof.
  induction before as [| s before IH] using rev_ind; [done |]. rewrite last_used_snoc.
  destruct (used_database quoted s) as [u |] eqn:E; [| done]. intros [= ->]. by apply used_database_non_empty in E.
Qed.
Lemma in_force reads statements :
  (if decide (use_database (assess reads statements) = []) then normalize_database_name active_database else use_database (assess reads statements))
  = database_in_force statements.
Proof.
  rewrite assess_use. unfold database_in_force. pose proof (last_used_non_empty statements) as Hn.
  destruct (last_used statements) as [u |]; [| done]. cbn [default from_option id]. rewrite decide_False; [done |]. by intros ->.
Qed.
Lemma split_snoc {A} (l : list A) s before x after :
  l ++ [s] = before ++ x :: after ↔ (after = [] ∧ l = before ∧ s = x) ∨ ∃ after', after = after' ++ [s] ∧ l = before ++ x :: after'.
Proof.
  split.
  - destruct after as [| a after _] using rev_ind; intros E.
    + apply app_inj_tail in E as [-> ->]. by left.
    + rewrite app_comm_cons, app_assoc in E. apply app_inj_tail in E as [-> ->]. right. by exists after.
  - intros [(-> & -> & ->) | (after' & -> & ->)]; [done |]. by rewrite <- app_assoc.
Qed.
Lemma elem_of_assess reads statements database :
  database ∈ databases (assess reads statements) ↔ ∃ before s after, statements = before ++ s :: after ∧ adds reads before s database.
Proof.
  induction statements as [| s statements IH] using rev_ind.
  { split; [set_solver |]. by intros ([] & ? & ? & ? & _). }
  rewrite assess_snoc. unfold assess_statement. rewrite in_force.
  assert ((∃ before x after, statements ++ [s] = before ++ x :: after ∧ adds reads before x database) ↔
          adds reads statements s database ∨ database ∈ databases (assess reads statements)) as ->.
  { rewrite IH. split.
    - intros (before & x & after & E & Ha). apply split_snoc in E as [(-> & -> & ->) | (after' & -> & ->)]; [by left | right; by exists before, x, after'].
    - intros [Ha | (before & x & after & -> & Ha)]; [by exists statements, s, [] |]. exists before, x, (after ++ [s]). by rewrite <- app_assoc. }
  unfold adds. destruct (used_database quoted s) as [u |]; [cbn [databases]; set_solver |].
  destruct (is_write_sql s), reads; cbn [negb andb databases]; set_solver.
Qed.
Lemma assess_uncertain reads statements :
  uncertain (assess reads statements) = true ↔ ∃ before s after, statements = before ++ s :: after ∧ doubtful reads before s.
Proof.
  induction statements as [| s statements IH] using rev_ind.
  { split; [done |]. by intros ([] & ? & ? & ? & _). }
  rewrite assess_snoc. unfold assess_statement. rewrite in_force.
  assert ((∃ before x after, statements ++ [s] = before ++ x :: after ∧ doubtful reads before x) ↔
          doubtful reads statements s ∨ uncertain (assess reads statements) = true) as ->.
  { rewrite IH. split.
    - intros (before & x & after & E & Ha). apply split_snoc in E as [(-> & -> & ->) | (after' & -> & ->)]; [by left | right; by exists before, x, after'].
    - intros [Ha | (before & x & after & -> & Ha)]; [by exists statements, s, [] |]. exists before, x, (after ++ [s]). by rewrite <- app_assoc. }
  unfold doubtful. destruct (used_database quoted s) as [u |]; [cbn [uncertain]; naive_solver |].
  destruct (is_write_sql s), reads; cbn [negb andb uncertain]; rewrite ?orb_true_iff; naive_solver.
Qed.
End verdict.

(** ** Which databases a statement names

    The names that the patterns find: the tables of queries and changes, the
    objects of DDL, both names of a renamed table, and so on. *)
Section names.
Context `{Patterns, Unicode, OracleTokenizer, WordTokenizer}.

Inductive Target (s : str) : str → Prop :=
| target_table capture name : capture ∈ captures_iter DML_TARGET_RE s → group 1 capture = Some name → Target s name
| target_apply capture name : capture ∈ captures_iter APPLY_TARGET_RE s → group 1 capture = Some name → Target s name
| target_object capture name : capture ∈ captures_iter DDL_OBJECT_TARGET_RE s → group 1 capture = Some name → Target s name
| target_index_on capture name : capture ∈ captures_iter INDEX_ON_TARGET_RE s → group 1 capture = Some name → Target s name
| target_truncate capture name : capture ∈ captures_iter TRUNCATE_TARGET_RE s → group 1 capture = Some name → Target s name
| target_maintenance capture name : capture ∈ captures_iter MAINTENANCE_TABLE_TARGET_RE s → group 1 capture = Some name → Target s name
| target_comment capture name : capture ∈ captures_iter COMMENT_TARGET_RE s → group 1 capture = Some name → Target s name
| target_routine capture name : capture ∈ captures_iter ROUTINE_CALL_TARGET_RE s → group 1 capture = Some name → Target s name
| target_privilege capture name : capture ∈ captures_iter PRIVILEGE_TARGET_RE s → group 1 capture = Some name → Target s name
| target_old_name capture name : capture ∈ captures_iter RENAME_TABLE_TARGET_RE s → group 1 capture = Some name → Target s name
| target_new_name capture name : capture ∈ captures_iter RENAME_TABLE_TARGET_RE s → group 2 capture = Some name → Target s name
| target_copy capture name : head (captures_iter COPY_TARGET_RE s) = Some capture → group 1 capture = Some name → Target s name.

(** With how many parts a name begins with a database: never where it begins
    with a schema. *)
Definition database_parts (d : DatabaseType.t) : option nat :=
  match d with
  | DatabaseType.SqlServer | DatabaseType.Snowflake | DatabaseType.Trino | DatabaseType.PrestoSql | DatabaseType.Databricks
  | DatabaseType.Bigquery => Some 3
  | DatabaseType.Postgres | DatabaseType.Redshift | DatabaseType.Gaussdb | DatabaseType.Kwdb | DatabaseType.OpenGauss | DatabaseType.Kingbase
  | DatabaseType.Highgo | DatabaseType.Uxdb | DatabaseType.Vastbase | DatabaseType.Yashandb | DatabaseType.Oracle | DatabaseType.OceanbaseOracle
  | DatabaseType.Dameng | DatabaseType.Firebird | DatabaseType.Exasol | DatabaseType.Teradata | DatabaseType.Vertica | DatabaseType.Db2
  | DatabaseType.Informix | DatabaseType.H2 | DatabaseType.Iris | DatabaseType.Xugu | DatabaseType.Oscar | DatabaseType.Gbase
  | DatabaseType.SapHana | DatabaseType.Spanner => None
  | _ => Some 2
  end.
(** The database that a name without empty parts refers to, where [current] is
    selected; the first of the four parts of SQL Server is a linked server. *)
Inductive Refers (d : DatabaseType.t) (quoted : gmap str str) (current : str) (name : str) : str → Prop :=
| refers_selected part : split_char (chr ".") name = [part] → normalize_target_database_name part quoted ≠ [] → current ≠ [] →
    Refers d quoted current name current
| refers_by_schema parts : split_char (chr ".") name = parts → Forall (λ p, normalize_target_database_name p quoted ≠ []) parts → 2 ≤ length parts →
    current ≠ [] → (database_parts d = None ∨ ∃ k, database_parts d = Some k ∧ length parts < k) → Refers d quoted current name current
| refers_first first rest k : split_char (chr ".") name = first :: rest →
    Forall (λ p, normalize_target_database_name p quoted ≠ []) (first :: rest) → database_parts d = Some k → k ≤ length (first :: rest) →
    (d = DatabaseType.SqlServer → length rest < 3) → Refers d quoted current name (normalize_target_database_name first quoted)
| refers_linked server database rest : d = DatabaseType.SqlServer → split_char (chr ".") name = server :: database :: rest →
    Forall (λ p, normalize_target_database_name p quoted ≠ []) (server :: database :: rest) → 2 ≤ length rest →
    Refers d quoted current name (normalize_target_database_name database quoted).
(** Databases that are named as such, by DDL and by privileges. *)
Inductive NamedDatabase (d : DatabaseType.t) (quoted : gmap str str) (s : str) : str → Prop :=
| named_by_ddl capture kind name : capture ∈ captures_iter DATABASE_TARGET_RE s → group 1 capture = Some kind → group 2 capture = Some name →
    to_ascii_lowercase kind ∈ [lit "database"; lit "catalog"] ∨ to_ascii_lowercase kind = lit "schema" ∧ database_parts d = Some 2 →
    normalize_target_database_name name quoted ≠ [] → NamedDatabase d quoted s (normalize_target_database_name name quoted)
| named_by_privilege capture name : capture ∈ captures_iter PRIVILEGE_DATABASE_TARGET_RE s → group 1 capture = Some name →
    normalize_target_database_name name quoted ≠ [] → NamedDatabase d quoted s (normalize_target_database_name name quoted).

Lemma first_part_spec d n : 2 ≤ n →
  qualified_first_part_is_database d n = match database_parts d with Some k => bool_decide (k ≤ n) | None => false end.
Proof.
  intros Hn. unfold qualified_first_part_is_database, schema_first_qualifier_type.
  rewrite (bool_decide_eq_true_2 (2 ≤ n)) by done. destruct d; cbn [database_parts];
    match goal with |- context [is_any_db ?l ?x] => let v := eval vm_compute in (is_any_db l x) in change (is_any_db l x) with v end; rewrite ?andb_false_r, ?andb_true_r;
    repeat match goal with |- context [is_any_db ?l ?x] => let v := eval vm_compute in (is_any_db l x) in change (is_any_db l x) with v end;
    try done; destruct (bool_decide (3 ≤ n)) eqn:E; rewrite ?(bool_decide_eq_true_2 (2 ≤ n)) by done; done.
Qed.
Lemma schema_first_spec d : schema_first_qualifier_type d = negb (bool_decide (database_parts d = Some 2)).
Proof. by destruct d; vm_compute. Qed.
Lemma omap_total (f : str → option str) (g : str → str) (l : list str) : (∀ x, x ∈ l → f x = Some (g x)) → omap f l = g <$> l.
Proof.
  induction l as [| x l IH]; [done |]. intros Hf. cbn [omap list_omap fmap list_fmap]. rewrite (Hf x) by left. f_equal.
  apply IH. intros y Hy. apply Hf. by right.
Qed.
Lemma named_parts quoted parts :
  Forall (λ p, normalize_target_database_name p quoted ≠ []) parts →
  omap (λ part, non_empty (normalize_target_database_name part quoted)) parts = (λ p, normalize_target_database_name p quoted) <$> parts.
Proof.
  intros Hp. apply omap_total. intros x Hx. rewrite Forall_forall in Hp. unfold non_empty. by rewrite decide_False by by apply Hp.
Qed.
Lemma refers_database d quoted current name database :
  Refers d quoted current name database → database ≠ [] ∧ database_from_qualified_name name d quoted current = Some database.
Proof.
  unfold database_from_qualified_name. intros Hr.
  destruct Hr as [part Hs Hp Hc | parts Hs Hp Hl Hc Hd | first rest k Hs Hp Hd Hl Hsql | server database rest -> Hs Hp Hl]; rewrite Hs.
  - rewrite named_parts by (by constructor). rewrite decide_True by (cbn; lia). unfold non_empty. by rewrite decide_False.
  - rewrite named_parts, length_fmap by done. rewrite decide_False by lia. unfold non_empty.
    assert (qualified_first_part_is_database d (length parts) = false) as ->.
    { rewrite first_part_spec by done. destruct Hd as [-> | (k & -> & Hk)]; [done |]. apply bool_decide_eq_false. lia. }
    rewrite (decide_False (P := current = [])) by done.
    destruct (decide (d = _ ∧ _)) as [[-> H4] |]; [| done]. destruct Hd as [Hd | (k & Hd & Hk)]; [done |]. injection Hd as <-. lia.
  - rewrite named_parts, length_fmap by done. assert (2 ≤ k) as Hk by (destruct d; cbn in Hd; simplify_eq; lia).
    rewrite decide_False by lia. rewrite decide_False by (intros [-> H4]; specialize (Hsql eq_refl); cbn in H4; lia).
    rewrite first_part_spec, Hd, bool_decide_eq_true_2 by lia. apply Forall_inv in Hp. done.
  - rewrite named_parts, length_fmap by done. rewrite decide_False by (cbn; lia). rewrite decide_True by (split; [done | cbn; lia]).
    apply Forall_inv_tail, Forall_inv in Hp. done.
Qed.
Lemma collected d quoted s current pattern indexes capture i name database :
  capture ∈ captures_iter pattern s → i ∈ indexes → group i capture = Some name → Refers d quoted current name database →
  database ∈ collect_qualified_target_database_groups d quoted s current pattern indexes.
Proof.
  intros Hc Hi Hg [Hne Hr]%refers_database. unfold collect_qualified_target_database_groups. apply elem_of_list_to_set, list_elem_of_bind.
  exists capture. split; [| done]. apply list_elem_of_omap. exists i. split; [done |]. rewrite Hg. cbn [mbind option_bind]. rewrite Hr. cbn [mbind option_bind].
  unfold non_empty. by rewrite decide_False.
Qed.
Lemma collected_list d quoted s current patterns pattern capture name database :
  pattern ∈ patterns → capture ∈ captures_iter pattern s → group 1 capture = Some name → Refers d quoted current name database →
  database ∈ collect_qualified_target_databases d quoted s current patterns.
Proof.
  intros Hp Hc Hg Hr. unfold collect_qualified_target_databases. apply elem_of_union_list.
  exists (collect_qualified_target_database_groups d quoted s current pattern [1]). split; [by apply list_elem_of_fmap_2' with pattern |].
  eapply collected; [done | left | done | done].
Qed.
Lemma target_collected d quoted s current reads name database :
  Target s name → Refers d quoted current name database → database ∈ statement_databases d quoted s current reads.
Proof.
  intros Ht Hr. unfold statement_databases.
  destruct Ht as [capture name Hc Hg | capture name Hc Hg | capture name Hc Hg | capture name Hc Hg | capture name Hc Hg | capture name Hc Hg |
    capture name Hc Hg | capture name Hc Hg | capture name Hc Hg | capture name Hc Hg | capture name Hc Hg | capture name Hc Hg].
  1-9: do 5 (apply elem_of_union; left); eapply collected_list; [| done..]; repeat first [apply list_elem_of_here | apply list_elem_of_further].
  1,2: do 3 (apply elem_of_union; left); apply elem_of_union; right; eapply collected; [done | | done | done]; repeat first [apply list_elem_of_here | apply list_elem_of_further].
  apply elem_of_union; right. apply elem_of_list_to_set. unfold first_group. rewrite Hc. cbn [mbind option_bind]. rewrite Hg. cbn [mbind option_bind].
  apply refers_database in Hr as [Hne ->]. cbn [mbind option_bind]. unfold non_empty. rewrite decide_False by done. left.
Qed.
Lemma named_collected d quoted s current reads database :
  NamedDatabase d quoted s database → database ∈ statement_databases d quoted s current reads.
Proof.
  intros Hn. unfold statement_databases. destruct Hn as [capture kind name Hc Hk Hg Hd Hne | capture name Hc Hg Hne].
  - do 2 (apply elem_of_union; left). apply elem_of_union; right. apply elem_of_list_to_set, list_elem_of_omap. exists capture. split; [done |].
    rewrite Hk. cbn [mbind option_bind]. assert (database_target_kind_means_database kind d = true) as ->.
    { unfold database_target_kind_means_database, eq_ignore_ascii_case. destruct Hd as [[E | E%list_elem_of_singleton]%elem_of_cons | [E Hd]].
      - by rewrite E.
      - by rewrite E.
      - rewrite E, schema_first_spec, Hd. done. }
    rewrite Hg. cbn [mbind option_bind]. unfold non_empty. by rewrite decide_False.
  - apply elem_of_union; left. apply elem_of_union; right. apply elem_of_list_to_set, list_elem_of_omap. exists capture. split; [done |].
    rewrite Hg. cbn [mbind option_bind]. unfold non_empty. by rewrite decide_False.
Qed.
(** A statement in which the patterns find nothing resolves to no database. *)
Lemma nothing_found d quoted s current :
  (∀ name, ¬ Target s name) → captures_iter DATABASE_TARGET_RE s = [] → captures_iter PRIVILEGE_DATABASE_TARGET_RE s = [] →
  statement_databases d quoted s current false = ∅.
Proof.
  intros Hn Hd Hp. unfold statement_databases.
  assert (∀ pattern indexes, (∀ capture i name, capture ∈ captures_iter pattern s → i ∈ indexes → group i capture = Some name → Target s name) →
    collect_qualified_target_database_groups d quoted s current pattern indexes = ∅) as Hnone.
  { intros pattern indexes Hall. apply set_eq. intros x. split; [| set_solver]. unfold collect_qualified_target_database_groups.
    intros (capture & Hx & Hc)%elem_of_list_to_set%list_elem_of_bind. apply list_elem_of_omap in Hx as (i & Hi & Hx).
    apply bind_Some in Hx as (name & Hg & _). exfalso. by eapply Hn, Hall. }
  rewrite Hd, Hp. cbn [omap list_omap list_to_set].
  assert (first_group COPY_TARGET_RE s 1 = None) as ->.
  { unfold first_group. destruct (head _) as [capture |] eqn:E; [| done]. cbn [mbind option_bind]. destruct (group 1 capture) as [name |] eqn:Eg; [| done].
    exfalso. eapply Hn, target_copy; done. }
  rewrite (Hnone RENAME_TABLE_TARGET_RE). 2: { intros capture i name Hc [-> | Hi]%elem_of_cons Hg; [by eapply target_old_name |].
    apply list_elem_of_singleton in Hi as ->. by eapply target_new_name. }
  unfold collect_qualified_target_databases. cbn [fmap list_fmap].
  rewrite !Hnone; [set_solver | ..]; intros capture i name Hc Hi%list_elem_of_singleton Hg; subst i;
    first [by eapply target_table | by eapply target_apply | by eapply target_object | by eapply target_index_on | by eapply target_truncate |
           by eapply target_maintenance | by eapply target_comment | by eapply target_routine | by eapply target_privilege].
Qed.
End names.

Section production_theorems.
Context `{Patterns, Unicode, OracleTokenizer, WordTokenizer}.

Lemma production_check_spec config active_database sql :
  let cleaned := sql_target_safety_text sql in let q := quoted_identifiers cleaned in
  targets_production_database config active_database sql = true ↔
  is_production_database config active_database = true ∨
  marked_databases config ≠ ∅ ∧ ∃ before s after, statements_of (safety_text cleaned) = before ++ s :: after ∧
    ((∃ database, adds (c_db_type config) q active_database false before s database ∧ database ∈ marked_databases config) ∨
     doubtful (c_db_type config) q active_database false before s).
Proof.
  intros cleaned q. unfold targets_production_database. destruct (is_production_database config active_database) eqn:Ep; [naive_solver |].
  case_decide as Hm; [rewrite Hm; naive_solver |].
  change (referenced_databases sql (c_db_type config) active_database false)
    with (assess (c_db_type config) q active_database false (statements_of (safety_text cleaned))).
  rewrite orb_true_iff, bool_decide_eq_true, assess_uncertain. set (as_ := assess _ _ _ _ _).
  assert (databases as_ ∩ marked_databases config ≠ ∅ ↔ ∃ database, database ∈ databases as_ ∧ database ∈ marked_databases config) as ->.
  { split; [intros [x Hx]%set_choose_L; exists x; set_solver | set_solver]. }
  unfold as_. setoid_rewrite elem_of_assess. naive_solver.
Qed.

Lemma last_used_elem q before used : last_used q before = Some used → ∃ b x a, before = b ++ x :: a ∧ used_database q x = Some used.
Proof.
  unfold last_used. intros Hl. apply last_Some_elem_of, list_elem_of_omap in Hl as (x & Hx & Hu).
  apply list_elem_of_split in Hx as (b & a & ->). by exists b, x, a.
Qed.
Lemma in_force_unmarked config active_database q before s after statements :
  negb (bool_decide (trim active_database = [])) &&
    existsb (λ name, bool_decide (normalize_database_name name = normalize_database_name active_database)) (c_production_databases config) = false →
  (∀ b x a database, statements = b ++ x :: a → adds (c_db_type config) q active_database false b x database → database ∉ marked_databases config) →
  statements = before ++ s :: after → database_in_force q active_database before ≠ [] →
  database_in_force q active_database before ∉ marked_databases config.
Proof.
  unfold database_in_force. intros Hact Hadd Hs. destruct (last_used q before) as [u |] eqn:El; cbn [default from_option id]; intros Hne.
  - apply last_used_elem in El as (b & x & a & -> & Hu). apply (Hadd b x (a ++ s :: after)); [by rewrite Hs, <- app_assoc |].
    unfold adds. by rewrite Hu.
  - intros Hin. unfold marked_databases in Hin. apply elem_of_list_to_set, list_elem_of_fmap in Hin as (name & Hname & Hin).
    apply andb_false_iff in Hact as [Hact | Hact].
    + apply negb_false_iff, bool_decide_eq_true in Hact. apply Hne. unfold normalize_database_name. by rewrite Hact.
    + apply not_true_iff_false in Hact. apply Hact, existsb_exists. exists name. split; [by apply list_elem_of_In |]. by apply bool_decide_eq_true.
Qed.

(** C14: Suppose that some databases of a connection are marked and a text is found not to touch
    production. Then the connection is not marked as a whole, and at every write (in the text as the
    check reads it, whose names the regular expressions of the file find): the database in force
    after the USE statements before it is not marked, nor is one that a USE names. For a write
    without USE, no name that is found as a table of a query or change, APPLY, object of DDL, table
    of an index, TRUNCATE, maintenance, COMMENT, routine, privilege, COPY, or as either name of a
    RENAME refers to a marked database, where a name whose parts are not empty refers to its first
    part, to its second (four parts on SQL Server), or to the database in force, by the dialect and
    the number of parts; no database named as such by DDL or a privilege is marked; it does not
    change several tables at once or global privileges; and if nothing is found in it, it is
    transaction control. (SQL Server's db..table, with an empty part, is not covered.) *)
Theorem unmarked_writes_name_their_targets config active_database sql before s after :
  let cleaned := sql_target_safety_text sql in let q := quoted_identifiers cleaned in
  let current := database_in_force q active_database before in
  targets_production_database config active_database sql = false → marked_databases config ≠ ∅ →
  statements_of (safety_text cleaned) = before ++ s :: after → is_write_sql s = true →
  c_is_production config = false ∧ (current ≠ [] → current ∉ marked_databases config) ∧
  (∀ used, used_database q s = Some used → used ∉ marked_databases config) ∧
  (used_database q s = None →
    (∀ name database, Target s name → Refers (c_db_type config) q current name database → database ∉ marked_databases config) ∧
    (∀ database, NamedDatabase (c_db_type config) q s database → database ∉ marked_databases config) ∧
    is_match MULTI_TARGET_MUTATION_RE s = false ∧ is_match GLOBAL_PRIVILEGE_TARGET_RE s = false ∧
    ((∀ name, ¬ Target s name) → captures_iter DATABASE_TARGET_RE s = [] → captures_iter PRIVILEGE_DATABASE_TARGET_RE s = [] →
       ∃ keyword, first_keyword s = Some keyword ∧ is_transaction_keyword keyword = true)).
Proof.
  intros cleaned q current Hf Hm Hs Hw. pose proof (production_check_spec config active_database sql) as Hspec. cbn zeta in Hspec.
  fold cleaned in Hspec. fold q in Hspec. rewrite Hf in Hspec.
  assert (is_production_database config active_database = false) as Hp by (apply not_true_iff_false; naive_solver).
  assert (∀ b x a database, statements_of (safety_text cleaned) = b ++ x :: a → adds (c_db_type config) q active_database false b x database →
            database ∉ marked_databases config) as Hadd by (intros b x a database Hx Ha Hin; assert (false = true) by naive_solver; done).
  assert (¬ doubtful (c_db_type config) q active_database false before s) as Hd by (intros Hd; assert (false = true) by naive_solver; done).
  clear Hspec Hf. unfold is_production_database in Hp. apply orb_false_iff in Hp as [Hp Hact]. split; [done |].
  split; [intros Hc; subst current; by eapply in_force_unmarked |]. unfold adds, doubtful in *.
  split; [intros used Hu; eapply (Hadd before s after); [done | by rewrite Hu] |]. intros Hu.
  assert (∀ database, database ∈ statement_databases (c_db_type config) q s current false → database ∉ marked_databases config) as Hdb
    by (intros database Hin; eapply (Hadd before s after); [done | rewrite Hu; auto]).
  destruct (statement_uncertain (c_db_type config) q s current false) eqn:Eu; [exfalso; apply Hd; auto |].
  unfold statement_uncertain in Eu. apply orb_false_iff in Eu as [Eu Ea]. apply orb_false_iff in Eu as [Eu Em]. apply orb_false_iff in Eu as [_ Eg].
  split; [intros name database Ht Hr; by eapply Hdb, target_collected |]. split; [intros database Hn; by eapply Hdb, named_collected |].
  split; [done |]. split; [done |]. intros Hn Hdd Hpd. rewrite (nothing_found _ _ _ _ Hn Hdd Hpd) in Ea.
  unfold is_ambiguous_production_target_statement in Ea. rewrite Hw in Ea. cbn [negb] in Ea.
  destruct (first_keyword s) as [keyword |]; [| done]. exists keyword. split; [done |]. destruct (is_transaction_keyword keyword); [done |].
  apply orb_false_iff in Ea as [_ Ea]. rewrite bool_decide_eq_false_2 in Ea; [done | naive_solver].
Qed.
End production_theorems.

Section scope_theorems.
Context `{Patterns, Unicode, OracleTokenizer, WordTokenizer}.

(** A text that passes the check of an allowed list names only its databases,
    in the statements that read too, and leaves no doubt about any of them. *)
Lemma scoped_statements_stay_in_scope sql d active_database allowed before s after :
  let cleaned := sql_target_safety_text sql in let q := quoted_identifiers cleaned in
  sql_references_disallowed_database sql d active_database allowed = false →
  statements_of (safety_text cleaned) = before ++ s :: after →
  ¬ doubtful d q active_database true before s ∧
  ∀ database, adds d q active_database true before s database → ∃ name, name ∈ allowed ∧ normalize_database_name name = database.
Proof.
  intros cleaned q Hf Hs. unfold sql_references_disallowed_database in Hf. apply orb_false_iff in Hf as [Hu Hsub].
  change (referenced_databases sql d active_database true) with (assess d q active_database true (statements_of (safety_text cleaned))) in Hu, Hsub.
  split.
  - intros Hd. apply not_true_iff_false in Hu. apply Hu, assess_uncertain. by exists before, s, after.
  - intros database Ha. apply negb_false_iff, bool_decide_eq_true in Hsub.
    assert (database ∈ databases (assess d q active_database true (statements_of (safety_text cleaned)))) as Hin
      by (apply elem_of_assess; by exists before, s, after).
    apply Hsub, elem_of_list_to_set, list_elem_of_omap in Hin as (name & Hname & Hn). exists name. split; [done |].
    unfold non_empty in Hn. case_decide; congruence.
Qed.
End scope_theorems.

(** ** Where a stage of a pipeline writes

    MongoDB refuses a field of the stage $merge that it does not know, so [db]
    stands in the document of [into] only. *)
Inductive stage_writes (active_database : str) : json → str → Prop :=
| out_collection fs c : field_of_object (lit "$out") fs = Some (JString c) → stage_writes active_database (JObject fs) active_database
| out_database fs t db : field_of_object (lit "$out") fs = Some (JObject t) → field_of_object (lit "db") t = Some (JString db) →
    stage_writes active_database (JObject fs) db
| merge_collection fs c : field_of_object (lit "$merge") fs = Some (JString c) → stage_writes active_database (JObject fs) active_database
| merge_into_collection fs t c : field_of_object (lit "$merge") fs = Some (JObject t) → field_of_object (lit "db") t = None →
    field_of_object (lit "into") t = Some (JString c) →
    stage_writes active_database (JObject fs) active_database
| merge_into_database fs t i db : field_of_object (lit "$merge") fs = Some (JObject t) → field_of_object (lit "db") t = None →
    field_of_object (lit "into") t = Some (JObject i) →
    field_of_object (lit "db") i = Some (JString db) → stage_writes active_database (JObject fs) db
| merge_into_current fs t i : field_of_object (lit "$merge") fs = Some (JObject t) → field_of_object (lit "db") t = None →
    field_of_object (lit "into") t = Some (JObject i) →
    field_of_object (lit "db") i = None → stage_writes active_database (JObject fs) active_database.

Section pipeline.
Context `{JsonText}.
Lemma stage_target_found active_database stage database :
  stage_writes active_database stage database → ∃ t, t ∈ stage_targets active_database stage ∧ (t = None ∨ t = Some database).
Proof.
  assert (∀ a db, a = add_mongo_current_database db → a = None ∨ a = Some db) as Hcur
    by (intros a db ->; unfold add_mongo_current_database; case_decide; auto).
  assert (∀ fs db, field_of_object (lit "db") fs = Some (JString db) → named_database fs = None ∨ named_database fs = Some db) as Hname
    by (intros fs db Hdb; unfold named_database; rewrite Hdb; cbn [mbind option_bind as_str]; case_decide; auto).
  intros Hw. unfold stage_targets. destruct Hw as [fs c Hf | fs t db Hf Hdb | fs c Hf | fs t c Hf _ Hi | fs t i db Hf _ Hi Hdb | fs t i Hf _ Hi Hdb];
    cbn [as_object]; rewrite Hf.
  - eexists. split; [left |]. by apply Hcur.
  - eexists. split; [left |]. by apply Hname.
  - eexists. split; [apply elem_of_app; right; left |]. by apply Hcur.
  - eexists. split; [apply elem_of_app; right; left |]. cbn [merge_target]. rewrite Hi. by apply Hcur.
  - eexists. split; [apply elem_of_app; right; left |]. cbn [merge_target]. rewrite Hi. by apply Hname.
  - eexists. split; [apply elem_of_app; right; left |]. cbn [merge_target]. rewrite Hi. left. unfold named_database. by rewrite Hdb.
Qed.
Lemma pipelines_write_outside_production config active_database text stages stage database :
  mongo_pipeline_targets_production_database config active_database text = false → from_str text = Some (JArray stages) → stage ∈ stages →
  stage_writes active_database stage database → is_production_database config database = false.
Proof.
  unfold mongo_pipeline_targets_production_database. intros Hf Hp Hs Hw. destruct (is_production_database config active_database); [done |].
  rewrite Hp in Hf. apply not_true_iff_false in Hf. apply not_true_iff_false. intros Hprod. apply Hf, existsb_exists.
  destruct (stage_target_found _ _ _ Hw) as (t & Ht & Hor). exists t. split; [| by destruct Hor as [-> | ->]].
  apply list_elem_of_In, list_elem_of_bind. by exists stage.
Qed.
End pipeline.

(** ** Examples *)
Definition seen (sql : string) : str := safety_text (sql_target_safety_text (lit sql)).
(** The names of temporary tables of SQL Server start with #, which is taken for a comment. *)
Example temporary_tables_hide_statements :
  seen "INSERT INTO staging.dbo.t SELECT 1 FROM #tmp; DELETE FROM prod.dbo.users" = lit "INSERT INTO staging.dbo.t SELECT 1 FROM  ".
Proof. vm_compute. reflexivity. Qed.
(** Backslashes are taken for escapes in every dialect, and -- for a comment without a blank. *)
Example dialects_hide_statements :
  seen "SELECT '\'; DELETE FROM prod.dbo.users --'" = lit "SELECT  " ∧ seen "SELECT 5--1; DELETE FROM prod.users" = lit "SELECT 5 ".
Proof. split; vm_compute; reflexivity. Qed.
(** The schema may be left out between two dots in SQL Server: the name is then resolved to the selected database. *)
Example two_dots_name_the_selected_database :
  database_from_qualified_name (lit "prod..users") DatabaseType.SqlServer ∅ (lit "staging") = Some (lit "staging") ∧
  database_from_qualified_name (lit "prod.dbo.users") DatabaseType.SqlServer ∅ (lit "staging") = Some (lit "prod").
Proof. split; vm_compute; reflexivity. Qed.
(** A name that looks like a token is taken for the quoted name of that number. *)
Example tokens_can_be_written :
  let t := sql_target_safety_text (lit "DELETE FROM __dbxq0__.users; SELECT * FROM `staging`.t") in
  database_from_qualified_name (lit "__dbxq0__.users") DatabaseType.Mysql (quoted_identifiers t) [] = Some (lit "staging").
Proof. vm_compute. reflexivity. Qed.

(** ** Witnesses *)
Lemma the_check_sees_code_and_names_witness :
  seen "DELETE FROM `prod``s`.t -- x" = lit "DELETE FROM  __dbxq0__ .t  ".
Proof.
  apply (the_check_sees_code_and_names [PText (lit "DELETE FROM "); PName BACKTICK (lit "prod`s"); PText (lit ".t "); PLine (lit " x")]).
  split; [reflexivity |]. split; [split; [right; left | discriminate] |]. split; [reflexivity |]. split; [split; [reflexivity | exact I] | exact I].
Defined.
Definition one_target : Patterns := λ pattern text,
  if decide (text = lit "DELETE FROM staging.users") then
    if decide (pattern = DML_TARGET_RE) then [[Some (lit "FROM staging.users"); Some (lit "staging.users")]]
    else if decide (pattern = FIRST_KEYWORD_RE) then [[Some (lit "DELETE")]] else []
  else [].
Definition marked_connection : ConnectionConfig :=
  {| c_id := lit "c"; c_name := lit "c"; c_db_type := DatabaseType.Mysql; c_host := lit "localhost"; c_port := 5432; c_database := None; c_default_schema := None;
     c_visible_schemas := None; c_read_only := false; c_federation_enabled := false; c_is_production := false; c_production_databases := [lit "prod"] |}.
Lemma unmarked_writes_name_their_targets_witness : c_is_production marked_connection = false ∧ lit "app" ∉ marked_databases marked_connection.
Proof.
  destruct (unmarked_writes_name_their_targets (H := one_target) (H0 := ascii_only) (H1 := no_tokenizer) (H2 := no_words)
    marked_connection (lit "app") (lit "DELETE FROM staging.users") [] (lit "DELETE FROM staging.users") []) as (Hp & Hc & _).
  - vm_compute. reflexivity.
  - intros E. assert (lit "prod" ∈ marked_databases marked_connection) as Hin by (apply (bool_decide_unpack _); vm_compute; exact I).
    rewrite E in Hin. by apply not_elem_of_empty in Hin.
  - vm_compute. reflexivity.
  - vm_compute. reflexivity.
  - split; [exact Hp |]. apply Hc. discriminate.
Defined.
