(* ===== verification/McpSessions.v ===== *)
(** * Sessions of the MCP server (dbx-mcp/src/session.rs)

    An agent may pin its queries to one connection by opening a session.  The
    store keeps the sessions in use and those being closed; every operation
    holds the lock of the store and is one step.  The clock, in milliseconds,
    and the random part of a new id are arguments. *)
From S2P Require Import Prelude.
Local Open Scope dbx_scope.

Record McpSession := { s_id : str; s_connection_id : str; s_database : str; s_client_session_id : str; s_last_used : N }.
Record McpSessionState := { active : gmap str McpSession; closing : gmap str McpSession }.
Definition SESSION_IDLE_TTL : N := 1800000.
Definition MAX_SESSIONS : nat := 32.

Definition in_use (now : N) (session : McpSession) : bool := bool_decide (now - s_last_used session < SESSION_IDLE_TTL)%N.
(** The sessions that stay, and those that have expired. *)
Definition sweep_expired (now : N) (sessions : gmap str McpSession) : gmap str McpSession * list McpSession :=
  (filter (λ kv, in_use now kv.2 = true) sessions, (map_to_list (filter (λ kv, in_use now kv.2 = false) sessions)).*2).
Definition refreshed (now : N) (session : McpSession) : McpSession :=
  {| s_id := s_id session; s_connection_id := s_connection_id session; s_database := s_database session;
     s_client_session_id := s_client_session_id session; s_last_used := now |}.

Definition session_id_of (uuid : str) : str := lit "mcp-session-" ++ uuid.
Definition open (now : N) (uuid connection_id database : str) (st : McpSessionState) : McpSessionState * result McpSession str * list McpSession :=
  let (kept, expired) := sweep_expired now (active st) in
  if decide (MAX_SESSIONS ≤ size kept + size (closing st)) then
    ({| active := kept; closing := closing st |},
     Err (lit "Too many open MCP sessions (max 32). Close unused sessions with dbx_close_session."), expired)
  else
    let id := session_id_of uuid in
    let session := {| s_id := id; s_connection_id := connection_id; s_database := database; s_client_session_id := lit "mcp:" ++ id; s_last_used := now |} in
    ({| active := <[id := session]> kept; closing := closing st |}, Ok session, expired).
Definition resolve (now : N) (session_id : str) (st : McpSessionState) : McpSessionState * option McpSession * list McpSession :=
  let (kept, expired) := sweep_expired now (active st) in
  match kept !! session_id with
  | Some session => ({| active := <[session_id := refreshed now session]> kept; closing := closing st |}, Some (refreshed now session), expired)
  | None => ({| active := kept; closing := closing st |}, None, expired)
  end.
Definition begin_close (now : N) (session_id : str) (st : McpSessionState) : McpSessionState * option McpSession * list McpSession :=
  let (kept, expired) := sweep_expired now (active st) in
  match kept !! session_id with
  | Some session => ({| active := delete session_id kept; closing := <[s_id session := session]> (closing st) |}, Some session, expired)
  | None => ({| active := kept; closing := closing st |}, None, expired)
  end.
Definition finish_close (session_id : str) (st : McpSessionState) : McpSessionState :=
  {| active := active st; closing := delete session_id (closing st) |}.
Definition restore_after_failed_close (now : N) (session : McpSession) (st : McpSessionState) : McpSessionState :=
  match closing st !! s_id session with
  | Some _ => {| active := <[s_id session := refreshed now session]> (active st); closing := delete (s_id session) (closing st) |}
  | None => st
  end.

(** The states that any order of operations reaches, with the ids of the
    sessions opened so far and of those whose connection has been handed over to
    be closed, because they expired or because closing them succeeded. *)
Inductive reached : McpSessionState → list str → list str → Prop :=
| at_start : reached {| active := ∅; closing := ∅ |} [] []
| did_open st os rs now uuid connection_id database st' value expired :
    reached st os rs → session_id_of uuid ∉ os → open now uuid connection_id database st = (st', value, expired) →
    reached st' (os ++ match value with Ok s => [s_id s] | Err _ => [] end) (rs ++ (s_id <$> expired))
| did_resolve st os rs now id st' value expired :
    reached st os rs → resolve now id st = (st', value, expired) → reached st' os (rs ++ (s_id <$> expired))
| did_begin st os rs now id st' value expired :
    reached st os rs → begin_close now id st = (st', value, expired) → reached st' os (rs ++ (s_id <$> expired))
| did_finish st os rs id :
    reached st os rs → reached (finish_close id st) os (rs ++ (if decide (is_Some (closing st !! id)) then [id] else []))
| did_restore st os rs now session : reached st os rs → reached (restore_after_failed_close now session st) os rs.

Record sessions_ok (st : McpSessionState) (os rs : list str) : Prop := {
  ok_keys : ∀ id s, active st !! id = Some s → s_id s = id;
  ok_apart : dom (active st) ## dom (closing st);
  ok_held : ∀ id, id ∈ dom (active st) ∪ dom (closing st) → id ∉ rs;
  ok_all : ∀ id, id ∈ os ↔ id ∈ dom (active st) ∪ dom (closing st) ∨ id ∈ rs;
  ok_once : NoDup rs;
  ok_opened : NoDup os;
  ok_bound : size (active st) + size (closing st) ≤ MAX_SESSIONS;
}.

Lemma sweep_ok now st os rs :
  sessions_ok st os rs →
  sessions_ok {| active := (sweep_expired now (active st)).1; closing := closing st |} os (rs ++ (s_id <$> (sweep_expired now (active st)).2)).
Proof.
  intros [Hk Ha Hh Hall Ho Hos Hb]. cbn [sweep_expired fst snd].
  assert (∀ id, id ∈ dom (filter (λ kv : str * McpSession, in_use now kv.2 = true) (active st)) ↔
                ∃ s, active st !! id = Some s ∧ in_use now s = true) as Hkept
    by (intros id; rewrite elem_of_dom; unfold is_Some; setoid_rewrite map_lookup_filter_Some; naive_solver).
  assert (∀ id, id ∈ s_id <$> (map_to_list (filter (λ kv : str * McpSession, in_use now kv.2 = false) (active st))).*2 ↔
                ∃ s, active st !! id = Some s ∧ in_use now s = false) as Hexp.
  { intros id. rewrite <- list_fmap_compose, list_elem_of_fmap. split.
    - intros ([k s] & -> & Hin%elem_of_map_to_list). apply map_lookup_filter_Some in Hin as [Hs Hf]. exists s. cbn in *. by rewrite (Hk k s Hs).
    - intros (s & Hs & Hf). exists (id, s). split; [symmetry; by apply Hk |]. apply elem_of_map_to_list, map_lookup_filter_Some. done. }
  assert (∀ id s, active st !! id = Some s → id ∈ dom (active st)) as Hdom by (intros; by eapply elem_of_dom_2).
  constructor; cbn [active closing].
  - intros id s [Hs _]%map_lookup_filter_Some. by apply Hk.
  - intros id [s [Hs _]]%Hkept Hc. by apply (Ha id); [eapply Hdom |].
  - intros id Hin. rewrite elem_of_app, Hexp. apply elem_of_union in Hin as [(s & Hs & Hu)%Hkept | Hc].
    + intros [Hr | (s' & Hs' & Hu')]; [by eapply (Hh id); [apply elem_of_union_l; eapply Hdom |] | congruence].
    + intros [Hr | (s' & Hs' & _)]; [by eapply (Hh id); [apply elem_of_union_r |] | by apply (Ha id); [eapply Hdom |]].
  - intros id. rewrite Hall, elem_of_app, Hexp, !elem_of_union, Hkept. split.
    + intros [[[s Hs]%elem_of_dom | Hc] | Hr]; [destruct (in_use now s) eqn:E; naive_solver | auto | auto].
    + intros [[(s & Hs & _) | Hc] | [Hr | (s & Hs & _)]]; eauto.
  - apply NoDup_app. split; [done |]. split.
    + intros id Hr (s & Hs & _)%Hexp. by eapply (Hh id); [apply elem_of_union_l; eapply Hdom |].
    + rewrite <- list_fmap_compose. erewrite list_fmap_ext; [apply NoDup_fst_map_to_list |].
      intros i [k s] Hi%list_elem_of_lookup_2%elem_of_map_to_list. apply map_lookup_filter_Some in Hi as [Hs _]. cbn in *. by apply Hk.
  - done.
  - etrans; [| exact Hb]. apply Nat.add_le_mono_r. apply map_subseteq_size, map_filter_subseteq.
Qed.
Lemma size_delete {A} (m : gmap str A) id x : m !! id = Some x → S (size (delete id m)) = size m.
Proof. intros Hx. rewrite map_size_delete_Some by done. assert (size m ≠ 0); [| lia]. intros Hz%map_size_empty_inv. by subst. Qed.
Lemma open_ok kept st os rs id session :
  sessions_ok {| active := kept; closing := st |} os rs → id ∉ os → s_id session = id → ¬ MAX_SESSIONS ≤ size kept + size st →
  sessions_ok {| active := <[id := session]> kept; closing := st |} (os ++ [id]) rs.
Proof.
  intros [Hk Ha Hh Hall Ho Hos Hb] Hid Hs Hsize. cbn [active closing] in *. rewrite Hall in Hid. constructor; cbn [active closing].
  - intros i s [[<- <-] | [_ Hi]]%lookup_insert_Some; [done | by apply Hk].
  - rewrite dom_insert_L. set_solver.
  - intros i. rewrite dom_insert_L. set_solver.
  - intros i. rewrite elem_of_app, list_elem_of_singleton, Hall, dom_insert_L. set_solver.
  - done.
  - apply NoDup_app. split; [done |]. split; [| apply NoDup_singleton]. intros i Hi ->%list_elem_of_singleton. by apply Hall in Hi.
  - rewrite map_size_insert_None; [lia |]. apply not_elem_of_dom. set_solver.
Qed.
Lemma refresh_ok kept st os rs id session now :
  sessions_ok {| active := kept; closing := st |} os rs → kept !! id = Some session →
  sessions_ok {| active := <[id := refreshed now session]> kept; closing := st |} os rs.
Proof.
  intros [Hk Ha Hh Hall Ho Hos Hb] Hid. cbn [active closing] in *.
  assert (dom (<[id := refreshed now session]> kept) = dom kept) as Hd by (rewrite dom_insert_L; apply elem_of_dom_2 in Hid; set_solver).
  constructor; cbn [active closing]; rewrite ?Hd; try done.
  - intros i s [[<- <-] | [_ Hi]]%lookup_insert_Some; [cbn; by apply Hk | by apply Hk].
  - by rewrite map_size_insert_Some.
Qed.
Lemma close_ok kept st os rs id session :
  sessions_ok {| active := kept; closing := st |} os rs → kept !! id = Some session →
  sessions_ok {| active := delete id kept; closing := <[s_id session := session]> st |} os rs.
Proof.
  intros [Hk Ha Hh Hall Ho Hos Hb] Hid. cbn [active closing] in *. rewrite (Hk id session Hid). pose proof (elem_of_dom_2 _ _ _ Hid) as Hin.
  assert (id ∉ dom st) as Hst by set_solver. constructor; cbn [active closing]; rewrite ?dom_insert_L, ?dom_delete_L; try done.
  - intros i s [_ Hi]%lookup_delete_Some. by apply Hk.
  - set_solver.
  - intros i Hi. apply Hh. set_solver.
  - intros i. rewrite Hall. destruct (decide (i = id)) as [-> |]; set_solver.
  - pose proof (size_delete kept id session Hid). rewrite map_size_insert_None by (by apply not_elem_of_dom). lia.
Qed.
Lemma restore_ok kept st os rs session now x :
  sessions_ok {| active := kept; closing := st |} os rs → st !! s_id session = Some x →
  sessions_ok {| active := <[s_id session := refreshed now session]> kept; closing := delete (s_id session) st |} os rs.
Proof.
  intros [Hk Ha Hh Hall Ho Hos Hb] Hid. cbn [active closing] in *. pose proof (elem_of_dom_2 _ _ _ Hid) as Hin.
  assert (s_id session ∉ dom kept) as Hst by set_solver. constructor; cbn [active closing]; rewrite ?dom_insert_L, ?dom_delete_L; try done.
  - intros i s [[<- <-] | [_ Hi]]%lookup_insert_Some; [done | by apply Hk].
  - set_solver.
  - intros i Hi. apply Hh. set_solver.
  - intros i. rewrite Hall. destruct (decide (i = s_id session)) as [-> |]; set_solver.
  - pose proof (size_delete st _ x Hid). rewrite map_size_insert_None by (by apply not_elem_of_dom). lia.
Qed.
Lemma finish_ok st os rs id :
  sessions_ok st os rs → sessions_ok (finish_close id st) os (rs ++ (if decide (is_Some (closing st !! id)) then [id] else [])).
Proof.
  intros [Hk Ha Hh Hall Ho Hos Hb]. case_decide as Hid.
  - destruct Hid as [x Hid]. pose proof (elem_of_dom_2 _ _ _ Hid) as Hin.
    constructor; cbn [finish_close active closing]; rewrite ?dom_delete_L; try done.
    + set_solver.
    + intros i Hi. rewrite elem_of_app, list_elem_of_singleton. intros [Hr | ->]; [apply (Hh i); set_solver | set_solver].
    + intros i. rewrite Hall, elem_of_app, list_elem_of_singleton. destruct (decide (i = id)) as [-> |]; set_solver.
    + apply NoDup_app. split; [done |]. split; [| apply NoDup_singleton]. intros i Hi ->%list_elem_of_singleton. apply (Hh id); set_solver.
    + pose proof (size_delete (closing st) _ x Hid). lia.
  - rewrite app_nil_r. apply eq_None_not_Some in Hid. unfold finish_close. rewrite delete_id by done. by destruct st.
Qed.

(** C31: In every order of opening, using, closing, failing to close and expiring, at most 32
    sessions are held, no session is in use and being closed at once, and every session that was
    opened is held or has been handed over to be closed exactly once. *)
Theorem sessions_are_released_once st os rs :
  reached st os rs →
  NoDup rs ∧ dom (active st) ## dom (closing st) ∧ size (active st) + size (closing st) ≤ MAX_SESSIONS ∧
  (∀ id, id ∈ dom (active st) ∪ dom (closing st) → id ∉ rs) ∧
  (∀ id, id ∈ os ↔ id ∈ dom (active st) ∪ dom (closing st) ∨ id ∈ rs).
Proof.
  intros Hr. enough (sessions_ok st os rs) as [] by done.
  induction Hr as [| st os rs now uuid connection_id database st' value expired _ IH Hid He | st os rs now id st' value expired _ IH He
    | st os rs now id st' value expired _ IH He | st os rs id _ IH | st os rs now session _ IH].
  - constructor; cbn [active closing]; rewrite ?dom_empty_L;
      [done | set_solver | intros; apply not_elem_of_nil | intros id; rewrite elem_of_nil; set_solver | constructor | constructor |].
    rewrite !map_size_empty. unfold MAX_SESSIONS. lia.
  - apply (sweep_ok now) in IH. unfold open in He. destruct (sweep_expired now (active st)) as [kept exp]. cbn [fst snd] in IH.
    destruct (decide _) as [| Hsize]; injection He as <- <- <-; [by rewrite app_nil_r | by apply open_ok].
  - apply (sweep_ok now) in IH. unfold resolve in He. destruct (sweep_expired now (active st)) as [kept exp]. cbn [fst snd] in IH.
    destruct (kept !! id) as [session |] eqn:Ek; injection He as <- <- <-; [by apply refresh_ok | done].
  - apply (sweep_ok now) in IH. unfold begin_close in He. destruct (sweep_expired now (active st)) as [kept exp]. cbn [fst snd] in IH.
    destruct (kept !! id) as [session |] eqn:Ek; injection He as <- <- <-; [by apply close_ok | done].
  - by apply finish_ok.
  - unfold restore_after_failed_close. destruct st as [kept st]. cbn [active closing]. destruct (st !! s_id session) eqn:E; [by eapply restore_ok | done].
Qed.

Definition no_sessions : McpSessionState := {| active := ∅; closing := ∅ |}.
Definition one_session : McpSessionState := (open 0 (lit "a") (lit "pg") (lit "app") no_sessions).1.1.
Definition closing_session : McpSessionState := (begin_close 5 (lit "mcp-session-a") one_session).1.1.
Definition failed_close : McpSessionState :=
  restore_after_failed_close 7 {| s_id := lit "mcp-session-a"; s_connection_id := lit "pg"; s_database := lit "app";
    s_client_session_id := lit "mcp:mcp-session-a"; s_last_used := 0 |} closing_session.
Definition next_session := open 1800007 (lit "b") (lit "pg") (lit "app") failed_close.
(** One session is opened, closing it fails, and it expires when the next is opened. *)
Lemma sessions_are_released_once_witness :
  s_id <$> next_session.2 = [lit "mcp-session-a"] ∧ NoDup (s_id <$> next_session.2).
Proof.
  split; [vm_compute; reflexivity |].
  assert (session_id_of (lit "a") ∉ []) as Ha by (apply (bool_decide_unpack _); vm_compute; exact I).
  assert (session_id_of (lit "b") ∉ [lit "mcp-session-a"]) as Hb by (apply (bool_decide_unpack _); vm_compute; exact I).
  assert (reached one_session [lit "mcp-session-a"] []) as H1.
  { exact (did_open no_sessions [] [] 0 (lit "a") (lit "pg") (lit "app") _ _ _ at_start Ha eq_refl). }
  assert (reached failed_close [lit "mcp-session-a"] []) as H3.
  { apply did_restore. exact (did_begin one_session _ [] 5 (lit "mcp-session-a") _ _ _ H1 eq_refl). }
  exact (proj1 (sessions_are_released_once _ _ _ (did_open failed_close _ [] 1800007 (lit "b") (lit "pg") (lit "app") _ _ _ H3 Hb eq_refl))).
Defined.
