(* ===== verification/McpPolicy.v ===== *)
(** * The policy of the MCP server (storage.rs, dbx-mcp/src/server.rs)

    What an agent may run through the MCP server: the global policy with its
    rules per connection, the scope of databases, and the tool
    [dbx_execute_query] up to the call of the backend.  Policies and connections
    are what the backend loaded; [CallToolResult] is its text. *)
From S2P Require Import Prelude SqlDialect QueryGuard StateStore Json PoolKeys SqlRisk MongoFilter MongoShell ProductionSafety McpSessions.
Local Open Scope dbx_scope.

(** ** Policies *)
Inductive McpDatabaseScope := ScopeAll | ScopeSelected | ScopeNone.
#[export] Instance McpDatabaseScope_eq_dec : EqDecision McpDatabaseScope.
Proof. solve_decision. Defined.
Record McpConnectionPolicy := {
  r_connection_id : str;
  r_read_only : bool;
  r_allow_dangerous_sql : bool;
  r_execution_mode_configured : bool;
  r_database_scope : McpDatabaseScope;
  r_allowed_databases : list str;
}.
Record McpGlobalPolicy := {
  p_read_only : bool;
  p_allow_dangerous_sql : bool;
  p_allowed_connection_ids : option (list str);
  p_allowed_tool_names : option (list str);
  p_connection_policies : list McpConnectionPolicy;
  p_query_timeout_secs : option N;
}.

Fixpoint dedup_sorted (l : list str) : list str :=
  match l with
  | x :: ((y :: _) as rest) => if decide (x = y) then dedup_sorted rest else x :: dedup_sorted rest
  | _ => l
  end.
(** [trim], no empty names, [sort], [dedup] *)
Definition normalize_names (names : list str) : list str := dedup_sorted (merge_sort str_le (omap (λ n, non_empty (trim n)) names)).
Definition normalize_mcp_database_names (databases : list str) : list str := normalize_names databases.
(** [binary_search] in a sorted list finds what is in it. *)
Definition intersect_mcp_database_scopes (left_scope : McpDatabaseScope) (left_databases : list str) (right_scope : McpDatabaseScope)
    (right_databases : list str) : McpDatabaseScope * list str :=
  match left_scope, right_scope with
  | ScopeNone, _ | _, ScopeNone => (ScopeNone, [])
  | ScopeAll, ScopeAll => (ScopeAll, [])
  | ScopeAll, ScopeSelected => (ScopeSelected, normalize_mcp_database_names right_databases)
  | ScopeSelected, ScopeAll => (ScopeSelected, normalize_mcp_database_names left_databases)
  | ScopeSelected, ScopeSelected =>
      let allowed := normalize_mcp_database_names right_databases in
      (ScopeSelected, filter (λ database, database ∈ allowed) (normalize_mcp_database_names left_databases))
  end.
Definition merge_rule (current rule : McpConnectionPolicy) : McpConnectionPolicy :=
  let scope := intersect_mcp_database_scopes (r_database_scope current) (r_allowed_databases current) (r_database_scope rule) (r_allowed_databases rule) in
  {| r_connection_id := r_connection_id current;
     r_read_only :=
       if r_execution_mode_configured rule then
         (if r_execution_mode_configured current then r_read_only current || r_read_only rule else r_read_only rule)
       else r_read_only current;
     r_allow_dangerous_sql :=
       if r_execution_mode_configured rule then
         (if r_execution_mode_configured current then r_allow_dangerous_sql current && r_allow_dangerous_sql rule else r_allow_dangerous_sql rule)
       else r_allow_dangerous_sql current;
     r_execution_mode_configured := r_execution_mode_configured rule || r_execution_mode_configured current;
     r_database_scope := scope.1;
     r_allowed_databases := scope.2 |}.
Definition add_rule (policies : gmap str McpConnectionPolicy) (rule : McpConnectionPolicy) : gmap str McpConnectionPolicy :=
  let connection_id := trim (r_connection_id rule) in
  if decide (connection_id = []) then policies
  else match policies !! connection_id with
       | Some current => <[connection_id := merge_rule current rule]> policies
       | None =>
           <[connection_id :=
               {| r_connection_id := connection_id; r_read_only := r_read_only rule; r_allow_dangerous_sql := r_allow_dangerous_sql rule;
                  r_execution_mode_configured := r_execution_mode_configured rule; r_database_scope := r_database_scope rule;
                  r_allowed_databases := normalize_mcp_database_names (r_allowed_databases rule) |}]> policies
       end.
Definition finish_rule (rule : McpConnectionPolicy) : McpConnectionPolicy :=
  {| r_connection_id := r_connection_id rule; r_read_only := r_read_only rule;
     r_allow_dangerous_sql := if r_read_only rule then false else r_allow_dangerous_sql rule;
     r_execution_mode_configured := r_execution_mode_configured rule; r_database_scope := r_database_scope rule;
     r_allowed_databases :=
       if decide (r_database_scope rule ≠ ScopeSelected) then [] else normalize_mcp_database_names (r_allowed_databases rule) |}.
Definition merged_rules (rules : list McpConnectionPolicy) : gmap str McpConnectionPolicy := fold_left add_rule rules ∅.
(** [sort_by] the ids *)
Definition id_le (a b : McpConnectionPolicy) : Prop := str_le (r_connection_id a) (r_connection_id b).
#[export] Instance id_le_dec a b : Decision (id_le a b).
Proof. unfold id_le. apply _. Defined.
Definition normalized (p : McpGlobalPolicy) : McpGlobalPolicy :=
  {| p_read_only := p_read_only p;
     p_allow_dangerous_sql := negb (p_read_only p) && p_allow_dangerous_sql p;
     p_allowed_connection_ids := normalize_names <$> p_allowed_connection_ids p;
     p_allowed_tool_names := normalize_names <$> p_allowed_tool_names p;
     p_connection_policies := finish_rule <$> merge_sort id_le (map_to_list (merged_rules (p_connection_policies p))).*2;
     p_query_timeout_secs := p_query_timeout_secs p |}.

(** ** Errors *)
Definition in_quotes (s : str) : str := [DQUOTE] ++ s ++ [DQUOTE].
Definition tool_error (code : string) (message : str) : str := lit "Error [" ++ lit code ++ lit "]: " ++ message.
Fixpoint backend_error_code (codes : list string) (default_code : string) (error : str) : str :=
  match codes with
  | [] => tool_error default_code error
  | code :: rest =>
      match split_once (lit code ++ lit ":") error with
      | Some (_, message) => tool_error code (trim message)
      | None => backend_error_code rest default_code error
      end
  end.
Definition backend_tool_error (default_code : string) (error : str) : str :=
  backend_error_code ["MCP_POLICY_UNAVAILABLE"; "MCP_READ_ONLY"; "CONNECTION_OUT_OF_SCOPE"; "DATABASE_OUT_OF_SCOPE"; "INVALID_DATABASE_SCOPE";
    "CONNECTION_READ_ONLY"; "PRODUCTION_DATABASE_READ_ONLY"; "PRODUCTION_WRITE_BLOCKED"; "SQL_BLOCKED"]%string default_code error.

(** ** Scopes *)
Definition policy_allows_connection (policy : McpGlobalPolicy) (connection : ConnectionConfig) : bool :=
  match p_allowed_connection_ids policy with None => true | Some allowed => bool_decide (c_id connection ∈ allowed) end.
Definition policy_allows_tool (policy : McpGlobalPolicy) (tool_name : str) : bool :=
  match p_allowed_tool_names policy with None => true | Some allowed => bool_decide (tool_name ∈ allowed) end.
Inductive DatabaseScope := AllDatabases | SelectedDatabases (allowed : list str) | NoDatabases.
Definition rule_for (policy : McpGlobalPolicy) (connection : ConnectionConfig) : option McpConnectionPolicy :=
  List.find (λ rule, bool_decide (r_connection_id rule = c_id connection)) (p_connection_policies policy).
Definition database_scope_for_connection (policy : McpGlobalPolicy) (connection : ConnectionConfig) : DatabaseScope :=
  match rule_for policy connection with
  | None => AllDatabases
  | Some rule => match r_database_scope rule with
                 | ScopeAll => AllDatabases
                 | ScopeSelected => SelectedDatabases (r_allowed_databases rule)
                 | ScopeNone => NoDatabases
                 end
  end.
Definition effective_policy_for_connection (policy : McpGlobalPolicy) (connection : ConnectionConfig) : McpGlobalPolicy :=
  let overlay := match rule_for policy connection with Some rule => if r_execution_mode_configured rule then Some rule else None | None => None end in
  {| p_read_only := p_read_only policy || match overlay with Some rule => r_read_only rule | None => false end;
     p_allow_dangerous_sql :=
       p_allow_dangerous_sql policy && match overlay with Some rule => negb (r_read_only rule) && r_allow_dangerous_sql rule | None => true end;
     p_allowed_connection_ids := p_allowed_connection_ids policy;
     p_allowed_tool_names := p_allowed_tool_names policy;
     p_connection_policies := [];
     p_query_timeout_secs := p_query_timeout_secs policy |}.
Record ResolvedConnection := { rc_connection : ConnectionConfig; rc_policy : McpGlobalPolicy; rc_database_scope : DatabaseScope }.
Definition resolved_connection (policy : McpGlobalPolicy) (connection : ConnectionConfig) : ResolvedConnection :=
  {| rc_connection := connection; rc_policy := effective_policy_for_connection policy connection;
     rc_database_scope := database_scope_for_connection policy connection |}.
Definition ensure_database_in_scope (scope : DatabaseScope) (database : str) : result unit str :=
  let refused := Err (tool_error "DATABASE_OUT_OF_SCOPE" (lit "Database " ++ in_quotes database ++ lit " is not allowed by DBX MCP settings for this connection.")) in
  match scope with
  | AllDatabases => Ok tt
  | SelectedDatabases allowed => if decide (database ∈ allowed) then Ok tt else refused
  | NoDatabases => refused
  end.

(** ** The scope of a server that serves one agent *)
Record McpScope := { sc_connection_ids : list str; sc_connection_name : option str; sc_database : option str; sc_schema : option str }.
Definition connection_scope_enabled (scope : McpScope) : bool :=
  negb (bool_decide (sc_connection_ids scope = [])) || bool_decide (is_Some (sc_connection_name scope)).
Definition scope_enabled (scope : McpScope) : bool :=
  connection_scope_enabled scope || bool_decide (is_Some (sc_database scope)) || bool_decide (is_Some (sc_schema scope)).
Definition scope_matches (scope : McpScope) (connection : ConnectionConfig) : bool :=
  if decide (sc_connection_ids scope ≠ []) then bool_decide (c_id connection ∈ sc_connection_ids scope)
  else bool_decide (sc_connection_name scope = Some (c_name connection)).
Record ConnectionSelector := { sel_connection_id : option str; sel_connection_name : option str }.
Definition trimmed (s : option str) : option str := t ← s; non_empty (trim t).
Definition ambiguous_connections (name : str) (connections : list ConnectionConfig) : str :=
  lit "Multiple connections found with name " ++ in_quotes name ++ lit ". Please specify connection_id:" ++ [NL] ++
  join [NL] ((λ c, lit "- " ++ c_id c ++ lit ": " ++ lit (debug_name (c_db_type c)) ++ lit " @ " ++ c_host c ++ lit ":" ++ show_N (c_port c)) <$> connections).
Definition out_of_scope (message : str) : str := tool_error "CONNECTION_OUT_OF_SCOPE" message.

Definition resolve_connection (scope : McpScope) (loaded_policy : result McpGlobalPolicy str) (loaded : result (list ConnectionConfig) str)
    (selector : ConnectionSelector) : result ResolvedConnection str :=
  match loaded_policy with
  | Err e => Err (backend_tool_error "MCP_POLICY_UNAVAILABLE" e)
  | Ok policy =>
  match loaded with
  | Err e => Err (tool_error "CONNECTION_LOAD_ERROR" e)
  | Ok connections =>
  match trimmed (sel_connection_id selector) with
  | Some id =>
      match List.find (λ c, bool_decide (c_id c = id)) connections with
      | None => Err (tool_error "CONNECTION_NOT_FOUND" (lit "Connection with id " ++ in_quotes id ++ lit " not found."))
      | Some connection =>
          if connection_scope_enabled scope && negb (scope_matches scope connection) then
            Err (out_of_scope (lit "Connection " ++ in_quotes id ++ lit " is outside this DBX AI session scope."))
          else if negb (policy_allows_connection policy connection) then
            Err (out_of_scope (lit "Connection " ++ in_quotes id ++ lit " is not allowed by DBX MCP settings."))
          else Ok (resolved_connection policy connection)
      end
  | None =>
      if connection_scope_enabled scope then
        match List.find (scope_matches scope) connections with
        | None => Err (tool_error "CONNECTION_NOT_FOUND" (lit "Scoped DBX connection was not found."))
        | Some connection =>
            let outside := match trimmed (sel_connection_name selector) with
                           | Some name => if decide (name ≠ c_name connection ∧ name ≠ c_id connection) then Some name else None
                           | None => None
                           end in
            match outside with
            | Some name => Err (out_of_scope (lit "Connection " ++ in_quotes name ++ lit " is outside this DBX AI session scope."))
            | None =>
                if negb (policy_allows_connection policy connection) then
                  Err (out_of_scope (lit "The DBX AI session scope is outside the global MCP connection allowlist."))
                else Ok (resolved_connection policy connection)
            end
        end
      else
        match trimmed (sel_connection_name selector) with
        | None => Err (tool_error "CONNECTION_NOT_FOUND" (lit "Either connection_id or connection_name is required."))
        | Some name =>
            let matching := filter (λ c, eq_ignore_ascii_case (c_name c) name = true) connections in
            match filter (λ c, policy_allows_connection policy c = true) matching with
            | [] =>
                if decide (matching = []) then Err (tool_error "CONNECTION_NOT_FOUND" (lit "Connection " ++ in_quotes name ++ lit " not found."))
                else Err (out_of_scope (lit "Connection " ++ in_quotes name ++ lit " is not allowed by DBX MCP settings."))
            | [connection] => Ok (resolved_connection policy connection)
            | allowed => Err (tool_error "AMBIGUOUS_CONNECTION" (ambiguous_connections name allowed))
            end
        end
  end end end.
Definition resolve_database (scope : McpScope) (requested : option str) (resolved : ResolvedConnection) : result str str :=
  let requested := trimmed requested in
  let database :=
    match sc_database scope with
    | Some scoped =>
        match requested with
        | Some r => if decide (r ≠ scoped) then
                      Err (tool_error "DATABASE_OUT_OF_SCOPE" (lit "Database " ++ in_quotes r ++ lit " is outside the scoped database " ++ in_quotes scoped ++ lit "."))
                    else Ok scoped
        | None => Ok scoped
        end
    | None => Ok (default [] (match requested with Some r => Some r | None => c_database (rc_connection resolved) end))
    end in
  match database with
  | Err e => Err e
  | Ok database => match ensure_database_in_scope (rc_database_scope resolved) database with Ok _ => Ok database | Err e => Err e end
  end.
Definition ensure_tool_allowed (loaded_policy : result McpGlobalPolicy str) (tool_name : str) : result unit str :=
  match loaded_policy with
  | Err e => Err (backend_tool_error "MCP_POLICY_UNAVAILABLE" e)
  | Ok policy =>
      if policy_allows_tool policy tool_name then Ok tt
      else Err (tool_error "TOOL_OUT_OF_SCOPE" (lit "Tool " ++ in_quotes tool_name ++ lit " is not allowed by DBX MCP settings."))
  end.
Definition is_database_discovery_sql (sql : str) : bool :=
  bool_decide (to_ascii_lowercase (trim (trim_end_matches (chr ";") (trim sql))) ∈ [lit "show databases"; lit "show schemas"]).

(** ** Permissions *)
Record AgentSqlPermissions := { allow_writes : bool; allow_dangerous : bool; confirmed_write_sql : option str }.
#[export] Instance AgentSqlPermissions_eq_dec : EqDecision AgentSqlPermissions.
Proof. solve_decision. Defined.
(** [confirmed_env] is the variable DBX_MCP_CONFIRMED_WRITE_SQL. *)
Definition mcp_permissions (confirmed_env : option str) (connection : ConnectionConfig) (policy : McpGlobalPolicy) : AgentSqlPermissions :=
  {| allow_writes := negb (p_read_only policy) && negb (c_read_only connection);
     allow_dangerous := negb (p_read_only policy) && negb (c_read_only connection) && p_allow_dangerous_sql policy;
     confirmed_write_sql := trimmed confirmed_env |}.

Section validation.
Context `{Patterns, Unicode, OracleTokenizer, WordTokenizer, ExprOrder, SqlParser, JsonText, Timestamps}.

Definition ensure_sql_database_scope (scope : DatabaseScope) (connection : ConnectionConfig) (active_database sql : str) : result unit str :=
  match scope with
  | SelectedDatabases allowed =>
      if sql_references_disallowed_database sql (c_db_type connection) active_database allowed then
        Err (tool_error "DATABASE_OUT_OF_SCOPE" (lit "SQL references a database that is not allowed by DBX MCP settings for this connection."))
      else Ok tt
  | _ => Ok tt
  end.
Definition validate_sql_policy (confirmed_env : option str) (connection : ConnectionConfig) (policy : McpGlobalPolicy) (database sql : str)
    (allow_database_switch : bool) : result AgentSqlPermissions str :=
  let d := c_db_type connection in
  if negb allow_database_switch && mcp_sql_has_forbidden_database_switch sql d then
    Err (tool_error "SQL_BLOCKED" (lit "MCP does not allow USE or persistent database switching outside a session. Open one with dbx_open_session to run stateful queries."))
  else match classify_sql_risk_for_database sql d with
  | Err e => Err (tool_error "SQL_BLOCKED" e)
  | Ok risk =>
      if decide (risk = RiskTransaction) then Err (tool_error "SQL_BLOCKED" (lit "Transaction statements are not supported by MCP."))
      else
        let is_write := bool_decide (risk ≠ RiskReadOnly) || is_write_sql_for_database sql d in
        if p_read_only policy && is_write then
          Err (tool_error "MCP_READ_ONLY" (lit "DBX global MCP read-only mode is enabled. SQL write blocked."))
        else if c_read_only connection && is_write then
          Err (tool_error "CONNECTION_READ_ONLY" (lit "Connection " ++ in_quotes (c_name connection) ++ lit " has read-only protection enabled. SQL write blocked."))
        else
          let high_risk := bool_decide (risk = RiskDdl) || is_dangerous_sql_for_database sql d in
          if high_risk && negb (p_allow_dangerous_sql policy) then Err (tool_error "SQL_BLOCKED" (lit "High-risk SQL is disabled in DBX MCP settings."))
          else if is_write && targets_production_database connection database sql then
            Err (tool_error "PRODUCTION_WRITE_BLOCKED" (lit "MCP cannot execute writes against a production database."))
          else Ok (mcp_permissions confirmed_env connection policy)
  end.

Definition target_of (active_database : str) (target : json) : result str str :=
  match target with
  | JString _ => Ok active_database
  | JObject fields =>
      let named := match field_of_object (lit "db") fields with
                   | Some db => Some db
                   | None => into ← field_of_object (lit "into") fields ≫= as_object; field_of_object (lit "db") into
                   end in
      Ok (default active_database (named ≫= as_str))
  | _ => Err (tool_error "QUERY_ERROR" (lit "MongoDB aggregate output target must be a string or object."))
  end.
Fixpoint targets_of (active_database : str) (targets : list json) : result (list str) str :=
  match targets with
  | [] => Ok []
  | t :: rest => match target_of active_database t with
                 | Err e => Err e
                 | Ok database => match targets_of active_database rest with Ok databases => Ok (database :: databases) | Err e => Err e end
                 end
  end.
Definition output_targets (stage : json) : list json :=
  match as_object stage with
  | Some fields => option_list (field_of_object (lit "$out") fields) ++ option_list (field_of_object (lit "$merge") fields)
  | None => []
  end.
Definition mongo_aggregate_target_databases (pipeline active_database : str) : result (list str) str :=
  match from_str pipeline ≫= as_array with
  | None => Err (tool_error "QUERY_ERROR" (lit "MongoDB aggregate pipeline must be a JSON array."))
  | Some stages => targets_of active_database (stages ≫= output_targets)
  end.
Fixpoint all_in_scope (scope : DatabaseScope) (databases : list str) : result unit str :=
  match databases with
  | [] => Ok tt
  | database :: rest => match ensure_database_in_scope scope database with Ok _ => all_in_scope scope rest | Err e => Err e end
  end.
Definition mongo_safety_message (policy : McpGlobalPolicy) (error : MongoSafetyError) : str :=
  match error with
  | WritesDisabled => tool_error (if p_read_only policy then "MCP_READ_ONLY" else "CONNECTION_READ_ONLY") (lit "MCP MongoDB execution is read-only in DBX MCP settings.")
  | EmptyFilter => tool_error "SQL_BLOCKED" (lit "MongoDB update/delete commands must include a non-empty filter unless high-risk operations are enabled in DBX MCP settings.")
  | DangerousCommand => tool_error "SQL_BLOCKED" (lit "Dangerous MongoDB command is disabled in DBX MCP settings.")
  | ProductionWrite => tool_error "PRODUCTION_WRITE_BLOCKED" (lit "MCP cannot execute writes against a production database.")
  end.
Definition scope_of_command (scope : DatabaseScope) (database : str) (command : MongoCommand) : result unit str :=
  match command with
  | CAggregate _ pipeline _ => match mongo_aggregate_target_databases pipeline database with Err e => Err e | Ok targets => all_in_scope scope targets end
  | _ => Ok tt
  end.
Definition production_of_command (connection : ConnectionConfig) (database : str) (command : MongoCommand) : bool :=
  match command with
  | CAggregate _ pipeline _ => mongo_pipeline_targets_production_database connection database pipeline
  | _ => is_production_database connection database
  end.
Definition validate_mongo_command (confirmed_env : option str) (connection : ConnectionConfig) (policy : McpGlobalPolicy) (scope : DatabaseScope)
    (database source : str) : result MongoCommand str :=
  match parse source with
  | Err e => Err (tool_error "QUERY_ERROR" (e ++ lit " Use MongoDB shell-style commands such as db.collection.find({}), db.collection.aggregate([]), or db.collection.countDocuments({})."))
  | Ok (CRunCommand _) => Err (tool_error "SQL_BLOCKED" (lit "MongoDB runCommand is not available through MCP; review and execute it manually in DBX."))
  | Ok command =>
      match scope_of_command scope database command with
      | Err e => Err e
      | Ok _ =>
          let permissions := mcp_permissions confirmed_env connection policy in
          match validate_safety command (allow_writes permissions) (allow_dangerous permissions) (production_of_command connection database command) with
          | Err e => Err (mongo_safety_message policy e)
          | Ok _ => Ok command
          end
      end
  end.

(** ** [dbx_execute_query] *)
Inductive Dispatch :=
| ListDatabases (resolved : ResolvedConnection)
| ExecuteMongo (connection : ConnectionConfig) (database : str) (command : MongoCommand)
| ExecuteSql (connection : ConnectionConfig) (database sql : str) (session : option McpSession) (permissions : AgentSqlPermissions).
Record ExecuteQueryRequest := { q_selector : ConnectionSelector; q_database : option str; q_session_id : option str; q_sql : str }.
(** The tool policy and the policy of the connection are loaded one after the
    other.  The second part of the result are the sessions that have expired. *)
Definition execute_query (scope : McpScope) (confirmed_env : option str) (now : N) (tool_policy loaded_policy : result McpGlobalPolicy str)
    (loaded : result (list ConnectionConfig) str) (request : ExecuteQueryRequest) (sessions : McpSessionState)
    : McpSessionState * list McpSession * result Dispatch str :=
  match ensure_tool_allowed tool_policy (lit "dbx_execute_query") with
  | Err e => (sessions, [], Err e)
  | Ok _ =>
  match resolve_connection scope loaded_policy loaded (q_selector request) with
  | Err e => (sessions, [], Err e)
  | Ok resolved =>
  let connection := rc_connection resolved in
  if decide (c_db_type connection = DatabaseType.Redis) then
    (sessions, [], Err (tool_error "REDIS_COMMAND_REQUIRED" (lit "Redis connections do not accept SQL through dbx_execute_query. Use dbx_execute_redis_command.")))
  else if is_database_discovery_sql (q_sql request) then (sessions, [], Ok (ListDatabases resolved))
  else
  let '(sessions, session, expired) :=
    match trimmed (q_session_id request) with
    | None => (sessions, Ok None, [])
    | Some session_id =>
        match resolve now session_id sessions with
        | (st, Some s, expired) =>
            (st, if decide (s_connection_id s = c_id connection) then Ok (Some s)
                 else Err (tool_error "SESSION_CONNECTION_MISMATCH" (lit "Session " ++ in_quotes session_id ++ lit " is bound to a different connection.")), expired)
        | (st, None, expired) =>
            (st, Err (tool_error "SESSION_NOT_FOUND" (lit "Session " ++ in_quotes session_id ++ lit " not found or expired. Open a new one with dbx_open_session.")), expired)
        end
    end in
  (sessions, expired,
   match session with
   | Err e => Err e
   | Ok session =>
   match resolve_database scope (q_database request) resolved with
   | Err e => Err e
   | Ok database =>
   let mismatch := match session with Some s => if decide (s_database s ≠ database) then Some s else None | None => None end in
   match mismatch with
   | Some s => Err (tool_error "SESSION_DATABASE_MISMATCH"
                      (lit "Session " ++ in_quotes (s_id s) ++ lit " is bound to database " ++ in_quotes (s_database s) ++ lit ", not " ++ in_quotes database ++ lit "."))
   | None =>
   if decide (c_db_type connection = DatabaseType.MongoDb) then
     match validate_mongo_command confirmed_env connection (rc_policy resolved) (rc_database_scope resolved) database (q_sql request) with
     | Err e => Err e
     | Ok command => Ok (ExecuteMongo connection database command)
     end
   else
     let allow_database_switch := bool_decide (is_Some session) && bool_decide (sc_database scope = None) in
     match ensure_sql_database_scope (rc_database_scope resolved) connection database (q_sql request) with
     | Err e => Err e
     | Ok _ =>
     match validate_sql_policy confirmed_env connection (rc_policy resolved) database (q_sql request) allow_database_switch with
     | Err e => Err e
     | Ok permissions => Ok (ExecuteSql connection database (q_sql request) session permissions)
     end end
   end end end)
  end end.
End validation.

(** ** What reaches the backend *)
Lemma in_scope_spec scope database :
  ensure_database_in_scope scope database = Ok tt ↔
  match scope with AllDatabases => True | SelectedDatabases allowed => database ∈ allowed | NoDatabases => False end.
Proof. unfold ensure_database_in_scope. destruct scope; [done | case_decide; naive_solver | naive_solver]. Qed.
Lemma ok_unit {E} (r : result unit E) u : r = Ok u → r = Ok tt.
Proof. by destruct u. Qed.
Lemma find_elem_of {A} (f : A → bool) l x : List.find f l = Some x → x ∈ l ∧ f x = true.
Proof. rewrite list_elem_of_In. apply find_some. Qed.

Lemma resolve_connection_ok scope policy connections selector resolved :
  resolve_connection scope (Ok policy) (Ok connections) selector = Ok resolved →
  ∃ c, resolved = resolved_connection policy c ∧ c ∈ connections ∧ policy_allows_connection policy c = true ∧
    (connection_scope_enabled scope = true → scope_matches scope c = true).
Proof.
  unfold resolve_connection. destruct (trimmed (sel_connection_id selector)) as [id |].
  - destruct (List.find _ connections) as [c |] eqn:E; [| done]. apply find_elem_of in E as [Hin _].
    destruct (connection_scope_enabled scope && negb (scope_matches scope c)) eqn:Es; [done |].
    destruct (policy_allows_connection policy c) eqn:Ep; [| done]. intros [= <-]. exists c. repeat split; [done | done |].
    intros Hen. rewrite Hen in Es. by apply negb_false_iff in Es.
  - destruct (connection_scope_enabled scope) eqn:Es.
    + destruct (List.find _ connections) as [c |] eqn:E; [| done]. apply find_elem_of in E as [Hin Hm].
      intros Hr. exists c. destruct (trimmed (sel_connection_name selector)); [destruct (decide (_ ∧ _)); [done |] |];
        (destruct (policy_allows_connection policy c); [| done]); by injection Hr as <-.
    + destruct (trimmed (sel_connection_name selector)) as [name |]; [| done].
      destruct (filter _ (filter _ connections)) as [| c [| c' l]] eqn:E; [by destruct (decide _) | | done].
      intros [= <-]. assert (c ∈ [c]) as Hc by left. rewrite <- E in Hc. apply list_elem_of_filter in Hc as [Hp [_ Hin]%list_elem_of_filter].
      by exists c.
Qed.

Lemma resolve_database_ok scope requested resolved database :
  resolve_database scope requested resolved = Ok database → ensure_database_in_scope (rc_database_scope resolved) database = Ok tt.
Proof.
  assert (∀ db, match ensure_database_in_scope (rc_database_scope resolved) db with Ok _ => Ok db | Err e => Err e end = Ok database →
            ensure_database_in_scope (rc_database_scope resolved) database = Ok tt) as Hdb.
  { intros db. destruct (ensure_database_in_scope _ db) as [u |] eqn:E; [| done]. intros [= <-]. by apply ok_unit in E. }
  unfold resolve_database. destruct (sc_database scope); [destruct (trimmed requested); [destruct (decide _); [done |] |] |]; apply Hdb.
Qed.

Section admission.
Context `{Patterns, Unicode, OracleTokenizer, WordTokenizer, ExprOrder, SqlParser, JsonText, Timestamps}.

Lemma validate_sql_policy_ok confirmed_env connection policy database sql switch permissions :
  validate_sql_policy confirmed_env connection policy database sql switch = Ok permissions →
  permissions = mcp_permissions confirmed_env connection policy ∧
  (switch = false → mcp_sql_has_forbidden_database_switch sql (c_db_type connection) = false) ∧
  ∃ risk, classify_sql_risk_for_database sql (c_db_type connection) = Ok risk ∧ risk ≠ RiskTransaction ∧
    (risk ≠ RiskReadOnly ∨ is_write_sql_for_database sql (c_db_type connection) = true →
       p_read_only policy = false ∧ c_read_only connection = false ∧ targets_production_database connection database sql = false) ∧
    (risk = RiskDdl ∨ is_dangerous_sql_for_database sql (c_db_type connection) = true → p_allow_dangerous_sql policy = true).
Proof.
  unfold validate_sql_policy. destruct (negb switch && _) eqn:Esw; [done |].
  destruct (classify_sql_risk_for_database _ _) as [risk |]; [| done]. destruct (decide (risk = RiskTransaction)) as [| Ht]; [done |].
  destruct (p_read_only policy && _) eqn:Er; [done |]. destruct (c_read_only connection && _) eqn:Ec; [done |].
  destruct (_ && negb _) eqn:Eh; [done |]. destruct (_ && targets_production_database _ _ _) eqn:Ep; [done |]. intros [= <-].
  split; [done |]. split; [intros ->; by rewrite andb_true_l in Esw |]. exists risk. split; [done |]. split; [done |]. split.
  - intros Hw. assert (bool_decide (risk ≠ RiskReadOnly) || is_write_sql_for_database sql (c_db_type connection) = true) as Hb
      by (apply orb_true_iff; by rewrite bool_decide_eq_true).
    rewrite Hb, andb_true_r in Er, Ec. rewrite Hb in Ep. done.
  - intros Hd. assert (bool_decide (risk = RiskDdl) || is_dangerous_sql_for_database sql (c_db_type connection) = true) as Hb
      by (apply orb_true_iff; by rewrite bool_decide_eq_true).
    rewrite Hb in Eh. by apply negb_false_iff in Eh.
Qed.

(** What the rule of a connection, if it has one, says about its use. *)
Definition rule_permits (policy : McpGlobalPolicy) (connection : ConnectionConfig) (P : McpConnectionPolicy → Prop) : Prop :=
  ∀ rule, rule_for policy connection = Some rule → P rule.

Lemma effective_read_only policy c :
  p_read_only (effective_policy_for_connection policy c) = false →
  p_read_only policy = false ∧ rule_permits policy c (λ rule, r_execution_mode_configured rule = true → r_read_only rule = false).
Proof.
  unfold effective_policy_for_connection, rule_permits. cbn [p_read_only]. rewrite orb_false_iff. intros [Hp Hr]. split; [done |].
  intros rule Hrule Hc. by rewrite Hrule, Hc in Hr.
Qed.
Lemma effective_dangerous policy c :
  p_allow_dangerous_sql (effective_policy_for_connection policy c) = true →
  p_allow_dangerous_sql policy = true ∧
  rule_permits policy c (λ rule, r_execution_mode_configured rule = true → r_read_only rule = false ∧ r_allow_dangerous_sql rule = true).
Proof.
  unfold effective_policy_for_connection, rule_permits. cbn [p_allow_dangerous_sql]. rewrite andb_true_iff. intros [Hp Hr]. split; [done |].
  intros rule Hrule Hc. rewrite Hrule, Hc in Hr. apply andb_true_iff in Hr as [Hr1 Hr2]. by apply negb_true_iff in Hr1.
Qed.
Lemma scope_of_rule policy c database :
  ensure_database_in_scope (database_scope_for_connection policy c) database = Ok tt →
  rule_permits policy c (λ rule, r_database_scope rule ≠ ScopeNone ∧ (r_database_scope rule = ScopeSelected → database ∈ r_allowed_databases rule)).
Proof.
  rewrite in_scope_spec. unfold database_scope_for_connection, rule_permits. intros Hs rule Hr. rewrite Hr in Hs.
  by destruct (r_database_scope rule).
Qed.

Lemma execute_inv scope confirmed_env now tool_policy policy connections request sessions st expired dispatch :
  execute_query scope confirmed_env now tool_policy (Ok policy) (Ok connections) request sessions = (st, expired, Ok dispatch) →
  ∃ c, c ∈ connections ∧ policy_allows_connection policy c = true ∧ (connection_scope_enabled scope = true → scope_matches scope c = true) ∧
  let in_scope database := ensure_database_in_scope (database_scope_for_connection policy c) database = Ok tt in
  match dispatch with
  | ListDatabases resolved => resolved = resolved_connection policy c
  | ExecuteMongo connection database command =>
      connection = c ∧ in_scope database ∧
      validate_mongo_command confirmed_env c (effective_policy_for_connection policy c) (database_scope_for_connection policy c) database (q_sql request) = Ok command
  | ExecuteSql connection database sql session permissions =>
      connection = c ∧ sql = q_sql request ∧ in_scope database ∧
      (∀ s, session = Some s → s_connection_id s = c_id c ∧ s_database s = database) ∧
      ensure_sql_database_scope (database_scope_for_connection policy c) c database sql = Ok tt ∧
      validate_sql_policy confirmed_env c (effective_policy_for_connection policy c) database sql
        (bool_decide (is_Some session) && bool_decide (sc_database scope = None)) = Ok permissions
  end.
Proof.
  unfold execute_query. destruct (ensure_tool_allowed _ _); [| by intros [= _ _ ?]].
  destruct (resolve_connection _ _ _ _) as [resolved |] eqn:Er; [| by intros [= _ _ ?]].
  apply resolve_connection_ok in Er as (c & -> & Hin & Hp & Hs). cbn [rc_connection resolved_connection rc_policy rc_database_scope].
  intros He. exists c. repeat (split; [done |]). revert He.
  destruct (decide (c_db_type c = DatabaseType.Redis)); [by intros [= _ _ ?] |].
  destruct (is_database_discovery_sql _); [by intros [= _ _ <-] |].
  set (step := match trimmed (q_session_id request) with None => _ | Some _ => _ end).
  assert (∀ s, step.1.2 = Ok (Some s) → s_connection_id s = c_id c) as Hstep.
  { intros s. unfold step. destruct (trimmed _) as [sid |]; [| by intros [= ?]]. destruct (resolve now sid sessions) as [[st' [s' |]] exp]; [| done].
    cbn [fst snd]. case_decide; [by intros [= <-] | done]. }
  destruct step as [[st1 session1] exp1]. cbn [fst snd] in Hstep. intros [= _ _ Hd].
  destruct session1 as [session1 |]; [| done]. destruct (resolve_database _ _ _) as [db |] eqn:Edb; [| done].
  apply resolve_database_ok in Edb as Hdb. cbn [rc_database_scope resolved_connection] in Hdb.
  assert (∀ s, session1 = Some s → s_database s = db) as Hbound.
  { intros s ->. destruct (decide (s_database s ≠ db)) as [| Hn]; [done | by apply dec_stable in Hn]. }
  assert (match session1 with Some s => if decide (s_database s ≠ db) then Some s else None | None => None end = None) as Em.
  { destruct session1 as [s |]; [| done]. rewrite decide_False; [done |]. intros Hne. by apply Hne, Hbound. }
  rewrite Em in Hd.
  destruct (decide (c_db_type c = DatabaseType.MongoDb)); [by destruct (validate_mongo_command _ _ _ _ _ _) as [command |] eqn:Ev; [injection Hd as <- |] |].
  destruct (ensure_sql_database_scope _ _ _ _) as [u |] eqn:Esc; [| done]. apply ok_unit in Esc.
  destruct (validate_sql_policy _ _ _ _ _ _) as [perms |] eqn:Ev; [| done]. injection Hd as <-.
  repeat (split; [done |]). split; [| done]. intros s ->. split; [by apply Hstep | by apply Hbound].
Qed.

(** A command for MongoDB writes only with permission, outside production and,
    with the stages of a pipeline too, inside the scope. *)
Lemma target_found active_database targets databases t database :
  targets_of active_database targets = Ok databases → t ∈ targets → target_of active_database t = Ok database → database ∈ databases.
Proof.
  revert databases. induction targets as [| x targets IH]; intros databases; [by intros _ Ht%not_elem_of_nil |]. cbn [targets_of].
  destruct (target_of active_database x) as [db |] eqn:Ex; [| done]. destruct (targets_of active_database targets) as [dbs |]; [| done].
  intros [= <-] [-> | Ht]%elem_of_cons Hd; [rewrite Hd in Ex; injection Ex as ->; left | right; by apply IH].
Qed.
Lemma all_in_scope_spec scope databases database :
  all_in_scope scope databases = Ok tt → database ∈ databases → ensure_database_in_scope scope database = Ok tt.
Proof.
  induction databases as [| x databases IH]; [by intros _ Hd%not_elem_of_nil |]. cbn [all_in_scope].
  destruct (ensure_database_in_scope scope x) as [u |] eqn:Ex; [| done]. intros Hall [-> | Hd]%elem_of_cons; [by apply ok_unit in Ex | by apply IH].
Qed.
Lemma validate_mongo_command_ok confirmed_env connection policy scope database source command :
  validate_mongo_command confirmed_env connection policy scope database source = Ok command →
  parse source = Ok command ∧ (∀ text, command ≠ CRunCommand text) ∧ scope_of_command scope database command = Ok tt ∧
  validate_safety command (negb (p_read_only policy) && negb (c_read_only connection))
    (negb (p_read_only policy) && negb (c_read_only connection) && p_allow_dangerous_sql policy)
    (production_of_command connection database command) = Ok tt.
Proof.
  unfold validate_mongo_command. destruct (parse source) as [cmd |]; [| done].
  assert ((∃ text, cmd = CRunCommand text) ∨ ∀ text, cmd ≠ CRunCommand text) as [(text & ->) | Hn] by (destruct cmd; eauto); [done |]. intros Hv.
  assert (match scope_of_command scope database cmd with
          | Err e => Err e
          | Ok _ => match validate_safety cmd (negb (p_read_only policy) && negb (c_read_only connection))
                            (negb (p_read_only policy) && negb (c_read_only connection) && p_allow_dangerous_sql policy)
                            (production_of_command connection database cmd) with
                    | Err e => Err (mongo_safety_message policy e) | Ok _ => Ok cmd end
          end = Ok command) as Hv' by (destruct cmd; first [exact Hv | by destruct (Hn command_json)]).
  destruct (scope_of_command scope database cmd) as [u |] eqn:Es; [| done]. apply ok_unit in Es.
  destruct (validate_safety cmd _ _ _) as [u' |] eqn:Ev; [| done]. apply ok_unit in Ev. injection Hv' as <-. naive_solver.
Qed.
(** The databases that a command changes. *)
Definition command_writes (database : str) (command : MongoCommand) (target : str) : Prop :=
  match command with
  | CAggregate _ pipeline _ => ∃ stages stage, from_str pipeline = Some (JArray stages) ∧ stage ∈ stages ∧ stage_writes database stage target
  | _ => is_mutating command = true ∧ target = database
  end.

Lemma field_key key fields v : field_of_object key fields = Some v → existsb (λ kv : str * json, bool_decide (kv.1 = key)) fields = true.
Proof.
  induction fields as [| [k x] fields IH]; [done |]. cbn [field_of_object existsb fst]. destruct (decide (k = key)) as [-> |].
  - intros _. by rewrite bool_decide_eq_true_2.
  - intros Hv. rewrite IH by done. apply orb_true_r.
Qed.
Lemma stage_fields database stage target :
  stage_writes database stage target → ∃ fs, stage = JObject fs ∧ (is_Some (field_of_object (lit "$out") fs) ∨ is_Some (field_of_object (lit "$merge") fs)).
Proof. intros []; eexists; (split; [done |]); eauto. Qed.
Lemma writing_stage_mutates collection pipeline options stages stage database target :
  from_str pipeline = Some (JArray stages) → stage ∈ stages → stage_writes database stage target → is_mutating (CAggregate collection pipeline options) = true.
Proof.
  intros Hp Hs Hw. cbn [is_mutating]. unfold aggregate_writes, parse_json_value. rewrite Hp. cbn [mbind option_bind as_array].
  apply existsb_exists. exists stage. split; [by apply list_elem_of_In |]. apply stage_fields in Hw as (fs & -> & Hf). cbn [as_object].
  destruct Hf as [[v Hf%field_key] | [v Hf%field_key]]; apply existsb_exists in Hf as (kv & Hin & Hk%bool_decide_eq_true);
    apply existsb_exists; exists kv; (split; [done |]); apply bool_decide_eq_true; auto.
Qed.
Lemma written_target_found database stage target :
  stage_writes database stage target → ∃ t, t ∈ output_targets stage ∧ target_of database t = Ok target.
Proof.
  intros Hw. unfold output_targets.
  destruct Hw as [fs c Hf | fs t db Hf Hdb | fs c Hf | fs t c Hf Hn Hi | fs t i db Hf Hn Hi Hdb | fs t i Hf Hn Hi Hdb]; cbn [as_object]; rewrite Hf.
  - eexists. split; [left | done].
  - eexists. split; [left |]. cbn [target_of]. by rewrite Hdb.
  - eexists. split; [apply elem_of_app; right; left | done].
  - eexists. split; [apply elem_of_app; right; left |]. cbn [target_of]. by rewrite Hn, Hi.
  - eexists. split; [apply elem_of_app; right; left |]. cbn [target_of]. rewrite Hn, Hi. cbn [mbind option_bind as_object]. by rewrite Hdb.
  - eexists. split; [apply elem_of_app; right; left |]. cbn [target_of]. rewrite Hn, Hi. cbn [mbind option_bind as_object]. by rewrite Hdb.
Qed.
Lemma written_target_in_scope scope database collection pipeline options stages stage target :
  scope_of_command scope database (CAggregate collection pipeline options) = Ok tt → from_str pipeline = Some (JArray stages) → stage ∈ stages →
  stage_writes database stage target → ensure_database_in_scope scope target = Ok tt.
Proof.
  cbn [scope_of_command]. unfold mongo_aggregate_target_databases. intros Hs Hp Hin Hw. rewrite Hp in Hs. cbn [mbind option_bind as_array] in Hs.
  destruct (targets_of database (stages ≫= output_targets)) as [targets |] eqn:Et; [| done]. eapply all_in_scope_spec; [exact Hs |].
  apply written_target_found in Hw as (t & Ht & Htt). eapply target_found; [exact Et | | exact Htt]. apply list_elem_of_bind. by exists stage.
Qed.

(** C13: A database that a MongoDB command handed to the backend changes, by its method or by an
    $out or $merge stage of its pipeline, is not a production database and lies in the scope of the
    connection's rule, and neither the policy nor the connection nor the rule is read-only. *)
Theorem executed_mongo_commands_respect_the_policy scope confirmed_env now tool_policy policy connections request sessions st expired connection database
    command target :
  execute_query scope confirmed_env now tool_policy (Ok policy) (Ok connections) request sessions =
    (st, expired, Ok (ExecuteMongo connection database command)) →
  command_writes database command target →
  p_read_only policy = false ∧ c_read_only connection = false ∧ is_production_database connection target = false ∧
  rule_permits policy connection (λ rule,
    (r_execution_mode_configured rule = true → r_read_only rule = false) ∧ r_database_scope rule ≠ ScopeNone ∧
    (r_database_scope rule = ScopeSelected → target ∈ r_allowed_databases rule)).
Proof.
  intros He Hw. apply execute_inv in He as (c & _ & _ & _ & -> & Hdb & Hv). apply validate_mongo_command_ok in Hv as (_ & _ & Hsc & [Hm _]%validate_safety_ok).
  assert (is_mutating command = true ∧ (production_of_command c database command = false → is_production_database c target = false) ∧
          ensure_database_in_scope (database_scope_for_connection policy c) target = Ok tt) as (Hmut & Hprod & Hin).
  { destruct command; cbn [command_writes] in Hw; try (by destruct Hw as [? ->]). destruct Hw as (stages & stage & Hp & Hin & Hw).
    split; [by eapply writing_stage_mutates |]. split; [| by eapply written_target_in_scope].
    cbn [production_of_command]. intros Hf. by eapply pipelines_write_outside_production. }
  destruct (Hm Hmut) as [[Hro Hco]%andb_true_iff Hp]. apply negb_true_iff in Hro, Hco. apply effective_read_only in Hro as [Hro Hrule].
  split; [done |]. split; [done |]. split; [by apply Hprod |]. intros rule Hr. split; [by apply Hrule |]. by apply (scope_of_rule _ _ _ Hin).
Qed.

(** C7: SQL that the tool dbx_execute_query hands to the backend runs on a loaded connection that
    the policy and the scope of the server allow, with a session of that connection and database, in
    a database of the rule's scope, and, with a list of databases, names only databases of the list
    without doubt; it is no transaction control; if it is a write by the risk classification or by
    the keyword scan, neither the policy nor the connection nor the connection's rule is read-only
    and the production check has passed; if it is DDL or dangerous, policy and rule allow that. *)
Theorem executed_sql_respects_the_policy scope confirmed_env now tool_policy policy connections request sessions st expired connection database sql session
    permissions :
  execute_query scope confirmed_env now tool_policy (Ok policy) (Ok connections) request sessions =
    (st, expired, Ok (ExecuteSql connection database sql session permissions)) →
  let d := c_db_type connection in
  connection ∈ connections ∧ policy_allows_connection policy connection = true ∧
  (connection_scope_enabled scope = true → scope_matches scope connection = true) ∧
  (∀ s, session = Some s → s_connection_id s = c_id connection ∧ s_database s = database) ∧
  rule_permits policy connection (λ rule, r_database_scope rule ≠ ScopeNone ∧
    (r_database_scope rule = ScopeSelected →
       database ∈ r_allowed_databases rule ∧ sql_references_disallowed_database sql d database (r_allowed_databases rule) = false)) ∧
  ∃ risk, classify_sql_risk_for_database sql d = Ok risk ∧ risk ≠ RiskTransaction ∧
    (risk ≠ RiskReadOnly ∨ is_write_sql_for_database sql d = true →
       p_read_only policy = false ∧ c_read_only connection = false ∧ targets_production_database connection database sql = false ∧
       rule_permits policy connection (λ rule, r_execution_mode_configured rule = true → r_read_only rule = false)) ∧
    (risk = RiskDdl ∨ is_dangerous_sql_for_database sql d = true →
       p_allow_dangerous_sql policy = true ∧
       rule_permits policy connection (λ rule, r_execution_mode_configured rule = true → r_read_only rule = false ∧ r_allow_dangerous_sql rule = true)).
Proof.
  intros He d. apply execute_inv in He as (c & Hin & Hp & Hs & -> & _ & Hdb & Hsess & Hsc & Hv).
  apply validate_sql_policy_ok in Hv as (_ & _ & risk & Hr & Ht & Hw & Hd). repeat (split; [done |]). split.
  - intros rule Hrule. pose proof (scope_of_rule _ _ _ Hdb rule Hrule) as [Hn Ha]. split; [done |]. intros Hsel. split; [by apply Ha |].
    unfold database_scope_for_connection in Hsc. rewrite Hrule, Hsel in Hsc. cbn [ensure_sql_database_scope] in Hsc.
    by destruct (sql_references_disallowed_database _ _ _ _).
  - exists risk. split; [done |]. split; [done |]. split.
    + intros (Hro & Hco & Htp)%Hw. apply effective_read_only in Hro as [? ?]. done.
    + intros Hda%Hd. by apply effective_dangerous.
Qed.
End admission.

(** ** Saved policies only restrict *)
Lemma elem_of_dedup x l : x ∈ dedup_sorted l ↔ x ∈ l.
Proof.
  induction l as [| a l IH]; [done |]. destruct l as [| b l]; [done |].
  change (dedup_sorted (a :: b :: l)) with (if decide (a = b) then dedup_sorted (b :: l) else a :: dedup_sorted (b :: l)).
  case_decide as E; [subst; rewrite IH, !elem_of_cons; naive_solver | by rewrite elem_of_cons, IH, (elem_of_cons (b :: l))].
Qed.
Lemma elem_of_normalized x names : x ∈ normalize_names names ↔ x ≠ [] ∧ ∃ n, n ∈ names ∧ trim n = x.
Proof.
  unfold normalize_names. rewrite elem_of_dedup, merge_sort_Permutation, list_elem_of_omap. unfold non_empty. split.
  - intros (n & Hn & Hx). case_decide; [done |]. injection Hx as <-. split; [done |]. by exists n.
  - intros (Hx & n & Hn & <-). exists n. split; [done |]. by rewrite decide_False.
Qed.

(** The databases that a scope lets through. *)
Definition scope_allows (scope : McpDatabaseScope) (databases : list str) (database : str) : Prop :=
  match scope with ScopeAll => True | ScopeSelected => ∃ n, n ∈ databases ∧ trim n = database | ScopeNone => False end.
Definition all_normal (databases : list str) : Prop := ∀ n, n ∈ databases → n ≠ [] ∧ trim n = n.
Lemma normalized_normal names : all_normal (normalize_names names).
Proof. intros n (Hn & m & _ & <-)%elem_of_normalized. split; [done | apply trim_idemp]. Qed.
Lemma normal_allows databases database : (∃ n, n ∈ normalize_names databases ∧ trim n = database) → ∃ n, n ∈ databases ∧ trim n = database.
Proof. intros (n & (_ & m & Hm & <-)%elem_of_normalized & <-). exists m. by rewrite trim_idemp. Qed.
Lemma intersection_restricts ls ld rs rd database :
  scope_allows (intersect_mcp_database_scopes ls ld rs rd).1 (intersect_mcp_database_scopes ls ld rs rd).2 database →
  scope_allows ls ld database ∧ scope_allows rs rd database.
Proof.
  destruct ls, rs; cbn [intersect_mcp_database_scopes fst snd scope_allows]; try done; try (intros H; by apply normal_allows in H).
  intros (n & [Hr Hl]%list_elem_of_filter & <-). split; apply normal_allows; by exists n.
Qed.

(** A merged rule is as strict as a rule that went into it. *)
Definition stricter (current rule : McpConnectionPolicy) : Prop :=
  (r_execution_mode_configured rule = true →
     r_execution_mode_configured current = true ∧ (r_read_only rule = true → r_read_only current = true) ∧
     (r_allow_dangerous_sql current = true → r_allow_dangerous_sql rule = true)) ∧
  ∀ database, scope_allows (r_database_scope current) (r_allowed_databases current) database →
    scope_allows (r_database_scope rule) (r_allowed_databases rule) database.
Lemma merge_stricter current rule : stricter (merge_rule current rule) rule.
Proof.
  split; [| by intros database [_ ?]%intersection_restricts]. intros Hc. unfold merge_rule.
  cbn [r_execution_mode_configured r_read_only r_allow_dangerous_sql]. rewrite Hc. split; [done |].
  destruct (r_execution_mode_configured current); [| done]. split; [intros ->; apply orb_true_r | by intros [_ ?]%andb_true_iff].
Qed.
Lemma merge_keeps current rule old : stricter current old → stricter (merge_rule current rule) old.
Proof.
  intros [Hm Hs]. split; [| intros database [Hc _]%intersection_restricts; by apply Hs]. intros Ho. destruct (Hm Ho) as (Hc & Hr & Hd). unfold merge_rule.
  cbn [r_execution_mode_configured r_read_only r_allow_dangerous_sql]. rewrite Hc, orb_true_r. split; [done |].
  destruct (r_execution_mode_configured rule); [| done]. split; [intros H; by rewrite (Hr H) | intros [H _]%andb_true_iff; by apply Hd].
Qed.
Lemma add_rule_spec policies rule id :
  add_rule policies rule !! id = policies !! id ∨
  id = trim (r_connection_id rule) ∧ id ≠ [] ∧ ∃ new, add_rule policies rule !! id = Some new ∧ stricter new rule ∧
    match policies !! id with Some current => new = merge_rule current rule | None => r_connection_id new = id end.
Proof.
  unfold add_rule. case_decide as Hid; [by left |].
  destruct (decide (id = trim (r_connection_id rule))) as [-> | Hne].
  - right. split; [done |]. split; [done |]. destruct (policies !! trim (r_connection_id rule)) as [current |].
    + exists (merge_rule current rule). rewrite lookup_insert_eq. split; [done |]. split; [apply merge_stricter | done].
    + eexists. rewrite lookup_insert_eq. split; [done |]. split; [| done]. split; [done |].
      intros database. cbn [r_database_scope r_allowed_databases]. destruct (r_database_scope rule); cbn [scope_allows]; [done | apply normal_allows | done].
  - left. destruct (policies !! trim (r_connection_id rule)); by rewrite lookup_insert_ne.
Qed.
Lemma merged_rules_spec rules :
  (∀ id m, merged_rules rules !! id = Some m → r_connection_id m = id) ∧
  (∀ r, r ∈ rules → trim (r_connection_id r) ≠ [] → ∃ m, merged_rules rules !! trim (r_connection_id r) = Some m ∧ stricter m r).
Proof.
  induction rules as [| rule rules [IHk IHr]] using rev_ind; [split; [done | by intros r Hr%not_elem_of_nil] |].
  assert (merged_rules (rules ++ [rule]) = add_rule (merged_rules rules) rule) as -> by (unfold merged_rules; by rewrite fold_left_app). split.
  - intros id m Hm. destruct (add_rule_spec (merged_rules rules) rule id) as [E | (_ & _ & new & E & _ & Hnew)]; rewrite E in Hm; [by apply IHk |].
    injection Hm as <-. destruct (merged_rules rules !! id) as [current |] eqn:Ec; [| done]. subst new. by apply (IHk id) in Ec.
  - intros r Hr Hid. apply elem_of_app in Hr as [Hr | ->%list_elem_of_singleton].
    + destruct (IHr r Hr Hid) as (m & Hm & Hs). destruct (add_rule_spec (merged_rules rules) rule (trim (r_connection_id r))) as [E | (_ & _ & new & E & _ & Hnew)];
        rewrite E; [by exists m |]. exists new. split; [done |]. rewrite Hm in Hnew. subst new. by apply merge_keeps.
    + unfold add_rule. rewrite decide_False by done. destruct (add_rule_spec (merged_rules rules) rule (trim (r_connection_id rule))) as [E | (_ & _ & new & E & Hs & _)].
      * unfold add_rule in E. rewrite decide_False in E by done.
        destruct (merged_rules rules !! trim (r_connection_id rule)) as [current |] eqn:Ec; rewrite lookup_insert_eq in E |- *; [| done].
        exists (merge_rule current rule). split; [done | apply merge_stricter].
      * unfold add_rule in E. rewrite decide_False in E by done. by exists new.
Qed.
Lemma finish_stricter m r : stricter m r → stricter (finish_rule m) r.
Proof.
  intros [Hm Hs]. split.
  - intros Hc. destruct (Hm Hc) as (H1 & H2 & H3). cbn [finish_rule r_execution_mode_configured r_read_only r_allow_dangerous_sql].
    split; [done |]. split; [done |]. by destruct (r_read_only m).
  - intros database Hd. apply Hs. unfold finish_rule in Hd. cbn [r_database_scope r_allowed_databases] in Hd.
    destruct (r_database_scope m); cbn [scope_allows] in *; [done | | done]. rewrite decide_False in Hd by naive_solver. by apply normal_allows.
Qed.
Lemma normalized_rule p c r :
  r ∈ p_connection_policies p → trim (r_connection_id r) = c_id c → c_id c ≠ [] →
  ∃ m, rule_for (normalized p) c = Some m ∧ stricter m r ∧ (r_read_only m = true → r_allow_dangerous_sql m = false) ∧ all_normal (r_allowed_databases m).
Proof.
  intros Hr Hid Hne. destruct (merged_rules_spec (p_connection_policies p)) as [Hk Hm]. destruct (Hm r Hr ltac:(by rewrite Hid)) as (m & Hlk & Hs).
  rewrite Hid in Hlk. set (l := finish_rule <$> merge_sort id_le (map_to_list (merged_rules (p_connection_policies p))).*2).
  assert (∀ x, x ∈ l ↔ ∃ k v, merged_rules (p_connection_policies p) !! k = Some v ∧ x = finish_rule v) as Hl.
  { intros x. unfold l. rewrite list_elem_of_fmap. setoid_rewrite merge_sort_Permutation. setoid_rewrite list_elem_of_fmap. split.
    - intros (v & -> & [k v'] & -> & Hv%elem_of_map_to_list). by exists k, v'.
    - intros (k & v & Hv & ->). exists v. split; [done |]. exists (k, v). split; [done |]. by apply elem_of_map_to_list. }
  unfold rule_for. cbn [normalized p_connection_policies]. fold l.
  destruct (List.find (λ rule, bool_decide (r_connection_id rule = c_id c)) l) as [x |] eqn:E.
  - apply find_elem_of in E as [Hx Hxid%bool_decide_eq_true]. apply Hl in Hx as (k & v & Hv & ->). exists (finish_rule v). split; [done |].
    assert (v = m) as ->. { pose proof (Hk k v Hv) as Hkv. cbn [finish_rule r_connection_id] in Hxid. congruence. }
    split; [by apply finish_stricter |]. cbn [finish_rule r_read_only r_allow_dangerous_sql r_allowed_databases]. split; [by intros -> |].
    case_decide; [by intros n Hn%not_elem_of_nil | apply normalized_normal].
  - exfalso. eapply find_none in E; [| apply list_elem_of_In, Hl; by exists (c_id c), m]. cbn [finish_rule r_connection_id] in E.
    rewrite (Hk _ _ Hlk), bool_decide_eq_true_2 in E; done.
Qed.

(** C9: The normal form in which a policy is saved is, for a connection, at least as strict as the
    policy and as every rule for it, with blanks around ids and several rules for one connection:
    read-only stays read-only and takes away dangerous statements, dangerous statements need every
    configured rule, a database in scope is in the scope of every rule, and an allowed connection
    was in the list. *)
Theorem saved_policies_only_restrict p c r :
  r ∈ p_connection_policies p → trim (r_connection_id r) = c_id c → c_id c ≠ [] →
  let e := effective_policy_for_connection (normalized p) c in
  (p_read_only p = true ∨ r_execution_mode_configured r = true ∧ r_read_only r = true → p_read_only e = true ∧ p_allow_dangerous_sql e = false) ∧
  (p_allow_dangerous_sql e = true → p_allow_dangerous_sql p = true ∧ (r_execution_mode_configured r = true → r_allow_dangerous_sql r = true)) ∧
  (∀ database, ensure_database_in_scope (database_scope_for_connection (normalized p) c) database = Ok tt →
     scope_allows (r_database_scope r) (r_allowed_databases r) database) ∧
  (policy_allows_connection (normalized p) c = true → ∀ ids, p_allowed_connection_ids p = Some ids → ∃ id, id ∈ ids ∧ trim id = c_id c).
Proof.
  intros Hr Hid Hne e. destruct (normalized_rule p c r Hr Hid Hne) as (m & Hm & [Hmode Hscope] & Hro & Hnorm).
  unfold e, effective_policy_for_connection. cbn [p_read_only p_allow_dangerous_sql]. rewrite Hm. cbn [normalized p_read_only p_allow_dangerous_sql].
  split; [| split; [| split]].
  - intros [-> | [Hc Hrr]]; [done |]. destruct (Hmode Hc) as (-> & Hr1 & _). rewrite (Hr1 Hrr). cbn [negb andb]. by rewrite orb_true_r, andb_false_r.
  - intros [[_ Hp]%andb_true_iff Hov]%andb_true_iff. split; [done |]. intros Hc. destruct (Hmode Hc) as (Hmc & _ & Hd). rewrite Hmc in Hov.
    apply andb_true_iff in Hov as [_ Hov]. by apply Hd.
  - intros database Hd. apply Hscope. rewrite in_scope_spec in Hd. unfold database_scope_for_connection in Hd. rewrite Hm in Hd.
    destruct (r_database_scope m); cbn [scope_allows]; [done | | done]. exists database. split; [done | by apply Hnorm].
  - unfold policy_allows_connection. cbn [normalized p_allowed_connection_ids]. intros Ha ids Hids. rewrite Hids in Ha. cbn [fmap option_fmap option_map] in Ha.
    apply bool_decide_eq_true, elem_of_normalized in Ha as [_ Ha]. done.
Qed.

(** ** Witnesses *)
Definition staging : ConnectionConfig :=
  {| c_id := lit "pg"; c_name := lit "pg"; c_db_type := DatabaseType.Postgres; c_host := lit "localhost"; c_port := 5432; c_database := Some (lit "app");
     c_default_schema := None; c_visible_schemas := None; c_read_only := false; c_federation_enabled := false; c_is_production := false;
     c_production_databases := [] |}.
Definition write_policy : McpGlobalPolicy :=
  {| p_read_only := false; p_allow_dangerous_sql := false; p_allowed_connection_ids := None; p_allowed_tool_names := None;
     p_connection_policies := [{| r_connection_id := lit "pg"; r_read_only := false; r_allow_dangerous_sql := false; r_execution_mode_configured := true;
                                  r_database_scope := ScopeAll; r_allowed_databases := [] |}]; p_query_timeout_secs := None |}.
Definition no_scope : McpScope := {| sc_connection_ids := []; sc_connection_name := None; sc_database := None; sc_schema := None |}.
Definition no_patterns : Patterns := λ _ _, [].
Definition ask (id : string) (sql : string) : ExecuteQueryRequest :=
  {| q_selector := {| sel_connection_id := Some (lit id); sel_connection_name := None |}; q_database := None; q_session_id := None; q_sql := lit sql |}.
Definition granted : AgentSqlPermissions := {| allow_writes := true; allow_dangerous := false; confirmed_write_sql := None |}.
Lemma executed_sql_respects_the_policy_witness :
  staging ∈ [staging] ∧ rule_permits write_policy staging (λ rule, r_database_scope rule ≠ ScopeNone).
Proof.
  destruct (executed_sql_respects_the_policy (H := no_patterns) (H0 := ascii_only) (H1 := no_tokenizer) (H2 := no_words) (H3 := struct_order)
    (H4 := one_statement delete_by_id) (H5 := some_texts) (H6 := no_timestamps) no_scope None 0 (Ok write_policy) write_policy [staging]
    (ask "pg" "DELETE FROM t WHERE id = 5") no_sessions no_sessions [] staging (lit "app") (lit "DELETE FROM t WHERE id = 5") None granted)
    as (Hin & _ & _ & _ & Hr & _).
  - vm_compute. reflexivity.
  - split; [exact Hin |]. intros rule Hrule. exact (proj1 (Hr rule Hrule)).
Defined.

Definition documents : ConnectionConfig :=
  {| c_id := lit "docs"; c_name := lit "docs"; c_db_type := DatabaseType.MongoDb; c_host := lit "localhost"; c_port := 27017; c_database := Some (lit "app");
     c_default_schema := None; c_visible_schemas := None; c_read_only := false; c_federation_enabled := false; c_is_production := false;
     c_production_databases := [lit "prod"] |}.
Lemma executed_mongo_commands_respect_the_policy_witness :
  is_production_database documents (lit "app") = false.
Proof.
  destruct (executed_mongo_commands_respect_the_policy (H := no_patterns) (H0 := ascii_only) (H1 := no_tokenizer) (H2 := no_words) (H3 := struct_order)
    (H4 := one_statement delete_by_id) (H5 := some_texts) (H6 := no_timestamps) no_scope None 0 (Ok write_policy) write_policy [documents]
    (ask "docs" "db.users.deleteMany({a: 1})") no_sessions no_sessions [] documents (lit "app") (CDelete (lit "users") (quoted "{'a':1}") true)
    (lit "app")) as (_ & _ & Hp & _).
  - vm_compute. reflexivity.
  - split; reflexivity.
  - exact Hp.
Defined.

(** Two rules for one connection, one of them with blanks around the id. *)
Definition two_rules : McpGlobalPolicy :=
  {| p_read_only := false; p_allow_dangerous_sql := true; p_allowed_connection_ids := None; p_allowed_tool_names := None;
     p_connection_policies :=
       [{| r_connection_id := lit " pg "; r_read_only := true; r_allow_dangerous_sql := true; r_execution_mode_configured := true;
           r_database_scope := ScopeSelected; r_allowed_databases := [lit " app"; lit "logs"] |};
        {| r_connection_id := lit "pg"; r_read_only := false; r_allow_dangerous_sql := true; r_execution_mode_configured := true;
           r_database_scope := ScopeSelected; r_allowed_databases := [lit "app"] |}]; p_query_timeout_secs := None |}.
Example merged_scope : database_scope_for_connection (normalized two_rules) staging = SelectedDatabases [lit "app"].
Proof. vm_compute. reflexivity. Qed.
Lemma saved_policies_only_restrict_witness : p_read_only (effective_policy_for_connection (normalized two_rules) staging) = true.
Proof.
  destruct (saved_policies_only_restrict two_rules staging
    {| r_connection_id := lit " pg "; r_read_only := true; r_allow_dangerous_sql := true; r_execution_mode_configured := true;
       r_database_scope := ScopeSelected; r_allowed_databases := [lit " app"; lit "logs"] |}) as [Hr _].
  - left.
  - vm_compute. reflexivity.
  - discriminate.
  - apply Hr. right. split; reflexivity.
Defined.
