(* ===== verification/GridColumns.v ===== *)
(** * Columns of the data grid (data_grid_sql.rs)

    The description of a column and the questions the grid asks of its type.
    Types are the texts the drivers report. *)
From S2P Require Import Prelude SqlDialect Floats.
Local Open Scope dbx_scope.

Record DataGridColumnInfo := {
  info_name : str;
  data_type : str;
  is_nullable : bool;
  is_primary_key : bool;
  column_default : option str;
  extra : option str;
}.

(** ** Pieces of a text *)

(** [s.split(f)] for a predicate on characters. *)
Fixpoint split_by (f : char → bool) (s : str) : list str :=
  match s with
  | [] => [[]]
  | c :: r =>
      if f c then [] :: split_by f r
      else match split_by f r with [] => [[c]] | w :: ws => (c :: w) :: ws end
  end.
(** [s.split(chars).next().unwrap_or("")] *)
Definition before_any (chars s : str) : str := take_while (λ c, negb (bool_decide (c ∈ chars))) s.
(** [s.trim_matches(c)] *)
Definition trim_matches (q : char) (s : str) : str :=
  reverse (drop_while (λ c, bool_decide (c = q)) (reverse (drop_while (λ c, bool_decide (c = q)) s))).
Definition one_of (words : list string) (s : str) : bool := existsb (λ w, bool_decide (s = lit w)) words.

(** A token of letters and digits. *)
Definition has_token (words : list string) (s : str) : bool := existsb (one_of words) (split_by (λ c, negb (is_ascii_alphanumeric c)) s).
(** [column_info.map(|column| f(&column.data_type)).unwrap_or(false)] *)
Definition type_is (f : str → bool) (column_info : option DataGridColumnInfo) : bool :=
  match column_info with Some c => f (data_type c) | None => false end.

Definition normalize_column_name (name : str) : str := to_ascii_uppercase name.
Definition column_info_for (columns : list DataGridColumnInfo) (name : str) : option DataGridColumnInfo :=
  let normalized := normalize_column_name name in
  List.find (λ column, bool_decide (normalize_column_name (info_name column) = normalized)) columns.

(** ** Types *)
Definition is_json_document_column : option DataGridColumnInfo → bool :=
  type_is (λ t, eq_ignore_ascii_case (trim t) (lit "json") || eq_ignore_ascii_case (trim t) (lit "jsonb")).

Definition is_bit_column_type (data_type : str) : bool := has_token ["bit"; "bitn"] (to_ascii_lowercase data_type).

Definition is_mysql_datetime_literal_database : option DatabaseType.t → bool :=
  is_any_db [DatabaseType.Mysql; DatabaseType.Doris; DatabaseType.StarRocks; DatabaseType.Goldendb; DatabaseType.Sundb].
Definition is_mysql_geometry_literal_database : option DatabaseType.t → bool :=
  is_any_db [DatabaseType.Mysql; DatabaseType.Doris; DatabaseType.StarRocks; DatabaseType.Goldendb; DatabaseType.Sundb].
Definition is_sqlite_literal_database : option DatabaseType.t → bool :=
  is_any_db [DatabaseType.Sqlite; DatabaseType.Rqlite; DatabaseType.Turso; DatabaseType.CloudflareD1].
Definition is_oracle_temporal_literal_database : option DatabaseType.t → bool :=
  is_any_db [DatabaseType.Oracle; DatabaseType.OceanbaseOracle].
Definition uses_oracle_row_id : option DatabaseType.t → bool := is_any_db [DatabaseType.Oracle; DatabaseType.OceanbaseOracle].
Definition is_postgres_like_pattern_database : option DatabaseType.t → bool :=
  is_any_db [DatabaseType.Postgres; DatabaseType.Redshift; DatabaseType.Gaussdb; DatabaseType.Kwdb; DatabaseType.Kingbase;
             DatabaseType.Highgo; DatabaseType.Uxdb; DatabaseType.Vastbase; DatabaseType.OpenGauss].
Definition uses_keyless_row_predicate : option DatabaseType.t → bool :=
  is_any_db [DatabaseType.Mysql; DatabaseType.ManticoreSearch; DatabaseType.Postgres; DatabaseType.Sqlite; DatabaseType.Rqlite;
             DatabaseType.Turso; DatabaseType.CloudflareD1; DatabaseType.DuckDb; DatabaseType.SqlServer; DatabaseType.Oracle;
             DatabaseType.Doris; DatabaseType.StarRocks; DatabaseType.Redshift; DatabaseType.Dameng; DatabaseType.Gaussdb;
             DatabaseType.Kwdb; DatabaseType.Kingbase; DatabaseType.Highgo; DatabaseType.Uxdb; DatabaseType.Vastbase;
             DatabaseType.Goldendb; DatabaseType.Yashandb; DatabaseType.Oscar; DatabaseType.Databricks; DatabaseType.SapHana;
             DatabaseType.Teradata; DatabaseType.Vertica; DatabaseType.Firebird; DatabaseType.Exasol; DatabaseType.OpenGauss;
             DatabaseType.Questdb; DatabaseType.OceanbaseOracle; DatabaseType.Gbase; DatabaseType.Access; DatabaseType.H2;
             DatabaseType.Snowflake; DatabaseType.Db2; DatabaseType.Informix; DatabaseType.Bigquery; DatabaseType.Sundb;
             DatabaseType.Databend; DatabaseType.Hive; DatabaseType.Iris].

Definition is_mysql_bit_literal_column (d : option DatabaseType.t) (column_info : option DataGridColumnInfo) : bool :=
  is_mysql_datetime_literal_database d && type_is is_bit_column_type column_info.
Definition is_bit_literal_column (d : option DatabaseType.t) (column_info : option DataGridColumnInfo) : bool :=
  negb (is_db DatabaseType.Postgres d) && type_is is_bit_column_type column_info.

Definition is_mysql_binary_column_type (data_type : str) : bool :=
  let lower := to_ascii_lowercase (trim data_type) in
  let base := trim (before_any (lit "(: ") lower) in
  one_of ["binary"; "varbinary"; "blob"; "tinyblob"; "mediumblob"; "longblob"] base.
Definition is_mysql_binary_literal_column (d : option DatabaseType.t) (column_info : option DataGridColumnInfo) : bool :=
  is_db DatabaseType.Mysql d && type_is is_mysql_binary_column_type column_info.
Definition is_postgres_binary_literal_column (d : option DatabaseType.t) (column_info : option DataGridColumnInfo) : bool :=
  is_db DatabaseType.Postgres d && type_is (λ t, eq_ignore_ascii_case (trim t) (lit "bytea")) column_info.
Definition is_oracle_raw_column_type (data_type : str) : bool :=
  eq_ignore_ascii_case (before_any (lit "(: ") (trim data_type)) (lit "raw").
Definition is_oracle_raw_literal_column (d : option DatabaseType.t) (column_info : option DataGridColumnInfo) : bool :=
  is_oracle_temporal_literal_database d && type_is is_oracle_raw_column_type column_info.
Definition is_geometry_column_type (data_type : str) : bool :=
  let base := trim (before_any (lit "(") (to_ascii_lowercase data_type)) in
  one_of ["geometry"; "point"; "linestring"; "polygon"; "multipoint"; "multilinestring"; "multipolygon"; "geometrycollection"] base.

Inductive temporal_kind := KDate | KTime | KDatetime.
Definition temporal_column_kind (data_type : option str) : option temporal_kind :=
  let base := before_any (lit "(: ") (to_ascii_lowercase (trim (default [] data_type))) in
  if one_of ["date"] base then Some KDate else if one_of ["time"] base then Some KTime
  else if one_of ["datetime"; "timestamp"] base then Some KDatetime else None.
Definition is_temporal_column_type (data_type : str) : bool := bool_decide (is_Some (temporal_column_kind (Some data_type))).

Definition is_textual_column_type (data_type : str) : bool :=
  let lower := to_ascii_lowercase (trim data_type) in
  let base := trim (before_any (lit "(: ") lower) in
  one_of ["char"; "character"; "varchar"; "varchar2"; "nvarchar"; "nvarchar2"; "nchar"; "string"; "text"; "tinytext";
          "mediumtext"; "longtext"; "ntext"; "clob"; "nclob"; "enum"; "set"] base
  || starts_with (lit "character varying") lower || starts_with (lit "national character varying") lower.

Definition oracle_lob_lower (data_type : str) : str := to_ascii_lowercase (trim_matches DQUOTE (trim data_type)).
Definition is_oracle_lob_type (data_type : str) : bool :=
  let lower := oracle_lob_lower data_type in
  one_of ["blob"; "clob"; "nclob"; "bfile"; "lob"] (before_any (lit "(: ") lower)
  || starts_with (lit "binary large object") lower || starts_with (lit "character large object") lower.
Definition oracle_character_lob_constructor (data_type : str) : option str :=
  let lower := oracle_lob_lower data_type in
  let base := before_any (lit "(: ") lower in
  if one_of ["clob"] base then Some (lit "TO_CLOB") else if one_of ["nclob"] base then Some (lit "TO_NCLOB")
  else if starts_with (lit "character large object") lower then Some (lit "TO_CLOB") else None.

Definition is_numeric_type (data_type : str) : bool :=
  has_token ["int"; "integer"; "bigint"; "smallint"; "tinyint"; "mediumint"; "serial"; "number"; "numeric"; "decimal";
             "float"; "double"; "real"; "money"] (to_ascii_lowercase data_type).
Definition is_boolean_type (data_type : str) (d : option DatabaseType.t) : bool :=
  let lower := to_ascii_lowercase data_type in
  has_token ["bool"; "boolean"] lower || (has_token ["bit"; "bitn"] lower && negb (is_db DatabaseType.Postgres d)).

Definition number_char (c : char) : bool := is_ascii_digit c || bool_decide (c ∈ lit "+-.eE").
Definition is_numeric_literal (text : str) : bool :=
  if negb (bool_decide (trim text = text)) || bool_decide (text = []) then false
  else match parse_f64 text with
       | Some x => negb (f64_is_nan x || f64_is_infinite x)
       | None => false
       end && forallb number_char text && existsb is_ascii_digit text.

(** ** Roles of a column *)
Definition DBX_ROWID_COLUMN : str := lit "__DBX_ROWID".
Definition DBX_NEO4J_ELEMENT_ID_COLUMN : str := lit "__DBX_ELEMENT_ID".
Definition is_oracle_row_id (d : option DatabaseType.t) (name : option str) : bool :=
  uses_oracle_row_id d && match name with Some n => eq_ignore_ascii_case n DBX_ROWID_COLUMN | None => false end.
Definition is_neo4j_element_id (d : option DatabaseType.t) (name : option str) : bool :=
  is_db DatabaseType.Neo4j d && bool_decide (name = Some DBX_NEO4J_ELEMENT_ID_COLUMN).

Definition word_or_underscore (c : char) : bool := is_ascii_alphanumeric c || bool_decide (c = chr "_").
Definition is_auto_generated_column (column : DataGridColumnInfo) : bool :=
  existsb (one_of ["auto_increment"; "autoincrement"; "identity"])
    (split_by (λ c, negb (word_or_underscore c)) (to_ascii_lowercase (default [] (extra column)))).
Definition is_non_identity_generated_column (column_info : option DataGridColumnInfo) : bool :=
  let text := to_ascii_lowercase (default [] (column_info ≫= extra)) in
  (str_contains (lit "generated always as") text || str_contains (lit "virtual generated") text
   || str_contains (lit "stored generated") text) && negb (str_contains (lit "identity") text).
Definition is_postgres_tsvector_type (data_type : str) : bool :=
  let normalized := to_ascii_lowercase (trim_matches DQUOTE (trim data_type)) in
  bool_decide (normalized = lit "tsvector") || ends_with (lit ".tsvector") normalized.
Definition is_postgres_tsvector_column (d : option DatabaseType.t) (column_info : option DataGridColumnInfo) : bool :=
  is_db DatabaseType.Postgres d && type_is is_postgres_tsvector_type column_info.
Definition is_clickhouse_partition_key_column (d : option DatabaseType.t) (column_info : option DataGridColumnInfo) : bool :=
  is_db DatabaseType.ClickHouse d &&
  match column_info ≫= extra with
  | Some e => existsb (one_of ["partition_key"]) (split_by (λ c, negb (word_or_underscore c)) e)
  | None => false
  end.
Definition is_clickhouse_key_column (d : option DatabaseType.t) (column_info : option DataGridColumnInfo) (name : option str)
    (primary_key_set : list str) : bool :=
  if negb (is_db DatabaseType.ClickHouse d) then false
  else match column_info with Some c => is_primary_key c | None => false end
       || is_clickhouse_partition_key_column d column_info
       || match name with Some n => bool_decide (normalize_column_name n ∈ primary_key_set) | None => false end.

Definition is_grid_insert_omitted_column (d : option DatabaseType.t) (column_info : option DataGridColumnInfo) (name : option str)
    (include_computed_columns : bool) : bool :=
  is_oracle_row_id d name || is_postgres_tsvector_column d column_info
  || (negb include_computed_columns && is_non_identity_generated_column column_info).
Definition is_grid_update_omitted_column (d : option DatabaseType.t) (column_info : option DataGridColumnInfo) (name : option str)
    (primary_key_set : list str) : bool :=
  is_oracle_row_id d name || is_clickhouse_key_column d column_info name primary_key_set
  || is_non_identity_generated_column column_info.
Definition is_null_write_to_not_null_column (d : option DatabaseType.t) (not_null_columns : list str) (column : option str)
    (value_is_null : bool) : bool :=
  match column with
  | None => false
  | Some c =>
      if is_oracle_row_id d (Some c) || is_neo4j_element_id d (Some c) then false
      else value_is_null && existsb (λ n, bool_decide (n = normalize_column_name c)) not_null_columns
  end.

(** The position of a column in a result. *)
Definition find_column_index (d : option DatabaseType.t) (columns : list (option str)) (target : str) : option nat :=
  match list_find (λ column, column = Some target) columns with
  | Some (i, _) => Some i
  | None =>
      if negb (is_any_db [DatabaseType.Goldendb; DatabaseType.Kingbase; DatabaseType.Tdengine; DatabaseType.Hive] d) then None
      else
        let normalized := normalize_column_name target in
        match filter (λ ic : nat * option str, default [] (normalize_column_name <$> ic.2) = normalized) (imap pair columns) with
        | [(i, _)] => Some i
        | _ => None
        end
  end.
