(* ===== verification/GridLiteral.v ===== *)
(** * Literals of the data grid (data_grid_sql.rs, sqlserver_temporal.rs, transfer.rs)

    How a cell is written into a statement.  Texts are sliced by bytes, which
    panics inside of a character; such a function returns an option whose
    [None] is the panic, and a source [Option] inside of it is a second one.
    JSON texts and numbers belong to serde_json and are the class [Serde], dates
    and the local clock belong to chrono and are the class [Chrono].

    The specification is a reader of SQL texts, [sql_scan], with or without
    backslash escapes. *)
From S2P Require Import Prelude SqlDialect StateStore Json Floats GridColumns.
Local Open Scope dbx_scope.

Class Serde := {
  value_to_string : json → str;         (* Value::to_string *)
  value_from_str : str → option json;   (* serde_json::from_str *)
  number_from_str : str → option str;   (* str::parse::<serde_json::Number> *)
}.

Class Chrono := {
  naive : Type;
  parse_naive : str → str → option naive;     (* NaiveDateTime::parse_from_str *)
  add_micros : naive → Z → option naive;      (* checked_add_signed *)
  format_naive : naive → str → str;
  subsec_millis : naive → N;
  earliest_offset : naive → option Z;  (* and_local_timezone(Local).earliest(), local_minus_utc *)
  now_offset : Z;
}.

(** ** Slices by bytes *)
(** The character that starts at a byte; for an ASCII byte [b],
    [bytes.get(n) == Some(&b)] is [char_at n s = Some b]. *)
Fixpoint char_at (n : nat) (s : str) : option char :=
  match s with
  | [] => None
  | c :: r => if decide (n = 0) then Some c else if decide (len_utf8 c ≤ n) then char_at (n - len_utf8 c) r else None
  end.
Definition is_at (n : nat) (c : char) (s : str) : bool := bool_decide (char_at n s = Some c).
Definition digit_at (n : nat) (s : str) : bool := match char_at n s with Some c => is_ascii_digit c | None => false end.
(** [&s[n..]] *)
Fixpoint slice_from (n : nat) (s : str) : option str :=
  if decide (n = 0) then Some s
  else match s with
       | [] => None
       | c :: r => if decide (len_utf8 c ≤ n) then slice_from (n - len_utf8 c) r else None
       end.
(** [&s[a..b]] *)
Definition slice_range (a b : nat) (s : str) : option str :=
  if decide (b < a) then None else t ← slice_from a s; slice_to (b - a) t.

Definition replace_char (a : char) (rep s : str) : str := concat ((λ c, if decide (c = a) then rep else [c]) <$> s).
Definition quote_text (s : str) : str := [SQUOTE] ++ s ++ [SQUOTE].
Definition double_backslashes : str → str := replace_char BACKSLASH [BACKSLASH; BACKSLASH].
Definition double_quotes : str → str := replace_char SQUOTE [SQUOTE; SQUOTE].
(** [text.replace('\\', "\\\\").replace('\'', "''")] *)
Definition escape_both (s : str) : str := double_quotes (double_backslashes s).

(** ** Dates and times in a cell *)
Record Rfc3339Parts := mkParts { pt_date : str; pt_time : str; pt_fraction : option str; pt_zone : str }.

Definition is_timezone_offset (value : str) : bool :=
  bool_decide (byte_len value = 6) && (is_at 0 (chr "+") value || is_at 0 (chr "-") value) && is_at 3 (chr ":") value
  && digit_at 1 value && digit_at 2 value && digit_at 4 value && digit_at 5 value.

(** The digits after a point: at most nine. *)
Definition fraction_digits (rest : str) : option (str * str) :=
  let digits := take_while is_ascii_digit rest in
  if bool_decide (length digits = 0) || bool_decide (9 < length digits) then None
  else Some (chr "." :: digits, drop (length digits) rest).

Definition regex_like_rfc3339 (text : str) : option (option Rfc3339Parts) :=
  if bool_decide (byte_len text < 20) || negb (is_at 4 (chr "-") text) || negb (is_at 7 (chr "-") text) then Some None
  else if negb (is_at 10 (chr "T") text || is_at 10 SPACE text) then Some None
  else if negb (is_at 13 (chr ":") text) || negb (is_at 16 (chr ":") text) then Some None
  else
    date ← slice_range 0 10 text;
    time ← slice_range 11 19 text;
    rest ← slice_from 19 text;
    Some (
      let parts := match strip_prefix (lit ".") rest with
                   | Some rest => prod_map Some id <$> fraction_digits rest
                   | None => Some (None, rest)
                   end in
      '(fraction, zone) ← parts;
      if bool_decide (zone = lit "Z") || bool_decide (zone = lit "z") || is_timezone_offset zone
      then Some (mkParts date time fraction zone) else None).

Definition regex_like_local_datetime (text : str) : option (option Rfc3339Parts) :=
  if bool_decide (byte_len text < 10) || negb (is_at 4 (chr "-") text) || negb (is_at 7 (chr "-") text) then Some None
  else
    date ← slice_range 0 10 text;
    if decide (byte_len text = 10) then Some (Some (mkParts date (lit "00:00:00") None []))
    else if negb (is_at 10 (chr "T") text || is_at 10 SPACE text) then Some None
    else if bool_decide (byte_len text < 19) || negb (is_at 13 (chr ":") text) || negb (is_at 16 (chr ":") text) then Some None
    else
      time ← slice_range 11 19 text;
      rest ← slice_from 19 text;
      Some (match strip_prefix (lit ".") rest with
            | Some rest =>
                '(fraction, after) ← fraction_digits rest;
                if decide (after = []) then Some (mkParts date time (Some fraction) []) else None
            | None => if decide (rest = []) then Some (mkParts date time None []) else None
            end).

Definition regex_like_oracle_temporal (text : str) : option (option Rfc3339Parts) :=
  parts ← regex_like_rfc3339 text;
  match parts with Some p => Some (Some p) | None => regex_like_local_datetime text end.

(** ** Oracle *)
Inductive OracleTemporalKind := ODate | OTimestamp | OTimestampWithTimeZone.
Definition oracle_temporal_column_kind (data_type : str) : option OracleTemporalKind :=
  let lower := to_ascii_lowercase (trim data_type) in
  let base := before_any (lit "( ") lower in
  if one_of ["date"] base then Some ODate
  else if one_of ["timestamp"] base then
    if str_contains (lit "with time zone") lower || str_contains (lit "with local time zone") lower
    then Some OTimestampWithTimeZone else Some OTimestamp
  else None.
Definition oracle_timestamp_format_mask (has_fraction : bool) : str :=
  if has_fraction then lit "YYYY-MM-DD HH24:MI:SS.FF" else lit "YYYY-MM-DD HH24:MI:SS".
Definition oracle_timezone_suffix (zone : str) : str := if eq_ignore_ascii_case zone (lit "z") then lit "+00:00" else zone.
Definition oracle_temporal_parts_are_midnight (p : Rfc3339Parts) : bool :=
  bool_decide (pt_time p = lit "00:00:00") &&
  match pt_fraction p with
  | Some f => forallb (λ c, bool_decide (c = chr "0")) (drop_while (λ c, bool_decide (c = chr ".")) f)
  | None => true
  end.
Definition oracle_literal (kind : OracleTemporalKind) (p : Rfc3339Parts) : str :=
  let datetime := pt_date p ++ [SPACE] ++ pt_time p ++ default [] (pt_fraction p) in
  let mask := oracle_timestamp_format_mask (bool_decide (chr "." ∈ datetime)) in
  let timestamp := lit "TO_TIMESTAMP(" ++ quote_text datetime ++ lit ", " ++ quote_text mask ++ lit ")" in
  match kind with
  | ODate =>
      if oracle_temporal_parts_are_midnight p then lit "DATE " ++ quote_text (pt_date p)
      else lit "TO_DATE(" ++ quote_text (pt_date p ++ [SPACE] ++ pt_time p) ++ lit ", " ++ quote_text (lit "YYYY-MM-DD HH24:MI:SS") ++ lit ")"
  | OTimestamp => timestamp
  | OTimestampWithTimeZone =>
      if decide (pt_zone p = []) then timestamp
      else lit "TO_TIMESTAMP_TZ(" ++ quote_text (datetime ++ [SPACE] ++ oracle_timezone_suffix (pt_zone p)) ++ lit ", " ++
           quote_text (mask ++ lit " TZH:TZM") ++ lit ")"
  end.
Definition format_oracle_temporal_literal (text : str) (data_type : option str) : option (option str) :=
  match data_type ≫= oracle_temporal_column_kind with
  | None => Some None
  | Some kind => parts ← regex_like_oracle_temporal text; Some (option_map (oracle_literal kind) parts)
  end.

Definition ORACLE_SQL_LITERAL_MAX_BYTES : nat := 4000.
Definition ORACLE_LOB_LITERAL_CHUNK_BYTES : nat := 3900.
Definition oracle_sql_literal_char_len (ch : char) : nat := if decide (ch = BACKSLASH ∨ ch = SQUOTE) then 2 else len_utf8 ch.
Definition append_oracle_sql_literal_char (ch : char) : str :=
  if decide (ch = BACKSLASH) then [BACKSLASH; BACKSLASH] else if decide (ch = SQUOTE) then [SQUOTE; SQUOTE] else [ch].
Definition append_oracle_sql_literal_characters (text : str) : str := concat (append_oracle_sql_literal_char <$> text).

(** The chunks of a long text: [current] and its length so far. *)
Fixpoint lob_chunks (current : str) (current_len : nat) (text : str) : list str :=
  match text with
  | [] => if decide (0 < current_len) then [current] else []
  | ch :: r =>
      let char_len := oracle_sql_literal_char_len ch in
      if bool_decide (0 < current_len) && bool_decide (ORACLE_LOB_LITERAL_CHUNK_BYTES < current_len + char_len)
      then current :: lob_chunks (append_oracle_sql_literal_char ch) char_len r
      else lob_chunks (current ++ append_oracle_sql_literal_char ch) (current_len + char_len) r
  end.
Definition format_oracle_lob_assignment_literal (text constructor : str) : str :=
  if decide (sum_list (oracle_sql_literal_char_len <$> text) ≤ ORACLE_SQL_LITERAL_MAX_BYTES)
  then quote_text (append_oracle_sql_literal_characters text)
  else join (lit " || ") ((λ chunk, constructor ++ lit "(" ++ quote_text chunk ++ lit ")") <$> lob_chunks [] 0 text).

(** ** MySQL *)
Definition normalize_mysql_fractional_seconds (fraction : option str) : str :=
  match fraction with Some f => if decide (7 < length f) then take 7 f else f | None => [] end.
Definition format_mysql_temporal_literal_text (text : str) (data_type : option str) : option str :=
  parts ← regex_like_rfc3339 text;
  Some (match parts with
        | None => text
        | Some p =>
            let fraction := normalize_mysql_fractional_seconds (pt_fraction p) in
            match temporal_column_kind data_type with
            | Some KDate => pt_date p
            | Some KTime => pt_time p ++ fraction
            | _ => pt_date p ++ [SPACE] ++ pt_time p ++ fraction
            end
        end).

Definition is_bit (c : char) : bool := bool_decide (c = chr "0" ∨ c = chr "1").
Definition bit_literal (bits : str) : str := lit "b" ++ quote_text bits.
Definition format_mysql_bit_literal_text (text : str) : option (option str) :=
  let trimmed := trim text in
  if eq_ignore_ascii_case trimmed (lit "true") then Some (Some (lit "1"))
  else if eq_ignore_ascii_case trimmed (lit "false") then Some (Some (lit "0"))
  else if forallb is_ascii_digit trimmed && negb (bool_decide (trimmed = [])) then
    Some (Some (if decide (length trimmed = 1) then trimmed else if forallb is_bit trimmed then bit_literal trimmed else trimmed))
  else if starts_with (lit "b'") (to_ascii_lowercase trimmed) && ends_with [SQUOTE] trimmed then
    bits ← slice_range 2 (byte_len trimmed - 1) trimmed;
    Some (if negb (bool_decide (bits = [])) && forallb is_bit bits then Some (bit_literal bits) else None)
  else Some None.

Definition format_mysql_binary_literal_text (text : str) : option str :=
  let trimmed := trim text in
  hex ← strip_prefix (lit "0x") trimmed;
  if forallb is_ascii_hexdigit hex then Some (if decide (hex = []) then lit "X''" else trimmed) else None.
Definition format_postgres_binary_literal_text (text : str) : option str :=
  let trimmed := trim text in
  hex ← match strip_prefix (lit "0x") trimmed with Some h => Some h | None => strip_prefix (lit "0X") trimmed end;
  if bool_decide (byte_len hex mod 2 = 0) && forallb is_ascii_hexdigit hex
  then Some (lit "decode(" ++ quote_text hex ++ lit ", 'hex')") else None.
Definition format_oracle_raw_literal_text (text : str) : option str :=
  hex ← strip_prefix (lit "0x") text;
  if bool_decide (byte_len hex mod 2 = 0) && forallb is_ascii_hexdigit hex
  then Some (lit "HEXTORAW(" ++ quote_text hex ++ lit ")") else None.

(** ** SQL Server *)
Definition n_quoted (segment : str) : str := lit "N" ++ quote_text (double_quotes segment).
Definition flush (segment : str) : list str := if decide (segment = []) then [] else [n_quoted segment].
(** The parts of the text, [segment] since the last line break. *)
Fixpoint unicode_parts (segment text : str) : list str :=
  match text with
  | [] => flush segment
  | ch :: r =>
      if decide (ch = CR) then flush segment ++ lit "NCHAR(13)" :: unicode_parts [] r
      else if decide (ch = NL) then flush segment ++ lit "NCHAR(10)" :: unicode_parts [] r
      else unicode_parts (segment ++ [ch]) r
  end.
Definition format_sqlserver_unicode_literal (text : str) : str :=
  match unicode_parts [] text with [] => lit "N''" | parts => join (lit " + ") parts end.

Inductive SqlServerTemporalKind :=
| SDate | STime (scale : nat) | SSmallDateTime | SDateTime | SDateTime2 (scale : nat) | SDateTimeOffset (scale : nat).

(** [str::parse::<u8>] *)
Definition parse_u8 (s : str) : option nat :=
  let digits := match s with c :: r => if decide (c = chr "+") then r else s | [] => [] end in
  if bool_decide (digits = []) || negb (forallb is_ascii_digit digits) then None
  else let v := digits_value digits in if decide (v ≤ 255)%N then Some (N.to_nat v) else None.
Definition temporal_scale (column_type : str) : option nat :=
  '(_, rest) ← split_once (lit "(") column_type;
  '(inner, _) ← split_once (lit ")") rest;
  scale ← parse_u8 (trim inner);
  Some (Nat.min scale 7).
Definition sqlserver_temporal_kind (column_type : str) : option SqlServerTemporalKind :=
  let lower := to_ascii_lowercase (trim column_type) in
  let base := before_any (lit "( " ++ [TAB; NL]) lower in
  let scale := default 7 (temporal_scale lower) in
  if one_of ["date"; "daten"] base then Some SDate
  else if one_of ["smalldatetime"] base then Some SSmallDateTime
  else if one_of ["datetime"; "datetimen"] base then Some SDateTime
  else if one_of ["datetime4"] base then Some SSmallDateTime
  else if one_of ["datetime2"] base then Some (SDateTime2 scale)
  else if one_of ["time"; "timen"] base then Some (STime scale)
  else if one_of ["datetimeoffset"; "datetimeoffsetn"] base then Some (SDateTimeOffset scale)
  else None.

Definition digits_at (ns : list nat) (s : str) : bool := forallb (λ n, digit_at n s) ns.
Definition is_date_prefix (s : str) : bool :=
  bool_decide (10 ≤ byte_len s) && is_at 4 (chr "-") s && is_at 7 (chr "-") s
  && digits_at [0; 1; 2; 3] s && digits_at [5; 6] s && digits_at [8; 9] s.
(** The first eight characters are digits and colons. *)
Definition split_time_and_offset (value : str) : option (str * option str) :=
  if bool_decide (byte_len value < 8) then None
  else if negb (is_at 2 (chr ":") value) || negb (is_at 5 (chr ":") value) then None
  else if negb (digits_at [0; 1] value) || negb (digits_at [3; 4] value) || negb (digits_at [6; 7] value) then None
  else
    let rest := drop 8 value in
    let fraction := match strip_prefix (lit ".") rest with
                    | Some r => let digits := take_while is_ascii_digit r in
                                if decide (digits = []) then None else Some (S (length digits))
                    | None => Some 0
                    end in
    n ← fraction;
    let time := take (8 + n) value in
    let suffix := trim (drop (8 + n) value) in
    if decide (suffix = []) then Some (time, None)
    else if eq_ignore_ascii_case suffix (lit "z") then Some (time, Some (lit "+00:00"))
    else if is_timezone_offset suffix then Some (time, Some suffix)
    else None.
Definition parse_sqlserver_temporal (value : str) : option (str * str * option str) :=
  let trimmed := trim value in
  if is_date_prefix trimmed then
    let date := take 10 trimmed in
    let rest := trim_start (drop 10 trimmed) in
    let rest := if starts_with (lit "T") rest || starts_with (lit "t") rest then trim_start (drop 1 rest) else rest in
    if decide (rest = []) then Some (date, lit "00:00:00", None)
    else '(time, offset) ← split_time_and_offset rest; Some (date, time, offset)
  else '(time, offset) ← split_time_and_offset trimmed; Some (lit "1900-01-01", time, offset).

Definition format_sqlserver_time_text (value : str) (scale : nat) : str :=
  let '(base, fraction) := default (value, []) (split_once (lit ".") value) in
  if decide (scale = 0) then base
  else
    let digits := take scale (take_while is_ascii_digit fraction) in
    let digits := digits ++ replicate (scale - length digits) (chr "0") in
    if forallb (λ c, bool_decide (c = chr "0")) digits then base else base ++ lit "." ++ digits.

(** [format!("{n:0>w$}")] *)
Definition pad_left (w : nat) (n : N) : str := let s := show_N n in replicate (w - length s) (chr "0") ++ s.

Section clock.
Context `{Chrono}.

Definition format_sqlserver_datetime_display (value : naive) : str :=
  let rounded := default value (add_micros value 500) in
  let base := format_naive rounded (lit "%Y-%m-%d %H:%M:%S") in
  let millis := subsec_millis rounded in
  if decide (millis = 0%N) then base else base ++ lit "." ++ pad_left 3 millis.
Definition format_sqlserver_datetime_parts (date time : str) : str :=
  match parse_naive (date ++ [SPACE] ++ time) (lit "%Y-%m-%d %H:%M:%S%.f") with
  | Some value => format_sqlserver_datetime_display value
  | None => date ++ [SPACE] ++ format_sqlserver_time_text time 3
  end.
Definition normalize_sqlserver_temporal_literal (value : str) (column_type : option str) : option str :=
  kind ← column_type ≫= sqlserver_temporal_kind;
  '(date, time, offset) ← parse_sqlserver_temporal value;
  match kind with
  | SDate => Some date
  | STime scale => Some (format_sqlserver_time_text time scale)
  | SSmallDateTime => Some (date ++ [SPACE] ++ format_sqlserver_time_text time 0)
  | SDateTime => Some (format_sqlserver_datetime_parts date time)
  | SDateTime2 scale => Some (date ++ [SPACE] ++ format_sqlserver_time_text time scale)
  | SDateTimeOffset scale => o ← offset; Some (date ++ [SPACE] ++ format_sqlserver_time_text time scale ++ o)
  end.

(** ** TDengine *)
Definition normalize_fractional_seconds (fraction : option str) : str :=
  match fraction with
  | Some f => if decide (4 ≤ length f) then take 4 f else f ++ replicate (4 - length f) (chr "0")
  | None => lit ".000"
  end.
Definition parse_tdengine_timestamp (text : str) : option (option (str * str * option str)) :=
  if bool_decide (byte_len text < 19) then Some None
  else if negb (is_at 4 (chr "-") text) || negb (is_at 7 (chr "-") text) || negb (is_at 10 SPACE text) then Some None
  else if negb (is_at 13 (chr ":") text) || negb (is_at 16 (chr ":") text) then Some None
  else
    date ← slice_range 0 10 text;
    time ← slice_range 11 19 text;
    rest ← slice_from 19 text;
    Some (if decide (rest = []) then Some (date, time, None)
          else match strip_prefix (lit ".") rest with
               | Some fraction =>
                   if bool_decide (fraction = []) || bool_decide (9 < byte_len fraction) || negb (forallb is_ascii_digit fraction) then None
                   else Some (date, time, Some (chr "." :: fraction))
               | None => None
               end).
Definition local_timezone_offset_suffix (text : str) : str :=
  let parsed := parse_naive (replace_char SPACE (lit "T") text) (lit "%Y-%m-%dT%H:%M:%S%.f") in
  let offset_minutes := (default now_offset (parsed ≫= earliest_offset) ÷ -60)%Z in
  let sign := if decide (offset_minutes ≤ 0)%Z then lit "+" else lit "-" in
  let abs := Z.to_N (Z.abs offset_minutes) in
  sign ++ pad_left 2 (abs / 60) ++ lit ":" ++ pad_left 2 (abs mod 60).
Definition format_tdengine_timestamp_literal_text (text : str) : option str :=
  parsed ← parse_tdengine_timestamp text;
  Some (match parsed with
        | None => text
        | Some (date, time, fraction) =>
            date ++ lit "T" ++ time ++ normalize_fractional_seconds fraction ++ local_timezone_offset_suffix text
        end).
End clock.

(** ** Arrays *)
Section values.
Context `{Serde, Chrono}.

Fixpoint format_pg_array_element (v : json) : str :=
  match v with
  | JNull => lit "NULL"
  | JArray [] => lit "{}"
  | JArray arr => lit "{" ++ join (lit ",") (map format_pg_array_element arr) ++ lit "}"
  | JString s => [DQUOTE] ++ replace_char DQUOTE [BACKSLASH; DQUOTE] (double_backslashes s) ++ [DQUOTE]
  | JNumber n => n
  | JBool b => if b then lit "true" else lit "false"
  | JObject o => [DQUOTE] ++ replace_char DQUOTE [BACKSLASH; DQUOTE] (double_backslashes (value_to_string (JObject o))) ++ [DQUOTE]
  end.
Definition format_pg_array_sql_literal (arr : list json) : str :=
  match arr with
  | [] => lit "'{}'"
  | _ => quote_text (escape_both (lit "{" ++ join (lit ",") (format_pg_array_element <$> arr) ++ lit "}"))
  end.

Fixpoint format_ch_array_element (v : json) : str :=
  match v with
  | JNull => lit "NULL"
  | JArray [] => lit "[]"
  | JArray arr => lit "[" ++ join (lit ",") (map format_ch_array_element arr) ++ lit "]"
  | JString s => quote_text (escape_both s)
  | JNumber n => n
  | JBool b => if b then lit "true" else lit "false"
  | JObject o => quote_text (escape_both (value_to_string (JObject o)))
  end.
Definition format_ch_array_sql_literal (arr : list json) : str :=
  match arr with [] => lit "[]" | _ => lit "[" ++ join (lit ",") (format_ch_array_element <$> arr) ++ lit "]" end.

Definition postgres_json_array_element_type (d : option DatabaseType.t) (column_info : option DataGridColumnInfo) : option str :=
  if negb (is_db DatabaseType.Postgres d) then None
  else
    c ← column_info;
    let t := to_ascii_lowercase (trim (data_type c)) in
    if one_of ["json[]"; "_json"] t then Some (lit "json") else if one_of ["jsonb[]"; "_jsonb"] t then Some (lit "jsonb") else None.
Definition json_array_element (element_type : str) (v : json) : str :=
  match v with
  | JNull => lit "NULL"
  | _ =>
      let text := match v with
                  | JString s => match value_from_str s with Some w => value_to_string w | None => value_to_string (JString s) end
                  | _ => value_to_string v
                  end in
      lit "E" ++ quote_text (escape_both text) ++ lit "::" ++ element_type
  end.
Definition format_postgres_json_array_sql_literal (arr : list json) (element_type : str) : str :=
  match arr with
  | [] => lit "ARRAY[]::" ++ element_type ++ lit "[]"
  | _ => lit "ARRAY[" ++ join (lit ", ") (json_array_element element_type <$> arr) ++ lit "]"
  end.

(** ** A cell as a literal *)
Definition manticore_typed_attribute_value (text : str) (column_info : option DataGridColumnInfo) : option json :=
  c ← column_info;
  let t := to_ascii_lowercase (data_type c) in
  if is_boolean_type t None && eq_ignore_ascii_case text (lit "true") then Some (JBool true)
  else if is_boolean_type t None && eq_ignore_ascii_case text (lit "false") then Some (JBool false)
  else if is_numeric_type t && is_numeric_literal text then JNumber <$> number_from_str text
  else None.

Definition format_bool (value : bool) (d : option DatabaseType.t) (column_info : option DataGridColumnInfo) : str :=
  if is_bit_literal_column d column_info || is_db DatabaseType.SqlServer d then (if value then lit "1" else lit "0")
  else (if value then lit "TRUE" else lit "FALSE").
Definition format_array (arr : list json) (d : option DatabaseType.t) (column_info : option DataGridColumnInfo) : str :=
  match postgres_json_array_element_type d column_info with
  | Some element_type => format_postgres_json_array_sql_literal arr element_type
  | None =>
      if is_any_db [DatabaseType.ClickHouse; DatabaseType.Databend] d then format_ch_array_sql_literal arr
      else format_pg_array_sql_literal arr
  end.

(** The literal that the type of the column asks for, before any quoting. *)
Definition typed_literal (text : str) (d : option DatabaseType.t) (column_info : option DataGridColumnInfo) : option str :=
  let iotdb := if is_db DatabaseType.Iotdb d && type_is (λ t, eq_ignore_ascii_case (before_any (lit "( ") (trim t)) (lit "timestamp")) column_info
               then parse_i64 text else None in
  match iotdb with
  | Some timestamp => Some (lit (pretty timestamp))
  | None =>
      let mysql := if is_mysql_binary_literal_column d column_info then format_mysql_binary_literal_text text else None in
      match mysql with
      | Some l => Some l
      | None =>
          let postgres := if is_postgres_binary_literal_column d column_info then format_postgres_binary_literal_text text else None in
          match postgres with
          | Some l => Some l
          | None =>
              let raw := if is_oracle_raw_literal_column d column_info then format_oracle_raw_literal_text text else None in
              match raw with
              | Some l => Some l
              | None => if type_is is_numeric_type column_info && is_numeric_literal text then Some text else None
              end
          end
      end
  end.

(** The text with the date or time the database expects. *)
Definition literal_text (text : str) (d : option DatabaseType.t) (column_info : option DataGridColumnInfo) : option str :=
  if is_db DatabaseType.Tdengine d then format_tdengine_timestamp_literal_text text
  else if is_db DatabaseType.SqlServer d then
    Some (default text (normalize_sqlserver_temporal_literal text (data_type <$> column_info)))
  else if is_mysql_datetime_literal_database d && match column_info with Some c => is_temporal_column_type (data_type c) | None => true end
  then format_mysql_temporal_literal_text text (data_type <$> column_info)
  else Some text.

Definition quoted_literal (text : str) (d : option DatabaseType.t) : str :=
  if is_db DatabaseType.Postgres d && bool_decide (BACKSLASH ∈ text) then lit "E" ++ quote_text (escape_both text)
  else if is_db DatabaseType.SqlServer d then format_sqlserver_unicode_literal text
  else if is_db DatabaseType.Neo4j d then quote_text (replace_char SQUOTE [BACKSLASH; SQUOTE] (double_backslashes text))
  else if is_sqlite_literal_database d then quote_text (double_quotes text)
  else quote_text (escape_both text).

(** A text that is not typed by its column; [rec] for the value ManticoreSearch
    gives it. *)
Definition format_text (rec : json → option str) (text : str) (d : option DatabaseType.t) (column_info : option DataGridColumnInfo)
  : option str :=
  let typed := if is_db DatabaseType.ManticoreSearch d then manticore_typed_attribute_value text column_info else None in
  match typed with
  | Some v => rec v
  | None =>
      if decide (text = []) then Some (if is_db DatabaseType.SqlServer d then lit "N''" else lit "''")
      else if is_mysql_geometry_literal_database d && type_is is_geometry_column_type column_info
      then Some (lit "ST_GeomFromText(" ++ quote_text (escape_both text) ++ lit ")")
      else
        oracle ← (if is_oracle_temporal_literal_database d then format_oracle_temporal_literal text (data_type <$> column_info) else Some None);
        match oracle with
        | Some l => Some l
        | None => t ← literal_text text d column_info; Some (quoted_literal t d)
        end
  end.

Definition format_value (rec : json → option str) (value : json) (d : option DatabaseType.t) (column_info : option DataGridColumnInfo)
  : option str :=
  match value with
  | JNull => Some (lit "NULL")
  | JBool b => Some (format_bool b d column_info)
  | JNumber n => Some n
  | JArray arr => Some (format_array arr d column_info)
  | _ =>
      bit ← (match value with
             | JString s => if is_mysql_bit_literal_column d column_info then format_mysql_bit_literal_text s else Some None
             | _ => Some None
             end);
      match bit with
      | Some l => Some l
      | None =>
          let text := match value with JString s => s | _ => value_to_string value end in
          match typed_literal text d column_info with
          | Some l => Some l
          | None => format_text rec text d column_info
          end
      end
  end.
(** The value of a ManticoreSearch attribute is a boolean or a number, which
    needs no second turn. *)
Definition format_grid_sql_literal (value : json) (d : option DatabaseType.t) (column_info : option DataGridColumnInfo) : option str :=
  format_value (λ v, format_value (λ _, None) v d column_info) value d column_info.

Definition format_grid_assignment_sql_literal (value : json) (d : option DatabaseType.t) (column_info : option DataGridColumnInfo)
  : option str :=
  let lob := if is_any_db [DatabaseType.Oracle; DatabaseType.OceanbaseOracle] d
             then c ← column_info; oracle_character_lob_constructor (data_type c) else None in
  match lob, value with
  | Some constructor, JString text => Some (format_oracle_lob_assignment_literal text constructor)
  | _, _ =>
      match value with
      | JArray _ | JObject _ =>
          if is_json_document_column column_info then format_grid_sql_literal (JString (value_to_string value)) d column_info
          else format_grid_sql_literal value d column_info
      | _ => format_grid_sql_literal value d column_info
      end
  end.

Definition empty_string_saves_as_null (value : json) (column_info : option DataGridColumnInfo) : bool :=
  bool_decide (value = JString []) &&
  match column_info with Some c => is_nullable c && negb (is_textual_column_type (data_type c)) | None => false end.
Definition format_grid_save_sql_literal (value : json) (d : option DatabaseType.t) (column_info : option DataGridColumnInfo) : option str :=
  if empty_string_saves_as_null value column_info then Some (lit "NULL")
  else format_grid_assignment_sql_literal value d column_info.
Definition format_grid_copy_insert_sql_literal (value : json) (d : option DatabaseType.t) (column_info : option DataGridColumnInfo)
  : option str :=
  oracle ← (match value with
            | JString text => if is_oracle_temporal_literal_database d then format_oracle_temporal_literal text (data_type <$> column_info) else Some None
            | _ => Some None
            end);
  match oracle with Some l => Some l | None => format_grid_assignment_sql_literal value d column_info end.
End values.

(** ** Reading a literal back

    [sql_scan] is what a server sees: the text outside of quotes, or nothing
    when a quote stays open.  Inside of quotes a quote is doubled, and with
    [bs] a backslash takes the next character with it. *)
Fixpoint sql_scan (bs inside : bool) (s : str) : option str :=
  match s with
  | [] => if inside then None else Some []
  | c :: r =>
      if inside then
        if bs && bool_decide (c = BACKSLASH) then match r with [] => None | _ :: r' => sql_scan bs true r' end
        else if decide (c = SQUOTE) then sql_scan bs false r else sql_scan bs true r
      else if decide (c = SQUOTE) then sql_scan bs true r
      else cons c <$> sql_scan bs false r
  end.

(** Outside of quotes: letters, digits and punctuation that neither ends a
    statement nor starts a comment; [dash] after a minus sign. *)
Definition plain_char (c : char) : bool := is_ascii_alphanumeric c || bool_decide (c ∈ lit "_+-.()[],:| ").
Fixpoint harmless_from (dash : bool) (s : str) : option bool :=
  match s with
  | [] => Some dash
  | c :: r =>
      if negb (plain_char c) || (dash && bool_decide (c = chr "-")) then None
      else harmless_from (bool_decide (c = chr "-")) r
  end.
Definition harmless (s : str) : Prop := harmless_from false s = Some false.

Definition lexes (bs : bool) (l out : str) : Prop := ∀ s, sql_scan bs false (l ++ s) = app out <$> sql_scan bs false s.
Definition safe (bs : bool) (l : str) : Prop := ∃ out, lexes bs l out ∧ harmless out.
Definition sealed (bs : bool) (body : str) : Prop := ∀ s, sql_scan bs true (body ++ s) = sql_scan bs true s.

Lemma harmless_app d a b : harmless_from d (a ++ b) = d' ← harmless_from d a; harmless_from d' b.
Proof. revert d. induction a as [| c a IH]; intros d; [done |]. cbn [app harmless_from]. destruct (_ || _); [done |]. apply IH. Qed.

Lemma safe_nil bs : safe bs [].
Proof. exists []. split; [| done]. intros s. cbn. by destruct (sql_scan bs false s). Qed.

Lemma safe_app bs a b : safe bs a → safe bs b → safe bs (a ++ b).
Proof.
  intros (oa & Ha & Hoa) (ob & Hb & Hob). exists (oa ++ ob). split.
  - intros s. rewrite <- app_assoc, Ha, Hb. destruct (sql_scan bs false s); cbn; [by rewrite app_assoc | done].
  - unfold harmless in *. by rewrite harmless_app, Hoa.
Qed.

Lemma safe_plain bs l : SQUOTE ∉ l → harmless l → safe bs l.
Proof.
  intros Hq Hh. exists l. split; [| done]. clear Hh. intros s. induction l as [| c l IH].
  - cbn. by destruct (sql_scan bs false s).
  - cbn [app sql_scan]. rewrite decide_False by set_solver. rewrite IH by set_solver. by destruct (sql_scan bs false s).
Qed.

Lemma safe_quoted bs body : sealed bs body → safe bs (quote_text body).
Proof.
  intros Hs. exists []. split; [| done]. intros s. unfold quote_text. rewrite <- !app_assoc. cbn [app sql_scan].
  rewrite decide_True by done. rewrite Hs. cbn [sql_scan]. change (bool_decide (SQUOTE = BACKSLASH)) with false. rewrite andb_false_r.
  rewrite decide_True by done. by destruct (sql_scan bs false s).
Qed.

Lemma safe_join bs sep l : safe bs sep → Forall (safe bs) l → safe bs (join sep l).
Proof.
  intros Hs. induction 1 as [| x l Hx Hl IH]; [apply safe_nil |]. destruct l as [| y l]; [done |].
  change (join sep (x :: y :: l)) with (x ++ sep ++ join sep (y :: l)). auto using safe_app.
Qed.

(** Constant pieces. *)
Definition is_safe_text (l : str) : bool := negb (bool_decide (SQUOTE ∈ l)) && bool_decide (harmless_from false l = Some false).
Lemma safe_text bs l : is_safe_text l = true → safe bs l.
Proof. intros [Hq%negb_true_iff%bool_decide_eq_false Hh%bool_decide_eq_true]%andb_true_iff. by apply safe_plain. Qed.

(** *** Bodies *)
Lemma sealed_app bs a b : sealed bs a → sealed bs b → sealed bs (a ++ b).
Proof. intros Ha Hb s. by rewrite <- app_assoc, Ha, Hb. Qed.
Lemma sealed_concat bs l : Forall (sealed bs) l → sealed bs (concat l).
Proof. induction 1 as [| x l Hx Hl IH]; [done |]. by apply sealed_app. Qed.
Lemma sealed_char bs c : c ≠ SQUOTE → (bs = true → c ≠ BACKSLASH) → sealed bs [c].
Proof.
  intros Hq Hb s. cbn [app sql_scan]. destruct bs; cbn [andb].
  - rewrite bool_decide_eq_false_2 by auto. by rewrite decide_False.
  - by rewrite decide_False.
Qed.
Lemma sealed_quotes bs : sealed bs [SQUOTE; SQUOTE].
Proof. intros s. by destruct bs. Qed.
Lemma sealed_backslashes bs : sealed bs [BACKSLASH; BACKSLASH].
Proof. intros s. by destruct bs. Qed.

Definition escaped_char (c : char) : str :=
  if decide (c = BACKSLASH) then [BACKSLASH; BACKSLASH] else if decide (c = SQUOTE) then [SQUOTE; SQUOTE] else [c].
Lemma replace_char_app a rep s t : replace_char a rep (s ++ t) = replace_char a rep s ++ replace_char a rep t.
Proof. unfold replace_char. by rewrite fmap_app, concat_app. Qed.
Lemma escape_both_chars s : escape_both s = concat (escaped_char <$> s).
Proof.
  induction s as [| c s IH]; [done |]. rewrite fmap_cons. cbn [concat]. rewrite <- IH. unfold escape_both, double_quotes, double_backslashes.
  change (replace_char BACKSLASH ?r (c :: s)) with ((if decide (c = BACKSLASH) then r else [c]) ++ replace_char BACKSLASH r s).
  rewrite replace_char_app. f_equal. unfold escaped_char, replace_char. destruct (decide (c = BACKSLASH)); [done |]. cbn.
  by destruct (decide (c = SQUOTE)).
Qed.
Lemma sealed_escaped bs s : sealed bs (escape_both s).
Proof.
  rewrite escape_both_chars. apply sealed_concat, Forall_fmap, Forall_true. intros c. cbn. unfold escaped_char.
  destruct (decide (c = BACKSLASH)); [apply sealed_backslashes |]. destruct (decide (c = SQUOTE)); [apply sealed_quotes |].
  by apply sealed_char.
Qed.
Lemma sealed_doubled s : sealed false (double_quotes s).
Proof.
  apply sealed_concat, Forall_fmap, Forall_true. intros c. cbn. destruct (decide (c = SQUOTE)); [apply sealed_quotes |]. by apply sealed_char.
Qed.
Lemma sealed_neo4j s : sealed true (replace_char SQUOTE [BACKSLASH; SQUOTE] (double_backslashes s)).
Proof.
  unfold double_backslashes. induction s as [| c s IH]; [done |].
  change (replace_char BACKSLASH ?r (c :: s)) with ((if decide (c = BACKSLASH) then r else [c]) ++ replace_char BACKSLASH r s).
  rewrite replace_char_app. apply sealed_app; [| done]. destruct (decide (c = BACKSLASH)); [by intros t |]. unfold replace_char. cbn.
  destruct (decide (c = SQUOTE)); [by intros t |]. by apply sealed_char.
Qed.
Lemma sealed_chars bs f s : (∀ c, f c = true → c ≠ SQUOTE ∧ c ≠ BACKSLASH) → forallb f s = true → sealed bs s.
Proof.
  intros Hf. induction s as [| c s IH]; [done |]. cbn. intros [Hc Hs]%andb_true_iff. apply Hf in Hc as [Hq Hb].
  change (c :: s) with ([c] ++ s). apply sealed_app; [by apply sealed_char | auto].
Qed.

(** *** Numbers *)
Lemma digit_plain c : is_ascii_digit c = true → plain_char c = true ∧ c ≠ chr "-" ∧ c ≠ SQUOTE ∧ c ≠ BACKSLASH.
Proof.
  unfold plain_char, is_ascii_alphanumeric. intros Hc. rewrite Hc, orb_true_r. split; [done |].
  unfold is_ascii_digit in Hc. apply bool_decide_eq_true in Hc. change (chr "-") with 45%N. unfold SQUOTE, BACKSLASH. lia.
Qed.

Lemma harmless_step d c s : plain_char c = true → c ≠ chr "-" → harmless_from d (c :: s) = harmless_from false s.
Proof. intros Hp Hd. cbn [harmless_from]. rewrite Hp, (bool_decide_eq_false_2 _ Hd), andb_false_r. done. Qed.

Lemma harmless_digits d ds s :
  forallb is_ascii_digit ds = true → ds ≠ [] → harmless_from d (ds ++ s) = harmless_from false s.
Proof.
  revert d. induction ds as [| c ds IH]; intros d Hd Hn; [done |]. cbn [forallb app] in *. apply andb_true_iff in Hd as [Hc Hd].
  apply digit_plain in Hc as (Hp & Hm & _). rewrite harmless_step by done. destruct ds; [done |]. by apply IH.
Qed.

Lemma take_while_all f s : forallb f (take_while f s) = true.
Proof. induction s as [| c s IH]; [done |]. cbn. destruct (f c) eqn:E; [cbn; by rewrite E | done]. Qed.
Lemma exponent_harmless s e : parse_exponent s = Some e → harmless_from false s = Some false.
Proof.
  destruct s as [| c r]; [done |]. cbn [parse_exponent]. case_bool_decide as Hc; [| done].
  assert (∀ ds x, negb (bool_decide (ds = [])) && forallb is_ascii_digit ds = true →
    harmless_from x ds = Some false) as Hds.
  { intros ds x [Hn%negb_true_iff%bool_decide_eq_false Hd]%andb_true_iff. rewrite <- (app_nil_r ds).
    by rewrite harmless_digits. }
  rewrite harmless_step by (by destruct Hc as [-> | ->]). destruct r as [| c' r']; [done |].
  destruct (decide (c' = chr "-")) as [-> |].
  - destruct (negb _ && _) eqn:E; [| done]. intros _. change (harmless_from false (chr "-" :: r')) with (harmless_from true r'). by apply Hds.
  - destruct (decide (c' = chr "+")) as [-> |]; (destruct (negb _ && _) eqn:E; [| done]); intros _; [| by apply Hds].
    change (harmless_from false (chr "+" :: r')) with (harmless_from false r'). by apply Hds.
Qed.

Lemma unsigned_harmless s x d :
  forallb number_char s = true → parse_unsigned s = Some x → harmless_from d s = Some false.
Proof.
  intros Hs. unfold parse_unsigned.
  assert (∀ w c, to_ascii_lowercase s = c :: w → c ≠ chr "i" ∧ c ≠ chr "n") as Hw.
  { intros w c E. destruct s as [| a s]; [done |]. injection E as <- _. cbn in Hs. apply andb_true_iff in Hs as [Ha _].
    unfold number_char, is_ascii_digit in Ha. rewrite orb_true_iff, !bool_decide_eq_true in Ha.
    assert (ascii_lower a = 101 ∨ a ≤ 57)%N as [-> | Hl]; [| done |].
    - destruct Ha as [[_ ?] | Ha]; [by right |]. cbn in Ha. rewrite !elem_of_cons in Ha.
      destruct Ha as [-> | [-> | [-> | [-> | [-> | Ha]]]]]; try (by right); [by left | by left | by apply not_elem_of_nil in Ha].
    - unfold ascii_lower, is_ascii_uppercase. rewrite bool_decide_eq_false_2 by lia. change (chr "i") with 105%N. change (chr "n") with 110%N. lia. }
  rewrite bool_decide_eq_false_2.
  2:{ intros [E | E]; by destruct (Hw _ _ E). }
  rewrite bool_decide_eq_false_2 by (intros E; by destruct (Hw _ _ E)).
  pose proof (take_drop_while is_ascii_digit s) as Hint. pose proof (take_while_all is_ascii_digit s) as Hdig.
  set (int := take_while is_ascii_digit s) in *. set (rest := drop_while is_ascii_digit s) in *. rewrite <- Hint. clearbody int rest.
  assert (∀ e, parse_exponent rest = Some e → int ≠ [] → harmless_from d (int ++ rest) = Some false) as Hnofrac.
  { intros e He Hi. rewrite harmless_digits by done. by eapply exponent_harmless. }
  destruct rest as [| c r].
  { destruct (decide (int ++ [] = [])) as [| Hn]; [done |]. rewrite app_nil_r in Hn.
    intros _. by apply (Hnofrac 0%Z). }
  destruct (decide (c = chr ".")) as [-> | Hc].
  - pose proof (take_drop_while is_ascii_digit r) as Hf. pose proof (take_while_all is_ascii_digit r) as Hfd.
    set (frac := take_while is_ascii_digit r) in *. set (r' := drop_while is_ascii_digit r) in *. clearbody frac r'.
    destruct (decide (int ++ frac = [])) as [| Hn]; [done |]. destruct (parse_exponent r') as [e |] eqn:He; [| done]. intros _.
    assert (∀ d, harmless_from d (chr "." :: r) = Some false) as Hr.
    { intros d'. rewrite harmless_step by done. rewrite <- Hf. destruct frac as [| f0 frac]; [by eapply exponent_harmless |].
      rewrite harmless_digits by done. by eapply exponent_harmless. }
    destruct int as [| i0 int]; [apply Hr |]. rewrite harmless_digits by done. apply Hr.
  - destruct (decide (int ++ [] = [])) as [| Hn]; [done |]. rewrite app_nil_r in Hn.
    destruct (parse_exponent (c :: r)) as [e |] eqn:He; [| done]. intros _. by eapply Hnofrac.
Qed.

Definition json_number (n : str) : bool := forallb number_char n && bool_decide (is_Some (parse_f64 n)).
Lemma number_harmless n : json_number n = true → harmless n.
Proof.
  intros [Hc Hp%bool_decide_eq_true]%andb_true_iff. destruct Hp as [x Hp]. destruct n as [| c r]; [done |].
  unfold parse_f64 in Hp. cbn in Hc. apply andb_true_iff in Hc as [Hc Hr]. unfold harmless.
  destruct (decide (c = chr "-")) as [-> |].
  - destruct (parse_unsigned r) as [y |] eqn:E; [| done]. change (harmless_from false (chr "-" :: r)) with (harmless_from true r).
    by eapply unsigned_harmless.
  - destruct (decide (c = chr "+")) as [-> |].
    + change (harmless_from false (chr "+" :: r)) with (harmless_from false r). by eapply unsigned_harmless.
    + eapply unsigned_harmless; [| done]. cbn. by rewrite Hc.
Qed.
Lemma number_no_quote n : forallb number_char n = true → SQUOTE ∉ n.
Proof. intros Hn Hq. rewrite forallb_forall in Hn. apply list_elem_of_In, Hn in Hq. by vm_compute in Hq. Qed.
Lemma safe_number bs n : json_number n = true → safe bs n.
Proof. intros Hn. apply safe_plain; [| by apply number_harmless]. apply number_no_quote. by apply andb_true_iff in Hn as [? _]. Qed.

Lemma safe_digits bs ds : forallb is_ascii_digit ds = true → ds ≠ [] → safe bs ds.
Proof.
  intros Hd Hn. apply safe_plain.
  - intros Hq. rewrite forallb_forall in Hd. apply list_elem_of_In, Hd in Hq. by vm_compute in Hq.
  - unfold harmless. rewrite <- (app_nil_r ds). by rewrite harmless_digits.
Qed.

Lemma safe_integer bs (z : Z) : safe bs (lit (pretty z)).
Proof.
  unfold pretty, pretty_Z. destruct z as [| p | p]; [by apply safe_text | |].
  - destruct (show_N_digits (N.pos p)). by apply safe_digits.
  - destruct (show_N_digits (N.pos p)) as [Hd Hn]. change (lit ("-" +:+ pretty (N.pos p))) with (chr "-" :: lit (pretty (N.pos p))).
    apply safe_plain.
    + apply not_elem_of_cons. split; [done |]. intros Hq. rewrite forallb_forall in Hd. apply list_elem_of_In, Hd in Hq. by vm_compute in Hq.
    + unfold harmless. change (harmless_from true (lit (pretty (N.pos p))) = Some false). rewrite <- (app_nil_r (lit _)). by rewrite harmless_digits.
Qed.

(** *** Hexadecimal texts *)
Lemma hex_plain c : is_ascii_hexdigit c = true → plain_char c = true ∧ c ≠ chr "-" ∧ c ≠ SQUOTE ∧ c ≠ BACKSLASH.
Proof.
  unfold is_ascii_hexdigit. intros [Hc | Hc]%orb_true_iff; [by apply digit_plain |]. apply bool_decide_eq_true in Hc.
  change (chr "-") with 45%N. unfold SQUOTE, BACKSLASH. split; [| lia].
  unfold plain_char, is_ascii_alphanumeric, is_ascii_alphabetic, is_ascii_uppercase, is_ascii_lowercase.
  destruct Hc; [rewrite (bool_decide_eq_true_2 (65 ≤ c ∧ c ≤ 90)%N) by lia; done |].
  rewrite (bool_decide_eq_true_2 (97 ≤ c ∧ c ≤ 122)%N) by lia. by rewrite orb_true_r.
Qed.
Lemma safe_letters bs s : (∀ c, c ∈ s → plain_char c = true ∧ c ≠ chr "-" ∧ c ≠ SQUOTE) → safe bs s.
Proof.
  intros Hs. apply safe_plain; [intros Hq; by apply Hs in Hq as (_ & _ & ?) |]. unfold harmless.
  assert (∀ d, s ≠ [] → harmless_from d s = Some false) as Hh; [| destruct s; [done | by apply Hh]].
  induction s as [| c s IH]; [done |]. intros d _. destruct (Hs c) as (Hp & Hd & _); [left |]. rewrite harmless_step by done.
  destruct s as [| c' s]; [done |]. apply IH; [| done]. intros. apply Hs. by right.
Qed.
Lemma sealed_hex bs h : forallb is_ascii_hexdigit h = true → sealed bs h.
Proof. apply sealed_chars. intros c Hc. by apply hex_plain in Hc as (_ & _ & ?). Qed.
Lemma sealed_bits bs h : forallb is_bit h = true → sealed bs h.
Proof. apply sealed_chars. unfold is_bit. intros c [-> | ->]%bool_decide_eq_true; done. Qed.

Lemma sealed_text bs s : forallb (λ c, negb (bool_decide (c = SQUOTE ∨ c = BACKSLASH))) s = true → sealed bs s.
Proof. apply sealed_chars. intros c Hc%negb_true_iff%bool_decide_eq_false. tauto. Qed.

Create HintDb safe.
#[export] Hint Resolve safe_app safe_quoted sealed_escaped safe_number safe_digits safe_integer sealed_hex sealed_bits sealed_app : safe.
#[export] Hint Extern 5 (sealed _ (lit _)) => (apply sealed_text; vm_compute; reflexivity) : safe.
#[export] Hint Extern 5 (safe _ (lit _)) => (apply safe_text; vm_compute; reflexivity) : safe.

Ltac safe_pieces := repeat first [apply safe_quoted | apply safe_app]; auto with safe.

Lemma bit_literal_safe bs bits : forallb is_bit bits = true → safe bs (bit_literal bits).
Proof. intros Hb. unfold bit_literal. apply safe_app; auto with safe. Qed.

Lemma mysql_bit_safe bs text l : format_mysql_bit_literal_text text = Some (Some l) → safe bs l.
Proof.
  unfold format_mysql_bit_literal_text.
  destruct (eq_ignore_ascii_case _ (lit "true")); [intros <-%some_inj%some_inj; auto with safe |].
  destruct (eq_ignore_ascii_case _ (lit "false")); [intros <-%some_inj%some_inj; auto with safe |].
  destruct (_ && negb _) eqn:E.
  { apply andb_true_iff in E as [Hd Hn%negb_true_iff%bool_decide_eq_false]. intros <-%some_inj%some_inj.
    destruct (decide _); [by apply safe_digits |]. destruct (forallb is_bit _) eqn:Hb; [| by apply safe_digits].
    by apply bit_literal_safe. }
  clear E. destruct (starts_with _ _ && _); [| intros E'%some_inj; discriminate E']. destruct (slice_range _ _ _) as [bits |]; [| done]. cbn [mbind option_bind].
  destruct (_ && _) eqn:Eb; [| intros E'%some_inj; discriminate E']. apply andb_true_iff in Eb as [_ Hb]. intros <-%some_inj%some_inj. by apply bit_literal_safe.
Qed.

Lemma mysql_binary_safe bs text l : format_mysql_binary_literal_text text = Some l → safe bs l.
Proof.
  unfold format_mysql_binary_literal_text. destruct (strip_prefix _ (trim text)) as [hex |] eqn:E; [| done]. cbn [mbind option_bind].
  destruct (forallb _ hex) eqn:Hh; [| done]. intros <-%some_inj. apply strip_prefix_Some in E.
  destruct (decide (hex = [])).
  - change (lit "X''") with (lit "X" ++ quote_text []). apply safe_app; [auto with safe |]. apply safe_quoted. by intros s.
  - rewrite E. apply safe_app; [auto with safe |]. apply safe_letters. intros c Hc. rewrite forallb_forall in Hh.
    apply list_elem_of_In, Hh, hex_plain in Hc. tauto.
Qed.
Lemma postgres_binary_safe bs text l : format_postgres_binary_literal_text text = Some l → safe bs l.
Proof.
  unfold format_postgres_binary_literal_text. destruct (match strip_prefix _ _ with Some h => Some h | None => _ end) as [hex |]; [| done].
  cbn [mbind option_bind]. destruct (_ && _) eqn:E; [| done]. apply andb_true_iff in E as [_ Hh]. intros <-%some_inj.
  change (lit ", 'hex')") with (lit ", " ++ quote_text (lit "hex") ++ lit ")").
  safe_pieces.
Qed.
Lemma oracle_raw_safe bs text l : format_oracle_raw_literal_text text = Some l → safe bs l.
Proof.
  unfold format_oracle_raw_literal_text. destruct (strip_prefix _ _) as [hex |]; [| done]. cbn [mbind option_bind].
  destruct (_ && _) eqn:E; [| done]. apply andb_true_iff in E as [_ Hh]. intros <-%some_inj. safe_pieces.
Qed.

(** *** Line breaks of SQL Server *)
Lemma unicode_parts_safe segment text : Forall (safe false) (unicode_parts segment text).
Proof.
  assert (∀ s, Forall (safe false) (flush s)) as Hf.
  { intros s. unfold flush, n_quoted. destruct (decide _); constructor; [| done]. apply safe_app; [auto with safe |].
    apply safe_quoted, sealed_doubled. }
  revert segment. induction text as [| c text IH]; intros segment; [apply Hf |]. cbn [unicode_parts].
  destruct (decide (c = CR)); [apply Forall_app; split; [apply Hf | constructor; [auto with safe | apply IH]] |].
  destruct (decide (c = NL)); [apply Forall_app; split; [apply Hf | constructor; [auto with safe | apply IH]] | apply IH].
Qed.
Lemma unicode_safe text : safe false (format_sqlserver_unicode_literal text).
Proof.
  unfold format_sqlserver_unicode_literal. pose proof (unicode_parts_safe [] text) as Hp. destruct (unicode_parts [] text) as [| p ps].
  - change (lit "N''") with (lit "N" ++ quote_text []). apply safe_app; [auto with safe |]. apply safe_quoted. by intros s.
  - apply safe_join; auto with safe.
Qed.

(** *** Long texts of Oracle *)
Lemma oracle_chars text : append_oracle_sql_literal_characters text = escape_both text.
Proof. by rewrite escape_both_chars. Qed.
Lemma sealed_oracle_char bs ch : sealed bs (append_oracle_sql_literal_char ch).
Proof. pose proof (sealed_escaped bs [ch]) as Hs. rewrite escape_both_chars in Hs. cbn in Hs. by rewrite app_nil_r in Hs. Qed.
Lemma lob_chunks_sealed bs current n text : sealed bs current → Forall (sealed bs) (lob_chunks current n text).
Proof.
  revert current n. induction text as [| ch text IH]; intros current n Hc; cbn [lob_chunks].
  - destruct (decide _); constructor; [done | constructor].
  - destruct (_ && _); [constructor; [done |] |]; apply IH; auto using sealed_app, sealed_oracle_char.
Qed.
Lemma lob_safe bs text constructor :
  constructor = lit "TO_CLOB" ∨ constructor = lit "TO_NCLOB" → safe bs (format_oracle_lob_assignment_literal text constructor).
Proof.
  intros Hc. assert (safe bs constructor) by (destruct Hc as [-> | ->]; auto with safe).
  unfold format_oracle_lob_assignment_literal. destruct (decide _); [rewrite oracle_chars; auto with safe |].
  apply safe_join; [auto with safe |]. apply Forall_fmap. eapply Forall_impl; [apply (lob_chunks_sealed bs []); by intros s |].
  intros chunk Hs. unfold compose. safe_pieces.
Qed.

(** *** Every cell *)
Fixpoint numbers_ok (v : json) : bool :=
  match v with
  | JNumber n => json_number n
  | JArray l => forallb numbers_ok l
  | _ => true
  end.
(** The columns in which Oracle dates are written, without escaping them. *)
Definition writes_oracle_date (d : option DatabaseType.t) (column_info : option DataGridColumnInfo) : bool :=
  is_oracle_temporal_literal_database d && type_is (λ t, bool_decide (is_Some (oracle_temporal_column_kind t))) column_info.

Section safety.
Context `{Serde, Chrono} (bs : bool).
Hypothesis numbers_are_json : ∀ text n, number_from_str text = Some n → json_number n = true.

Lemma ch_element_safe v : numbers_ok v = true → safe bs (format_ch_array_element v).
Proof using.
  revert v. fix IH 1. intros [| b | n | s | l | o] Hv; cbn [format_ch_array_element numbers_ok] in *.
  - auto with safe.
  - destruct b; auto with safe.
  - auto with safe.
  - auto with safe.
  - destruct l as [| x l]; [auto with safe |]. apply safe_app; [auto with safe |]. apply safe_app; [| auto with safe].
    apply safe_join; [auto with safe |]. revert Hv. generalize (x :: l). clear x l.
    fix IHl 1. intros [| y l] Hl; [constructor |]. cbn [forallb map] in *. apply andb_true_iff in Hl as [Hy Hl].
    constructor; [by apply IH | by apply IHl].
  - auto with safe.
Qed.

Lemma array_safe d column_info l : forallb numbers_ok l = true → safe bs (format_array l d column_info).
Proof using.
  intros Hl. unfold format_array. destruct (postgres_json_array_element_type d column_info) as [t |] eqn:Et.
  - assert (safe bs t) as Ht.
    { unfold postgres_json_array_element_type in Et. destruct (negb _); [done |]. destruct column_info; [| done]. cbn [mbind option_bind] in Et.
      destruct (one_of _ _); [apply some_inj in Et as <-; auto with safe |].
      destruct (one_of _ _); [apply some_inj in Et as <-; auto with safe | done]. }
    unfold format_postgres_json_array_sql_literal. destruct l as [| x l]; [safe_pieces |].
    apply safe_app; [auto with safe |]. apply safe_app; [| auto with safe]. apply safe_join; [auto with safe |].
    apply Forall_fmap, Forall_true. intros v. unfold compose, json_array_element. destruct v; [auto with safe | safe_pieces..].
  - destruct (is_any_db _ d).
    + unfold format_ch_array_sql_literal. destruct l as [| x l]; [auto with safe |].
      apply safe_app; [auto with safe |]. apply safe_app; [| auto with safe]. apply safe_join; [auto with safe |].
      apply Forall_fmap, Forall_forall. intros v Hv. apply ch_element_safe. rewrite forallb_forall in Hl. by apply Hl, list_elem_of_In.
    + unfold format_pg_array_sql_literal. destruct l; [| auto with safe].
      change (lit "'{}'") with (quote_text (lit "{}")). auto with safe.
Qed.

Lemma typed_safe text d column_info l : typed_literal text d column_info = Some l → safe bs l.
Proof using.
  unfold typed_literal. destruct (if is_db _ _ && _ then parse_i64 text else None); [intros <-%some_inj; auto with safe |].
  destruct (if is_mysql_binary_literal_column _ _ then format_mysql_binary_literal_text text else None) as [l1 |] eqn:E1.
  { intros <-%some_inj. destruct (is_mysql_binary_literal_column _ _); [by eapply mysql_binary_safe | done]. }
  destruct (if is_postgres_binary_literal_column _ _ then format_postgres_binary_literal_text text else None) as [l2 |] eqn:E2.
  { intros <-%some_inj. destruct (is_postgres_binary_literal_column _ _); [by eapply postgres_binary_safe | done]. }
  destruct (if is_oracle_raw_literal_column _ _ then format_oracle_raw_literal_text text else None) as [l3 |] eqn:E3.
  { intros <-%some_inj. destruct (is_oracle_raw_literal_column _ _); [by eapply oracle_raw_safe | done]. }
  destruct (_ && _) eqn:E; [| done]. intros <-%some_inj. apply andb_true_iff in E as [_ Hn]. apply safe_number.
  unfold is_numeric_literal in Hn. destruct (_ || _); [done |]. rewrite !andb_true_iff in Hn. destruct Hn as [[Hp Hc] _].
  unfold json_number. rewrite Hc. destruct (parse_f64 text); [done | done].
Qed.

Context (d : option DatabaseType.t) (column_info : option DataGridColumnInfo).
Hypothesis standard : is_sqlite_literal_database d || is_db DatabaseType.SqlServer d = true → bs = false.
Hypothesis backslash : is_db DatabaseType.Neo4j d = true → bs = true.

Lemma quoted_safe text : safe bs (quoted_literal text d).
Proof using standard backslash.
  unfold quoted_literal. destruct (is_db DatabaseType.Postgres d && _); [safe_pieces |].
  destruct (is_db DatabaseType.SqlServer d) eqn:Es.
  { rewrite standard by (by rewrite orb_true_r). apply unicode_safe. }
  destruct (is_db DatabaseType.Neo4j d); [rewrite backslash by done; apply safe_quoted, sealed_neo4j |].
  destruct (is_sqlite_literal_database d); [rewrite standard by done; apply safe_quoted, sealed_doubled | auto with safe].
Qed.

Lemma text_safe rec text l :
  (∀ v l, (∃ b, v = JBool b) ∨ (∃ n, v = JNumber n ∧ json_number n = true) → rec v = Some l → safe bs l) →
  writes_oracle_date d column_info = false → format_text rec text d column_info = Some l → safe bs l.
Proof using standard backslash numbers_are_json.
  intros Hrec Hdate. unfold format_text.
  destruct (if is_db DatabaseType.ManticoreSearch d then manticore_typed_attribute_value text column_info else None) as [v |] eqn:Em.
  { apply Hrec. destruct (is_db DatabaseType.ManticoreSearch d); [| done]. unfold manticore_typed_attribute_value in Em. destruct column_info; [| done].
    cbn [mbind option_bind] in Em. destruct (_ && _); [apply some_inj in Em as <-; left; by eexists |].
    destruct (_ && _); [apply some_inj in Em as <-; left; by eexists |]. destruct (_ && _); [| done].
    destruct (number_from_str text) as [n |] eqn:En; [| done]. right. exists n. split; [by injection Em | by eapply numbers_are_json]. }
  destruct (decide (text = [])).
  { intros <-%some_inj. destruct (is_db DatabaseType.SqlServer d).
    - change (lit "N''") with (lit "N" ++ quote_text (lit "")). safe_pieces.
    - change (lit "''") with (quote_text (lit "")). auto with safe. }
  destruct (_ && _); [intros <-%some_inj; safe_pieces |].
  assert ((if is_oracle_temporal_literal_database d then format_oracle_temporal_literal text (data_type <$> column_info) else Some None) = Some None) as ->.
  { unfold writes_oracle_date in Hdate. destruct (is_oracle_temporal_literal_database d); [| done]. unfold format_oracle_temporal_literal.
    destruct column_info as [c |]; [| done]. cbn in *. apply bool_decide_eq_false in Hdate.
    destruct (oracle_temporal_column_kind _); [| done]. by destruct Hdate. }
  cbn [mbind option_bind]. destruct (literal_text _ _ _) as [t |]; [| done]. cbn [mbind option_bind].
  intros <-%some_inj. apply quoted_safe.
Qed.

Lemma value_safe rec value l :
  (∀ v l, (∃ b, v = JBool b) ∨ (∃ n, v = JNumber n ∧ json_number n = true) → rec v = Some l → safe bs l) →
  writes_oracle_date d column_info = false → numbers_ok value = true →
  format_value rec value d column_info = Some l → safe bs l.
Proof using standard backslash numbers_are_json.
  intros Hrec Hdate Hn.
  assert (∀ text, (match typed_literal text d column_info with Some l => Some l | None => format_text rec text d column_info end) = Some l → safe bs l) as Htext.
  { intros text. destruct (typed_literal _ _ _) as [l' |] eqn:E; [intros <-%some_inj; by eapply typed_safe | by apply text_safe]. }
  destruct value as [| b | n | s | arr | o]; cbn [format_value].
  - intros <-%some_inj. auto with safe.
  - intros <-%some_inj. unfold format_bool. destruct (is_bit_literal_column _ _ || _), b; auto with safe.
  - intros <-%some_inj. by apply safe_number.
  - destruct (if is_mysql_bit_literal_column d column_info then format_mysql_bit_literal_text s else Some None) as [[l' |] |] eqn:E;
      [| exact (Htext s) | done]. cbn [mbind option_bind]. intros <-%some_inj.
    destruct (is_mysql_bit_literal_column _ _); [by eapply mysql_bit_safe | done].
  - intros <-%some_inj. by apply array_safe.
  - exact (Htext _).
Qed.

Lemma grid_literal_safe value l :
  writes_oracle_date d column_info = false → numbers_ok value = true →
  format_grid_sql_literal value d column_info = Some l → safe bs l.
Proof using standard backslash numbers_are_json.
  intros Hdate Hn. apply value_safe; [| done | done]. intros v l' Hv. apply value_safe; [done | done |].
  by destruct Hv as [[b ->] | (n & -> & Hj)].
Qed.

(** C16: The literal that is written for any cell value, column type and database is, for a lexer
    with that database's string rules, one that ends in code, opens no comment and has no semicolon
    or quote outside its strings, except for the dates of Oracle columns: whatever a cell holds, it
    cannot end its literal early. *)
Theorem literals_cannot_be_escaped_from value l :
  writes_oracle_date d column_info = false → numbers_ok value = true →
  format_grid_save_sql_literal value d column_info = Some l →
  ∃ out, sql_scan bs false l = Some out ∧ harmless out.
Proof using standard backslash numbers_are_json.
  intros Hdate Hn Hl. enough (safe bs l) as (out & Hlex & Hh).
  { exists out. split; [| done]. specialize (Hlex []). rewrite app_nil_r in Hlex. cbn in Hlex. by rewrite app_nil_r in Hlex. }
  unfold format_grid_save_sql_literal in Hl. destruct (empty_string_saves_as_null _ _); [apply some_inj in Hl as <-; auto with safe |].
  unfold format_grid_assignment_sql_literal in Hl.
  assert (∀ v, numbers_ok v = true → format_grid_sql_literal v d column_info = Some l → safe bs l) as Hg.
  { intros v. by apply grid_literal_safe. }
  destruct (if is_any_db _ d then _ else None) as [constructor |] eqn:E.
  - destruct value; try (by apply Hg in Hl); try (destruct (is_json_document_column _); by apply Hg in Hl).
    apply some_inj in Hl as <-. apply lob_safe. destruct (is_any_db _ d); [| done]. destruct column_info; [| done].
    cbn [mbind option_bind] in E. unfold oracle_character_lob_constructor in E.
    destruct (one_of _ _); [apply some_inj in E as <-; by left |]. destruct (one_of _ _); [apply some_inj in E as <-; by right |].
    destruct (starts_with _ _); [apply some_inj in E as <-; by left | done].
  - destruct value; try (by apply Hg in Hl); destruct (is_json_document_column _); by apply Hg in Hl.
Qed.
End safety.

(** ** What a quoted text means

    The text behind an opening quote up to its end, and what follows. *)
Fixpoint read_text (bs : bool) (s : str) : option (str * str) :=
  match s with
  | [] => None
  | c :: r =>
      if bs && bool_decide (c = BACKSLASH) then
        match r with [] => None | x :: r' => prod_map (cons x) id <$> read_text bs r' end
      else if decide (c = SQUOTE) then
        match r with
        | c' :: r' => if decide (c' = SQUOTE) then prod_map (cons SQUOTE) id <$> read_text bs r' else Some ([], r)
        | [] => Some ([], [])
        end
      else prod_map (cons c) id <$> read_text bs r
  end.

Lemma read_end bs rest : head rest ≠ Some SQUOTE → read_text bs (SQUOTE :: rest) = Some ([], rest).
Proof.
  intros Hr. destruct rest as [| c rest]; [by destruct bs |]. cbn [read_text]. change (bool_decide (SQUOTE = BACKSLASH)) with false.
  rewrite andb_false_r, decide_True by done. by rewrite decide_False by (intros ->; done).
Qed.

(** The escaping of most databases is right for a server that takes backslash
    escapes; any other reads every backslash twice. *)
Theorem escaped_texts_read_back bs text rest :
  head rest ≠ Some SQUOTE →
  read_text bs (escape_both text ++ SQUOTE :: rest) = Some (if bs then text else double_backslashes text, rest).
Proof.
  intros Hr. rewrite escape_both_chars. induction text as [| c text IH]; [etrans; [by apply read_end | by destruct bs] |].
  rewrite fmap_cons. cbn [concat]. rewrite <- app_assoc. unfold escaped_char at 1.
  change (double_backslashes (c :: text)) with ((if decide (c = BACKSLASH) then [BACKSLASH; BACKSLASH] else [c]) ++ double_backslashes text).
  destruct (decide (c = BACKSLASH)) as [-> |].
  { destruct bs; cbn [app read_text andb].
    - rewrite bool_decide_eq_true_2 by done. rewrite IH. done.
    - rewrite decide_False by done. rewrite decide_False by done. rewrite IH. done. }
  destruct (decide (c = SQUOTE)) as [-> |]; cbn [app read_text].
  - change (bool_decide (SQUOTE = BACKSLASH)) with false. rewrite andb_false_r, decide_True by done. rewrite IH. by destruct bs.
  - rewrite bool_decide_eq_false_2, andb_false_r, decide_False by done. rewrite IH. by destruct bs.
Qed.
Theorem doubled_texts_read_back text rest :
  head rest ≠ Some SQUOTE → read_text false (double_quotes text ++ SQUOTE :: rest) = Some (text, rest).
Proof.
  intros Hr. induction text as [| c text IH]; [by apply read_end |].
  change (double_quotes (c :: text)) with ((if decide (c = SQUOTE) then [SQUOTE; SQUOTE] else [c]) ++ double_quotes text).
  rewrite <- app_assoc. destruct (decide (c = SQUOTE)) as [-> |]; cbn [app read_text andb].
  - rewrite decide_True by done. by rewrite IH.
  - rewrite decide_False by done. by rewrite IH.
Qed.

(** ** Long texts are cut within the limit of Oracle *)
Lemma len_utf8_max c : len_utf8 c ≤ 4.
Proof. unfold len_utf8. repeat case_match; lia. Qed.
Lemma oracle_char_len ch : byte_len (escaped_char ch) = oracle_sql_literal_char_len ch.
Proof.
  unfold escaped_char, oracle_sql_literal_char_len. destruct (decide (ch = BACKSLASH)) as [-> |]; [done |].
  destruct (decide (ch = SQUOTE)) as [-> |]; [done |]. rewrite decide_False by tauto. cbn [byte_len]. lia.
Qed.
Lemma oracle_char_len_bounds ch : 1 ≤ oracle_sql_literal_char_len ch ≤ 4.
Proof. unfold oracle_sql_literal_char_len. pose proof (len_utf8_max ch). pose proof (len_utf8_pos ch). destruct (decide _); lia. Qed.
Lemma escape_both_snoc p ch : escape_both (p ++ [ch]) = escape_both p ++ append_oracle_sql_literal_char ch.
Proof. rewrite !escape_both_chars, fmap_app, concat_app. cbn. by rewrite app_nil_r. Qed.

Lemma lob_chunks_parts pre n text :
  n = byte_len (escape_both pre) → n ≤ ORACLE_LOB_LITERAL_CHUNK_BYTES →
  ∃ parts, lob_chunks (escape_both pre) n text = escape_both <$> parts ∧ concat parts = pre ++ text ∧
    Forall (λ p, byte_len (escape_both p) ≤ ORACLE_LOB_LITERAL_CHUNK_BYTES) parts.
Proof.
  revert pre n. induction text as [| ch text IH]; intros pre n Hn Hm; cbn [lob_chunks].
  - destruct (decide (0 < n)) as [Hp | Hp].
    + exists [pre]. repeat split. constructor; [lia | constructor].
    + exists []. repeat split; [| constructor]. destruct pre as [| c pre]; [done |]. exfalso. rewrite escape_both_chars in Hn.
      rewrite fmap_cons in Hn. cbn [concat] in Hn. rewrite byte_len_app, oracle_char_len in Hn. pose proof (oracle_char_len_bounds c). lia.
  - pose proof (oracle_char_len_bounds ch) as Hb. pose proof (oracle_char_len ch) as Hch. case_bool_decide as Hp; cbn [andb].
    + case_bool_decide as Ho.
      * destruct (IH [ch] (oracle_sql_literal_char_len ch)) as (parts & Hc & Hcat & Hf).
        { rewrite escape_both_chars. cbn. by rewrite app_nil_r. }
        { unfold ORACLE_LOB_LITERAL_CHUNK_BYTES. lia. }
        exists (pre :: parts). assert (escape_both [ch] = append_oracle_sql_literal_char ch) as E by (rewrite escape_both_chars; cbn; by rewrite app_nil_r).
        rewrite <- E, Hc. repeat split; [cbn [concat]; by rewrite Hcat | constructor; [lia | done]].
      * rewrite <- escape_both_snoc. destruct (IH (pre ++ [ch]) (n + oracle_sql_literal_char_len ch)) as (parts & Hc & Hcat & Hf).
        { rewrite escape_both_snoc, byte_len_app, <- Hn. f_equal. by rewrite <- Hch. }
        { lia. }
        exists parts. repeat split; [done | rewrite Hcat; by rewrite <- app_assoc | done].
    + rewrite <- escape_both_snoc. destruct (IH (pre ++ [ch]) (n + oracle_sql_literal_char_len ch)) as (parts & Hc & Hcat & Hf).
      { rewrite escape_both_snoc, byte_len_app, <- Hn. f_equal. by rewrite <- Hch. }
      { unfold ORACLE_LOB_LITERAL_CHUNK_BYTES. lia. }
      exists parts. repeat split; [done | rewrite Hcat; by rewrite <- app_assoc | done].
Qed.

Definition chunk_literal (constructor p : str) : str := constructor ++ lit "(" ++ quote_text (escape_both p) ++ lit ")".
(** Long texts are cut into chunks within the limit of a literal. *)
Theorem long_texts_are_cut_within_the_limit text constructor :
  ∃ parts, concat parts = text ∧ Forall (λ p, byte_len (escape_both p) ≤ ORACLE_SQL_LITERAL_MAX_BYTES) parts ∧
    format_oracle_lob_assignment_literal text constructor =
      match parts with [p] => quote_text (escape_both p) | _ => join (lit " || ") (chunk_literal constructor <$> parts) end.
Proof.
  assert (sum_list (oracle_sql_literal_char_len <$> text) = byte_len (escape_both text)) as Hsum.
  { rewrite escape_both_chars. induction text as [| c text IH]; [done |]. rewrite !fmap_cons. cbn [concat].
    rewrite byte_len_app, oracle_char_len, <- IH. done. }
  assert (ORACLE_LOB_LITERAL_CHUNK_BYTES ≤ ORACLE_SQL_LITERAL_MAX_BYTES) as Hle by (apply Nat.leb_le; reflexivity).
  unfold format_oracle_lob_assignment_literal. rewrite Hsum. destruct (decide _) as [Hs | Hs].
  - exists [text]. repeat split; [cbn; by rewrite app_nil_r | by constructor |]. by rewrite oracle_chars.
  - destruct (lob_chunks_parts [] 0 text) as (parts & Hc & Hcat & Hf); [done | unfold ORACLE_LOB_LITERAL_CHUNK_BYTES; lia |].
    exists parts. repeat split; [done | eapply Forall_impl; [exact Hf | intros p Hp; cbv beta in *; lia] |].
    change (escape_both []) with (@nil N) in Hc. rewrite Hc, <- list_fmap_compose.
    destruct parts as [| p [| q parts]]; [done | | done]. exfalso. cbn in Hcat. rewrite app_nil_r in Hcat. subst p.
    apply Forall_cons_1 in Hf as [Hf _]. cbv beta in Hf. lia.
Qed.

(** ** Line breaks of SQL Server: the parts spell the text *)
Definition print_item (i : str) : str :=
  if decide (i = [CR]) then lit "NCHAR(13)" else if decide (i = [NL]) then lit "NCHAR(10)" else n_quoted i.
Definition item_ok (i : str) : Prop := i = [CR] ∨ i = [NL] ∨ (i ≠ [] ∧ CR ∉ i ∧ NL ∉ i).
Lemma unicode_items segment text :
  CR ∉ segment → NL ∉ segment →
  ∃ items, unicode_parts segment text = print_item <$> items ∧ concat items = segment ++ text ∧ Forall item_ok items.
Proof.
  assert (∀ s, CR ∉ s → NL ∉ s → ∃ items, flush s = print_item <$> items ∧ concat items = s ∧ Forall item_ok items) as Hf.
  { intros s Hc Hn. unfold flush. destruct (decide (s = [])) as [-> | Hs]; [by exists [] |]. exists [s].
    split; [cbn; unfold print_item; rewrite !decide_False by (intros ->; set_solver); done |].
    split; [cbn; by rewrite app_nil_r | constructor; [right; right; done | done]]. }
  revert segment. induction text as [| c text IH]; intros segment Hc Hn.
  { rewrite app_nil_r. by apply Hf. }
  cbn [unicode_parts]. destruct (Hf segment) as (fl & Hfl & Hcat & Hok); [done | done |].
  assert (∀ x, c = x → x = CR ∨ x = NL → ∃ items, flush segment ++ print_item [x] :: unicode_parts [] text = print_item <$> items ∧
    concat items = segment ++ c :: text ∧ Forall item_ok items) as Hbreak.
  { intros x -> Hx. destruct (IH []) as (items & Hi & Hci & Hio); [set_solver | set_solver |]. exists (fl ++ [x] :: items).
    rewrite fmap_app, fmap_cons, Hfl, Hi. split; [done |]. rewrite concat_app, Hcat. cbn [concat]. rewrite Hci. split; [done |].
    apply Forall_app. split; [done |]. constructor; [| done]. destruct Hx as [-> | ->]; [by left | right; by left]. }
  destruct (decide (c = CR)) as [-> | Hr]; [by apply (Hbreak CR); auto |].
  destruct (decide (c = NL)) as [-> | Hl]; [by apply (Hbreak NL); auto |].
  destruct (IH (segment ++ [c])) as (items & Hi & Hci & Hio); [set_solver | set_solver |]. exists items.
  rewrite Hi, Hci. split; [done |]. split; [by rewrite <- app_assoc | done].
Qed.
Lemma double_quotes_elem x s : x ∈ double_quotes s → x ∈ s.
Proof.
  unfold double_quotes, replace_char. intros (w & Hw%list_elem_of_In & Hx%list_elem_of_In)%list_elem_of_In%in_concat.
  apply list_elem_of_fmap in Hw as (c & -> & Hc). destruct (decide (c = SQUOTE)) as [-> |]; set_solver.
Qed.
(** No physical line break is left in the statement. *)
Lemma unicode_literal_no_breaks text : CR ∉ format_sqlserver_unicode_literal text ∧ NL ∉ format_sqlserver_unicode_literal text.
Proof.
  destruct (unicode_items [] text) as (items & Hi & _ & Hok); [set_solver | set_solver |].
  unfold format_sqlserver_unicode_literal. rewrite Hi.
  assert (∀ b, b = CR ∨ b = NL → Forall (λ p, b ∉ p) (print_item <$> items)) as Hall.
  { intros b Hb. apply Forall_fmap. eapply Forall_impl; [exact Hok |]. intros i Hi'. unfold compose, print_item, n_quoted, quote_text.
    destruct (decide (i = [CR])); [by destruct Hb as [-> | ->]; apply (bool_decide_unpack _); vm_compute |].
    destruct (decide (i = [NL])); [by destruct Hb as [-> | ->]; apply (bool_decide_unpack _); vm_compute |].
    destruct Hi' as [? | [? | (_ & Hc & Hn)]]; [done | done |].
    rewrite !elem_of_app. intros [Hx | [Hx | [Hx%double_quotes_elem | Hx]]]; destruct Hb as [-> | ->]; try done;
      by apply (bool_decide_pack _) in Hx; vm_compute in Hx. }
  assert (∀ b l, b ∉ lit " + " → Forall (λ p, b ∉ p) l → b ∉ join (lit " + ") l) as Hj.
  { intros b l Hb. induction 1 as [| x l Hx Hl IH]; [apply not_elem_of_nil |]. destruct l as [| y l]; [done |].
    change (join ?sep (x :: y :: l)) with (x ++ sep ++ join sep (y :: l)). rewrite !elem_of_app. tauto. }
  destruct (print_item <$> items) as [| p ps] eqn:E; [split; by apply (bool_decide_unpack _); vm_compute |].
  rewrite <- E. split; apply Hj; first [by apply (bool_decide_unpack _); vm_compute | rewrite E; apply Hall; auto].
Qed.

(** ** ASCII texts do not panic *)
Section ascii.
Context `{Serde, Chrono}.

Lemma ascii_len c : is_ascii c = true → len_utf8 c = 1.
Proof using. unfold is_ascii, len_utf8. intros Hc%bool_decide_eq_true. by rewrite bool_decide_eq_true_2. Qed.
Lemma slice_from_ascii n s : forallb is_ascii s = true → n ≤ length s → slice_from n s = Some (drop n s).
Proof using.
  revert n. induction s as [| c s IH]; intros [| n] Ha Hn; cbn [length] in *; try done; [lia |].
  cbn in Ha. apply andb_true_iff in Ha as [Hc Ha]. cbn [slice_from]. rewrite decide_False by done. rewrite ascii_len by done.
  rewrite decide_True by lia. rewrite Nat.sub_succ, Nat.sub_0_r, IH by (done || lia). done.
Qed.
Lemma forallb_drop {A} (f : A → bool) n l : forallb f l = true → forallb f (drop n l) = true.
Proof using. revert l. induction n as [| n IH]; intros [| x l]; cbn; try done. intros [_ Hl]%andb_true_iff. auto. Qed.
Lemma slice_range_ascii a b s :
  forallb is_ascii s = true → a ≤ b → b ≤ length s → is_Some (slice_range a b s).
Proof using.
  intros Ha Hab Hb. unfold slice_range. rewrite decide_False by lia. rewrite slice_from_ascii by (done || lia). cbn [mbind option_bind].
  rewrite slice_to_ascii; [eauto | by apply forallb_drop |]. rewrite length_drop. lia.
Qed.

Lemma rfc3339_ascii text : forallb is_ascii text = true → is_Some (regex_like_rfc3339 text).
Proof using.
  intros Ha. unfold regex_like_rfc3339. destruct (bool_decide (byte_len text < 20) || _ || _) eqn:E; [eauto |].
  rewrite !orb_false_iff, bool_decide_eq_false, byte_len_ascii in E by done. destruct E as [[E _] _].
  destruct (negb _); [eauto |]. destruct (_ || _); [eauto |].
  destruct (slice_range_ascii 0 10 text) as [x ->]; [done | lia | lia |].
  destruct (slice_range_ascii 11 19 text) as [y ->]; [done | lia | lia |].
  rewrite slice_from_ascii by (done || lia). cbn [mbind option_bind]. eauto.
Qed.
Lemma local_datetime_ascii text : forallb is_ascii text = true → is_Some (regex_like_local_datetime text).
Proof using.
  intros Ha. unfold regex_like_local_datetime. destruct (bool_decide (byte_len text < 10) || _ || _) eqn:E; [eauto |].
  rewrite !orb_false_iff, bool_decide_eq_false, byte_len_ascii in E by done. destruct E as [[E _] _].
  destruct (slice_range_ascii 0 10 text) as [x ->]; [done | lia | lia |]. cbn [mbind option_bind].
  destruct (decide _); [eauto |]. destruct (negb _); [eauto |].
  destruct (bool_decide (byte_len text < 19) || _ || _) eqn:E2; [eauto |].
  rewrite !orb_false_iff, bool_decide_eq_false, byte_len_ascii in E2 by done. destruct E2 as [[E2 _] _].
  destruct (slice_range_ascii 11 19 text) as [y ->]; [done | lia | lia |].
  rewrite slice_from_ascii by (done || lia). cbn [mbind option_bind]. eauto.
Qed.
Lemma tdengine_ascii text : forallb is_ascii text = true → is_Some (parse_tdengine_timestamp text).
Proof using.
  intros Ha. unfold parse_tdengine_timestamp. case_bool_decide as E; [eauto |]. rewrite byte_len_ascii in E by done.
  destruct (_ || _ || _); [eauto |]. destruct (_ || _); [eauto |].
  destruct (slice_range_ascii 0 10 text) as [x ->]; [done | lia | lia |].
  destruct (slice_range_ascii 11 19 text) as [y ->]; [done | lia | lia |].
  rewrite slice_from_ascii by (done || lia). cbn [mbind option_bind]. eauto.
Qed.

(** Only a bit column can panic on an ASCII text. *)
Lemma ascii_cells_do_not_panic value d column_info :
  is_mysql_bit_literal_column d column_info = false →
  forallb is_ascii (match value with JString s => s | _ => value_to_string value end) = true →
  is_Some (format_grid_sql_literal value d column_info).
Proof using.
  intros Hbit Ha. unfold format_grid_sql_literal.
  assert (∀ text, forallb is_ascii text = true → is_Some (literal_text text d column_info)) as Hlit.
  { intros text Ht. unfold literal_text, format_tdengine_timestamp_literal_text, format_mysql_temporal_literal_text.
    destruct (tdengine_ascii text Ht) as [x ->]. destruct (rfc3339_ascii text Ht) as [y ->]. cbn [mbind option_bind]. repeat case_match; eauto. }
  assert (∀ rec text, (∀ v, (∃ b, v = JBool b) ∨ (∃ n, v = JNumber n) → is_Some (rec v)) → forallb is_ascii text = true →
    is_Some (format_text rec text d column_info)) as Htext.
  { intros rec text Hrec Ht. unfold format_text.
    destruct (if is_db DatabaseType.ManticoreSearch d then manticore_typed_attribute_value text column_info else None) as [v |] eqn:Em.
    { apply Hrec. destruct (is_db DatabaseType.ManticoreSearch d); [| done]. unfold manticore_typed_attribute_value in Em.
      destruct column_info; [| done]. cbn [mbind option_bind] in Em. destruct (_ && _); [simplify_eq; eauto |].
      destruct (_ && _); [simplify_eq; eauto |]. destruct (_ && _); [| done]. destruct (number_from_str text); simplify_eq/=; eauto. }
    destruct (decide _); [eauto |]. destruct (_ && _); [eauto |].
    assert (is_Some (if is_oracle_temporal_literal_database d then format_oracle_temporal_literal text (data_type <$> column_info) else Some None)) as [o ->].
    { destruct (is_oracle_temporal_literal_database d); [| eauto]. unfold format_oracle_temporal_literal, regex_like_oracle_temporal.
      destruct (_ ≫= _); [| eauto]. destruct (rfc3339_ascii text Ht) as [y ->]. destruct (local_datetime_ascii text Ht) as [z Hz].
      destruct y; cbn [mbind option_bind]; [eauto |]. rewrite Hz. cbn [mbind option_bind]. eauto. }
    cbn [mbind option_bind]. destruct o; [eauto |]. destruct (Hlit text Ht) as [t ->]. cbn [mbind option_bind]. eauto. }
  destruct value as [| b | n | s | arr | o]; cbn [format_value]; try (by eauto); rewrite ?Hbit; cbn [mbind option_bind];
    (destruct (typed_literal _ _ _); [eauto |]); (apply Htext; [| done]); intros v [[b ->] | [n ->]]; cbn; eauto.
Qed.
End ascii.

(** ** Concrete cells *)
Definition plain_serde : Serde := {|
  value_to_string v := lit "{}"; value_from_str _ := None; number_from_str t := if json_number t then Some t else None |}.
Definition no_clock : Chrono := {|
  naive := unit; parse_naive _ _ := None; add_micros _ _ := None; format_naive _ _ := []; subsec_millis _ := 0%N;
  earliest_offset _ := None; now_offset := 0 |}.
Definition typed_column (t : string) : DataGridColumnInfo :=
  {| info_name := lit "c"; data_type := lit t; is_nullable := true; is_primary_key := false; column_default := None; extra := None |}.

Lemma literals_cannot_be_escaped_from_witness :
  ∃ out, sql_scan true false (lit "'x''; DROP TABLE t --\\'") = Some out ∧ harmless out.
Proof.
  apply (literals_cannot_be_escaped_from (H := plain_serde) (H0 := no_clock) true) with
    (d := Some DatabaseType.Mysql) (column_info := Some (typed_column "varchar(20)"))
    (value := JString (lit "x'; DROP TABLE t --\")).
  - intros text n E. cbn in E. destruct (json_number text) eqn:Hj; [| discriminate E]. by injection E as <-.
  - vm_compute. discriminate.
  - vm_compute. discriminate.
  - vm_compute. reflexivity.
  - vm_compute. reflexivity.
  - vm_compute. reflexivity.
Defined.

(** The date of an Oracle column is written between quotes as it is: ten bytes
    with two dashes in the right places need not be a date. *)
Example oracle_dates_are_not_escaped :
  format_grid_sql_literal (H := plain_serde) (H0 := no_clock) (JString (lit "' OR-1<-'1")) (Some DatabaseType.Oracle) (Some (typed_column "DATE"))
  = Some (lit "DATE '' OR-1<-'1'") ∧
  sql_scan false false (lit "DATE '' OR-1<-'1'") = Some (lit "DATE  OR-1<-").
Proof. split; vm_compute; reflexivity. Qed.

(** Slices at a fixed byte panic inside of a character; a bit literal that is
    only opened panics too. *)
Definition EURO : char := 8364%N.
Example cells_that_panic :
  format_grid_sql_literal (H := plain_serde) (H0 := no_clock) (JString (lit "2026-01-01T00:00:" ++ [EURO])) (Some DatabaseType.Mysql) None = None ∧
  format_grid_sql_literal (H := plain_serde) (H0 := no_clock) (JString (lit "2026-01-" ++ [EURO])) (Some DatabaseType.Oracle) (Some (typed_column "DATE")) = None ∧
  format_grid_sql_literal (H := plain_serde) (H0 := no_clock) (JString (lit "b'")) (Some DatabaseType.Mysql) (Some (typed_column "bit(8)")) = None.
Proof. split_and!; vm_compute; reflexivity. Qed.

(** Oracle has no backslash escapes, yet its backslashes are doubled. *)
Example oracle_backslashes_are_doubled :
  format_grid_sql_literal (H := plain_serde) (H0 := no_clock) (JString (lit "C:\dir")) (Some DatabaseType.Oracle) None = Some (lit "'C:\\dir'") ∧
  read_text false (lit "C:\\dir'") = Some (lit "C:\\dir", []).
Proof. split; vm_compute; reflexivity. Qed.
