(* ===== verification/GridSave.v ===== *)
(** * Saving the data grid (data_grid_sql.rs)

    The statements that write the edited cells, deleted rows and new rows of a
    result back to its table, and the statements that take them back.  A
    statement is a term with its text [statement_sql]; a text that panics makes
    the whole preparation panic, which is [None].  This file has the relational
    databases; Neo4j, TDengine and IoTDB have statements of their own. *)
From S2P Require Import Prelude SqlDialect StateStore Json Identifiers Floats GridColumns GridLiteral.
Local Open Scope dbx_scope.

Record DataGridTableMeta := {
  catalog : option str;
  database : option str;
  schema : option str;
  table_name : str;
  primary_keys : list str;
  columns : option (list DataGridColumnInfo);
}.
Record DataGridSaveStatementOptions := {
  database_type : option DatabaseType.t;
  identifier_quote : option str;
  table_meta : DataGridTableMeta;
  result_columns : list str;
  source_columns : option (list (option str));
  rows : list (list json);
  dirty_rows : list (nat * list (nat * json));
  deleted_rows : list nat;
  new_rows : list (list json);
}.

Definition infos (o : DataGridSaveStatementOptions) : list DataGridColumnInfo := default [] (columns (table_meta o)).
Definition is_null (v : json) : bool := bool_decide (v = JNull).
(** [row.get(index).unwrap_or(&Value::Null)] *)
Definition cell (row : list json) (index : nat) : json := default JNull (row !! index).

(** ** Columns of the result *)
Definition unique_column_info_match (cols : list DataGridColumnInfo) (name : str) : option DataGridColumnInfo :=
  match List.find (λ c, bool_decide (info_name c = name)) cols with
  | Some c => Some c
  | None =>
      match filter (λ c, normalize_column_name (info_name c) = normalize_column_name name) cols with
      | [c] => Some c
      | _ => None
      end
  end.

(** [s.strip_suffix(c)] *)
Definition strip_suffix_char (c : char) (s : str) : option str :=
  match reverse s with x :: r => if decide (x = c) then Some (reverse r) else None | [] => None end.
Definition unquote_identifier_component (component : str) : option str :=
  let try (oc : char * char) (otherwise : option str) :=
    let '(open, close) := oc in
    if bool_decide (head component = Some open) || bool_decide (last component = Some close) then
      inner ← strip_prefix [open] component;
      inner ← strip_suffix_char close inner;
      Some (replace_str [close; close] [close] inner)
    else otherwise in
  if decide (component = []) then None
  else try (BACKTICK, BACKTICK) (try (DQUOTE, DQUOTE) (try (chr "[", chr "]") (Some component))).

(** [cur] is the current component, [seen] whether there was one before. *)
Fixpoint last_component_from (quote : option char) (skip : bool) (cur : str) (seen : bool) (s : str) : option str :=
  match s with
  | [] => if bool_decide (quote ≠ None) || negb seen then None else unquote_identifier_component (trim cur)
  | ch :: r =>
      if skip then last_component_from quote false (cur ++ [ch]) seen r
      else match quote with
           | Some q =>
               if decide (ch = q) then
                 if decide (head r = Some q) then last_component_from quote true (cur ++ [ch]) seen r
                 else last_component_from None false (cur ++ [ch]) seen r
               else last_component_from quote false (cur ++ [ch]) seen r
           | None =>
               if decide (ch = BACKTICK ∨ ch = DQUOTE) then last_component_from (Some ch) false (cur ++ [ch]) seen r
               else if decide (ch = chr "[") then last_component_from (Some (chr "]")) false (cur ++ [ch]) seen r
               else if decide (ch = chr ".") then if decide (trim cur = []) then None else last_component_from None false [] true r
               else last_component_from None false (cur ++ [ch]) seen r
           end
  end.
Definition last_qualified_identifier_component (name : str) : option str := last_component_from None false [] false name.

Definition resolve_hive_target_column (meta : DataGridTableMeta) (result_column : str) : str :=
  match columns meta with
  | None => result_column
  | Some cols =>
      match unique_column_info_match cols result_column with
      | Some c => info_name c
      | None =>
          match last_qualified_identifier_component result_column with
          | None => result_column
          | Some unqualified =>
              match unique_column_info_match cols unqualified with Some c => info_name c | None => result_column end
          end
      end
  end.
Definition effective_columns (o : DataGridSaveStatementOptions) : list (option str) :=
  let cols := match source_columns o with
              | Some source => if decide (length source = length (result_columns o)) then source else Some <$> result_columns o
              | None => Some <$> result_columns o
              end in
  if negb (is_db DatabaseType.Hive (database_type o)) then cols
  else option_map (resolve_hive_target_column (table_meta o)) <$> cols.

(** ** Names *)
Section names.
Context `{Letters} (percent_decode : str → option str).

Definition quote_iris_identifier (name : str) (identifier_quote : option str) : str :=
  let ordinary := match name with
                  | first :: rest =>
                      (bool_decide (first = chr "_" ∨ first = chr "%") || letter first)
                      && forallb (λ ch, bool_decide (ch = chr "_") || letter_or_digit ch) rest
                  | [] => false
                  end in
  if ordinary then name
  else
    let quote := default [DQUOTE] (non_blank identifier_quote) in
    quote ++ replace_str quote (quote ++ quote) name ++ quote.
Definition uses_connection_identifier_quote (d : option DatabaseType.t) (identifier_quote : option str) : bool :=
  is_any_db [DatabaseType.Kingbase; DatabaseType.Jdbc; DatabaseType.Spanner] d
  || (is_any_db [DatabaseType.Informix; DatabaseType.Gaussdb; DatabaseType.OpenGauss; DatabaseType.Postgres] d
      && bool_decide (is_Some identifier_quote)).
Definition quote_table_data_identifier (d : option DatabaseType.t) (name : str) (identifier_quote : option str) : str :=
  if negb (uses_connection_identifier_quote d identifier_quote) then quote_table_identifier d name
  else match identifier_quote with
       | None => quote_table_identifier d name
       | Some quote =>
           if is_any_db [DatabaseType.Gaussdb; DatabaseType.OpenGauss; DatabaseType.Postgres] d
           then quote_gaussdb_jdbc_identifier name quote
           else if decide (quote = []) then name
           else quote ++ replace_str quote (quote ++ quote) name ++ quote
       end.
Definition table_data_qualified_table_name (d : option DatabaseType.t) (schema : option str) (table_name : str) (identifier_quote : option str) : str :=
  if is_db DatabaseType.Iris d then
    let table := quote_iris_identifier table_name identifier_quote in
    match non_blank schema with Some s => quote_iris_identifier s identifier_quote ++ lit "." ++ table | None => table end
  else if negb (uses_connection_identifier_quote d identifier_quote) then qualified_table_name percent_decode d schema table_name
  else
    let table := quote_table_data_identifier d table_name identifier_quote in
    match non_blank schema with Some s => quote_table_data_identifier d s identifier_quote ++ lit "." ++ table | None => table end.
Definition data_grid_identifier (d : option DatabaseType.t) (name : str) (identifier_quote : option str) : str :=
  if is_db DatabaseType.Iris d then quote_iris_identifier name identifier_quote else quote_table_data_identifier d name identifier_quote.
Definition predicate_ident (d : option DatabaseType.t) (name : str) (identifier_quote : option str) : str :=
  if is_oracle_row_id d (Some name) then lit "ROWIDTOCHAR(ROWID)" else data_grid_identifier d name identifier_quote.
Definition data_grid_qualified_table_name (d : option DatabaseType.t) (catalog schema database : option str) (table_name : str)
    (identifier_quote : option str) : str :=
  if is_db DatabaseType.Iris d then
    let table := quote_iris_identifier table_name identifier_quote in
    match non_blank schema with Some s => quote_iris_identifier s identifier_quote ++ lit "." ++ table | None => table end
  else if uses_connection_identifier_quote d identifier_quote then table_data_qualified_table_name d schema table_name identifier_quote
  else qualified_table_name_with_catalog percent_decode d catalog schema database table_name.
Definition table_data_schema (d : option DatabaseType.t) (driver_profile schema : option str) : option str :=
  if is_db DatabaseType.Informix d && match driver_profile with Some p => eq_ignore_ascii_case p (lit "gbase8s") | None => false end
  then None else schema.

Definition grid_table (o : DataGridSaveStatementOptions) (driver_profile : option str) : str :=
  let meta := table_meta o in
  data_grid_qualified_table_name (database_type o) (catalog meta) (table_data_schema (database_type o) driver_profile (schema meta))
    (database meta) (table_name meta) (identifier_quote o).
End names.

(** ** Statements *)
(** [format_grid_assignment_sql_literal] or [format_grid_save_sql_literal] *)
Inductive literal_kind := Assign | Save.
#[export] Instance literal_kind_eq_dec : EqDecision literal_kind.
Proof. solve_decision. Defined.

(** [column = value], exact comparison of texts when [p_binary]. *)
Record predicate := mkPredicate { p_column : str; p_value : json; p_kind : literal_kind; p_binary : bool }.
(** The conditions of a statement: one of the lists holds. *)
Inductive grid_statement :=
| SUpdate (sets : list (str * json)) (kind : literal_kind) (conditions : list (list predicate))
| SDelete (conditions : list (list predicate))
| SInsert (cols : list str) (tuples : list (list json)) (kind : literal_kind)
| SInsertEmpty
| SInsertHive (cols : list str) (tuple : list json) (kind : literal_kind).

Definition MYSQL_DATA_GRID_BATCH_MAX_ROWS : nat := 500.
Definition MYSQL_DATA_GRID_BATCH_TARGET_SQL_BYTES : nat := 256 * 1024.

(** ** Batches *)
Section batches.
Context (prefix separator : str) (wrap : bool).

Definition part_bytes (part : str) : nat := byte_len part + (if wrap then 2 else 0).
Definition joined_batch_sql_len (current : list str) (next : str) : nat :=
  match current with
  | [] => byte_len prefix + byte_len next + 1
  | _ =>
      let single := bool_decide (length current = 1) && wrap in
      let current_bytes := if single then byte_len (default [] (head current))
                           else sum_list (part_bytes <$> current) + byte_len separator * (length current - 1) in
      let existing_adjustment := if single then 2 else 0 in
      byte_len prefix + current_bytes + existing_adjustment + byte_len separator + part_bytes next + 1
  end.
Definition batch_body (parts : list str) : str :=
  if bool_decide (length parts = 1) || negb wrap then join separator parts
  else join separator ((λ part, lit "(" ++ part ++ lit ")") <$> parts).
Definition batch_statement (parts : list str) : str := prefix ++ batch_body parts ++ lit ";".

(** Parts with what they stand for. *)
Fixpoint joined_batches {A} (batch parts : list (str * A)) : list (list (str * A)) :=
  match parts with
  | [] => if decide (length batch = 0) then [] else [batch]
  | part :: rest =>
      let next_len := joined_batch_sql_len batch.*1 part.1 in
      if negb (bool_decide (length batch = 0)) &&
         (bool_decide (MYSQL_DATA_GRID_BATCH_MAX_ROWS ≤ length batch) || bool_decide (MYSQL_DATA_GRID_BATCH_TARGET_SQL_BYTES < next_len))
      then batch :: joined_batches [part] rest
      else joined_batches (batch ++ [part]) rest
  end.
End batches.

(** ** Building the statements *)
Section build.
Context `{Serde, Chrono, Letters} (percent_decode : str → option str).
Context (o : DataGridSaveStatementOptions) (driver_profile : option str).
Let d := database_type o.
Let save_columns := effective_columns o.
Let info (column : str) := column_info_for (infos o) column.

Definition literal (kind : literal_kind) (column : str) (value : json) : option str :=
  match kind with
  | Assign => format_grid_assignment_sql_literal value d (info column)
  | Save => format_grid_save_sql_literal value d (info column)
  end.

Definition postgres_keyless_json_predicate (ident literal : str) (column_info : option DataGridColumnInfo) : option str :=
  if negb (is_postgres_like_pattern_database d) then None
  else
    c ← column_info;
    let normalized := to_ascii_lowercase (trim (data_type c)) in
    let t := trim_matches DQUOTE (default normalized (last (split_char (chr ".") normalized))) in
    if one_of ["json"] t then Some (ident ++ lit "::text = " ++ literal ++ lit "::text")
    else if one_of ["jsonb"] t then Some (ident ++ lit " = " ++ literal ++ lit "::jsonb") else None.
Definition mysql_json_predicate_literal (literal : str) (column_info : option DataGridColumnInfo) : str :=
  if is_db DatabaseType.Mysql d && type_is (λ t, eq_ignore_ascii_case (trim t) (lit "json")) column_info
  then lit "CAST(" ++ literal ++ lit " AS JSON)" else literal.
Definition uses_mysql_binary_text_predicate (value : json) (column_info : option DataGridColumnInfo) : bool :=
  is_db DatabaseType.Mysql d && match value with JString _ => true | _ => false end && type_is is_textual_column_type column_info.

(** [build_column_predicate] for [Assign], [build_save_column_predicate] for [Save]. *)
Definition predicate_sql (p : predicate) : option str :=
  let column_info := info (p_column p) in
  let ident := predicate_ident d (p_column p) (identifier_quote o) in
  if is_null (p_value p) || (bool_decide (p_kind p = Save) && empty_string_saves_as_null (p_value p) column_info)
  then Some (ident ++ lit " IS NULL")
  else
    l ← literal (p_kind p) (p_column p) (p_value p);
    if p_binary p && uses_mysql_binary_text_predicate (p_value p) column_info then Some (lit "BINARY " ++ ident ++ lit " = " ++ l)
    else match (if p_binary p then postgres_keyless_json_predicate ident l column_info else None) with
         | Some text => Some text
         | None => Some (ident ++ lit " = " ++ mysql_json_predicate_literal l column_info)
         end.
Definition where_sql (ps : list predicate) : option str := texts ← mapM predicate_sql ps; Some (join (lit " AND ") texts).

(** The columns of the result with their positions, except hidden ones. *)
Definition named_columns : list (nat * str) := omap (λ ic : nat * option str, pair ic.1 <$> ic.2) (imap pair save_columns).

(** [build_row_where] for [Assign], [build_save_row_where] for [Save]. *)
Definition build_row_where (kind : literal_kind) (row : list json) : list predicate :=
  (λ ic : nat * str, mkPredicate ic.2 (cell row ic.1) kind true) <$>
  filter (λ ic : nat * str, is_oracle_row_id d (Some ic.2) = false) named_columns.
Definition build_primary_key_where (row : list json) : list predicate :=
  if bool_decide (primary_keys (table_meta o) = []) && uses_keyless_row_predicate d then build_row_where Assign row
  else (λ primary_key,
          let value := match find_column_index d save_columns primary_key with Some i => cell row i | None => JNull end in
          mkPredicate primary_key value Assign false) <$> primary_keys (table_meta o).

Definition set_sql (kind : literal_kind) (cv : str * json) : option str :=
  l ← literal kind cv.1 cv.2; Some (data_grid_identifier d cv.1 (identifier_quote o) ++ lit " = " ++ l).
Definition sets_sql (kind : literal_kind) (sets : list (str * json)) : option str :=
  texts ← mapM (set_sql kind) sets; Some (join (lit ", ") texts).

Definition data_grid_statement (sql : str) : str := if is_db DatabaseType.ManticoreSearch d then sql else sql ++ lit ";".
Definition update_prefix (table sets : str) : str :=
  if is_db DatabaseType.ClickHouse d then lit "ALTER TABLE " ++ table ++ lit " UPDATE " ++ sets ++ lit " WHERE "
  else lit "UPDATE " ++ table ++ lit " SET " ++ sets ++ lit " WHERE ".
Definition delete_prefix (table : str) : str :=
  if is_db DatabaseType.ClickHouse d then lit "ALTER TABLE " ++ table ++ lit " DELETE WHERE "
  else lit "DELETE FROM " ++ table ++ lit " WHERE ".
Definition insert_prefix (table columns : str) : str := lit "INSERT INTO " ++ table ++ lit " (" ++ columns ++ lit ") VALUES ".
Definition conditions_sql (conditions : list (list predicate)) : option str :=
  texts ← mapM where_sql conditions; Some (batch_body (lit " OR ") true texts).
Definition columns_sql (cols : list str) : str := join (lit ", ") ((λ c, data_grid_identifier d c (identifier_quote o)) <$> cols).
Definition tuple_sql (kind : literal_kind) (cols : list str) (tuple : list json) : option str :=
  values ← mapM (λ cv : str * json, literal kind cv.1 cv.2) (zip cols tuple);
  Some (lit "(" ++ join (lit ", ") values ++ lit ")").

Definition statement_sql (s : grid_statement) : option str :=
  let table := grid_table percent_decode o driver_profile in
  match s with
  | SUpdate sets kind conditions =>
      sets ← sets_sql kind sets;
      body ← conditions_sql conditions;
      Some (data_grid_statement (update_prefix table sets ++ body))
  | SDelete conditions => body ← conditions_sql conditions; Some (data_grid_statement (delete_prefix table ++ body))
  | SInsert cols tuples kind =>
      texts ← mapM (tuple_sql kind cols) tuples;
      Some (data_grid_statement (insert_prefix table (columns_sql cols) ++ join (lit ", ") texts))
  | SInsertEmpty => Some (data_grid_statement (lit "INSERT INTO " ++ table ++ lit " () VALUES ()"))
  | SInsertHive cols tuple kind =>
      text ← tuple_sql kind cols tuple; Some (data_grid_statement (lit "INSERT INTO TABLE " ++ table ++ lit " VALUES " ++ text))
  end.

Definition supports_mysql_data_grid_batch : bool :=
  is_db DatabaseType.Mysql d && negb (bool_decide (primary_keys (table_meta o) = [])).
Definition primary_key_set : list str := normalize_column_name <$> primary_keys (table_meta o).

(** The changes of a row that an UPDATE may write. *)
Definition writable_changes (key_set : list str) (changes : list (nat * json)) : list (nat * str * json) :=
  omap (λ change : nat * json,
    column ← save_columns !! change.1 ≫= id;
    if is_grid_update_omitted_column d (info column) (Some column) key_set then None else Some (change.1, column, change.2)) changes.

Definition update_batches (sets_text : str) (sets : list (str * json)) (parts : list (str * list predicate)) : list grid_statement :=
  (λ batch : list (str * list predicate), SUpdate sets Save batch.*2) <$>
  joined_batches (lit "UPDATE " ++ grid_table percent_decode o driver_profile ++ lit " SET " ++ sets_text ++ lit " WHERE ") (lit " OR ") true [] parts.

(** [current] are the assignments of the open batch, [parts] its conditions. *)
Fixpoint update_loop (current : option (str * list (str * json))) (parts : list (str * list predicate))
    (dirty : list (nat * list (nat * json))) : option (list grid_statement) :=
  match dirty with
  | [] => Some (match current with Some (text, sets) => update_batches text sets parts | None => [] end)
  | (row_index, changes) :: rest =>
      match rows o !! row_index with
      | None => update_loop current parts rest
      | Some row =>
          let sets := (λ c : nat * str * json, (c.1.2, c.2)) <$> writable_changes primary_key_set changes in
          if decide (sets = []) then update_loop current parts rest
          else
            sets_text ← sets_sql Save sets;
            let condition := build_primary_key_where row in
            where_text ← where_sql condition;
            if supports_mysql_data_grid_batch then
              match current with
              | Some (text, old) =>
                  if decide (text = sets_text) then update_loop (Some (sets_text, sets)) (parts ++ [(where_text, condition)]) rest
                  else stmts ← update_loop (Some (sets_text, sets)) [(where_text, condition)] rest;
                       Some (update_batches text old parts ++ stmts)
              | None => update_loop (Some (sets_text, sets)) (parts ++ [(where_text, condition)]) rest
              end
            else stmts ← update_loop current parts rest; Some (SUpdate sets Save [condition] :: stmts)
      end
  end.

(** The rows of the result that are there. *)
Definition selected (indexes : list nat) : list (list json) := omap (λ i, rows o !! i) indexes.
Definition with_text (conditions : list (list predicate)) : option (list (str * list predicate)) :=
  mapM (λ c, text ← where_sql c; Some (text, c)) conditions.
Definition delete_statements : option (list grid_statement) :=
  parts ← with_text (build_primary_key_where <$> selected (deleted_rows o));
  Some (if supports_mysql_data_grid_batch
        then (λ batch : list (str * list predicate), SDelete batch.*2) <$>
             joined_batches (lit "DELETE FROM " ++ grid_table percent_decode o driver_profile ++ lit " WHERE ") (lit " OR ") true [] parts
        else (λ p : str * list predicate, SDelete [p.2]) <$> parts).

(** [build_hive_values_insert] *)
Definition hive_insert (row : list json) (kind : literal_kind) (skip_all_null : bool) : list grid_statement :=
  let cols := match infos o with [] => named_columns.*2 | cs => info_name <$> cs end in
  let value column := match find_column_index (Some DatabaseType.Hive) save_columns column with Some i => cell row i | None => JNull end in
  if decide (cols = []) then []
  else if skip_all_null && forallb (λ c, is_null (value c)) cols then []
  else [SInsertHive cols (value <$> cols) kind].

Definition grid_value_is_empty (v : json) : bool := bool_decide (v = JNull ∨ v = JString []).
Definition insert_pairs (row : list json) : list (str * json) :=
  filter (λ cv : str * json, is_grid_insert_omitted_column d (info cv.1) (Some cv.1) false = false)
    ((λ ic : nat * str, (ic.2, cell row ic.1)) <$> named_columns).
Definition new_row_pairs (row : list json) : list (str * json) :=
  filter (λ cv : str * json, cv.2 ≠ JNull)
    (filter (λ cv : str * json, is_grid_insert_omitted_column d (info cv.1) (Some cv.1) false = false)
      (filter (λ cv : str * json, negb (match info cv.1 with Some c => is_auto_generated_column c | None => false end)
                                  || negb (grid_value_is_empty cv.2) = true)
        ((λ ic : nat * str, (ic.2, cell row ic.1)) <$> named_columns))).
Definition new_row_statements (row : list json) : list grid_statement :=
  if is_db DatabaseType.Hive d then hive_insert row Save true
  else
    let pairs := new_row_pairs row in
    if decide (pairs = []) then (if is_db DatabaseType.Mysql d then [SInsertEmpty] else [])
    else [SInsert pairs.*1 [pairs.*2] Save].

Definition relational_save_statements : option (list grid_statement) :=
  updates ← update_loop None [] (dirty_rows o);
  deletes ← delete_statements;
  Some (updates ++ deletes ++ concat (new_row_statements <$> new_rows o)).

(** ** Taking them back *)
Definition build_mysql_insert_rollback_where (row : list json) : option (list predicate) :=
  let unknown primary_key :=
    match list_find (λ column, column = Some primary_key) save_columns with
    | None => true
    | Some (i, _) =>
        let column_info := info primary_key in
        is_null (cell row i) || empty_string_saves_as_null (cell row i) column_info
        || match column_info with Some c => is_auto_generated_column c || is_non_identity_generated_column (Some c) | None => false end
    end in
  if bool_decide (primary_keys (table_meta o) = []) || existsb unknown (primary_keys (table_meta o)) then None
  else Some (build_primary_key_where row).
Definition insert_rollback (row : list json) : list grid_statement :=
  if is_db DatabaseType.Mysql d
  then match build_mysql_insert_rollback_where row with Some c => [SDelete [c]] | None => [] end
  else match build_row_where Save row with [] => [] | c => [SDelete [c]] end.

Definition insert_batches (columns_text : str) (cols : list str) (parts : list (str * list json)) : list grid_statement :=
  (λ batch : list (str * list json), SInsert cols batch.*2 Assign) <$>
  joined_batches (insert_prefix (grid_table percent_decode o driver_profile) columns_text) (lit ", ") false [] parts.
(** Every row has the same columns, so one batch is open at a time. *)
Definition delete_rollback : option (list grid_statement) :=
  if is_db DatabaseType.Hive d then Some (concat ((λ row, hive_insert row Assign false) <$> selected (deleted_rows o)))
  else
    let pairs := insert_pairs <$> selected (deleted_rows o) in
    parts ← mapM (λ ps : list (str * json), text ← tuple_sql Assign ps.*1 ps.*2; Some (text, ps.*2)) pairs;
    let cols := (insert_pairs []).*1 in
    Some (if supports_mysql_data_grid_batch then insert_batches (columns_sql cols) cols parts
          else (λ p : str * list json, SInsert cols [p.2] Assign) <$> parts).

(** [after_row[index] = value] when it is in range *)
Definition after_row (row : list json) (changes : list (nat * json)) : list json :=
  fold_left (λ r (c : nat * json), <[c.1 := c.2]> r) changes row.
Definition update_rollback (dirty : nat * list (nat * json)) : list grid_statement :=
  let '(row_index, changes) := dirty in
  match rows o !! row_index with
  | None => []
  | Some row =>
      let writable := writable_changes [] changes in
      let sets := (λ c : nat * str * json, (c.1.2, cell row c.1.1)) <$> writable in
      if decide (sets = []) then []
      else [SUpdate sets Assign [build_primary_key_where (after_row row changes) ++
                                 ((λ c : nat * str * json, mkPredicate c.1.2 c.2 Save true) <$> writable)]]
  end.

Definition relational_rollback_statements : option (list grid_statement) :=
  if is_db DatabaseType.ClickHouse d then Some []
  else
    deletes ← delete_rollback;
    Some (concat (insert_rollback <$> new_rows o) ++ deletes ++ concat (update_rollback <$> dirty_rows o)).
End build.

(** ** Checks before anything is written *)
Section validate.
Context `{Serde} (o : DataGridSaveStatementOptions).
Let d := database_type o.
Let save_columns := effective_columns o.
Let keys := primary_keys (table_meta o).
Definition quoted_name (name : str) : str := [DQUOTE] ++ name ++ [DQUOTE].

(** [iter.find_map(f)] *)
Fixpoint find_map {A B} (f : A → option B) (l : list A) : option B :=
  match l with [] => None | x :: r => match f x with Some y => Some y | None => find_map f r end end.

Definition validate_existing_row_primary_keys : option str :=
  if bool_decide (keys = []) || (bool_decide (dirty_rows o = []) && bool_decide (deleted_rows o = [])) then None
  else
    let missing := filter (λ k, find_column_index d save_columns k = None) keys in
    if decide (missing ≠ []) then
      Some (lit "Cannot safely update or delete rows because the query result does not include every primary key column (missing: " ++
            join (lit ", ") missing ++ lit "). Refresh or rerun the query before saving.")
    else
      let indexes := omap (find_column_index d save_columns) keys in
      find_map (λ row_index,
        row ← rows o !! row_index;
        '(k, _) ← List.find (λ ki : str * nat, match row !! ki.2 with None => true | Some v => is_null v end) (zip keys indexes);
        Some (lit "Cannot safely update or delete rows because primary key column " ++ quoted_name k ++
              lit " has no value in the query result. Refresh or rerun the query before saving."))
        ((dirty_rows o).*1 ++ deleted_rows o).

Definition validate_oracle_keyless_lob_predicate : option str :=
  if negb (uses_oracle_row_id d) || negb (bool_decide (keys = [])) || (bool_decide (dirty_rows o = []) && bool_decide (deleted_rows o = []))
  then None
  else if existsb (λ c, is_oracle_lob_type (data_type c)) (infos o)
  then Some (lit "Cannot safely update or delete this Oracle-compatible row because the table has LOB columns but no primary key or ROWID identifier.")
  else None.

Definition clickhouse_no_mutable_columns_error : str :=
  lit "ClickHouse primary or partition key columns cannot be updated. Change a non-key column before saving.".
Definition validate_clickhouse_mutable_updates : option str :=
  if negb (is_db DatabaseType.ClickHouse d) || bool_decide (dirty_rows o = []) then None
  else
    let key_set := normalize_column_name <$> keys in
    if negb (negb (bool_decide (key_set = [])) || existsb (λ c, is_clickhouse_partition_key_column d (Some c)) (infos o)) then None
    else
      find_map (λ rc : nat * list (nat * json),
        if decide (rc.2 = []) then None
        else
          let mutable (c : nat * json) :=
            match save_columns !! c.1 ≫= id with
            | None => false
            | Some column => negb (is_grid_update_omitted_column d (column_info_for (infos o) column) (Some column) key_set)
            end in
          if existsb mutable rc.2 then None else Some clickhouse_no_mutable_columns_error) (dirty_rows o).

Definition primary_key_value_key (indexes : list nat) (row : list json) : option str :=
  let values := cell row <$> indexes in
  if existsb is_null values then None else Some (value_to_string (JArray values)).
Definition format_key_value_for_message (v : json) : str :=
  match v with
  | JNull => lit "NULL"
  | JString s => quoted_name (replace_char DQUOTE [BACKSLASH; DQUOTE] s)
  | _ => value_to_string v
  end.
Definition duplicate_primary_key_error (indexes : list nat) (row : list json) (matches_existing_row : bool) : str :=
  let summary := join (lit ", ") (zip_with (λ k i, k ++ lit " = " ++ format_key_value_for_message (cell row i)) keys indexes) in
  let source := if matches_existing_row then lit "the existing primary key" else lit "another new row's primary key" in
  lit "New row duplicates " ++ source ++ lit " (" ++ summary ++ lit "). Change the key before saving.".
Fixpoint duplicate_new_row (indexes : list nat) (existing new : list str) (rs : list (list json)) : option str :=
  match rs with
  | [] => None
  | row :: rest =>
      match primary_key_value_key indexes row with
      | None => duplicate_new_row indexes existing new rest
      | Some key =>
          if decide (key ∈ existing ∨ key ∈ new) then Some (duplicate_primary_key_error indexes row (bool_decide (key ∈ existing)))
          else duplicate_new_row indexes existing (new ++ [key]) rest
      end
  end.
Definition validate_inserted_primary_keys : option str :=
  if bool_decide (keys = []) || bool_decide (new_rows o = []) then None
  else
    match mapM (find_column_index d save_columns) keys with
    | None => None
    | Some indexes => duplicate_new_row indexes (omap (primary_key_value_key indexes) (rows o)) [] (new_rows o)
    end.

Definition null_write_error (column : str) : str := lit "Column " ++ quoted_name column ++ lit " does not allow NULL.".
Definition not_null_columns : list str :=
  normalize_column_name ∘ info_name <$>
  filter (λ c, negb (is_nullable c) && bool_decide (column_default c = None) && negb (is_auto_generated_column c)
               && negb (is_non_identity_generated_column (Some c)) && negb (is_oracle_row_id d (Some (info_name c))) = true) (infos o).
Definition null_write (i : nat) (v : json) : option str :=
  let column := save_columns !! i ≫= id in
  if is_null_write_to_not_null_column d not_null_columns column (is_null v) then Some (null_write_error (default [] column)) else None.
Definition validate_null_writes : option str :=
  if decide (not_null_columns = []) then None
  else
    match find_map (λ rc : nat * list (nat * json), find_map (λ c, null_write c.1 c.2) rc.2) (dirty_rows o) with
    | Some e => Some e
    | None =>
        if is_db DatabaseType.Mysql d then None
        else find_map (λ row, find_map (λ i, null_write i (cell row i)) (seq 0 (length (result_columns o)))) (new_rows o)
    end.
End validate.

(** [data_grid_save_execution_schema] *)
Definition data_grid_save_execution_schema (d : option DatabaseType.t) (driver_profile : option str) (meta : DataGridTableMeta) : option str :=
  if is_any_db [DatabaseType.Neo4j; DatabaseType.Oracle] d then None else table_data_schema d driver_profile (schema meta).

(** ** Batches keep every part and stay within their limits *)
Section batch_limits.
Context (prefix separator : str) (wrap : bool).

Lemma byte_len_join sep l : byte_len (join sep l) = sum_list (byte_len <$> l) + byte_len sep * (length l - 1).
Proof.
  induction l as [| x l IH]; [cbn; lia |]. destruct l as [| y l]; [cbn; lia |].
  change (join sep (x :: y :: l)) with (x ++ sep ++ join sep (y :: l)). rewrite !byte_len_app, IH. cbn. nia.
Qed.

(** The length that is estimated before a part is added is the length of the
    statement with it. *)
Lemma joined_len_exact current next :
  joined_batch_sql_len prefix separator wrap current next = byte_len (batch_statement prefix separator wrap (current ++ [next])).
Proof.
  unfold joined_batch_sql_len, batch_statement, batch_body. rewrite !byte_len_app. change (byte_len (lit ";")) with 1.
  assert (∀ f : str → str, byte_len (join separator (f <$> current ++ [next])) =
    sum_list (byte_len ∘ f <$> current) + byte_len (f next) + byte_len separator * length current) as Hj.
  { intros f. rewrite byte_len_join, length_fmap, length_app, fmap_app, fmap_app, sum_list_with_app. cbn [length fmap list_fmap].
    rewrite <- list_fmap_compose. cbn. lia. }
  destruct current as [| c current]; [cbn [app]; rewrite bool_decide_eq_true_2 by done; cbn [orb join]; lia |]. rewrite length_app. cbn [length head].
  rewrite (bool_decide_eq_false_2 (S (length current) + 1 = 1)) by lia. cbn [orb].
  specialize (Hj (if wrap then (λ part, lit "(" ++ part ++ lit ")") else id)).
  assert (∀ l, sum_list (byte_len ∘ (if wrap then (λ part, lit "(" ++ part ++ lit ")") else id) <$> l) = sum_list (part_bytes wrap <$> l)) as Hp.
  { intros l. f_equal. apply list_fmap_ext. intros _ x _. unfold compose, part_bytes. destruct wrap; rewrite ?byte_len_app; [| cbn [id]; lia].
    change (byte_len (lit "(")) with 1. change (byte_len (lit ")")) with 1. lia. }
  rewrite Hp in Hj. unfold part_bytes. destruct wrap; cbn [negb andb].
  - rewrite Hj, byte_len_app, byte_len_app. change (byte_len (lit "(")) with 1. change (byte_len (lit ")")) with 1. cbn [length].
    case_bool_decide as H1.
    + destruct current; [| cbn in H1; lia]. unfold part_bytes. cbn [sum_list_with fmap list_fmap default id length andb]. lia.
    + unfold part_bytes. cbn [length andb]. lia.
  - rewrite list_fmap_id in Hj. rewrite Hj. rewrite andb_false_r. unfold part_bytes. cbn [length id andb]. rewrite Nat.sub_succ, Nat.sub_0_r, Nat.mul_succ_r. lia.
Qed.

Definition batch_ok {A} (batch : list (str * A)) : Prop :=
  length batch ≤ MYSQL_DATA_GRID_BATCH_MAX_ROWS ∧
  (1 < length batch → byte_len (batch_statement prefix separator wrap batch.*1) ≤ MYSQL_DATA_GRID_BATCH_TARGET_SQL_BYTES).

Lemma joined_batches_ok {A} (batch parts : list (str * A)) :
  batch_ok batch →
  concat (joined_batches prefix separator wrap batch parts) = batch ++ parts ∧
  Forall (λ b, b ≠ [] ∧ batch_ok b) (joined_batches prefix separator wrap batch parts).
Proof.
  revert batch. induction parts as [| part parts IH]; intros batch Hb; cbn [joined_batches].
  - destruct (decide (length batch = 0)) as [E | E]; [destruct batch; [done | done] |].
    split; [cbn; by rewrite app_nil_r |]. constructor; [| done]. split; [by destruct batch | done].
  - assert (batch_ok [part]) as H1 by (split; [apply Nat.leb_le; reflexivity | cbn [length]; lia]).
    destruct (negb _ && _) eqn:E.
    + apply andb_true_iff in E as [Hn%negb_true_iff%bool_decide_eq_false _]. destruct (IH [part] H1) as [Hc Hf]. cbn [concat].
      rewrite Hc. split; [done |]. constructor; [| done]. split; [by destruct batch | done].
    + destruct (IH (batch ++ [part])) as [Hc Hf]; [| rewrite Hc, <- app_assoc; done].
      destruct batch as [| b batch]; [done |]. cbn [length] in E. rewrite bool_decide_eq_false_2 in E by done. cbn [negb andb] in E.
      apply orb_false_iff in E as [Hr%bool_decide_eq_false Hl%bool_decide_eq_false]. split.
      * rewrite length_app. cbn [length] in *. lia.
      * intros _. rewrite fmap_app. cbn [fmap list_fmap]. rewrite joined_len_exact in Hl. cbn [fmap list_fmap] in Hl. lia.
Qed.

Lemma joined_batches_concat {A} (parts : list (str * A)) : concat (joined_batches prefix separator wrap [] parts) = parts.
Proof. apply joined_batches_ok. split; [apply Nat.leb_le; reflexivity | cbn [length]; lia]. Qed.
Lemma elem_of_batches {A} (parts b : list (str * A)) p : b ∈ joined_batches prefix separator wrap [] parts → p ∈ b → p ∈ parts.
Proof. rewrite <- (joined_batches_concat parts) at 2. rewrite !list_elem_of_In, in_concat. by exists b. Qed.

(** C40: `push_mysql_joined_batches` puts every part into exactly one statement, in order; no
    statement is empty, none has more than 500 parts, and one with more than one part has at most
    256 KiB of SQL. *)
Theorem batches_stay_within_their_limits {A} (parts : list (str * A)) :
  let batches := joined_batches prefix separator wrap [] parts in
  concat batches = parts ∧
  Forall (λ b, b ≠ [] ∧ length b ≤ MYSQL_DATA_GRID_BATCH_MAX_ROWS ∧
    (1 < length b → byte_len (batch_statement prefix separator wrap b.*1) ≤ MYSQL_DATA_GRID_BATCH_TARGET_SQL_BYTES)) batches.
Proof. apply joined_batches_ok. split; [apply Nat.leb_le; reflexivity | cbn [length]; lia]. Qed.
End batch_limits.
