(* ===== verification/GridRefine.v ===== *)
(** * Saving and taking back (data_grid_sql.rs)

    An abstract database runs the statements of [GridSave].  A value of the
    database is what it stores for a literal; the class [GridDatabase] says
    what the grid relies on.  For a table with a primary key that the grid
    shows in full, [save_and_rollback] states what the saved table is and that
    the rollback statements restore the original one, batches included. *)
From S2P Require Import Prelude SqlDialect StateStore Json Identifiers Floats GridColumns GridLiteral GridSave.
Local Open Scope dbx_scope.

Class GridDatabase (o : DataGridSaveStatementOptions) := {
  V : Type;
  V_eq_dec :: EqDecision V;
  null : V;
  (* the value of a literal in a column *)
  stored : literal_kind → str → json → V;
  (* the value of a column that an INSERT leaves out *)
  defaults : str → V;
  (* only the literal NULL is stored as null: not Oracle, whose empty text is null too *)
  stored_null kind c v : stored kind c v = null ↔
    is_null v || (bool_decide (kind = Save) && empty_string_saves_as_null v (column_info_for (infos o) c)) = true;
  stored_same c v : empty_string_saves_as_null v (column_info_for (infos o) c) = false → stored Save c v = stored Assign c v;
}.

Section table.
Context {o : DataGridSaveStatementOptions} {D : GridDatabase o} (cols : list str).

(** ** Rows *)
Definition index_of (c : str) : option nat := fst <$> list_find (λ x, x = c) cols.
Definition at_col (r : list V) (c : str) : V := match index_of c with Some i => default null (r !! i) | None => null end.
Definition set_col (r : list V) (c : str) (v : V) : list V := match index_of c with Some i => <[i := v]> r | None => r end.
(** The row of the table that a row of the grid shows. *)
Definition db_row (row : list json) : list V := zip_with (stored Assign) cols row.
Definition key (r : list V) : list V := at_col r <$> primary_keys (table_meta o).

(** ** Statements *)
Definition holds (r : list V) (p : predicate) : bool :=
  let c := p_column p in
  if is_null (p_value p) || (bool_decide (p_kind p = Save) && empty_string_saves_as_null (p_value p) (column_info_for (infos o) c))
  then bool_decide (at_col r c = null)
  else bool_decide (at_col r c ≠ null ∧ at_col r c = stored (p_kind p) c (p_value p)).
Definition holds_all (r : list V) (condition : list predicate) : bool := forallb (holds r) condition.
Definition matches (r : list V) (conditions : list (list predicate)) : bool := existsb (holds_all r) conditions.
Definition write (kind : literal_kind) (sets : list (str * json)) (r : list V) : list V :=
  fold_left (λ r (cv : str * json), set_col r cv.1 (stored kind cv.1 cv.2)) sets r.
Definition inserted (kind : literal_kind) (cs : list str) (tuple : list json) : list V :=
  (λ c, match list_find (λ cv : str * json, cv.1 = c) (zip cs tuple) with
        | Some (_, (_, v)) => stored kind c v
        | None => defaults c
        end) <$> cols.
Definition exec (s : grid_statement) (t : list (list V)) : list (list V) :=
  match s with
  | SUpdate sets kind conditions => (λ r, if matches r conditions then write kind sets r else r) <$> t
  | SDelete conditions => filter (λ r, matches r conditions = false) t
  | SInsert cs tuples kind => t ++ (inserted kind cs <$> tuples)
  | SInsertEmpty => t ++ [defaults <$> cols]
  | SInsertHive cs tuple kind => t ++ [inserted kind cs tuple]
  end.
Definition exec_all (ss : list grid_statement) (t : list (list V)) : list (list V) := fold_left (λ t s, exec s t) ss t.

Lemma exec_all_app a b t : exec_all (a ++ b) t = exec_all b (exec_all a t).
Proof. apply fold_left_app. Qed.

(** ** Steps that touch one key each *)
Definition step_one (kf : list V * (list V → list V)) (r : list V) : list V := if decide (key r = kf.1) then kf.2 r else r.
Definition apply_all (fs : list (list V * (list V → list V))) (r : list V) : list V := fold_left (λ r kf, step_one kf r) fs r.

Lemma apply_all_app a b r : apply_all (a ++ b) r = apply_all b (apply_all a r).
Proof using. apply fold_left_app. Qed.
Lemma apply_all_other fs r : key r ∉ fs.*1 → apply_all fs r = r.
Proof using.
  induction fs as [| [k f] fs IH]; intros Hk; [done |]. cbn in Hk.
  change (apply_all ((k, f) :: fs) r) with (apply_all fs (step_one (k, f) r)). unfold step_one. cbn.
  rewrite decide_False by set_solver. apply IH. set_solver.
Qed.
Lemma apply_all_one fs r k f :
  NoDup fs.*1 → (∀ f, (k, f) ∈ fs → key (f r) = k) → (k, f) ∈ fs → key r = k → apply_all fs r = f r.
Proof using.
  induction fs as [| [k' f'] fs IH]; intros Hd Hp Hin Hk; [by apply not_elem_of_nil in Hin |].
  rewrite fmap_cons in Hd. apply NoDup_cons in Hd as [Hx Hd]. cbn in Hx.
  change (apply_all ((k', f') :: fs) r) with (apply_all fs (step_one (k', f') r)). unfold step_one. cbn.
  apply elem_of_cons in Hin as [[= <- <-] | Hin].
  - rewrite decide_True by done. apply apply_all_other. rewrite (Hp f); [done | left].
  - rewrite decide_False.
    + apply IH; [done | | done | done]. intros g Hg. apply Hp. by right.
    + intros E. apply Hx. apply list_elem_of_fmap. exists (k, f). split; [cbn; congruence | done].
Qed.
Lemma apply_all_ext a b r :
  Forall2 (λ x y, x.1 = y.1 ∧ ∀ r, x.2 r = y.2 r) a b → apply_all a r = apply_all b r.
Proof using.
  intros Hab. revert r. induction Hab as [| [k f] [k' g] a b [Hk Hf] _ IH]; intros r; [done |]. cbn in Hk, Hf. subst k'.
  unfold apply_all in *. cbn. rewrite IH. f_equal. unfold step_one. cbn. by rewrite Hf.
Qed.

(** ** Batches of deletions *)
Lemma matches_app (r : list V) a b : matches r (a ++ b) = matches r a || matches r b.
Proof using. apply existsb_app. Qed.
Lemma exec_deletes bs t : exec_all (SDelete <$> bs) t = filter (λ r, matches r (concat bs) = false) t.
Proof using.
  revert t. induction bs as [| b bs IH]; intros t.
  - induction t as [| r t IH]; [done |]. rewrite filter_cons_True by done. by rewrite <- IH at 1.
  - change (exec_all (SDelete <$> bs) (exec (SDelete b) t) = filter (λ r, matches r (b ++ concat bs) = false) t).
    rewrite IH. cbn [exec]. rewrite list_filter_filter. apply list_filter_iff. intros r. rewrite matches_app, orb_false_iff. tauto.
Qed.

(** ** Columns *)
Hypothesis cols_nodup : NoDup cols.

Lemma index_of_lookup c i : cols !! i = Some c → index_of c = Some i.
Proof using cols_nodup.
  intros Hi. unfold index_of. destruct (list_find _ cols) as [[j x] |] eqn:E.
  - apply list_find_Some in E as (Hj & -> & _). cbn. f_equal. by eapply NoDup_lookup.
  - exfalso. apply list_find_None in E. rewrite Forall_forall in E. apply (E c); [by eapply list_elem_of_lookup_2 | done].
Qed.
Lemma index_of_elem c : c ∈ cols → ∃ i, index_of c = Some i ∧ cols !! i = Some c.
Proof using cols_nodup. intros [i Hi]%list_elem_of_lookup. exists i. split; [by apply index_of_lookup | done]. Qed.
Lemma index_of_Some c i : index_of c = Some i → cols !! i = Some c.
Proof using.
  unfold index_of. destruct (list_find _ cols) as [[j x] |] eqn:E; [| done]. intros [= <-]. by apply list_find_Some in E as (? & -> & _).
Qed.
Lemma at_col_lookup r c i : cols !! i = Some c → at_col r c = default null (r !! i).
Proof using cols_nodup. intros Hi. unfold at_col. by rewrite (index_of_lookup c i). Qed.

Lemma rows_ext (r1 r2 : list V) :
  length r1 = length cols → length r2 = length cols → (∀ c, c ∈ cols → at_col r1 c = at_col r2 c) → r1 = r2.
Proof using cols_nodup.
  intros H1 H2 Hc. apply list_eq. intros i. destruct (cols !! i) as [c |] eqn:Ei.
  - specialize (Hc c). rewrite !(at_col_lookup _ c i) in Hc by done.
    destruct (lookup_lt_is_Some_2 r1 i) as [x Hx]; [rewrite H1; by eapply lookup_lt_Some |].
    destruct (lookup_lt_is_Some_2 r2 i) as [y Hy]; [rewrite H2; by eapply lookup_lt_Some |].
    rewrite Hx, Hy in Hc |- *. cbn in Hc. f_equal. apply Hc. by eapply list_elem_of_lookup_2.
  - apply lookup_ge_None in Ei. rewrite !lookup_ge_None_2 by lia. done.
Qed.

Lemma set_col_length r c v : length (set_col r c v) = length r.
Proof using. unfold set_col. destruct (index_of c); [by rewrite length_insert | done]. Qed.
Lemma at_set_col r c v c' : c ∈ cols → length r = length cols → at_col (set_col r c v) c' = if decide (c = c') then v else at_col r c'.
Proof using cols_nodup.
  intros Hc Hr. apply index_of_elem in Hc as (i & Hi & Hl). unfold at_col, set_col. rewrite Hi. destruct (decide (c = c')) as [<- | Hn].
  - rewrite Hi, list_lookup_insert_eq; [done |]. rewrite Hr. by eapply lookup_lt_Some.
  - destruct (index_of c') as [j |] eqn:Ej; [| done]. rewrite list_lookup_insert_ne; [done |]. intros ->. apply index_of_Some in Ej. congruence.
Qed.

Lemma write_length kind sets r : length (write kind sets r) = length r.
Proof using. revert r. induction sets as [| [c v] sets IH]; intros r; [done |]. cbn. unfold write in IH. by rewrite IH, set_col_length. Qed.
Lemma at_write_ne kind sets r c :
  (∀ x, x ∈ sets.*1 → x ∈ cols) → length r = length cols → c ∉ sets.*1 → at_col (write kind sets r) c = at_col r c.
Proof using cols_nodup.
  revert r. induction sets as [| [x v] sets IH]; intros r Hs Hr Hc; [done |]. cbn in Hs, Hc.
  change (write kind ((x, v) :: sets) r) with (write kind sets (set_col r x (stored kind x v))).
  rewrite IH; [| set_solver | by rewrite set_col_length | set_solver]. rewrite at_set_col by set_solver. by rewrite decide_False by set_solver.
Qed.
Lemma at_write kind sets r c v :
  NoDup sets.*1 → (∀ x, x ∈ sets.*1 → x ∈ cols) → length r = length cols → (c, v) ∈ sets →
  at_col (write kind sets r) c = stored kind c v.
Proof using cols_nodup.
  revert r. induction sets as [| [x w] sets IH]; intros r Hd Hs Hr Hin; [by apply not_elem_of_nil in Hin |].
  rewrite fmap_cons in Hd. apply NoDup_cons in Hd as [Hx Hd]. cbn in Hs, Hx.
  change (write kind ((x, w) :: sets) r) with (write kind sets (set_col r x (stored kind x w))).
  apply elem_of_cons in Hin as [[= -> ->] | Hin].
  - rewrite at_write_ne; [| set_solver | by rewrite set_col_length | done]. rewrite at_set_col by set_solver. by rewrite decide_True.
  - apply IH; [done | set_solver | by rewrite set_col_length | done].
Qed.

Lemma db_row_length row : length row = length cols → length (db_row row) = length cols.
Proof using. intros Hr. unfold db_row. rewrite length_zip_with. lia. Qed.
Lemma at_db_row row c i : length row = length cols → cols !! i = Some c → at_col (db_row row) c = stored Assign c (cell row i).
Proof using cols_nodup.
  intros Hr Hi. rewrite (at_col_lookup _ c i) by done. unfold db_row, cell.
  destruct (lookup_lt_is_Some_2 row i) as [v Hv]; [rewrite Hr; by eapply lookup_lt_Some |].
  rewrite lookup_zip_with, Hi, Hv. done.
Qed.

End table.
(** ** What the grid shows *)
Definition keys (o : DataGridSaveStatementOptions) : list str := primary_keys (table_meta o).
(** The grid shows the columns of the table under their names, its primary key
    among them, and the edits are within it and leave the keys alone. *)
Record shows (o : DataGridSaveStatementOptions) (cols : list str) : Prop := {
  shown_columns : effective_columns o = Some <$> cols;
  shown_nodup : NoDup cols;
  shown_keys : ∀ k, k ∈ keys o → k ∈ cols;
  shown_keyed : keys o ≠ [];
  shown_database : is_any_db [DatabaseType.Hive; DatabaseType.ClickHouse] (database_type o) = false;
  shown_ordinary c : c ∈ cols →
    is_oracle_row_id (database_type o) (Some c) = false ∧
    is_postgres_tsvector_column (database_type o) (column_info_for (infos o) c) = false ∧
    is_non_identity_generated_column (column_info_for (infos o) c) = false ∧
    (match column_info_for (infos o) c with Some i => is_auto_generated_column i | None => false end) = false;
  shown_rows row : row ∈ rows o ++ new_rows o → length row = length cols;
  shown_dirty : NoDup (dirty_rows o).*1;
  shown_changes i ch : (i, ch) ∈ dirty_rows o → NoDup ch.*1 ∧ ∀ j v, (j, v) ∈ ch → ∃ c, cols !! j = Some c ∧ c ∉ keys o;
  shown_deleted : NoDup (deleted_rows o);
}.

Lemma after_row_length row ch : length (after_row row ch) = length row.
Proof. revert row. induction ch as [| [j v] ch IH]; intros row; [done |]. unfold after_row in *. cbn. by rewrite IH, length_insert. Qed.
Lemma after_row_ne row ch i : i ∉ ch.*1 → after_row row ch !! i = row !! i.
Proof.
  revert row. induction ch as [| [j v] ch IH]; intros row Hi; [done |]. unfold after_row in *. cbn in *.
  rewrite IH by set_solver. apply list_lookup_insert_ne. set_solver.
Qed.

Section shown.
Context {o : DataGridSaveStatementOptions} {D : GridDatabase o} (cols : list str) (S : shows o cols).

(** The assignments of the changed cells of a row. *)
Definition assignments (ch : list (nat * json)) : list (str * json) :=
  omap (λ jv : nat * json, c ← cols !! jv.1; Some (c, jv.2)) ch.
(** The values the changed cells had before. *)
Definition originals (row : list json) (ch : list (nat * json)) : list (str * json) :=
  omap (λ jv : nat * json, c ← cols !! jv.1; Some (c, cell row jv.1)) ch.

Lemma key_index k : k ∈ keys o → ∃ i, cols !! i = Some k ∧ find_column_index (database_type o) (effective_columns o) k = Some i.
Proof using S.
  intros Hk. apply (shown_keys _ _ S) in Hk as [i Hi]%list_elem_of_lookup. exists i. split; [done |].
  unfold find_column_index. rewrite (shown_columns _ _ S).
  destruct (list_find _ (Some <$> cols)) as [[j x] |] eqn:E.
  - apply list_find_Some in E as (Hj & -> & _). rewrite list_lookup_fmap in Hj. apply fmap_Some in Hj as (x & Hx & [= <-]).
    f_equal. by eapply NoDup_lookup; [apply (shown_nodup _ _ S) | |].
  - apply list_find_None in E. rewrite Forall_forall in E. exfalso. apply (E (Some k)); [| done].
    apply list_elem_of_fmap. exists k. split; [done |]. by eapply list_elem_of_lookup_2.
Qed.

Lemma named_columns_shown : named_columns o = imap pair cols.
Proof using S.
  unfold named_columns. rewrite (shown_columns _ _ S). clear S.
  assert (∀ f : nat → nat, omap (λ ic : nat * option str, pair ic.1 <$> ic.2) (imap (λ i, pair (f i)) (Some <$> cols)) = imap (λ i, pair (f i)) cols) as Hg.
  { induction cols as [| c l IH]; intros f; [done |]. cbn. f_equal. apply (IH (f ∘ Datatypes.S)). }
  apply (Hg id).
Qed.

(** A predicate of the grid holds of a row when the row has the value that the
    literal of the predicate stands for. *)
Lemma holds_iff (r : list V) p : holds cols r p = true ↔ at_col cols r (p_column p) = stored (p_kind p) (p_column p) (p_value p).
Proof using.
  unfold holds. destruct (is_null _ || _) eqn:E; rewrite bool_decide_eq_true.
  - apply stored_null in E. by rewrite E.
  - split; [by intros [_ ?] |]. intros ->. split; [| done]. rewrite stored_null, E. done.
Qed.
Lemma holds_all_iff (r : list V) ps :
  holds_all cols r ps = true ↔ ∀ p, p ∈ ps → at_col cols r (p_column p) = stored (p_kind p) (p_column p) (p_value p).
Proof using.
  unfold holds_all. rewrite forallb_forall. split; intros Hp p; specialize (Hp p); rewrite <- list_elem_of_In in *; rewrite <- holds_iff in *; done.
Qed.

(** The condition on the primary key selects the rows with that key. *)
Lemma key_condition (r : list V) row :
  length row = length cols → holds_all cols r (build_primary_key_where o row) = true ↔ key cols r = key cols (db_row cols row).
Proof using S.
  intros Hr. rewrite holds_all_iff. unfold build_primary_key_where. rewrite bool_decide_eq_false_2 by apply (shown_keyed _ _ S). cbn [andb].
  assert (∀ k, k ∈ keys o → ∀ v, v = (match find_column_index (database_type o) (effective_columns o) k with Some i => cell row i | None => JNull end) →
    stored Assign k v = at_col cols (db_row cols row) k) as Hs.
  { intros k Hk v ->. destruct (key_index k Hk) as (i & Hi & ->). by rewrite (at_db_row cols (shown_nodup _ _ S) row k i). }
  unfold key. fold (keys o). split.
  - intros Hp. apply list_fmap_ext. intros i k Hk%list_elem_of_lookup_2. rewrite <- (Hs k Hk _ eq_refl).
    eapply (Hp (mkPredicate k _ Assign false)). apply list_elem_of_fmap. by exists k.
  - intros E p Hp. apply list_elem_of_fmap in Hp as (k & -> & Hk). cbn [p_column p_kind p_value]. rewrite (Hs k Hk _ eq_refl).
    apply list_elem_of_lookup in Hk as [i Hi]. apply (f_equal (.!! i)) in E. rewrite !list_lookup_fmap in E. change (keys o !! i = Some k) in Hi.
    unfold keys in E, Hi. rewrite Hi in E. by injection E.
Qed.

Lemma key_ext (r1 r2 : list V) : (∀ k, k ∈ keys o → at_col cols r1 k = at_col cols r2 k) → key cols r1 = key cols r2.
Proof using. intros Hk. apply list_fmap_ext. intros i k Hi%list_elem_of_lookup_2. by apply Hk. Qed.

(** ** Changed cells *)
Lemma elem_of_assignments ch c v : (c, v) ∈ assignments ch ↔ ∃ j, (j, v) ∈ ch ∧ cols !! j = Some c.
Proof using.
  unfold assignments. rewrite list_elem_of_omap. split.
  - intros ([j w] & Hin & E). cbn in E. destruct (cols !! j) eqn:Ej; [| done]. injection E as <- <-. by exists j.
  - intros (j & Hin & Ej). exists (j, v). split; [done |]. cbn. by rewrite Ej.
Qed.
Lemma elem_of_originals row ch c v : (c, v) ∈ originals row ch ↔ ∃ j w, (j, w) ∈ ch ∧ cols !! j = Some c ∧ v = cell row j.
Proof using.
  unfold originals. rewrite list_elem_of_omap. split.
  - intros ([j w] & Hin & E). cbn in E. destruct (cols !! j) eqn:Ej; [| done]. injection E as <- <-. by exists j, w.
  - intros (j & w & Hin & Ej & ->). exists (j, w). split; [done |]. cbn. by rewrite Ej.
Qed.
Lemma originals_names row ch : (originals row ch).*1 = (assignments ch).*1.
Proof using. induction ch as [| [j v] ch IH]; [done |]. cbn. unfold originals, assignments in IH; destruct (cols !! j); cbn; congruence. Qed.
Lemma assigned_names ch c : c ∈ (assignments ch).*1 → ∃ j v, (j, v) ∈ ch ∧ cols !! j = Some c.
Proof using. intros ([c' v] & -> & Hin)%list_elem_of_fmap. apply elem_of_assignments in Hin as (j & Hin & Hj). by exists j, v. Qed.
Lemma assigned_cols ch c : c ∈ (assignments ch).*1 → c ∈ cols.
Proof using. intros (j & v & _ & Hj)%assigned_names. by eapply list_elem_of_lookup_2. Qed.
Lemma assigned_nodup ch : NoDup ch.*1 → NoDup (assignments ch).*1.
Proof using S.
  induction ch as [| [j v] ch IH]; [intros _; constructor |]. unfold assignments in *. cbn. intros [Hj Hd]%NoDup_cons. destruct (cols !! j) as [c |] eqn:Ej; [| auto]. cbn.
  apply NoDup_cons. split; [| auto]. intros (j' & v' & Hin & Hj')%assigned_names. apply Hj. apply list_elem_of_fmap.
  exists (j', v'). split; [| done]. cbn. by eapply NoDup_lookup; [apply (shown_nodup _ _ S) | |].
Qed.
Lemma assigned_not_key i ch c : (i, ch) ∈ dirty_rows o → c ∈ (assignments ch).*1 → c ∉ keys o.
Proof using S.
  intros Hd (j & v & Hin & Hj)%assigned_names. apply (shown_changes _ _ S) in Hd as [_ Hc]. destruct (Hc j v Hin) as (c' & Hc' & Hk). congruence.
Qed.

Lemma writable_shown key_set ch :
  writable_changes o key_set ch = omap (λ jv : nat * json, c ← cols !! jv.1; Some (jv.1, c, jv.2)) ch.
Proof using S.
  unfold writable_changes. rewrite (shown_columns _ _ S). induction ch as [| [j v] ch IH]; [done |]. cbn [omap list_omap fst snd].
  rewrite list_lookup_fmap. destruct (cols !! j) as [c |] eqn:Ej; cbn; [| by rewrite <- IH].
  replace (is_grid_update_omitted_column _ _ _ _) with false; [by rewrite <- IH |]. symmetry.
  destruct (shown_ordinary _ _ S c) as (H1 & _ & H3 & _); [by eapply list_elem_of_lookup_2 |].
  unfold is_grid_update_omitted_column, is_clickhouse_key_column. rewrite H1, H3. pose proof (shown_database _ _ S) as Hd.
  destruct (database_type o) as [[] |]; try done; discriminate Hd.
Qed.
Lemma writable_assignments key_set ch : (λ c : nat * str * json, (c.1.2, c.2)) <$> writable_changes o key_set ch = assignments ch.
Proof using S.
  rewrite writable_shown. induction ch as [| [j v] ch IH]; [done |]. unfold originals, assignments in IH |- *. cbn. destruct (cols !! j); cbn; congruence.
Qed.
Lemma writable_originals key_set row ch :
  (λ c : nat * str * json, (c.1.2, cell row c.1.1)) <$> writable_changes o key_set ch = originals row ch.
Proof using S.
  rewrite writable_shown. induction ch as [| [j v] ch IH]; [done |]. unfold originals, assignments in IH |- *. cbn. destruct (cols !! j); cbn; congruence.
Qed.

Lemma write_keeps_key kind i ch sets (r : list V) :
  (i, ch) ∈ dirty_rows o → sets.*1 = (assignments ch).*1 → length r = length cols → key cols (write cols kind sets r) = key cols r.
Proof using S.
  intros Hd Hs Hr. apply key_ext. intros k Hk. apply at_write_ne; [apply (shown_nodup _ _ S) | | done |].
  - intros c. rewrite Hs. apply assigned_cols.
  - rewrite Hs. intros Hin. by eapply assigned_not_key.
Qed.

Lemma after_row_key row i ch :
  (i, ch) ∈ dirty_rows o → length row = length cols → key cols (db_row cols (after_row row ch)) = key cols (db_row cols row).
Proof using S.
  intros Hd Hr. apply key_ext. intros k Hk. pose proof (shown_nodup _ _ S) as Hn.
  destruct (key_index k Hk) as (j & Hj & _). rewrite !(at_db_row cols Hn _ k j) by (rewrite ?after_row_length; done).
  unfold cell. rewrite after_row_ne; [done |]. intros ([j' v] & -> & Hin)%list_elem_of_fmap.
  apply (shown_changes _ _ S) in Hd as [_ Hc]. destruct (Hc j' v Hin) as (c & Hc' & Hk'). cbn in Hj. congruence.
Qed.

(** What a change writes, its rollback restores. *)
Lemma write_back i ch row :
  (i, ch) ∈ dirty_rows o → length row = length cols →
  write cols Assign (originals row ch) (write cols Save (assignments ch) (db_row cols row)) = db_row cols row ∧
  write cols Assign (originals row ch) (db_row cols row) = db_row cols row.
Proof using S.
  intros Hd Hr. pose proof (shown_nodup _ _ S) as Hn.
  assert (NoDup (assignments ch).*1) as Hs by (apply assigned_nodup, (shown_changes _ _ S i), Hd).
  assert (∀ r, length r = length cols → (∀ c, c ∉ (assignments ch).*1 → at_col cols r c = at_col cols (db_row cols row) c) →
    write cols Assign (originals row ch) r = db_row cols row) as Hw.
  { intros r Hl Hr'. apply (rows_ext cols Hn); [by rewrite write_length | by apply db_row_length |]. intros c _.
    destruct (decide (c ∈ (assignments ch).*1)) as [Hin | Hout].
    - rewrite <- originals_names with (row := row) in Hin. apply list_elem_of_fmap in Hin as ([c' v] & -> & Hin). cbn.
      rewrite (at_write cols Hn _ _ _ c' v); [| by rewrite originals_names | | done | done].
      + apply elem_of_originals in Hin as (j & w & _ & Hj & ->). by rewrite (at_db_row cols Hn row c' j).
      + intros x. rewrite originals_names. apply assigned_cols.
    - rewrite at_write_ne; [by apply Hr' | done | | done | by rewrite originals_names]. intros x. rewrite originals_names. apply assigned_cols. }
  split; apply Hw.
  - by rewrite write_length, db_row_length.
  - intros c Hc. apply at_write_ne; [done | apply assigned_cols | by apply db_row_length | done].
  - by apply db_row_length.
  - done.
Qed.
End shown.
(** ** Saving *)
Section saved.
Context `{Serde, Chrono, Letters} (percent_decode : str → option str) (driver_profile : option str).
Context {o : DataGridSaveStatementOptions} {D : GridDatabase o} (cols : list str) (S : shows o cols).
Local Abbreviation full r := (length r = length cols).

(** What the edits do to the row with a key. *)
Definition updates_of (dirty : list (nat * list (nat * json))) : list (list V * (list V → list V)) :=
  omap (λ d : nat * list (nat * json), row ← rows o !! d.1; Some (key cols (db_row cols row), write cols Save (assignments cols d.2))) dirty.
Definition updated (r : list V) : list V := apply_all cols (updates_of (dirty_rows o)) r.
Definition deleted_keys : list (list V) := key cols ∘ db_row cols <$> selected o (deleted_rows o).
(** The row that a new row of the grid is saved as. *)
Definition saved_row (row : list json) : list V := inserted cols Save (new_row_pairs o row).*1 (new_row_pairs o row).*2.

(** Assignments with the same text do the same. *)
Definition same_text_same_write : Prop := ∀ a b, a ∈ dirty_rows o → b ∈ dirty_rows o →
  sets_sql o Save (assignments cols a.2) = sets_sql o Save (assignments cols b.2) →
  ∀ r, write cols Save (assignments cols a.2) r = write cols Save (assignments cols b.2) r.
Hypothesis texts : same_text_same_write.

Lemma exec_update sets conditions es t :
  Forall2 (λ c e, (∀ r, holds_all cols r c = true ↔ key cols r = e.1) ∧ ∀ r, write cols Save sets r = e.2 r) conditions es →
  NoDup es.*1 → (∀ r, full r → key cols (write cols Save sets r) = key cols r) → Forall (λ r, full r) t →
  exec cols (SUpdate sets Save conditions) t = apply_all cols es <$> t.
Proof using.
  intros Hc Hd Hk Ht. cbn [exec]. apply list_fmap_ext. intros i r Hr. assert (full r) as Hl by exact (Forall_lookup_1 _ _ _ _ Ht Hr).
  destruct (matches cols r conditions) eqn:E.
  - apply existsb_exists in E as (c & Hin & Hh). apply list_elem_of_In, list_elem_of_lookup in Hin as [j Hj].
    destruct (Forall2_lookup_l _ _ _ _ _ Hc Hj) as ([k f] & He & Hck & Hw). apply Hck in Hh. cbn in Hh, Hw. rewrite Hw. symmetry.
    eapply apply_all_one; [done | | by eapply list_elem_of_lookup_2 | done].
    intros g [j' Hg]%list_elem_of_lookup. destruct (Forall2_lookup_r _ _ _ _ _ Hc Hg) as (c' & _ & _ & Hw'). cbn in Hw'.
    rewrite <- Hw'. by rewrite Hk.
  - symmetry. apply apply_all_other. intros ([k f] & Hkr & [j Hin]%list_elem_of_lookup)%list_elem_of_fmap.
    destruct (Forall2_lookup_r _ _ _ _ _ Hc Hin) as (c & Hcj & Hck & _). cbn in Hkr, Hck.
    assert (matches cols r conditions = true); [| congruence]. apply existsb_exists. exists c.
    split; [apply list_elem_of_In; by eapply list_elem_of_lookup_2 | by apply Hck].
Qed.

Lemma updates_full es t :
  (∀ k f r, (k, f) ∈ es → full r → full (f r)) → Forall (λ r, full r) t → Forall (λ r, full r) (apply_all cols es <$> t).
Proof using.
  intros He. rewrite Forall_fmap. intros Ht. eapply Forall_impl; [exact Ht |]. cbn. clear Ht t. induction es as [| [k f] es IH]; intros r Hr; [done |].
  change (full (apply_all cols es (step_one cols (k, f) r))). apply IH; [intros; eapply He; [by right | done] |].
  unfold step_one. cbn. destruct (decide _); [| done]. eapply He; [by left | done].
Qed.

(** The batches of one set of assignments. *)
Lemma flush_batches text sets parts es t :
  Forall2 (λ p e, (∀ r, holds_all cols r p.2 = true ↔ key cols r = e.1) ∧ ∀ r, write cols Save sets r = e.2 r) parts es →
  NoDup es.*1 → (∀ r, full r → key cols (write cols Save sets r) = key cols r) → Forall (λ r, full r) t →
  exec_all cols (update_batches percent_decode o driver_profile text sets parts) t = apply_all cols es <$> t.
Proof using.
  unfold update_batches. intros Hc Hd Hk Ht.
  pose proof (joined_batches_concat (lit "UPDATE " ++ grid_table percent_decode o driver_profile ++ lit " SET " ++ text ++ lit " WHERE ") (lit " OR ") true parts) as Hp.
  revert Hp. generalize (joined_batches (lit "UPDATE " ++ grid_table percent_decode o driver_profile ++ lit " SET " ++ text ++ lit " WHERE ") (lit " OR ") true [] parts).
  intros bs. cbn [app]. revert parts es t Hc Hd Ht. induction bs as [| b bs IH]; intros parts es t Hc Hd Ht Hp; cbn in Hp; subst parts.
  - apply Forall2_nil_inv_l in Hc as ->. cbn. by rewrite list_fmap_id.
  - apply Forall2_app_inv_l in Hc as (e1 & e2 & Ha & Hb & ->). rewrite fmap_app in Hd. apply NoDup_app in Hd as (Hd1 & _ & Hd2).
    change (exec_all cols ((λ batch : list (str * list predicate), SUpdate sets Save batch.*2) <$> bs) (exec cols (SUpdate sets Save b.*2) t) = apply_all cols (e1 ++ e2) <$> t).
    rewrite (exec_update sets b.*2 e1); [| by apply Forall2_fmap_l | done | done | done].
    rewrite (IH (concat bs) e2); [| done | done | | done].
    + rewrite <- list_fmap_compose. apply list_fmap_ext. intros _ r _. by rewrite apply_all_app.
    + apply updates_full; [| done]. intros k f r [j Hj]%list_elem_of_lookup Hr.
      destruct (Forall2_lookup_r _ _ _ _ _ Ha Hj) as (c & _ & _ & Hw). cbn in Hw. by rewrite <- Hw, write_length.
Qed.

(** The open batch of [update_loop] and the steps its parts stand for. *)
Definition open_batch (current : option (str * list (str * json))) (parts : list (str * list predicate))
    (es : list (list V * (list V → list V))) : Prop :=
  match current with
  | None => parts = [] ∧ es = []
  | Some (text, sets) =>
      supports_mysql_data_grid_batch o = true ∧
      (∃ d, d ∈ dirty_rows o ∧ sets = assignments cols d.2 ∧ sets_sql o Save sets = Some text) ∧
      Forall2 (λ p e, (∀ r, holds_all cols r p.2 = true ↔ key cols r = e.1) ∧ ∀ r, write cols Save sets r = e.2 r) parts es
  end.
Lemma open_batch_flush text sets parts es t :
  open_batch (Some (text, sets)) parts es → NoDup es.*1 → Forall (λ r, full r) t →
  exec_all cols (update_batches percent_decode o driver_profile text sets parts) t = apply_all cols es <$> t.
Proof using S.
  intros (_ & ([i ch] & Hd & -> & _) & Hp) Hn Ht. apply flush_batches; [done | done | | done].
  intros r Hr. by eapply write_keeps_key.
Qed.
Lemma open_batch_full current parts es k f r : open_batch current parts es → (k, f) ∈ es → full r → full (f r).
Proof using.
  destruct current as [[text sets] |]; [intros (_ & _ & Hp) | by intros [_ ->] Hin%not_elem_of_nil].
  intros [j Hj]%list_elem_of_lookup Hr. destruct (Forall2_lookup_r _ _ _ _ _ Hp Hj) as (c & _ & _ & Hw). cbn in Hw. by rewrite <- Hw, write_length.
Qed.

Lemma apply_all_skip a k f b r : (∀ r, f r = r) → apply_all cols (a ++ (k, f) :: b) r = apply_all cols (a ++ b) r.
Proof using.
  intros Hf. rewrite !apply_all_app. change (apply_all cols ((k, f) :: b) ?x) with (apply_all cols b (step_one cols (k, f) x)).
  f_equal. unfold step_one. cbn. by destruct (decide _).
Qed.

(** A batch of one part, and a batch grown by a part with the same assignments. *)
Lemma open_batch_one i ch row text where_text :
  supports_mysql_data_grid_batch o = true → (i, ch) ∈ dirty_rows o → full row → sets_sql o Save (assignments cols ch) = Some text →
  open_batch (Some (text, assignments cols ch)) [(where_text, build_primary_key_where o row)]
    [(key cols (db_row cols row), write cols Save (assignments cols ch))].
Proof using S.
  intros Hb Hi Hr Ht. split; [done |]. split; [by exists (i, ch) |]. constructor; [| constructor]. split; [| done]. intros r. cbn. by apply key_condition.
Qed.
Lemma open_batch_grow text old parts es i ch row where_text :
  open_batch (Some (text, old)) parts es → (i, ch) ∈ dirty_rows o → full row → sets_sql o Save (assignments cols ch) = Some text →
  open_batch (Some (text, assignments cols ch)) (parts ++ [(where_text, build_primary_key_where o row)])
    (es ++ [(key cols (db_row cols row), write cols Save (assignments cols ch))]).
Proof using S texts.
  intros (Hb & ([i0 ch0] & Hin0 & -> & Et0) & Hp) Hi Hr Ht. destruct (open_batch_one i ch row text where_text Hb Hi Hr Ht) as (_ & Hd & Hone).
  split; [done |]. split; [done |]. apply Forall2_app; [| done].
  eapply Forall2_impl; [exact Hp |]. intros p e' [Hh Hw]. split; [done |]. intros r. rewrite <- Hw.
  symmetry. apply (texts (i0, ch0) (i, ch)); [done | done |]. cbn [snd] in *. congruence.
Qed.
Lemma exec_then_apply ss t a b :
  exec_all cols ss (apply_all cols a <$> t) = apply_all cols b <$> (apply_all cols a <$> t) →
  exec_all cols ss (apply_all cols a <$> t) = apply_all cols (a ++ b) <$> t.
Proof using. intros ->. rewrite <- list_fmap_compose. apply list_fmap_ext. intros _ r _. by rewrite apply_all_app. Qed.
Lemma updates_of_cons i ch dirty :
  updates_of ((i, ch) :: dirty) =
  match rows o !! i with
  | Some row => (key cols (db_row cols row), write cols Save (assignments cols ch)) :: updates_of dirty
  | None => updates_of dirty
  end.
Proof using. unfold updates_of. cbn. by destruct (rows o !! i). Qed.

(** The UPDATE statements, batched or not, do what the edits do one by one. *)
Lemma update_loop_exec dirty current parts es ss t :
  update_loop percent_decode o driver_profile current parts dirty = Some ss → (∀ d, d ∈ dirty → d ∈ dirty_rows o) →
  open_batch current parts es → NoDup (es ++ updates_of dirty).*1 → Forall (λ r, full r) t →
  exec_all cols ss t = apply_all cols (es ++ updates_of dirty) <$> t.
Proof using S texts.
  revert current parts es ss t. induction dirty as [| [i ch] dirty IH]; intros current parts es ss t Hss Hd Ho Hn Ht; cbn [update_loop] in Hss.
  { apply some_inj in Hss as <-. change (updates_of []) with (@nil (list V * (list V → list V))) in *.
    rewrite app_nil_r in *. destruct current as [[text sets] |]; [by apply open_batch_flush |]. destruct Ho as [-> ->]. cbn. by rewrite list_fmap_id. }
  assert (∀ d, d ∈ dirty → d ∈ dirty_rows o) as Hd' by (intros d Hin; apply Hd; by right).
  assert ((i, ch) ∈ dirty_rows o) as Hi by (apply Hd; left).
  rewrite updates_of_cons in Hn |- *. destruct (rows o !! i) as [row |] eqn:Er; [| by eapply IH].
  rewrite (writable_assignments cols S) in Hss.
  assert (full row) as Hrow by (apply (shown_rows _ _ S), elem_of_app; left; by eapply list_elem_of_lookup_2).
  destruct (decide (assignments cols ch = [])) as [E0 | E0].
  { rewrite (IH _ _ es _ _ Hss Hd' Ho); [| | done].
    - apply list_fmap_ext. intros _ r _. rewrite apply_all_skip; [done |]. intros r'. by rewrite E0.
    - rewrite fmap_app, fmap_cons in Hn. rewrite fmap_app. apply NoDup_app in Hn as (? & ? & [_ ?]%NoDup_cons). apply NoDup_app. set_solver. }
  destruct (sets_sql o Save (assignments cols ch)) as [text |] eqn:Et; [| done]. cbn [mbind option_bind] in Hss.
  destruct (where_sql o (build_primary_key_where o row)) as [wtext |] eqn:Ew; [| done]. cbn [mbind option_bind] in Hss.
  set (e := (key cols (db_row cols row), write cols Save (assignments cols ch))) in *.
  destruct (supports_mysql_data_grid_batch o) eqn:Eb.
  - pose proof (open_batch_one i ch row text wtext Eb Hi Hrow Et) as Hone.
    destruct current as [[text0 old] |]; [| by destruct Ho as [-> ->]; rewrite (IH _ _ [e] _ _ Hss Hd' Hone)].
    destruct (decide (text0 = text)) as [-> | Hne].
    + rewrite (IH _ _ (es ++ [e]) _ _ Hss Hd'); [by rewrite <- app_assoc | | by rewrite <- app_assoc | done]. by eapply open_batch_grow.
    + destruct (update_loop _ _ _ _ _ dirty) as [stmts |] eqn:El; [| done]. cbn [mbind option_bind] in Hss. apply some_inj in Hss as <-.
      rewrite exec_all_app. rewrite fmap_app in Hn. pose proof Hn as (Hn1 & _ & Hn2)%NoDup_app. rewrite (open_batch_flush _ _ _ es) by done.
      apply exec_then_apply, (IH _ _ [e] _ _ El Hd' Hone); [done |].
      apply updates_full; [| done]. intros k f r. by eapply open_batch_full.
  - destruct current as [[text0 old] |]; [destruct Ho as [Ho _]; congruence | destruct Ho as [-> ->]].
    destruct (update_loop _ _ _ _ _ dirty) as [stmts |] eqn:El; [| done]. cbn [mbind option_bind] in Hss. apply some_inj in Hss as <-.
    change (exec_all cols stmts (exec cols (SUpdate (assignments cols ch) Save [build_primary_key_where o row]) t) = apply_all cols ([e] ++ updates_of dirty) <$> t).
    cbn [app fmap list_fmap] in Hn. apply NoDup_cons in Hn as [Hn1 Hn2].
    rewrite (exec_update _ _ [e]); [| | apply NoDup_singleton | intros r Hr; by eapply write_keeps_key | done].
    + apply exec_then_apply, (IH None [] [] _ _ El Hd'); [done | done |].
      apply updates_full; [| done]. intros k f r [= -> ->]%list_elem_of_singleton Hr. by rewrite write_length.
    + constructor; [| constructor]. split; [| done]. intros r. by apply key_condition.
Qed.

Lemma with_text_conditions conditions parts : with_text o conditions = Some parts → parts.*2 = conditions.
Proof using.
  unfold with_text. intros Hm%mapM_Some. induction Hm as [| c p cs ps Hp _ IH]; [done |]. cbn. f_equal; [| done].
  destruct (where_sql o c); [| done]. cbn in Hp. by injection Hp as <-.
Qed.
Lemma matches_keys (r : list V) sel :
  Forall (λ row, full row) sel →
  matches cols r (build_primary_key_where o <$> sel) = false ↔ key cols r ∉ (key cols ∘ db_row cols <$> sel).
Proof using S.
  intros Hf. rewrite <- not_true_iff_false. apply not_iff_compat. unfold matches. rewrite existsb_exists. setoid_rewrite <- list_elem_of_In.
  rewrite Forall_forall in Hf. rewrite list_elem_of_fmap. split.
  - intros (c & (row & -> & Hin)%list_elem_of_fmap & Hh). exists row. split; [| done]. by apply key_condition in Hh; [| | apply Hf].
  - intros (row & Hk & Hin). exists (build_primary_key_where o row). split; [by apply list_elem_of_fmap_2 |]. apply key_condition; [done | by apply Hf | done].
Qed.
Lemma selected_rows idx row : row ∈ selected o idx → row ∈ rows o.
Proof using. unfold selected. intros (i & _ & Hi)%list_elem_of_omap. by eapply list_elem_of_lookup_2. Qed.
Lemma rows_full row : row ∈ rows o → full row.
Proof using S. intros Hr. apply (shown_rows _ _ S), elem_of_app. by left. Qed.
Lemma selected_full idx : Forall (λ row, full row) (selected o idx).
Proof using S. apply Forall_forall. intros row Hr. by eapply rows_full, selected_rows. Qed.

(** The DELETE statements, batched or not, delete the rows with the keys. *)
Lemma delete_exec ss t :
  delete_statements percent_decode o driver_profile = Some ss → exec_all cols ss t = filter (λ r, key cols r ∉ deleted_keys) t.
Proof using S.
  unfold delete_statements. destruct (with_text _ _) as [parts |] eqn:Ew; [| done]. apply with_text_conditions in Ew.
  cbn [mbind option_bind]. intros <-%some_inj.
  assert (∀ bs : list (list (str * list predicate)), concat bs = parts →
    exec_all cols ((λ b : list (str * list predicate), SDelete b.*2) <$> bs) t = filter (λ r, key cols r ∉ deleted_keys) t) as Hb.
  { intros bs Hc. change (λ b : list (str * list predicate), SDelete b.*2) with (SDelete ∘ fmap (M := list) (snd (A := str) (B := list predicate))).
    rewrite list_fmap_compose, exec_deletes. apply list_filter_iff. intros r.
    replace (concat (fmap snd <$> bs)) with (concat bs).*2 by apply concat_map. rewrite Hc, Ew. apply matches_keys, selected_full. }
  destruct (supports_mysql_data_grid_batch o).
  - apply Hb, joined_batches_concat.
  - rewrite <- (Hb ((λ p, [p]) <$> parts)); [by rewrite <- list_fmap_compose |]. clear. induction parts; cbn; congruence.
Qed.

(** ** New rows *)
Lemma not_hive : is_db DatabaseType.Hive (database_type o) = false ∧ is_db DatabaseType.ClickHouse (database_type o) = false.
Proof using S. pose proof (shown_database _ _ S) as Hd. destruct (database_type o) as [[] |]; split; try done; discriminate Hd. Qed.
Definition all_pairs (row : list json) : list (str * json) := imap (λ i c, (c, cell row i)) cols.
Lemma elem_of_all_pairs row c v : (c, v) ∈ all_pairs row ↔ ∃ i, cols !! i = Some c ∧ v = cell row i.
Proof using.
  unfold all_pairs. rewrite list_elem_of_lookup. setoid_rewrite list_lookup_imap. split.
  - intros (i & Hi). destruct (cols !! i) as [c' |] eqn:E; [| done]. injection Hi as <- <-. by exists i.
  - intros (i & Hi & ->). exists i. by rewrite Hi.
Qed.
Lemma all_pairs_names row : (all_pairs row).*1 = cols.
Proof using.
  unfold all_pairs. rewrite fmap_imap. clear. generalize (cell row). intros g.
  assert (∀ f : nat → json, imap (λ i c, (c, f i).1) cols = cols) as Hg; [| apply Hg].
  clear. induction cols as [| c l IH]; intros f; [done |]. cbn. f_equal. apply (IH (f ∘ Datatypes.S)).
Qed.
Lemma filter_all_pairs (P : str * json → Prop) `{∀ x, Decision (P x)} row :
  (∀ c v, c ∈ cols → P (c, v)) → filter P (all_pairs row) = all_pairs row.
Proof using.
  intros HP. pose proof (λ c v, proj1 (elem_of_all_pairs row c v)) as Hp. induction (all_pairs row) as [| [c v] l IH]; [done |].
  rewrite filter_cons_True; [f_equal; apply IH; intros; apply Hp; by right |].
  apply HP. destruct (Hp c v) as (i & Hi & _); [left |]. by eapply list_elem_of_lookup_2.
Qed.
Lemma insert_pairs_shown row : insert_pairs o row = all_pairs row.
Proof using S.
  unfold insert_pairs. rewrite (named_columns_shown cols S), fmap_imap. apply filter_all_pairs. intros c v Hc. cbn [fst].
  destruct (shown_ordinary _ _ S c Hc) as (H4 & H5 & H6 & _). unfold is_grid_insert_omitted_column. by rewrite H4, H5, H6.
Qed.
Lemma new_row_pairs_shown row : new_row_pairs o row = filter (λ cv : str * json, cv.2 ≠ JNull) (all_pairs row).
Proof using S.
  rewrite <- insert_pairs_shown. unfold new_row_pairs, insert_pairs. do 2 f_equal. rewrite (named_columns_shown cols S), fmap_imap.
  apply filter_all_pairs. intros c v Hc. cbn [fst]. destruct (shown_ordinary _ _ S c Hc) as (_ & _ & _ & ->). done.
Qed.

Lemma find_pair (l : list (str * json)) c v : NoDup l.*1 → (c, v) ∈ l → ∃ i, list_find (λ cv : str * json, cv.1 = c) l = Some (i, (c, v)).
Proof using.
  intros Hn Hin. destruct (list_find (λ cv : str * json, cv.1 = c) l) as [[i [c' v']] |] eqn:E.
  - apply list_find_Some in E as (Hi & Hc & _). cbn in Hc. subst c'. apply list_elem_of_lookup in Hin as [j Hj].
    assert (i = j) as ->; [| rewrite Hj in Hi; injection Hi as <-; by exists j].
    eapply NoDup_lookup; [exact Hn | |]; rewrite list_lookup_fmap; [by rewrite Hi | by rewrite Hj].
  - apply list_find_None in E. rewrite Forall_forall in E. exfalso. by apply (E _ Hin).
Qed.
Lemma at_inserted kind (l : list (str * json)) c :
  c ∈ cols →
  at_col cols (inserted cols kind l.*1 l.*2) c =
  match list_find (λ cv : str * json, cv.1 = c) l with Some (_, (_, v)) => stored kind c v | None => defaults c end.
Proof using S.
  intros [i Hi]%list_elem_of_lookup. rewrite (at_col_lookup cols (shown_nodup _ _ S) _ c i Hi). unfold inserted. rewrite list_lookup_fmap, Hi. cbn [fmap option_fmap option_map default].
  by rewrite zip_fst_snd.
Qed.
Lemma inserted_full kind cs tuple : full (inserted cols kind cs tuple).
Proof using. unfold inserted. by rewrite length_fmap. Qed.
Lemma at_saved row c i :
  cols !! i = Some c → at_col cols (saved_row row) c = if decide (cell row i = JNull) then defaults c else stored Save c (cell row i).
Proof using S.
  intros Hi. pose proof (shown_nodup _ _ S) as Hn. unfold saved_row. rewrite at_inserted by (by eapply list_elem_of_lookup_2).
  rewrite new_row_pairs_shown. set (l := filter _ _).
  assert (∀ v, (c, v) ∈ l ↔ v = cell row i ∧ v ≠ JNull) as Hl.
  { intros v. unfold l. rewrite list_elem_of_filter, elem_of_all_pairs. cbn. split.
    - intros (Hv & j & Hj & ->). split; [| done]. f_equal. by eapply NoDup_lookup.
    - intros (-> & Hv). split; [done |]. by exists i. }
  destruct (decide (cell row i = JNull)) as [E | E].
  - destruct (list_find _ l) as [[j [c' v]] |] eqn:Ef; [| done]. apply list_find_Some in Ef as (Hj & Hc & _). cbn in Hc. subst c'.
    apply list_elem_of_lookup_2, Hl in Hj as [-> Hv]. done.
  - destruct (find_pair l c (cell row i)) as [j ->]; [| by apply Hl | done].
    eapply sublist_NoDup; [| apply fmap_sublist, sublist_filter]. by rewrite all_pairs_names.
Qed.

(** Inserting the cells of a shown row restores it. *)
Lemma inserted_shown row : full row → inserted cols Assign (all_pairs row).*1 (all_pairs row).*2 = db_row cols row.
Proof using S.
  intros Hr. pose proof (shown_nodup _ _ S) as Hn. apply (rows_ext cols Hn); [apply inserted_full | by apply db_row_length |].
  intros c Hc. pose proof Hc as [i Hi]%list_elem_of_lookup. rewrite at_inserted by done.
  destruct (find_pair (all_pairs row) c (cell row i)) as [j ->]; [by rewrite all_pairs_names | | by rewrite (at_db_row cols Hn row c i)].
  apply elem_of_all_pairs. by exists i.
Qed.

(** The keys of the new rows have values, and only MySQL's key condition
    leaves out columns that the database fills in. *)
Definition new_rows_keyed : Prop :=
  ∀ row k i, row ∈ new_rows o → k ∈ keys o → cols !! i = Some k → stored Save k (cell row i) ≠ null.
Definition no_defaults : Prop := is_db DatabaseType.Mysql (database_type o) = false → ∀ c, c ∈ cols → defaults c = null.
Hypothesis keyed : new_rows_keyed.
Hypothesis nodefaults : no_defaults.

Lemma some_key : ∃ k i, k ∈ keys o ∧ cols !! i = Some k.
Proof using S.
  pose proof (shown_keyed _ _ S) as Hk. destruct (keys o) as [| k ks] eqn:E; [done |].
  destruct (key_index cols S k) as (i & Hi & _); [rewrite E; left |]. exists k, i. split; [left | done].
Qed.
Lemma key_cell row k i : row ∈ new_rows o → k ∈ keys o → cols !! i = Some k →
  cell row i ≠ JNull ∧ empty_string_saves_as_null (cell row i) (column_info_for (infos o) k) = false.
Proof using keyed.
  intros Hr Hk Hi. pose proof (keyed row k i Hr Hk Hi) as Hn. rewrite stored_null in Hn. apply not_true_is_false in Hn.
  apply orb_false_iff in Hn as [Hn Hs]. split; [| done]. intros E. rewrite E in Hn. discriminate Hn.
Qed.
Lemma new_row_full row : row ∈ new_rows o → full row.
Proof using S. intros Hr. apply (shown_rows _ _ S), elem_of_app. by right. Qed.

Lemma insert_exec rs t :
  (∀ row, row ∈ rs → row ∈ new_rows o) → exec_all cols (concat (new_row_statements o <$> rs)) t = t ++ (saved_row <$> rs).
Proof using S keyed.
  revert t. induction rs as [| row rs IH]; intros t Hr; [cbn; by rewrite app_nil_r |].
  rewrite fmap_cons. cbn [concat]. rewrite exec_all_app, IH by (intros; apply Hr; by right). rewrite fmap_cons, cons_middle, app_assoc. f_equal.
  unfold new_row_statements. destruct not_hive as [-> _]. destruct (decide (new_row_pairs o row = [])) as [E |]; [| done].
  exfalso. destruct some_key as (k & i & Hk & Hi). destruct (key_cell row k i) as [Hv _]; [apply Hr; left | done | done |].
  assert ((k, cell row i) ∈ new_row_pairs o row) as Hin; [| rewrite E in Hin; by apply not_elem_of_nil in Hin].
  rewrite new_row_pairs_shown. apply list_elem_of_filter. split; [done |]. apply elem_of_all_pairs. by exists i.
Qed.

(** ** Taking back *)
Lemma mysql_where_known row :
  row ∈ new_rows o → build_mysql_insert_rollback_where o row = Some (build_primary_key_where o row).
Proof using S keyed.
  intros Hr. unfold build_mysql_insert_rollback_where. rewrite bool_decide_eq_false_2 by apply (shown_keyed _ _ S). cbn [orb].
  destruct (existsb _ _) eqn:E; [exfalso | done]. apply existsb_exists in E as (k & Hk & Hu). apply list_elem_of_In in Hk.
  destruct (key_index cols S k Hk) as (i & Hi & Hf). unfold find_column_index in Hf. rewrite (shown_columns _ _ S) in Hf, Hu.
  destruct (list_find _ (Some <$> cols)) as [[j x] |] eqn:El.
  - injection Hf as ->. destruct (key_cell row k i Hr Hk Hi) as [Hv Hs].
    destruct (shown_ordinary _ _ S k) as (_ & _ & Hg & Ha); [by apply (shown_keys _ _ S) |].
    rewrite Hs in Hu. unfold is_null in Hu. rewrite bool_decide_eq_false_2 in Hu by done. cbn [orb] in Hu.
    destruct (column_info_for (infos o) k); [| done]. by rewrite Ha, Hg in Hu.
  - apply list_find_None in El. rewrite Forall_forall in El. apply (El (Some k)); [| done]. apply list_elem_of_fmap_2. by apply (shown_keys _ _ S).
Qed.
Lemma saved_key row : row ∈ new_rows o → key cols (saved_row row) = key cols (db_row cols row).
Proof using S keyed.
  intros Hr. apply key_ext. intros k Hk. destruct (key_index cols S k Hk) as (i & Hi & _). destruct (key_cell row k i Hr Hk Hi) as [Hv Hs].
  rewrite (at_saved row k i Hi), decide_False by done. rewrite (at_db_row cols (shown_nodup _ _ S) row k i) by (done || by apply new_row_full).
  by apply stored_same.
Qed.
Lemma save_row_condition row (r : list V) :
  holds_all cols r (build_row_where o Save row) = true ↔ ∀ c i, cols !! i = Some c → at_col cols r c = stored Save c (cell row i).
Proof using S.
  rewrite holds_all_iff. unfold build_row_where. rewrite (named_columns_shown cols S). split.
  - intros Hp c i Hi. apply (Hp (mkPredicate c (cell row i) Save true)). apply list_elem_of_fmap. exists (i, c). split; [done |].
    apply list_elem_of_filter. split; [by apply (shown_ordinary _ _ S), list_elem_of_lookup_2 with i |].
    apply list_elem_of_lookup. exists i. by rewrite list_lookup_imap, Hi.
  - intros Hr p ([i c] & -> & (_ & [j Hj]%list_elem_of_lookup)%list_elem_of_filter)%list_elem_of_fmap. cbn.
    rewrite list_lookup_imap in Hj. apply fmap_Some in Hj as (c' & Hc & [= -> ->]). by apply Hr.
Qed.
(** The condition that takes a new row back selects it, and only rows with its key. *)
Lemma insert_rollback_condition row :
  row ∈ new_rows o → ∃ c, insert_rollback o row = [SDelete [c]] ∧ holds_all cols (saved_row row) c = true ∧
    ∀ r, holds_all cols r c = true → key cols r = key cols (saved_row row).
Proof using S keyed nodefaults.
  intros Hr. unfold insert_rollback. destruct (is_db DatabaseType.Mysql (database_type o)) eqn:Ed.
  - rewrite mysql_where_known by done. eexists. split; [done |].
    split; [| intros r Hh]; rewrite ?saved_key by done; [apply (key_condition cols S) | apply (key_condition cols S) in Hh];
      rewrite ?saved_key; try done; by apply new_row_full.
  - assert (∀ c i, cols !! i = Some c → at_col cols (saved_row row) c = stored Save c (cell row i)) as Hs.
    { intros c i Hi. rewrite (at_saved row c i Hi). destruct (decide _) as [-> |]; [| done].
      rewrite nodefaults by (done || by eapply list_elem_of_lookup_2). symmetry. by apply stored_null. }
    exists (build_row_where o Save row). split; [| split].
    + destruct (build_row_where o Save row) as [| p ps] eqn:E; [| done]. exfalso. destruct some_key as (k & i & Hk & Hi).
      assert (mkPredicate k (cell row i) Save true ∈ build_row_where o Save row) as Hin; [| rewrite E in Hin; by apply not_elem_of_nil in Hin].
      unfold build_row_where. rewrite (named_columns_shown cols S). apply list_elem_of_fmap. exists (i, k). split; [done |].
      apply list_elem_of_filter. split; [by apply (shown_ordinary _ _ S), list_elem_of_lookup_2 with i |].
      apply list_elem_of_lookup. exists i. by rewrite list_lookup_imap, Hi.
    + by apply save_row_condition.
    + intros r Hh. apply key_ext. intros k Hk. destruct (key_index cols S k Hk) as (i & Hi & _).
      rewrite (proj1 (save_row_condition row r) Hh k i Hi). symmetry. by apply Hs.
Qed.
Lemma insert_rollback_exec rs (a : list (list V)) :
  (∀ row, row ∈ rs → row ∈ new_rows o) → (∀ r row, r ∈ a → row ∈ rs → key cols r ≠ key cols (saved_row row)) →
  ∀ b, (∀ r, r ∈ b → r ∈ saved_row <$> rs) → exec_all cols (concat (insert_rollback o <$> rs)) (a ++ b) = a.
Proof using S keyed nodefaults.
  induction rs as [| row rs IH]; intros Hr Ha b Hb.
  - destruct b as [| r b]; [cbn; by rewrite app_nil_r |]. exfalso. apply (not_elem_of_nil r), Hb. left.
  - destruct (insert_rollback_condition row) as (c & Hc & Hs & Hk); [apply Hr; left |]. rewrite fmap_cons. cbn [concat]. rewrite exec_all_app, Hc.
    change (exec_all cols [SDelete [c]] (a ++ b)) with (filter (λ r, matches cols r [c] = false) (a ++ b)). rewrite filter_app.
    replace (filter (λ r, matches cols r [c] = false) a) with a.
    + apply IH; [intros; apply Hr; by right | intros; apply Ha; [done | by right] |].
      intros r [Hm Hin]%list_elem_of_filter. apply Hb in Hin. rewrite fmap_cons in Hin. apply elem_of_cons in Hin as [-> |]; [| done].
      cbn in Hm. by rewrite Hs in Hm.
    + clear Hb b IH. induction a as [| r a IHa]; [done |]. rewrite filter_cons_True.
      * f_equal. apply IHa. intros. apply Ha; [by right | done].
      * cbn. rewrite orb_false_r. apply not_true_is_false. intros Hh%Hk. apply (Ha r row); [left | left | done].
Qed.

Lemma exec_inserts kind cs bs t :
  exec_all cols ((λ b : list (str * list json), SInsert cs b.*2 kind) <$> bs) t = t ++ (inserted cols kind cs <$> (concat bs).*2).
Proof using.
  revert t. induction bs as [| b bs IH]; intros t; [cbn; by rewrite app_nil_r |].
  change (exec_all cols ((λ b : list (str * list json), SInsert cs b.*2 kind) <$> bs) (t ++ (inserted cols kind cs <$> b.*2))
          = t ++ (inserted cols kind cs <$> (b ++ concat bs).*2)). by rewrite IH, !fmap_app, app_assoc.
Qed.
(** The deleted rows are inserted again, batched or not. *)
Lemma delete_rollback_exec ss t :
  delete_rollback percent_decode o driver_profile = Some ss → exec_all cols ss t = t ++ (db_row cols <$> selected o (deleted_rows o)).
Proof using S.
  unfold delete_rollback. destruct not_hive as [-> _]. destruct (mapM _ _) as [parts |] eqn:Em; [| done]. cbn [mbind option_bind]. intros <-%some_inj.
  assert (∀ bs, concat bs = parts →
    exec_all cols ((λ b : list (str * list json), SInsert (insert_pairs o []).*1 b.*2 Assign) <$> bs) t =
    t ++ (db_row cols <$> selected o (deleted_rows o))) as Hb.
  { intros bs Hc. rewrite exec_inserts, Hc, insert_pairs_shown, all_pairs_names. f_equal. apply mapM_Some in Em. apply Forall2_fmap_l in Em.
    pose proof (selected_full (deleted_rows o)) as Hf. clear Hc. induction Em as [| row p sel parts Hp _ IH]; [done |].
    apply Forall_cons in Hf as [Hrow Hf]. cbn [fmap list_fmap]. f_equal; [| by apply IH].
    unfold compose in Hp. destruct (tuple_sql o Assign _ _); [| done]. cbn [mbind option_bind] in Hp. apply some_inj in Hp as <-. cbn [snd].
    rewrite insert_pairs_shown. rewrite <- inserted_shown by done. by rewrite all_pairs_names. }
  destruct (supports_mysql_data_grid_batch o).
  - apply Hb, joined_batches_concat.
  - rewrite <- (Hb ((λ p, [p]) <$> parts)); [by rewrite <- list_fmap_compose |]. clear. induction parts; cbn; congruence.
Qed.

(** What taking back the change of a row does to the row with its key. *)
Definition changed_predicates (ch : list (nat * json)) : list predicate :=
  (λ c : nat * str * json, mkPredicate c.1.2 c.2 Save true) <$> writable_changes o [] ch.
Definition revert (row : list json) (ch : list (nat * json)) (r : list V) : list V :=
  if holds_all cols r (changed_predicates ch) then write cols Assign (originals cols row ch) r else r.
Definition reverts_of (dirty : list (nat * list (nat * json))) : list (list V * (list V → list V)) :=
  omap (λ d : nat * list (nat * json), row ← rows o !! d.1; Some (key cols (db_row cols row), revert row d.2)) dirty.
Lemma holds_all_app (r : list V) a b : holds_all cols r (a ++ b) = holds_all cols r a && holds_all cols r b.
Proof using. apply forallb_app. Qed.
Lemma update_rollback_exec dirty t :
  (∀ d, d ∈ dirty → d ∈ dirty_rows o) → exec_all cols (concat (update_rollback o <$> dirty)) t = apply_all cols (reverts_of dirty) <$> t.
Proof using S.
  revert t. induction dirty as [| [i ch] dirty IH]; intros t Hd; [cbn; by rewrite list_fmap_id |].
  rewrite fmap_cons. cbn [concat]. rewrite exec_all_app. unfold reverts_of. cbn [omap list_omap fst snd].
  assert (∀ d, d ∈ dirty → d ∈ dirty_rows o) as Hd' by (intros d Hin; apply Hd; by right).
  unfold update_rollback at 2. destruct (rows o !! i) as [row |] eqn:Er; cbn [mbind option_bind]; [| by apply IH].
  assert (full row) as Hrow by (eapply rows_full, list_elem_of_lookup_2, Er).
  change (omap _ dirty) with (reverts_of dirty). rewrite (writable_originals cols S). fold (changed_predicates ch).
  rewrite IH by done. change (?x :: reverts_of dirty) with ([x] ++ reverts_of dirty).
  trans (apply_all cols (reverts_of dirty) <$> (apply_all cols [(key cols (db_row cols row), revert row ch)] <$> t)).
  2: { rewrite <- list_fmap_compose. apply list_fmap_ext. intros _ r _. by rewrite apply_all_app. }
  f_equal. unfold apply_all, step_one, revert. cbn [fold_left fst snd]. destruct (decide (originals cols row ch = [])) as [E | _].
  - rewrite E. cbn. rewrite <- list_fmap_id at 1. apply list_fmap_ext. intros _ r _. cbn. destruct (decide _); [by destruct (holds_all _ _ _) | done].
  - cbn [exec_all fold_left exec]. apply list_fmap_ext. intros _ r _. unfold matches. cbn [existsb]. rewrite orb_false_r, holds_all_app.
    pose proof (key_condition cols S r (after_row row ch)) as Hk. rewrite after_row_length in Hk. specialize (Hk Hrow).
    rewrite (after_row_key cols S row i ch) in Hk; [| apply Hd; left | done].
    destruct (decide (key cols r = key cols (db_row cols row))) as [E | E].
    + by rewrite (proj2 Hk E).
    + destruct (holds_all cols r (build_primary_key_where o _)); [| done]. exfalso. by apply E, Hk.
Qed.

(** ** Saving and taking back *)
(** The rows of the table have distinct keys and the grid shows some of them;
    the key of a new row is not that of a row that stays. *)
Record well_posed (t : list (list V)) : Prop := {
  posed_full : Forall (λ r, full r) t;
  posed_keys : NoDup (key cols <$> t);
  posed_rows row : row ∈ rows o → db_row cols row ∈ t;
  posed_rows_keys : NoDup (key cols ∘ db_row cols <$> rows o);
  posed_fresh r row : r ∈ t → row ∈ new_rows o → key cols r = key cols (saved_row row) → key cols r ∈ deleted_keys;
}.

Section posed.
Context (t : list (list V)) (W : well_posed t).

Lemma row_index_of_key i j row row' :
  rows o !! i = Some row → rows o !! j = Some row' → key cols (db_row cols row) = key cols (db_row cols row') → i = j.
Proof using W.
  intros Hi Hj E. eapply NoDup_lookup; [apply (posed_rows_keys _ W) | |]; rewrite list_lookup_fmap; [by rewrite Hi | rewrite Hj; cbn; by rewrite E].
Qed.
Lemma steps_nodup (F : list json → list (nat * json) → list V → list V) dirty :
  NoDup dirty.*1 →
  NoDup (omap (λ d : nat * list (nat * json), row ← rows o !! d.1; Some (key cols (db_row cols row), F row d.2)) dirty).*1.
Proof using W.
  induction dirty as [| [i ch] dirty IH]; [constructor |]. rewrite fmap_cons. intros [Hi Hn]%NoDup_cons. cbn.
  destruct (rows o !! i) as [row |] eqn:Er; cbn; [| by apply IH]. apply NoDup_cons. split; [| by apply IH].
  intros ([k f] & Hk & ([i' ch'] & Hin & E)%list_elem_of_omap)%list_elem_of_fmap. cbn in Hk, E.
  destruct (rows o !! i') as [row' |] eqn:Er'; [| done]. cbn in E. injection E as <- <-.
  apply Hi. apply list_elem_of_fmap. exists (i', ch'). split; [| done]. cbn. by eapply row_index_of_key.
Qed.
Lemma same_key r r' : r ∈ t → r' ∈ t → key cols r = key cols r' → r = r'.
Proof using W.
  intros [i Hi]%list_elem_of_lookup [j Hj]%list_elem_of_lookup E. assert (i = j) as ->; [| congruence].
  eapply NoDup_lookup; [apply (posed_keys _ W) | |]; rewrite list_lookup_fmap; [by rewrite Hi | rewrite Hj; cbn; by rewrite E].
Qed.
Lemma member_full r : r ∈ t → full r.
Proof using W. intros Hr. by apply (proj1 (Forall_forall _ _) (posed_full _ W)). Qed.

(** A change and taking it back act on the row that the grid shows. *)
Lemma step_at (F : list json → list (nat * json) → list V → list V) i ch row r :
  (∀ i ch row r, (i, ch) ∈ dirty_rows o → full r → key cols (F row ch r) = key cols r) →
  (i, ch) ∈ dirty_rows o → rows o !! i = Some row → full r → key cols r = key cols (db_row cols row) →
  apply_all cols (omap (λ d : nat * list (nat * json), row ← rows o !! d.1; Some (key cols (db_row cols row), F row d.2)) (dirty_rows o)) r = F row ch r.
Proof using S W.
  intros HF Hd Hr Hf Hk. eapply apply_all_one; [by apply steps_nodup, (shown_dirty _ _ S) | | | done].
  - intros f ([i' ch'] & Hin & E)%list_elem_of_omap. cbn in E. destruct (rows o !! i'); [| done]. cbn in E. injection E as _ <-. rewrite <- Hk. by eapply HF.
  - apply list_elem_of_omap. exists (i, ch). split; [done |]. cbn. by rewrite Hr.
Qed.
Lemma revert_keeps_key i ch row r : (i, ch) ∈ dirty_rows o → full r → key cols (revert row ch r) = key cols r.
Proof using S.
  intros Hd Hr. unfold revert. destruct (holds_all _ _ _); [| done].
  eapply (write_keeps_key cols S); [done | apply originals_names | done].
Qed.
Lemma changed_hold i ch row :
  (i, ch) ∈ dirty_rows o → full row → holds_all cols (write cols Save (assignments cols ch) (db_row cols row)) (changed_predicates ch) = true.
Proof using S.
  intros Hd Hr. apply holds_all_iff. intros p (([j c] & v) & -> & Hin)%list_elem_of_fmap. cbn.
  rewrite (writable_shown cols S) in Hin. apply list_elem_of_omap in Hin as ([j' v'] & Hin & E). cbn in E.
  destruct (cols !! j') as [c' |] eqn:Ej; [| done]. cbn in E. injection E as <- <- <-.
  apply (at_write cols (shown_nodup _ _ S)); [eapply (assigned_nodup cols S), (shown_changes _ _ S), Hd | apply assigned_cols | by apply db_row_length |].
  apply elem_of_assignments. by exists j'.
Qed.

Lemma updated_reverted r :
  r ∈ t → key cols (updated r) = key cols r ∧ apply_all cols (reverts_of (dirty_rows o)) (updated r) = r ∧ apply_all cols (reverts_of (dirty_rows o)) r = r.
Proof using S W.
  intros Hr. pose proof (member_full r Hr) as Hf. destruct (decide (key cols r ∈ (updates_of (dirty_rows o)).*1)) as [Hin | Hout].
  - apply list_elem_of_fmap in Hin as ([k f] & Hk & ([i ch] & Hd & E)%list_elem_of_omap). cbn in Hk, E.
    destruct (rows o !! i) as [row |] eqn:Er; [| done]. cbn in E. injection E as <- _.
    assert (full row) as Hrow by (eapply rows_full, list_elem_of_lookup_2, Er).
    assert (r = db_row cols row) as -> by (apply same_key; [done | by apply (posed_rows _ W), list_elem_of_lookup_2 with i | done]).
    destruct (write_back cols S i ch row Hd Hrow) as [Hb1 Hb2].
    assert (key cols (write cols Save (assignments cols ch) (db_row cols row)) = key cols (db_row cols row)) as Hkw by (by eapply write_keeps_key).
    assert (updated (db_row cols row) = write cols Save (assignments cols ch) (db_row cols row)) as ->.
    { unfold updated, updates_of. rewrite (step_at (λ _ ch, write cols Save (assignments cols ch)) i ch row) by (done || intros; by eapply write_keeps_key). done. }
    split; [done |]. unfold reverts_of. split.
    + rewrite (step_at revert i ch row); [| intros; by eapply revert_keeps_key | done | done | by rewrite write_length | done].
      unfold revert. by rewrite changed_hold with (i := i).
    + rewrite (step_at revert i ch row); [| intros; by eapply revert_keeps_key | done | done | done | done].
      unfold revert. by destruct (holds_all _ _ _).
  - unfold updated. rewrite apply_all_other by done. split; [done |].
    assert ((reverts_of (dirty_rows o)).*1 = (updates_of (dirty_rows o)).*1) as E.
    { unfold reverts_of, updates_of. clear. induction (dirty_rows o) as [| [i ch] l IH]; [done |]. cbn. destruct (rows o !! i); cbn; congruence. }
    rewrite apply_all_other; [done | by rewrite E].
Qed.

(** The deleted rows are those the grid shows. *)
Lemma deleted_rows_are : db_row cols <$> selected o (deleted_rows o) ≡ₚ filter (λ r, ¬ (key cols r ∉ deleted_keys)) t.
Proof using S W.
  apply NoDup_Permutation.
  - apply (NoDup_fmap_1 (key cols)). rewrite <- list_fmap_compose. pose proof (shown_deleted _ _ S) as Hn. unfold selected.
    induction (deleted_rows o) as [| i l IH]; [constructor |]. apply NoDup_cons in Hn as [Hi Hn]. cbn.
    destruct (rows o !! i) as [row |] eqn:Er; [| by apply IH]. cbn. apply NoDup_cons. split; [| by apply IH].
    intros (row' & Hk & (i' & Hin & Hr')%list_elem_of_omap)%list_elem_of_fmap. apply Hi.
    by rewrite (row_index_of_key i i' row row').
  - apply NoDup_filter. eapply NoDup_fmap_1, (posed_keys _ W).
  - intros r. rewrite list_elem_of_filter. split.
    + intros (row & -> & Hin)%list_elem_of_fmap. split; [| apply (posed_rows _ W); by eapply selected_rows].
      intros Hn. apply Hn. apply list_elem_of_fmap. by exists row.
    + intros [Hk Hr]. apply dec_stable in Hk. apply list_elem_of_fmap in Hk as (row & Hk & Hin). apply list_elem_of_fmap.
      exists row. split; [| done]. apply same_key; [done | apply (posed_rows _ W); by eapply selected_rows | done].
Qed.

Lemma save_exec ss :
  relational_save_statements percent_decode o driver_profile = Some ss →
  exec_all cols ss t = filter (λ r, key cols r ∉ deleted_keys) (updated <$> t) ++ (saved_row <$> new_rows o).
Proof using S W keyed texts.
  unfold relational_save_statements. destruct (update_loop _ _ _ _ _ _) as [us |] eqn:Eu; [| done]. cbn [mbind option_bind].
  destruct (delete_statements _ _ _) as [ds |] eqn:Ed; [| done]. cbn [mbind option_bind]. intros <-%some_inj.
  rewrite !exec_all_app, (update_loop_exec (dirty_rows o) None [] [] us t); [| done | done | done | exact (steps_nodup (λ _ ch, write cols Save (assignments cols ch)) _ (shown_dirty _ _ S)) | apply (posed_full _ W)].
  rewrite (delete_exec ds) by done. by apply insert_exec.
Qed.
Lemma rollback_exec rs :
  relational_rollback_statements percent_decode o driver_profile = Some rs →
  exec_all cols rs (filter (λ r, key cols r ∉ deleted_keys) (updated <$> t) ++ (saved_row <$> new_rows o)) ≡ₚ t.
Proof using S W keyed nodefaults.
  unfold relational_rollback_statements. destruct not_hive as [_ ->]. destruct (delete_rollback _ _ _) as [ds |] eqn:Ed; [| done].
  cbn [mbind option_bind]. intros <-%some_inj. rewrite !exec_all_app, insert_rollback_exec; [| done | | done].
  2: { intros r row (Hk & (r0 & -> & Hr)%list_elem_of_fmap)%list_elem_of_filter Hrow. destruct (updated_reverted r0 Hr) as [E _].
       rewrite E in Hk |- *. intros E'. by eapply Hk, (posed_fresh _ W). }
  rewrite (delete_rollback_exec ds), update_rollback_exec, fmap_app by done.
  replace (apply_all cols (reverts_of (dirty_rows o)) <$> filter (λ r, key cols r ∉ deleted_keys) (updated <$> t))
    with (filter (λ r, key cols r ∉ deleted_keys) t).
  - replace (apply_all cols (reverts_of (dirty_rows o)) <$> (db_row cols <$> selected o (deleted_rows o)))
      with (db_row cols <$> selected o (deleted_rows o)).
    + rewrite deleted_rows_are. apply (filter_app_complement (λ r, key cols r ∉ deleted_keys)).
    + symmetry. rewrite <- list_fmap_id. apply list_fmap_ext. intros i r (row & -> & Hin)%list_elem_of_lookup_2%list_elem_of_fmap.
      apply updated_reverted, (posed_rows _ W). by eapply selected_rows.
  - pose proof updated_reverted as Hu. clear W. induction t as [| r l IH]; [done |]. destruct (Hu r) as (Hk & Hr & _); [left |].
    assert (∀ x, x ∈ l → x ∈ r :: l) as Hl by (intros; by right). rewrite fmap_cons, !filter_cons, Hk.
    rewrite IH by (intros x Hx; apply Hu; by right). destruct (decide _); [| done]. by rewrite fmap_cons, Hr.
Qed.
End posed.
End saved.

(** C5: On relational databases other than Hive and ClickHouse, in an abstract database that stores
    NULL for the NULL literal only and compares and stores every other literal as a value. The grid
    shows all columns of the table under their distinct names, the primary key among them; no column
    is generated, filled in by the database, a tsvector or Oracle's ROWID, and except on MySQL none
    has a default; the rows of the table have distinct keys and the shown rows are among them; the
    edits lie within the shown rows and leave the key columns alone, assignments with the same text
    write the same; new rows have no NULL in their key, and a key that is taken only if its row is
    deleted. Then the statements that save the edited cells, deleted rows and new rows leave exactly
    the table with the edits applied, the deleted keys gone and the new rows appended, batches of
    MySQL included, and the rollback statements, run on the result, restore the original rows, up to
    their order. *)
Theorem save_and_rollback `{Serde, Chrono, Letters} (percent_decode : str → option str) (driver_profile : option str)
    (o : DataGridSaveStatementOptions) (D : GridDatabase o) (cols : list str) (t : list (list V)) (ss rs : list grid_statement) :
  shows o cols → well_posed cols t → same_text_same_write cols → new_rows_keyed cols → no_defaults cols →
  relational_save_statements percent_decode o driver_profile = Some ss →
  relational_rollback_statements percent_decode o driver_profile = Some rs →
  exec_all cols ss t = filter (λ r, key cols r ∉ deleted_keys cols) (updated cols <$> t) ++ (saved_row cols <$> new_rows o) ∧
  exec_all cols rs (exec_all cols ss t) ≡ₚ t.
Proof.
  intros HS HW Ht Hk Hd Hs Hr. pose proof (save_exec percent_decode driver_profile cols HS Ht Hk t HW ss Hs) as E. split; [done |].
  rewrite E. by eapply rollback_exec.
Qed.

(** ** A table of users *)
Definition user (id : str) (name : json) : list json := [JNumber id; name].
Definition users : DataGridSaveStatementOptions := {|
  database_type := Some DatabaseType.Mysql;
  identifier_quote := None;
  table_meta := {| catalog := None; database := None; schema := None; table_name := lit "users"; primary_keys := [lit "id"]; columns := None |};
  result_columns := [lit "id"; lit "name"];
  source_columns := None;
  rows := [user (lit "1") (JString (lit "a")); user (lit "2") (JString (lit "b")); user (lit "3") JNull];
  dirty_rows := [(0, [(1, JString (lit "x"))]); (1, [(1, JString (lit "x"))])];
  deleted_rows := [2];
  new_rows := [user (lit "4") (JString (lit "new"))];
|}.
Definition as_written (kind : literal_kind) (c : str) (v : json) : json :=
  if is_null v || (bool_decide (kind = Save) && empty_string_saves_as_null v (column_info_for (infos users) c)) then JNull else v.
#[refine] Instance users_database : GridDatabase users :=
  {| V := json; null := JNull; stored := as_written; defaults := λ _, JNull |}.
Proof.
  - intros kind c v. unfold as_written. destruct (is_null v || _) eqn:E; [done |]. split; [| done]. intros ->. discriminate E.
  - intros c v E. unfold as_written. by rewrite E, andb_false_r, orb_false_r, andb_false_l, orb_false_r.
Defined.
Definition users_cols : list str := [lit "id"; lit "name"].
Lemma users_shown : shows users users_cols.
Proof.
  split; try (vm_compute; reflexivity).
  - apply (bool_decide_unpack _). vm_compute. exact I.
  - intros k Hk. apply list_elem_of_singleton in Hk as ->. left.
  - discriminate.
  - intros c [-> | [-> | Hc%not_elem_of_nil]%elem_of_cons]%elem_of_cons; [vm_compute; tauto | vm_compute; tauto | done].
  - intros row Hr. apply list_elem_of_In in Hr. cbn in Hr. by intuition subst.
  - apply (bool_decide_unpack _). vm_compute. exact I.
  - intros i ch Hin. split.
    + apply list_elem_of_In in Hin. cbn in Hin. destruct Hin as [[= <- <-] | [[= <- <-] | []]]; apply NoDup_singleton.
    + intros j v Hj. exists (lit "name"). apply list_elem_of_In in Hin. cbn in Hin.
      destruct Hin as [[= <- <-] | [[= <- <-] | []]]; apply list_elem_of_singleton in Hj as [= -> ->];
        (split; [reflexivity | apply (bool_decide_unpack _); vm_compute; exact I]).
  - apply NoDup_singleton.
Qed.
Definition users_table : list (list json) :=
  [user (lit "3") JNull; user (lit "7") (JString (lit "x")); user (lit "1") (JString (lit "a")); user (lit "2") (JString (lit "b"))].
Lemma users_posed : well_posed (D := users_database) users_cols users_table.
Proof.
  split.
  - by repeat constructor.
  - apply (bool_decide_unpack _). vm_compute. exact I.
  - intros row Hr. apply list_elem_of_In in Hr. cbn in Hr. apply (bool_decide_unpack _). destruct Hr as [<- | [<- | [<- | []]]]; vm_compute; exact I.
  - apply (bool_decide_unpack _). vm_compute. exact I.
  - intros r row Hr Hrow. apply list_elem_of_singleton in Hrow as ->. apply list_elem_of_In in Hr. cbn in Hr.
    intros E. by destruct Hr as [<- | [<- | [<- | [<- | []]]]]; vm_compute in E; discriminate E.
Qed.

Lemma save_and_rollback_witness :
  ∃ ss rs,
    relational_save_statements (H := plain_serde) (H0 := no_clock) (H1 := no_letters) Some users None = Some ss ∧
    exec_all (D := users_database) users_cols ss users_table =
      [user (lit "7") (JString (lit "x")); user (lit "1") (JString (lit "x")); user (lit "2") (JString (lit "x")); user (lit "4") (JString (lit "new"))] ∧
    exec_all (D := users_database) users_cols rs (exec_all (D := users_database) users_cols ss users_table) ≡ₚ users_table.
Proof.
  destruct (relational_save_statements (H := plain_serde) (H0 := no_clock) (H1 := no_letters) Some users None) as [ss |] eqn:Es;
    [| vm_compute in Es; discriminate Es].
  destruct (relational_rollback_statements (H := plain_serde) (H0 := no_clock) (H1 := no_letters) Some users None) as [rs |] eqn:Er;
    [| vm_compute in Er; discriminate Er].
  exists ss, rs. split; [reflexivity |].
  destruct (save_and_rollback (H := plain_serde) (H0 := no_clock) (H1 := no_letters) Some None users users_database users_cols users_table ss rs) as [E P].
  - exact users_shown.
  - exact users_posed.
  - intros a b Ha Hb. apply list_elem_of_In in Ha, Hb. cbn in Ha, Hb. by destruct Ha as [<- | [<- | []]], Hb as [<- | [<- | []]].
  - intros row k i Hr Hk Hi. apply list_elem_of_singleton in Hr as ->. apply list_elem_of_singleton in Hk as ->.
    destruct i as [| [| i]]; [discriminate | discriminate Hi | discriminate Hi].
  - discriminate.
  - exact Es.
  - exact Er.
  - split; [rewrite E; vm_compute; reflexivity | exact P].
Defined.
