(* ===== verification/GridStores.v ===== *)
(** * Preparing a save (data_grid_sql.rs, data_grid_neo4j_sql.rs, data_grid_tdengine_sql.rs, data_grid_iotdb_sql.rs)

    Neo4j, TDengine and the table model of IoTDB have statements of their own;
    the other databases get those of [GridSave].  A save is validated first,
    and [validated_conditions_name_whole_keys] states what the validation is
    for: no statement selects its rows by less than a whole key. *)
From S2P Require Import Prelude SqlDialect StateStore Json Identifiers Floats GridColumns GridLiteral GridSave GridRefine.
Local Open Scope dbx_scope.

(** The statements that are there, [None] when one of them panics. *)
Definition statements_of (ss : list (option (option str))) : option (list str) := omap id <$> mapM id ss.

Section stores.
Context `{Serde, Chrono, Letters} (percent_decode : str → option str).
Context (o : DataGridSaveStatementOptions) (driver_profile : option str).
Let save_columns := effective_columns o.
Let keys := primary_keys (table_meta o).
Definition pairs_of (row : list json) : list (str * json) := (λ ic : nat * str, (ic.2, cell row ic.1)) <$> named_columns o.

(** ** TDengine *)
Definition DBX_TDENGINE_TBNAME_COLUMN : str := lit "tbname".
Definition is_tbname (column : str) : bool := eq_ignore_ascii_case column DBX_TDENGINE_TBNAME_COLUMN.
Definition tdengine_row_primary_keys : list str := filter (λ k, is_tbname k = false) keys.
Definition has_tdengine_composite_primary_key : bool := bool_decide (1 < length tdengine_row_primary_keys).
Definition tdengine_tbname_value (row : list json) : option str :=
  '(index, _) ← list_find (λ column, match column with Some c => is_tbname c | None => false end = true) save_columns;
  value ← row !! index;
  match value with JNull => None | JString s => Some s | _ => Some (value_to_string value) end.
Definition tdengine_tag_columns : list str :=
  to_ascii_lowercase ∘ info_name <$> filter (λ c, str_contains (lit "tag") (to_ascii_lowercase (default [] (extra c))) = true) (infos o).
Definition tdengine_can_insert_column (column table_name : str) (tbname : option str) (tag_columns : list str) : bool :=
  let normalized := to_ascii_lowercase column in
  if negb (match tbname with None => true | Some t => bool_decide (t = table_name) end) then true
  else if bool_decide (normalized = DBX_TDENGINE_TBNAME_COLUMN) then false
  else negb (bool_decide (normalized ∈ tag_columns)).
Definition build_tdengine_insert_statement (row : list json) : option (option str) :=
  let tbname := tdengine_tbname_value row in
  let d := Some DatabaseType.Tdengine in
  let insert_pairs :=
    filter (λ cv : str * json, tdengine_can_insert_column cv.1 (table_name (table_meta o)) tbname tdengine_tag_columns = true)
      (filter (λ cv : str * json, cv.2 ≠ JNull) (pairs_of row)) in
  if decide (insert_pairs = []) then Some None
  else
    values ← mapM (λ cv : str * json, format_grid_sql_literal cv.2 d None) insert_pairs;
    Some (Some (lit "INSERT INTO " ++ qualified_table_name percent_decode d (schema (table_meta o)) (table_name (table_meta o)) ++
                lit " (" ++ join (lit ", ") (quote_table_identifier d <$> insert_pairs.*1) ++
                lit ") VALUES (" ++ join (lit ", ") values ++ lit ");")).
(** The options that [build_primary_key_where] is called with. *)
Definition with_keys (d : option DatabaseType.t) (quote : option str) (pks : list str) : DataGridSaveStatementOptions :=
  let m := table_meta o in
  {| database_type := d; identifier_quote := quote;
     table_meta := {| catalog := catalog m; database := database m; schema := schema m; table_name := table_name m;
                      primary_keys := pks; columns := columns m |};
     result_columns := result_columns o; source_columns := source_columns o; rows := rows o; dirty_rows := dirty_rows o;
     deleted_rows := deleted_rows o; new_rows := new_rows o |}.
Definition build_tdengine_delete_statement (row : list json) : option (option str) :=
  if has_tdengine_composite_primary_key then Some None
  else
    let d := Some DatabaseType.Tdengine in
    let table := default (table_name (table_meta o)) (tdengine_tbname_value row) in
    let o' := with_keys d None tdengine_row_primary_keys in
    where_clause ← where_sql o' (build_primary_key_where o' row);
    if decide (where_clause = []) then Some None
    else Some (Some (data_grid_statement o' (delete_prefix o' (qualified_table_name percent_decode d (schema (table_meta o)) table) ++ where_clause))).
Definition requires_tbname : bool := existsb is_tbname keys.
Definition has_tbname : bool := existsb (λ c, match c with Some c => is_tbname c | None => false end) save_columns.
Definition build_tdengine_data_grid_save_statements : option (list str) :=
  statements_of (
    (if has_tbname || negb requires_tbname
     then omap (λ rc : nat * list (nat * json), row ← rows o !! rc.1; Some (build_tdengine_insert_statement (after_row row rc.2))) (dirty_rows o)
     else []) ++
    (build_tdengine_delete_statement <$> selected o (deleted_rows o)) ++
    (build_tdengine_insert_statement <$> new_rows o)).
Definition build_tdengine_data_grid_rollback_statements : option (list str) :=
  if has_tdengine_composite_primary_key && negb (bool_decide (new_rows o = [])) then Some []
  else statements_of (
    (build_tdengine_delete_statement <$> new_rows o) ++
    (build_tdengine_insert_statement <$> selected o (deleted_rows o)) ++
    (build_tdengine_insert_statement <$> selected o (dirty_rows o).*1)).

Definition blank_tbname (row : list json) : bool :=
  match tdengine_tbname_value row with None => true | Some t => bool_decide (trim t = []) end.
Definition tdengine_insert_identity_error : str := lit "TDengine STABLE inserts require a child table name (tbname).".
Definition tdengine_row_identity_error : str := lit "TDengine row editing requires all row identifier columns in the result.".
Definition tdengine_row_identity_readonly_error : str := lit "TDengine row identifier columns cannot be edited.".
Definition tdengine_composite_key_delete_error : str := lit "TDengine tables with composite keys do not support row deletion.".
Definition validate_tdengine_inserted_rows : option str :=
  if negb (is_db DatabaseType.Tdengine (database_type o)) || bool_decide (new_rows o = []) then None
  else if negb requires_tbname then None
  else if existsb blank_tbname (new_rows o) then Some tdengine_insert_identity_error else None.
Definition validate_tdengine_existing_rows : option str :=
  let d := database_type o in
  let row_keys := tdengine_row_primary_keys in
  let no_value row k := match i ← find_column_index d save_columns k; row !! i with None => true | Some v => is_null v end in
  if negb (is_db DatabaseType.Tdengine d) || (bool_decide (deleted_rows o = []) && bool_decide (dirty_rows o = [])) then None
  else if has_tdengine_composite_primary_key && negb (bool_decide (deleted_rows o = [])) then Some tdengine_composite_key_delete_error
  else if (requires_tbname && negb has_tbname) || bool_decide (row_keys = [])
          || existsb (λ k, bool_decide (find_column_index d save_columns k = None)) row_keys
  then Some tdengine_row_identity_error
  else if existsb (λ rc : nat * list (nat * json),
            existsb (λ c : nat * json, match save_columns !! c.1 ≫= id with
                                       | Some column => existsb (λ k, eq_ignore_ascii_case k column) keys
                                       | None => false
                                       end) rc.2) (dirty_rows o)
  then Some tdengine_row_identity_readonly_error
  else find_map (λ row_index,
         match rows o !! row_index with
         | None => Some tdengine_row_identity_error
         | Some row =>
             if (requires_tbname && blank_tbname row) || existsb (no_value row) row_keys then Some tdengine_row_identity_error else None
         end) (deleted_rows o ++ (dirty_rows o).*1).

(** ** Neo4j *)
Definition neo4j : option DatabaseType.t := Some DatabaseType.Neo4j.
Definition neo4j_element_id_predicate (row : list json) : option str :=
  let value := match list_find (λ c, c = DBX_NEO4J_ELEMENT_ID_COLUMN) (result_columns o) with Some (i, _) => cell row i | None => JNull end in
  l ← format_grid_sql_literal value neo4j None; Some (lit "elementId(n) = " ++ l).
Definition neo4j_label : str := quote_table_identifier neo4j (table_name (table_meta o)).
(** The columns of the result that are properties. *)
Definition neo4j_properties : list (nat * str) :=
  filter (λ ic : nat * str, is_neo4j_element_id neo4j (Some ic.2) = false) (imap pair (result_columns o)).
Definition neo4j_row_property_where (row : list json) : option str :=
  texts ← mapM (λ ic : nat * str,
      let ident := lit "n." ++ quote_table_identifier neo4j ic.2 in
      if is_null (cell row ic.1) then Some (ident ++ lit " IS NULL")
      else l ← format_grid_sql_literal (cell row ic.1) neo4j None; Some (ident ++ lit " = " ++ l)) neo4j_properties;
  Some (join (lit " AND ") texts).
Definition neo4j_create (row : list json) : option (option str) :=
  texts ← mapM (λ ic : nat * str, l ← format_grid_sql_literal (cell row ic.1) neo4j None;
                                  Some (quote_table_identifier neo4j ic.2 ++ lit ": " ++ l))
            (filter (λ ic : nat * str, cell row ic.1 ≠ JNull) neo4j_properties);
  let props := join (lit ", ") texts in
  Some (Some (if decide (props = []) then lit "CREATE (n:" ++ neo4j_label ++ lit ");"
              else lit "CREATE (n:" ++ neo4j_label ++ lit " {" ++ props ++ lit "});")).
(** [value_of] gives the new or the old value of a change. *)
Definition neo4j_set (value_of : list json → nat * json → json) (rc : nat * list (nat * json)) : option (option str) :=
  match rows o !! rc.1 with
  | None => Some None
  | Some row =>
      texts ← mapM (λ cc : str * (nat * json), l ← format_grid_sql_literal (value_of row cc.2) neo4j None;
                                 Some (lit "n." ++ quote_table_identifier neo4j cc.1 ++ lit " = " ++ l))
                (filter (λ cc : str * (nat * json), is_neo4j_element_id neo4j (Some cc.1) = false)
                  (omap (λ c : nat * json, column ← result_columns o !! c.1; Some (column, c)) rc.2));
      let sets := join (lit ", ") texts in
      if decide (sets = []) then Some None
      else id_where ← neo4j_element_id_predicate row;
           Some (Some (lit "MATCH (n:" ++ neo4j_label ++ lit ") WHERE " ++ id_where ++ lit " SET " ++ sets ++ lit ";"))
  end.
Definition neo4j_delete (where_clause : str) : str :=
  if decide (where_clause = []) then lit "MATCH (n:" ++ neo4j_label ++ lit ") DETACH DELETE n;"
  else lit "MATCH (n:" ++ neo4j_label ++ lit ") WHERE " ++ where_clause ++ lit " DETACH DELETE n;".
Definition build_neo4j_data_grid_save_statements : option (list str) :=
  statements_of (
    (neo4j_set (λ _ c, c.2) <$> dirty_rows o) ++
    ((λ row, p ← neo4j_element_id_predicate row; Some (Some (neo4j_delete p))) <$> selected o (deleted_rows o)) ++
    (neo4j_create <$> new_rows o)).
Definition build_neo4j_data_grid_rollback_statements : option (list str) :=
  statements_of (
    ((λ row, p ← neo4j_row_property_where row; Some (Some (neo4j_delete p))) <$> new_rows o) ++
    (neo4j_create <$> selected o (deleted_rows o)) ++
    (neo4j_set (λ row c, cell row c.1) <$> dirty_rows o)).

(** ** IoTDB, table model *)
Definition uses_iotdb_table_model_save : bool := is_db DatabaseType.Iotdb (database_type o) && negb (bool_decide (keys = [])).
Definition iotdb_table : str :=
  let m := table_meta o in
  data_grid_qualified_table_name percent_decode (Some DatabaseType.Iotdb) (catalog m) (schema m) (database m) (table_name m) (identifier_quote o).
Definition iotdb_options : DataGridSaveStatementOptions := with_keys (Some DatabaseType.Iotdb) (identifier_quote o) keys.
Definition build_iotdb_insert_statement (insert_pairs : list (str * json)) : option (option str) :=
  if decide (insert_pairs = []) then Some None
  else
    text ← tuple_sql iotdb_options Save insert_pairs.*1 insert_pairs.*2;
    Some (Some (data_grid_statement iotdb_options (insert_prefix iotdb_table (columns_sql iotdb_options insert_pairs.*1) ++ text))).
Definition build_iotdb_full_row_insert (row : list json) : option (option str) :=
  build_iotdb_insert_statement (filter (λ cv : str * json, cv.2 ≠ JNull) (pairs_of row)).
Definition is_key_column (column : str) : bool := bool_decide (normalize_column_name column ∈ normalize_column_name <$> keys).
Definition changed_pairs (row : list json) (changes : list (nat * json)) (use_changed_values : bool) : list (str * json) :=
  omap (λ ic : nat * str,
    let '(index, column) := ic in
    let is_primary_key := is_key_column column in
    if negb is_primary_key && negb (bool_decide (index ∈ changes.*1)) then None
    else if use_changed_values && negb is_primary_key
    then '(_, value) ← List.find (λ c : nat * json, bool_decide (c.1 = index)) changes; Some (column, value)
    else Some (column, cell row index)) (named_columns o).
Definition build_iotdb_changed_row_insert (row : list json) (changes : list (nat * json)) (use_changed_values : bool) : option (option str) :=
  build_iotdb_insert_statement (changed_pairs row changes use_changed_values).
Definition build_iotdb_delete_statement (row : list json) : option (option str) :=
  where_clause ← where_sql iotdb_options (build_primary_key_where iotdb_options row);
  if decide (where_clause = []) then Some None
  else Some (Some (data_grid_statement iotdb_options (delete_prefix iotdb_options iotdb_table ++ where_clause))).
Definition build_iotdb_data_grid_save_statements : option (list str) :=
  statements_of (
    omap (λ rc : nat * list (nat * json), row ← rows o !! rc.1; Some (build_iotdb_changed_row_insert row rc.2 true)) (dirty_rows o) ++
    (build_iotdb_delete_statement <$> selected o (deleted_rows o)) ++
    (build_iotdb_full_row_insert <$> new_rows o)).
Definition clears (index : nat) (value : json) : bool :=
  is_null value || match save_columns !! index ≫= id with
                   | Some column => empty_string_saves_as_null value (column_info_for (infos o) column)
                   | None => false
                   end.
Definition iotdb_update_rollback (rc : nat * list (nat * json)) : list (option (option str)) :=
  match rows o !! rc.1 with
  | None => []
  | Some row =>
      if existsb (λ c : nat * json, clears c.1 (cell row c.1)) rc.2
      then [build_iotdb_delete_statement row; build_iotdb_full_row_insert row]
      else [build_iotdb_changed_row_insert row rc.2 false]
  end.
Definition build_iotdb_data_grid_rollback_statements : option (list str) :=
  statements_of (
    (build_iotdb_delete_statement <$> new_rows o) ++
    (build_iotdb_full_row_insert <$> selected o (deleted_rows o)) ++
    concat (iotdb_update_rollback <$> dirty_rows o)).
Definition validate_iotdb_existing_rows : option str :=
  if negb uses_iotdb_table_model_save || bool_decide (dirty_rows o = []) then None
  else
    find_map (λ rc : nat * list (nat * json),
      find_map (λ c : nat * json,
        match save_columns !! c.1 ≫= id with
        | None => None
        | Some column =>
            if is_key_column column then Some (lit "IoTDB row identifier columns (time and TAG) cannot be edited.")
            else if clears c.1 c.2
            then Some (lit "IoTDB Table model cannot clear a FIELD or ATTRIBUTE value without deleting the row. Enter a non-NULL value or delete the row instead.")
            else None
        end) rc.2) (dirty_rows o).

(** ** All databases *)
Definition texts (statements : option (list grid_statement)) : option (list str) :=
  ss ← statements; mapM (statement_sql percent_decode o driver_profile) ss.
Definition build_data_grid_save_statements : option (list str) :=
  if is_db DatabaseType.Neo4j (database_type o) then build_neo4j_data_grid_save_statements
  else if is_db DatabaseType.Tdengine (database_type o) then build_tdengine_data_grid_save_statements
  else if uses_iotdb_table_model_save then build_iotdb_data_grid_save_statements
  else texts (relational_save_statements percent_decode o driver_profile).
Definition build_data_grid_rollback_statements : option (list str) :=
  if is_db DatabaseType.Neo4j (database_type o) then build_neo4j_data_grid_rollback_statements
  else if is_db DatabaseType.Tdengine (database_type o) then build_tdengine_data_grid_rollback_statements
  else if uses_iotdb_table_model_save then build_iotdb_data_grid_rollback_statements
  else texts (relational_rollback_statements percent_decode o driver_profile).

(** The first error. *)
Definition validate_data_grid_save : option str :=
  find_map id [validate_iotdb_existing_rows; validate_tdengine_inserted_rows; validate_inserted_primary_keys o;
               validate_tdengine_existing_rows; validate_existing_row_primary_keys o; validate_oracle_keyless_lob_predicate o;
               validate_clickhouse_mutable_updates o; validate_null_writes o].

Record DataGridSavePreparation := {
  validation_error : option str;
  statements : list str;
  rollback_statements : list str;
  execution_schema : option str;
}.
Definition prepare_data_grid_save_for_driver_profile : option DataGridSavePreparation :=
  let schema := data_grid_save_execution_schema (database_type o) driver_profile (table_meta o) in
  match validate_data_grid_save with
  | Some e => Some {| validation_error := Some e; statements := []; rollback_statements := []; execution_schema := schema |}
  | None =>
      statements ← build_data_grid_save_statements;
      rollback ← build_data_grid_rollback_statements;
      Some {| validation_error := None; statements := statements; rollback_statements := rollback; execution_schema := schema |}
  end.
End stores.

(** ** Whole keys *)
Lemma find_map_None {A B} (f : A → option B) l : find_map f l = None ↔ ∀ x, x ∈ l → f x = None.
Proof.
  induction l as [| y l IH]; cbn; [split; [by intros _ x Hx%not_elem_of_nil | done] |]. destruct (f y) eqn:E.
  - split; [done |]. intros Hf. rewrite Hf in E by left. done.
  - rewrite IH. split; [intros Hf x [-> | Hx]%elem_of_cons; auto | intros Hf x Hx; apply Hf; by right].
Qed.
Lemma find_Forall {A} (f : A → bool) l : List.find f l = None → Forall (λ x, f x = false) l.
Proof. induction l as [| x l IH]; cbn; [done |]. destruct (f x) eqn:E; [done |]. by constructor; [| apply IH]. Qed.

Section whole_keys.
Context `{Serde, Chrono, Letters} (percent_decode : str → option str).
Context (o : DataGridSaveStatementOptions) (driver_profile : option str).

(** The condition compares every key column with its value in the row. *)
Definition whole_key (row : list json) (condition : list predicate) : Prop :=
  p_column <$> condition = primary_keys (table_meta o) ∧
  Forall (λ p, ∃ i v, find_column_index (database_type o) (effective_columns o) (p_column p) = Some i ∧ row !! i = Some v ∧
                      v ≠ JNull ∧ p_value p = v ∧ p_kind p = Assign) condition.
Definition touched : list nat := (dirty_rows o).*1 ++ deleted_rows o.
Definition from_touched (Q : list json → list predicate → Prop) (s : grid_statement) : Prop :=
  match s with
  | SUpdate _ _ conditions | SDelete conditions =>
      Forall (λ c, ∃ i row, i ∈ touched ∧ rows o !! i = Some row ∧ Q row c) conditions
  | _ => True
  end.
Definition key_of (row : list json) (c : list predicate) : Prop := c = build_primary_key_where o row.

Lemma validated_keys row i :
  validate_existing_row_primary_keys o = None → primary_keys (table_meta o) ≠ [] → i ∈ touched → rows o !! i = Some row →
  ∀ k, k ∈ primary_keys (table_meta o) → ∃ j v, find_column_index (database_type o) (effective_columns o) k = Some j ∧ row !! j = Some v ∧ v ≠ JNull.
Proof using.
  unfold validate_existing_row_primary_keys, touched. intros Hv Hk Hi Hr k Hin. rewrite bool_decide_eq_false_2 in Hv by done. cbn [orb] in Hv.
  destruct (bool_decide (dirty_rows o = []) && bool_decide (deleted_rows o = [])) eqn:Ee.
  { apply andb_true_iff in Ee as [E1%bool_decide_eq_true E2%bool_decide_eq_true]. rewrite E1, E2 in Hi. by apply not_elem_of_nil in Hi. }
  destruct (decide (filter _ _ ≠ [])) as [| Hm]; [done |]. apply dec_stable in Hm.
  assert (∀ k, k ∈ primary_keys (table_meta o) → is_Some (find_column_index (database_type o) (effective_columns o) k)) as Hf.
  { intros k' Hk'. apply not_eq_None_Some. intros E. apply (not_elem_of_nil k'). rewrite <- Hm. by apply list_elem_of_filter. }
  pose proof (proj1 (find_map_None _ _) Hv i Hi) as Hz. cbn beta in Hz. rewrite Hr in Hz. cbn [mbind option_bind] in Hz.
  destruct (List.find _ _) as [[] |] eqn:Ez; [done |]. apply find_Forall in Ez. rewrite Forall_forall in Ez.
  destruct (Hf k Hin) as [j Hj]. exists j.
  assert ((k, j) ∈ zip (primary_keys (table_meta o)) (omap (find_column_index (database_type o) (effective_columns o)) (primary_keys (table_meta o)))) as Hzip.
  { clear -Hf Hin Hj. induction (primary_keys (table_meta o)) as [| k' ks IH]; [by apply not_elem_of_nil in Hin |].
    destruct (Hf k') as [j' Hj']; [left |]. cbn. rewrite Hj'. cbn. apply elem_of_cons in Hin as [-> | Hin].
    - assert (j' = j) as -> by congruence. left.
    - right. apply IH; [done | intros k'' Hk''; apply Hf; by right]. }
  specialize (Ez _ Hzip). cbn in Ez. destruct (row !! j) as [v |]; [| done]. exists v. split; [done |]. split; [done |].
  intros ->. discriminate Ez.
Qed.

Lemma update_loop_touched dirty current parts ss :
  update_loop percent_decode o driver_profile current parts dirty = Some ss → (∀ i ch, (i, ch) ∈ dirty → i ∈ touched) →
  Forall (λ p : str * list predicate, ∃ i row, i ∈ touched ∧ rows o !! i = Some row ∧ key_of row p.2) parts →
  Forall (from_touched key_of) ss.
Proof using.
  assert (∀ text sets ps, Forall (λ p : str * list predicate, ∃ i row, i ∈ touched ∧ rows o !! i = Some row ∧ key_of row p.2) ps →
    Forall (from_touched key_of) (update_batches percent_decode o driver_profile text sets ps)) as Hb.
  { intros text sets ps Hp. unfold update_batches. apply Forall_fmap, Forall_forall. intros b Hb. cbn. apply Forall_fmap, Forall_forall.
    intros p Hpb. rewrite Forall_forall in Hp. apply Hp. by eapply elem_of_batches. }
  revert current parts ss. induction dirty as [| [i ch] dirty IH]; intros current parts ss Hss Hd Hp; cbn [update_loop] in Hss.
  { apply some_inj in Hss as <-. destruct current as [[] |]; [by apply Hb | constructor]. }
  assert (∀ i ch, (i, ch) ∈ dirty → i ∈ touched) as Hd' by (intros ? ? ?; eapply Hd; by right).
  destruct (rows o !! i) as [row |] eqn:Er; [| by eapply IH]. destruct (decide _); [by eapply IH |].
  destruct (sets_sql _ _ _) as [text |]; [| done]. cbn [mbind option_bind] in Hss. destruct (where_sql _ _) as [wtext |]; [| done]. cbn [mbind option_bind] in Hss.
  assert (∃ i row', i ∈ touched ∧ rows o !! i = Some row' ∧ key_of row' (build_primary_key_where o row)) as Hone
    by (exists i, row; split; [eapply Hd; by left | done]).
  destruct (supports_mysql_data_grid_batch o).
  - destruct current as [[text0 old] |]; [destruct (decide _) |].
    + eapply IH; [exact Hss | done |]. apply Forall_app. split; [done |]. by apply Forall_singleton.
    + destruct (update_loop _ _ _ _ _ _) eqn:El; [| done]. cbn [mbind option_bind] in Hss. apply some_inj in Hss as <-. apply Forall_app.
      split; [by apply Hb |]. eapply IH; [exact El | done |]. by apply Forall_singleton.
    + eapply IH; [exact Hss | done |]. apply Forall_app. split; [done |]. by apply Forall_singleton.
  - destruct (update_loop _ _ _ _ _ _) eqn:El; [| done]. cbn [mbind option_bind] in Hss. apply some_inj in Hss as <-. constructor.
    + cbn. by apply Forall_singleton.
    + eapply IH; [exact El | done | done].
Qed.
Lemma save_statements_touched ss : relational_save_statements percent_decode o driver_profile = Some ss → Forall (from_touched key_of) ss.
Proof using.
  unfold relational_save_statements. destruct (update_loop _ _ _ _ _ _) as [us |] eqn:Eu; [| done]. cbn [mbind option_bind].
  destruct (delete_statements _ _ _) as [ds |] eqn:Ed; [| done]. cbn [mbind option_bind]. intros <-%some_inj.
  apply Forall_app. split; [| apply Forall_app; split].
  - eapply update_loop_touched; [exact Eu | | constructor]. intros i ch Hin. unfold touched. apply elem_of_app. left. apply list_elem_of_fmap. by exists (i, ch).
  - unfold delete_statements in Ed. destruct (with_text _ _) as [parts |] eqn:Ew; [| done]. cbn [mbind option_bind] in Ed. apply some_inj in Ed as <-.
    assert (∀ p, p ∈ parts → ∃ i row, i ∈ touched ∧ rows o !! i = Some row ∧ key_of row p.2) as Hp.
    { intros p Hp. apply mapM_Some in Ew. apply list_elem_of_lookup in Hp as [j Hj]. destruct (Forall2_lookup_r _ _ _ _ _ Ew Hj) as (c & Hc & Ec).
      destruct (where_sql o c); [| done]. cbn in Ec. apply some_inj in Ec as <-. rewrite list_lookup_fmap in Hc. apply fmap_Some in Hc as (row & Hrow & ->).
      apply list_elem_of_lookup_2 in Hrow. unfold selected in Hrow. apply list_elem_of_omap in Hrow as (i & Hi & Hr).
      exists i, row. split; [apply elem_of_app; by right | done]. }
    destruct (supports_mysql_data_grid_batch o); apply Forall_fmap, Forall_forall.
    + intros b Hb. cbn. apply Forall_fmap, Forall_forall. intros p Hpb. apply Hp. by eapply elem_of_batches.
    + intros p Hin. cbn. by apply Forall_singleton, Hp.
  - apply Forall_forall. intros s Hs. apply list_elem_of_In, in_concat in Hs as (l & Hl & Hs). apply list_elem_of_In, list_elem_of_fmap in Hl as (row & -> & _).
    apply list_elem_of_In in Hs. unfold new_row_statements, hive_insert in Hs.
    repeat case_match; try by apply not_elem_of_nil in Hs. all: apply list_elem_of_singleton in Hs as ->; exact I.
Qed.

Lemma key_of_whole row i c :
  validate_existing_row_primary_keys o = None → primary_keys (table_meta o) ≠ [] → i ∈ touched → rows o !! i = Some row →
  key_of row c → whole_key row c.
Proof using.
  intros Hv Hk Hi Hr ->. unfold build_primary_key_where. rewrite bool_decide_eq_false_2 by done. cbn [andb]. split.
  - rewrite <- list_fmap_compose. apply list_fmap_id.
  - apply Forall_fmap, Forall_forall. intros k Hin. cbn [p_column p_value p_kind compose].
    destruct (validated_keys row i Hv Hk Hi Hr k Hin) as (j & v & Hj & Hv' & Hn). exists j, v. rewrite Hj. unfold cell. by rewrite Hv'.
Qed.

(** C17: When `validate_data_grid_save` finds no error and the table has a primary key, every
    condition of the UPDATE and DELETE statements belongs to an edited or deleted row and compares
    each column of the key, in order, with the value that the row has for it, which is there and is
    not NULL. *)
Theorem validated_conditions_name_whole_keys ss :
  validate_data_grid_save o = None → primary_keys (table_meta o) ≠ [] →
  relational_save_statements percent_decode o driver_profile = Some ss → Forall (from_touched whole_key) ss.
Proof using.
  intros Hv Hk Hs. assert (validate_existing_row_primary_keys o = None) as He.
  { apply (proj1 (find_map_None _ _) Hv). apply list_elem_of_In. cbn. tauto. }
  eapply Forall_impl; [by apply save_statements_touched |]. intros [] Hq; cbn in *; try done;
    (eapply Forall_impl; [exact Hq |]; intros c (i & row & Hi & Hr & Hc); exists i, row; split; [done |]; split; [done |]; by eapply key_of_whole).
Qed.
End whole_keys.

(** ** Examples *)
(** A text with [@] for the double quote. *)
Definition dq (s : string) : str := replace_char (chr "@") [DQUOTE] (lit s).
Definition saving (d : DatabaseType.t) (table : string) (pks : list string) (cols : list DataGridColumnInfo) (names : list string)
    (rs : list (list json)) (dirty : list (nat * list (nat * json))) (deleted : list nat) (news : list (list json)) : DataGridSaveStatementOptions :=
  {| database_type := Some d; identifier_quote := None;
     table_meta := {| catalog := None; database := None; schema := None; table_name := lit table; primary_keys := lit <$> pks; columns := Some cols |};
     result_columns := lit <$> names; source_columns := None; rows := rs; dirty_rows := dirty; deleted_rows := deleted; new_rows := news |}.
Definition column (name type : string) (nullable : bool) (extra : option str) : DataGridColumnInfo :=
  {| info_name := lit name; data_type := lit type; is_nullable := nullable; is_primary_key := false; column_default := None; extra := extra |}.
Definition prepared (o : DataGridSaveStatementOptions) : option (list str * list str) :=
  p ← prepare_data_grid_save_for_driver_profile (H := plain_serde) (H0 := no_clock) (H1 := no_letters) Some o None;
  match validation_error p with None => Some (statements p, rollback_statements p) | Some _ => None end.
Definition edited_users : DataGridSaveStatementOptions :=
  saving DatabaseType.Mysql "users" ["id"] [] ["id"; "name"] [user (lit "1") (JString (lit "a")); user (lit "2") (JString (lit "b")); user (lit "3") JNull]
    [(0, [(1, JString (lit "x"))]); (1, [(1, JString (lit "x"))])] [2] [].

Example edited_users_are_batched :
  prepared edited_users =
  Some ([lit "UPDATE `users` SET `name` = 'x' WHERE (`id` = 1) OR (`id` = 2);"; lit "DELETE FROM `users` WHERE `id` = 3;"],
        [lit "INSERT INTO `users` (`id`, `name`) VALUES (3, NULL);"; lit "UPDATE `users` SET `name` = 'a' WHERE `id` = 1 AND `name` = 'x';";
         lit "UPDATE `users` SET `name` = 'b' WHERE `id` = 2 AND `name` = 'x';"]).
Proof. vm_compute. reflexivity. Qed.

Lemma validated_conditions_name_whole_keys_witness :
  ∃ ss, relational_save_statements (H := plain_serde) (H0 := no_clock) (H1 := no_letters) Some edited_users None = Some ss ∧ length ss = 2 ∧
    Forall (from_touched edited_users (whole_key edited_users)) ss.
Proof.
  destruct (relational_save_statements (H := plain_serde) (H0 := no_clock) (H1 := no_letters) Some edited_users None) as [ss |] eqn:E;
    [| vm_compute in E; discriminate E].
  exists ss. split; [reflexivity |]. split; [vm_compute in E; injection E as <-; reflexivity |].
  apply (validated_conditions_name_whole_keys (H := plain_serde) (H0 := no_clock) (H1 := no_letters) Some edited_users None ss).
  - vm_compute. reflexivity.
  - discriminate.
  - exact E.
Defined.

(** The rollback of a new node without properties deletes every node of the label. *)
Example new_neo4j_node_takes_all_back :
  prepared (saving DatabaseType.Neo4j "Person" [] [] ["__DBX_ELEMENT_ID"] [] [] [] [[JNull]]) =
  Some ([lit "CREATE (n:`Person`);"], [lit "MATCH (n:`Person`) DETACH DELETE n;"]).
Proof. vm_compute. reflexivity. Qed.

(** Without a primary key a cell that is emptied is not restored: the rollback
    asks for rows where it is both the empty text and NULL. *)
Example emptied_cell_is_not_restored :
  prepared (saving DatabaseType.Postgres "t" [] [column "a" "integer" true None; column "b" "text" true None] ["a"; "b"]
              [[JNumber (lit "1"); JString (lit "x")]] [(0, [(0, JString [])])] [] []) =
  Some ([dq "UPDATE @t@ SET @a@ = NULL WHERE @a@ = 1 AND @b@ = 'x';"],
        [dq "UPDATE @t@ SET @a@ = 1 WHERE @a@ = '' AND @b@ = 'x' AND @a@ IS NULL;"]).
Proof. vm_compute. reflexivity. Qed.

(** A new row whose key the database generates is not found again. *)
Example generated_key_is_not_taken_back :
  prepared (saving DatabaseType.Postgres "t" ["id"] [column "id" "integer" false (Some (lit "identity")); column "b" "text" true None] ["id"; "b"]
              [] [] [] [[JNull; JString (lit "x")]]) =
  Some ([dq "INSERT INTO @t@ (@b@) VALUES ('x');"], [dq "DELETE FROM @t@ WHERE @id@ IS NULL AND @b@ = 'x';"]).
Proof. vm_compute. reflexivity. Qed.

(** In TDengine the rollback writes the old row but leaves its NULLs out, so a
    value written over a NULL stays. *)
Example tdengine_null_is_not_restored :
  prepared (saving DatabaseType.Tdengine "d1" ["ts"] [] ["ts"; "v"] [[JString (lit "2026"); JNull]] [(0, [(1, JNumber (lit "6"))])] [] []) =
  Some ([lit "INSERT INTO `d1` (`ts`, `v`) VALUES ('2026', 6);"], [lit "INSERT INTO `d1` (`ts`) VALUES ('2026');"]).
Proof. vm_compute. reflexivity. Qed.
