(* ===== verification/RowCompare.v ===== *)
(** The row comparison of [data_compare.rs]: rows of two tables are matched by
    the text of their key columns, and the outcome lists the rows to add, to
    remove and to modify.  [compare_specification] says what that is in terms
    of cells under column names; [compare_data_rows], with its hash maps, column
    indexes and loops, computes it.  [compare_reference] stands between them. *)
From S2P Require Import Prelude StateStore Json.
Local Open Scope dbx_scope.

(** ** Data *)
Record CompareDataRowsOptions := {
  columns : list str;
  key_columns : list str;
  source_rows : list (list json);
  target_rows : list (list json);
}.

Record DataCompareChangedCell := {
  cell_column : str;
  cell_source : json;
  cell_target : json;
}.

Record DataCompareRow := {
  row_key : str;
  row_key_values : gmap str json;
  row_values : gmap str json;
}.

Record DataCompareModifiedRow := {
  mod_key : str;
  mod_key_values : gmap str json;
  mod_source_values : gmap str json;
  mod_target_values : gmap str json;
  mod_changes : list DataCompareChangedCell;
}.

Record DataCompareResult := {
  added : list DataCompareRow;
  removed : list DataCompareRow;
  modified : list DataCompareModifiedRow;
}.

#[export] Instance changed_cell_eq_dec : EqDecision DataCompareChangedCell.
Proof. solve_decision. Defined.
#[export] Instance compare_row_eq_dec : EqDecision DataCompareRow.
Proof. solve_decision. Defined.
#[export] Instance modified_row_eq_dec : EqDecision DataCompareModifiedRow.
Proof. solve_decision. Defined.
#[export] Instance compare_result_eq_dec : EqDecision DataCompareResult.
Proof. solve_decision. Defined.

(** [iter.collect::<HashMap<_, _>>()]: a later pair replaces an earlier one. *)
Definition collect_map {A} (l : list (str * A)) : gmap str A :=
  foldl (λ m kv, <[kv.1 := kv.2]> m) ∅ l.

(** ** Rows *)
Definition row_value (row : list json) (index : nat) : json := default JNull (row !! index).

Definition column_index_map (cols : list str) : gmap str nat :=
  collect_map (imap (λ index column, (column, index)) cols).

Definition row_object (cols : list str) (row : list json) : gmap str json :=
  collect_map (imap (λ index column, (column, row_value row index)) cols).

(** [row_object_owned]: the values are drawn from an iterator over the row. *)
Fixpoint row_object_owned_from (m : gmap str json) (cols : list str) (row_values : list json) : gmap str json :=
  match cols, row_values with
  | [], _ => m
  | column :: cols', [] => row_object_owned_from (<[column := JNull]> m) cols' []
  | column :: cols', value :: rest => row_object_owned_from (<[column := value]> m) cols' rest
  end.
Definition row_object_owned (cols : list str) (row : list json) : gmap str json :=
  row_object_owned_from ∅ cols row.

Definition value_for (row : gmap str json) (column : str) : json := default JNull (row !! column).

Definition normalize_row_len (row : list json) (column_len : nat) : list json :=
  if decide (length row < column_len) then row ++ replicate (column_len - length row) JNull else row.

(** The column separator of composite keys, U+001F. *)
Definition UNIT_SEPARATOR : str := [31%N].

Definition duplicate_key_error (label : str) (key_cols : list str) (key : str) : str :=
  let cols := join (lit ", ") key_cols in
  let key_display :=
    if decide (1 < length key_cols)
    then lit "[" ++ join (lit ", ") (split_char 31%N key) ++ lit "]"
    else key in
  lit "Duplicate " ++ label ++ lit " key for column(s) [" ++ cols ++ lit "]: " ++ key_display.

Definition no_key_error : str := lit "At least one key column is required for data comparison".

Definition key_values (row : gmap str json) (key_cols : list str) : gmap str json :=
  collect_map ((λ column, (column, value_for row column)) <$> key_cols).

Definition key_values_for_row (row : list json) (key_cols : list str) (indexes : gmap str nat) : gmap str json :=
  collect_map ((λ column, (column, default JNull (row_value row <$> indexes !! column))) <$> key_cols).

(** ** Maps collected from iterators *)
Lemma collect_map_snoc {A} (l : list (str * A)) k v : collect_map (l ++ [(k, v)]) = <[k := v]> (collect_map l).
Proof. unfold collect_map. by rewrite foldl_app. Qed.

Lemma collect_map_fmap {A B} (g : A → B) (l : list (str * A)) :
  collect_map ((λ p, (p.1, g p.2)) <$> l) = g <$> collect_map l.
Proof.
  induction l as [|[k v] l IH] using rev_ind; [done|].
  rewrite fmap_app. simpl. by rewrite !collect_map_snoc, IH, fmap_insert.
Qed.

Lemma collect_map_lookup_None {A} (l : list (str * A)) k : collect_map l !! k = None ↔ k ∉ l.*1.
Proof.
  induction l as [|[k' v] l IH] using rev_ind; [split; [intros _; apply not_elem_of_nil|done]|].
  rewrite collect_map_snoc, fmap_app, lookup_insert_None, IH. set_solver.
Qed.

Lemma collect_map_graph (f : str → json) (l : list str) k :
  collect_map ((λ c, (c, f c)) <$> l) !! k = if decide (k ∈ l) then Some (f k) else None.
Proof.
  induction l as [|c l IH] using rev_ind; [done|].
  rewrite fmap_app. simpl. rewrite collect_map_snoc, lookup_insert. destruct (decide (c = k)) as [->|Hk].
  - by rewrite decide_True by (clear IH; set_solver).
  - rewrite IH. destruct (decide (k ∈ l)); [by rewrite decide_True by (clear IH; set_solver)|by rewrite decide_False by (clear IH; set_solver)].
Qed.

Lemma row_object_lookup cols row c : row_object cols row !! c = row_value row <$> column_index_map cols !! c.
Proof.
  unfold row_object, column_index_map. rewrite <-lookup_fmap, <-collect_map_fmap, fmap_imap. done.
Qed.

Lemma value_for_row_object cols row c :
  value_for (row_object cols row) c = default JNull (row_value row <$> column_index_map cols !! c).
Proof. unfold value_for. by rewrite row_object_lookup. Qed.

Lemma column_index_map_None cols c : column_index_map cols !! c = None ↔ c ∉ cols.
Proof.
  unfold column_index_map. rewrite collect_map_lookup_None, fmap_imap.
  assert (imap (λ n, fst ∘ (λ column, (column, n))) cols = cols) as ->; [|done].
  apply list_eq; intros i. rewrite list_lookup_imap. by destruct (cols !! i).
Qed.

Lemma key_values_row_object cols key_cols row :
  key_values_for_row row key_cols (column_index_map cols) = key_values (row_object cols row) key_cols.
Proof.
  unfold key_values_for_row, key_values. f_equal. apply list_fmap_ext; intros i c _.
  by rewrite value_for_row_object.
Qed.

(** The two ways to build the record of a row agree. *)
Lemma row_object_owned_from_spec m cols row :
  row_object_owned_from m cols row =
  foldl (λ m kv, <[kv.1 := kv.2]> m) m (imap (λ i c, (c, row_value row i)) cols).
Proof.
  revert m row. induction cols as [|c cols IH]; intros m row; [done|].
  destruct row as [|v row]; simpl; rewrite IH; f_equal; apply imap_ext; intros; unfold row_value; simpl;
    by rewrite ?lookup_nil.
Qed.

Lemma row_object_owned_eq cols row : row_object_owned cols row = row_object cols row.
Proof. apply row_object_owned_from_spec. Qed.

Section compare.
(** [serde_json::to_string], whose failure the code replaces by [null]. *)
Context (to_string : json → option str).

Definition json_stringify (value : json) : str := default (lit "null") (to_string value).

Definition key_for (row : gmap str json) (key_cols : list str) : str :=
  join UNIT_SEPARATOR ((λ column, json_stringify (value_for row column)) <$> key_cols).

Definition key_for_row (row : list json) (key_cols : list str) (indexes : gmap str nat) : str :=
  join UNIT_SEPARATOR
    ((λ column, match indexes !! column with
                | Some index => json_stringify (row_value row index)
                | None => json_stringify JNull
                end) <$> key_cols).

(** ** Collecting one side *)
Fixpoint collect_loop (cols key_cols : list str) (indexes : gmap str nat) (label : str)
    (items : gmap str (list json)) (order : list str) (rows : list (list json)) :
    result (gmap str (list json) * list str) str :=
  match rows with
  | [] => Ok (items, order)
  | row :: rest =>
      let key := key_for_row row key_cols indexes in
      if decide (is_Some (items !! key)) then Err (duplicate_key_error label key_cols key)
      else collect_loop cols key_cols indexes label
             (<[key := normalize_row_len row (length cols)]> items) (order ++ [key]) rest
  end.

Definition collect_compare_rows (cols key_cols : list str) (indexes : gmap str nat)
    (rows : list (list json)) (label : str) : result (gmap str (list json) * list str) str :=
  collect_loop cols key_cols indexes label ∅ [] rows.

(** ** Comparing *)
Definition changed_cells (cols key_cols : list str) (indexes : gmap str nat)
    (source_values target_values : list json) : list DataCompareChangedCell :=
  omap (λ column,
    if decide (column ∈ key_cols) then None else
    index ← indexes !! column;
    let source_value := row_value source_values index in
    let target_value := row_value target_values index in
    if value_eqb source_value target_value then None
    else Some {| cell_column := column; cell_source := source_value; cell_target := target_value |}) cols.

Definition compare_row (cols key_cols : list str) (indexes : gmap str nat) (key : str) (values : list json) :
    DataCompareRow :=
  {| row_key := key; row_key_values := key_values_for_row values key_cols indexes;
     row_values := row_object cols values |}.

Definition modified_row (cols key_cols : list str) (indexes : gmap str nat) (key : str)
    (source_values target_values : list json) : option DataCompareModifiedRow :=
  match changed_cells cols key_cols indexes source_values target_values with
  | [] => None
  | changes =>
      Some {| mod_key := key; mod_key_values := key_values_for_row source_values key_cols indexes;
              mod_source_values := row_object cols source_values;
              mod_target_values := row_object cols target_values; mod_changes := changes |}
  end.

(** The loop over [source_order]; [None] is the panic of
    [expect("source key should exist")]. *)
Fixpoint source_loop (cols key_cols : list str) (indexes : gmap str nat)
    (source target : gmap str (list json)) (order : list str)
    (acc_added : list DataCompareRow) (acc_modified : list DataCompareModifiedRow) :
    option (list DataCompareRow * list DataCompareModifiedRow) :=
  match order with
  | [] => Some (acc_added, acc_modified)
  | key :: rest =>
      source_values ← source !! key;
      match target !! key with
      | None =>
          source_loop cols key_cols indexes source target rest
            (acc_added ++ [compare_row cols key_cols indexes key source_values]) acc_modified
      | Some target_values =>
          source_loop cols key_cols indexes source target rest acc_added
            (acc_modified ++ option_list (modified_row cols key_cols indexes key source_values target_values))
      end
  end.

Definition removed_rows (cols key_cols : list str) (indexes : gmap str nat)
    (source target : gmap str (list json)) (order : list str) : list DataCompareRow :=
  omap (λ key,
    if decide (is_Some (source !! key)) then None
    else compare_row cols key_cols indexes key <$> target !! key) order.

Definition compare_data_rows (options : CompareDataRowsOptions) : option (result DataCompareResult str) :=
  if decide (key_columns options = []) then Some (Err no_key_error) else
  let cols := columns options in
  let key_cols := key_columns options in
  let indexes := column_index_map cols in
  match collect_compare_rows cols key_cols indexes (source_rows options) (lit "source") with
  | Err e => Some (Err e)
  | Ok (source, source_order) =>
  match collect_compare_rows cols key_cols indexes (target_rows options) (lit "target") with
  | Err e => Some (Err e)
  | Ok (target, target_order) =>
      '(acc_added, acc_modified) ← source_loop cols key_cols indexes source target source_order [] [];
      Some (Ok {| added := acc_added;
                  removed := removed_rows cols key_cols indexes source target target_order;
                  modified := acc_modified |})
  end end.

(** [missing_target_diff]: every source row is an addition; without key
    columns the position is the key. *)
Definition missing_target_diff (cols key_cols : list str) (rows : list (list json)) : DataCompareResult :=
  {| added :=
       imap (λ index row,
         let values := row_object_owned cols row in
         let key := if decide (key_cols = []) then show_nat index else key_for values key_cols in
         {| row_key := key; row_key_values := key_values values key_cols; row_values := values |}) rows;
     removed := []; modified := [] |}.

(** ** The loops as list comprehensions *)
Definition key_of (o : CompareDataRowsOptions) (row : list json) : str :=
  key_for_row row (key_columns o) (column_index_map (columns o)).

Definition find_row (o : CompareDataRowsOptions) (key : str) (rows : list (list json)) : option (list json) :=
  snd <$> list_find (λ row, key_of o row = key) rows.

Definition compare_reference (o : CompareDataRowsOptions) : DataCompareResult :=
  let indexes := column_index_map (columns o) in
  let row_of row := compare_row (columns o) (key_columns o) indexes (key_of o row) row in
  {| added := row_of <$> filter (λ row, find_row o (key_of o row) (target_rows o) = None) (source_rows o);
     removed := row_of <$> filter (λ row, find_row o (key_of o row) (source_rows o) = None) (target_rows o);
     modified :=
       omap (λ row, find_row o (key_of o row) (target_rows o) ≫=
                    modified_row (columns o) (key_columns o) indexes (key_of o row) row) (source_rows o) |}.

Lemma key_for_row_object cols key_cols row :
  key_for_row row key_cols (column_index_map cols) = key_for (row_object cols row) key_cols.
Proof.
  unfold key_for_row, key_for. f_equal. apply list_fmap_ext; intros i c _.
  rewrite value_for_row_object. by destruct (column_index_map cols !! c).
Qed.

(** ** Padding is not observable *)
Lemma row_value_normalize row n i : row_value (normalize_row_len row n) i = row_value row i.
Proof.
  unfold normalize_row_len, row_value. case_decide as Hl; [|done].
  destruct (decide (i < length row)) as [Hi|Hi]; [by rewrite lookup_app_l|].
  rewrite lookup_app_r, (lookup_ge_None_2 row i) by lia.
  destruct (replicate _ _ !! _) eqn:E; [|done]. by apply lookup_replicate in E as [-> _].
Qed.

Lemma compare_row_normalize cols key_cols ix key row n :
  compare_row cols key_cols ix key (normalize_row_len row n) = compare_row cols key_cols ix key row.
Proof.
  unfold compare_row, key_values_for_row, row_object. f_equal; f_equal.
  - apply list_fmap_ext; intros ???. by destruct (ix !! _); simpl; rewrite ?row_value_normalize.
  - apply imap_ext; intros. by rewrite row_value_normalize.
Qed.

Lemma modified_row_normalize cols key_cols ix key source target n m :
  modified_row cols key_cols ix key (normalize_row_len source n) (normalize_row_len target m) =
  modified_row cols key_cols ix key source target.
Proof.
  unfold modified_row.
  assert (changed_cells cols key_cols ix (normalize_row_len source n) (normalize_row_len target m) =
          changed_cells cols key_cols ix source target) as ->.
  { unfold changed_cells. apply list_omap_ext, Forall_Forall2_diag, Forall_true. intros c.
    case_decide; [done|]. destruct (ix !! c); simpl; by rewrite ?row_value_normalize. }
  destruct (changed_cells _ _ _ _ _); [done|].
  pose proof (compare_row_normalize cols key_cols ix key source n) as Hs.
  pose proof (compare_row_normalize cols key_cols ix key target m) as Ht.
  injection Hs as -> ->. by injection Ht as _ ->.
Qed.

(** ** Collecting *)
Lemma find_row_None o key rows : find_row o key rows = None ↔ key ∉ key_of o <$> rows.
Proof.
  unfold find_row. rewrite fmap_None, list_find_None, Forall_forall, list_elem_of_fmap. naive_solver.
Qed.

Lemma find_row_Some o key rows row :
  find_row o key rows = Some row → row ∈ rows ∧ key_of o row = key.
Proof.
  unfold find_row. rewrite fmap_Some. intros ([i r] & Hf & ->).
  apply list_find_Some in Hf as (?%list_elem_of_lookup_2 & ? & _). done.
Qed.

Lemma find_row_here o row rows :
  NoDup (key_of o <$> rows) → row ∈ rows → find_row o (key_of o row) rows = Some row.
Proof.
  intros Hnd Hin. destruct (find_row o (key_of o row) rows) as [r|] eqn:E.
  - apply find_row_Some in E as [Hr Hk].
    apply list_elem_of_lookup in Hin as [i Hi], Hr as [j Hj].
    assert (i = j) as -> by (eapply (NoDup_lookup (key_of o <$> rows));
      [done|rewrite list_lookup_fmap, Hi; done|rewrite list_lookup_fmap, Hj; simpl; congruence]).
    congruence.
  - apply find_row_None in E. destruct E. by apply list_elem_of_fmap_2.
Qed.

Definition collected (o : CompareDataRowsOptions) (rows : list (list json)) (items : gmap str (list json)) : Prop :=
  ∀ key, items !! key = (λ row, normalize_row_len row (length (columns o))) <$> find_row o key rows.

Lemma collected_snoc o rows row items :
  collected o rows items → key_of o row ∉ key_of o <$> rows →
  collected o (rows ++ [row]) (<[key_of o row := normalize_row_len row (length (columns o))]> items).
Proof.
  intros Hc Hn key. rewrite lookup_insert. specialize (Hc key). unfold find_row in *.
  case_decide as Hk.
  - subst key. apply find_row_None, fmap_None in Hn. rewrite list_find_app_r by done.
    simpl. by rewrite decide_True.
  - rewrite Hc. destruct (list_find _ rows) as [[i r]|] eqn:E.
    + by rewrite (list_find_app_l _ _ _ i r).
    + rewrite list_find_app_r by done. simpl. by rewrite decide_False.
Qed.

(** What the loop returns after [done] rows, whose keys are pairwise
    different, were collected. *)
Lemma collect_loop_spec o label done_ rows items :
  collected o done_ items → NoDup (key_of o <$> done_) →
  match collect_loop (columns o) (key_columns o) (column_index_map (columns o)) label items
          (key_of o <$> done_) rows with
  | Ok (items', order) =>
      NoDup (key_of o <$> done_ ++ rows) ∧ order = key_of o <$> done_ ++ rows ∧ collected o (done_ ++ rows) items'
  | Err e => ∃ i j key, i < j ∧ (key_of o <$> done_ ++ rows) !! i = Some key ∧
               (key_of o <$> done_ ++ rows) !! j = Some key ∧ e = duplicate_key_error label (key_columns o) key
  end.
Proof.
  revert done_ items. induction rows as [|row rows IH]; intros done_ items Hc Hnd; simpl.
  { by rewrite app_nil_r. }
  fold (key_of o row). rewrite (Hc (key_of o row)). case_decide as Hd.
  - apply fmap_is_Some in Hd as [r Hr]. apply find_row_Some in Hr as [Hin Hk].
    apply list_elem_of_lookup in Hin as [i Hi].
    exists i, (length done_), (key_of o row). split_and!; [by eapply lookup_lt_Some| | |done];
      rewrite list_lookup_fmap.
    + rewrite lookup_app_l by (by eapply lookup_lt_Some). rewrite Hi. simpl. congruence.
    + by rewrite list_lookup_middle.
  - assert (key_of o row ∉ key_of o <$> done_) as Hn.
    { apply find_row_None. by destruct (find_row o (key_of o row) done_); [destruct Hd|]. }
    specialize (IH (done_ ++ [row]) (<[key_of o row := normalize_row_len row (length (columns o))]> items)).
    rewrite fmap_app, <-app_assoc in IH. apply IH; [by apply collected_snoc|].
    apply NoDup_app. split_and!; [done|set_solver|apply NoDup_singleton].
Qed.

(** ** Comparing *)
Definition row_of (o : CompareDataRowsOptions) (row : list json) : DataCompareRow :=
  compare_row (columns o) (key_columns o) (column_index_map (columns o)) (key_of o row) row.

Lemma sub_head {A} (x : A) l k : x :: l ⊆ k → x ∈ k.
Proof. intros Hs. apply Hs. by left. Qed.
Lemma sub_tail {A} (x : A) l k : x :: l ⊆ k → l ⊆ k.
Proof. intros Hs y Hy. apply Hs. by right. Qed.

Lemma source_loop_spec o source target rows acc_a acc_m :
  collected o (source_rows o) source → collected o (target_rows o) target →
  NoDup (key_of o <$> source_rows o) → rows ⊆ source_rows o →
  source_loop (columns o) (key_columns o) (column_index_map (columns o)) source target
    (key_of o <$> rows) acc_a acc_m =
  Some (acc_a ++ (row_of o <$> filter (λ row, find_row o (key_of o row) (target_rows o) = None) rows),
        acc_m ++ omap (λ row, find_row o (key_of o row) (target_rows o) ≫=
                   modified_row (columns o) (key_columns o) (column_index_map (columns o)) (key_of o row) row) rows).
Proof.
  intros Hs Ht Hnd. revert acc_a acc_m. induction rows as [|row rows IH]; intros acc_a acc_m Hsub; simpl.
  { by rewrite !app_nil_r. }
  rewrite Hs, Ht, (find_row_here o row (source_rows o)) by first [done | by eapply sub_head]. simpl. rewrite filter_cons.
  destruct (find_row o (key_of o row) (target_rows o)) as [t|]; simpl.
  - rewrite IH by (by eapply sub_tail). rewrite modified_row_normalize, <-app_assoc.
    by destruct (modified_row _ _ _ _ _ _).
  - rewrite IH by (by eapply sub_tail). by rewrite compare_row_normalize, <-app_assoc.
Qed.

Lemma removed_rows_spec o source target rows :
  collected o (source_rows o) source → collected o (target_rows o) target →
  NoDup (key_of o <$> target_rows o) → rows ⊆ target_rows o →
  removed_rows (columns o) (key_columns o) (column_index_map (columns o)) source target (key_of o <$> rows) =
  row_of o <$> filter (λ row, find_row o (key_of o row) (source_rows o) = None) rows.
Proof.
  intros Hs Ht Hnd. induction rows as [|row rows IH]; intros Hsub; [done|].
  unfold removed_rows in *. rewrite filter_cons. csimpl. rewrite Hs, Ht, (find_row_here o row (target_rows o)) by first [done | by eapply sub_head].
  rewrite IH by (by eapply sub_tail). destruct (find_row o (key_of o row) (source_rows o)); simpl.
  - done.
  - by rewrite compare_row_normalize.
Qed.

Definition distinct_keys (o : CompareDataRowsOptions) : Prop :=
  NoDup (key_of o <$> source_rows o) ∧ NoDup (key_of o <$> target_rows o).

Lemma compare_data_rows_cases o :
  match compare_data_rows o with
  | None => False
  | Some (Ok d) => key_columns o ≠ [] ∧ distinct_keys o ∧ d = compare_reference o
  | Some (Err e) =>
      (key_columns o = [] ∧ e = no_key_error) ∨
      (∃ label rows i j key, (label, rows) ∈ [(lit "source", source_rows o); (lit "target", target_rows o)] ∧
         i < j ∧ (key_of o <$> rows) !! i = Some key ∧ (key_of o <$> rows) !! j = Some key ∧
         e = duplicate_key_error label (key_columns o) key)
  end.
Proof.
  unfold compare_data_rows. case_decide as Hk; [by left|].
  assert (Hempty : collected o [] ∅) by done. assert (Hnil : NoDup (key_of o <$> [])) by constructor.
  pose proof (collect_loop_spec o (lit "source") [] (source_rows o) ∅ Hempty Hnil) as Hs.
  pose proof (collect_loop_spec o (lit "target") [] (target_rows o) ∅ Hempty Hnil) as Ht.
  unfold collect_compare_rows. simpl fmap in *. simpl app in *.
  destruct (collect_loop _ _ _ (lit "source") _ _ _) as [[source so]|e].
  2:{ right. destruct Hs as (i & j & key & ?). exists (lit "source"), (source_rows o), i, j, key.
      split; [set_solver|done]. }
  destruct (collect_loop _ _ _ (lit "target") _ _ _) as [[target to]|e].
  2:{ right. destruct Ht as (i & j & key & ?). exists (lit "target"), (target_rows o), i, j, key.
      split; [set_solver|done]. }
  destruct Hs as (Hsn & -> & Hs), Ht as (Htn & -> & Ht).
  rewrite (source_loop_spec o source target) by done. simpl.
  rewrite (removed_rows_spec o source target) by done. done.
Qed.

(** A repeated key is a violation of [distinct_keys]. *)
Lemma repeated_key_not_distinct {A} (f : A → str) (l : list A) i j key :
  i < j → (f <$> l) !! i = Some key → (f <$> l) !! j = Some key → ¬ NoDup (f <$> l).
Proof. intros Hij Hi Hj Hnd. pose proof (NoDup_lookup _ _ _ _ Hnd Hi Hj). lia. Qed.

Lemma compare_data_rows_ok o :
  key_columns o ≠ [] → distinct_keys o → compare_data_rows o = Some (Ok (compare_reference o)).
Proof.
  intros Hk [Hs Ht]. pose proof (compare_data_rows_cases o) as Hc.
  destruct (compare_data_rows o) as [[d|e]|]; [|exfalso|done].
  - by destruct Hc as (_ & _ & ->).
  - destruct Hc as [[? _]|(l & rows & i & j & key & Hin & Hij & Hi & Hj & _)]; [done|].
    pose proof (repeated_key_not_distinct _ _ _ _ _ Hij Hi Hj). set_solver.
Qed.

(** ** The specification

    A cell of a row by the name of its column: the last of the columns of that
    name counts, and cells that are missing are NULL. *)
Fixpoint value_at (cols : list str) (row : list json) (c : str) : option json :=
  match cols with
  | [] => None
  | c' :: cols' =>
      match value_at cols' (tail row) c with
      | Some v => Some v
      | None => if decide (c = c') then Some (default JNull (head row)) else None
      end
  end.
Definition named_cell (o : CompareDataRowsOptions) (row : list json) (c : str) : json := default JNull (value_at (columns o) row c).
Definition record_on (names : list str) (f : str → json) : gmap str json := list_to_map ((λ c, (c, f c)) <$> names).
Definition text_key (o : CompareDataRowsOptions) (row : list json) : str :=
  join UNIT_SEPARATOR ((λ c, json_stringify (named_cell o row c)) <$> key_columns o).
Definition reported_row (o : CompareDataRowsOptions) (row : list json) : DataCompareRow :=
  {| row_key := text_key o row; row_key_values := record_on (key_columns o) (named_cell o row); row_values := record_on (columns o) (named_cell o row) |}.
(** The columns outside of the key whose cells are not equal, in order. *)
Definition differing_cells (o : CompareDataRowsOptions) (source target : list json) : list DataCompareChangedCell :=
  (λ c, {| cell_column := c; cell_source := named_cell o source c; cell_target := named_cell o target c |}) <$>
  filter (λ c, c ∉ key_columns o ∧ value_eqb (named_cell o source c) (named_cell o target c) = false) (columns o).
Definition matching_row (o : CompareDataRowsOptions) (row : list json) (rows : list (list json)) : option (list json) :=
  head (filter (λ r, text_key o r = text_key o row) rows).
Definition reported_change (o : CompareDataRowsOptions) (source target : list json) : option DataCompareModifiedRow :=
  if decide (differing_cells o source target = []) then None else
  Some {| mod_key := text_key o source; mod_key_values := record_on (key_columns o) (named_cell o source);
          mod_source_values := record_on (columns o) (named_cell o source); mod_target_values := record_on (columns o) (named_cell o target);
          mod_changes := differing_cells o source target |}.
Definition compare_specification (o : CompareDataRowsOptions) : DataCompareResult :=
  {| added := reported_row o <$> filter (λ row, matching_row o row (target_rows o) = None) (source_rows o);
     removed := reported_row o <$> filter (λ row, matching_row o row (source_rows o) = None) (target_rows o);
     modified := omap (λ row, matching_row o row (target_rows o) ≫= reported_change o row) (source_rows o) |}.

Lemma row_object_owned_lookup m cols row c :
  row_object_owned_from m cols row !! c = match value_at cols row c with Some v => Some v | None => m !! c end.
Proof.
  revert m row. induction cols as [| c' cols IH]; intros m row; [done |].
  destruct row as [| v row]; cbn [row_object_owned_from value_at tail head]; rewrite IH;
    destruct (value_at cols _ c); try done; rewrite lookup_insert; repeat case_decide; simplify_eq; done.
Qed.
Lemma value_at_index cols row c : value_at cols row c = row_value row <$> column_index_map cols !! c.
Proof.
  rewrite <- row_object_lookup, <- row_object_owned_eq. unfold row_object_owned.
  rewrite row_object_owned_lookup, lookup_empty. by destruct (value_at cols row c).
Qed.
Lemma record_on_lookup names f c : record_on names f !! c = if decide (c ∈ names) then Some (f c) else None.
Proof.
  unfold record_on. induction names as [| n names IH]; [done |]. cbn [fmap list_fmap list_to_map foldr uncurry fst snd].
  rewrite lookup_insert, IH. destruct (decide (n = c)) as [-> | Hn]; [by rewrite decide_True by left |].
  destruct (decide (c ∈ names)); [by rewrite decide_True by (by right) | by rewrite decide_False by set_solver].
Qed.
Lemma record_of_row o row : row_object (columns o) row = record_on (columns o) (named_cell o row).
Proof.
  apply map_eq. intros c. rewrite record_on_lookup, row_object_lookup. unfold named_cell. rewrite value_at_index. case_decide as Hc.
  - destruct (column_index_map (columns o) !! c) eqn:E; [done |]. by apply column_index_map_None in E.
  - apply column_index_map_None in Hc as ->. done.
Qed.
Lemma record_of_key o row : key_values_for_row row (key_columns o) (column_index_map (columns o)) = record_on (key_columns o) (named_cell o row).
Proof.
  rewrite key_values_row_object. unfold key_values. apply map_eq. intros c.
  rewrite collect_map_graph, record_on_lookup. case_decide; [| done]. unfold named_cell. by rewrite value_for_row_object, value_at_index.
Qed.
Lemma key_of_text o row : key_of o row = text_key o row.
Proof.
  unfold key_of, key_for_row, text_key. f_equal. apply list_fmap_ext. intros _ c _. unfold named_cell. rewrite value_at_index.
  by destruct (column_index_map (columns o) !! c).
Qed.
Lemma find_row_matching o row rows : find_row o (key_of o row) rows = matching_row o row rows.
Proof.
  unfold find_row, matching_row. induction rows as [| r rows IH]; [done |]. cbn [list_find]. rewrite filter_cons.
  destruct (decide (key_of o r = key_of o row)) as [Hk | Hk]; rewrite !key_of_text in Hk.
  - by rewrite decide_True.
  - rewrite decide_False by done. rewrite <- IH. by destruct (list_find _ rows) as [[] |].
Qed.
Lemma changed_cells_differ o source target :
  changed_cells (columns o) (key_columns o) (column_index_map (columns o)) source target = differing_cells o source target.
Proof.
  unfold changed_cells, differing_cells.
  match goal with |- omap ?f _ = ?g <$> filter ?P _ =>
    set (step := f); assert (∀ cols, cols ⊆ columns o → omap step cols = g <$> filter P cols) as Hall; [| by apply Hall] end.
  induction cols as [| c cols IH]; intros Hsub; [done |]. csimpl. rewrite filter_cons, IH by (by eapply sub_tail). unfold step.
  destruct (column_index_map (columns o) !! c) as [i |] eqn:E; [| apply column_index_map_None in E; by destruct E; eapply sub_head].
  assert (∀ row, named_cell o row c = row_value row i) as Hcell by (intros; unfold named_cell; by rewrite value_at_index, E).
  rewrite !Hcell. destruct (decide (c ∈ key_columns o)) as [Hk | Hk]; [by rewrite decide_False by tauto |]. cbn [mbind option_bind].
  destruct (value_eqb _ _) eqn:Ev; [rewrite decide_False by (intros []; congruence) | rewrite decide_True by done]; [done |].
  csimpl. by rewrite !Hcell.
Qed.
Lemma reference_is_the_specification o : compare_reference o = compare_specification o.
Proof.
  assert (∀ row, row_of o row = reported_row o row) as Hrow.
  { intros row. unfold row_of, compare_row, reported_row. by rewrite key_of_text, record_of_key, record_of_row. }
  unfold compare_reference, compare_specification. f_equal.
  - erewrite list_fmap_ext by (intros; apply Hrow). f_equal. apply list_filter_iff. intros row. by rewrite find_row_matching.
  - erewrite list_fmap_ext by (intros; apply Hrow). f_equal. apply list_filter_iff. intros row. by rewrite find_row_matching.
  - apply list_omap_ext, Forall_Forall2_diag, Forall_true. intros row. rewrite find_row_matching.
    destruct (matching_row o row (target_rows o)) as [target |]; [| done]. cbn [mbind option_bind].
    unfold modified_row, reported_change. rewrite changed_cells_differ.
    case_decide as Hd; [by rewrite Hd |]. rewrite record_of_key, !record_of_row, key_of_text. by destruct (differing_cells o row target).
Qed.

(** C26: compare_data_rows, with its hash maps, column indexes and loops, succeeds exactly when
    there is a key column and the texts of the keys are distinct on both sides. It then returns, in
    the order of the tables, the rows whose key only the source has, those whose key only the target
    has, and the pairs with the same key that differ: for these exactly the columns outside of the
    key, in order, whose two cells are not equal, with both cells, and the two whole rows by column
    name. A cell is the one under the last column of its name, NULL where the row is too short. *)
Theorem compare_matches_specification o d :
  compare_data_rows o = Some (Ok d) ↔
  key_columns o ≠ [] ∧ NoDup (text_key o <$> source_rows o) ∧ NoDup (text_key o <$> target_rows o) ∧ d = compare_specification o.
Proof.
  rewrite <- reference_is_the_specification.
  assert (∀ rows, text_key o <$> rows = key_of o <$> rows) as Hk by (intros; apply list_fmap_ext; intros; by rewrite key_of_text).
  rewrite !Hk. pose proof (compare_data_rows_cases o) as Hc. split.
  - intros E. rewrite E in Hc. destruct Hc as (? & [? ?] & ?). done.
  - intros (Hn & Hs & Ht & ->). by apply compare_data_rows_ok.
Qed.

(** C38: Every comparison returns; it fails only without key columns or with the error that names a
    side, the key columns and a key that occurs at two positions of that side. *)
Theorem compare_errors_name_the_duplicate o :
  (∃ d, compare_data_rows o = Some (Ok d)) ∨
  (key_columns o = [] ∧ compare_data_rows o = Some (Err no_key_error)) ∨
  (∃ label rows i j key, (label, rows) ∈ [(lit "source", source_rows o); (lit "target", target_rows o)] ∧
     i < j ∧ (key_of o <$> rows) !! i = Some key ∧ (key_of o <$> rows) !! j = Some key ∧
     compare_data_rows o = Some (Err (duplicate_key_error label (key_columns o) key))).
Proof.
  pose proof (compare_data_rows_cases o) as Hc.
  destruct (compare_data_rows o) as [[d|e]|]; [eauto| |done].
  destruct Hc as [[? ->]|(l & rows & i & j & key & Hin & Hij & Hi & Hj & ->)]; [by eauto|].
  right; right. by exists l, rows, i, j, key.
Qed.

(** A missing target is the comparison against an empty one. *)
Lemma missing_target_reference o :
  key_columns o ≠ [] → target_rows o = [] →
  missing_target_diff (columns o) (key_columns o) (source_rows o) = compare_reference o.
Proof.
  intros Hk Ht. unfold missing_target_diff, compare_reference. rewrite Ht. f_equal.
  - rewrite filter_all by done. rewrite <-imap_const. apply imap_ext. intros i row _. simpl.
    rewrite decide_False by done. unfold compare_row, key_of.
    by rewrite row_object_owned_eq, key_for_row_object, key_values_row_object.
  - by induction (source_rows o).
Qed.

(** ** The shape of a result *)
Lemma dom_collect_map {A} (l : list (str * A)) : dom (collect_map l) = list_to_set (C := gset str) l.*1.
Proof.
  apply set_eq. intros k. rewrite elem_of_dom, elem_of_list_to_set, <-not_eq_None_Some.
  rewrite (collect_map_lookup_None l k). destruct (decide (k ∈ l.*1)); tauto.
Qed.

Lemma dom_row_object cols row : dom (row_object cols row) = list_to_set (C := gset str) cols.
Proof.
  unfold row_object. rewrite dom_collect_map, fmap_imap. f_equal.
  apply list_eq; intros i. rewrite list_lookup_imap. by destruct (cols !! i).
Qed.

Lemma dom_key_values row key_cols ix : dom (key_values_for_row row key_cols ix) = list_to_set (C := gset str) key_cols.
Proof. unfold key_values_for_row. rewrite dom_collect_map, <-list_fmap_compose. f_equal. apply list_fmap_id. Qed.

Definition well_typed_row (o : CompareDataRowsOptions) (r : DataCompareRow) : Prop :=
  dom (row_values r) = list_to_set (C := gset str) (columns o) ∧
  dom (row_key_values r) = list_to_set (C := gset str) (key_columns o).

Definition well_typed_change (o : CompareDataRowsOptions) (m : DataCompareModifiedRow) (c : DataCompareChangedCell) : Prop :=
  cell_column c ∈ columns o ∧ cell_column c ∉ key_columns o ∧
  mod_source_values m !! cell_column c = Some (cell_source c) ∧
  mod_target_values m !! cell_column c = Some (cell_target c) ∧
  value_eqb (cell_source c) (cell_target c) = false.

Definition well_typed_modified (o : CompareDataRowsOptions) (m : DataCompareModifiedRow) : Prop :=
  dom (mod_source_values m) = list_to_set (C := gset str) (columns o) ∧
  dom (mod_target_values m) = list_to_set (C := gset str) (columns o) ∧
  dom (mod_key_values m) = list_to_set (C := gset str) (key_columns o) ∧
  mod_changes m ≠ [] ∧ Forall (well_typed_change o m) (mod_changes m).

Lemma modified_row_well_typed o key source target m :
  modified_row (columns o) (key_columns o) (column_index_map (columns o)) key source target = Some m →
  well_typed_modified o m.
Proof.
  unfold modified_row. destruct (changed_cells _ _ _ _ _) as [|c l] eqn:E; [done|]. intros [= <-].
  split_and!; simpl; [apply dom_row_object..|apply dom_key_values|done|]. rewrite <-E. apply Forall_forall.
  intros ch (column & Hc & Hch)%list_elem_of_omap. case_decide as Hk; [done|].
  destruct (column_index_map (columns o) !! column) as [i|] eqn:Ei; [|done]. simpl in Hch.
  destruct (value_eqb _ _) eqn:Ev; [done|]. injection Hch as <-. unfold well_typed_change. simpl.
  rewrite !row_object_lookup, Ei. done.
Qed.

(** C37: In a successful comparison every reported row has exactly the requested columns and key
    columns, and every modified row has at least one change, each of a non-key column, with the two
    values its rows hold there, which differ. *)
Theorem compare_result_is_well_typed o d :
  compare_data_rows o = Some (Ok d) →
  Forall (well_typed_row o) (added d) ∧ Forall (well_typed_row o) (removed d) ∧
  Forall (well_typed_modified o) (modified d).
Proof.
  intros E. pose proof (compare_data_rows_cases o) as Hc. rewrite E in Hc. destruct Hc as (_ & _ & ->).
  split_and!; cbn [compare_reference added removed modified].
  1,2: apply Forall_fmap, Forall_true; intros row; split; [apply dom_row_object|apply dom_key_values].
  apply Forall_forall. intros m (row & _ & (t & _ & Hm)%bind_Some)%list_elem_of_omap.
  by eapply modified_row_well_typed.
Qed.

End compare.

(** Two rows against two: one is added, one is removed, one differs. *)
Definition number (s : string) : json := JNumber (lit s).
Definition show_number (v : json) : option str := match v with JNumber t => Some t | _ => None end.
Definition example_options : CompareDataRowsOptions :=
  {| columns := [lit "id"; lit "n"]; key_columns := [lit "id"];
     source_rows := [[number "1"; number "5"]; [number "2"; number "6"]];
     target_rows := [[number "2"; number "7"]; [number "3"]] |}.

Lemma compare_result_is_well_typed_witness :
  let d := compare_reference show_number example_options in
  Forall (well_typed_row example_options) (added d) ∧ Forall (well_typed_row example_options) (removed d) ∧
  Forall (well_typed_modified example_options) (modified d).
Proof. apply (compare_result_is_well_typed show_number). vm_compute. reflexivity. Defined.
