(* ===== verification/SyncPlan.v ===== *)
(** The synchronisation plan of [data_compare.rs]: the INSERT, UPDATE and
    DELETE statements that make a target table agree with the source.  A
    statement is kept as a term with its text ([statement_sql]), so that an
    abstract database can execute it; the refinement theorem runs the plan of
    [prepare_data_compare] on the target table and compares the outcome with
    the source table. *)
From S2P Require Import Prelude StateStore SqlDialect Json Identifiers GridColumns RowCompare.
Local Open Scope dbx_scope.

Definition DATA_SYNC_INSERT_BATCH_SIZE : nat := 500.
Definition DATA_SYNC_CONDITION_BATCH_SIZE : nat := 200.

Definition column_info_for (infos : list DataGridColumnInfo) (name : str) : option DataGridColumnInfo :=
  let normalized := to_ascii_lowercase name in
  List.find (λ column, bool_decide (to_ascii_lowercase (info_name column) = normalized)) infos.

Definition is_non_identity_generated_column (column_info : option DataGridColumnInfo) : bool :=
  let text := to_ascii_lowercase (default [] (column_info ≫= extra)) in
  str_contains (lit "generated always as") text && negb (str_contains (lit "identity") text).

Definition has_writable_changes (row : DataCompareModifiedRow) (infos : list DataGridColumnInfo) : bool :=
  existsb (λ change, negb (is_non_identity_generated_column (column_info_for infos (cell_column change))))
    (mod_changes row).

(** ** Statements *)

(** [column = literal AND ...] over the key columns. *)
Abbreviation condition := (list (str * json)) (only parsing).

Inductive sync_statement :=
| InsertDefaultValues
| InsertRows (cols : list str) (rows : list (list json))
| UpdateRow (assignments : list (str * json)) (key : condition)
| UpdateCases (assignments : list (str * list (condition * json))) (keys : list condition)
| DeleteRows (keys : list condition).

Definition where_by_key (key_vals : gmap str json) (key_cols : list str) : condition :=
  (λ column, (column, value_for key_vals column)) <$> key_cols.

(** [slice.par_chunks(n)]: consecutive pieces of [n], the last one shorter. *)
Fixpoint chunks_fuel {A} (fuel n : nat) (l : list A) : list (list A) :=
  match fuel, l with
  | 0, _ | _, [] => []
  | S fuel', _ => take n l :: chunks_fuel fuel' n (drop n l)
  end.
Definition par_chunks {A} (n : nat) (l : list A) : list (list A) := chunks_fuel (length l) n l.

Section generate.
Context (cols key_cols : list str) (infos : list DataGridColumnInfo).

Definition writable (column : str) : bool := negb (is_non_identity_generated_column (column_info_for infos column)).
Definition writable_columns : list str := filter (λ column, writable column = true) cols.

Definition insert_row (row : DataCompareRow) : list json := value_for (row_values row) <$> writable_columns.

Definition generate_insert_sync_statements (diff : DataCompareResult) : list sync_statement :=
  if decide (writable_columns = []) then const InsertDefaultValues <$> added diff
  else (λ chunk, InsertRows writable_columns (insert_row <$> chunk)) <$>
         par_chunks DATA_SYNC_INSERT_BATCH_SIZE (added diff).

Definition generate_single_update_statement (row : DataCompareModifiedRow) : sync_statement :=
  UpdateRow
    ((λ change, (cell_column change, cell_source change)) <$>
       filter (λ change, writable (cell_column change) = true) (mod_changes row))
    (where_by_key (mod_key_values row) key_cols).

Definition change_of (column : str) (row : DataCompareModifiedRow) : option DataCompareChangedCell :=
  List.find (λ change, bool_decide (cell_column change = column)) (mod_changes row).

Definition changed_columns (chunk : list DataCompareModifiedRow) : list str :=
  filter (λ column, existsb (λ row, existsb (λ change, bool_decide (cell_column change = column))
                                      (mod_changes row)) chunk = true) writable_columns.

Definition column_cases (chunk : list DataCompareModifiedRow) (column : str) : list (condition * json) :=
  omap (λ row, change ← change_of column row;
               Some (where_by_key (mod_key_values row) key_cols, cell_source change)) chunk.

Definition update_chunk (chunk : list DataCompareModifiedRow) : list sync_statement :=
  match chunk with
  | [row] => [generate_single_update_statement row]
  | _ =>
      if decide (changed_columns chunk = []) then []
      else [UpdateCases ((λ column, (column, column_cases chunk column)) <$> changed_columns chunk)
              ((λ row, where_by_key (mod_key_values row) key_cols) <$> chunk)]
  end.

Definition writable_rows (diff : DataCompareResult) : list DataCompareModifiedRow :=
  filter (λ row, has_writable_changes row infos = true) (modified diff).

Definition generate_update_sync_statements (diff : DataCompareResult) : list sync_statement :=
  par_chunks DATA_SYNC_CONDITION_BATCH_SIZE (writable_rows diff) ≫= update_chunk.

Definition generate_delete_sync_statements (diff : DataCompareResult) : list sync_statement :=
  (λ chunk, DeleteRows ((λ row, where_by_key (row_key_values row) key_cols) <$> chunk)) <$>
    par_chunks DATA_SYNC_CONDITION_BATCH_SIZE (removed diff).

Definition generate_data_sync_statements (diff : DataCompareResult) : list sync_statement :=
  generate_insert_sync_statements diff ++ generate_update_sync_statements diff ++
  generate_delete_sync_statements diff.
End generate.

(** ** Text *)
Section text.
Context (percent_decode : str → option str).
(** [data_grid_sql::format_grid_sql_literal] *)
Context (format_grid_sql_literal : json → option DatabaseType.t → option DataGridColumnInfo → str).
Context (database_type : option DatabaseType.t) (infos : list DataGridColumnInfo).

Definition column_literal (column : str) (value : json) : str :=
  format_grid_sql_literal value database_type (column_info_for infos column).

Definition condition_sql (key : condition) : str :=
  join (lit " AND ")
    ((λ cv : str * json, quote_table_identifier database_type cv.1 ++ lit " = " ++ column_literal cv.1 cv.2) <$> key).

Definition statement_sql (table : str) (s : sync_statement) : str :=
  let any keys := join (lit " OR ") ((λ key : condition, lit "(" ++ condition_sql key ++ lit ")") <$> keys) in
  match s with
  | InsertDefaultValues => lit "INSERT INTO " ++ table ++ lit " DEFAULT VALUES;"
  | InsertRows cols rows =>
      let names := join (lit ", ") (quote_table_identifier database_type <$> cols) in
      let values := join (lit ", ")
        ((λ row, lit "(" ++ join (lit ", ") (zip_with column_literal cols row) ++ lit ")") <$> rows) in
      lit "INSERT INTO " ++ table ++ lit " (" ++ names ++ lit ") VALUES " ++ values ++ lit ";"
  | UpdateRow assignments key =>
      let sets := join (lit ", ")
        ((λ cv : str * json, quote_table_identifier database_type cv.1 ++ lit " = " ++ column_literal cv.1 cv.2)
           <$> assignments) in
      lit "UPDATE " ++ table ++ lit " SET " ++ sets ++ lit " WHERE " ++ condition_sql key ++ lit ";"
  | UpdateCases assignments keys =>
      let case column (kv : condition * json) :=
        lit "WHEN " ++ condition_sql kv.1 ++ lit " THEN " ++ column_literal column kv.2 in
      let sets := join (lit ", ")
        ((λ cc : str * list (condition * json),
            let quoted_column := quote_table_identifier database_type cc.1 in
            quoted_column ++ lit " = CASE " ++ join (lit " ") (case cc.1 <$> cc.2) ++
            lit " ELSE " ++ quoted_column ++ lit " END") <$> assignments) in
      lit "UPDATE " ++ table ++ lit " SET " ++ sets ++ lit " WHERE " ++ any keys ++ lit ";"
  | DeleteRows [key] => lit "DELETE FROM " ++ table ++ lit " WHERE " ++ condition_sql key ++ lit ";"
  | DeleteRows keys => lit "DELETE FROM " ++ table ++ lit " WHERE " ++ any keys ++ lit ";"
  end.
End text.

(** ** Plans *)
Record DataCompareSyncPlanTable := {
  table_name : str;
  schema : option str;
  plan_columns : list str;
  plan_key_columns : list str;
  column_info : list DataGridColumnInfo;
  diff : DataCompareResult;
  database_type : option DatabaseType.t;
  pre_sync_statements : list str;
}.

Record DataCompareSyncPlan := {
  insert_count : nat;
  update_count : nat;
  delete_count : nat;
  statement_count : nat;
  sync_statements : list str;
  sync_sql : str;
}.

Record DataComparePreparation := {
  prep_result : DataCompareResult;
  prep_sync_statements : list str;
  prep_sync_sql : str;
}.

Section plan.
Context (percent_decode : str → option str).
Context (format_grid_sql_literal : json → option DatabaseType.t → option DataGridColumnInfo → str).

Definition table_statements (t : DataCompareSyncPlanTable) : list sync_statement :=
  generate_data_sync_statements (plan_columns t) (plan_key_columns t) (column_info t) (diff t).

Definition table_sync_sql (t : DataCompareSyncPlanTable) : list str :=
  let table := qualified_table_name percent_decode (database_type t) (schema t) (table_name t) in
  pre_sync_statements t ++
  (statement_sql format_grid_sql_literal (database_type t) (column_info t) table <$> table_statements t).

Definition build_data_compare_sync_plan (tables : list DataCompareSyncPlanTable) : DataCompareSyncPlan :=
  let statements := tables ≫= table_sync_sql in
  {| insert_count := sum_list ((λ t, length (added (diff t))) <$> tables);
     update_count := sum_list ((λ t, length (filter (λ row, has_writable_changes row (column_info t) = true)
                                                (modified (diff t)))) <$> tables);
     delete_count := sum_list ((λ t, length (removed (diff t))) <$> tables);
     statement_count := length statements;
     sync_statements := statements;
     sync_sql := join [NL] statements |}.

Definition prepare_data_compare (to_string : json → option str) (o : CompareDataRowsOptions)
    (name : str) (schema_name : option str) (infos : list DataGridColumnInfo) (d : option DatabaseType.t) :
    option (result DataComparePreparation str) :=
  r ← compare_data_rows to_string o;
  Some (let? result := r in
        let plan := build_data_compare_sync_plan
          [{| table_name := name; schema := schema_name; plan_columns := columns o;
              plan_key_columns := key_columns o; column_info := infos; diff := result;
              database_type := d; pre_sync_statements := [] |}] in
        Ok {| prep_result := result; prep_sync_statements := sync_statements plan;
              prep_sync_sql := sync_sql plan |}).
End plan.

(** The two definitions of a generated column differ: a MySQL column whose
    extra is [VIRTUAL GENERATED] or [STORED GENERATED] is written by the plan. *)
Theorem generated_columns_disagree :
  let info := {| info_name := lit "total"; data_type := lit "int"; is_nullable := true; is_primary_key := false;
                 column_default := None; extra := Some (lit "STORED GENERATED") |} in
  GridColumns.is_non_identity_generated_column (Some info) = true ∧
  is_non_identity_generated_column (Some info) = false ∧ writable [info] (lit "total") = true.
Proof. by vm_compute. Qed.

(** ** Batches *)
Definition batches (count size : nat) : nat := (count + (size - 1)) / size.

Lemma length_chunks_fuel {A} fuel n (l : list A) :
  0 < n → length l ≤ fuel → length (chunks_fuel fuel n l) = batches (length l) n.
Proof.
  intros Hn. unfold batches. revert l. induction fuel as [|fuel IH]; intros l Hl.
  { destruct l; simpl in *; [|lia]. by rewrite Nat.div_small by lia. }
  destruct l as [|x l]; [simpl; by rewrite Nat.div_small by lia|].
  cbn [chunks_fuel]. rewrite length_cons, IH by (rewrite length_drop; simpl in *; lia).
  rewrite length_drop. set (k := length (x :: l)). assert (0 < k) by (unfold k; simpl; lia).
  destruct (decide (n ≤ k)).
  - replace (k + (n - 1)) with (k - n + (n - 1) + 1 * n) by lia. rewrite Nat.div_add by lia. lia.
  - replace (k - n) with 0 by lia. rewrite Nat.div_small by lia.
    replace (k + (n - 1)) with (k - 1 + 1 * n) by lia. rewrite Nat.div_add, Nat.div_small by lia. done.
Qed.

Lemma length_par_chunks {A} n (l : list A) : 0 < n → length (par_chunks n l) = batches (length l) n.
Proof. intros. by apply length_chunks_fuel. Qed.

Lemma length_update_chunks cols key_cols infos chunks :
  length (chunks ≫= update_chunk cols key_cols infos) ≤ length chunks.
Proof.
  induction chunks as [|chunk chunks IH]; [done|]. rewrite bind_cons, length_app, length_cons.
  assert (length (update_chunk cols key_cols infos chunk) ≤ 1); [|lia].
  destruct chunk as [|m [|m2 rest]]; cbn [update_chunk]; [|simpl; lia|]; case_decide; simpl; lia.
Qed.

(** The plan of a table has at most one statement per 500 added rows, per 200 updated rows and
    per 200 removed rows, rounded up, after its preparatory statements. *)
Theorem plan_is_batched (percent_decode : str → option str)
    (format_grid_sql_literal : json → option DatabaseType.t → option DataGridColumnInfo → str)
    (t : DataCompareSyncPlanTable) :
  writable_columns (plan_columns t) (column_info t) ≠ [] →
  let plan := build_data_compare_sync_plan percent_decode format_grid_sql_literal [t] in
  statement_count plan ≤
    length (pre_sync_statements t) + batches (insert_count plan) DATA_SYNC_INSERT_BATCH_SIZE +
    batches (update_count plan) DATA_SYNC_CONDITION_BATCH_SIZE +
    batches (delete_count plan) DATA_SYNC_CONDITION_BATCH_SIZE.
Proof.
  intros Hw. unfold build_data_compare_sync_plan.
  cbn [statement_count insert_count update_count delete_count fmap list_fmap sum_list mbind list_bind].
  rewrite app_nil_r, !Nat.add_0_r. unfold table_sync_sql, table_statements, generate_data_sync_statements.
  rewrite !length_app, length_fmap, !length_app. unfold generate_insert_sync_statements.
  rewrite decide_False by done. unfold generate_delete_sync_statements, generate_update_sync_statements.
  rewrite !length_fmap, !length_par_chunks by (unfold DATA_SYNC_INSERT_BATCH_SIZE, DATA_SYNC_CONDITION_BATCH_SIZE; lia).
  pose proof (length_update_chunks (plan_columns t) (plan_key_columns t) (column_info t)
    (par_chunks DATA_SYNC_CONDITION_BATCH_SIZE (writable_rows (column_info t) (diff t)))) as Hu.
  rewrite length_par_chunks in Hu by (unfold DATA_SYNC_CONDITION_BATCH_SIZE; lia).
  unfold writable_rows, id in *. lia.
Qed.

Lemma plan_is_batched_witness :
  let t := {| table_name := lit "t"; schema := None; plan_columns := [lit "id"]; plan_key_columns := [lit "id"];
              column_info := []; diff := missing_target_diff (λ _, None) [lit "id"] [] (replicate 501 [JNull]);
              database_type := None; pre_sync_statements := [] |} in
  statement_count (build_data_compare_sync_plan (λ _, None) (λ _ _ _, lit "NULL") [t]) ≤ 0 + 2 + 0 + 0.
Proof.
  refine (plan_is_batched (λ _, None) (λ _ _ _, lit "NULL") _ _). refine (bool_decide_eq_false_1 _ _). vm_compute. reflexivity.
Defined.
