(* ===== verification/SyncRefine.v ===== *)
(** What a synchronisation plan does to the target table.

    The database is abstract: a table is a list of records, a literal denotes
    the value it was written from, [column = literal] is exact and never true
    on NULL, and every write may let the database fill in the columns the
    statement does not set ([after_write]: generated columns, defaults).
    [plan_synchronises] is the contract of the component: the statements
    produced from the comparison of two tables make the target agree with the
    source. *)
From S2P Require Import Prelude GridColumns StateStore SqlDialect Json Identifiers RowCompare SyncPlan.
Local Open Scope dbx_scope.

Abbreviation record := (gmap str json) (only parsing).
Abbreviation table := (list (gmap str json)) (only parsing).

(** ** The abstract database *)
Definition sql_equal (a b : json) : bool :=
  match a, b with
  | JNull, _ | _, JNull => false
  | _, _ => bool_decide (a = b)
  end.

Definition matches (key : list (str * json)) (r : record) : bool :=
  forallb (λ cv, sql_equal (value_for r cv.1) cv.2) key.

Definition assign (l : list (str * json)) (r : record) : record := foldl (λ r cv, <[cv.1 := cv.2]> r) r l.

Definition case_value (r : record) (column : str) (cases : list (list (str * json) * json)) : json :=
  match List.find (λ kv, matches kv.1 r) cases with
  | Some (_, v) => v
  | None => value_for r column
  end.

Section run.
Context (after_write : record → record).

Definition update_record (s : sync_statement) (r : record) : record :=
  match s with
  | UpdateRow assignments key => if matches key r then after_write (assign assignments r) else r
  | UpdateCases assignments keys =>
      if existsb (λ key, matches key r) keys
      then after_write (assign ((λ cc, (cc.1, case_value r cc.1 cc.2)) <$> assignments) r)
      else r
  | _ => r
  end.

Definition run_statement (t : table) (s : sync_statement) : table :=
  match s with
  | InsertDefaultValues => t ++ [after_write ∅]
  | InsertRows cols rows => t ++ ((λ row, after_write (collect_map (zip cols row))) <$> rows)
  | DeleteRows keys => filter (λ r, existsb (λ key, matches key r) keys = false) t
  | _ => update_record s <$> t
  end.

Definition run_plan (plan : list sync_statement) (t : table) : table := foldl run_statement t plan.
End run.

(** [SELECT columns FROM t] *)
Definition select (cols : list str) (t : table) : list (list json) := (λ r, value_for r <$> cols) <$> t.

(** The records of [r] are, in some order, those of [s] on the columns that
    can be written. *)
Definition synchronised (cols : list str) (infos : list DataGridColumnInfo) (s r : table) : Prop :=
  ∃ r', r ≡ₚ r' ∧
    Forall2 (λ x y, ∀ c, c ∈ cols → writable infos c = true → same_value (value_for y c) (value_for x c)) r' s.

(** ** Lists *)
Lemma concat_chunks_fuel {A} fuel n (l : list A) :
  0 < n → length l ≤ fuel → concat (chunks_fuel fuel n l) = l.
Proof.
  intros Hn. revert l. induction fuel as [|fuel IH]; intros l Hl; [by destruct l; simpl in *; [|lia]|].
  destruct l as [|x l]; [done|]. cbn [chunks_fuel concat]. rewrite IH; [apply take_drop|].
  rewrite length_drop. simpl in *. lia.
Qed.

Lemma concat_par_chunks {A} n (l : list A) : 0 < n → concat (par_chunks n l) = l.
Proof. intros. by apply concat_chunks_fuel. Qed.

Lemma find_existsb {A} (f : A → bool) l : existsb f l = true ↔ ∃ x, List.find f l = Some x.
Proof.
  induction l as [|x l IH]; simpl; [split; [done|by intros []]|].
  destruct (f x); [by split; eauto|done].
Qed.

Lemma find_unique {A} (f : A → bool) l x :
  x ∈ l → f x = true → (∀ y, y ∈ l → f y = true → y = x) → List.find f l = Some x.
Proof.
  intros Hx Hf Hu. destruct (List.find f l) as [y|] eqn:E.
  - apply List.find_some in E as [Hy ?]. f_equal. apply Hu; [by apply list_elem_of_In|done].
  - apply list_elem_of_In in Hx. pose proof (List.find_none _ _ E x Hx). congruence.
Qed.

Lemma find_absent {A} (f : A → bool) l : (∀ y, y ∈ l → f y = false) → List.find f l = None.
Proof.
  intros Hf. destruct (List.find f l) as [y|] eqn:E; [|done].
  apply List.find_some in E as [Hy%list_elem_of_In ?]. rewrite Hf in *; done.
Qed.

Lemma omap_sublist {A B C} (f : A → option B) (g : B → C) (h : A → C) (l : list A) :
  (∀ x y, f x = Some y → g y = h x) → (g <$> omap f l) `sublist_of` (h <$> l).
Proof.
  intros Hf. induction l as [|x l IH]; csimpl; [constructor|].
  destruct (f x) as [y|] eqn:E; csimpl; [rewrite (Hf x y E)|]; by constructor.
Qed.

Lemma fmap_split {A B C} (p : A → option B) (g : B → C) (h : A → C) (l : list A) :
  (λ x, match p x with Some y => g y | None => h x end) <$> l ≡ₚ
  (g <$> omap p l) ++ (h <$> filter (λ x, p x = None) l).
Proof.
  induction l as [|x l IH]; [done|]. rewrite filter_cons. csimpl. rewrite IH.
  destruct (p x) as [y|]; csimpl; [done|]. by rewrite Permutation_middle.
Qed.

(** ** Records *)
Lemma column_index_map_Some (cols : list str) c i : column_index_map cols !! c = Some i → cols !! i = Some c.
Proof.
  unfold column_index_map. induction cols as [|c' cols IH] using rev_ind; [done|].
  rewrite imap_app. simpl. rewrite collect_map_snoc, lookup_insert_Some, Nat.add_0_r.
  intros [[-> <-]|[_ Hc]]; [by rewrite list_lookup_middle|]. apply lookup_app_l_Some. auto.
Qed.

Lemma select_value (cols : list str) (r : record) c :
  c ∈ cols → default JNull (row_value (value_for r <$> cols) <$> column_index_map cols !! c) = value_for r c.
Proof.
  intros Hc. destruct (column_index_map cols !! c) as [i|] eqn:E.
  - simpl. unfold row_value. rewrite list_lookup_fmap, (column_index_map_Some _ _ _ E). done.
  - by apply column_index_map_None in E.
Qed.

Lemma row_object_select (cols : list str) (r : record) c :
  c ∈ cols → value_for (row_object cols (value_for r <$> cols)) c = value_for r c.
Proof. intros Hc. rewrite value_for_row_object. by apply select_value. Qed.

Lemma value_for_graph f (l : list str) c : c ∈ l → value_for (collect_map ((λ c, (c, f c)) <$> l)) c = f c.
Proof. intros Hc. unfold value_for. by rewrite collect_map_graph, decide_True. Qed.

Lemma value_for_insert r c c' v : value_for (<[c := v]> r) c' = if decide (c = c') then v else value_for r c'.
Proof. unfold value_for. rewrite lookup_insert. by case_decide. Qed.

Lemma assign_fresh l r c : c ∉ l.*1 → value_for (assign l r) c = value_for r c.
Proof.
  revert r. induction l as [|[c' v] l IH]; intros r Hc; [done|]. cbn [assign foldl fst snd] in *.
  change (foldl _ ?m l) with (assign l m). rewrite IH by set_solver.
  rewrite value_for_insert, decide_False; [done|set_solver].
Qed.

Lemma assign_in l r c v : NoDup l.*1 → (c, v) ∈ l → value_for (assign l r) c = v.
Proof.
  revert r. induction l as [|[c' v'] l IH]; intros r Hnd Hin; [by apply not_elem_of_nil in Hin|].
  apply NoDup_cons in Hnd as [Hn Hnd]. change (value_for (assign l (<[c' := v']> r)) c = v).
  apply elem_of_cons in Hin as [[= -> ->]|Hin]; [|by apply IH].
  rewrite assign_fresh, value_for_insert, decide_True by done. done.
Qed.

(** ** Conditions *)
Lemma sql_equal_spec a b : b ≠ JNull → sql_equal a b = bool_decide (a = b).
Proof. intros Hb. destruct a, b; try done. Qed.

Lemma matches_where_list (l : list str) (kv r : record) :
  JNull ∉ value_for kv <$> l →
  matches (where_by_key kv l) r = bool_decide (value_for r <$> l = value_for kv <$> l).
Proof.
  unfold matches, where_by_key. induction l as [|c l IH]; intros Hn; [done|].
  rewrite !fmap_cons in *. apply not_elem_of_cons in Hn as [Hv Hn].
  cbn [forallb fst snd]. rewrite sql_equal_spec by done. rewrite IH by done.
  destruct (decide (value_for r c = value_for kv c)) as [->|Hne].
  - rewrite bool_decide_eq_true_2 by done. simpl. apply bool_decide_ext. split; [by intros ->|by intros [=]].
  - rewrite bool_decide_eq_false_2 by done. symmetry. apply bool_decide_eq_false. by intros [=].
Qed.

Section refine.
Context (cols key_cols : list str) (infos : list DataGridColumnInfo) (after_write : record → record).
Context (Hcols : NoDup cols) (Hkeys : key_cols ⊆ cols) (Hkw : ∀ c, c ∈ key_cols → writable infos c = true).
Context (Hwrite : ∀ r c, c ∈ cols → writable infos c = true → value_for (after_write r) c = value_for r c).

(** ** Keys *)
Definition keys_of (r : record) : list json := value_for r <$> key_cols.

Lemma matches_where kv r :
  JNull ∉ keys_of kv → matches (where_by_key kv key_cols) r = bool_decide (keys_of r = keys_of kv).
Proof. apply matches_where_list. Qed.

Lemma keys_of_view r r' :
  (∀ c, c ∈ cols → writable infos c = true → value_for r' c = value_for r c) → keys_of r' = keys_of r.
Proof.
  intros Hv. apply list_fmap_ext. intros i c Hc%list_elem_of_lookup_2. apply Hv; [by apply Hkeys|by apply Hkw].
Qed.

(** ** Updates *)
Definition mod_keys (m : DataCompareModifiedRow) : list json := keys_of (mod_key_values m).

Record good_mod (m : DataCompareModifiedRow) : Prop := {
  good_null : JNull ∉ mod_keys m;
  good_nodup : NoDup (cell_column <$> mod_changes m);
  good_cols : ∀ ch, ch ∈ mod_changes m → cell_column ch ∈ cols ∧ cell_column ch ∉ key_cols;
}.

(** The cell [c] of the record [r] after the row [m] was written. *)
Definition new_cell (m : DataCompareModifiedRow) (r : record) (c : str) : json :=
  match change_of c m with Some ch => cell_source ch | None => value_for r c end.

Definition mod_for (ms : list DataCompareModifiedRow) (r : record) : option DataCompareModifiedRow :=
  List.find (λ m, bool_decide (keys_of r = mod_keys m)) ms.

Definition new_value (ms : list DataCompareModifiedRow) (r : record) (c : str) : json :=
  match mod_for ms r with Some m => new_cell m r c | None => value_for r c end.

Lemma change_of_Some c m ch : change_of c m = Some ch → ch ∈ mod_changes m ∧ cell_column ch = c.
Proof. intros [Hin Hc]%List.find_some. split; [by apply list_elem_of_In|by apply bool_decide_eq_true in Hc]. Qed.

Lemma change_of_None c m : change_of c m = None → c ∉ cell_column <$> mod_changes m.
Proof.
  intros Hn (ch & -> & Hin%list_elem_of_In)%list_elem_of_fmap.
  pose proof (List.find_none _ _ Hn ch Hin) as Hb. simpl in Hb. by rewrite bool_decide_eq_true_2 in Hb.
Qed.

Lemma single_update_view m r c :
  good_mod m → c ∈ cols → writable infos c = true →
  value_for (update_record after_write (generate_single_update_statement key_cols infos m) r) c = new_value [m] r c.
Proof.
  intros [Hnull Hnd Hgc] Hc Hw. unfold new_value, mod_for. simpl. rewrite matches_where by done.
  fold (mod_keys m). destruct (bool_decide _); [|done]. rewrite Hwrite by done. unfold new_cell.
  set (l := filter _ (mod_changes m)).
  assert (Hl : ((λ ch, (cell_column ch, cell_source ch)) <$> l).*1 = cell_column <$> l)
    by (rewrite <-list_fmap_compose; done).
  destruct (change_of c m) as [ch|] eqn:E.
  - apply change_of_Some in E as [Hin Hcc]. apply assign_in.
    + rewrite Hl. eapply sublist_NoDup; [exact Hnd|]. apply sublist_fmap, sublist_filter.
    + apply list_elem_of_fmap. exists ch. split; [by rewrite Hcc|].
      apply list_elem_of_filter. by rewrite Hcc.
  - apply change_of_None in E. apply assign_fresh. rewrite Hl. contradict E.
    apply list_elem_of_fmap in E as (ch & -> & Hin). apply list_elem_of_fmap_2.
    by apply list_elem_of_filter in Hin as [_ ?].
Qed.

Lemma matches_mod m r : good_mod m →
  matches (where_by_key (mod_key_values m) key_cols) r = bool_decide (keys_of r = mod_keys m).
Proof. intros [Hn _ _]. by apply matches_where. Qed.

Section chunk.
Context (chunk : list DataCompareModifiedRow).
Context (Hgood : ∀ m, m ∈ chunk → good_mod m) (Hdist : NoDup (mod_keys <$> chunk)).

Lemma same_mod m m' : m ∈ chunk → m' ∈ chunk → mod_keys m = mod_keys m' → m = m'.
Proof.
  intros [i Hi]%list_elem_of_lookup [j Hj]%list_elem_of_lookup Hk.
  assert (i = j) as -> by (eapply (NoDup_lookup _ _ _ (mod_keys m) Hdist);
    rewrite list_lookup_fmap, ?Hi, ?Hj; simpl; congruence).
  congruence.
Qed.

Lemma mod_for_found m r : m ∈ chunk → keys_of r = mod_keys m → mod_for chunk r = Some m.
Proof.
  intros Hm Hk. apply find_unique; [done|by apply bool_decide_eq_true|].
  intros y Hy Hyk%bool_decide_eq_true. apply same_mod; [done..|congruence].
Qed.

Lemma mod_for_Some m r : mod_for chunk r = Some m → m ∈ chunk ∧ keys_of r = mod_keys m.
Proof. intros [Hin Hb]%List.find_some. split; [by apply list_elem_of_In|by apply bool_decide_eq_true in Hb]. Qed.

Lemma column_cases_spec c key v :
  (key, v) ∈ column_cases key_cols chunk c ↔
  ∃ m ch, m ∈ chunk ∧ change_of c m = Some ch ∧ key = where_by_key (mod_key_values m) key_cols ∧ v = cell_source ch.
Proof.
  unfold column_cases. rewrite list_elem_of_omap. split.
  - intros (m & Hm & Hc). destruct (change_of c m) as [ch|] eqn:E; [|done]. simpl in Hc.
    injection Hc as <- <-. by exists m, ch.
  - intros (m & ch & Hm & Hc & -> & ->). exists m. by rewrite Hc.
Qed.

Lemma case_value_spec m r c : m ∈ chunk → keys_of r = mod_keys m →
  case_value r c (column_cases key_cols chunk c) = new_cell m r c.
Proof.
  intros Hm Hk. unfold case_value, new_cell.
  destruct (List.find _ _) as [[key v]|] eqn:E.
  - apply List.find_some in E as [(m' & ch & Hm' & Hc & -> & ->)%list_elem_of_In%column_cases_spec Hb].
    simpl in Hb. rewrite matches_mod in Hb by auto. apply bool_decide_eq_true in Hb.
    assert (m' = m) as -> by (apply same_mod; [done..|congruence]). by rewrite Hc.
  - destruct (change_of c m) as [ch|] eqn:Ec; [exfalso|done].
    assert (Hin : (where_by_key (mod_key_values m) key_cols, cell_source ch) ∈ column_cases key_cols chunk c)
      by (apply column_cases_spec; eauto 10).
    pose proof (List.find_none _ _ E _ (proj1 (list_elem_of_In _ _) Hin)) as Hb.
    simpl in Hb. rewrite matches_mod in Hb by auto. by apply bool_decide_eq_false in Hb.
Qed.

Lemma changed_columns_spec c m ch :
  c ∈ cols → writable infos c = true → m ∈ chunk → change_of c m = Some ch → c ∈ changed_columns cols infos chunk.
Proof.
  intros Hc Hw Hm [Hch Hcc]%change_of_Some. apply list_elem_of_filter. split; [|by apply list_elem_of_filter].
  apply List.existsb_exists. exists m. split; [by apply list_elem_of_In|].
  apply List.existsb_exists. exists ch. split; [by apply list_elem_of_In|by apply bool_decide_eq_true].
Qed.

Lemma any_mod_matches r :
  existsb (λ key, matches key r) ((λ row, where_by_key (mod_key_values row) key_cols) <$> chunk) =
  match mod_for chunk r with Some _ => true | None => false end.
Proof.
  apply eq_bool_prop_intro. destruct (mod_for chunk r) as [m|] eqn:E.
  - apply mod_for_Some in E as [Hm Hk]. split; [done|intros _]. apply Is_true_eq_left, List.existsb_exists.
    exists (where_by_key (mod_key_values m) key_cols). split; [apply list_elem_of_In, list_elem_of_fmap; by exists m|].
    rewrite matches_mod by auto. by apply bool_decide_eq_true.
  - split; [|done]. intros (key & (m & -> & Hm)%list_elem_of_In%list_elem_of_fmap & Hb)%Is_true_eq_true%List.existsb_exists.
    rewrite matches_mod in Hb by auto. apply bool_decide_eq_true in Hb.
    by rewrite (mod_for_found m r) in E.
Qed.

Lemma case_update_view r c : c ∈ cols → writable infos c = true →
  value_for (update_record after_write
    (UpdateCases ((λ column, (column, column_cases key_cols chunk column)) <$> changed_columns cols infos chunk)
       ((λ row, where_by_key (mod_key_values row) key_cols) <$> chunk)) r) c = new_value chunk r c.
Proof.
  intros Hc Hw. cbn [update_record]. rewrite any_mod_matches. unfold new_value.
  destruct (mod_for chunk r) as [m|] eqn:E; [|done]. apply mod_for_Some in E as [Hm Hk].
  rewrite Hwrite by done. rewrite <-list_fmap_compose.
  set (l := compose _ _ <$> changed_columns cols infos chunk).
  assert (Hl : l.*1 = changed_columns cols infos chunk)
    by (unfold l; rewrite <-list_fmap_compose; apply list_fmap_id).
  destruct (decide (c ∈ changed_columns cols infos chunk)) as [Hin|Hout].
  - apply assign_in.
    + rewrite Hl. by apply NoDup_filter, NoDup_filter.
    + apply list_elem_of_fmap. exists c. split; [|done]. simpl. by rewrite (case_value_spec m).
  - rewrite assign_fresh by (by rewrite Hl). unfold new_cell.
    destruct (change_of c m) as [ch|] eqn:Ec; [|done]. destruct Hout. by eapply changed_columns_spec.
Qed.
End chunk.

Definition update_records (plan : list sync_statement) (r : record) : record :=
  foldl (λ r s, update_record after_write s r) r plan.

Lemma update_records_app p q r : update_records (p ++ q) r = update_records q (update_records p r).
Proof. apply foldl_app. Qed.

Lemma update_chunk_view chunk r c :
  (∀ m, m ∈ chunk → good_mod m) → NoDup (mod_keys <$> chunk) → c ∈ cols → writable infos c = true →
  value_for (update_records (update_chunk cols key_cols infos chunk) r) c = new_value chunk r c.
Proof.
  intros Hg Hd Hc Hw.
  assert (Hcase : value_for (update_records
      (if decide (changed_columns cols infos chunk = []) then []
       else [UpdateCases ((λ column, (column, column_cases key_cols chunk column)) <$> changed_columns cols infos chunk)
               ((λ row, where_by_key (mod_key_values row) key_cols) <$> chunk)]) r) c = new_value chunk r c).
  { case_decide as He; [|by apply case_update_view]. unfold new_value. cbn.
    destruct (mod_for chunk r) as [m|] eqn:E; [|done]. apply mod_for_Some in E as [Hm _].
    unfold new_cell. destruct (change_of c m) as [ch|] eqn:Ec; [|done].
    apply (changed_columns_spec chunk) in Ec; [|done..]. rewrite He in Ec. by apply not_elem_of_nil in Ec. }
  destruct chunk as [|m [|m2 rest]]; [done| |done].
  apply single_update_view; [|done..]. apply Hg. by left.
Qed.

Lemma new_cell_key m r c : good_mod m → c ∈ key_cols → new_cell m r c = value_for r c.
Proof.
  intros [_ _ Hg] Hc. unfold new_cell. destruct (change_of c m) as [ch|] eqn:E; [|done].
  apply change_of_Some in E as [Hin <-]. by apply Hg in Hin as [_ ?].
Qed.

Lemma new_value_keys ms r r' :
  (∀ m, m ∈ ms → good_mod m) →
  (∀ c, c ∈ cols → writable infos c = true → value_for r' c = new_value ms r c) → keys_of r' = keys_of r.
Proof.
  intros Hg Hv. apply list_fmap_ext. intros i c Hc%list_elem_of_lookup_2.
  rewrite Hv by auto. unfold new_value. destruct (mod_for ms r) as [m|] eqn:E; [|done].
  apply mod_for_Some in E as [Hm _]. apply new_cell_key; auto.
Qed.

Lemma mod_for_app ms ms' r : mod_for (ms ++ ms') r = match mod_for ms r with Some m => Some m | None => mod_for ms' r end.
Proof. unfold mod_for. induction ms as [|m ms IH]; simpl; [done|]. by destruct (bool_decide _). Qed.

Lemma mod_for_keys ms r r' : keys_of r = keys_of r' → mod_for ms r = mod_for ms r'.
Proof. intros Hk. unfold mod_for. by rewrite Hk. Qed.

(** All update statements together write each record once. *)
Lemma update_chunks_view chunks r c :
  (∀ m, m ∈ concat chunks → good_mod m) → NoDup (mod_keys <$> concat chunks) → c ∈ cols → writable infos c = true →
  value_for (update_records (chunks ≫= update_chunk cols key_cols infos) r) c = new_value (concat chunks) r c.
Proof.
  revert r c. induction chunks as [|chunk chunks IH]; intros r c Hg Hd Hc Hw; [done|].
  cbn [concat] in *. rewrite bind_cons, update_records_app. rewrite fmap_app in Hd.
  apply NoDup_app in Hd as (Hd1 & Hdisj & Hd2).
  set (r1 := update_records (update_chunk cols key_cols infos chunk) r).
  assert (Hv : ∀ c, c ∈ cols → writable infos c = true → value_for r1 c = new_value chunk r c).
  { intros. apply update_chunk_view; [|done..]. intros m Hm. apply Hg, elem_of_app. by left. }
  assert (Hk : keys_of r1 = keys_of r).
  { apply (new_value_keys chunk); [|done]. intros m Hm. apply Hg, elem_of_app. by left. }
  rewrite IH; [|intros m Hm; apply Hg, elem_of_app; by right|done..].
  unfold new_value at 1. rewrite (mod_for_keys _ _ _ Hk). unfold new_value. rewrite mod_for_app.
  unfold new_value in Hv. destruct (mod_for chunk r) as [m|] eqn:E.
  - assert (mod_for (concat chunks) r = None) as ->; [|by apply Hv].
    apply mod_for_Some in E as [Hm Hkm]. apply find_absent. intros m' Hm'. apply bool_decide_eq_false.
    intros Hkm'. destruct (Hdisj (mod_keys m)); [by apply list_elem_of_fmap_2|].
    rewrite <-Hkm, Hkm'. by apply list_elem_of_fmap_2.
  - destruct (mod_for (concat chunks) r) as [m|]; [|by apply Hv].
    unfold new_cell. destruct (change_of c m); [done|by apply Hv].
Qed.

(** ** Running the three groups of statements *)
Lemma run_plan_app p q t : run_plan after_write (p ++ q) t = run_plan after_write q (run_plan after_write p t).
Proof. apply foldl_app. Qed.

Definition is_update (s : sync_statement) : bool :=
  match s with UpdateRow _ _ | UpdateCases _ _ => true | _ => false end.

Lemma run_updates plan t : Forall (λ s, is_update s = true) plan → run_plan after_write plan t = update_records plan <$> t.
Proof.
  intros Hu. revert t. induction Hu as [|s plan Hs _ IH]; intros t; [symmetry; apply list_fmap_id|].
  change (run_plan after_write plan (run_statement after_write t s) = update_records (s :: plan) <$> t).
  assert (run_statement after_write t s = update_record after_write s <$> t) as -> by (by destruct s).
  rewrite IH, <-list_fmap_compose. done.
Qed.

Lemma update_statements_are_updates d :
  Forall (λ s, is_update s = true) (generate_update_sync_statements cols key_cols infos d).
Proof.
  apply Forall_bind, Forall_true. intros [|m [|m2 rest]]; simpl; repeat constructor; case_decide; by repeat constructor.
Qed.

Lemma run_deletes d t : (∀ x, x ∈ removed d → JNull ∉ keys_of (row_key_values x)) →
  run_plan after_write (generate_delete_sync_statements key_cols d) t =
  filter (λ r, keys_of r ∉ (λ x, keys_of (row_key_values x)) <$> removed d) t.
Proof.
  unfold generate_delete_sync_statements.
  pose proof (concat_par_chunks DATA_SYNC_CONDITION_BATCH_SIZE (removed d)) as Hr.
  revert Hr. generalize (par_chunks DATA_SYNC_CONDITION_BATCH_SIZE (removed d)) as chunks.
  intros chunks <-; [|unfold DATA_SYNC_CONDITION_BATCH_SIZE; lia].
  revert t. induction chunks as [|chunk chunks IH]; intros t Hn; cbn [concat] in *.
  { symmetry. apply filter_all. intros r _. apply not_elem_of_nil. }
  cbn [fmap list_fmap run_plan foldl run_statement]. change (foldl _ ?t _) with (run_plan after_write
    ((λ chunk, DeleteRows ((λ row, where_by_key (row_key_values row) key_cols) <$> chunk)) <$> chunks) t).
  rewrite IH by (intros x Hx; apply Hn, elem_of_app; by right). rewrite list_filter_filter.
  apply list_filter_iff. intros r. rewrite fmap_app, not_elem_of_app.
  assert (existsb (λ key, matches key r) ((λ row, where_by_key (row_key_values row) key_cols) <$> chunk) = false ↔
          keys_of r ∉ (λ x, keys_of (row_key_values x)) <$> chunk) as ->; [|tauto].
  rewrite <-not_true_iff_false, List.existsb_exists, list_elem_of_fmap. apply not_iff_compat. split.
  - intros (key & (x & -> & Hx)%list_elem_of_In%list_elem_of_fmap & Hb). exists x. split; [|done].
    rewrite matches_where in Hb by (apply Hn, elem_of_app; by left). by apply bool_decide_eq_true in Hb.
  - intros (x & Hk & Hx). exists (where_by_key (row_key_values x) key_cols).
    split; [apply list_elem_of_In, list_elem_of_fmap; by exists x|].
    rewrite matches_where by (apply Hn, elem_of_app; by left). by apply bool_decide_eq_true.
Qed.

Definition insert_record (x : DataCompareRow) : record :=
  after_write (collect_map (zip (writable_columns cols infos) (insert_row cols infos x))).

Lemma insert_record_view x c : c ∈ cols → writable infos c = true → value_for (insert_record x) c = value_for (row_values x) c.
Proof.
  intros Hc Hw. unfold insert_record, insert_row. rewrite Hwrite, zip_with_fmap_r, zip_with_diag by done.
  rewrite (value_for_graph (value_for (row_values x))); [done|]. by apply list_elem_of_filter.
Qed.

Lemma run_inserts d t : writable_columns cols infos ≠ [] →
  run_plan after_write (generate_insert_sync_statements cols infos d) t = t ++ (insert_record <$> added d).
Proof.
  intros Hne. unfold generate_insert_sync_statements. rewrite decide_False by done.
  pose proof (concat_par_chunks DATA_SYNC_INSERT_BATCH_SIZE (added d)) as Hr.
  revert Hr. generalize (par_chunks DATA_SYNC_INSERT_BATCH_SIZE (added d)) as chunks.
  intros chunks <-; [|unfold DATA_SYNC_INSERT_BATCH_SIZE; lia].
  revert t. induction chunks as [|chunk chunks IH]; intros t; cbn [concat].
  { symmetry. apply app_nil_r. }
  rewrite fmap_cons. change (run_plan after_write (?s :: ?p) t) with
    (run_plan after_write p (run_statement after_write t s)).
  rewrite IH. cbn [run_statement]. rewrite fmap_app, (assoc_L (++)). do 2 f_equal.
  by rewrite <-list_fmap_compose.
Qed.

(** ** The comparison of two tables *)
Section tables.
Context (to_string : json → option str) (src tgt : table).

Definition table_options : CompareDataRowsOptions :=
  {| columns := cols; key_columns := key_cols; source_rows := select cols src; target_rows := select cols tgt |}.

(** The text of a key tells its values, on the keys of the two tables. *)
Definition key_texts_faithful : Prop :=
  ∀ r r', r ∈ src ++ tgt → r' ∈ src ++ tgt →
    join UNIT_SEPARATOR (json_stringify to_string <$> keys_of r) =
    join UNIT_SEPARATOR (json_stringify to_string <$> keys_of r') → keys_of r = keys_of r'.

Abbreviation o := table_options.
Abbreviation row r := (value_for r <$> cols).
Abbreviation ix := (column_index_map cols).

Lemma key_of_row r : key_of to_string o (row r) = join UNIT_SEPARATOR (json_stringify to_string <$> keys_of r).
Proof.
  unfold key_of. rewrite key_for_row_object. unfold key_for, keys_of. rewrite <-list_fmap_compose. f_equal.
  apply list_fmap_ext. intros i c Hc%list_elem_of_lookup_2. simpl. by rewrite row_object_select by auto.
Qed.

Lemma key_values_row r : keys_of (key_values_for_row (row r) key_cols ix) = keys_of r.
Proof.
  rewrite key_values_row_object. apply list_fmap_ext. intros i c Hc%list_elem_of_lookup_2. unfold key_values.
  rewrite (value_for_graph (value_for (row_object cols (row r)))) by done. by apply row_object_select, Hkeys.
Qed.

Lemma keys_of_eq r r' c : keys_of r = keys_of r' → c ∈ key_cols → value_for r c = value_for r' c.
Proof.
  intros Hk [i Hi]%list_elem_of_lookup. assert (keys_of r !! i = keys_of r' !! i) as Hl by congruence.
  unfold keys_of in Hl. rewrite !list_lookup_fmap, Hi in Hl. by injection Hl.
Qed.

Context (Hne : key_cols ≠ []) (Hd : distinct_keys to_string o) (Hf : key_texts_faithful).
Context (Hnull : ∀ r, r ∈ src ++ tgt → JNull ∉ keys_of r).

Lemma key_of_select (t : table) :
  key_of to_string o <$> select cols t =
  (λ k, join UNIT_SEPARATOR (json_stringify to_string <$> k)) <$> (keys_of <$> t).
Proof. unfold select. rewrite <-!list_fmap_compose. apply list_fmap_ext. intros i r _. apply key_of_row. Qed.

Lemma src_keys_NoDup : NoDup (keys_of <$> src).
Proof. destruct Hd as [Hs _]. simpl in Hs. rewrite key_of_select in Hs. by eapply NoDup_fmap_1. Qed.
Lemma tgt_keys_NoDup : NoDup (keys_of <$> tgt).
Proof. destruct Hd as [_ Ht]. simpl in Ht. rewrite key_of_select in Ht. by eapply NoDup_fmap_1. Qed.

Lemma same_record (t : table) r r' : NoDup (keys_of <$> t) → r ∈ t → r' ∈ t → keys_of r = keys_of r' → r = r'.
Proof.
  intros Hn [i Hi]%list_elem_of_lookup [j Hj]%list_elem_of_lookup Hk.
  assert (i = j) as -> by (eapply (NoDup_lookup _ _ _ (keys_of r) Hn);
    rewrite list_lookup_fmap, ?Hi, ?Hj; simpl; congruence).
  congruence.
Qed.

(** The record of [t] with the key of [r]. *)
Definition partner (t : table) (r : record) : option record :=
  List.find (λ r', bool_decide (keys_of r' = keys_of r)) t.

Lemma partner_Some t r r' : partner t r = Some r' → r' ∈ t ∧ keys_of r' = keys_of r.
Proof. intros [Hin Hb]%List.find_some. split; [by apply list_elem_of_In|by apply bool_decide_eq_true in Hb]. Qed.

Lemma partner_None t r : partner t r = None ↔ keys_of r ∉ keys_of <$> t.
Proof.
  split.
  - intros Hn (r' & Hk & Hin%list_elem_of_In)%list_elem_of_fmap.
    pose proof (List.find_none _ _ Hn r' Hin) as Hb. by apply bool_decide_eq_false in Hb.
  - intros Hn. apply find_absent. intros r' Hin. apply bool_decide_eq_false. intros Hk.
    destruct Hn. rewrite <-Hk. by apply list_elem_of_fmap_2.
Qed.

(** [find_row] on the selected rows is [partner] on the records. *)
Lemma find_row_partner (t : table) r :
  NoDup (keys_of <$> t) → t ⊆ src ++ tgt → r ∈ src ++ tgt →
  find_row to_string o (key_of to_string o (row r)) (select cols t) = (λ r', row r') <$> partner t r.
Proof.
  intros Hn Hsub Hr. destruct (partner t r) as [r'|] eqn:E.
  - apply partner_Some in E as [Hin Hk]. simpl.
    assert (Hkk : key_of to_string o (row r) = key_of to_string o (row r')) by (by rewrite !key_of_row, Hk).
    rewrite Hkk. apply find_row_here.
    + rewrite key_of_select. apply (NoDup_fmap_2_strong _ _); [|done].
      intros k k' (x & -> & Hx)%list_elem_of_fmap (y & -> & Hy)%list_elem_of_fmap Hj.
      apply Hf; [by apply Hsub..|done].
    + by apply (list_elem_of_fmap_2 (λ r, row r)).
  - apply find_row_None. rewrite key_of_row, key_of_select.
    intros (k & Hk & (x & -> & Hx)%list_elem_of_fmap)%list_elem_of_fmap.
    apply partner_None in E. destruct E. rewrite (Hf r x Hr (Hsub _ Hx) Hk). by apply list_elem_of_fmap_2.
Qed.

Lemma filter_select (P : list json → Prop) (Q : record → Prop)
    `{!∀ x, Decision (P x), !∀ x, Decision (Q x)} (t : table) :
  (∀ r, r ∈ t → P (row r) ↔ Q r) → filter P (select cols t) = select cols (filter Q t).
Proof.
  unfold select. induction t as [|r t IH]; intros Hpq; [done|]. rewrite fmap_cons, !filter_cons.
  rewrite IH by (intros r' Hr'; apply Hpq; by right). pose proof (Hpq r (list_elem_of_here _ _)) as Hr.
  case_decide; case_decide; [done|tauto|tauto|done].
Qed.

Abbreviation d := (compare_reference to_string o).

Lemma added_records :
  added d = (λ s, row_of to_string o (row s)) <$> filter (λ s, partner tgt s = None) src.
Proof.
  cbn [added compare_reference]. change (source_rows o) with (select cols src). rewrite (filter_select _ (λ s, partner tgt s = None)).
  - unfold select. by rewrite <-list_fmap_compose.
  - intros s Hs. change (target_rows o) with (select cols tgt). rewrite find_row_partner;
      [by rewrite fmap_None|apply tgt_keys_NoDup|set_solver|set_solver].
Qed.

Lemma removed_records :
  removed d = (λ t, row_of to_string o (row t)) <$> filter (λ t, partner src t = None) tgt.
Proof.
  cbn [removed compare_reference]. change (target_rows o) with (select cols tgt). rewrite (filter_select _ (λ t, partner src t = None)).
  - unfold select. by rewrite <-list_fmap_compose.
  - intros t Ht. change (source_rows o) with (select cols src). rewrite find_row_partner;
      [by rewrite fmap_None|apply src_keys_NoDup|set_solver|set_solver].
Qed.

Definition modified_for (s : record) : option DataCompareModifiedRow :=
  t ← partner tgt s; modified_row cols key_cols ix (key_of to_string o (row s)) (row s) (row t).

Lemma modified_records : modified d = omap modified_for src.
Proof.
  apply list_omap_ext, Forall2_fmap_l, Forall_Forall2_diag, Forall_forall. intros s Hs. unfold modified_for.
  pose proof (find_row_partner tgt s tgt_keys_NoDup) as Hp.
  change (select cols tgt) with (target_rows o) in Hp. unfold compose. rewrite Hp by set_solver.
  by destruct (partner tgt s).
Qed.

(** ** The cells of a modified row *)
Lemma changed_cells_sublist s t : (cell_column <$> changed_cells cols key_cols ix (row s) (row t)) `sublist_of` cols.
Proof.
  pose proof (λ f, omap_sublist f cell_column (λ c : str, c) cols) as Hs. rewrite list_fmap_id in Hs.
  apply Hs. intros c ch Hc. case_decide; [done|].
  destruct (ix !! c); simpl in Hc; [|done]. destruct (value_eqb _ _); [done|]. by injection Hc as <-.
Qed.

Lemma changed_cells_spec s t ch :
  ch ∈ changed_cells cols key_cols ix (row s) (row t) ↔
  cell_column ch ∈ cols ∧ cell_column ch ∉ key_cols ∧
  cell_source ch = value_for s (cell_column ch) ∧ cell_target ch = value_for t (cell_column ch) ∧
  value_eqb (value_for s (cell_column ch)) (value_for t (cell_column ch)) = false.
Proof.
  unfold changed_cells. rewrite list_elem_of_omap. split.
  - intros (c & Hc & Hch). case_decide as Hk; [done|].
    pose proof (select_value cols s c Hc) as Hs. pose proof (select_value cols t c Hc) as Ht.
    destruct (ix !! c) as [i|]; simpl in *; [|done]. rewrite Hs, Ht in Hch.
    destruct (value_eqb _ _) eqn:E; [done|]. by injection Hch as <-.
  - intros (Hc & Hk & Hs & Ht & He). exists (cell_column ch). split; [done|].
    rewrite decide_False by done. destruct (ix !! cell_column ch) as [i|] eqn:E;
      [|by apply column_index_map_None in E].
    pose proof (select_value cols s _ Hc) as Hs'. pose proof (select_value cols t _ Hc) as Ht'.
    rewrite E in Hs', Ht'. simpl in *. rewrite Hs', Ht', He. by rewrite <-Hs, <-Ht; destruct ch.
Qed.

Lemma modified_row_Some key s t m :
  modified_row cols key_cols ix key (row s) (row t) = Some m →
  mod_keys m = keys_of s ∧ mod_changes m = changed_cells cols key_cols ix (row s) (row t).
Proof.
  unfold modified_row, mod_keys. destruct (changed_cells _ _ _ _ _); [done|]. intros [= <-]. simpl.
  split; [apply key_values_row|done].
Qed.

Lemma modified_for_Some s m : modified_for s = Some m →
  ∃ t, t ∈ tgt ∧ keys_of t = keys_of s ∧ mod_keys m = keys_of s ∧
       mod_changes m = changed_cells cols key_cols ix (row s) (row t).
Proof.
  unfold modified_for. intros (t & [Ht Hk]%partner_Some & Hm)%bind_Some.
  apply modified_row_Some in Hm as [??]. eauto.
Qed.

Abbreviation ms := (writable_rows infos d).

Lemma mods_spec m : m ∈ ms ↔ has_writable_changes m infos = true ∧ ∃ s, s ∈ src ∧ modified_for s = Some m.
Proof. unfold writable_rows. by rewrite list_elem_of_filter, modified_records, list_elem_of_omap. Qed.

Lemma mods_good m : m ∈ ms → good_mod m.
Proof.
  intros (_ & s & Hs & (t & Ht & Hk & Hmk & Hmc)%modified_for_Some)%mods_spec. split.
  - rewrite Hmk. apply Hnull. set_solver.
  - rewrite Hmc. eapply sublist_NoDup; [exact Hcols|apply changed_cells_sublist].
  - intros ch. rewrite Hmc, changed_cells_spec. naive_solver.
Qed.

Lemma mods_distinct : NoDup (mod_keys <$> ms).
Proof.
  eapply sublist_NoDup; [exact src_keys_NoDup|]. unfold writable_rows. rewrite modified_records.
  etrans; [apply sublist_fmap, sublist_filter|]. apply omap_sublist.
  intros s m (t & _ & _ & Hk & _)%modified_for_Some. done.
Qed.

Abbreviation updated := (update_records (generate_update_sync_statements cols key_cols infos d)).

Lemma updated_view r c : c ∈ cols → writable infos c = true → value_for (updated r) c = new_value ms r c.
Proof.
  intros Hc Hw. unfold generate_update_sync_statements.
  assert (Hcat : concat (par_chunks DATA_SYNC_CONDITION_BATCH_SIZE ms) = ms)
    by (apply concat_par_chunks; unfold DATA_SYNC_CONDITION_BATCH_SIZE; lia).
  rewrite update_chunks_view; rewrite ?Hcat; auto using mods_good, mods_distinct.
Qed.

Lemma updated_keys r : keys_of (updated r) = keys_of r.
Proof. apply (new_value_keys ms); [apply mods_good|]. intros. by apply updated_view. Qed.

(** A kept record takes the values of its partner. *)
Lemma updated_agrees s t c :
  s ∈ src → partner tgt s = Some t → c ∈ cols → writable infos c = true →
  same_value (value_for s c) (value_for (updated t) c).
Proof.
  intros Hs Hp Hc Hw. rewrite updated_view by done. pose proof Hp as [Ht Hk]%partner_Some. unfold new_value.
  destruct (decide (c ∈ key_cols)) as [Hck|Hck].
  { left. rewrite (keys_of_eq s t c) by done. destruct (mod_for ms t) as [m|] eqn:Em; [|done].
    apply mod_for_Some in Em as [Hm%mods_good _]. by rewrite new_cell_key. }
  destruct (value_eqb (value_for s c) (value_for t c)) eqn:Ev.
  - right. destruct (mod_for ms t) as [m|] eqn:Em; [|done].
    apply mod_for_Some in Em as [(_ & s' & Hs' & Hm)%mods_spec Hkm]. unfold new_cell.
    destruct (change_of c m) as [ch|] eqn:Ec; [|done]. exfalso.
    apply change_of_Some in Ec as [Hch <-]. apply modified_for_Some in Hm as (t' & Ht' & Hk' & Hmk & Hmc).
    assert (s' = s) as -> by (apply (same_record src); auto using src_keys_NoDup; congruence).
    assert (t' = t) as -> by (apply (same_record tgt); auto using tgt_keys_NoDup; congruence).
    rewrite Hmc, changed_cells_spec in Hch. destruct Hch as (_ & _ & _ & _ & ?). congruence.
  - left. set (ch := {| cell_column := c; cell_source := value_for s c; cell_target := value_for t c |}).
    assert (Hch : ch ∈ changed_cells cols key_cols ix (row s) (row t)) by (by apply changed_cells_spec).
    destruct (modified_for s) as [m|] eqn:Em.
    2:{ exfalso. unfold modified_for, modified_row in Em. rewrite Hp in Em. simpl in Em.
        destruct (changed_cells _ _ _ _ _); [by apply not_elem_of_nil in Hch|done]. }
    pose proof Em as (t' & Ht' & Hk' & Hmk & Hmc)%modified_for_Some.
    assert (t' = t) as -> by (apply (same_record tgt); auto using tgt_keys_NoDup; congruence).
    assert (Hin : m ∈ ms).
    { apply mods_spec. split; [|eauto]. apply List.existsb_exists. exists ch.
      split; [apply list_elem_of_In; by rewrite Hmc|done]. }
    rewrite (mod_for_found ms mods_distinct m t) by (done || congruence). unfold new_cell.
    destruct (change_of c m) as [ch'|] eqn:Ec.
    + apply change_of_Some in Ec as [Hch' Hcc]. rewrite Hmc, changed_cells_spec, Hcc in Hch'.
      symmetry. apply Hch'.
    + apply change_of_None in Ec. destruct Ec. rewrite Hmc.
      by apply (list_elem_of_fmap_2 cell_column _ ch).
Qed.

Abbreviation inserted s := (insert_record (row_of to_string o (row s))).

Lemma inserted_view s c : c ∈ cols → writable infos c = true → value_for (inserted s) c = value_for s c.
Proof. intros Hc Hw. rewrite insert_record_view by done. by apply row_object_select. Qed.

Lemma inserted_keys s : keys_of (inserted s) = keys_of s.
Proof. apply keys_of_view, inserted_view. Qed.

Lemma inserted_agrees s c :
  partner tgt s = None → c ∈ cols → writable infos c = true → value_for (updated (inserted s)) c = value_for s c.
Proof.
  intros Hp Hc Hw. rewrite updated_view by done. unfold new_value.
  destruct (mod_for ms (inserted s)) as [m|] eqn:Em; [exfalso|by apply inserted_view].
  apply mod_for_Some in Em as [(_ & s' & _ & (t & Ht & Hk & Hmk & _)%modified_for_Some)%mods_spec Hkm].
  rewrite inserted_keys in Hkm. apply partner_None in Hp. destruct Hp.
  rewrite Hkm, Hmk, <-Hk. by apply list_elem_of_fmap_2.
Qed.

(** Deleting the removed rows keeps the records with a partner. *)
Lemma kept_partners : filter (λ t, is_Some (partner src t)) tgt ≡ₚ omap (partner tgt) src.
Proof.
  apply NoDup_Permutation.
  - apply NoDup_filter. eapply NoDup_fmap_1, tgt_keys_NoDup.
  - eapply (NoDup_fmap_1 keys_of), sublist_NoDup; [apply src_keys_NoDup|]. apply omap_sublist.
    by intros s t [_ ?]%partner_Some.
  - intros t. rewrite list_elem_of_filter, list_elem_of_omap. split.
    + intros [[s [Hs Hk]%partner_Some] Ht]. exists s. split; [done|]. apply find_unique; [done|by apply bool_decide_eq_true|].
      intros y Hy Hyk%bool_decide_eq_true. apply (same_record tgt); auto using tgt_keys_NoDup. congruence.
    + intros (s & Hs & [Ht Hk]%partner_Some). split; [|done].
      destruct (partner src t) eqn:E; [done|]. apply partner_None in E. destruct E. rewrite Hk. by apply list_elem_of_fmap_2.
Qed.

Lemma some_writable : writable_columns cols infos ≠ [].
Proof.
  destruct key_cols as [|c l] eqn:E; [done|]. intros Hw.
  assert (Hc : c ∈ writable_columns cols infos)
    by (apply list_elem_of_filter; split; [apply Hkw|apply Hkeys]; rewrite ?E; by left).
  rewrite Hw in Hc. by apply not_elem_of_nil in Hc.
Qed.

Lemma removed_keys :
  (λ x, keys_of (row_key_values x)) <$> removed d = keys_of <$> filter (λ t, partner src t = None) tgt.
Proof.
  rewrite removed_records, <-list_fmap_compose. apply list_fmap_ext. intros i t _. apply key_values_row.
Qed.

Lemma removed_not_null x : x ∈ removed d → JNull ∉ keys_of (row_key_values x).
Proof.
  rewrite removed_records. intros (t & -> & [_ Ht]%list_elem_of_filter)%list_elem_of_fmap.
  cbn [row_key_values row_of compare_row]. rewrite key_values_row. apply Hnull. set_solver.
Qed.

Abbreviation removed_key k := (k ∈ keys_of <$> filter (λ t, partner src t = None) tgt).

Lemma removed_key_tgt t : t ∈ tgt → ¬ removed_key (keys_of t) ↔ is_Some (partner src t).
Proof.
  intros Ht. rewrite <-not_eq_None_Some. apply not_iff_compat. split.
  - intros (t' & Hk & [Hp Ht']%list_elem_of_filter)%list_elem_of_fmap.
    by rewrite (same_record tgt t t' tgt_keys_NoDup Ht Ht' Hk).
  - intros Hp. apply list_elem_of_fmap_2. by apply list_elem_of_filter.
Qed.

Lemma delete_updated (l : table) : l ⊆ tgt →
  filter (λ r, ¬ removed_key (keys_of r)) (updated <$> l) = updated <$> filter (λ t, is_Some (partner src t)) l.
Proof.
  induction l as [|t l IH]; intros Hl; [done|]. rewrite fmap_cons, !filter_cons.
  rewrite IH by (intros x Hx; apply Hl; by right). rewrite updated_keys.
  assert (t ∈ tgt) as Hiff%removed_key_tgt by (apply Hl; by left).
  case_decide; case_decide; [done|tauto|tauto|done].
Qed.

Lemma delete_inserted (l : table) : (∀ s, s ∈ l → partner tgt s = None) →
  filter (λ r, ¬ removed_key (keys_of r)) ((λ s, updated (inserted s)) <$> l) = (λ s, updated (inserted s)) <$> l.
Proof.
  induction l as [|s l IH]; intros Hl; [done|]. rewrite fmap_cons, filter_cons_True.
  - rewrite IH; [done|]. intros x Hx. apply Hl. by right.
  - rewrite updated_keys, inserted_keys. intros (t & Hk & [_ Ht]%list_elem_of_filter)%list_elem_of_fmap.
    assert (partner tgt s = None) as Hp%partner_None by (apply Hl; by left).
    destruct Hp. rewrite Hk. by apply list_elem_of_fmap_2.
Qed.

(** The table after the plan. *)
Lemma plan_result :
  run_plan after_write (generate_data_sync_statements cols key_cols infos d) tgt =
  (updated <$> filter (λ t, is_Some (partner src t)) tgt) ++
  ((λ s, updated (inserted s)) <$> filter (λ s, partner tgt s = None) src).
Proof.
  unfold generate_data_sync_statements. rewrite !run_plan_app, run_inserts by apply some_writable.
  rewrite (run_updates (generate_update_sync_statements _ _ _ _)) by apply update_statements_are_updates.
  rewrite run_deletes, removed_keys by apply removed_not_null.
  rewrite added_records, fmap_app, filter_app. f_equal; [by apply delete_updated|].
  rewrite <-!list_fmap_compose. apply delete_inserted. by intros s [? _]%list_elem_of_filter.
Qed.

Lemma plan_synchronised :
  synchronised cols infos src (run_plan after_write (generate_data_sync_statements cols key_cols infos d) tgt).
Proof.
  exists ((λ s, match partner tgt s with Some t => updated t | None => updated (inserted s) end) <$> src). split.
  - rewrite plan_result, kept_partners. symmetry. apply (fmap_split (partner tgt)).
  - apply Forall2_fmap_l, Forall_Forall2_diag, Forall_forall. intros s Hs c Hc Hw. unfold compose.
    destruct (partner tgt s) as [t|] eqn:E; [by apply updated_agrees|].
    left. symmetry. by apply inserted_agrees.
Qed.
End tables.
End refine.

(** C4: For every two tables the comparison accepts, under the same conditions on the key, the
    batched INSERT, CASE UPDATE and DELETE statements of the plan turn the target into a permutation
    of records that agree with the source on the writable columns. *)
Theorem plan_synchronises (to_string : json → option str) (cols key_cols : list str)
    (infos : list DataGridColumnInfo) (after_write : record → record) (src tgt : table) (diff : DataCompareResult) :
  compare_data_rows to_string (table_options cols key_cols src tgt) = Some (Ok diff) →
  NoDup cols → key_cols ⊆ cols → (∀ c, c ∈ key_cols → writable infos c = true) →
  (∀ r, r ∈ src ++ tgt → JNull ∉ keys_of key_cols r) →
  key_texts_faithful key_cols to_string src tgt →
  (∀ r c, c ∈ cols → writable infos c = true → value_for (after_write r) c = value_for r c) →
  synchronised cols infos src
    (run_plan after_write (generate_data_sync_statements cols key_cols infos diff) tgt).
Proof.
  intros Hc Hcols Hkeys Hkw Hnull Hf Hwrite.
  pose proof (compare_data_rows_cases to_string (table_options cols key_cols src tgt)) as Hcase.
  rewrite Hc in Hcase. destruct Hcase as (Hne & Hd & ->). by apply plan_synchronised.
Qed.

(** ** Examples *)
Definition show_scalar (v : json) : option str :=
  match v with
  | JNull => Some (lit "null")
  | JNumber n => Some n
  | JString s => Some ([DQUOTE] ++ s ++ [DQUOTE])
  | _ => None
  end.
Definition person (id : json) (name : string) : record := <[lit "id" := id]> {[lit "name" := JString (lit name)]}.
Definition num (n : nat) : json := JNumber (show_nat n).

Lemma Forall_pairs {A} (P : A → A → Prop) (l : list A) :
  Forall (λ x, Forall (P x) l) l → ∀ x y, x ∈ l → y ∈ l → P x y.
Proof. intros Hl x y Hx Hy. rewrite Forall_forall in Hl. specialize (Hl x Hx). rewrite Forall_forall in Hl. auto. Qed.

Lemma plan_synchronises_witness :
  let cols := [lit "id"; lit "name"] in
  let src := [person (num 1) "ann"; person (num 2) "bob"] in
  let tgt := [person (num 2) "rob"; person (num 3) "eve"] in
  synchronised cols [] src
    (run_plan id (generate_data_sync_statements cols [lit "id"] []
       (compare_reference show_scalar (table_options cols [lit "id"] src tgt))) tgt).
Proof.
  apply (plan_synchronises show_scalar).
  - vm_compute. reflexivity.
  - refine (bool_decide_eq_true_1 _ _). vm_compute. reflexivity.
  - set_solver.
  - reflexivity.
  - apply Forall_forall. refine (bool_decide_eq_true_1 _ _). vm_compute. reflexivity.
  - unfold key_texts_faithful. refine (Forall_pairs (λ r r', join _ _ = join _ _ → _ = _) _ _). refine (bool_decide_eq_true_1 _ _). vm_compute. reflexivity.
  - reflexivity.
Defined.

(** A NULL in a key column: the condition is [column = NULL], which selects
    no record, so that the plan neither updates nor deletes such rows. *)
Lemma null_keys_match_nothing (key_cols : list str) (kv r : record) :
  JNull ∈ value_for kv <$> key_cols → matches (where_by_key kv key_cols) r = false.
Proof.
  unfold matches, where_by_key. induction key_cols as [|c l IH]; [by intros ?%not_elem_of_nil|].
  rewrite !fmap_cons. intros [Hv|Hin]%elem_of_cons; cbn [forallb fst snd].
  - rewrite <-Hv. by destruct (value_for r c).
  - rewrite IH by done. apply andb_false_r.
Qed.

Theorem null_keys_are_not_deleted (r : record) :
  let tgt := [person JNull "eve"] in
  let diff := compare_reference show_scalar (table_options [lit "id"; lit "name"] [lit "id"] [] tgt) in
  length (removed diff) = 1 ∧
  run_plan id (generate_data_sync_statements [lit "id"; lit "name"] [lit "id"] [] diff) tgt = tgt.
Proof. by vm_compute. Qed.

(** Two modified rows are written by one statement with a CASE per column. *)
Example batched_update_text :
  statement_sql (λ v _ _, default (lit "?") (show_scalar v)) (Some DatabaseType.Postgres) [] (lit "t")
    (UpdateCases [(lit "name", [([(lit "id", num 1)], JString (lit "ann")); ([(lit "id", num 2)], JString (lit "bob"))])]
       [[(lit "id", num 1)]; [(lit "id", num 2)]]) =
  lit "UPDATE t SET " ++ double_quotes (lit "name") ++ lit " = CASE WHEN " ++ double_quotes (lit "id") ++
  lit " = 1 THEN " ++ double_quotes (lit "ann") ++ lit " WHEN " ++ double_quotes (lit "id") ++ lit " = 2 THEN " ++
  double_quotes (lit "bob") ++ lit " ELSE " ++ double_quotes (lit "name") ++ lit " END WHERE (" ++
  double_quotes (lit "id") ++ lit " = 1) OR (" ++ double_quotes (lit "id") ++ lit " = 2);".
Proof. by vm_compute. Qed.
