(* ===== verification/FetchRows.v ===== *)
(** How [data_compare.rs] reads the two tables: the paged SELECT of each
    dialect, the loop that collects the pages, the sampled reads, and the
    choice between a full comparison, a sampled one and none.  The database
    behind [execute_sql_statement_with_options] is a parameter. *)
From S2P Require Import Prelude GridColumns StateStore SqlDialect Json Identifiers RowCompare SyncPlan SyncRefine.
Local Open Scope dbx_scope.

(** ** Levels *)
Inductive DegradationLevel := Full | Sample | SkipWithRisk.
#[export] Instance level_eq_dec : EqDecision DegradationLevel.
Proof. solve_decision. Defined.

Definition level_to_string (l : DegradationLevel) : str :=
  match l with Full => lit "full" | Sample => lit "sample" | SkipWithRisk => lit "skip_with_risk" end.

Definition level_try_from (s : str) : result DegradationLevel str :=
  if decide (s = lit "full") then Ok Full
  else if decide (s = lit "sample") then Ok Sample
  else if decide (s = lit "skip_with_risk") then Ok SkipWithRisk
  else Err (lit "Unknown degradation level: " ++ s).

Inductive SamplingStrategy := Random | ExtremeValues | Hybrid.

Record DegradationThreshold := {
  full_compare_max_rows : N;
  sample_max_rows : N;
  sample_size : nat;
  extreme_sample_count : nat;
}.

Definition default_threshold : DegradationThreshold :=
  {| full_compare_max_rows := 100000; sample_max_rows := 10000000; sample_size := 10000; extreme_sample_count := 500 |}.

Definition should_degrade (source_row_count target_row_count : N) (t : DegradationThreshold) : DegradationLevel :=
  let max_count := N.max source_row_count target_row_count in
  if decide (max_count ≤ full_compare_max_rows t)%N then Full
  else if decide (max_count ≤ sample_max_rows t)%N then Sample
  else SkipWithRisk.

(** ** Counts *)
Definition digits_value (s : str) : option N :=
  match s with
  | [] => None
  | _ => if forallb is_ascii_digit s then Some (foldl (λ n c, 10 * n + (c - 48))%N 0%N s) else None
  end.

(** [text.parse::<u64>().ok()] *)
Definition parse_u64 (s : str) : option N :=
  n ← digits_value (default s (strip_prefix (lit "+") s));
  if decide (n ≤ u64_max)%N then Some n else None.

(** [text.parse::<i64>().ok()] followed by [u64::try_from(_).ok()] *)
Definition parse_i64_as_u64 (s : str) : option N :=
  match strip_prefix (lit "-") s with
  | Some r => n ← digits_value r; if decide (n = 0%N) then Some 0%N else None
  | None => n ← digits_value (default s (strip_prefix (lit "+") s));
            if decide (n ≤ 9223372036854775807)%N then Some n else None
  end.

Definition first_count (value_display : json → str) (rows : list (list json)) : result N str :=
  match (row ← head rows; head row) with
  | None => Err (lit "COUNT query returned no rows")
  | Some value =>
      let count :=
        match value with
        | JNumber number => match parse_u64 number with Some n => Some n | None => parse_i64_as_u64 number end
        | JString text => parse_u64 text
        | _ => None
        end in
      match count with
      | Some n => Ok n
      | None => Err (lit "COUNT query returned non-numeric value: " ++ value_display value)
      end
  end.

(** ** Paged reads *)
Section sql.
Context (percent_decode : str → option str).

Definition select_list (d : DatabaseType.t) (cols : list str) : str :=
  match cols with [] => lit "*" | _ => join (lit ", ") (quote_table_identifier (Some d) <$> cols) end.

Definition ordered_by (d : DatabaseType.t) (direction : str) (key_cols : list str) : str :=
  join (lit ", ") ((λ column, quote_table_identifier (Some d) column ++ direction) <$> key_cols).

Definition build_rownum_data_compare_select_sql (d : DatabaseType.t) (table select_columns order_by : str)
    (cols : list str) (row_limit offset : nat) : str :=
  let base := lit "SELECT " ++ select_columns ++ lit " FROM " ++ table ++ order_by in
  if decide (offset = 0) then
    lit "SELECT " ++ select_columns ++ lit " FROM (" ++ base ++ lit ") WHERE ROWNUM <= " ++ show_nat row_limit
  else
    let alias := quote_table_identifier (Some d) (lit "__dbx_row_num") in
    lit "SELECT " ++ select_list d cols ++ lit " FROM (SELECT dbx_inner.*, ROWNUM AS " ++ alias ++
    lit " FROM (" ++ base ++ lit ") dbx_inner WHERE ROWNUM <= " ++ show_nat (offset + row_limit) ++
    lit ") WHERE " ++ alias ++ lit " > " ++ show_nat offset.

Definition build_data_compare_select_sql (d : DatabaseType.t) (schema table_name : str)
    (cols key_cols : list str) (row_limit offset : nat) : str :=
  let table := qualified_table_name percent_decode (Some d) (Some schema) table_name in
  let select_columns := select_list d cols in
  let asc := ordered_by d (lit " ASC") key_cols in
  let order_by := match key_cols with [] => [] | _ => lit " ORDER BY " ++ asc end in
  let order_expression := match key_cols with [] => lit "(SELECT NULL)" | _ => asc end in
  let select := lit "SELECT " ++ select_columns ++ lit " FROM " ++ table ++ order_by in
  match pagination_strategy (Some d) BoundedRead with
  | Db2FetchFirst | FetchFirst =>
      let offset_sql := if decide (0 < offset) then lit " OFFSET " ++ show_nat offset ++ lit " ROWS" else [] in
      select ++ offset_sql ++ lit " FETCH FIRST " ++ show_nat row_limit ++ lit " ROWS ONLY"
  | Rownum => build_rownum_data_compare_select_sql d table select_columns order_by cols row_limit offset
  | SqlServerTop =>
      if decide (offset = 0) then
        lit "SELECT TOP (" ++ show_nat row_limit ++ lit ") " ++ select_columns ++ lit " FROM " ++ table ++ order_by
      else
        let page := quote_table_identifier (Some DatabaseType.SqlServer) (lit "dbx_page") in
        let number := quote_table_identifier (Some DatabaseType.SqlServer) (lit "__dbx_row_num") in
        lit "WITH " ++ page ++ lit " AS (SELECT " ++ select_columns ++ lit ", ROW_NUMBER() OVER (ORDER BY " ++
        order_expression ++ lit ") AS " ++ number ++ lit " FROM " ++ table ++ lit ") SELECT " ++ select_columns ++
        lit " FROM " ++ page ++ lit " WHERE " ++ number ++ lit " > " ++ show_nat offset ++ lit " AND " ++ number ++
        lit " <= " ++ show_nat (offset + row_limit) ++ lit " ORDER BY " ++ number
  | IrisTop => lit "SELECT TOP " ++ show_nat row_limit ++ lit " " ++ select_columns ++ lit " FROM " ++ table ++ order_by
  | InformixFirst =>
      let clause := if decide (0 < offset) then lit "SKIP " ++ show_nat offset ++ lit " FIRST " ++ show_nat row_limit
                    else lit "FIRST " ++ show_nat row_limit in
      lit "SELECT " ++ clause ++ lit " " ++ select_columns ++ lit " FROM " ++ table ++ order_by
  | FirebirdRows => select ++ lit " " ++ firebird_rows_clause row_limit offset
  | AgentMaxRows => select ++ lit ";"
  | Unbounded => select
  | QuestDbLimit =>
      if decide (0 < offset) then select ++ lit " LIMIT " ++ show_nat offset ++ lit ", " ++ show_nat (offset + row_limit)
      else select ++ lit " LIMIT " ++ show_nat row_limit
  | LimitOffset =>
      let offset_sql := if decide (0 < offset) then lit " OFFSET " ++ show_nat offset else [] in
      select ++ lit " LIMIT " ++ show_nat row_limit ++ offset_sql ++ lit ";"
  end.

(** [SELECT] of [count] rows in random order. *)
Definition random_select (d : DatabaseType.t) (select_columns table : str) (count : nat) : option str :=
  let n := show_nat count in
  let from := select_columns ++ lit " FROM " ++ table in
  match d with
  | DatabaseType.Postgres | DatabaseType.Redshift | DatabaseType.DuckDb | DatabaseType.Databricks =>
      Some (lit "SELECT " ++ from ++ lit " TABLESAMPLE SYSTEM (1) LIMIT " ++ n)
  | DatabaseType.SqlServer =>
      Some (lit "SELECT TOP (" ++ n ++ lit ") " ++ from ++ lit " TABLESAMPLE (" ++ n ++ lit " ROWS)")
  | DatabaseType.Mysql | DatabaseType.Doris | DatabaseType.StarRocks | DatabaseType.Goldendb =>
      Some (lit "SELECT " ++ from ++ lit " ORDER BY RAND() LIMIT " ++ n)
  | DatabaseType.Sqlite | DatabaseType.Rqlite | DatabaseType.Turso =>
      Some (lit "SELECT " ++ from ++ lit " ORDER BY RANDOM() LIMIT " ++ n)
  | DatabaseType.ClickHouse => Some (lit "SELECT " ++ from ++ lit " ORDER BY rand() LIMIT " ++ n)
  | DatabaseType.Oracle | DatabaseType.OceanbaseOracle | DatabaseType.Dameng =>
      Some (lit "SELECT " ++ select_columns ++ lit " FROM (SELECT " ++ from ++
            lit " ORDER BY DBMS_RANDOM.VALUE) WHERE ROWNUM <= " ++ n)
  | DatabaseType.Iris => Some (lit "SELECT TOP " ++ n ++ lit " " ++ from ++ lit " ORDER BY RAND()")
  | DatabaseType.Questdb => Some (lit "SELECT " ++ from ++ lit " ORDER BY RAND() LIMIT " ++ n)
  | DatabaseType.Informix => Some (lit "SELECT FIRST " ++ n ++ lit " " ++ from ++ lit " ORDER BY RAND()")
  | _ => None
  end.

Definition build_sampling_select_sql (d : DatabaseType.t) (schema table_name : str) (cols key_cols : list str)
    (strategy : SamplingStrategy) (size : nat) : str :=
  let table := qualified_table_name percent_decode (Some d) (Some schema) table_name in
  let select_columns := select_list d cols in
  let select := lit "SELECT " ++ select_columns ++ lit " FROM " ++ table in
  let plain := select ++ lit " LIMIT " ++ show_nat size in
  let asc := ordered_by d (lit " ASC") key_cols in
  let desc := ordered_by d (lit " DESC") key_cols in
  let part order n := lit "(" ++ select ++ lit " ORDER BY " ++ order ++ lit " LIMIT " ++ show_nat n ++ lit ")" in
  match strategy with
  | Random =>
      match random_select d select_columns table size with
      | Some sql => sql
      | None => match key_cols with
                | [] => plain
                | _ => select ++ lit " ORDER BY " ++ asc ++ lit " LIMIT " ++ show_nat size
                end
      end
  | ExtremeValues =>
      match key_cols with
      | [] => plain
      | _ =>
          let head_count := size / 2 in
          let tail_count := size - head_count in
          lit "SELECT " ++ select_columns ++ lit " FROM ( " ++ part asc head_count ++ lit " UNION ALL " ++
          part desc tail_count ++ lit " ) AS _extreme_sample"
      end
  | Hybrid =>
      match key_cols with
      | [] => plain
      | _ =>
          let random_count := size / 2 in
          let head_count := (size - random_count) / 2 in
          let tail_count := size - random_count - head_count in
          let random_part :=
            lit "(" ++ default (select ++ lit " LIMIT " ++ show_nat random_count)
                         (random_select d select_columns table random_count) ++ lit ")" in
          lit "SELECT " ++ select_columns ++ lit " FROM ( " ++ random_part ++ lit " UNION ALL " ++
          part asc head_count ++ lit " UNION ALL " ++ part desc tail_count ++ lit " ) AS _hybrid_sample"
      end
  end.

(** ** The page loop

    [execute sql max_rows] is the connection's answer; [None] of the loop
    means that the fuel ran out. *)
Section fetch.
Context (execute : str → nat → result (list (list json)) str).
Context (d : DatabaseType.t) (schema table_name : str) (cols key_cols : list str) (fetch_batch_size : nat).

Fixpoint fetch_loop (fuel : nat) (rows : list (list json)) (offset : nat) : option (result (list (list json)) str) :=
  match fuel with
  | 0 => None
  | S fuel' =>
      let sql := build_data_compare_select_sql d schema table_name cols key_cols fetch_batch_size offset in
      match execute sql fetch_batch_size with
      | Err e => Some (Err e)
      | Ok page =>
          let fetched := length page in
          if decide (fetched = 0) then Some (Ok rows)
          else if decide (fetched < fetch_batch_size) then Some (Ok (rows ++ page))
          else fetch_loop fuel' (rows ++ page) (offset + fetched)
      end
  end.

Definition fetch_compare_rows (fuel : nat) : option (result (list (list json)) str) := fetch_loop fuel [] 0.

Definition fetch_sampled_compare_rows (strategy : SamplingStrategy) (size : nat) : result (list (list json)) str :=
  if decide (size = 0) then Ok []
  else execute (build_sampling_select_sql d schema table_name cols key_cols strategy size) size.
End fetch.
End sql.

(** ** Counting rows *)
Definition victoriametrics_metric_selector (metric_name : str) : str :=
  let escaped := replace_str [NL] [BACKSLASH; chr "n"]
    (replace_str [DQUOTE] [BACKSLASH; DQUOTE] (replace_str [BACKSLASH] [BACKSLASH; BACKSLASH] metric_name)) in
  lit "{__name__=" ++ [DQUOTE] ++ escaped ++ [DQUOTE] ++ lit "}".

Definition build_count_table_sql (percent_decode : str → option str) (d : option DatabaseType.t)
    (schema : option str) (table_name : str) : str :=
  if decide (d = Some DatabaseType.VictoriaMetrics)
  then lit "count(" ++ victoriametrics_metric_selector table_name ++ lit ")"
  else lit "SELECT COUNT(*) AS row_count FROM " ++ qualified_table_name percent_decode d schema table_name.

(** ** Comparing two tables *)

(** The fields of [types::ColumnInfo] the comparison reads. *)
Record ColumnInfo := {
  col_name : str;
  col_data_type : str;
  col_is_nullable : bool;
  col_column_default : option str;
  col_is_primary_key : bool;
  col_extra : option str;
}.

Definition data_grid_column_info (column : ColumnInfo) : DataGridColumnInfo :=
  {| info_name := col_name column; data_type := col_data_type column; is_nullable := col_is_nullable column;
     is_primary_key := col_is_primary_key column; column_default := col_column_default column;
     extra := col_extra column |}.

(** One side of the comparison: connection, database, schema and table. *)
Record side := { connection_id : str; database : str; side_schema : str; side_table : str }.

Record DataCompareFromTablesOptions := {
  source : side;
  target : side;
  opt_columns : list str;
  opt_key_columns : list str;
  fetch_batch_size : option nat;
  degradation_threshold : option DegradationThreshold;
  sampling_strategy : option SamplingStrategy;
}.

Record DataCompareFromTablesPreparation := {
  from_result : DataCompareResult;
  from_sync_statements : list str;
  from_sync_sql : str;
  from_source_row_count : N;
  from_target_row_count : N;
  from_degradation_level : str;
  from_verification_method : str;
}.

(** What the comparison asks of the rest of the program: the configuration of
    a connection, a statement executed on it with a row limit, and the columns
    of a table. *)
Class Databases := {
  config_db_type : str → option DatabaseType.t;
  execute_sql : side → str → nat → result (list (list json)) str;
  get_columns_core : side → result (list ColumnInfo) str;
  percent_decode : str → option str;
  json_to_string : json → option str;
  grid_sql_literal : json → option DatabaseType.t → option DataGridColumnInfo → str;
}.

Section from_tables.
Context `{Databases}.

Definition connection_database_type (id : str) : result DatabaseType.t str :=
  match config_db_type id with
  | Some d => Ok d
  | None => Err (lit "Connection config not found: " ++ id)
  end.

Definition count_query (d : DatabaseType.t) (s : side) : result (list (list json)) str :=
  execute_sql s (build_count_table_sql percent_decode (Some d) (Some (side_schema s)) (side_table s)) 1.

(** Both counts; [tokio::try_join!] runs the queries concurrently, and when
    both fail the error of the source is reported here. *)
Definition count_both (source_type target_type : DatabaseType.t) (o : DataCompareFromTablesOptions) :
    result (N * N) str :=
  let? source_result := count_query source_type (source o) in
  let? target_result := count_query target_type (target o) in
  let? source_count := first_count (json_stringify json_to_string) source_result in
  let? target_count := first_count (json_stringify json_to_string) target_result in
  Ok (source_count, target_count).

Definition fetch_side (d : DatabaseType.t) (s : side) (cols key_cols : list str) (batch fuel : nat) :
    option (result (list (list json)) str) :=
  fetch_compare_rows percent_decode (execute_sql s) d (side_schema s) (side_table s) cols key_cols batch fuel.

Definition sample_side (d : DatabaseType.t) (s : side) (cols key_cols : list str) (strategy : SamplingStrategy)
    (size : nat) : result (list (list json)) str :=
  fetch_sampled_compare_rows percent_decode (execute_sql s) d (side_schema s) (side_table s) cols key_cols strategy size.

(** The rows of both sides for a level, read concurrently in the same way. *)
Definition read_both (level : DegradationLevel) (o : DataCompareFromTablesOptions)
    (source_type target_type : DatabaseType.t) (threshold : DegradationThreshold) (fuel : nat) :
    option (result (list (list json) * list (list json) * str) str) :=
  let batch := Nat.max (default 1000 (fetch_batch_size o)) 1 in
  let strategy := default Hybrid (sampling_strategy o) in
  match level with
  | Full =>
      src ← fetch_side source_type (source o) (opt_columns o) (opt_key_columns o) batch fuel;
      tgt ← fetch_side target_type (target o) (opt_columns o) (opt_key_columns o) batch fuel;
      Some (let? src_rows := src in let? tgt_rows := tgt in Ok (src_rows, tgt_rows, lit "full_compare"))
  | Sample =>
      Some (let? src_rows := sample_side source_type (source o) (opt_columns o) (opt_key_columns o) strategy
                               (sample_size threshold) in
            let? tgt_rows := sample_side target_type (target o) (opt_columns o) (opt_key_columns o) strategy
                               (sample_size threshold) in
            Ok (src_rows, tgt_rows, lit "sampled"))
  | SkipWithRisk => Some (Ok ([], [], lit "skipped"))
  end.

(** [None]: the page loop of one side has not ended within [fuel] pages (or the
    unreachable panic of the comparison). *)
Definition prepare_data_compare_from_tables (o : DataCompareFromTablesOptions) (fuel : nat) :
    option (result DataCompareFromTablesPreparation str) :=
  match connection_database_type (connection_id (source o)) with
  | Err e => Some (Err e)
  | Ok source_type =>
  match connection_database_type (connection_id (target o)) with
  | Err e => Some (Err e)
  | Ok target_type =>
  match count_both source_type target_type o with
  | Err e => Some (Err e)
  | Ok (source_count, target_count) =>
  let threshold := default default_threshold (degradation_threshold o) in
  let level := should_degrade source_count target_count threshold in
  both ← read_both level o source_type target_type threshold fuel;
  match both with
  | Err e => Some (Err e)
  | Ok (src_rows, tgt_rows, method) =>
  match get_columns_core (target o) with
  | Err e => Some (Err e)
  | Ok target_columns =>
  prepared ← prepare_data_compare percent_decode grid_sql_literal json_to_string
    {| columns := opt_columns o; key_columns := opt_key_columns o; source_rows := src_rows; target_rows := tgt_rows |}
    (side_table (target o)) (Some (side_schema (target o))) (data_grid_column_info <$> target_columns)
    (Some target_type);
  Some (let? preparation := prepared in
        Ok {| from_result := prep_result preparation;
              from_sync_statements := prep_sync_statements preparation;
              from_sync_sql := prep_sync_sql preparation;
              from_source_row_count := source_count;
              from_target_row_count := target_count;
              from_degradation_level := level_to_string level;
              from_verification_method := method |})
  end end end end end.
End from_tables.

(** ** The page loop ends *)
Section pages.
Context (percent_decode : str → option str) (execute : str → nat → result (list (list json)) str).
Context (d : DatabaseType.t) (schema table_name : str) (cols key_cols : list str) (batch : nat).

Abbreviation page_sql offset :=
  (build_data_compare_select_sql percent_decode d schema table_name cols key_cols batch offset).

(** The database answers a page query with the rows from the offset on, in an
    order that does not change between queries. *)
Definition pages_of (rows : list (list json)) : Prop :=
  ∀ offset, offset ≤ length rows → execute (page_sql offset) batch = Ok (take batch (drop offset rows)).

Lemma fetch_loop_pages rows offset fuel :
  0 < batch → pages_of rows → offset ≤ length rows → length rows - offset < fuel →
  fetch_loop percent_decode execute d schema table_name cols key_cols batch fuel (take offset rows) offset =
  Some (Ok rows).
Proof.
  intros Hb Hp. revert offset. induction fuel as [|fuel IH]; intros offset Ho Hf; [lia|].
  cbn [fetch_loop]. rewrite Hp by done. rewrite length_take, length_drop.
  case_decide; [by rewrite take_ge by lia|]. case_decide.
  - rewrite (take_ge (drop offset rows)) by (rewrite length_drop; lia). by rewrite take_drop.
  - replace (batch `min` (length rows - offset)) with batch by lia.
    rewrite take_take_drop. apply IH; lia.
Qed.

Lemma fetch_whole_table rows :
  0 < batch → pages_of rows →
  fetch_compare_rows percent_decode execute d schema table_name cols key_cols batch (S (length rows)) = Some (Ok rows).
Proof. intros Hb Hp. apply (fetch_loop_pages rows 0); [done|done|lia|lia]. Qed.

(** The page query of these dialects does not mention the offset. *)
Lemma page_sql_ignores_offset offset :
  pagination_strategy (Some d) BoundedRead ∈ [AgentMaxRows; IrisTop] → page_sql offset = page_sql 0.
Proof.
  intros Hs. unfold build_data_compare_select_sql. by apply elem_of_cons in Hs as [-> | ->%list_elem_of_singleton].
Qed.

Lemma fetch_loop_repeats page fuel rows offset :
  pagination_strategy (Some d) BoundedRead ∈ [AgentMaxRows; IrisTop] →
  execute (page_sql 0) batch = Ok page → length page = batch → 0 < batch →
  fetch_loop percent_decode execute d schema table_name cols key_cols batch fuel rows offset = None.
Proof.
  intros Hs He Hl Hb. revert rows offset. induction fuel as [|fuel IH]; intros rows offset; [done|].
  cbn [fetch_loop]. rewrite page_sql_ignores_offset, He by done.
  rewrite !decide_False by lia. apply IH.
Qed.
End pages.

(** When the database answers each page query with the rows from its offset on, the page loop
    ends and returns the whole table, for every positive page size. *)
Theorem paged_read_collects_the_table percent_decode execute d schema table_name cols key_cols batch rows :
  0 < batch → pages_of percent_decode execute d schema table_name cols key_cols batch rows →
  ∃ fuel, fetch_compare_rows percent_decode execute d schema table_name cols key_cols batch fuel = Some (Ok rows).
Proof. intros. eexists. by apply fetch_whole_table. Qed.

(** C39: On JDBC and IRIS connections, whose page query does not contain the offset, the page loop
    never ends once the first page is full. *)
Theorem paged_read_never_ends percent_decode execute d schema table_name cols key_cols batch page :
  d ∈ [DatabaseType.Jdbc; DatabaseType.Iris] →
  execute (build_data_compare_select_sql percent_decode d schema table_name cols key_cols batch 0) batch = Ok page →
  length page = batch → 0 < batch →
  ∀ fuel, fetch_compare_rows percent_decode execute d schema table_name cols key_cols batch fuel = None.
Proof.
  intros Hd He Hl Hb fuel. eapply fetch_loop_repeats; [|done..]. 
  apply elem_of_cons in Hd as [-> | ->%list_elem_of_singleton]; simpl; set_solver.
Qed.

(** Pages served from an association list of the queries. *)
Definition serve (l : list (str * list (list json))) (sql : str) (_ : nat) : result (list (list json)) str :=
  match List.find (λ p, bool_decide (p.1 = sql)) l with Some p => Ok p.2 | None => Err (lit "unknown query") end.

Definition three_rows : list (list json) := [[JNumber (lit "1")]; [JNumber (lit "2")]; [JNumber (lit "3")]].
Definition id_page (d : DatabaseType.t) (offset : nat) : str :=
  build_data_compare_select_sql (λ _, None) d (lit "s") (lit "t") [lit "id"] [lit "id"] 2 offset.

Lemma paged_read_witness :
  ∃ fuel, fetch_compare_rows (λ _, None)
    (serve ((λ offset, (id_page DatabaseType.Postgres offset, take 2 (drop offset three_rows))) <$> seq 0 4))
    DatabaseType.Postgres (lit "s") (lit "t") [lit "id"] [lit "id"] 2 fuel = Some (Ok three_rows).
Proof.
  apply paged_read_collects_the_table; [lia|]. intros offset Ho. simpl in Ho.
  do 4 (destruct offset as [|offset]; [vm_compute; reflexivity|]). exfalso. lia.
Defined.

Lemma paged_read_never_ends_witness :
  fetch_compare_rows (λ _, None) (serve [(id_page DatabaseType.Iris 0, take 2 three_rows)])
    DatabaseType.Iris (lit "s") (lit "t") [lit "id"] [lit "id"] 2 100 = None.
Proof.
  eapply paged_read_never_ends; [apply list_elem_of_further, list_elem_of_here|vm_compute; reflexivity|reflexivity|lia].
Defined.

(** ** Comparing two tables *)
Section from_tables_spec.
Context `{Databases}.

(** Both tables can be read in full, and are small enough to be. *)
Record readable (o : DataCompareFromTablesOptions) (src tgt : list (list json)) (infos : list ColumnInfo) : Prop := {
  read_types : ∃ source_type target_type source_count target_count,
    config_db_type (connection_id (source o)) = Some source_type ∧
    config_db_type (connection_id (target o)) = Some target_type ∧
    count_both source_type target_type o = Ok (source_count, target_count) ∧
    should_degrade source_count target_count (default default_threshold (degradation_threshold o)) = Full ∧
    pages_of percent_decode (execute_sql (source o)) source_type (side_schema (source o)) (side_table (source o))
      (opt_columns o) (opt_key_columns o) (Nat.max (default 1000 (fetch_batch_size o)) 1) src ∧
    pages_of percent_decode (execute_sql (target o)) target_type (side_schema (target o)) (side_table (target o))
      (opt_columns o) (opt_key_columns o) (Nat.max (default 1000 (fetch_batch_size o)) 1) tgt;
  read_columns : get_columns_core (target o) = Ok infos;
}.

Definition whole_tables (o : DataCompareFromTablesOptions) (src tgt : list (list json)) : CompareDataRowsOptions :=
  {| columns := opt_columns o; key_columns := opt_key_columns o; source_rows := src; target_rows := tgt |}.

Lemma read_both_full o source_type target_type threshold src tgt :
  let batch := Nat.max (default 1000 (fetch_batch_size o)) 1 in
  pages_of percent_decode (execute_sql (source o)) source_type (side_schema (source o)) (side_table (source o))
    (opt_columns o) (opt_key_columns o) batch src →
  pages_of percent_decode (execute_sql (target o)) target_type (side_schema (target o)) (side_table (target o))
    (opt_columns o) (opt_key_columns o) batch tgt →
  read_both Full o source_type target_type threshold (S (length src + length tgt)) =
  Some (Ok (src, tgt, lit "full_compare")).
Proof.
  intros batch Hs Ht. unfold read_both, fetch_side, fetch_compare_rows.
  pose proof (fetch_loop_pages percent_decode (execute_sql (source o)) source_type (side_schema (source o)) (side_table (source o))
    (opt_columns o) (opt_key_columns o) batch src 0
    (S (length src + length tgt))) as Es.
  pose proof (fetch_loop_pages percent_decode (execute_sql (target o)) target_type (side_schema (target o)) (side_table (target o))
    (opt_columns o) (opt_key_columns o) batch tgt 0
    (S (length src + length tgt))) as Et.
  rewrite take_0 in Es, Et. fold batch. rewrite Es, Et by (done || lia). done.
Qed.

Abbreviation plan_texts o name schema_name infos d r :=
  (statement_sql grid_sql_literal d infos (qualified_table_name percent_decode d schema_name name) <$>
   generate_data_sync_statements (columns o) (key_columns o) infos r).

Lemma prepare_data_compare_ok o name schema_name infos d r :
  compare_data_rows json_to_string o = Some (Ok r) →
  ∃ p, prepare_data_compare percent_decode grid_sql_literal json_to_string o name schema_name infos d = Some (Ok p) ∧
       prep_result p = r ∧ prep_sync_statements p = plan_texts o name schema_name infos d r.
Proof.
  intros Hc. unfold prepare_data_compare. rewrite Hc. simpl. eexists. split_and!; [done..|].
  simpl. apply app_nil_r.
Qed.

Lemma full_comparison o src tgt infos :
  readable o src tgt infos → opt_key_columns o ≠ [] → distinct_keys json_to_string (whole_tables o src tgt) →
  ∃ fuel p d, prepare_data_compare_from_tables o fuel = Some (Ok p) ∧
    from_degradation_level p = lit "full" ∧
    from_result p = compare_reference json_to_string (whole_tables o src tgt) ∧
    from_sync_statements p =
      plan_texts (whole_tables o src tgt) (side_table (target o)) (Some (side_schema (target o)))
        (data_grid_column_info <$> infos) d (from_result p).
Proof.
  intros [(st & tt & sc & tc & Hst & Htt & Hc & Hl & Hs & Ht) Hi] Hk Hd.
  destruct (prepare_data_compare_ok _ (side_table (target o)) (Some (side_schema (target o)))
    (data_grid_column_info <$> infos) (Some tt) _ (compare_data_rows_ok json_to_string (whole_tables o src tgt) Hk Hd))
    as (p & Hp & Hr & Hss).
  exists (S (length src + length tgt)). eexists. exists (Some tt).
  unfold prepare_data_compare_from_tables, connection_database_type.
  rewrite Hst, Htt, Hc, Hl, read_both_full by done. simpl. rewrite Hi.
  unfold whole_tables in Hp. rewrite Hp. simpl. split_and!; [done..|]. by rewrite Hr.
Qed.

(** C2: Suppose that both databases answer every page query with the rows from its offset on, in one
    order (as the dialects whose page query carries the offset can; JDBC and IRIS cannot), that the
    row counts are below the threshold for reading in full, that column names are distinct and the
    key columns among them, writable, unique on each side, never NULL and told apart by their text,
    and that the database keeps what is written to a writable column. Then comparing the two tables
    ends, and the SQL it returns is the text of statements that, run on the target table of an
    abstract database, make its records those of the source on every column that can be written. *)
Theorem full_comparison_synchronises (o : DataCompareFromTablesOptions) (src tgt : list (gmap str json))
    (infos : list ColumnInfo) (after_write : gmap str json → gmap str json) :
  readable o (select (opt_columns o) src) (select (opt_columns o) tgt) infos →
  opt_key_columns o ≠ [] →
  distinct_keys json_to_string (table_options (opt_columns o) (opt_key_columns o) src tgt) →
  NoDup (opt_columns o) → opt_key_columns o ⊆ opt_columns o →
  (∀ c, c ∈ opt_key_columns o → writable (data_grid_column_info <$> infos) c = true) →
  (∀ r, r ∈ src ++ tgt → JNull ∉ keys_of (opt_key_columns o) r) →
  key_texts_faithful (opt_key_columns o) json_to_string src tgt →
  (∀ r c, c ∈ opt_columns o → writable (data_grid_column_info <$> infos) c = true →
     value_for (after_write r) c = value_for r c) →
  ∃ fuel p d plan, prepare_data_compare_from_tables o fuel = Some (Ok p) ∧
    from_degradation_level p = lit "full" ∧
    from_sync_statements p =
      statement_sql grid_sql_literal d (data_grid_column_info <$> infos)
        (qualified_table_name percent_decode d (Some (side_schema (target o))) (side_table (target o))) <$> plan ∧
    synchronised (opt_columns o) (data_grid_column_info <$> infos) src (run_plan after_write plan tgt).
Proof.
  intros Hr Hne Hd Hcols Hkeys Hkw Hnull Hf Hwrite.
  destruct (full_comparison o _ _ infos Hr Hne Hd) as (fuel & p & d & Hp & Hl & Hres & Hst).
  eexists fuel, p, d, _. split_and!; [done..|exact Hst|]. rewrite Hres. by apply plan_synchronised.
Qed.
End from_tables_spec.

(** ** A pair of small databases *)
Definition left_side : side := {| connection_id := lit "a"; database := lit "db"; side_schema := lit "s"; side_table := lit "a" |}.
Definition right_side : side := {| connection_id := lit "b"; database := lit "db"; side_schema := lit "s"; side_table := lit "b" |}.

(** The answers of a table on Postgres: its row count, its pages of ten rows
    and [sampled] to any other query. *)
Definition answers (s : side) (cols keys : list str) (rows sampled : list (list json)) (sql : str) :
    result (list (list json)) str :=
  if decide (sql = build_count_table_sql (λ _, None) (Some DatabaseType.Postgres) (Some (side_schema s)) (side_table s))
  then Ok [[num (length rows)]]
  else match List.find (λ offset, bool_decide (sql = build_data_compare_select_sql (λ _, None) DatabaseType.Postgres
                           (side_schema s) (side_table s) cols keys 10 offset)) (seq 0 (S (length rows))) with
       | Some offset => Ok (take 10 (drop offset rows))
       | None => Ok sampled
       end.

Definition small_databases (cols keys : list str) (src tgt src_sample tgt_sample : list (list json)) : Databases :=
  {| config_db_type _ := Some DatabaseType.Postgres;
     execute_sql s sql _ :=
       if decide (connection_id s = lit "a") then answers s cols keys src src_sample sql
       else answers s cols keys tgt tgt_sample sql;
     get_columns_core _ := Ok [];
     percent_decode _ := None;
     json_to_string := show_scalar;
     grid_sql_literal v _ _ := default (lit "?") (show_scalar v) |}.

Definition small_options (t : option DegradationThreshold) : DataCompareFromTablesOptions :=
  {| source := left_side; target := right_side; opt_columns := [lit "id"; lit "name"]; opt_key_columns := [lit "id"];
     fetch_batch_size := Some 10; degradation_threshold := t; sampling_strategy := None |}.

Lemma full_comparison_synchronises_witness :
  let cols := [lit "id"; lit "name"] in
  let src := [person (num 1) "ann"; person (num 2) "bob"] in
  let tgt := [person (num 2) "rob"; person (num 3) "eve"] in
  let dbs := small_databases cols [lit "id"] (select cols src) (select cols tgt) [] [] in
  ∃ fuel p d plan,
    prepare_data_compare_from_tables (H := dbs) (small_options None) fuel = Some (Ok p) ∧
    from_degradation_level p = lit "full" ∧
    from_sync_statements p =
      statement_sql (grid_sql_literal (Databases := dbs)) d []
        (qualified_table_name (λ _, None) d (Some (lit "s")) (lit "b")) <$> plan ∧
    synchronised cols [] src (run_plan id plan tgt).
Proof.
  intros cols src tgt dbs.
  apply (full_comparison_synchronises (H := dbs) (small_options None) src tgt [] id).
  - split; [|reflexivity]. exists DatabaseType.Postgres, DatabaseType.Postgres, 2%N, 2%N.
    split_and!; [vm_compute; reflexivity..| |]; intros offset Ho;
      do 3 (destruct offset as [|offset]; [vm_compute; reflexivity|]); simpl in Ho; exfalso; lia.
  - discriminate.
  - split; refine (bool_decide_eq_true_1 _ _); vm_compute; reflexivity.
  - refine (bool_decide_eq_true_1 _ _); vm_compute; reflexivity.
  - intros c ->%list_elem_of_singleton. left.
  - reflexivity.
  - apply Forall_forall. refine (bool_decide_eq_true_1 _ _). vm_compute. reflexivity.
  - unfold key_texts_faithful. refine (Forall_pairs (λ r r', join _ _ = join _ _ → _ = _) _ _).
    refine (bool_decide_eq_true_1 _ _). vm_compute. reflexivity.
  - reflexivity.
Defined.

(** Two equal tables, compared by samples that happen to differ: the plan
    inserts a row the target has and deletes a row the source has. *)
Theorem sampled_comparison_deletes_common_rows :
  let row n := [num n; JString (lit "x")] in
  let t := {| full_compare_max_rows := 1; sample_max_rows := 100; sample_size := 1; extreme_sample_count := 1 |} in
  let dbs := small_databases [lit "id"; lit "name"] [lit "id"] [row 1; row 2] [row 1; row 2] [row 1] [row 2] in
  ∃ p, prepare_data_compare_from_tables (H := dbs) (small_options (Some t)) 1 = Some (Ok p) ∧
    from_degradation_level p = lit "sample" ∧
    (row_key <$> added (from_result p)) = [lit "1"] ∧ (row_key <$> removed (from_result p)) = [lit "2"] ∧
    length (from_sync_statements p) = 2.
Proof. eexists. split; [vm_compute; reflexivity|]. vm_compute. done. Qed.

(** The parts of a hybrid sample are concatenated, so that a row can be in two
    of them; the comparison then reports a duplicate key. *)
Theorem hybrid_sample_repeats_rows :
  let row n := [num n; JString (lit "x")] in
  let t := {| full_compare_max_rows := 1; sample_max_rows := 100; sample_size := 4; extreme_sample_count := 1 |} in
  let dbs := small_databases [lit "id"; lit "name"] [lit "id"] [row 1; row 2] [row 1; row 2]
               [row 1; row 2; row 1; row 2] [row 1; row 2; row 1; row 2] in
  prepare_data_compare_from_tables (H := dbs) (small_options (Some t)) 1 =
  Some (Err (lit "Duplicate source key for column(s) [id]: 1")).
Proof. vm_compute. done. Qed.

(** The samples by extreme values use [LIMIT] on every dialect, SQL Server
    included. *)
Theorem hybrid_sample_uses_limit :
  str_contains (lit " LIMIT ") (build_sampling_select_sql (λ _, None) DatabaseType.SqlServer (lit "dbo") (lit "t")
                                  [lit "id"] [lit "id"] Hybrid 100) = true.
Proof. by vm_compute. Qed.

(** ** Skipped comparisons *)
Lemma no_difference_no_statements (cols key_cols : list str) (infos : list DataGridColumnInfo) :
  generate_data_sync_statements cols key_cols infos {| added := []; removed := []; modified := [] |} = [].
Proof.
  unfold generate_data_sync_statements, generate_insert_sync_statements. by case_decide.
Qed.

Lemma skipped_comparison `{Databases} o fuel p :
  prepare_data_compare_from_tables o fuel = Some (Ok p) → from_degradation_level p = lit "skip_with_risk" →
  from_sync_statements p = [] ∧
  from_result p = {| added := []; removed := []; modified := [] |} ∧ from_verification_method p = lit "skipped".
Proof.
  unfold prepare_data_compare_from_tables. intros Hp Hl.
  destruct (connection_database_type (connection_id (source o))) as [st|]; [|done].
  destruct (connection_database_type (connection_id (target o))) as [tt|]; [|done].
  destruct (count_both st tt o) as [[sc tc]|]; [|done].
  apply bind_Some in Hp as (both & Hb & Hp). destruct both as [[[sr tr] method]|]; [|done].
  destruct (get_columns_core (target o)); [|done].
  apply bind_Some in Hp as (prep & Hc & Hp). destruct prep as [prep|]; [|done]. injection Hp as <-.
  cbn [from_degradation_level] in Hl. destruct (should_degrade sc tc _); [discriminate Hl..|].
  cbn [read_both] in Hb. injection Hb as <- <- <-.
  unfold prepare_data_compare, compare_data_rows in Hc. cbn [key_columns source_rows target_rows] in Hc.
  case_decide; [done|]. simpl in Hc. injection Hc as <-. split_and!; [|done..].
  simpl. unfold table_sync_sql, table_statements. simpl. by rewrite no_difference_no_statements.
Qed.

(** ** Levels *)
Lemma level_round_trip l : level_try_from (level_to_string l) = Ok l.
Proof. by destruct l. Qed.

Lemma level_try_from_ok s l : level_try_from s = Ok l → s = level_to_string l.
Proof. unfold level_try_from. repeat case_decide; intros [= <-]; by subst. Qed.
