(* ===== verification/TableSelect.v ===== *)
(** The statement that shows rows of a table
    ([crates/dbx-core/src/sql_dialect/table_select.rs]), for a caller that gives
    the database, a schema, a table and a limit.

    The other options of the builder then have their defaults: no driver
    profile, catalog or reported quote, no columns, keys, filter or order, no
    offset, no row ids and no preview of large values. *)
From S2P Require Import Prelude SqlDialect Identifiers GridColumns GridSave FetchRows.
Local Open Scope dbx_scope.

Section select.
Context `{Letters} (percent_decode : str → option str).

(** The table in the FROM clause. *)
Definition table_data_name (d : option DatabaseType.t) (schema : option str) (table : str) : str :=
  if is_db DatabaseType.Iris d || uses_connection_identifier_quote d None
  then table_data_qualified_table_name percent_decode d schema table None
  else qualified_table_name_with_catalog percent_decode d None schema None table.
Definition default_order_by (d : option DatabaseType.t) : option str :=
  if is_any_db [DatabaseType.InfluxDb; DatabaseType.InfluxDb3] d then Some (lit "time DESC")
  else if is_db DatabaseType.Impala d then Some (lit "1") else None.
Definition build_neo4j_table_select_sql (table : str) (limit : nat) : str :=
  lit "MATCH (n:" ++ quote_table_identifier (Some DatabaseType.Neo4j) table ++ lit ") RETURN elementId(n) AS " ++
  quote_table_identifier (Some DatabaseType.Neo4j) DBX_NEO4J_ELEMENT_ID_COLUMN ++ lit ", n LIMIT " ++ show_nat limit ++ lit ";".

Definition build_table_data_select_sql (d : option DatabaseType.t) (schema : option str) (table : str) (limit : nat) : str :=
  if is_db DatabaseType.Neo4j d then build_neo4j_table_select_sql table limit
  else if is_db DatabaseType.VictoriaMetrics d then victoriametrics_metric_selector table ++ lit "[1h]"
  else
    let schema := table_data_schema d None schema in
    let order := match default_order_by d with Some order_by => lit " ORDER BY " ++ order_by | None => [] end in
    let from := lit "* FROM " ++ table_data_name d schema table ++ order in
    match pagination_strategy d TablePreview with
    | IrisTop => lit "SELECT TOP " ++ show_nat limit ++ [SPACE] ++ from
    | InformixFirst => lit "SELECT FIRST " ++ show_nat limit ++ [SPACE] ++ from
    | FirebirdRows => lit "SELECT " ++ from ++ [SPACE] ++ firebird_rows_clause limit 0
    | Db2FetchFirst | FetchFirst => lit "SELECT " ++ from ++ lit " FETCH FIRST " ++ show_nat limit ++ lit " ROWS ONLY"
    | Rownum => lit "SELECT * FROM (SELECT " ++ from ++ lit ") WHERE ROWNUM <= " ++ show_nat limit
    | Unbounded => lit "SELECT " ++ from
    | SqlServerTop => lit "SELECT TOP (" ++ show_nat limit ++ lit ") " ++ from
    | QuestDbLimit => lit "SELECT " ++ from ++ lit " LIMIT " ++ show_nat limit
    | AgentMaxRows => lit "SELECT " ++ from ++ lit ";"
    | LimitOffset => lit "SELECT " ++ from ++ lit " LIMIT " ++ show_nat limit ++ lit ";"
    end.
End select.

(** The tests of the source. *)
Example sample_statements :
  let sample d schema table := build_table_data_select_sql (H := no_letters) (λ _, None) (Some d) (Some (lit schema)) (lit table) 20 in
  let q := [DQUOTE] in
  sample DatabaseType.Mysql "app" "sys_tenant" = lit "SELECT * FROM `app`.`sys_tenant` LIMIT 20;" ∧
  sample DatabaseType.Postgres "public" "sys_tenant" = lit "SELECT * FROM " ++ q ++ lit "public" ++ q ++ lit "." ++ q ++ lit "sys_tenant" ++ q ++ lit " LIMIT 20;" ∧
  sample DatabaseType.SqlServer "dbo" "sys_tenant" = lit "SELECT TOP (20) * FROM [dbo].[sys_tenant]" ∧
  sample DatabaseType.Oracle "APP" "SYS_TENANT" =
    lit "SELECT * FROM (SELECT * FROM " ++ q ++ lit "APP" ++ q ++ lit "." ++ q ++ lit "SYS_TENANT" ++ q ++ lit ") WHERE ROWNUM <= 20".
Proof. vm_compute. auto. Qed.
