(* ===== verification/AgentPolicy.v ===== *)
(** * What agents and the command line may run (agent_tools.rs, agent_loop.rs, dbx-cli/src/main.rs)

    A write of the built-in agent needs a statement that the user confirmed; the
    grant is used up by the call that runs it.  The model of language models is
    any list of turns, each a list of tool calls; every tool is modelled up to
    what it sends to the database. *)
From S2P Require Import Prelude SqlDialect QueryGuard StateStore Json Identifiers PoolKeys SqlRisk MongoFilter MongoShell ProductionSafety McpSessions McpPolicy FetchRows TableSelect.
Local Open Scope dbx_scope.

Record ToolCall := { tc_id : str; tc_name : str; tc_arguments : json }.
Definition EXECUTE_QUERY : str := lit "execute_query".
Definition argument (key : string) (call : ToolCall) : option json := as_object (tc_arguments call) ≫= field_of_object (lit key).
Definition sql_argument (call : ToolCall) : option str := argument "sql" call ≫= as_str.

(** [v.as_u64()] *)
Definition as_u64 (v : json) : option N := match v with JNumber text => parse_u64 text | _ => None end.

(** [{:?}] of a database type: the name of its variant. *)
Definition debug_name (d : DatabaseType.t) : string :=
  match d with
  | DatabaseType.Mysql => "Mysql" | DatabaseType.Postgres => "Postgres" | DatabaseType.Sqlite => "Sqlite" | DatabaseType.Rqlite => "Rqlite" |
  DatabaseType.Turso => "Turso" | DatabaseType.CloudflareD1 => "CloudflareD1" | DatabaseType.Redis => "Redis" | DatabaseType.DuckDb => "DuckDb" |
  DatabaseType.ClickHouse => "ClickHouse" | DatabaseType.SqlServer => "SqlServer" | DatabaseType.MongoDb => "MongoDb" | DatabaseType.DynamoDb =>
  "DynamoDb" | DatabaseType.Oracle => "Oracle" | DatabaseType.Elasticsearch => "Elasticsearch" | DatabaseType.Easysearch => "Easysearch" |
  DatabaseType.Meilisearch => "Meilisearch" | DatabaseType.Hbase => "Hbase" | DatabaseType.Qdrant => "Qdrant" | DatabaseType.ChromaDb => "ChromaDb" |
  DatabaseType.Milvus => "Milvus" | DatabaseType.Weaviate => "Weaviate" | DatabaseType.Doris => "Doris" | DatabaseType.StarRocks => "StarRocks" |
  DatabaseType.ManticoreSearch => "ManticoreSearch" | DatabaseType.Redshift => "Redshift" | DatabaseType.Dameng => "Dameng" | DatabaseType.Kingbase =>
  "Kingbase" | DatabaseType.Highgo => "Highgo" | DatabaseType.Uxdb => "Uxdb" | DatabaseType.Vastbase => "Vastbase" | DatabaseType.Goldendb =>
  "Goldendb" | DatabaseType.Databend => "Databend" | DatabaseType.Gaussdb => "Gaussdb" | DatabaseType.Kwdb => "Kwdb" | DatabaseType.Yashandb =>
  "Yashandb" | DatabaseType.Databricks => "Databricks" | DatabaseType.SapHana => "SapHana" | DatabaseType.Teradata => "Teradata" |
  DatabaseType.Vertica => "Vertica" | DatabaseType.Firebird => "Firebird" | DatabaseType.Exasol => "Exasol" | DatabaseType.OpenGauss => "OpenGauss" |
  DatabaseType.Questdb => "Questdb" | DatabaseType.OceanbaseOracle => "OceanbaseOracle" | DatabaseType.Gbase => "Gbase" | DatabaseType.Access =>
  "Access" | DatabaseType.H2 => "H2" | DatabaseType.Snowflake => "Snowflake" | DatabaseType.Trino => "Trino" | DatabaseType.PrestoSql => "PrestoSql" |
  DatabaseType.Hive => "Hive" | DatabaseType.Argo => "Argo" | DatabaseType.Kyuubi => "Kyuubi" | DatabaseType.Impala => "Impala" | DatabaseType.Db2 =>
  "Db2" | DatabaseType.Informix => "Informix" | DatabaseType.Neo4j => "Neo4j" | DatabaseType.Cassandra => "Cassandra" | DatabaseType.Bigquery =>
  "Bigquery" | DatabaseType.Spanner => "Spanner" | DatabaseType.Kylin => "Kylin" | DatabaseType.Ignite => "Ignite" | DatabaseType.Ignite3 => "Ignite3"
  | DatabaseType.Sundb => "Sundb" | DatabaseType.Oscar => "Oscar" | DatabaseType.Tdengine => "Tdengine" | DatabaseType.Xugu => "Xugu" |
  DatabaseType.Etcd => "Etcd" | DatabaseType.ZooKeeper => "ZooKeeper" | DatabaseType.Nacos => "Nacos" | DatabaseType.Consul => "Consul" |
  DatabaseType.MessageQueue => "MessageQueue" | DatabaseType.Mqtt => "Mqtt" | DatabaseType.Iotdb => "Iotdb" | DatabaseType.Iris => "Iris" |
  DatabaseType.InfluxDb => "InfluxDb" | DatabaseType.InfluxDb3 => "InfluxDb3" | DatabaseType.VictoriaMetrics => "VictoriaMetrics" | DatabaseType.Jdbc
  => "Jdbc" | DatabaseType.Spark => "Spark"
  end%string.

(** ** Requests to vector databases

    [utf8_percent_encode] of the crate percent_encoding: what it writes is ASCII,
    and a character of the set only as the sign or a digit of an escape. *)
Class PercentEncoding := {
  utf8_percent_encode : (char → bool) → str → str;
  encoded_characters set s c : c ∈ utf8_percent_encode set s → set c = false ∨ c = chr "%" ∨ is_ascii_hexdigit c = true;
}.
(** [CONTROLS] of the same crate: U+0000 to U+001F and U+007F. *)
Definition CONTROLS (c : char) : bool := bool_decide (c < 32 ∨ c = 127)%N.
Definition PATH_SEGMENT_ENCODE_SET (c : char) : bool := CONTROLS c || bool_decide (c ∈ [DQUOTE; BACKSLASH] ++ lit " #%/<>?[]^`{|}").
Definition QUERY_VALUE_ENCODE_SET (c : char) : bool := PATH_SEGMENT_ENCODE_SET c || bool_decide (c ∈ lit "&=+").

(** ** Permissions *)
Definition no_permissions : AgentSqlPermissions := {| allow_writes := false; allow_dangerous := false; confirmed_write_sql := None |}.
Definition confirmed_write_sql_permissions (production_database allow_write_sql : bool) (confirmed : option str) : AgentSqlPermissions :=
  let confirmed := sql ← confirmed; if decide (trim sql = []) then None else Some sql in
  let write_sql_confirmed := negb production_database && allow_write_sql && bool_decide (is_Some confirmed) in
  {| allow_writes := write_sql_confirmed; allow_dangerous := write_sql_confirmed; confirmed_write_sql := if write_sql_confirmed then confirmed else None |}.
(** The confirmation of a statement is void for another connection, database or schema. *)
Definition verify_confirmed_target (allow_write_sql : option bool) (confirmed confirmed_connection_id confirmed_database confirmed_schema : option str)
    (actual_connection_id actual_database : str) (actual_schema : option str) : option bool * option str :=
  match confirmed with
  | None => (allow_write_sql, confirmed)
  | Some _ =>
      if decide (confirmed_connection_id ≠ Some actual_connection_id ∨ confirmed_database ≠ Some actual_database ∨ confirmed_schema ≠ actual_schema)
      then (Some false, None) else (allow_write_sql, confirmed)
  end.
(** The request of an agent and the permissions of its run. *)
Record AgentRequest := {
  a_connection_id : str; a_database : str; a_schema : option str; a_allow_write_sql : bool;
  a_confirmed_write_sql : option str; a_confirmed_connection_id : option str; a_confirmed_database : option str; a_confirmed_schema : option str;
}.
Definition request_permissions (config : option ConnectionConfig) (body : AgentRequest) : AgentSqlPermissions :=
  let production_database := match config with Some c => is_production_database c (a_database body) | None => false end in
  let (allow_write_sql, confirmed) :=
    verify_confirmed_target (Some (a_allow_write_sql body)) (a_confirmed_write_sql body) (a_confirmed_connection_id body) (a_confirmed_database body)
      (a_confirmed_schema body) (a_connection_id body) (a_database body) (a_schema body) in
  confirmed_write_sql_permissions production_database (default false allow_write_sql) confirmed.
Definition sql_risk_allowed (risk : SqlRisk) (permissions : AgentSqlPermissions) : bool :=
  match risk with
  | RiskReadOnly => true
  | RiskWrite => allow_writes permissions
  | RiskDdl => allow_dangerous permissions
  | RiskTransaction => false
  end.
Definition normalize_sql_for_confirmation (sql : str) : str := trim sql.
Definition sql_matches_confirmed_write (executed_sql : str) (confirmed : option str) : bool :=
  match confirmed with
  | None => true
  | Some c => bool_decide (normalize_sql_for_confirmation executed_sql = normalize_sql_for_confirmation c)
  end.
Definition truncate_sql_for_error (sql : str) : str :=
  let s := trim sql in if decide (length s ≤ 120) then s else take 117 s ++ lit "...".

(** What the tools read of the connection beyond its [ConnectionConfig]: the
    user name, the texts in which the driver of a JDBC connection is looked for,
    and the collections (name and id) that a vector database lists. *)
Record ConnectionDetails := { cd_username : str; cd_driver_texts : list str; cd_collections : result (list (str * str)) str }.

Section agent.
Context `{Patterns, Unicode, OracleTokenizer, WordTokenizer, ExprOrder, SqlParser, JsonText, Timestamps, Letters, PercentEncoding}.
Context (percent_decode : str → option str) (d : DatabaseType.t) (config : option ConnectionConfig) (details : ConnectionDetails)
  (database : str) (default_schema : option str).

Definition is_write_risk (sql : str) : bool :=
  match classify_sql_risk_for_database sql d with Ok RiskWrite | Ok RiskDdl => true | _ => false end.
Definition write_requires_confirmation (sql : str) (permissions : AgentSqlPermissions) : result bool str :=
  if allow_writes permissions || allow_dangerous permissions || bool_decide (is_Some (confirmed_write_sql permissions)) then Ok false
  else match classify_sql_risk_for_database sql d with Ok _ => Ok (is_write_risk sql) | Err e => Err e end.
(** The permissions of one call, and those that are left. *)
Definition take_sql_permissions_for_execution (sql : str) (permissions : AgentSqlPermissions) : AgentSqlPermissions * AgentSqlPermissions :=
  let consumes_confirmation :=
    match classify_sql_risk_for_database sql d with
    | Ok ((RiskWrite | RiskDdl) as risk) =>
        sql_risk_allowed risk permissions && sql_matches_confirmed_write sql (confirmed_write_sql permissions)
        && bool_decide (is_Some (confirmed_write_sql permissions))
    | _ => false
    end in
  (permissions, if consumes_confirmation then no_permissions else permissions).

(** ** What a tool sends *)
Inductive CatalogCall := ListTables (schema : str) | GetColumns (schema table : str) | ListCollections.
Inductive Run :=
| RunSql (sql : str)
| RunMongo (command : MongoCommand)
| RunExplain (statement text : str)   (* the statement and the EXPLAIN that is sent *)
| RunPlan (statement : str)           (* the driver's own explain *)
| RunRequest (text : str)             (* to a vector database *)
| RunCatalog (c : CatalogCall).
(** What was sent, and the error that ended the call before it sent more. *)
Definition Sent : Type := list Run * option str.
Definition sent (r : result Run str) : Sent := match r with Ok run => ([run], None) | Err e => ([], Some e) end.

(** ** [execute_query] *)
Definition execute_mongo_query (source : str) : result Run str :=
  match parse source with
  | Err e => Err (e ++ lit " Use MongoDB shell-style commands such as db.collection.find({}), db.collection.findOne({}), or db.collection.aggregate([]).")
  | Ok command =>
      if is_mutating command then
        Err (lit "Blocked: MongoDB Agent queries are read-only. Return the command for the user to review and execute manually in DBX.")
      else Ok (RunMongo command)
  end.
(** Up to the call of the database. *)
Definition execute_execute_query (call : ToolCall) (permissions : AgentSqlPermissions) : result Run str :=
  match sql_argument call with
  | None => Err (lit "Missing required parameter: sql")
  | Some text =>
      let sql := trim text in
      if decide (sql = []) then Err (lit "SQL query cannot be empty")
      else if decide (d = DatabaseType.MongoDb) then execute_mongo_query sql
      else match classify_sql_risk_for_database sql d with
      | Err e => Err e
      | Ok risk =>
          let targets_production :=
            match config with Some c => bool_decide (risk ≠ RiskReadOnly) && targets_production_database c database sql | None => false end in
          if targets_production then
            Err (lit "Blocked: AI agents cannot execute writes or DDL on a production database. Return the SQL for the user to review and execute manually in DBX.")
          else if negb (sql_risk_allowed risk permissions) then
            if decide (risk = RiskTransaction) then Err (lit "Blocked: transaction control statements are not available to the AI agent.")
            else Err (lit "Blocked: " ++ risk_display risk ++ lit " statement detected. Ask the user to confirm the proposed database change before executing it.")
          else if bool_decide (risk = RiskReadOnly) || sql_matches_confirmed_write sql (confirmed_write_sql permissions) then Ok (RunSql sql)
          else Err (lit "Blocked: the executed SQL does not match the user-confirmed SQL." ++ [NL] ++
                    lit "Confirmed: " ++ truncate_sql_for_error (default [] (confirmed_write_sql permissions)) ++ [NL] ++
                    lit "Attempted: " ++ truncate_sql_for_error sql)
      end
  end.

(** ** The other tools *)
Definition MAX_ALLOWED_ROWS : N := 100.
Definition SAMPLE_DATA_LIMIT : N := 20.
Definition BROWSE_COLLECTION_LIMIT : N := 20.
Definition limit_argument (call : ToolCall) (otherwise : N) : nat :=
  N.to_nat (match argument "limit" call ≫= as_u64 with Some l => l `min` MAX_ALLOWED_ROWS | None => otherwise end)%N.
Definition effective_schema (call : ToolCall) : option str :=
  match non_blank default_schema with Some schema => Some schema | None => non_blank (argument "schema" call ≫= as_str) end.
Definition invalid_in_names (table : str) : bool :=
  existsb (λ c, bool_decide (c ∈ [chr ";"; SQUOTE; DQUOTE; BACKSLASH])) table.
Definition execute_list_tables (call : ToolCall) : Sent := ([RunCatalog (ListTables (default [] (effective_schema call)))], None).
Definition execute_get_columns (call : ToolCall) : Sent :=
  match argument "table" call ≫= as_str with
  | None => ([], Some (lit "Missing required parameter: table"))
  | Some text =>
      let table := trim text in
      if decide (table = []) then ([], Some (lit "Table name cannot be empty"))
      else if decide (256 < byte_len table) then
        ([], Some (lit "Table name too long: " ++ show_nat (byte_len table) ++ lit " characters (max 256)"))
      else if invalid_in_names table then ([], Some (lit "Table name contains invalid characters: '" ++ table ++ lit "'"))
      else ([RunCatalog (GetColumns (default [] (effective_schema call)) table)], None)
  end.
Definition build_sample_data_sql (schema : option str) (table : str) (limit : nat) : str :=
  build_table_data_select_sql percent_decode (Some d) schema table limit.
(** The rows are read by [execute_query], without any permission. *)
Definition execute_get_sample_data (call : ToolCall) : Sent :=
  match argument "table" call ≫= as_str with
  | None => ([], Some (lit "Missing required parameter: table"))
  | Some text =>
      let table := trim text in
      if decide (table = []) then ([], Some (lit "Table name cannot be empty"))
      else if invalid_in_names table then ([], Some (lit "Table name contains invalid characters: '" ++ table ++ lit "'"))
      else
        let limit := limit_argument call SAMPLE_DATA_LIMIT in
        let sql := build_sample_data_sql (effective_schema call) table limit in
        let synthetic_call := {| tc_id := tc_id call; tc_name := EXECUTE_QUERY;
          tc_arguments := JObject [(lit "sql", JString sql); (lit "limit", JNumber (show_nat limit))] |} in
        sent (execute_execute_query synthetic_call no_permissions)
  end.
(** An Oracle database behind JDBC is recognised by its driver. *)
Definition explain_database_type (c : ConnectionConfig) : DatabaseType.t :=
  if decide (c_db_type c ≠ DatabaseType.Jdbc) then c_db_type c
  else if existsb (λ text, str_contains (lit "oracle") (to_ascii_lowercase text)) (cd_driver_texts details) then DatabaseType.Oracle
  else DatabaseType.Jdbc.
Definition get_agent_explain_info_core (sql : str) : result Run str :=
  match config with
  | None => Err (lit "Connection config not found")
  | Some c => if negb (is_safe_explain_sql_for_database sql (Some (explain_database_type c))) then Err (lit "unsafe") else Ok (RunPlan sql)
  end.
Definition execute_explain_query (call : ToolCall) : Sent :=
  match sql_argument call with
  | None => ([], Some (lit "Missing required parameter: sql"))
  | Some text =>
      let sql := trim text in
      if decide (sql = []) then ([], Some (lit "SQL query cannot be empty"))
      else match classify_sql_risk_for_database sql d with
      | Err e => ([], Some e)
      | Ok risk =>
          if decide (risk ≠ RiskReadOnly) then
            ([], Some (lit "Blocked: " ++ risk_display risk ++
               lit " statement detected. Only read-only queries (SELECT, SHOW, DESCRIBE, EXPLAIN) can be analyzed."))
          else if decide (d = DatabaseType.Oracle) then sent (get_agent_explain_info_core sql)
          else
            let result := build_explain_sql {| ex_database_type := Some d; ex_format := None; ex_analyze := None; ex_sql := sql |} in
            match ex_ok result, explained result with
            | true, Some explain_sql => ([RunExplain sql explain_sql], None)
            | true, None => ([], Some (lit "EXPLAIN SQL is empty"))
            | false, _ => ([], Some (lit "Cannot explain this query: " ++ default (lit "unknown") (reason result) ++
                             lit ". The database type may not support EXPLAIN, or the query may be unsafe."))
            end
      end
  end.

(** *** Vector databases *)
Definition path_segment (value : str) : str := utf8_percent_encode PATH_SEGMENT_ENCODE_SET value.
Definition query_value (value : str) : str := utf8_percent_encode QUERY_VALUE_ENCODE_SET value.
Definition or_else (value otherwise : str) : str := if decide (value = []) then otherwise else value.
Definition chroma_collections_path (tenant database : str) : str :=
  lit "/api/v2/tenants/" ++ path_segment (or_else (trim tenant) (lit "default_tenant")) ++
  lit "/databases/" ++ path_segment (or_else (trim database) (lit "default_database")) ++ lit "/collections".
Definition chroma_collection_path (tenant database collection : str) : str :=
  chroma_collections_path tenant database ++ lit "/" ++ path_segment collection.
Definition build_browse_query (collection tenant : str) (limit : nat) : result str str :=
  let collection := trim collection in
  if decide (collection = []) then Err (lit "Collection name cannot be empty")
  else
    let limit := JNumber (show_nat (Nat.max limit 1)) in
    match d with
    | DatabaseType.Qdrant => Ok (lit "POST /collections/" ++ path_segment collection ++ lit "/points/scroll" ++ [NL] ++
        to_string (JObject [(lit "limit", limit); (lit "with_payload", JBool true); (lit "with_vector", JBool false)]))
    | DatabaseType.Milvus => Ok (lit "POST /v2/vectordb/entities/query" ++ [NL] ++
        to_string (JObject [(lit "dbName", JString (or_else database (lit "default"))); (lit "collectionName", JString collection);
                            (lit "filter", JString []); (lit "limit", limit)]))
    | DatabaseType.Weaviate => Ok (lit "GET /v1/objects?class=" ++ query_value collection ++ lit "&limit=" ++
        match limit with JNumber text => text | _ => [] end)
    | DatabaseType.ChromaDb => Ok (lit "POST " ++ chroma_collection_path tenant database collection ++ lit "/get" ++ [NL] ++
        to_string (JObject [(lit "limit", limit); (lit "include", JArray [JString (lit "documents"); JString (lit "metadatas")])]))
    | _ => Err (lit "Unsupported database type: " ++ lit (debug_name d))
    end.
Definition is_uuid (s : str) : bool :=
  bool_decide (byte_len s = 36) && bool_decide (length (filter (λ c, c = DASH) s) = 4) &&
  forallb (λ c, is_ascii_hexdigit c || bool_decide (c = DASH)) s.
Definition resolve_chroma_collection_uuid (name : str) : result str str :=
  match cd_collections details with
  | Err e => Err e
  | Ok collections =>
      match list_find (λ c, c.1 = name) collections with
      | Some (_, (_, id)) => Ok id
      | None => Err (lit "Collection '" ++ name ++ lit "' not found")
      end
  end.
Definition execute_browse_collection (call : ToolCall) : Sent :=
  match argument "collection" call ≫= as_str with
  | None => ([], Some (lit "Missing required parameter: collection"))
  | Some text =>
      let collection := trim text in
      if decide (collection = []) then ([], Some (lit "Collection name cannot be empty"))
      else
        let limit := limit_argument call BROWSE_COLLECTION_LIMIT in
        let by_name := bool_decide (d = DatabaseType.ChromaDb) && negb (is_uuid collection) in
        let listed := if by_name then [RunCatalog ListCollections] else [] in
        match (if by_name then resolve_chroma_collection_uuid collection else Ok collection) with
        | Err e => (listed, Some e)
        | Ok collection_id =>
            let tenant := if decide (d = DatabaseType.ChromaDb) then cd_username details else [] in
            match build_browse_query collection_id tenant limit with
            | Err e => (listed, Some e)
            | Ok query => (listed ++ [RunRequest query], None)
            end
        end
  end.

(** Every tool, by the name of the call. *)
Definition execute_tool (call : ToolCall) (permissions : AgentSqlPermissions) : Sent :=
  let named tool := bool_decide (tc_name call = tool) in
  if named (lit "list_tables") then execute_list_tables call
  else if named (lit "get_columns") then execute_get_columns call
  else if named EXECUTE_QUERY then sent (execute_execute_query call permissions)
  else if named (lit "get_sample_data") then execute_get_sample_data call
  else if named (lit "list_collections") then ([RunCatalog ListCollections], None)
  else if named (lit "browse_collection") then execute_browse_collection call
  else if named (lit "explain_query") then execute_explain_query call
  else if named (lit "get_current_time") then ([], None)
  else ([], Some (lit "Unknown tool: " ++ tc_name call)).

(** *** The tools that are offered, and which of them run at the same time *)
Definition is_vector_db : bool :=
  match d with DatabaseType.Qdrant | DatabaseType.Milvus | DatabaseType.Weaviate | DatabaseType.ChromaDb => true | _ => false end.
Definition read_only_tools : list (string * bool) :=
  if is_vector_db then [("list_collections", true); ("get_current_time", true)]%string
  else [("list_tables", true); ("get_columns", false); ("get_current_time", true)]%string.
Definition all_tools : list (string * bool) :=
  if is_vector_db then [("list_collections", true); ("browse_collection", true); ("get_current_time", true)]%string
  else [("list_tables", true); ("get_columns", false); ("get_current_time", true)]%string ++
       (if decide (d = DatabaseType.MongoDb) then [("execute_query", false)]%string
        else if supports_sql_query d then [("execute_query", false); ("get_sample_data", true)]%string else []) ++
       (if supports_explain_plan (Some d) then [("explain_query", true)]%string else []).
Definition offered_tools (is_agent_mode : bool) : list (string * bool) := if is_agent_mode then all_tools else read_only_tools.
Definition parallel_ok (is_agent_mode : bool) (call : ToolCall) : bool :=
  match list_find (λ t, lit t.1 = tc_name call) (offered_tools is_agent_mode) with Some (_, (_, ok)) => ok | None => false end.

(** ** Turns of the agent *)
Fixpoint unconfirmed_write_in (permissions : AgentSqlPermissions) (calls : list ToolCall) : option str :=
  match calls with
  | [] => None
  | call :: rest =>
      let found := if decide (tc_name call ≠ EXECUTE_QUERY) then None
                   else sql ← sql_argument call; match write_requires_confirmation sql permissions with Ok true => Some sql | _ => None end in
      match found with Some sql => Some sql | None => unconfirmed_write_in permissions rest end
  end.
Definition unconfirmed_write_sql (calls : list ToolCall) (permissions : AgentSqlPermissions) : option str :=
  if decide (d = DatabaseType.MongoDb) then None else unconfirmed_write_in permissions calls.
Inductive WriteAttemptResponse := ConfirmationRequired (sql : str) | ProductionBlocked (sql : str).
Definition write_attempt_response (sql : str) (targets_production : bool) : WriteAttemptResponse :=
  if targets_production then ProductionBlocked (trim sql) else ConfirmationRequired (trim sql).

Definition sequential_tool_permissions (call : ToolCall) (permissions : AgentSqlPermissions) : AgentSqlPermissions * AgentSqlPermissions :=
  match (if decide (tc_name call = EXECUTE_QUERY) then sql_argument call else None) with
  | Some sql => take_sql_permissions_for_execution sql permissions
  | None => (permissions, permissions)
  end.
(** The calls that may run at the same time, with the permissions of the turn;
    a lock on the connection takes them one by one, here in their order. *)
Definition run_parallel (permissions : AgentSqlPermissions) (calls : list ToolCall) : list Run :=
  concat ((λ call, (execute_tool call permissions).1) <$> calls).
(** The other calls, one after the other. *)
Fixpoint run_sequential (permissions : AgentSqlPermissions) (calls : list ToolCall) : AgentSqlPermissions * list Run :=
  match calls with
  | [] => (permissions, [])
  | call :: rest =>
      let (granted, left_over) := sequential_tool_permissions call permissions in
      let ran := (execute_tool call granted).1 in
      let (final, more) := run_sequential left_over rest in (final, ran ++ more)
  end.
Definition parallel_calls (is_agent_mode : bool) (calls : list ToolCall) : list ToolCall := filter (λ call, parallel_ok is_agent_mode call = true) calls.
Definition sequential_calls (is_agent_mode : bool) (calls : list ToolCall) : list ToolCall := filter (λ call, parallel_ok is_agent_mode call = false) calls.
Fixpoint run_turns (is_agent_mode : bool) (permissions : AgentSqlPermissions) (turns : list (list ToolCall)) : list Run * option WriteAttemptResponse :=
  match turns with
  | [] => ([], None)
  | calls :: rest =>
      match unconfirmed_write_sql calls permissions with
      | Some sql =>
          ([], Some (write_attempt_response sql (match config with Some c => targets_production_database c database sql | None => false end)))
      | None =>
          let at_once := run_parallel permissions (parallel_calls is_agent_mode calls) in
          let (left_over, ran) := run_sequential permissions (sequential_calls is_agent_mode calls) in
          let (more, answer) := run_turns is_agent_mode left_over rest in (at_once ++ ran ++ more, answer)
      end
  end.
End agent.

(** ** The command line *)
Section cli.
Context `{Patterns, Unicode, OracleTokenizer, WordTokenizer, ExprOrder, SqlParser, JsonText, Timestamps}.
Definition cli_safety_message (error : MongoSafetyError) : str :=
  match error with
  | WritesDisabled => lit "MongoDB write command is blocked. Pass --allow-writes to allow it."
  | EmptyFilter => lit "MongoDB update/delete commands require a non-empty filter unless --allow-dangerous-sql is set."
  | DangerousCommand => lit "Dangerous MongoDB command is blocked. Pass --allow-dangerous-sql to allow it."
  | ProductionWrite => lit "Writes and DDL are blocked for production databases."
  end.
(** [dbx query] up to the call of the backend; an error has a code and a message. *)
Definition cli_query (connection : ConnectionConfig) (flag_writes env_writes flag_dangerous env_dangerous : bool) (database sql : str)
    : result Run (string * str) :=
  if flag_dangerous && negb flag_writes && negb env_writes then Err ("INVALID_OPTION"%string, lit "--allow-dangerous-sql requires --allow-writes.")
  else
    let allow_writes := flag_writes || env_writes in
    let allow_dangerous := flag_dangerous || env_dangerous in
    if decide (c_db_type connection = DatabaseType.Redis) then
      Err ("REDIS_COMMAND_REQUIRED"%string, lit "Redis connections do not accept SQL through dbx query. Use an MCP Redis command tool or DBX directly.")
    else if decide (c_db_type connection = DatabaseType.MongoDb) then
      match parse sql with
      | Err e => Err ("QUERY_ERROR"%string, e)
      | Ok command =>
          match validate_safety command allow_writes allow_dangerous (is_production_database connection database) with
          | Err e => Err ("SQL_BLOCKED"%string, cli_safety_message e)
          | Ok _ => Ok (RunMongo command)
          end
      end
    else match classify_sql_risk_for_database sql (c_db_type connection) with
    | Err e => Err ("SQL_BLOCKED"%string, e)
    | Ok risk =>
        if bool_decide (risk = RiskTransaction) || (bool_decide (risk = RiskWrite) && negb allow_writes) || (bool_decide (risk = RiskDdl) && negb allow_dangerous)
        then Err ("SQL_BLOCKED"%string, risk_display risk ++ lit " statement is blocked.")
        else if bool_decide (risk ≠ RiskReadOnly) && targets_production_database connection database sql then
          Err ("SQL_BLOCKED"%string, lit "Writes and DDL are blocked for production databases.")
        else Ok (RunSql sql)
    end.
End cli.

(** ** A confirmed write runs at most once

    What was sent, read as the database reads it.  An EXPLAIN counts as running
    its statement.  A request to a vector database reads if its first line asks
    for something with GET, or posts to one of the paths under which Qdrant,
    Milvus and ChromaDB look up what they store. *)
Definition reading_request (text : str) : bool :=
  let head := take_while not_nl text in
  starts_with (lit "GET ") head ||
  (starts_with (lit "POST ") head && existsb (λ path, ends_with path head) [lit "/points/scroll"; lit "/entities/query"; lit "/get"]).

Section once.
Context `{Patterns, Unicode, OracleTokenizer, WordTokenizer, ExprOrder, SqlParser, JsonText, Timestamps, Letters, PercentEncoding}.
Context (percent_decode : str → option str) (d : DatabaseType.t) (config : option ConnectionConfig) (details : ConnectionDetails)
  (database : str) (default_schema : option str).
#[local] Abbreviation execute_query_of := (execute_execute_query d config database).
#[local] Abbreviation tool := (execute_tool percent_decode d config details database default_schema).
#[local] Abbreviation sequential := (run_sequential percent_decode d config details database default_schema).

Definition reads (sql : str) : bool := match classify_sql_risk_for_database sql d with Ok RiskReadOnly => true | _ => false end.
(** The statements that changed the database. *)
Definition writes_of (ran : list Run) : list str :=
  omap (λ r, match r with
             | RunSql sql | RunExplain sql _ | RunPlan sql => if reads sql then None else Some sql
             | RunMongo command => if is_mutating command then Some [] else None
             | RunRequest text => if reading_request text then None else Some text
             | RunCatalog _ => None
             end) ran.
(** Blanks around the text of [execute_query] do not change how it is classified. *)
Definition blanks_do_not_matter (calls : list ToolCall) : Prop :=
  ∀ call sql, call ∈ calls → tc_name call = EXECUTE_QUERY → sql_argument call = Some sql →
    classify_sql_risk_for_database (trim sql) d = classify_sql_risk_for_database sql d.
Definition bound (permissions : AgentSqlPermissions) (confirmed : str) : Prop := confirmed_write_sql permissions = Some confirmed.

Lemma writes_of_app a b : writes_of (a ++ b) = writes_of a ++ writes_of b.
Proof. apply omap_app. Qed.
Lemma mongo_never_writes source r : execute_mongo_query source = Ok r → writes_of [r] = [].
Proof.
  unfold execute_mongo_query. destruct (parse source) as [command |]; [| done]. destruct (is_mutating command) eqn:E; [done |].
  intros [= <-]. unfold writes_of. cbn [omap list_omap]. by rewrite E.
Qed.
(** What one call runs: reads only, or the confirmed statement. *)
Lemma gate_spec call permissions r :
  execute_query_of call permissions = Ok r →
  writes_of [r] = [] ∨
  ∃ text risk, sql_argument call = Some text ∧ r = RunSql (trim text) ∧ classify_sql_risk_for_database (trim text) d = Ok risk ∧
    (risk = RiskWrite ∨ risk = RiskDdl) ∧ sql_risk_allowed risk permissions = true ∧
    sql_matches_confirmed_write (trim text) (confirmed_write_sql permissions) = true ∧
    ∀ c, config = Some c → targets_production_database c database (trim text) = false.
Proof.
  unfold execute_execute_query. destruct (sql_argument call) as [text |]; [| done]. case_decide; [done |].
  case_decide; [intros Hm; left; by eapply mongo_never_writes |].
  destruct (classify_sql_risk_for_database (trim text) d) as [risk |] eqn:Er; [| done].
  destruct (match config with Some c => _ | None => false end) eqn:Ep; [done |].
  destruct (sql_risk_allowed risk permissions) eqn:Ea; [| cbn [negb]; by destruct (decide (risk = RiskTransaction))]. cbn [negb].
  destruct (bool_decide (risk = RiskReadOnly) || _) eqn:Em; [| done]. intros [= <-].
  destruct (decide (risk = RiskReadOnly)) as [-> | Hro].
  - left. unfold writes_of, reads. cbn [omap list_omap]. by rewrite Er.
  - right. exists text, risk. rewrite bool_decide_eq_false_2 in Em by done. rewrite orb_false_l in Em.
    repeat (split; [done |]). split; [by destruct risk; auto |]. repeat (split; [done |]).
    intros c ->. by rewrite bool_decide_eq_true_2, andb_true_l in Ep.
Qed.
Lemma execute_query_without_permissions call : writes_of (sent (execute_query_of call no_permissions)).1 = [].
Proof.
  destruct (execute_query_of call no_permissions) as [r |] eqn:E; [| done].
  apply gate_spec in E as [Hw | (text & risk & _ & _ & _ & [-> | ->] & Ha & _)]; done.
Qed.

(** *** The other tools read *)
Lemma explain_reads call : writes_of (execute_explain_query d config details call).1 = [].
Proof.
  unfold execute_explain_query. destruct (sql_argument call) as [text |]; [| done]. case_decide; [done |].
  destruct (classify_sql_risk_for_database (trim text) d) as [risk |] eqn:Er; [| done]. case_decide as Hk; [done |].
  assert (reads (trim text) = true) as Hr by (unfold reads; rewrite Er; by destruct risk; try (exfalso; by apply Hk)). unfold writes_of.
  case_decide.
  - unfold get_agent_explain_info_core. destruct config; [| done]. destruct (negb _); [done |]. cbn [sent fst omap list_omap]. by rewrite Hr.
  - destruct (ex_ok _); [| done]. destruct (explained _); [| done]. cbn [fst omap list_omap]. by rewrite Hr.
Qed.
Lemma ok_inj (a b : str) : @Ok str str a = Ok b → a = b.
Proof. by intros [=]. Qed.
Lemma one_line a b : forallb not_nl a = true → take_while not_nl (a ++ [NL] ++ b) = a.
Proof. induction a as [| c a IH]; [done |]. intros [Hc Ha]%andb_true_iff. rewrite <-app_comm_cons. cbn [take_while]. by rewrite Hc, IH. Qed.
Lemma segments_are_one_line s : forallb not_nl (path_segment s) = true.
Proof.
  apply forallb_forall. intros c Hc%list_elem_of_In. unfold not_nl. apply negb_true_iff, bool_decide_eq_false. intros ->.
  by apply encoded_characters in Hc as [| []].
Qed.
Lemma posts_read a ending b : forallb not_nl a = true → ending ∈ [lit "/points/scroll"; lit "/entities/query"; lit "/get"] →
  reading_request (lit "POST " ++ a ++ ending ++ [NL] ++ b) = true.
Proof.
  intros Ha He. unfold reading_request. rewrite !(assoc_L (++)), <-(assoc_L (++) _ [NL]), one_line.
  2: { rewrite !forallb_app, Ha. repeat (apply elem_of_cons in He as [-> | He]; [by vm_compute |]). by apply elem_of_nil in He. }
  apply orb_true_iff. right. apply andb_true_iff. split; [by rewrite <-(assoc_L (++)); apply starts_with_spec; eexists |].
  apply existsb_exists. exists ending. split; [by apply list_elem_of_In |]. apply ends_with_spec. by exists (lit "POST " ++ a).
Qed.
Lemma browse_query_reads collection tenant limit text : build_browse_query d database collection tenant limit = Ok text → reading_request text = true.
Proof.
  unfold build_browse_query. case_decide; [done |].
  assert (lit "POST /collections/" = lit "POST " ++ lit "/collections/") as -> by done.
  assert (lit "POST /v2/vectordb/entities/query" = lit "POST " ++ lit "/v2/vectordb" ++ lit "/entities/query") as -> by done.
  destruct d; try done; intros Ht%ok_inj; subst text.
  - rewrite <-(assoc_L (++)), (assoc_L (++) (lit "/collections/")). apply posts_read; [by rewrite forallb_app, segments_are_one_line | set_solver].
  - apply posts_read; [| set_solver]. unfold chroma_collection_path, chroma_collections_path. by rewrite !forallb_app, !segments_are_one_line.
  - rewrite <-!(assoc_L (++)). apply posts_read; [done | set_solver].
  - done.
Qed.
Lemma browse_reads call : writes_of (execute_browse_collection d details database call).1 = [].
Proof.
  unfold execute_browse_collection. destruct (argument "collection" call ≫= as_str) as [text |]; [| done]. case_decide; [done |].
  set (by_name := bool_decide _ && _). set (listed := if by_name then [RunCatalog ListCollections] else []).
  assert (writes_of listed = []) as Hl by (by unfold listed; destruct by_name).
  destruct (if by_name then resolve_chroma_collection_uuid _ _ else _) as [id |]; [| done].
  destruct (build_browse_query d database id _ _) as [query |] eqn:Eq; [| done]. cbn [fst].
  rewrite writes_of_app, Hl. apply browse_query_reads in Eq. unfold writes_of. cbn [omap list_omap]. by rewrite Eq.
Qed.
Lemma other_tools_read call permissions : tc_name call ≠ EXECUTE_QUERY → writes_of (tool call permissions).1 = [].
Proof.
  intros Hn. unfold execute_tool. destruct (bool_decide (tc_name call = lit "list_tables")); [done |].
  destruct (bool_decide (tc_name call = lit "get_columns")); [unfold execute_get_columns; by repeat case_match |].
  rewrite (bool_decide_eq_false_2 (tc_name call = EXECUTE_QUERY)) by done.
  destruct (bool_decide (tc_name call = lit "get_sample_data")).
  { unfold execute_get_sample_data. destruct (argument "table" call ≫= as_str); [| done]. case_decide; [done |].
    destruct (invalid_in_names _); [done |]. apply execute_query_without_permissions. }
  destruct (bool_decide (tc_name call = lit "list_collections")); [done |].
  destruct (bool_decide (tc_name call = lit "browse_collection")); [apply browse_reads |].
  destruct (bool_decide (tc_name call = lit "explain_query")); [apply explain_reads |].
  by destruct (bool_decide (tc_name call = lit "get_current_time")).
Qed.
Lemma query_tool call permissions : tc_name call = EXECUTE_QUERY → tool call permissions = sent (execute_query_of call permissions).
Proof. intros Hn. unfold execute_tool. rewrite Hn. by repeat rewrite bool_decide_eq_false_2 by (by vm_compute). Qed.
Lemma tools_without_permissions call : writes_of (tool call no_permissions).1 = [].
Proof.
  destruct (decide (tc_name call = EXECUTE_QUERY)) as [Hn | Hn]; [| by apply other_tools_read].
  rewrite query_tool by done. apply execute_query_without_permissions.
Qed.

(** *** One turn *)
Lemma nothing_to_take call : sequential_tool_permissions d call no_permissions = (no_permissions, no_permissions).
Proof.
  unfold sequential_tool_permissions, take_sql_permissions_for_execution. destruct (if decide _ then _ else _); [| done].
  by destruct (classify_sql_risk_for_database _ _) as [[] |].
Qed.
Lemma sequential_without_permissions calls :
  (sequential no_permissions calls).1 = no_permissions ∧ writes_of (sequential no_permissions calls).2 = [].
Proof.
  induction calls as [| call calls [IHp IHw]]; [done |]. cbn [run_sequential]. rewrite nothing_to_take.
  destruct (sequential no_permissions calls) as [final more]. cbn [fst snd] in *. split; [done |].
  by rewrite writes_of_app, tools_without_permissions, IHw.
Qed.
(** The call that runs the confirmed statement uses up its grant. *)
Lemma grant_is_taken permissions confirmed call left_over :
  bound permissions confirmed → blanks_do_not_matter [call] → sequential_tool_permissions d call permissions = (permissions, left_over) →
  (left_over = permissions ∨ left_over = no_permissions) ∧
  (writes_of (tool call permissions).1 = [] ∨
   left_over = no_permissions ∧ ∃ sql, writes_of (tool call permissions).1 = [sql] ∧ trim sql = trim confirmed ∧
     ∀ c, config = Some c → targets_production_database c database sql = false).
Proof.
  intros Hb Hbl. unfold sequential_tool_permissions. destruct (decide (tc_name call = EXECUTE_QUERY)) as [Hn | Hn].
  2: { intros [= <-]. split; [by left |]. left. by apply other_tools_read. }
  rewrite query_tool by done. destruct (sql_argument call) as [text |] eqn:Et.
  2: { intros [= <-]. split; [by left |]. left. unfold execute_execute_query. by rewrite Et. }
  unfold take_sql_permissions_for_execution. set (used := match classify_sql_risk_for_database text d with Ok _ => _ | Err _ => _ end).
  intros [= <-]. split; [destruct used; auto |].
  destruct (execute_query_of call permissions) as [r |] eqn:Ee; [| by left].
  apply gate_spec in Ee as [Hw | (t & risk & Ht & -> & Hr & Hk & Ha & Hm & Hp)]; [by left |]. right. rewrite Et in Ht. injection Ht as <-.
  assert (used = true) as ->.
  { unfold used. rewrite <-(Hbl call text ltac:(left) Hn Et), Hr, Hb. rewrite Hb in Hm. cbn [sql_matches_confirmed_write] in *.
    unfold normalize_sql_for_confirmation in *. rewrite trim_idemp in Hm. rewrite Hm, bool_decide_eq_true_2 by done.
    destruct Hk as [-> | ->]; by rewrite Ha. }
  split; [done |]. exists (trim text). split; [| split; [| done]].
  - unfold writes_of, reads. cbn [sent fst omap list_omap]. rewrite Hr. by destruct Hk as [-> | ->].
  - rewrite Hb in Hm. by apply bool_decide_eq_true in Hm.
Qed.
(** With a grant that names a statement: nothing is written and the grant is
    kept, or exactly that statement is and the grant is used up. *)
Lemma run_sequential_once permissions confirmed calls :
  bound permissions confirmed → blanks_do_not_matter calls →
  let out := sequential permissions calls in
  (out.1 = permissions ∧ writes_of out.2 = []) ∨
  (out.1 = no_permissions ∧ (writes_of out.2 = [] ∨ ∃ sql, writes_of out.2 = [sql] ∧ trim sql = trim confirmed ∧
     ∀ c, config = Some c → targets_production_database c database sql = false)).
Proof.
  intros Hb. induction calls as [| call calls IH]; intros Hbl; [by left |]. cbn [run_sequential].
  specialize (IH ltac:(intros c sql Hc; by apply Hbl; right)).
  destruct (sequential_tool_permissions d call permissions) as [granted left_over] eqn:Es.
  assert (granted = permissions) as ->.
  { unfold sequential_tool_permissions, take_sql_permissions_for_execution in Es. by destruct (if decide _ then _ else _); injection Es as <- _. }
  destruct (grant_is_taken permissions confirmed call left_over Hb) as [Hleft Hran]; [| done |].
  { intros c sql ->%list_elem_of_singleton. apply Hbl. left. }
  destruct (sequential_without_permissions calls) as [Hnp Hnw].
  destruct Hleft as [-> | ->].
  - destruct Hran as [Hran | [-> _]]; [| done].
    destruct (sequential permissions calls) as [final more]. cbn [fst snd] in *. by rewrite writes_of_app, Hran.
  - destruct (sequential no_permissions calls) as [final more]. cbn [fst snd] in *. rewrite writes_of_app, Hnw, app_nil_r. right. split; [done |].
    destruct Hran as [Hran | [_ Hran]]; auto.
Qed.
(** [execute_query] is not among the tools that run at the same time. *)
Lemma parallel_tools_read is_agent_mode permissions calls :
  writes_of (run_parallel percent_decode d config details database default_schema permissions (parallel_calls d is_agent_mode calls)) = [].
Proof.
  assert (∀ call, parallel_ok d is_agent_mode call = true → tc_name call ≠ EXECUTE_QUERY) as Hne.
  { intros call Hp Hn. revert Hp. unfold parallel_ok. rewrite Hn. by destruct is_agent_mode, d; vm_compute. }
  unfold run_parallel. induction calls as [| call calls IH]; [done |]. unfold parallel_calls. rewrite filter_cons. case_decide as Hp; [| done].
  rewrite fmap_cons, concat_cons, writes_of_app, other_tools_read by auto. exact IH.
Qed.
End once.

Lemma request_permissions_spec config body :
  request_permissions config body = no_permissions ∨
  ∃ confirmed, bound (request_permissions config body) confirmed ∧ a_confirmed_write_sql body = Some confirmed ∧ a_allow_write_sql body = true ∧
    a_confirmed_connection_id body = Some (a_connection_id body) ∧ a_confirmed_database body = Some (a_database body) ∧
    a_confirmed_schema body = a_schema body ∧ ∀ c, config = Some c → is_production_database c (a_database body) = false.
Proof.
  unfold request_permissions, verify_confirmed_target. destruct (a_confirmed_write_sql body) as [confirmed |].
  2: { left. unfold confirmed_write_sql_permissions, no_permissions. cbn [mbind option_bind]. by rewrite (bool_decide_eq_false_2 (is_Some None)), andb_false_r by (by intros []). }
  destruct (decide (_ ∨ _)) as [| Hn]; [left; unfold confirmed_write_sql_permissions, no_permissions; cbn [default from_option id]; by rewrite andb_false_r |].
  unfold confirmed_write_sql_permissions. cbn [default from_option id mbind option_bind]. case_decide.
  { left. unfold no_permissions. by rewrite (bool_decide_eq_false_2 (is_Some None)), andb_false_r by (by intros []). }
  rewrite (bool_decide_eq_true_2 (is_Some (Some confirmed))), andb_true_r by done.
  destruct (negb _ && a_allow_write_sql body) eqn:E; [| by left]. right. exists confirmed. apply andb_true_iff in E as [Hp%negb_true_iff Ha].
  repeat (split; [done |]). destruct (decide (a_confirmed_connection_id body = Some (a_connection_id body))); [| naive_solver].
  destruct (decide (a_confirmed_database body = Some (a_database body))); [| naive_solver].
  destruct (decide (a_confirmed_schema body = a_schema body)); [| naive_solver]. repeat (split; [done |]). intros c ->. done.
Qed.

Section turns.
Context `{Patterns, Unicode, OracleTokenizer, WordTokenizer, ExprOrder, SqlParser, JsonText, Timestamps, Letters, PercentEncoding}.
Context (percent_decode : str → option str) (d : DatabaseType.t) (config : option ConnectionConfig) (details : ConnectionDetails)
  (database : str) (default_schema : option str) (is_agent_mode : bool).
#[local] Abbreviation runs := (run_turns percent_decode d config details database default_schema is_agent_mode).

Lemma turns_without_permissions turns : writes_of d (runs no_permissions turns).1 = [].
Proof.
  induction turns as [| calls turns IH]; [done |]. cbn [run_turns]. destruct (unconfirmed_write_sql d calls no_permissions); [done |].
  destruct (sequential_without_permissions percent_decode d config details database default_schema (sequential_calls d is_agent_mode calls)) as [Hl Hn].
  destruct (run_sequential _ _ _ _ _ _ no_permissions _) as [left_over ran]. cbn [fst snd] in *. subst left_over.
  destruct (runs no_permissions turns) as [more answer]. cbn [fst] in *. by rewrite !writes_of_app, parallel_tools_read, Hn, IH.
Qed.
Lemma turns_with_grant permissions confirmed turns :
  bound permissions confirmed → (∀ calls, calls ∈ turns → blanks_do_not_matter d calls) →
  let ran := (runs permissions turns).1 in
  writes_of d ran = [] ∨ ∃ sql, writes_of d ran = [sql] ∧ trim sql = trim confirmed ∧
    ∀ c, config = Some c → targets_production_database c database sql = false.
Proof.
  intros Hb. induction turns as [| calls turns IH]; intros Hbl; [by left |]. cbn [run_turns].
  destruct (unconfirmed_write_sql d calls permissions); [by left |]. specialize (IH ltac:(intros; apply Hbl; by right)).
  pose proof (turns_without_permissions turns) as Hn.
  destruct (run_sequential_once percent_decode d config details database default_schema permissions confirmed (sequential_calls d is_agent_mode calls) Hb)
    as [[Hl Hw] | [Hl Hw]].
  { intros call sql [_ Hc]%list_elem_of_filter. by apply (Hbl calls); [left |]. }
  - destruct (run_sequential _ _ _ _ _ _ permissions _) as [left_over ran]. cbn [fst snd] in *. subst left_over.
    destruct (runs permissions turns) as [more answer]. cbn [fst] in *. by rewrite !writes_of_app, parallel_tools_read, Hw.
  - destruct (run_sequential _ _ _ _ _ _ permissions _) as [left_over ran]. cbn [fst snd] in *. subst left_over.
    destruct (runs no_permissions turns) as [more answer]. cbn [fst] in *. by rewrite !writes_of_app, parallel_tools_read, Hn, app_nil_r.
Qed.
End turns.

Section requests.
Context `{Patterns, Unicode, OracleTokenizer, WordTokenizer, ExprOrder, SqlParser, JsonText, Timestamps, Letters, PercentEncoding}.
Context (percent_decode : str → option str) (d : DatabaseType.t) (config : option ConnectionConfig) (details : ConnectionDetails).
(** C8: Over all turns of an agent's run and all its tool calls, of every tool, those that run at
    the same time included: nothing is written, or exactly one statement is, the one that the user
    confirmed, blanks around it aside, for this connection, database and schema, outside of
    production. A statement that is run, explained or planned counts as a write unless it is
    classified as a read, a MongoDB command if it mutates, a request to a vector database unless it
    is a GET or posts to one of their lookup paths; queries of the catalogue are not modelled and
    count as reads. Blanks around the text of execute_query do not change its classification, and
    percent encoding writes no character of its set except in its escapes. *)
Theorem agents_write_only_what_was_confirmed is_agent_mode body turns :
  (∀ calls, calls ∈ turns → blanks_do_not_matter d calls) →
  let ran := (run_turns percent_decode d config details (a_database body) (a_schema body) is_agent_mode (request_permissions config body) turns).1 in
  writes_of d ran = [] ∨
  ∃ sql confirmed, writes_of d ran = [sql] ∧ a_confirmed_write_sql body = Some confirmed ∧ trim sql = trim confirmed ∧ a_allow_write_sql body = true ∧
    a_confirmed_connection_id body = Some (a_connection_id body) ∧ a_confirmed_database body = Some (a_database body) ∧
    a_confirmed_schema body = a_schema body ∧
    ∀ c, config = Some c → is_production_database c (a_database body) = false ∧ targets_production_database c (a_database body) sql = false.
Proof.
  intros Hbl. destruct (request_permissions_spec config body) as [-> | (confirmed & Hb & Hc & Ha & Hid & Hdb & Hs & Hp)]; [left; apply turns_without_permissions |].
  destruct (turns_with_grant percent_decode d config details (a_database body) (a_schema body) is_agent_mode _ confirmed turns Hb Hbl)
    as [Hw | (sql & Hw & Ht & Htp)]; [by left |].
  right. exists sql, confirmed. repeat (split; [done |]). intros c Hcfg. auto.
Qed.
End requests.

(** ** Examples

    A turn that explains and samples, and sends the confirmed statement twice. *)
Definition call_tool (tool key value : string) : ToolCall :=
  {| tc_id := lit "1"; tc_name := lit tool; tc_arguments := JObject [(lit key, JString (lit value))] |}.
Definition confirmed_request : AgentRequest :=
  {| a_connection_id := lit "pg"; a_database := lit "app"; a_schema := None; a_allow_write_sql := true;
     a_confirmed_write_sql := Some (lit "DELETE FROM t WHERE id = 5"); a_confirmed_connection_id := Some (lit "pg");
     a_confirmed_database := Some (lit "app"); a_confirmed_schema := None |}.
Definition two_attempts : list (list ToolCall) :=
  [[call_tool "execute_query" "sql" " DELETE FROM t WHERE id = 5"; call_tool "explain_query" "sql" "DELETE FROM t WHERE id = 5";
    call_tool "explain_query" "sql" "SELECT 1"; call_tool "get_sample_data" "table" "t"; call_tool "get_columns" "table" "t";
    call_tool "execute_query" "sql" "DELETE FROM t WHERE id = 5"]].
Definition delete_or_read : SqlParser :=
  {| parse_sql _ s := Some [if starts_with (lit "DELETE") (trim s) then delete_by_id else SQuery (mkQuery [] (XSelect false []) false [])];
     risk_tokens _ _ := Some [] |}.
Definition escape_every (set : char → bool) (s : str) : str := concat ((λ _, lit "%3F") <$> s).
Lemma escape_every_characters set s c : c ∈ escape_every set s → set c = false ∨ c = chr "%" ∨ is_ascii_hexdigit c = true.
Proof.
  unfold escape_every. induction s as [| x s IH]; [by intros ?%elem_of_nil |]. rewrite fmap_cons, concat_cons. intros [Hc | Hc]%elem_of_app; [| auto].
  right. repeat (apply elem_of_cons in Hc as [-> | Hc]; [by vm_compute; auto |]). by apply elem_of_nil in Hc.
Qed.
Definition escape_all : PercentEncoding := {| utf8_percent_encode := escape_every; encoded_characters := escape_every_characters |}.
Definition details_of_postgres : ConnectionDetails := {| cd_username := []; cd_driver_texts := []; cd_collections := Ok [] |}.
Definition ran_twice : list Run * option WriteAttemptResponse :=
  run_turns (H := no_patterns) (H0 := ascii_only) (H1 := no_tokenizer) (H2 := no_words) (H4 := delete_or_read)
    (H5 := some_texts) (H7 := no_letters) (H8 := escape_all) (λ _, None) DatabaseType.Postgres (Some staging) details_of_postgres (lit "app") None true
    (request_permissions (Some staging) confirmed_request) two_attempts.
Example second_attempt_is_blocked :
  ran_twice = ([RunExplain (lit "SELECT 1") (lit "EXPLAIN (FORMAT JSON) SELECT 1");
                RunSql (lit "SELECT * FROM " ++ [DQUOTE] ++ lit "t" ++ [DQUOTE] ++ lit " LIMIT 20;");
                RunSql (lit "DELETE FROM t WHERE id = 5"); RunCatalog (GetColumns [] (lit "t"))], None).
Proof. vm_compute. reflexivity. Qed.
Lemma agents_write_only_what_was_confirmed_witness : length (writes_of (H0 := ascii_only) (H1 := no_tokenizer) (H2 := no_words)
    (H4 := delete_or_read) (H5 := some_texts) DatabaseType.Postgres ran_twice.1) ≤ 1.
Proof.
  destruct (agents_write_only_what_was_confirmed (H := no_patterns) (H0 := ascii_only) (H1 := no_tokenizer) (H2 := no_words)
    (H4 := delete_or_read) (H5 := some_texts) (H7 := no_letters) (H8 := escape_all) (λ _, None) DatabaseType.Postgres (Some staging)
    details_of_postgres true confirmed_request two_attempts) as [Hw | (sql & confirmed & Hw & _)].
  - intros calls Hc call sql Hcall Hname Hsql. apply list_elem_of_singleton in Hc as ->.
    repeat (apply elem_of_cons in Hcall as [-> | Hcall]; [try discriminate Hname; apply some_inj in Hsql as <-; vm_compute; reflexivity |]).
    by apply elem_of_nil in Hcall.
  - cbn zeta in Hw. change (run_turns _ _ _ _ _ _ _ _ _) with ran_twice in Hw. rewrite Hw. apply Nat.le_0_l.
  - cbn zeta in Hw. change (run_turns _ _ _ _ _ _ _ _ _) with ran_twice in Hw. rewrite Hw. apply le_n.
Defined.

(** ** The command line and MongoDB

    A pipeline that writes to a production database passes from another one. *)
Definition out_of_database : json := JArray [JObject [(lit "$out", JObject [(lit "db", JString (lit "prod")); (lit "coll", JString (lit "t"))])]].
Definition one_pipeline : JsonText := {| from_str := λ _, Some out_of_database; json5_from_str := λ _, Ok out_of_database; to_string := λ _, lit "[]" |}.
Example pipelines_reach_production :
  cli_query (H := no_patterns) (H0 := ascii_only) (H1 := no_tokenizer) (H2 := no_words) (H4 := one_statement delete_by_id) (H5 := one_pipeline)
    (H6 := no_timestamps) documents true false true false (lit "app") (lit "db.c.aggregate([])") = Ok (RunMongo (CAggregate (lit "c") (lit "[]") None)) ∧
  stage_writes (lit "app") (JObject [(lit "$out", JObject [(lit "db", JString (lit "prod")); (lit "coll", JString (lit "t"))])]) (lit "prod") ∧
  is_production_database documents (lit "prod") = true.
Proof. split; [vm_compute; reflexivity |]. split; [by eapply out_database | vm_compute; reflexivity]. Qed.
(** The variable for dangerous statements alone lets DDL through, without the permission to write that the option asks for. *)
Example dangerous_without_writes :
  is_ok (cli_query (H := no_patterns) (H0 := ascii_only) (H1 := no_tokenizer) (H2 := no_words) (H4 := one_statement (SKind KDrop [])) (H5 := some_texts)
    (H6 := no_timestamps) staging false false false true (lit "app") (lit "DROP TABLE t")) = true.
Proof. vm_compute. reflexivity. Qed.
