(* ===== verification/Calibrator.v ===== *)
(** The state calibrator ([crates/dbx-core/src/state_calibrator.rs]):
    fingerprints of schema objects, the three-way reconciliation of a baseline
    with a source and a target, drift reports and rebase plans.  The hash
    function is a parameter.  Scores are kept in hundredths; the averaged score
    of a drift report, a floating-point number, is left out, and so are the
    identifiers and timestamps drawn when a snapshot is made. *)
From S2P Require Import Prelude Identifiers RowCompare.
Local Open Scope dbx_scope.

(** [schema_diff::normalize_definition] *)
Definition normalize_definition (def : str) : str :=
  join [NL] ((λ line, join (lit " ") (split_whitespace line)) <$> split_char NL (replace_str [CR; NL] [NL] def)).

(** ** Objects *)
Inductive ObjectKind := Table | View | Function_ | Sequence | Rule | Permission.
#[export] Instance object_kind_eq_dec : EqDecision ObjectKind.
Proof. solve_decision. Defined.

Definition kind_str (k : ObjectKind) : str :=
  match k with
  | Table => lit "table" | View => lit "view" | Function_ => lit "function"
  | Sequence => lit "sequence" | Rule => lit "rule" | Permission => lit "permission"
  end.

Record ObjectDefinition := mkObject {
  kind : ObjectKind;
  name : str;
  schema : option str;
  definition : str;
}.
#[export] Instance object_eq_dec : EqDecision ObjectDefinition.
Proof. solve_decision. Defined.

Definition object_key (o : ObjectDefinition) : str :=
  match schema o with
  | Some s => kind_str (kind o) ++ lit "." ++ s ++ lit "." ++ name o
  | None => kind_str (kind o) ++ lit "." ++ name o
  end.

(** [objects.iter().map(|o| (o.key(), o)).collect::<HashMap<_, _>>()] *)
Definition object_map (objects : list ObjectDefinition) : gmap str ObjectDefinition :=
  collect_map ((λ o, (object_key o, o)) <$> objects).

Inductive ObjectReconciliationStatus :=
| Synced | SourceDrifted | TargetDrifted | BothDriftedIdentical | BothDriftedConflict
| DeletedInSource | DeletedInTarget | NewInSource | NewInTarget | NewInBoth | BaselineOnly.
#[export] Instance status_eq_dec : EqDecision ObjectReconciliationStatus.
Proof. solve_decision. Defined.

(** The drift scores, in hundredths. *)
Definition DRIFT_NONE : N := 0.
Definition DRIFT_NEW_OBJECT : N := 30.
Definition DRIFT_SINGLE_SIDE : N := 33.
Definition DRIFT_IDENTICAL_CHANGE : N := 50.
Definition DRIFT_DELETED : N := 66.
Definition DRIFT_STALE_BASELINE : N := 80.
Definition DRIFT_CONFLICT : N := 100.
Definition DRIFT_PSEUDO : N := 0.

Definition classify_reconciliation (b_fp s_fp t_fp : option str) : ObjectReconciliationStatus * N :=
  match b_fp, s_fp, t_fp with
  | Some b, Some s, Some t =>
      if decide (b = s ∧ s = t) then (Synced, DRIFT_NONE)
      else if decide (b = s ∧ s ≠ t) then (TargetDrifted, DRIFT_SINGLE_SIDE)
      else if decide (b = t ∧ s ≠ t) then (SourceDrifted, DRIFT_SINGLE_SIDE)
      else if decide (s = t ∧ b ≠ s) then (BothDriftedIdentical, DRIFT_IDENTICAL_CHANGE)
      else (BothDriftedConflict, DRIFT_CONFLICT)
  | Some _, None, Some _ => (DeletedInSource, DRIFT_DELETED)
  | Some _, Some _, None => (DeletedInTarget, DRIFT_DELETED)
  | Some _, None, None => (BaselineOnly, DRIFT_STALE_BASELINE)
  | None, Some s, Some t => if decide (s = t) then (NewInBoth, DRIFT_NONE) else (BothDriftedConflict, DRIFT_CONFLICT)
  | None, Some _, None => (NewInSource, DRIFT_NONE)
  | None, None, Some _ => (NewInTarget, DRIFT_NONE)
  | None, None, None => (Synced, DRIFT_NONE)
  end.

Record ObjectReconciliation := {
  rec_key : str;
  rec_kind : ObjectKind;
  rec_name : str;
  status : ObjectReconciliationStatus;
  baseline_fingerprint : option str;
  source_fingerprint : option str;
  target_fingerprint : option str;
  source_definition : option str;
  target_definition : option str;
  drift_score : N;
}.

Record ReconciliationResult := {
  total_objects : nat;
  synced_count : nat;
  drifted_count : nat;
  conflict_count : nat;
  object_reconciliations : list ObjectReconciliation;
}.

(** [keys.sort()] over the keys of the three maps, each once; the order in
    which the hash maps are walked is lost in the sort. *)
Definition all_keys (b s t : gmap str ObjectDefinition) : list str :=
  merge_sort str_le (elements (dom b ∪ dom s ∪ dom t)).

(** The counters of the loop: synced, drifted, conflicts. *)
Definition count_status (acc : nat * nat * nat) (st : ObjectReconciliationStatus) : nat * nat * nat :=
  let '(synced, drifted, conflicts) := acc in
  match st with
  | Synced | NewInBoth => (S synced, drifted, conflicts)
  | BothDriftedConflict => (synced, S drifted, S conflicts)
  | _ => (synced, S drifted, conflicts)
  end.

Inductive RebaseResolution := AcceptSource | AcceptTarget | AcceptBaseline | ManualReview.

Record ConflictItem := {
  conflict_key : str;
  resolution : RebaseResolution;
  conflict_baseline : option str;
  conflict_source : option str;
  conflict_target : option str;
}.

Record RebasePlan := {
  conflicts : list ConflictItem;
  proposed_objects : list ObjectDefinition;
  requires_manual_review : bool;
}.

Record DriftedObject := {
  drifted_key : str;
  drifted_baseline : str;
  drifted_current : str;
  is_pseudo_drift : bool;
  score : N;
}.

Record DriftReport := {
  has_drift : bool;
  drifted_objects : list DriftedObject;
  pseudo_drift_count : nat;
  real_drift_count : nat;
}.

Definition strip_sql_comments (sql : str) : str :=
  join [NL] (List.filter (λ line,
    let trimmed := trim line in
    negb (starts_with (lit "--") trimmed || starts_with (lit "//") trimmed || starts_with (lit "#") trimmed))
    (lines sql)).

Definition filter_pseudo_drift (baseline_def : str) (current_def : option str) : bool :=
  match current_def with
  | None => false
  | Some cur_def =>
      let b_norm := normalize_definition baseline_def in
      let c_norm := normalize_definition cur_def in
      if decide (b_norm = c_norm) then true
      else if decide (strip_sql_comments b_norm = strip_sql_comments c_norm) then true
      else false
  end.

Section calibrator.
(** [hex(Sha256::digest(text.as_bytes()))] *)
Context (sha256_hex : str → str).

Definition object_fingerprint (def : str) : str := sha256_hex (normalize_definition def).

Record SemanticFingerprint := {
  fingerprint : str;
  object_fingerprints : gmap str str;
}.

Definition compute (objects : list ObjectDefinition) : SemanticFingerprint :=
  let prints := collect_map ((λ o, (object_key o, object_fingerprint (definition o))) <$> objects) in
  let keys := merge_sort str_le (elements (dom prints)) in
  {| fingerprint :=
       sha256_hex (concat ((λ key, key ++ lit ":" ++ default [] (prints !! key) ++ lit ";") <$> keys));
     object_fingerprints := prints |}.

Record StateSnapshot := {
  snapshot_id : str;
  label : str;
  objects : list ObjectDefinition;
  snapshot_fingerprint : SemanticFingerprint;
}.

Definition snapshot_new (id label_ : str) (objs : list ObjectDefinition) : StateSnapshot :=
  {| snapshot_id := id; label := label_; objects := objs; snapshot_fingerprint := compute objs |}.

(** ** Reconciliation *)
Definition reconcile_key (b s t : gmap str ObjectDefinition) (key : str) : ObjectReconciliation :=
  let b_obj := b !! key in
  let s_obj := s !! key in
  let t_obj := t !! key in
  let fp := λ o : ObjectDefinition, object_fingerprint (definition o) in
  let '(st, sc) := classify_reconciliation (fp <$> b_obj) (fp <$> s_obj) (fp <$> t_obj) in
  let first := match b_obj with Some o => Some o | None => match s_obj with Some o => Some o | None => t_obj end end in
  {| rec_key := key;
     rec_kind := default Table (kind <$> first);
     rec_name := default [] (name <$> first);
     status := st;
     baseline_fingerprint := fp <$> b_obj;
     source_fingerprint := fp <$> s_obj;
     target_fingerprint := fp <$> t_obj;
     source_definition := definition <$> s_obj;
     target_definition := definition <$> t_obj;
     drift_score := sc |}.

Definition reconcile_three_way (baseline : StateSnapshot) (source target : list ObjectDefinition) :
    ReconciliationResult :=
  let b := object_map (objects baseline) in
  let s := object_map source in
  let t := object_map target in
  let keys := all_keys b s t in
  let recs := reconcile_key b s t <$> keys in
  let '(synced, drifted, conf) := foldl count_status (0, 0, 0) (status <$> recs) in
  {| total_objects := length keys; synced_count := synced; drifted_count := drifted; conflict_count := conf;
     object_reconciliations := recs |}.

(** ** Drift *)
Definition detect_drift (baseline : StateSnapshot) (current : list ObjectDefinition) : DriftReport :=
  let current_fp := compute current in
  let overall := negb (bool_decide (fingerprint (snapshot_fingerprint baseline) = fingerprint current_fp)) in
  let current_map := object_map current in
  let changed :=
    omap (λ obj,
      let b_fp := default [] (object_fingerprints (snapshot_fingerprint baseline) !! object_key obj) in
      let c_fp := default [] (object_fingerprints current_fp !! object_key obj) in
      if decide (b_fp = c_fp) then None
      else
        let pseudo := filter_pseudo_drift (definition obj) (definition <$> current_map !! object_key obj) in
        Some {| drifted_key := object_key obj; drifted_baseline := b_fp; drifted_current := c_fp;
                is_pseudo_drift := pseudo; score := if pseudo then DRIFT_PSEUDO else DRIFT_IDENTICAL_CHANGE |})
      (objects baseline) in
  let fresh :=
    omap (λ obj,
      if decide (is_Some (object_fingerprints (snapshot_fingerprint baseline) !! object_key obj)) then None
      else Some {| drifted_key := object_key obj; drifted_baseline := [];
                   drifted_current := default [] (object_fingerprints current_fp !! object_key obj);
                   is_pseudo_drift := false; score := DRIFT_NEW_OBJECT |}) current in
  {| has_drift := overall || negb (bool_decide (length (changed ++ fresh) = 0));
     drifted_objects := changed ++ fresh;
     pseudo_drift_count := length (List.filter is_pseudo_drift changed);
     real_drift_count := length (List.filter (λ d, negb (is_pseudo_drift d)) changed) + length fresh |}.

(** ** Rebase *)
Definition conflict_item (r : ObjectReconciliation) (res : RebaseResolution) : ConflictItem :=
  {| conflict_key := rec_key r; resolution := res; conflict_baseline := baseline_fingerprint r;
     conflict_source := source_fingerprint r; conflict_target := target_fingerprint r |}.

(** One iteration of the loop: the conflicts and objects it pushes, and
    whether it asks for a review. *)
Definition rebase_step (source_map target_map : gmap str ObjectDefinition) (auto_resolve : bool)
    (r : ObjectReconciliation) : list ConflictItem * list ObjectDefinition * bool :=
  let from_source := option_list (source_map !! rec_key r) in
  let from_target := option_list (target_map !! rec_key r) in
  match status r with
  | Synced | BothDriftedIdentical =>
      ([], match source_map !! rec_key r with Some o => [o] | None => from_target end, false)
  | TargetDrifted =>
      if auto_resolve then ([conflict_item r AcceptTarget], from_target, false)
      else ([conflict_item r ManualReview], [], true)
  | SourceDrifted =>
      if auto_resolve then ([conflict_item r AcceptSource], from_source, false)
      else ([conflict_item r ManualReview], [], true)
  | BothDriftedConflict => ([conflict_item r ManualReview], [], true)
  | NewInBoth | NewInSource => ([], from_source, false)
  | NewInTarget => ([], from_target, false)
  | DeletedInSource | DeletedInTarget | BaselineOnly => ([], [], false)
  end.

Definition build_rebase_plan (baseline : StateSnapshot) (source target : list ObjectDefinition) (auto_resolve : bool) :
    RebasePlan :=
  let recs := object_reconciliations (reconcile_three_way baseline source target) in
  let steps := rebase_step (object_map source) (object_map target) auto_resolve <$> recs in
  {| conflicts := concat ((λ s, s.1.1) <$> steps);
     proposed_objects := concat ((λ s, s.1.2) <$> steps);
     requires_manual_review := existsb (λ s, s.2) steps |}.

(** ** The keys *)
Lemma elem_of_all_keys b s t k : k ∈ all_keys b s t ↔ is_Some (b !! k) ∨ is_Some (s !! k) ∨ is_Some (t !! k).
Proof.
  unfold all_keys. rewrite merge_sort_Permutation, elem_of_elements, !elem_of_union, !elem_of_dom. tauto.
Qed.

Lemma all_keys_NoDup b s t : NoDup (all_keys b s t).
Proof. unfold all_keys. rewrite merge_sort_Permutation. apply NoDup_elements. Qed.

Lemma all_keys_sorted b s t : StronglySorted str_le (all_keys b s t).
Proof. apply (StronglySorted_merge_sort str_le). Qed.

(** Any other walk over the maps gives the same list after the sort. *)
Lemma all_keys_unique b s t (walk : list str) :
  walk ≡ₚ elements (dom b ∪ dom s ∪ dom t) → merge_sort str_le walk = all_keys b s t.
Proof.
  intros Hw. apply (StronglySorted_unique str_le);
    [apply (StronglySorted_merge_sort str_le)..|]. unfold all_keys. by rewrite !merge_sort_Permutation.
Qed.

Lemma reconcile_key_key b s t k : rec_key (reconcile_key b s t k) = k.
Proof. unfold reconcile_key. by destruct (classify_reconciliation _ _ _). Qed.

Lemma count_status_total l x y z :
  let '(synced, drifted, conf) := foldl count_status (x, y, z) l in
  synced + drifted = x + y + length l ∧
  conf = z + length (filter (λ st, st = BothDriftedConflict) l) ∧
  synced = x + length (filter (λ st, st = Synced ∨ st = NewInBoth) l).
Proof.
  revert x y z. induction l as [|st l IH]; intros x y z; [simpl; lia|].
  cbn [foldl]. rewrite !filter_cons. specialize (IH (count_status (x, y, z) st).1.1
    (count_status (x, y, z) st).1.2 (count_status (x, y, z) st).2).
  rewrite <-!surjective_pairing in IH. destruct (foldl count_status _ l) as [[synced drifted] conf].
  destruct IH as (H1 & H2 & H3).
  destruct st; simpl in *; repeat case_decide; simplify_eq; try (exfalso; naive_solver); simpl; lia.
Qed.

Lemma object_map_Some objs k o : object_map objs !! k = Some o → o ∈ objs ∧ object_key o = k.
Proof.
  unfold object_map. induction objs as [|x objs IH] using rev_ind; [done|].
  rewrite fmap_app. simpl. rewrite collect_map_snoc, lookup_insert_Some. intros [[<- <-]|[_ Hl]]; [set_solver|].
  apply IH in Hl as [??]. set_solver.
Qed.

Lemma object_map_is_Some objs o : o ∈ objs → is_Some (object_map objs !! object_key o).
Proof.
  intros Ho. destruct (object_map objs !! object_key o) eqn:E; [done|]. unfold object_map in E.
  rewrite collect_map_lookup_None, <-list_fmap_compose in E. destruct E.
  by apply (list_elem_of_fmap_2 (fst ∘ (λ o, (object_key o, o)))).
Qed.

Lemma prints_object_map objs :
  object_fingerprints (compute objs) = (λ o, object_fingerprint (definition o)) <$> object_map objs.
Proof. unfold object_map. rewrite <-collect_map_fmap, <-list_fmap_compose. done. Qed.

(** A reconciliation lists every object of the baseline, the source and the target exactly
    once, in the order of the keys, and its counters add up to the number of objects. *)
Theorem reconciliation_covers_every_object baseline source target :
  let res := reconcile_three_way baseline source target in
  let keys := rec_key <$> object_reconciliations res in
  StronglySorted str_le keys ∧ NoDup keys ∧
  (∀ k, k ∈ keys ↔ ∃ o, o ∈ objects baseline ++ source ++ target ∧ object_key o = k) ∧
  total_objects res = length (object_reconciliations res) ∧
  synced_count res + drifted_count res = total_objects res ∧
  synced_count res = length (filter (λ st, st = Synced ∨ st = NewInBoth) (status <$> object_reconciliations res)) ∧
  conflict_count res = length (filter (λ st, st = BothDriftedConflict) (status <$> object_reconciliations res)).
Proof.
  unfold reconcile_three_way.
  set (b := object_map (objects baseline)). set (s := object_map source). set (t := object_map target).
  set (recs := reconcile_key b s t <$> all_keys b s t).
  pose proof (count_status_total (status <$> recs) 0 0 0) as Hc.
  destruct (foldl count_status (0, 0, 0) (status <$> recs)) as [[synced drifted] conf]. simpl.
  assert (rec_key <$> recs = all_keys b s t) as ->.
  { unfold recs. rewrite <-list_fmap_compose. rewrite <-(list_fmap_id (all_keys b s t)) at 2.
    apply list_fmap_ext. intros i k _. apply reconcile_key_key. }
  assert (length recs = length (all_keys b s t)) as Hl by apply length_fmap.
  rewrite length_fmap in Hc. split_and!; [apply all_keys_sorted|apply all_keys_NoDup| |lia..].
  intros k. rewrite elem_of_all_keys. split.
  - intros [[o Ho]|[[o Ho]|[o Ho]]]; apply object_map_Some in Ho as [??]; exists o; set_solver.
  - intros (o & Ho & <-). rewrite !elem_of_app in Ho.
    destruct Ho as [Ho|[Ho|Ho]]; apply object_map_is_Some in Ho; auto.
Qed.

(** ** Three-way merge: the specification *)
Inductive merged := Take (x : option str) | Conflict.

Definition three_way (b s t : option str) : merged :=
  if decide (s = t) then Take s
  else if decide (b = s) then Take t
  else if decide (b = t) then Take s
  else Conflict.

Lemma filter_keyed (f : str → list ObjectDefinition) (keys : list str) key :
  NoDup keys → (∀ k o, o ∈ f k → object_key o = k) →
  filter (λ o, object_key o = key) (concat (f <$> keys)) = if decide (key ∈ keys) then f key else [].
Proof.
  intros Hnd Hf. induction Hnd as [|k keys Hk Hnd IH]; [done|].
  cbn [fmap list_fmap concat]. rewrite filter_app, IH. destruct (decide (key = k)) as [->|Hne].
  - rewrite (decide_True (P := k ∈ k :: keys)) by left. rewrite (decide_False (P := k ∈ keys)) by done.
    rewrite app_nil_r. clear IH. assert (Hall : ∀ o, o ∈ f k → object_key o = k) by eauto.
    induction (f k) as [|o l IH]; [done|]. rewrite filter_cons_True by (apply Hall; left).
    f_equal. apply IH. intros x Hx. apply Hall. by right.
  - assert (filter (λ o, object_key o = key) (f k) = []) as ->.
    { assert (Hall : ∀ o, o ∈ f k → object_key o ≠ key) by (intros o Ho%Hf; congruence). clear IH.
      induction (f k) as [|o l IH]; [done|]. rewrite filter_cons_False by (apply Hall; left).
      apply IH. intros x Hx. apply Hall. by right. }
    simpl. destruct (decide (key ∈ keys)); [rewrite decide_True by (by right)|rewrite decide_False by set_solver]; done.
Qed.

Definition fp_of (objs : list ObjectDefinition) (key : str) : option str :=
  (λ o, object_fingerprint (definition o)) <$> object_map objs !! key.

(** The fingerprints of the objects a plan proposes under a key. *)
Definition proposed_under (plan : RebasePlan) (key : str) : list str :=
  (λ o, object_fingerprint (definition o)) <$> filter (λ o, object_key o = key) (proposed_objects plan).

Section merge.
Context (baseline : StateSnapshot) (source target : list ObjectDefinition).

Abbreviation b := (object_map (objects baseline)).
Abbreviation s := (object_map source).
Abbreviation t := (object_map target).
Abbreviation step k := (rebase_step s t true (reconcile_key b s t k)).

Lemma plan_steps : object_reconciliations (reconcile_three_way baseline source target) =
  reconcile_key b s t <$> all_keys b s t.
Proof. unfold reconcile_three_way. by destruct (foldl _ _ _) as [[??]?]. Qed.

Lemma step_objects k o auto : o ∈ (rebase_step s t auto (reconcile_key b s t k)).1.2 → object_key o = k.
Proof.
  unfold rebase_step. rewrite reconcile_key_key.
  assert (Hs : ∀ o, o ∈ option_list (s !! k) → object_key o = k).
  { intros x. destruct (s !! k) eqn:E; [|by intros ?%not_elem_of_nil].
    intros ->%list_elem_of_singleton. by apply object_map_Some in E as [_ ?]. }
  assert (Ht : ∀ o, o ∈ option_list (t !! k) → object_key o = k).
  { intros x. destruct (t !! k) eqn:E; [|by intros ?%not_elem_of_nil].
    intros ->%list_elem_of_singleton. by apply object_map_Some in E as [_ ?]. }
  destruct (status _), auto; simpl; try (by intros ?%not_elem_of_nil); eauto;
    destruct (s !! k); simpl in *; eauto.
Qed.

Lemma proposed_under_step key :
  proposed_under (build_rebase_plan baseline source target true) key =
  (λ o, object_fingerprint (definition o)) <$> (if decide (key ∈ all_keys b s t) then (step key).1.2 else []).
Proof.
  unfold proposed_under, build_rebase_plan. cbn [proposed_objects]. rewrite plan_steps, <-!list_fmap_compose.
  f_equal. apply (filter_keyed (λ k, (step k).1.2)); [apply all_keys_NoDup|]. intros k o. apply step_objects.
Qed.

Lemma step_merges key :
  match three_way (fp_of (objects baseline) key) (fp_of source key) (fp_of target key) with
  | Take x => (λ o, object_fingerprint (definition o)) <$> (step key).1.2 = option_list x
  | Conflict => (step key).1.2 = [] ∧
      (is_Some (fp_of source key) → is_Some (fp_of target key) →
       (step key).1.1 = [conflict_item (reconcile_key b s t key) ManualReview] ∧ (step key).2 = true)
  end.
Proof.
  unfold fp_of, three_way, rebase_step. rewrite reconcile_key_key. unfold reconcile_key, classify_reconciliation.
  destruct (b !! key) as [bo|], (s !! key) as [so|], (t !! key) as [to|]; simpl;
    repeat (case_decide; simplify_eq/=); try done; try naive_solver congruence;
    split; try done; intros [? ?] [? ?]; congruence.
Qed.
End merge.

(** C27: With automatic resolution, a rebase plan proposes for every object what a three-way merge
    of the fingerprints of baseline, source and target takes; where the merge has a conflict and
    both sides have the object, the plan proposes nothing, lists the object for review and asks for
    it. *)
Theorem rebase_is_three_way_merge baseline source target key :
  let plan := build_rebase_plan baseline source target true in
  match three_way (fp_of (objects baseline) key) (fp_of source key) (fp_of target key) with
  | Take x => proposed_under plan key = option_list x
  | Conflict =>
      proposed_under plan key = [] ∧
      (is_Some (fp_of source key) → is_Some (fp_of target key) →
       requires_manual_review plan = true ∧
       ∃ c, c ∈ conflicts plan ∧ conflict_key c = key ∧ resolution c = ManualReview)
  end.
Proof.
  intros plan. unfold plan. rewrite proposed_under_step.
  pose proof (step_merges baseline source target key) as Hm.
  case_decide as Hk.
  - destruct (three_way _ _ _) as [x|]; [done|]. destruct Hm as [-> Hm]. split; [done|].
    intros Hs Ht. destruct (Hm Hs Ht) as [Hc Hr]. unfold build_rebase_plan. cbn [requires_manual_review conflicts].
    rewrite plan_steps, <-!list_fmap_compose. split.
    + apply List.existsb_exists. eexists. split; [|exact Hr]. apply list_elem_of_In.
      by apply (list_elem_of_fmap_2 (rebase_step _ _ _ ∘ reconcile_key _ _ _)).
    + exists (conflict_item (reconcile_key (object_map (objects baseline)) (object_map source) (object_map target) key)
        ManualReview). split; [|split; [apply reconcile_key_key|done]].
      apply list_elem_of_In, List.in_concat. eexists. split.
      * apply list_elem_of_In. by apply (list_elem_of_fmap_2 _ _ key).
      * unfold compose. rewrite Hc. by left.
  - rewrite elem_of_all_keys in Hk. unfold fp_of in *.
    destruct (object_map (objects baseline) !! key); [naive_solver|].
    destruct (object_map source !! key); [naive_solver|]. destruct (object_map target !! key); [naive_solver|]. done.
Qed.

(** ** Drift reports *)
Lemma omap_nil {A B} (f : A → option B) (l : list A) : omap f l = [] ↔ ∀ x, x ∈ l → f x = None.
Proof.
  split.
  - intros He x Hx. destruct (f x) as [y|] eqn:E; [|done].
    assert (Hy : y ∈ omap f l) by (apply list_elem_of_omap; eauto). rewrite He in Hy. by apply not_elem_of_nil in Hy.
  - intros Hn. induction l as [|x l IH]; [done|]. csimpl. rewrite Hn by left. apply IH. intros y Hy. apply Hn. by right.
Qed.

Lemma print_of objs o : o ∈ objs → ∃ def, object_fingerprints (compute objs) !! object_key o = Some (object_fingerprint def).
Proof.
  intros [x Hx]%object_map_is_Some. exists (definition x). by rewrite prints_object_map, lookup_fmap, Hx.
Qed.

Lemma print_origin objs k p : object_fingerprints (compute objs) !! k = Some p → ∃ o, o ∈ objs ∧ object_key o = k.
Proof. rewrite prints_object_map, lookup_fmap, fmap_Some. intros (o & ?%object_map_Some & _). eauto. Qed.

Lemma no_drift_same_prints (base cur : list ObjectDefinition) id_ label_ :
  (∀ x, sha256_hex x ≠ []) →
  drifted_objects (detect_drift (snapshot_new id_ label_ base) cur) = [] ↔
  object_fingerprints (compute base) = object_fingerprints (compute cur).
Proof.
  intros Hsha. unfold detect_drift, snapshot_new. cbn [drifted_objects objects snapshot_fingerprint].
  set (pb := object_fingerprints (compute base)). set (pc := object_fingerprints (compute cur)).
  rewrite app_nil, !omap_nil. split.
  - intros [Hch Hfr]. apply map_eq. intros k. destruct (pb !! k) as [p|] eqn:Eb.
    + destruct (print_origin _ _ _ Eb) as (o & Ho & <-). specialize (Hch o Ho). rewrite Eb in Hch.
      destruct (print_of _ _ Ho) as [def Hd]. unfold pb in Eb. rewrite Hd in Eb. injection Eb as <-.
      case_decide as Hc; [|done]. simpl in Hc. destruct (pc !! object_key o); simpl in Hc; [congruence|].
      by apply Hsha in Hc.
    + destruct (pc !! k) as [p|] eqn:Ec; [|done]. destruct (print_origin _ _ _ Ec) as (o & Ho & <-).
      specialize (Hfr o Ho). case_decide as Hd; [|done]. rewrite Eb in Hd. by destruct Hd.
  - intros Heq. split; intros o Ho.
    + rewrite Heq. by rewrite decide_True.
    + rewrite Heq. destruct (print_of _ _ Ho) as [def Hd]. unfold pc. rewrite Hd. by rewrite decide_True.
Qed.

Lemma compute_fingerprint_map (base cur : list ObjectDefinition) :
  object_fingerprints (compute base) = object_fingerprints (compute cur) →
  fingerprint (compute base) = fingerprint (compute cur).
Proof. unfold compute. cbn [object_fingerprints fingerprint]. by intros ->. Qed.

(** For a snapshot taken by the program, the drift report says that nothing drifted exactly
    when the fingerprints of all objects agree, and counts every drifted object once as real or
    pseudo. *)
Theorem drift_report_is_exact (base cur : list ObjectDefinition) id_ label_ :
  (∀ x, sha256_hex x ≠ []) →
  let report := detect_drift (snapshot_new id_ label_ base) cur in
  (has_drift report = false ↔ object_fingerprints (compute base) = object_fingerprints (compute cur)) ∧
  pseudo_drift_count report + real_drift_count report = length (drifted_objects report).
Proof.
  intros Hsha report. pose proof (no_drift_same_prints base cur id_ label_ Hsha) as Hn. fold report in Hn. split.
  - rewrite <-Hn. unfold report, detect_drift in *. cbn [has_drift drifted_objects snapshot_fingerprint snapshot_new] in *.
    rewrite orb_false_iff, !negb_false_iff, !bool_decide_eq_true, length_zero_iff_nil. split; [tauto|].
    intros He. split; [|done]. by apply compute_fingerprint_map, Hn.
  - unfold report, detect_drift. cbn [pseudo_drift_count real_drift_count drifted_objects].
    rewrite length_app, Nat.add_assoc. f_equal. induction (omap _ _) as [|d l IH]; [done|].
    simpl. destruct (is_pseudo_drift d); simpl; lia.
Qed.
End calibrator.

Lemma drift_report_witness :
  let base := [mkObject Table (lit "t") None (lit "CREATE TABLE t (a int)")] in
  let cur := [mkObject Table (lit "t") None (lit "CREATE  TABLE t (a int)")] in
  let report := detect_drift (cons 48%N) (snapshot_new (cons 48%N) (lit "1") (lit "base") base) cur in
  (has_drift report = false ↔
   object_fingerprints (compute (cons 48%N) base) = object_fingerprints (compute (cons 48%N) cur)) ∧
  pseudo_drift_count report + real_drift_count report = length (drifted_objects report).
Proof. intros base cur. apply drift_report_is_exact. discriminate. Defined.

(** ** Deviations *)

(** A table [b] of the schema [a] and a table [a.b] without a schema share a
    key, so that only the last of them is compared. *)
Theorem object_keys_collide :
  let o1 := mkObject Table (lit "b") (Some (lit "a")) (lit "CREATE TABLE b ()") in
  let o2 := mkObject Table (lit "a.b") None (lit "CREATE TABLE x ()") in
  o1 ≠ o2 ∧ object_key o1 = object_key o2 ∧ size (object_map [o1; o2]) = 1.
Proof. split; [discriminate|]. by vm_compute. Qed.

(** The object was deleted in the source and changed in the target: the plan
    drops the target's version and asks for no review. *)
Theorem rebase_drops_a_changed_object sha256_hex :
  (∀ x y, sha256_hex x = sha256_hex y → x = y) →
  let old := mkObject Table (lit "t") None (lit "CREATE TABLE t (a int)") in
  let new := mkObject Table (lit "t") None (lit "CREATE TABLE t (a int, b int)") in
  let plan := build_rebase_plan sha256_hex (snapshot_new sha256_hex (lit "1") (lit "base") [old]) [] [new] true in
  three_way (fp_of sha256_hex [old] (object_key old)) (fp_of sha256_hex [] (object_key old))
    (fp_of sha256_hex [new] (object_key old)) = Conflict ∧
  proposed_objects plan = [] ∧ conflicts plan = [] ∧ requires_manual_review plan = false.
Proof.
  intros Hinj old new plan. split; [|by vm_compute].
  unfold three_way, fp_of, object_fingerprint. rewrite !decide_False; [done|..].
  all: vm_compute; try discriminate. intros [= H]. apply Hinj in H. discriminate.
Qed.
