(* ===== verification/Config.v ===== *)
(** Layered configuration ([crates/dbx-core/src/config]): the layers and their
    merge ([layer.rs]), the tag guard ([tag.rs]), expressions in values
    ([expression.rs]) and the ring buffer of trace entries ([trace.rs]).  Where
    the source walks a hash map, the walk is the order of [map_to_list]. *)
From S2P Require Import Prelude StateStore Json.
Local Open Scope dbx_scope.

(** ** Layers *)
Inductive ConfigLayer := Global | Team | Project | Env | Task.
#[export] Instance config_layer_eq_dec : EqDecision ConfigLayer.
Proof. solve_decision. Defined.

Definition layer_priority (l : ConfigLayer) : N :=
  match l with Global => 0 | Team => 1 | Project => 2 | Env => 3 | Task => 4 end.

Definition layer_label (l : ConfigLayer) : str :=
  match l with
  | Global => lit "global" | Team => lit "team" | Project => lit "project" | Env => lit "env" | Task => lit "task"
  end.

Record LayerConfig := mkLayer {
  layer : ConfigLayer;
  layer_name : str;
  description : str;
  layer_values : gmap str json;
  layer_tags : gmap str str;
  enabled : bool;
  priority_override : option N;
  metadata : gmap str str;
}.

Definition effective_priority (l : LayerConfig) : N := default (layer_priority (layer l)) (priority_override l).

Record MergedConfig := {
  values : gmap str json;
  tags : gmap str str;
  provenance : gmap str ConfigLayer;
}.

Record ConfigTree := { layers : list LayerConfig }.
Definition config_tree_new : ConfigTree := {| layers := [] |}.
Definition add_layer (config : LayerConfig) (t : ConfigTree) : ConfigTree := {| layers := layers t ++ [config] |}.

(** [sort_by_key(|l| l.effective_priority())], a stable sort. *)
Fixpoint insert_by_priority (x : LayerConfig) (l : list LayerConfig) : list LayerConfig :=
  match l with
  | [] => [x]
  | y :: r => if decide (effective_priority y < effective_priority x)%N then y :: insert_by_priority x r else x :: l
  end.
Fixpoint sort_by_priority (l : list LayerConfig) : list LayerConfig :=
  match l with [] => [] | x :: r => insert_by_priority x (sort_by_priority r) end.

(** The body of the loop over the sorted layers; a layer's map has each key
    once, so that inserting its entries is a union. *)
Definition merge_layer (acc : MergedConfig) (l : LayerConfig) : MergedConfig :=
  {| values := layer_values l ∪ values acc;
     tags := layer_tags l ∪ tags acc;
     provenance := (const (layer l) <$> layer_values l) ∪ provenance acc |}.

Definition merge (t : ConfigTree) : result MergedConfig str :=
  let sorted := sort_by_priority (List.filter enabled (layers t)) in
  Ok (foldl merge_layer {| values := ∅; tags := ∅; provenance := ∅ |} sorted).

Definition validate_layer (acc : list str * gmap str nat) (il : nat * LayerConfig) : list str * gmap str nat :=
  let '(errors, seen_keys) := acc in
  let '(i, l) := il in
  let errors1 := if decide (layer_name l = []) then errors ++ [lit "Layer at index " ++ show_nat i ++ lit " has empty name"]
                 else errors in
  let errors2 := if decide (layer_values l = ∅ ∧ layer_tags l = ∅)
                 then errors1 ++ [lit "Layer '" ++ layer_name l ++ lit "' (" ++ layer_label (layer l) ++
                                  lit ") has no values or tags"] else errors1 in
  foldl (λ acc key,
    let '(errs, seen) := acc in
    match seen !! key with
    | Some prev => (errs ++ [lit "Key '" ++ key ++ lit "' defined in multiple layers (index " ++ show_nat prev ++
                             lit " and " ++ show_nat i ++ lit ")"], seen)
    | None => (errs, <[key := i]> seen)
    end) (errors2, seen_keys) (map_to_list (layer_values l)).*1.

Definition validate (t : ConfigTree) : result unit (list str) :=
  let '(errors, _) := foldl validate_layer ([], ∅) (imap pair (layers t)) in
  match errors with [] => Ok tt | _ => Err errors end.

(** ** Tags *)
Inductive TagPolicy := Allow | Block | Strict.

Record BusinessTag := mkTag {
  tag_key : str;
  tag_value : str;
  tag_description : str;
  immutable : bool;
}.

Record TagInheritanceWhitelist := { allowed_keys : gset str; default_policy : TagPolicy }.
Definition default_whitelist : TagInheritanceWhitelist := {| allowed_keys := ∅; default_policy := Block |}.

Definition is_allowed (w : TagInheritanceWhitelist) (key : str) : bool :=
  match default_policy w with
  | Allow => true
  | Block => bool_decide (key ∈ allowed_keys w)
  | Strict => bool_decide (key ∈ allowed_keys w)
  end.

Record TagValidationResult := {
  allowed : list BusinessTag;
  blocked : list BusinessTag;
  violations : list str;
}.

Record TagValidator := { whitelist : TagInheritanceWhitelist; strict_mode : bool }.

Definition validate_tag (v : TagValidator) (base_tags : gmap str str) (acc : TagValidationResult) (tag : BusinessTag) :
    TagValidationResult :=
  let shown := lit "Tag '" ++ tag_key tag ++ lit "'='" ++ tag_value tag ++ lit "'" in
  if negb (is_allowed (whitelist v) (tag_key tag)) then
    let msg := if strict_mode v then lit "BLOCKED: " ++ shown ++ lit " is not in whitelist (strict mode)"
               else lit "BLOCKED: " ++ shown ++ lit " is not in whitelist" in
    {| allowed := allowed acc; blocked := blocked acc ++ [tag]; violations := violations acc ++ [msg] |}
  else
    let more :=
      match base_tags !! tag_key tag with
      | Some base_val =>
          if decide (tag_value tag ≠ base_val ∧ strict_mode v = true)
          then [lit "STRICT VIOLATION: " ++ shown ++ lit " differs from base value '" ++ base_val ++ lit "'"] else []
      | None => []
      end in
    {| allowed := allowed acc ++ [tag]; blocked := blocked acc; violations := violations acc ++ more |}.

Definition validate_tags (v : TagValidator) (ts : list BusinessTag) (base_tags : gmap str str) : TagValidationResult :=
  foldl (validate_tag v base_tags) {| allowed := []; blocked := []; violations := [] |} ts.

Definition has_blocking_violations (v : TagValidator) (r : TagValidationResult) : bool :=
  if strict_mode v then negb (bool_decide (violations r = [])) else negb (bool_decide (length (blocked r) = 0)).

Record BlockStats := {
  total_tags : nat;
  blocked_count : nat;
  violation_count : nat;
  by_key : gmap str nat;
  stats_strict_mode : bool;
}.

Definition bump (m : gmap str nat) (k : str) : gmap str nat := <[k := S (default 0 (m !! k))]> m.

Definition from_validation (r : TagValidationResult) (strict : bool) : BlockStats :=
  {| total_tags := length (allowed r) + length (blocked r);
     blocked_count := length (blocked r);
     violation_count := length (violations r);
     by_key := foldl bump ∅ (tag_key <$> blocked r);
     stats_strict_mode := strict |}.

Record TagGuard := { validator : TagValidator; stats : list BlockStats }.
Definition tag_guard_new (v : TagValidator) : TagGuard := {| validator := v; stats := [] |}.

(** The mutex around the statistics is taken for one push. *)
Definition validate_and_collect (g : TagGuard) (ts : list BusinessTag) (base_tags : gmap str str) :
    TagGuard * TagValidationResult :=
  let r := validate_tags (validator g) ts base_tags in
  ({| validator := validator g; stats := stats g ++ [from_validation r (strict_mode (validator g))] |}, r).

Definition blocking_summary (g : TagGuard) : nat * nat * nat :=
  (sum_list (blocked_count <$> stats g), sum_list (violation_count <$> stats g), sum_list (total_tags <$> stats g)).

Definition merge_with_guard (t : ConfigTree) (g : TagGuard) : TagGuard * result MergedConfig str :=
  match merge t with
  | Err e => (g, Err e)
  | Ok merged =>
      let ts := (λ kv : str * str, mkTag kv.1 kv.2 [] false) <$> map_to_list (tags merged) in
      let '(g', r) := validate_and_collect g ts ∅ in
      if has_blocking_violations (validator g') r then
        let '(nblocked, nviolations, _) := blocking_summary g' in
        (g', Err (lit "Tag guard blocked config merge: " ++ show_nat nblocked ++ lit " tags blocked, " ++
                  show_nat nviolations ++ lit " violations"))
      else (g', Ok merged)
  end.

(** ** Expressions *)
Inductive Expression := EnvVar (s : str) | Ref (s : str) | EvalExpr (s : str) | Literal (s : str).

(** [&t[n..t.len() - 1]] of a text that starts with an ASCII prefix of [n]
    characters and ends with a brace. *)
Definition inner_text (n : nat) (t : str) : str := take (length t - n - 1) (drop n t).

Definition parse_expression (input : str) : Expression :=
  let trimmed := trim input in
  if starts_with (lit "${env:") trimmed && ends_with (lit "}") trimmed then EnvVar (inner_text 6 trimmed)
  else if starts_with (lit "${ref:") trimmed && ends_with (lit "}") trimmed then Ref (inner_text 6 trimmed)
  else if starts_with (lit "${eval:") trimmed && ends_with (lit "}") trimmed then EvalExpr (inner_text 7 trimmed)
  else Literal input.

Fixpoint follow_path (path : str) (current : json) (parts : list str) : result json str :=
  match parts with
  | [] => Ok current
  | part :: rest =>
      match current with
      | JObject fields =>
          match field_of_object part fields with
          | Some v => follow_path path v rest
          | None => Err (lit "Config reference '$" ++ path ++ lit "': key '" ++ part ++ lit "' not found")
          end
      | _ => Err (lit "Config reference '$" ++ path ++ lit "': intermediate value is not an object")
      end
  end.

Definition resolve_ref (path : str) (merged : gmap str json) : result json str :=
  match split_char (chr ".") path with
  | [] => Err []
  | key :: rest =>
      match merged !! key with
      | None => Err (lit "Config reference '$" ++ path ++ lit "' not found in merged config")
      | Some value => follow_path path value rest
      end
  end.

Section expressions.
(** [std::env::var], and the numbers the standard library parses: the text of
    [Number::from(i64)] and of [Number::from_f64], if the input is one. *)
Context (env_var : str → option str) (parse_i64 parse_f64 : str → option str).

Definition resolve_env_var (var : str) : result str str :=
  match env_var var with
  | Some v => Ok v
  | None => Err (lit "Environment variable '$" ++ var ++ lit "' not set")
  end.

Definition eval_simple (input : str) : result json str :=
  let expr := trim input in
  match parse_i64 expr with
  | Some n => Ok (JNumber n)
  | None =>
  match parse_f64 expr with
  | Some n => Ok (JNumber n)
  | None =>
      if decide (expr = lit "true") then Ok (JBool true)
      else if decide (expr = lit "false") then Ok (JBool false)
      else if decide (expr = lit "null") then Ok JNull
      else if starts_with [DQUOTE] expr && ends_with [DQUOTE] expr && bool_decide (2 ≤ byte_len expr)
      then Ok (JString (inner_text 1 expr))
      else Err (lit "Cannot evaluate expression: '" ++ expr ++ lit "'")
  end end.

Definition resolve_expression (e : Expression) (merged : gmap str json) : result json str :=
  match e with
  | EnvVar var => let? val := resolve_env_var var in Ok (JString val)
  | Ref path => resolve_ref path merged
  | EvalExpr expr => eval_simple expr
  | Literal val => Ok (JString val)
  end.

(** An object's fields are distinct: inserting them in order keeps the list. *)
Fixpoint resolve_all_expressions_in_value (merged : gmap str json) (v : json) : result json str :=
  match v with
  | JString s => resolve_expression (parse_expression s) merged
  | JObject fields =>
      let? resolved :=
        (fix go (l : list (str * json)) : result (list (str * json)) str :=
           match l with
           | [] => Ok []
           | kv :: r => let? v' := resolve_all_expressions_in_value merged kv.2 in
                        let? r' := go r in Ok ((kv.1, v') :: r')
           end) fields in
      Ok (JObject resolved)
  | JArray items =>
      let? resolved :=
        (fix go (l : list json) : result (list json) str :=
           match l with
           | [] => Ok []
           | x :: r => let? x' := resolve_all_expressions_in_value merged x in
                       let? r' := go r in Ok (x' :: r')
           end) items in
      Ok (JArray resolved)
  | other => Ok other
  end.

Fixpoint resolve_entries (merged : gmap str json) (l : list (str * json)) : result (gmap str json) str :=
  match l with
  | [] => Ok ∅
  | (k, v) :: r => let? v' := resolve_all_expressions_in_value merged v in
                   let? m := resolve_entries merged r in Ok (<[k := v']> m)
  end.

Definition apply_expression_resolution (config merged : gmap str json) : result (gmap str json) str :=
  let? resolved := resolve_entries merged (map_to_list config) in Ok (resolved ∪ config).
End expressions.

(** ** Traces *)
Record TraceEntry := mkTrace {
  trace_time : N;
  trace_layer : ConfigLayer;
  trace_key : str;
  trace_action : str;
  trace_detail : str;
}.

Record TraceRingBuffer := { capacity : nat; entries : list TraceEntry }.
Definition ring_new (cap : nat) : TraceRingBuffer := {| capacity := cap; entries := [] |}.

Definition ring_push (e : TraceEntry) (b : TraceRingBuffer) : TraceRingBuffer :=
  let kept := if decide (capacity b ≤ length (entries b)) then drop 1 (entries b) else entries b in
  {| capacity := capacity b; entries := kept ++ [e] |}.

Definition ring_clear (b : TraceRingBuffer) : TraceRingBuffer := {| capacity := capacity b; entries := [] |}.
Definition ring_filter_by_layer (l : ConfigLayer) (b : TraceRingBuffer) : list TraceEntry :=
  List.filter (λ e, bool_decide (trace_layer e = l)) (entries b).
Definition ring_filter_by_action (a : str) (b : TraceRingBuffer) : list TraceEntry :=
  List.filter (λ e, bool_decide (trace_action e = a)) (entries b).
Definition ring_recent (n : nat) (b : TraceRingBuffer) : list TraceEntry :=
  take (Nat.min n (length (entries b))) (reverse (entries b)).

Record TraceStats := {
  total_entries : nat;
  stats_capacity : nat;
  action_counts : gmap str nat;
  layer_counts : gmap str nat;
}.
Definition ring_stats (b : TraceRingBuffer) : TraceStats :=
  {| total_entries := length (entries b); stats_capacity := capacity b;
     action_counts := foldl bump ∅ (trace_action <$> entries b);
     layer_counts := foldl bump ∅ (layer_label ∘ trace_layer <$> entries b) |}.

(** ** The merge: specification

    The layer a key is taken from: of the enabled layers that define it, one of
    highest priority, and among those the last. *)
Fixpoint winner {A} (get : LayerConfig → gmap str A) (k : str) (l : list LayerConfig) : option LayerConfig :=
  match l with
  | [] => None
  | x :: r =>
      match winner get k r with
      | Some y => if decide (is_Some (get x !! k) ∧ effective_priority y < effective_priority x)%N then Some x else Some y
      | None => if decide (is_Some (get x !! k)) then Some x else None
      end
  end.

(** The last layer of a list that defines a key. *)
Fixpoint last_def {A} (get : LayerConfig → gmap str A) (k : str) (l : list LayerConfig) : option LayerConfig :=
  match l with
  | [] => None
  | x :: r => match last_def get k r with
              | Some y => Some y
              | None => if decide (is_Some (get x !! k)) then Some x else None
              end
  end.

Definition priority_le (x y : LayerConfig) : Prop := (effective_priority x ≤ effective_priority y)%N.

Section sorting.
Context {A : Type} (get : LayerConfig → gmap str A) (k : str).

Lemma insert_elem x y l : y ∈ insert_by_priority x l ↔ y = x ∨ y ∈ l.
Proof. induction l as [|z l IH]; simpl; [set_solver|]. case_decide; set_solver. Qed.

Lemma insert_sorted x l : StronglySorted priority_le l → StronglySorted priority_le (insert_by_priority x l).
Proof.
  induction 1 as [|y l Hl IH Hy]; simpl; [by repeat constructor|]. unfold priority_le in *. case_decide.
  - constructor; [done|]. apply Forall_forall. intros z [->|Hz]%insert_elem; [lia|].
    rewrite Forall_forall in Hy. auto.
  - constructor; [by constructor|]. apply Forall_cons. split; [lia|].
    eapply Forall_impl; [exact Hy|]. simpl. lia.
Qed.

Lemma sort_sorted l : StronglySorted priority_le (sort_by_priority l).
Proof. induction l; simpl; [constructor|]. by apply insert_sorted. Qed.

Lemma last_def_elem l y : last_def get k l = Some y → y ∈ l ∧ is_Some (get y !! k).
Proof.
  induction l as [|x l IH]; simpl; [done|]. destruct (last_def get k l); [intros [= ->]; naive_solver set_solver|].
  case_decide; [intros [= ->]; split; [left|done]|done].
Qed.

Lemma last_def_insert x l : StronglySorted priority_le l →
  last_def get k (insert_by_priority x l) =
  match last_def get k l with
  | Some y => if decide (is_Some (get x !! k) ∧ effective_priority y < effective_priority x)%N then Some x else Some y
  | None => if decide (is_Some (get x !! k)) then Some x else None
  end.
Proof.
  induction 1 as [|y l Hl IH Hy]; cbn [insert_by_priority]; [done|]. unfold priority_le in Hy.
  destruct (decide (effective_priority y < effective_priority x)%N) as [Hlt|Hge].
  - cbn [last_def]. rewrite IH. destruct (last_def get k l) as [z|].
    + by destruct (decide (is_Some (get x !! k) ∧ _)%N).
    + repeat case_decide; naive_solver.
  - change (last_def get k (x :: y :: l)) with
      (match last_def get k (y :: l) with Some z => Some z | None => if decide (is_Some (get x !! k)) then Some x else None end).
    destruct (last_def get k (y :: l)) as [z|] eqn:E; [|done].
    apply last_def_elem in E as [Hz _]. rewrite decide_False; [done|]. intros [_ Hzx].
    apply elem_of_cons in Hz as [->|Hz]; [lia|]. rewrite Forall_forall in Hy. specialize (Hy z Hz). simpl in Hy. lia.
Qed.

Lemma last_def_sort l : last_def get k (sort_by_priority l) = winner get k l.
Proof. induction l as [|x l IH]; [done|]. simpl. by rewrite last_def_insert, IH by apply sort_sorted. Qed.

Lemma winner_None l : winner get k l = None → ∀ x, x ∈ l → ¬ is_Some (get x !! k).
Proof.
  induction l as [|y l IH]; cbn [winner]; [by intros _ x ?%not_elem_of_nil|].
  destruct (winner get k l); [by case_decide|]. case_decide; [done|].
  intros _ x [->|Hx]%elem_of_cons; [done|]. by apply IH.
Qed.

(** No layer that defines the key beats the one at [i]. *)
Definition best (l : list LayerConfig) (i : nat) (w : LayerConfig) : Prop :=
  l !! i = Some w ∧ is_Some (get w !! k) ∧
  ∀ j x, l !! j = Some x → is_Some (get x !! k) →
    (effective_priority x < effective_priority w)%N ∨ (effective_priority x = effective_priority w ∧ j ≤ i).

Lemma winner_best l w : winner get k l = Some w → ∃ i, best l i w.
Proof.
  revert w. induction l as [|x l IH]; intros w; cbn [winner]; [done|].
  destruct (winner get k l) as [y|] eqn:E.
  - destruct (IH y eq_refl) as (i & Hi & Hy & Hmax). case_decide as Hd; intros [= <-].
    + exists 0. split_and!; [done|naive_solver|]. intros [|j] z Hz Hzk; simpl in Hz; [right; by simplify_eq|].
      specialize (Hmax j z Hz Hzk). left. lia.
    + exists (S i). split_and!; [done..|]. intros [|j] z Hz Hzk; simpl in Hz; [|specialize (Hmax j z Hz Hzk); lia].
      simplify_eq. destruct (decide (effective_priority y < effective_priority z)%N); [naive_solver|]. lia.
  - case_decide as Hx; [|done]. intros [= <-]. exists 0. split_and!; [done..|].
    intros [|j] z Hz Hzk; simpl in Hz; [right; by simplify_eq|].
    by destruct (winner_None l E z (list_elem_of_lookup_2 _ _ _ Hz)).
Qed.

Lemma best_unique l i j w w' : best l i w → best l j w' → w = w'.
Proof.
  intros (Hi & Hw & Hm) (Hj & Hw' & Hm'). specialize (Hm j w' Hj Hw'). specialize (Hm' i w Hi Hw).
  assert (i = j) as -> by lia. congruence.
Qed.

(** The winner, without reference to the recursion. *)
Lemma winner_spec l w : winner get k l = Some w ↔ ∃ i, best l i w.
Proof.
  split; [apply winner_best|]. intros (i & Hb). destruct (winner get k l) as [w'|] eqn:E.
  - apply winner_best in E as (j & Hb'). f_equal. by eapply best_unique.
  - destruct Hb as (Hi & Hw & _). by destruct (winner_None l E w (list_elem_of_lookup_2 _ _ _ Hi)).
Qed.

End sorting.

(** ** The merge is the specification *)
Lemma foldl_union_lookup {A} (get : LayerConfig → gmap str A) (l : list LayerConfig) (acc : gmap str A) k :
  foldl (λ acc x, get x ∪ acc) acc l !! k =
  match last_def get k l with Some x => get x !! k | None => acc !! k end.
Proof.
  revert acc. induction l as [|x l IH]; intros acc; [done|]. cbn [foldl last_def]. rewrite IH.
  destruct (last_def get k l); [done|]. case_decide as Hx.
  - destruct Hx as [v Hv]. by rewrite Hv, (lookup_union_Some_l _ _ _ v).
  - rewrite lookup_union. destruct (get x !! k) eqn:E; [by destruct Hx|]. by destruct (acc !! k).
Qed.

Lemma merge_fold l acc :
  foldl merge_layer acc l =
  {| values := foldl (λ acc x, layer_values x ∪ acc) (values acc) l;
     tags := foldl (λ acc x, layer_tags x ∪ acc) (tags acc) l;
     provenance := foldl (λ acc x, (const (layer x) <$> layer_values x) ∪ acc) (provenance acc) l |}.
Proof. revert acc. induction l as [|x l IH]; intros []; [done|]. cbn [foldl]. by rewrite IH. Qed.

Lemma last_def_fmap {A B : Type} (get : LayerConfig → gmap str A) (f : LayerConfig → A → B) k l :
  last_def (λ x, f x <$> get x) k l = last_def get k l.
Proof.
  induction l as [|x l IH]; [done|]. cbn [last_def]. rewrite IH. destruct (last_def get k l); [done|].
  rewrite lookup_fmap. destruct (get x !! k); done.
Qed.

Definition enabled_layers (t : ConfigTree) : list LayerConfig := List.filter enabled (layers t).

(** The merged configuration takes each value and tag from an enabled layer of highest
    effective priority that defines it, the last one among equals, and records that layer as its
    provenance. *)
Theorem merge_takes_the_highest_layer (t : ConfigTree) :
  ∃ m, merge t = Ok m ∧ ∀ k,
    values m !! k = (winner layer_values k (enabled_layers t) ≫= λ w, layer_values w !! k) ∧
    provenance m !! k = layer <$> winner layer_values k (enabled_layers t) ∧
    tags m !! k = (winner layer_tags k (enabled_layers t) ≫= λ w, layer_tags w !! k) ∧
    ∀ w, winner layer_values k (enabled_layers t) = Some w ↔ ∃ i, best layer_values k (enabled_layers t) i w.
Proof.
  unfold merge. eexists. split; [done|]. intros k. rewrite merge_fold. cbn [values provenance tags].
  rewrite !foldl_union_lookup. cbn [values provenance tags].
  rewrite (last_def_fmap layer_values (λ x, const (layer x))), !last_def_sort. fold (enabled_layers t).
  split_and!.
  - by destruct (winner layer_values k _).
  - destruct (winner layer_values k _) as [w|] eqn:E; [|done]. rewrite lookup_fmap.
    apply winner_spec in E as (i & _ & [v Hv] & _). by rewrite Hv.
  - by destruct (winner layer_tags k _).
  - intros w. apply winner_spec.
Qed.

(** ** The ring buffer keeps the last entries *)
Definition pushed (cap : nat) (es : list TraceEntry) : TraceRingBuffer := foldl (flip ring_push) (ring_new cap) es.

Lemma pushed_capacity cap es : capacity (pushed cap es) = cap.
Proof.
  unfold pushed. assert (Hg : ∀ b, capacity (foldl (flip ring_push) b es) = capacity b).
  { induction es as [|e es IH]; intros b; [done|]. simpl. by rewrite IH. }
  by rewrite Hg.
Qed.

Lemma pushed_snoc cap es e : pushed cap (es ++ [e]) = ring_push e (pushed cap es).
Proof. unfold pushed. by rewrite foldl_snoc. Qed.

Lemma pushed_entries cap es : entries (pushed cap es) = drop (length es - Nat.max cap 1) es.
Proof.
  induction es as [|e es IH] using rev_ind; [done|].
  rewrite pushed_snoc. unfold ring_push. rewrite pushed_capacity. cbn [entries].
  destruct es as [|e0 es0]; [by destruct cap as [|[|cap]]|]. set (es := e0 :: es0) in *.
  assert (1 ≤ length es) by (simpl; lia). rewrite IH, length_drop, length_app. change (length [e]) with 1. case_decide.
  - rewrite drop_drop, drop_app_le by lia. do 2 f_equal. lia.
  - rewrite drop_app_le by lia. do 2 f_equal. lia.
Qed.

(** A trace buffer of positive capacity holds the last entries pushed, at most as many as its
    capacity, all of them while they fit, and recent returns the newest first. *)
Theorem ring_buffer_keeps_the_last_entries cap es n :
  0 < cap →
  let b := pushed cap es in
  entries b = drop (length es - cap) es ∧ length (entries b) ≤ capacity b ∧
  ring_recent n b = take n (reverse (entries b)) ∧
  (length es ≤ cap → entries b = es).
Proof.
  intros Hc b. unfold b. rewrite pushed_capacity, pushed_entries. replace (Nat.max cap 1) with cap by lia.
  split_and!; [done|rewrite length_drop; lia| |].
  - unfold ring_recent. rewrite pushed_entries. replace (Nat.max cap 1) with cap by lia.
    destruct (decide (n ≤ length (drop (length es - cap) es))); [by rewrite Nat.min_l|].
    rewrite Nat.min_r by lia. rewrite !take_ge; rewrite ?length_reverse; lia || done.
  - intros Hl. by replace (length es - cap) with 0 by lia.
Qed.

Definition trace_of (key : string) : TraceEntry := mkTrace 0 Global (lit key) (lit "read") [].

Lemma ring_buffer_witness :
  let b := pushed 2 [trace_of "a"; trace_of "b"; trace_of "c"] in
  entries b = [trace_of "b"; trace_of "c"] ∧ length (entries b) ≤ 2 ∧
  ring_recent 1 b = take 1 (reverse (entries b)) ∧ (3 ≤ 2 → entries b = [trace_of "a"; trace_of "b"; trace_of "c"]).
Proof. apply (ring_buffer_keeps_the_last_entries 2 [trace_of "a"; trace_of "b"; trace_of "c"] 1). lia. Defined.

(** A buffer of capacity 0 holds the last entry. *)
Theorem empty_ring_buffer_keeps_one e es : length (entries (pushed 0 (e :: es))) = 1.
Proof. rewrite pushed_entries, length_drop. simpl. lia. Qed.

(** ** Expressions *)
Definition expression_text (e : Expression) : str :=
  match e with
  | EnvVar s => lit "${env:" ++ s ++ lit "}"
  | Ref s => lit "${ref:" ++ s ++ lit "}"
  | EvalExpr s => lit "${eval:" ++ s ++ lit "}"
  | Literal s => s
  end.

Lemma trim_bracketed a b s :
  is_whitespace a = false → is_whitespace b = false → trim (a :: s ++ [b]) = a :: s ++ [b].
Proof.
  intros Ha Hb. unfold trim, trim_start, trim_end. simpl drop_while. rewrite Ha.
  rewrite app_comm_cons, reverse_app. simpl. rewrite Hb. by rewrite reverse_cons, reverse_involutive.
Qed.

Lemma trim_expression_text c p s : is_whitespace c = false → trim ((c :: p) ++ s ++ lit "}") = (c :: p) ++ s ++ lit "}".
Proof.
  intros Hc. change (lit "}") with [125%N]. rewrite app_assoc, <-app_comm_cons. by apply trim_bracketed.
Qed.

Lemma inner_text_spec p s c : inner_text (length p) (p ++ s ++ [c]) = s.
Proof.
  unfold inner_text. rewrite drop_app_length, !length_app. simpl.
  replace (length p + (length s + 1) - length p - 1) with (length s) by lia. apply take_app_length.
Qed.

Lemma ends_with_brace s : ends_with (lit "}") (s ++ lit "}") = true.
Proof. apply ends_with_spec. by exists s. Qed.

Ltac read_back p s :=
  unfold parse_expression;
  assert (trim (lit p ++ s ++ lit "}") = lit p ++ s ++ lit "}") as -> by (apply (trim_expression_text 36); done);
  rewrite (app_assoc (lit p)), ends_with_brace, !andb_true_r, <-app_assoc;
  repeat match goal with
  | |- context [starts_with ?q ?t] =>
      (replace (starts_with q t) with true by done) || (replace (starts_with q t) with false by done)
  end; f_equal; apply (inner_text_spec (lit p)).

(** The text of an environment, reference or evaluation expression is parsed back to it,
    whatever it contains; a literal is, when it is not an expression itself. *)
Theorem expressions_read_back e :
  (∀ s, e = Literal s → parse_expression s = Literal s) → parse_expression (expression_text e) = e.
Proof.
  intros Hl. destruct e as [s|s|s|s]; cbn [expression_text]; [..|by apply Hl].
  - read_back "${env:"%string s.
  - read_back "${ref:"%string s.
  - read_back "${eval:"%string s.
Qed.

Lemma expressions_read_back_witness : parse_expression (expression_text (Ref (lit "db.host"))) = Ref (lit "db.host").
Proof. apply expressions_read_back. discriminate. Defined.

(** A value none of whose strings is an expression. *)
Fixpoint plain (v : json) : bool :=
  match v with
  | JString s => match parse_expression s with Literal _ => true | _ => false end
  | JArray items => forallb plain items
  | JObject fields => forallb (λ kv, plain kv.2) fields
  | _ => true
  end.

Lemma parse_literal s x : parse_expression s = Literal x → x = s.
Proof. unfold parse_expression. repeat case_match; congruence. Qed.

Section expression_facts.
Context (env_var : str → option str) (parse_i64 parse_f64 : str → option str) (merged : gmap str json).
Abbreviation resolve := (resolve_all_expressions_in_value env_var parse_i64 parse_f64 merged).

Lemma plain_resolves : ∀ v, plain v = true → resolve v = Ok v.
Proof.
  fix IH 1. intros [|b|n|s|items|fields] Hp; try done.
  - simpl in *. destruct (parse_expression s) as [x|x|x|x] eqn:E; try done.
    apply parse_literal in E as ->. done.
  - cbn [resolve_all_expressions_in_value plain] in *.
    assert (Hgo : (fix go (l : list json) : result (list json) str :=
      match l with
      | [] => Ok []
      | x :: r => let? x' := resolve x in let? r' := go r in Ok (x' :: r')
      end) items = Ok items); [|by rewrite Hgo].
    induction items as [|x items IHi]; [done|]. simpl in Hp. apply andb_true_iff in Hp as [Hx Hr].
    rewrite (IH x Hx), (IHi Hr). done.
  - cbn [resolve_all_expressions_in_value plain] in *.
    assert (Hgo : (fix go (l : list (str * json)) : result (list (str * json)) str :=
      match l with
      | [] => Ok []
      | kv :: r => let? v' := resolve kv.2 in let? r' := go r in Ok ((kv.1, v') :: r')
      end) fields = Ok fields); [|by rewrite Hgo].
    induction fields as [|[k x] fields IHi]; [done|]. simpl in Hp. apply andb_true_iff in Hp as [Hx Hr].
    simpl. rewrite (IH x Hx), (IHi Hr). done.
Qed.

Lemma resolve_entries_ok l :
  (∀ kv, kv ∈ l → plain kv.2 = true) → resolve_entries env_var parse_i64 parse_f64 merged l = Ok (list_to_map l).
Proof.
  induction l as [|[k v] l IH]; intros Hp; [done|]. cbn [resolve_entries].
  rewrite plain_resolves by (apply (Hp (k, v)); left). rewrite IH by (intros kv Hkv; apply Hp; by right). done.
Qed.
End expression_facts.

(** A configuration without expressions is resolved to itself. *)
Theorem plain_configuration_is_unchanged (env_var parse_i64 parse_f64 : str → option str) (config merged : gmap str json) :
  (∀ k v, config !! k = Some v → plain v = true) →
  apply_expression_resolution env_var parse_i64 parse_f64 config merged = Ok config.
Proof.
  intros Hp. unfold apply_expression_resolution. rewrite resolve_entries_ok.
  - rewrite list_to_map_to_list. f_equal. by rewrite map_union_idemp.
  - intros [k v] Hkv. apply elem_of_map_to_list in Hkv. by apply (Hp k).
Qed.

Lemma plain_configuration_witness :
  apply_expression_resolution (λ _, None) (λ _, None) (λ _, None) {[lit "host" := JString (lit "db")]} ∅ =
  Ok {[lit "host" := JString (lit "db")]}.
Proof.
  apply plain_configuration_is_unchanged. intros k v [<- <-]%lookup_singleton_Some. reflexivity.
Defined.

(** ** The tag guard *)
Lemma validate_tags_no_base v ts acc :
  let r := foldl (validate_tag v ∅) acc ts in
  length (blocked r) = length (blocked acc) + length (List.filter (λ t, negb (is_allowed (whitelist v) (tag_key t))) ts) ∧
  length (violations r) = length (violations acc) + length (List.filter (λ t, negb (is_allowed (whitelist v) (tag_key t))) ts).
Proof.
  revert acc. induction ts as [|t ts IH]; intros acc; [simpl; lia|]. cbn [foldl List.filter].
  destruct (IH (validate_tag v ∅ acc t)) as [Hb Hv]. rewrite Hb, Hv. unfold validate_tag. rewrite lookup_empty.
  destruct (is_allowed (whitelist v) (tag_key t)); cbn [negb blocked violations]; rewrite ?length_app; simpl; lia.
Qed.

Lemma no_base_blocking v ts :
  has_blocking_violations v (validate_tags v ts ∅) = negb (forallb (λ t, is_allowed (whitelist v) (tag_key t)) ts).
Proof.
  unfold validate_tags. set (r := foldl _ _ ts).
  destruct (validate_tags_no_base v ts {| allowed := []; blocked := []; violations := [] |}) as [Hb Hv].
  fold r in Hb, Hv. simpl in Hb, Hv.
  assert (Hf : forallb (λ t, is_allowed (whitelist v) (tag_key t)) ts = true ↔
               length (List.filter (λ t, negb (is_allowed (whitelist v) (tag_key t))) ts) = 0).
  { clear. induction ts as [|t ts IH]; simpl; [done|]. destruct (is_allowed _ _); simpl; [done|]. split; [done|lia]. }
  unfold has_blocking_violations. rewrite <-Hb in Hf.
  destruct (strict_mode v); f_equal; apply Bool.eq_true_iff_eq; rewrite Hf, bool_decide_eq_true; [|done].
  rewrite <-length_zero_iff_nil. lia.
Qed.

(** A guarded merge succeeds exactly when all merged tags are admitted by the
    whitelist, in strict mode as well, and records one entry of statistics. *)
Theorem guard_admits_listed_tags (t : ConfigTree) (g : TagGuard) :
  ∃ m, merge t = Ok m ∧
    ((∀ k, is_Some (tags m !! k) → is_allowed (whitelist (validator g)) k = true) ↔
     (merge_with_guard t g).2 = Ok m) ∧
    length (stats (merge_with_guard t g).1) = S (length (stats g)).
Proof.
  unfold merge_with_guard. destruct (merge t) as [m|e] eqn:Em; [|done]. exists m. split; [done|].
  set (ts := (λ kv, mkTag kv.1 kv.2 [] false) <$> map_to_list (tags m)).
  cbn [validate_and_collect]. rewrite no_base_blocking. cbn [validator].
  assert (Hf : forallb (λ tg, is_allowed (whitelist (validator g)) (tag_key tg)) ts = true ↔
               ∀ k, is_Some (tags m !! k) → is_allowed (whitelist (validator g)) k = true).
  { rewrite List.forallb_forall. split.
    - intros Ha k [v Hv]. apply (Ha (mkTag k v [] false)). apply list_elem_of_In, list_elem_of_fmap.
      exists (k, v). split; [done|]. by apply elem_of_map_to_list.
    - intros Ha tg (kv & -> & Hkv)%list_elem_of_In%list_elem_of_fmap. apply Ha. exists kv.2.
      apply elem_of_map_to_list. by destruct kv. }
  rewrite <-Hf. destruct (forallb _ ts); cbn [negb]; (split; [|cbn; rewrite length_app; simpl; lia]).
  - split; done.
  - split; [done|]. by destruct (blocking_summary _) as [[??]?].
Qed.

(** ** Deviations *)

(** The policy [Strict] alone does not compare values: only the separate flag
    [strict_mode] does. *)
Theorem strict_policy_ignores_values :
  let v := {| whitelist := {| allowed_keys := {[lit "env"]}; default_policy := Strict |}; strict_mode := false |} in
  let r := validate_tags v [mkTag (lit "env") (lit "staging") [] false] {[lit "env" := lit "prod"]} in
  violations r = [] ∧ has_blocking_violations v r = false.
Proof. by vm_compute. Qed.

(** The error of a blocked merge counts the tags blocked in earlier merges. *)
Theorem guard_error_counts_earlier_merges :
  let g := tag_guard_new {| whitelist := default_whitelist; strict_mode := false |} in
  let t := add_layer (mkLayer Global (lit "g") [] ∅ {[lit "env" := lit "prod"]} true None ∅) config_tree_new in
  (merge_with_guard t (merge_with_guard t g).1).2 =
  Err (lit "Tag guard blocked config merge: 2 tags blocked, 2 violations").
Proof. by vm_compute. Qed.
