(* ===== verification/Correction.v ===== *)
(** Joint correction plans ([crates/dbx-core/src/correction.rs]): one list of
    steps made of the schema changes of a schema comparison and the statements
    of a data comparison.  Byte slices outside a character boundary panic, so
    that the plan is an [option].  The running [step_index] of the source is
    the number of steps pushed and is not used. *)
From S2P Require Import Prelude Identifiers RowCompare FetchRows.
Local Open Scope dbx_scope.

Inductive CorrectionStepType :=
| SchemaCreate | SchemaAlter | SchemaDrop | DataInsert | DataUpdate | DataDelete | SchemaPostSync | Checkpoint.
#[export] Instance step_type_eq_dec : EqDecision CorrectionStepType.
Proof. solve_decision. Defined.

Inductive CorrectionRiskLevel := Safe | Caution | Dangerous | Blocked.
Inductive CorrectionStrategy := StructureFirst | DataFirst | Interleaved.

Record CorrectionStep := mkStep {
  step_type : CorrectionStepType;
  step_table : option str;
  sql : str;
  rollback_sql : option str;
  step_description : str;
  risk_level : CorrectionRiskLevel;
}.

Record JointCorrectionPlan := {
  strategy : CorrectionStrategy;
  steps : list CorrectionStep;
  schema_diff_count : nat;
  data_diff_count : nat;
  rollback_steps : list CorrectionStep;
}.

Record JointCorrectionOptions := {
  opt_strategy : CorrectionStrategy;
  include_checkpoints : bool;
  include_rollback : bool;
}.
Definition default_options : JointCorrectionOptions :=
  {| opt_strategy := StructureFirst; include_checkpoints := true; include_rollback := true |}.

(** The parts of [schema_diff]'s results the plan reads: a trigger is kept as
    the statement of its source side, where it has one. *)
Record TableDiff := {
  diff_type : str;
  diff_name : str;
  triggers : option (list (option (option str)));
  target_ddl : option str;
  diff_sync_sql : option str;
}.
Record SchemaDiffPreparation := { diffs : list TableDiff; schema_sync_sql : str }.

Definition EM_DASH : str := [8212%N].

Definition checkpoint (description : str) : CorrectionStep := mkStep Checkpoint None [] None description Safe.

(** [&cleaned[..max_len]] panics inside a character. *)
Definition summary (text : str) (max_len : nat) : option str :=
  let cleaned := replace_str [NL] (lit " ") text in
  if decide (byte_len cleaned ≤ max_len) then Some cleaned
  else head ← slice_to (Nat.min max_len (byte_len cleaned)) cleaned; Some (head ++ lit "...").

Definition has_incomplete_triggers (d : TableDiff) : bool :=
  match triggers d with
  | Some ts => existsb (λ t, match t with Some None => true | _ => false end) ts
  | None => false
  end.

Definition table_rollback_sql (d : TableDiff) (options : JointCorrectionOptions) : option str :=
  let name := diff_name d in
  if include_rollback options then
    if decide (diff_type d = lit "added") then Some (lit "DROP TABLE IF EXISTS " ++ name ++ lit ";")
    else if decide (diff_type d = lit "removed") then
      match target_ddl d with
      | Some ddl =>
          Some (if has_incomplete_triggers d
                then lit "-- WARNING: Rollback DDL is INCOMPLETE " ++ EM_DASH ++
                     lit " trigger bodies could not be reconstructed." ++ [NL] ++
                     lit "-- Manual review required. Original DDL:" ++ [NL] ++ ddl
                else ddl)
      | None =>
          Some (if has_incomplete_triggers d
                then lit "-- WARNING: Rollback is INCOMPLETE " ++ EM_DASH ++ lit " table '" ++ name ++
                     lit "' had triggers that cannot be reconstructed." ++ [NL] ++
                     lit "-- Manual intervention required before executing."
                else lit "-- Manual rollback required: recreate table " ++ name ++ lit " with original DDL")
      end
    else if decide (diff_type d = lit "modified") then (λ s, lit "-- Rollback: " ++ s) <$> diff_sync_sql d
    else None
  else None.

(** The steps and rollback steps pushed for one table. *)
Definition append_table_schema_step (d : TableDiff) (options : JointCorrectionOptions) :
    list CorrectionStep * list CorrectionStep :=
  let name := diff_name d in
  let ty := if decide (diff_type d = lit "added") then SchemaCreate
            else if decide (diff_type d = lit "removed") then SchemaDrop else SchemaAlter in
  let back_ty := if decide (diff_type d = lit "added") then SchemaDrop
                 else if decide (diff_type d = lit "removed") then SchemaCreate else SchemaAlter in
  let risk := if decide (diff_type d = lit "removed") then Dangerous
              else if decide (diff_type d = lit "modified") then Caution else Safe in
  let rollback := table_rollback_sql d options in
  let rollback_risk := if has_incomplete_triggers d then Blocked else risk in
  let rollback_desc :=
    if has_incomplete_triggers d
    then lit "INCOMPLETE Rollback for schema " ++ diff_type d ++ lit " on table: " ++ name ++ lit " " ++ EM_DASH ++
         lit " trigger bodies cannot be reconstructed"
    else lit "Rollback for schema " ++ diff_type d ++ lit " on table: " ++ name in
  let text := default (lit "-- Schema change for table: " ++ name) (diff_sync_sql d) in
  ([mkStep ty (Some name) text rollback (lit "Schema " ++ diff_type d ++ lit " for table: " ++ name) risk],
   match rollback with
   | Some r => [mkStep back_ty (Some name) r None rollback_desc rollback_risk]
   | None => []
   end).

Definition changed_tables (schema : SchemaDiffPreparation) : list TableDiff :=
  filter (λ d, diff_type d ≠ lit "unchanged") (diffs schema).

Definition append_schema_steps (schema_diff : option SchemaDiffPreparation) (options : JointCorrectionOptions) :
    list CorrectionStep * list CorrectionStep :=
  match schema_diff with
  | None => ([], [])
  | Some schema =>
      if decide (schema_sync_sql schema = []) then ([], [])
      else
        let tables := (λ d, append_table_schema_step d options) <$> changed_tables schema in
        ((if include_checkpoints options then [checkpoint (lit "Schema correction checkpoint")] else []) ++
         concat tables.*1, concat tables.*2)
  end.

Section plan.
Context `{Unicode}.

Definition statement_is (verb : str) (statement : str) : bool := starts_with verb (to_uppercase statement).

Definition data_step (options : JointCorrectionOptions) (statement : str) : option CorrectionStep :=
  '(ty, prefix) ←
    Some (if statement_is (lit "INSERT") statement then (DataInsert, lit "Insert data: ")
          else if statement_is (lit "UPDATE") statement then (DataUpdate, lit "Update data: ")
          else if statement_is (lit "DELETE") statement then (DataDelete, lit "Delete data: ")
          else (SchemaPostSync, lit "Pre-sync: "));
  s80 ← summary statement 80;
  let comment text := s60 ← summary statement 60; Some (Some (lit "-- Rollback: " ++ text ++ lit "; manual review needed: " ++ s60)) in
  rollback ←
    (if include_rollback options then
       if statement_is (lit "INSERT") statement then comment (lit "DELETE matching rows")
       else if statement_is (lit "DELETE") statement then comment (lit "INSERT deleted rows")
       else if statement_is (lit "UPDATE") statement then comment (lit "reverse UPDATE")
       else Some None
     else Some None);
  Some (mkStep ty None statement rollback (prefix ++ s80) Caution).

Definition append_data_steps (data_compare : option DataCompareFromTablesPreparation) (options : JointCorrectionOptions) :
    option (list CorrectionStep) :=
  match data_compare with
  | None => Some []
  | Some dc =>
      let r := from_result dc in
      if decide (length (added r) = 0 ∧ length (removed r) = 0 ∧ length (modified r) = 0) then Some []
      else
        data ← mapM (M := option) (data_step options) (from_sync_statements dc);
        Some ((if include_checkpoints options then [checkpoint (lit "Data correction checkpoint")] else []) ++ data)
  end.

Definition append_table_data_step (r : DataCompareResult) (name : str) : list CorrectionStep :=
  if decide (length (added r) + length (modified r) + length (removed r) = 0) then []
  else
    let text := lit "Data sync for table: " ++ name ++ lit " (" ++ show_nat (length (added r)) ++ lit " added, " ++
                show_nat (length (modified r)) ++ lit " modified, " ++ show_nat (length (removed r)) ++ lit " removed)" in
    [mkStep DataInsert (Some name) (lit "-- " ++ text) None text Caution].

Definition contains_table (sync_sql table_name : str) : bool := str_contains table_name sync_sql.

Definition interleaved_table (data_compare : option DataCompareFromTablesPreparation) (options : JointCorrectionOptions)
    (d : TableDiff) : list CorrectionStep * list CorrectionStep :=
  let data :=
    match data_compare with
    | Some dc => if contains_table (from_sync_sql dc) (diff_name d)
                 then append_table_data_step (from_result dc) (diff_name d) else []
    | None => []
    end in
  let '(schema, back) := append_table_schema_step d options in
  (data ++ schema, back).

Definition is_schema_step (s : CorrectionStep) : bool :=
  match step_type s with SchemaCreate | SchemaAlter | SchemaDrop | SchemaPostSync => true | _ => false end.
Definition is_data_step (s : CorrectionStep) : bool :=
  match step_type s with DataInsert | DataUpdate | DataDelete => true | _ => false end.

Definition plan_steps (schema_diff : option SchemaDiffPreparation)
    (data_compare : option DataCompareFromTablesPreparation) (options : JointCorrectionOptions) :
    option (list CorrectionStep * list CorrectionStep) :=
  match opt_strategy options with
  | StructureFirst =>
      let '(schema, back) := append_schema_steps schema_diff options in
      data ← append_data_steps data_compare options;
      Some (schema ++ data, back)
  | DataFirst =>
      data ← append_data_steps data_compare options;
      let '(schema, back) := append_schema_steps schema_diff options in
      Some (data ++ schema, back)
  | Interleaved =>
      match schema_diff with
      | Some schema =>
          let tables := interleaved_table data_compare options <$> changed_tables schema in
          Some (concat tables.*1, concat tables.*2)
      | None => data ← append_data_steps data_compare options; Some (data, [])
      end
  end.

Definition build_joint_correction_plan (schema_diff : option SchemaDiffPreparation)
    (data_compare : option DataCompareFromTablesPreparation) (options : JointCorrectionOptions) :
    option JointCorrectionPlan :=
  '(all_steps, back) ← plan_steps schema_diff data_compare options;
  Some {| strategy := opt_strategy options; steps := all_steps;
          schema_diff_count := length (List.filter is_schema_step all_steps);
          data_diff_count := length (List.filter is_data_step all_steps);
          rollback_steps := back |}.

(** ** Summaries *)
Lemma replace_char_ascii a b s :
  is_ascii a = true → is_ascii b = true → forallb is_ascii s = true → forallb is_ascii (replace_str [a] [b] s) = true.
Proof.
  intros Ha Hb. unfold replace_str. induction s as [|c s IH]; [done|]. cbn [forallb]. intros [Hc Hs]%andb_true_iff.
  cbn [replace_from]. destruct (starts_with [a] (c :: s)); simpl; rewrite ?Hb, ?Hc; simpl; by apply IH.
Qed.

Lemma summary_ascii text max_len : forallb is_ascii text = true → is_Some (summary text max_len).
Proof.
  intros Ha. unfold summary. set (c := replace_str [NL] (lit " ") text).
  assert (Hc : forallb is_ascii c = true) by (by apply replace_char_ascii).
  case_decide as Hl; [done|]. rewrite byte_len_ascii in * by done. rewrite slice_to_ascii by (done || lia). done.
Qed.

Lemma data_step_ascii options statement :
  forallb is_ascii statement = true → ∃ s, data_step options statement = Some s ∧ sql s = statement.
Proof.
  intros Ha. unfold data_step. simpl.
  destruct (summary_ascii statement 80 Ha) as [s80 ->], (summary_ascii statement 60 Ha) as [s60 E60]. simpl.
  repeat case_match; simplify_eq/=; rewrite ?E60; simpl; by eexists.
Qed.

(** ** Every change is in the plan *)
Definition differs (dc : DataCompareFromTablesPreparation) : Prop :=
  ¬ (length (added (from_result dc)) = 0 ∧ length (removed (from_result dc)) = 0 ∧ length (modified (from_result dc)) = 0).

(** The statements of the steps that belong to no table. *)
Definition statements_of (l : list CorrectionStep) : list str :=
  sql <$> filter (λ s, step_table s = None ∧ step_type s ≠ Checkpoint) l.

Lemma data_step_kind options st s : data_step options st = Some s → step_table s = None ∧ step_type s ≠ Checkpoint.
Proof.
  unfold data_step. intros ([ty prefix] & Et & Hs)%bind_Some. apply bind_Some in Hs as (s80 & _ & Hs).
  apply bind_Some in Hs as (rb & _ & [= <-]). split; [done|]. simpl. repeat case_match; congruence.
Qed.

Lemma data_steps_ascii options l : Forall (λ s, forallb is_ascii s = true) l →
  ∃ data, mapM (M := option) (data_step options) l = Some data ∧ sql <$> data = l ∧
          Forall (λ s, step_table s = None ∧ step_type s ≠ Checkpoint) data.
Proof.
  induction 1 as [|st l Ha _ (data & Hm & Hs & Hf)]; [by exists []|].
  destruct (data_step_ascii options st Ha) as (s & Es & Hsql). exists (s :: data).
  simpl. rewrite Es. simpl. rewrite Hm. split_and!; [done|by rewrite <-Hs, <-Hsql|]. constructor; [|done].
  by eapply data_step_kind.
Qed.

Lemma filter_Forall {A} (P : A → Prop) `{!∀ x, Decision (P x)} l : Forall P l → filter P l = l.
Proof. induction 1 as [|x l Hx _ IH]; [done|]. by rewrite filter_cons_True, IH. Qed.

Lemma append_data_steps_spec dc options :
  differs dc → Forall (λ s, forallb is_ascii s = true) (from_sync_statements dc) →
  ∃ data, append_data_steps (Some dc) options = Some data ∧
    statements_of data = from_sync_statements dc ∧ omap step_table data = [].
Proof.
  intros Hd Ha. unfold append_data_steps. rewrite decide_False by done.
  destruct (data_steps_ascii options _ Ha) as (data & -> & Hs & Hf). simpl.
  eexists. split; [done|]. unfold statements_of. rewrite filter_app, (filter_Forall _ data) by done.
  assert (Hn : omap step_table data = []) by (clear Hs; induction Hf as [|s l [Ht _] _ IH]; csimpl; by rewrite ?Ht).
  rewrite omap_app, Hn, app_nil_r. by destruct (include_checkpoints options).
Qed.

Lemma append_schema_steps_spec schema options :
  schema_sync_sql schema ≠ [] →
  statements_of (append_schema_steps (Some schema) options).1 = [] ∧
  omap step_table (append_schema_steps (Some schema) options).1 = diff_name <$> changed_tables schema.
Proof.
  intros Hs. unfold append_schema_steps. rewrite decide_False by done. cbn [fst].
  rewrite <-list_fmap_compose. unfold statements_of. rewrite filter_app, omap_app.
  assert (filter (λ s, step_table s = None ∧ step_type s ≠ Checkpoint)
            (if include_checkpoints options then [checkpoint (lit "Schema correction checkpoint")] else []) = [] ∧
          omap step_table (if include_checkpoints options then [checkpoint (lit "Schema correction checkpoint")] else []) = [])
    as [-> ->] by (by destruct (include_checkpoints options)).
  cbn [app].
  induction (changed_tables schema) as [|d l [IH1 IH2]]; [done|].
  rewrite fmap_cons. cbn [concat]. rewrite filter_app, omap_app, fmap_app. split; [exact IH1|].
  rewrite IH2. done.
Qed.

(** For the strategies that do not interleave, and ASCII statements, the correction plan is
    built, has one schema step per changed table and every data statement verbatim, both in order,
    and the two groups in the order of the strategy. *)
Theorem joint_plan_has_every_change schema dc options :
  opt_strategy options ≠ Interleaved → schema_sync_sql schema ≠ [] → differs dc →
  Forall (λ s, forallb is_ascii s = true) (from_sync_statements dc) →
  ∃ plan structure data,
    build_joint_correction_plan (Some schema) (Some dc) options = Some plan ∧
    steps plan = (match opt_strategy options with DataFirst => data ++ structure | _ => structure ++ data end) ∧
    omap step_table structure = diff_name <$> changed_tables schema ∧ statements_of structure = [] ∧
    statements_of data = from_sync_statements dc ∧ omap step_table data = [].
Proof.
  intros Hi Hs Hd Ha. destruct (append_data_steps_spec dc options Hd Ha) as (data & Hdata & Hst & Hno).
  destruct (append_schema_steps_spec schema options Hs) as [Hs1 Hs2].
  unfold build_joint_correction_plan, plan_steps. rewrite Hdata.
  destruct (append_schema_steps (Some schema) options) as [structure back]. simpl in *.
  destruct (opt_strategy options) eqn:E; [..|done]; simpl; rewrite ?E; by eexists _, structure, data.
Qed.
End plan.

Lemma joint_plan_witness :
  let u := ascii_only in
  let schema := {| diffs := [{| diff_type := lit "added"; diff_name := lit "t"; triggers := None; target_ddl := None;
                                diff_sync_sql := Some (lit "CREATE TABLE t (a int);") |}];
                   schema_sync_sql := lit "CREATE TABLE t (a int);" |} in
  let dc := {| from_result := {| added := [{| row_key := lit "1"; row_key_values := ∅; row_values := ∅ |}];
                                 removed := []; modified := [] |};
               from_sync_statements := [lit "INSERT INTO t (a) VALUES (1);"]; from_sync_sql := lit "INSERT INTO t (a) VALUES (1);";
               from_source_row_count := 1; from_target_row_count := 0; from_degradation_level := lit "full";
               from_verification_method := lit "full_compare" |} in
  ∃ plan structure data,
    build_joint_correction_plan (Some schema) (Some dc) default_options = Some plan ∧
    steps plan = structure ++ data ∧ omap step_table structure = [lit "t"] ∧ statements_of structure = [] ∧
    statements_of data = [lit "INSERT INTO t (a) VALUES (1);"] ∧ omap step_table data = [].
Proof.
  intros u schema dc. apply (joint_plan_has_every_change schema dc default_options); [done|done| |].
  - intros [Hl _]. discriminate Hl.
  - constructor; [vm_compute; reflexivity|constructor].
Defined.

(** ** Deviations *)

(** A long statement with a character of several bytes at byte 80: the slice
    of the summary panics. *)
Theorem summary_panics :
  summary (replicate 79 97%N ++ [233%N; 97%N]) 80 = None.
Proof. by vm_compute. Qed.

(** With a schema comparison, the interleaved strategy drops the data
    statements of tables whose schema did not change. *)
Theorem interleaved_drops_data dc options :
  opt_strategy options = Interleaved →
  ∃ plan, build_joint_correction_plan (H := ascii_only) (Some {| diffs := []; schema_sync_sql := [] |}) (Some dc) options =
    Some plan ∧ steps plan = [].
Proof. intros Hi. unfold build_joint_correction_plan, plan_steps. rewrite Hi. simpl. by eexists. Qed.

(** The rollback of a modified table is its forward script behind [--]: from
    the second line on it runs the change again. *)
Theorem rollback_reruns_the_change :
  let d := {| diff_type := lit "modified"; diff_name := lit "t"; triggers := None; target_ddl := None;
              diff_sync_sql := Some (lit "ALTER TABLE t ADD COLUMN a int;" ++ [NL] ++ lit "ALTER TABLE t DROP COLUMN b;") |} in
  (λ r, lines r !! 1) <$> table_rollback_sql d default_options = Some (Some (lit "ALTER TABLE t DROP COLUMN b;")).
Proof. by vm_compute. Qed.
