(* ===== verification/SchemaTypes.v ===== *)
(** The description of a database schema ([crates/dbx-core/src/types.rs] and
    the head of [schema_diff.rs]) that the comparison of two schemas and the
    dependency graph read: tables, columns, indexes, foreign keys, triggers,
    functions, sequences, rules and owners. *)
From S2P Require Import Prelude.
Local Open Scope dbx_scope.

Record TableInfo := mkTable {
  tbl_name : str;
  tbl_type : str;
  tbl_comment : option str;
  tbl_parent_schema : option str;
  tbl_parent_name : option str;
}.

Record ColumnInfo := mkColumn {
  col_name : str;
  col_data_type : str;
  col_resolved_schema : option str;
  col_is_nullable : bool;
  col_default : option str;
  col_is_primary_key : bool;
  col_is_unique : bool;
  col_extra : option str;
  col_comment : option str;
  col_numeric_precision : option Z;
  col_numeric_scale : option Z;
  col_character_maximum_length : option Z;
  col_enum_values : option (list str);
  col_character_set : option str;
  col_collation : option str;
}.

Record IndexInfo := mkIndex {
  idx_name : str;
  idx_columns : list str;
  idx_is_unique : bool;
  idx_is_primary : bool;
  idx_filter : option str;
  idx_index_type : option str;
  idx_included_columns : option (list str);
  idx_comment : option str;
  idx_key_is_expression : list bool;
}.

Record ForeignKeyInfo := mkForeignKey {
  fk_name : str;
  fk_column : str;
  fk_ref_schema : option str;
  fk_ref_table : str;
  fk_ref_column : str;
  fk_on_update : option str;
  fk_on_delete : option str;
}.

Record TriggerInfo := mkTrigger {
  trg_name : str;
  trg_event : str;
  trg_timing : str;
  trg_level : option str;
  trg_condition : option str;
  trg_language : option str;
  trg_enabled : option bool;
  trg_valid : option bool;
  trg_comment : option str;
  trg_created_at : option str;
  trg_statement : option str;
}.

Record FunctionInfo := mkFunction {
  fn_name : str;
  fn_function_type : str;
  fn_data_type : str;
  fn_definition : str;
  fn_arguments : str;
}.

Record SequenceInfo := mkSequence {
  seq_name : str;
  seq_data_type : str;
  seq_start_value : str;
  seq_min_value : str;
  seq_max_value : str;
  seq_increment : str;
  seq_cycle : bool;
  seq_last_value : option str;
}.

Record RuleInfo := mkRule {
  rule_name : str;
  rule_table_name : str;
  rule_definition : str;
}.

Record OwnerInfo := mkOwner {
  own_object_name : str;
  own_object_type : str;
  own_owner : str;
}.

Record TableSchemaDetail := mkDetail {
  det_name : str;
  det_columns : list ColumnInfo;
  det_indexes : list IndexInfo;
  det_foreign_keys : list ForeignKeyInfo;
  det_triggers : list TriggerInfo;
  det_ddl : option str;
}.

#[export] Instance table_info_eq_dec : EqDecision TableInfo.
Proof. solve_decision. Defined.
#[export] Instance column_info_eq_dec : EqDecision ColumnInfo.
Proof. solve_decision. Defined.
#[export] Instance index_info_eq_dec : EqDecision IndexInfo.
Proof. solve_decision. Defined.
#[export] Instance foreign_key_info_eq_dec : EqDecision ForeignKeyInfo.
Proof. solve_decision. Defined.
#[export] Instance trigger_info_eq_dec : EqDecision TriggerInfo.
Proof. solve_decision. Defined.
#[export] Instance function_info_eq_dec : EqDecision FunctionInfo.
Proof. solve_decision. Defined.
#[export] Instance sequence_info_eq_dec : EqDecision SequenceInfo.
Proof. solve_decision. Defined.
#[export] Instance rule_info_eq_dec : EqDecision RuleInfo.
Proof. solve_decision. Defined.
#[export] Instance owner_info_eq_dec : EqDecision OwnerInfo.
Proof. solve_decision. Defined.
#[export] Instance detail_eq_dec : EqDecision TableSchemaDetail.
Proof. solve_decision. Defined.
