(* ===== verification/DependencyGraph.v ===== *)
(** The dependency graph of the schema comparison
    ([crates/dbx-core/src/schema_diff.rs], [DependencyGraph]): edges from
    foreign keys, view definitions, trigger bodies and functions, Kahn's
    sort that orders the tables for creation and removal, and the counts of
    the coverage report (its floating-point scores are left out).

    The source walks hash maps and sets, whose order is not fixed: every walk
    takes the order as an argument, and the theorems hold for all of them. *)
From S2P Require Import Prelude Identifiers RowCompare SchemaTypes.
Local Open Scope dbx_scope.

(** ** References found in SQL text *)
Section references.
Context `{Unicode}.

Definition reference_patterns (table_up : str) : list str :=
  [ lit " FROM " ++ table_up; lit " JOIN " ++ table_up; lit " INTO " ++ table_up;
    lit " TABLE " ++ table_up; lit " REFERENCES " ++ table_up; lit " UPDATE " ++ table_up;
    lit "DELETE FROM " ++ table_up; lit "FROM " ++ table_up ++ lit " ("; lit " " ++ table_up ++ lit "." ].

Definition mentions (sql table : str) : bool :=
  existsb (λ p, str_contains p (to_uppercase sql)) (reference_patterns (to_uppercase table)).

Definition extract_ddl_references (sql : str) (known_tables : list str) : list str :=
  filter (λ table, mentions sql table = true) known_tables.
End references.

(** ** Nodes *)
Record DependencyNode := mkNode {
  table_name : str;
  depends_on : list str;
  depended_by : list str;
}.
Record DependencyGraph := mkGraph {
  nodes : gmap str DependencyNode;
  topological_order : list str;
}.

(** [if !v.contains(&x) { v.push(x) }] *)
Definition push_new (x : str) (v : list str) : list str := if decide (x ∈ v) then v else v ++ [x].

Definition add_depends_on (to : str) (n : DependencyNode) : DependencyNode :=
  mkNode (table_name n) (push_new to (depends_on n)) (depended_by n).
Definition add_depended_by (from : str) (n : DependencyNode) : DependencyNode :=
  mkNode (table_name n) (depends_on n) (push_new from (depended_by n)).

(** The two [nodes.get_mut] updates that every phase makes for a reference. *)
Definition add_edge (from : str) (ns : gmap str DependencyNode) (to : str) : gmap str DependencyNode :=
  alter (add_depended_by from) to (alter (add_depends_on to) from ns).

(** The orders in which the hash collections are walked. *)
Record HashOrders := mkOrders {
  by_table : list str;
  by_view : list str;
  by_name : list str;
  by_function : list str;
  by_node : list str;
  by_degree : list str;
}.

(** ** Kahn's sort *)
Inductive SortError := Overflow | OutOfFuel.
#[export] Instance sort_error_eq_dec : EqDecision SortError.
Proof. solve_decision. Defined.

Definition count_degree (deg : gmap str N) (node : DependencyNode) : gmap str N :=
  foldl (λ d _, <[table_name node := (default 0 (d !! table_name node) + 1)%N]> d)
        (<[table_name node := default 0%N (deg !! table_name node)]> deg) (depends_on node).
Definition in_degrees (order : list str) (ns : gmap str DependencyNode) : gmap str N :=
  foldl count_degree ((λ _, 0%N) <$> ns) (omap (λ k, ns !! k) order).

(** [for dependent in &node.depended_by]; [*deg -= 1] on 0 is an overflow. *)
Fixpoint release (deg : gmap str N) (queue dependents : list str) : result (gmap str N * list str) SortError :=
  match dependents with
  | [] => Ok (deg, queue)
  | dependent :: rest =>
      match deg !! dependent with
      | None => release deg queue rest
      | Some 0%N => Err Overflow
      | Some d =>
          release (<[dependent := (d - 1)%N]> deg)
                  (if decide ((d - 1)%N = 0%N) then queue ++ [dependent] else queue) rest
      end
  end.

Definition dependents_of (ns : gmap str DependencyNode) (name : str) : list str :=
  default [] (depended_by <$> ns !! name).
Definition dependencies_of (ns : gmap str DependencyNode) (name : str) : list str :=
  default [] (depends_on <$> ns !! name).

(** [while let Some(name) = queue.pop_front()] *)
Fixpoint drain (fuel : nat) (ns : gmap str DependencyNode) (deg : gmap str N) (queue sorted : list str)
  : result (list str) SortError :=
  match queue with
  | [] => Ok sorted
  | name :: queue' =>
      match fuel with
      | 0 => Err OutOfFuel
      | S fuel' =>
          let? (deg', queue2) := release deg queue' (dependents_of ns name) in
          drain fuel' ns deg' queue2 (sorted ++ [name])
      end
  end.

Definition topological_sort (o : HashOrders) (ns : gmap str DependencyNode) : result (list str) SortError :=
  let in_degree := in_degrees (by_node o) ns in
  let queue := filter (λ k, in_degree !! k = Some 0%N) (by_degree o) in
  let? sorted := drain (size ns) ns in_degree queue [] in
  Ok (if decide (length sorted = size ns) then sorted
      else sorted ++ filter (λ k, k ∉ sorted) (by_node o)).

(** ** Building the graph *)
Section build.
Context `{Unicode} (details : list TableSchemaDetail) (tables : list TableInfo) (functions : list FunctionInfo).

Definition is_view (t : TableInfo) : bool := str_contains (lit "VIEW") (tbl_type t).
Definition table_names : gset str := list_to_set (tbl_name <$> filter (λ t, is_view t = false) tables).
Definition view_names : gset str := list_to_set (tbl_name <$> filter (λ t, is_view t = true) tables).
Definition all_names : gset str := list_to_set (tbl_name <$> tables).
Definition detail_map : gmap str TableSchemaDetail := collect_map ((λ d, (det_name d, d)) <$> details).
Definition function_by_name : gmap str FunctionInfo := collect_map ((λ f, (fn_name f, f)) <$> functions).

Definition empty_nodes : gmap str DependencyNode :=
  set_to_map (λ name, (name, mkNode name [] [])) all_names.

(** Phase 1: foreign keys. *)
Definition foreign_key_edges (ns : gmap str DependencyNode) (name : str) : gmap str DependencyNode :=
  match detail_map !! name with
  | Some detail =>
      foldl (λ ns fk, if decide (fk_ref_table fk ∈ table_names) then add_edge name ns (fk_ref_table fk) else ns)
            ns (det_foreign_keys detail)
  | None => ns
  end.

(** Phase 2: the text of views. *)
Definition view_edges (known : list str) (ns : gmap str DependencyNode) (name : str) : gmap str DependencyNode :=
  match detail_map !! name with
  | Some detail =>
      match det_ddl detail with
      | Some ddl => foldl (add_edge name) ns (extract_ddl_references ddl known)
      | None => ns
      end
  | None => ns
  end.

(** Phase 3: the statements of triggers. *)
Definition trigger_edges (known : list str) (ns : gmap str DependencyNode) (name : str) : gmap str DependencyNode :=
  match detail_map !! name with
  | Some detail =>
      foldl (λ ns trigger,
               match trg_statement trigger with
               | Some stmt => foldl (add_edge name) ns (extract_ddl_references stmt known)
               | None => ns
               end) ns (det_triggers detail)
  | None => ns
  end.

(** Phase 4: the definitions of functions, which are not nodes themselves. *)
Definition function_edges (known : list str) (ns : gmap str DependencyNode) (func_name : str)
  : gmap str DependencyNode :=
  match function_by_name !! func_name with
  | Some func => foldl (λ ns to, alter (add_depended_by func_name) to ns) ns
                       (extract_ddl_references (fn_definition func) known)
  | None => ns
  end.

Definition build_nodes (o : HashOrders) : gmap str DependencyNode :=
  let ns := foldl foreign_key_edges empty_nodes (by_table o) in
  let ns := foldl (view_edges (by_table o)) ns (by_view o) in
  let ns := foldl (trigger_edges (by_table o)) ns (by_name o) in
  foldl (function_edges (by_table o)) ns (by_function o).

Definition build_with_functions (o : HashOrders) : result DependencyGraph SortError :=
  let ns := build_nodes o in
  let? order := topological_sort o ns in
  Ok (mkGraph ns order).

(** The walks see every element of their collection once. *)
Definition orders_ok (o : HashOrders) : Prop :=
  by_table o ≡ₚ elements table_names ∧ by_view o ≡ₚ elements view_names ∧
  by_name o ≡ₚ elements all_names ∧
  by_function o ≡ₚ elements (dom function_by_name) ∧
  by_node o ≡ₚ elements all_names ∧ by_degree o ≡ₚ elements all_names.
End build.

(** [DependencyGraph::build] *)
Definition build `{Unicode} (details : list TableSchemaDetail) (tables : list TableInfo) (o : HashOrders)
  : result DependencyGraph SortError := build_with_functions details tables [] o.

Definition build_order (g : DependencyGraph) : list str := topological_order g.
Definition drop_order (g : DependencyGraph) : list str := reverse (topological_order g).

(** ** Coverage of the edges by a set of compared tables *)
Record UncoveredEdge := mkUncovered {
  from_table : str;
  to_table : str;
  level : N;
}.

Section coverage.
Context (order : list str) (ns : gmap str DependencyNode) (diffed : gset str).

(** [self.nodes.values()] *)
Definition node_values : list DependencyNode := omap (λ k, ns !! k) order.

Definition both_covered (a b : str) : bool := bool_decide (a ∈ diffed) && bool_decide (b ∈ diffed).

(** The pair of counters: covered and total. *)
Definition count (counts : N * N) (a b : str) : N * N :=
  (if both_covered a b then (counts.1 + 1)%N else counts.1, (counts.2 + 1)%N).

Definition count_edges : N * N :=
  foldl (λ c node, foldl (λ c dep, count c (table_name node) dep) c (depends_on node)) (0, 0)%N node_values.

Definition count_transitive_edges : N * N :=
  foldl (λ c node,
           if bool_decide (table_name node ∈ diffed) then
             foldl (λ c indirect,
                      match ns !! indirect with
                      | Some inner => foldl (λ c grand, count c (table_name node) grand) c (depends_on inner)
                      | None => c
                      end) c (depends_on node)
           else c) (0, 0)%N node_values.

Definition uncovered_edge (node : DependencyNode) (level : N) (to : str) : list UncoveredEdge :=
  if both_covered (table_name node) to then [] else [mkUncovered (table_name node) to level].

Definition uncovered_of_node (node : DependencyNode) : list UncoveredEdge :=
  (depends_on node ≫= uncovered_edge node 1) ++
  (depends_on node ≫= λ indirect,
     match ns !! indirect with
     | Some inner => depends_on inner ≫= uncovered_edge node 2
     | None => []
     end).

Definition collect_uncovered_edges : list UncoveredEdge := node_values ≫= uncovered_of_node.
End coverage.

(** * Kahn's sort on consistent graphs *)

(** Both sides of every edge are recorded, edges end in nodes, and no edge is
    recorded twice. *)
Definition consistent (ns : gmap str DependencyNode) : Prop :=
  (∀ k node, ns !! k = Some node → table_name node = k ∧ NoDup (depends_on node) ∧ NoDup (depended_by node) ∧
     ∀ d, d ∈ depends_on node → is_Some (ns !! d)) ∧
  (∀ n d, is_Some (ns !! n) → n ∈ dependents_of ns d ↔ d ∈ dependencies_of ns n).

Definition precedes (a b : str) (l : list str) : Prop := ∃ l1 l2 l3, l = l1 ++ a :: l2 ++ b :: l3.

(** [n] depends on nothing that, followed backwards, runs into a cycle. *)
Definition well_founded_node (ns : gmap str DependencyNode) (n : str) : Prop :=
  Acc (λ d n, d ∈ dependencies_of ns n) n.

(** The order of a dependency-closed prefix. *)
Definition ordered (ns : gmap str DependencyNode) (l : list str) : Prop :=
  ∀ l1 n l2, l = l1 ++ n :: l2 → dependencies_of ns n ⊆ l1.

Definition missing (ns : gmap str DependencyNode) (sorted : list str) (n : str) : list str :=
  filter (λ d, d ∉ sorted) (dependencies_of ns n).

Lemma precedes_reverse a b l : precedes a b l → precedes b a (reverse l).
Proof.
  intros (l1 & l2 & l3 & ->). exists (reverse l3), (reverse l2), (reverse l1).
  rewrite reverse_app, !reverse_cons, reverse_app, reverse_cons, <-!app_assoc. done.
Qed.

Lemma precedes_app a b l l' : precedes a b l → precedes a b (l ++ l').
Proof.
  intros (l1 & l2 & l3 & ->). exists l1, l2, (l3 ++ l'). by rewrite <-!app_assoc; simpl; rewrite <-!app_assoc.
Qed.

Lemma precedes_parts a b l l' : a ∈ l → b ∈ l' → precedes a b (l ++ l').
Proof.
  intros (l1 & l2 & ->)%list_elem_of_split (l3 & l4 & ->)%list_elem_of_split.
  exists l1, (l2 ++ l3), l4. by rewrite <-!app_assoc.
Qed.

Lemma ordered_precedes ns l n d : ordered ns l → n ∈ l → d ∈ dependencies_of ns n → precedes d n l.
Proof.
  intros Ho (l1 & l2 & ->)%list_elem_of_split Hd.
  apply (Ho l1 n l2 eq_refl) in Hd. apply precedes_parts; [done|left].
Qed.

Lemma filter_remove (x : str) (l : list str) :
  NoDup l → x ∈ l → length l = S (length (filter (λ y, y ≠ x) l)).
Proof.
  induction 1 as [|y l Hy Hl IH]; intros Hx; [by apply not_elem_of_nil in Hx|].
  rewrite filter_cons. destruct (decide (y = x)) as [->|Hyx].
  - rewrite decide_False by tauto. cbn. f_equal.
    rewrite filter_all; [done|]. by intros z Hz ->.
  - rewrite decide_True by done. apply elem_of_cons in Hx as [Hx|Hx]; [congruence|]. cbn. f_equal. auto.
Qed.

Section kahn.
Context (ns : gmap str DependencyNode) (Hcons : consistent ns).
Implicit Types (deg : gmap str N) (queue sorted : list str).

Lemma dependencies_NoDup n : NoDup (dependencies_of ns n).
Proof.
  unfold dependencies_of. destruct (ns !! n) as [node|] eqn:E; simpl; [|constructor].
  apply (proj1 Hcons) in E. tauto.
Qed.
Lemma dependents_NoDup n : NoDup (dependents_of ns n).
Proof.
  unfold dependents_of. destruct (ns !! n) as [node|] eqn:E; simpl; [|constructor].
  apply (proj1 Hcons) in E. tauto.
Qed.
Lemma dependency_is_node n d : d ∈ dependencies_of ns n → is_Some (ns !! d).
Proof.
  unfold dependencies_of. destruct (ns !! n) as [node|] eqn:E; simpl; [|by intros ?%not_elem_of_nil].
  apply (proj1 Hcons) in E. naive_solver.
Qed.

(** The degrees after the first loop. *)
Lemma count_degree_lookup deg node k :
  count_degree deg node !! k =
    if decide (k = table_name node) then Some (default 0 (deg !! k) + N.of_nat (length (depends_on node)))%N
    else deg !! k.
Proof.
  unfold count_degree. generalize (depends_on node) as l. intros l.
  assert (Hgen : ∀ (l : list str) (d : gmap str N), is_Some (d !! table_name node) →
    foldl (λ d _, <[table_name node := (default 0 (d !! table_name node) + 1)%N]> d) d l !! k =
    if decide (k = table_name node) then Some (default 0 (d !! k) + N.of_nat (length l))%N else d !! k).
  { clear l. intros l. induction l as [|x l IH]; intros d Hd; simpl.
    - case_decide as E; [|done]. subst. destruct Hd as [y ->]. simpl. f_equal. lia.
    - rewrite IH by (rewrite lookup_insert_eq; eauto). case_decide as E; [subst|].
      + rewrite lookup_insert_eq. cbn. f_equal. lia.
      + by rewrite lookup_insert_ne. }
  rewrite Hgen by (rewrite lookup_insert_eq; eauto). case_decide as E; [subst|].
  - by rewrite lookup_insert_eq.
  - by rewrite lookup_insert_ne.
Qed.

Lemma in_degrees_lookup order k :
  order ≡ₚ elements (dom ns) →
  in_degrees order ns !! k = (λ node, N.of_nat (length (depends_on node))) <$> ns !! k.
Proof.
  intros Hperm.
  assert (Hnd : NoDup order) by (rewrite Hperm; apply NoDup_elements).
  assert (Hk : is_Some (ns !! k) → k ∈ order).
  { intros Hs. rewrite Hperm. by apply elem_of_elements, elem_of_dom. }
  assert (Hgen : ∀ l, NoDup l → foldl count_degree ((λ _, 0%N) <$> ns) (omap (λ k, ns !! k) l) !! k =
     (λ node, if decide (k ∈ l) then N.of_nat (length (depends_on node)) else 0%N) <$> ns !! k).
  { intros l. induction l as [|x l IH] using rev_ind; intros Hl.
    - cbn. rewrite lookup_fmap. by destruct (ns !! k).
    - apply NoDup_app in Hl as (Hl & Hx & _). rewrite omap_app. cbn.
      destruct (ns !! x) as [node|] eqn:Ex; cbn.
      + rewrite foldl_app. cbn. destruct (proj1 Hcons _ _ Ex) as [Hname _].
        rewrite count_degree_lookup, Hname, IH by done. destruct (decide (k = x)) as [E|E].
        * rewrite E, Ex. cbn. rewrite decide_False by (intros ?; eapply Hx; [done|left]).
          by rewrite decide_True by (apply elem_of_app; right; left).
        * destruct (ns !! k); [|done]. cbn. f_equal.
          destruct (decide (k ∈ l)); [by rewrite decide_True by (apply elem_of_app; by left)|].
          rewrite decide_False; [done|]. rewrite elem_of_app, list_elem_of_singleton. tauto.
      + rewrite app_nil_r, IH by done. destruct (ns !! k) as [node|] eqn:Ek; [|done]. cbn. f_equal.
        destruct (decide (k ∈ l)); [by rewrite decide_True by (apply elem_of_app; by left)|].
        rewrite decide_False; [done|]. rewrite elem_of_app, list_elem_of_singleton. intros [?|?]; congruence. }
  unfold in_degrees. rewrite Hgen by done. destruct (ns !! k) as [node|]; [|done]. cbn.
  by rewrite decide_True by (apply Hk; eauto).
Qed.

(** Releasing the dependents of a finished node. *)
Lemma release_spec dependents deg queue :
  NoDup dependents → (∀ x, x ∈ dependents → deg !! x ≠ Some 0%N) →
  ∃ deg', release deg queue dependents =
            Ok (deg', queue ++ filter (λ x, deg !! x = Some 1%N) dependents) ∧
    ∀ x, deg' !! x = if decide (x ∈ dependents) then N.pred <$> deg !! x else deg !! x.
Proof.
  revert deg queue. induction dependents as [|y l IH]; intros deg queue Hnd Hpos.
  - exists deg. rewrite filter_nil, app_nil_r. split; [done|]. intros x. by rewrite decide_False by apply not_elem_of_nil.
  - apply NoDup_cons in Hnd as [Hy Hnd]. cbn [release].
    assert (Hother : ∀ e, filter (λ x, <[y := e]> deg !! x = Some 1%N) l = filter (λ x, deg !! x = Some 1%N) l).
    { intros e. apply filter_same. intros x Hx. rewrite lookup_insert_ne; [done|by intros ->]. }
    destruct (deg !! y) as [d|] eqn:Ed.
    + destruct (decide (d = 0%N)) as [->|Hd0]; [by destruct (Hpos y (list_elem_of_here _ _))|].
      destruct (IH (<[y := (d - 1)%N]> deg) (if decide ((d - 1)%N = 0%N) then queue ++ [y] else queue)) as (deg' & Hr & Hdeg').
      { done. } { intros x Hx. rewrite lookup_insert_ne by (by intros ->). apply Hpos. by right. }
      exists deg'. split.
      * destruct d; [done|]. rewrite Hr, filter_cons, Hother. do 2 f_equal. rewrite Ed. case_decide; case_decide as E1.
        -- by rewrite <-app_assoc.
        -- destruct E1. f_equal. lia.
        -- by simplify_eq.
        -- done.
      * intros x. rewrite Hdeg'. destruct (decide (x = y)) as [->|Hxy].
        -- rewrite decide_False by done. rewrite decide_True by left. rewrite lookup_insert_eq, Ed. simpl. f_equal. lia.
        -- rewrite lookup_insert_ne by done. destruct (decide (x ∈ l)); [by rewrite decide_True by (by right)|].
           rewrite decide_False; [done|]. by rewrite elem_of_cons; intros [?|?].
    + destruct (IH deg queue Hnd) as (deg' & Hr & Hdeg').
      { intros x Hx. apply Hpos. by right. }
      exists deg'. split.
      * rewrite Hr, filter_cons, Ed, decide_False by done. done.
      * intros x. rewrite Hdeg'. destruct (decide (x = y)) as [->|Hxy].
        -- rewrite decide_False by done. rewrite decide_True by left. by rewrite Ed.
        -- destruct (decide (x ∈ l)); [by rewrite decide_True by (by right)|].
           rewrite decide_False; [done|]. by rewrite elem_of_cons; intros [?|?].
Qed.

Lemma missing_nil sorted n : missing ns sorted n = [] ↔ dependencies_of ns n ⊆ sorted.
Proof.
  unfold missing. split.
  - intros Hnil d Hd. destruct (decide (d ∈ sorted)) as [|Hs]; [done|].
    assert (Hin : d ∈ filter (λ d, d ∉ sorted) (dependencies_of ns n)) by (by apply list_elem_of_filter).
    rewrite Hnil in Hin. by apply not_elem_of_nil in Hin.
  - intros Hsub. apply elem_of_nil_inv. intros d [Hd1 Hd2]%list_elem_of_filter. auto.
Qed.

Lemma missing_snoc sorted name n :
  missing ns (sorted ++ [name]) n = filter (λ d, d ≠ name) (missing ns sorted n).
Proof.
  unfold missing. rewrite list_filter_filter. apply filter_same. intros x _.
  rewrite elem_of_app, list_elem_of_singleton. tauto.
Qed.

Lemma missing_snoc_length sorted name n : name ∉ sorted →
  length (missing ns (sorted ++ [name]) n) =
    if decide (name ∈ dependencies_of ns n) then pred (length (missing ns sorted n))
    else length (missing ns sorted n).
Proof.
  intros Hname. rewrite missing_snoc. case_decide as Hd.
  - rewrite (filter_remove name (missing ns sorted n)); [done| |by apply list_elem_of_filter].
    apply NoDup_filter, dependencies_NoDup.
  - rewrite filter_all; [done|]. by intros x [_ Hx]%list_elem_of_filter ->.
Qed.

(** Between two rounds of the loop. *)
Record kahn_inv (deg : gmap str N) (queue sorted : list str) : Prop := {
  inv_degree : ∀ n, deg !! n = (λ _, N.of_nat (length (missing ns sorted n))) <$> ns !! n;
  inv_once : NoDup (sorted ++ queue);
  inv_ready : ∀ n, n ∈ sorted ++ queue ↔ is_Some (ns !! n) ∧ missing ns sorted n = [];
  inv_ordered : ordered ns sorted;
}.

Lemma kahn_step deg name queue sorted :
  kahn_inv deg (name :: queue) sorted →
  ∃ deg' queue', release deg queue (dependents_of ns name) = Ok (deg', queue') ∧
    kahn_inv deg' queue' (sorted ++ [name]).
Proof.
  intros [Hdeg Honce Hready Hord].
  pose proof Honce as (_ & Hfresh & Hq)%NoDup_app. apply NoDup_cons in Hq as [Hnq Hq].
  assert (Hname : name ∉ sorted) by (intros Hin; eapply Hfresh; [done|left]).
  assert (Hmis : ∀ x, is_Some (ns !! x) → x ∈ dependents_of ns name → name ∈ missing ns sorted x).
  { intros x Hx Hd. apply list_elem_of_filter. split; [done|]. by apply (proj2 Hcons). }
  destruct (release_spec (dependents_of ns name) deg queue) as (deg' & Hrel & Hdeg').
  { apply dependents_NoDup. }
  { intros x Hx Hz. rewrite Hdeg in Hz. destruct (ns !! x) eqn:Ex; [|done]. simplify_eq/=.
    specialize (Hmis x ltac:(eauto) Hx). destruct (missing ns sorted x); [by apply not_elem_of_nil in Hmis|done]. }
  exists deg', (queue ++ filter (λ x, deg !! x = Some 1%N) (dependents_of ns name)). split; [done|].
  assert (Hlen : ∀ n, is_Some (ns !! n) → length (missing ns (sorted ++ [name]) n) =
     if decide (n ∈ dependents_of ns name) then pred (length (missing ns sorted n)) else length (missing ns sorted n)).
  { intros n Hn. rewrite missing_snoc_length by done. apply decide_ext. symmetry. by apply (proj2 Hcons). }
  assert (Hnew : ∀ n, n ∈ filter (λ x, deg !! x = Some 1%N) (dependents_of ns name) ↔
     is_Some (ns !! n) ∧ n ∈ dependents_of ns name ∧ length (missing ns sorted n) = 1).
  { intros n. rewrite list_elem_of_filter, Hdeg. destruct (ns !! n) eqn:En; cbn.
    - split; [intros [? ?]; simplify_eq; split_and!; eauto; lia|intros (_ & ? & ->); done].
    - split; [by intros [? _]|by intros [[? ?] _]]. }
  split.
  - intros n. rewrite Hdeg', Hdeg. destruct (ns !! n) eqn:En; [|by case_decide]. cbn.
    rewrite Hlen by eauto. case_decide; cbn; f_equal. lia.
  - rewrite <-app_assoc. cbn. rewrite app_comm_cons, app_assoc. apply NoDup_app. split; [done|]. split.
    + intros n [_ Hnil]%Hready (_ & _ & Hone)%Hnew. by rewrite Hnil in Hone.
    + apply NoDup_filter, dependents_NoDup.
  - intros n. rewrite <-app_assoc. cbn. rewrite app_comm_cons, app_assoc, elem_of_app, Hready, Hnew.
    rewrite <-!length_zero_iff_nil. split.
    + intros [[Hs Hz]|(Hs & Hd & Hone)]; (split; [done|]); rewrite Hlen by done; case_decide; lia || done.
    + intros [Hs Hz]. rewrite Hlen in Hz by done. case_decide as Hd; [|by left].
      right. split_and!; [done..|]. specialize (Hmis n Hs Hd).
      destruct (missing ns sorted n) as [|? ?]; [by apply not_elem_of_nil in Hmis|]. cbn in *. lia.
  - intros l1 n l2 Heq. destruct l2 as [|y l2 _] using rev_ind.
    + apply app_inj_tail in Heq as [<- <-]. apply missing_nil. apply Hready. apply elem_of_app. right. left.
    + rewrite app_comm_cons, app_assoc in Heq. apply app_inj_tail in Heq as [-> _]. by apply (Hord l1 n l2).
Qed.

Lemma kahn_within_nodes deg queue sorted : kahn_inv deg queue sorted → length sorted + length queue ≤ size ns.
Proof.
  intros [_ Honce Hready _]. rewrite <-length_app, <-(size_dom (D:=gset str)).
  change (size (dom ns)) with (length (elements (dom ns))).
  apply submseteq_length, NoDup_submseteq; [done|].
  intros n Hn. apply elem_of_elements, elem_of_dom. by apply Hready in Hn as [? _].
Qed.

Lemma drain_spec fuel deg queue sorted :
  kahn_inv deg queue sorted → size ns ≤ fuel + length sorted →
  ∃ sorted' deg', drain fuel ns deg queue sorted = Ok sorted' ∧ kahn_inv deg' [] sorted'.
Proof.
  revert deg queue sorted. induction fuel as [|fuel IH]; intros deg [|name queue] sorted Hinv Hfuel; simpl; eauto.
  - apply kahn_within_nodes in Hinv. cbn in *. lia.
  - destruct (kahn_step _ _ _ _ Hinv) as (deg' & queue' & -> & Hinv'). eapply IH; [done|].
    rewrite length_app. cbn. lia.
Qed.

Lemma kahn_start o :
  by_node o ≡ₚ elements (dom ns) → by_degree o ≡ₚ elements (dom ns) →
  kahn_inv (in_degrees (by_node o) ns) (filter (λ k, in_degrees (by_node o) ns !! k = Some 0%N) (by_degree o)) [].
Proof.
  intros Hnode Hdegree.
  assert (Hmis : ∀ n, missing ns [] n = dependencies_of ns n).
  { intros n. apply filter_all. intros x _. apply not_elem_of_nil. }
  split.
  - intros n. rewrite in_degrees_lookup, Hmis by done. unfold dependencies_of. by destruct (ns !! n).
  - cbn. apply NoDup_filter. rewrite Hdegree. apply NoDup_elements.
  - intros n. cbn. rewrite list_elem_of_filter, in_degrees_lookup, Hdegree, elem_of_elements, elem_of_dom, Hmis by done.
    unfold dependencies_of. destruct (ns !! n) as [node|]; cbn; [|naive_solver].
    rewrite <-length_zero_iff_nil. split; [intros [? ?]; simplify_eq; split; [done|lia]|intros [? ->]; done].
  - intros l1 n l2 Heq. by destruct l1.
Qed.

Lemma well_founded_is_sorted deg sorted n :
  kahn_inv deg [] sorted → is_Some (ns !! n) → well_founded_node ns n → n ∈ sorted.
Proof.
  intros Hinv Hn Hacc. revert Hn. induction Hacc as [n _ IH]. intros Hn.
  pose proof (inv_ready _ _ _ Hinv n) as Hready. rewrite app_nil_r in Hready. apply Hready.
  split; [done|]. apply missing_nil. intros d Hd. apply IH; [done|]. by eapply dependency_is_node.
Qed.

Lemma sorted_is_well_founded sorted n : ordered ns sorted → n ∈ sorted → well_founded_node ns n.
Proof.
  intros Hord (l1 & l2 & ->)%list_elem_of_split.
  remember (length l1) as k eqn:Hk. revert n l1 l2 Hk Hord.
  induction (lt_wf k) as [k _ IH]. intros n l1 l2 -> Hord. constructor. intros d Hd.
  apply (Hord _ _ _ eq_refl) in Hd as (l3 & l4 & ->)%list_elem_of_split.
  apply (IH (length l3)) with l3 (l4 ++ n :: l2).
  - rewrite length_app. cbn. lia.
  - done.
  - by rewrite <-app_assoc in Hord.
Qed.

(** The sort returns every node once; the nodes free of cycles come first, each
    after its dependencies. *)
Lemma topological_sort_spec o :
  by_node o ≡ₚ elements (dom ns) → by_degree o ≡ₚ elements (dom ns) →
  ∃ order, topological_sort o ns = Ok order ∧ order ≡ₚ elements (dom ns) ∧
    (∀ n d, well_founded_node ns n → d ∈ dependencies_of ns n → precedes d n order) ∧
    (∀ n m, is_Some (ns !! n) → is_Some (ns !! m) → well_founded_node ns n → ¬ well_founded_node ns m →
       precedes n m order).
Proof.
  intros Hnode Hdegree.
  destruct (drain_spec (size ns) _ _ _ (kahn_start o Hnode Hdegree)) as (sorted & deg & Hdrain & Hinv); [cbn; lia|].
  unfold topological_sort. rewrite Hdrain.
  pose proof (inv_ordered _ _ _ Hinv) as Hord.
  pose proof (inv_once _ _ _ Hinv) as Hnd. rewrite app_nil_r in Hnd.
  assert (Hsub : ∀ n, n ∈ sorted → is_Some (ns !! n)).
  { intros n Hn. apply (inv_ready _ _ _ Hinv). by rewrite app_nil_r. }
  assert (Hall : ∀ n d, well_founded_node ns n → d ∈ dependencies_of ns n → precedes d n sorted).
  { intros n d Hwf Hd. eapply ordered_precedes; [done| |done]. eapply well_founded_is_sorted; [done| |done].
    unfold dependencies_of in Hd. destruct (ns !! n); [eauto|by apply not_elem_of_nil in Hd]. }
  eexists. split; [reflexivity|]. case_decide as Hlen.
  - assert (Hperm : sorted ≡ₚ elements (dom ns)).
    { apply submseteq_length_Permutation; [|rewrite Hlen, <-(size_dom (D:=gset str)); done].
      apply NoDup_submseteq; [done|]. intros n Hn. apply elem_of_elements, elem_of_dom. auto. }
    split_and!; [done..|]. intros n m _ Hm _ Hnot. destruct Hnot. eapply sorted_is_well_founded; [done|].
    rewrite Hperm. by apply elem_of_elements, elem_of_dom.
  - split_and!.
    + apply NoDup_Permutation; [|apply NoDup_elements|].
      * apply NoDup_app. split_and!; [done| |].
        -- intros n Hn [Hout _]%list_elem_of_filter. done.
        -- apply NoDup_filter. rewrite Hnode. apply NoDup_elements.
      * intros n. rewrite elem_of_app, list_elem_of_filter, Hnode, elem_of_elements, elem_of_dom.
        destruct (decide (n ∈ sorted)) as [Hin|]; naive_solver.
    + intros n d Hwf Hd. apply precedes_app. auto.
    + intros n m Hn Hm Hwf Hnot. apply precedes_parts.
      * eapply well_founded_is_sorted; eauto.
      * apply list_elem_of_filter. split; [|rewrite Hnode; by apply elem_of_elements, elem_of_dom].
        intros Hin. apply Hnot. by eapply sorted_is_well_founded.
Qed.
End kahn.

(** * The edges of a built graph *)

(** The nodes are [names]; [Out n d] holds when [n] lists [d] as a dependency,
    [In n d] when [d] lists [n] as a dependent. *)
Record represents (names : gset str) (ns : gmap str DependencyNode) (Out In : str → str → Prop) : Prop := {
  rep_dom : ∀ k, is_Some (ns !! k) ↔ k ∈ names;
  rep_node : ∀ k node, ns !! k = Some node → table_name node = k ∧ NoDup (depends_on node) ∧ NoDup (depended_by node);
  rep_out : ∀ n d, d ∈ dependencies_of ns n ↔ Out n d;
  rep_in : ∀ n d, n ∈ dependents_of ns d ↔ In n d;
}.

Lemma push_new_elem x y v : x ∈ push_new y v ↔ x ∈ v ∨ x = y.
Proof. unfold push_new. case_decide; [|rewrite elem_of_app, list_elem_of_singleton]; naive_solver. Qed.

Lemma push_new_NoDup y v : NoDup v → NoDup (push_new y v).
Proof.
  unfold push_new. case_decide; [done|]. intros Hv. apply NoDup_app. split_and!; [done| |apply NoDup_singleton].
  by intros x Hx ->%list_elem_of_singleton.
Qed.

Section represents.
Context (names : gset str).
Implicit Types (Out In S T : str → str → Prop) (ns : gmap str DependencyNode).

Lemma represents_iff ns Out In Out' In' :
  (∀ n d, Out n d ↔ Out' n d) → (∀ n d, In n d ↔ In' n d) →
  represents names ns Out In → represents names ns Out' In'.
Proof. intros HO HI [Hd Hn Ho Hi]. split; [done|done| |]; intros n d; [rewrite <-HO|rewrite <-HI]; auto. Qed.

Lemma represents_depends_on ns Out In from to :
  from ∈ names → represents names ns Out In →
  represents names (alter (add_depends_on to) from ns) (λ n d, Out n d ∨ (n = from ∧ d = to)) In.
Proof.
  intros Hfrom [Hd Hn Ho Hi]. split.
  - intros k. by rewrite lookup_alter_is_Some.
  - intros k node [(-> & x & Hx & ->)|[_ Hk]]%lookup_alter_Some; [|auto].
    apply Hn in Hx as (? & ? & ?). split_and!; [done|by apply push_new_NoDup|done].
  - intros n d. unfold dependencies_of. rewrite lookup_alter. case_decide as E.
    + subst n. apply Hd in Hfrom as [x Hx]. rewrite Hx. cbn. rewrite push_new_elem.
      rewrite <-Ho. unfold dependencies_of. rewrite Hx. cbn. naive_solver.
    + rewrite <-Ho. unfold dependencies_of. naive_solver.
  - intros n d. rewrite <-Hi. unfold dependents_of. rewrite lookup_alter. case_decide; subst; [|done].
    by destruct (ns !! d).
Qed.

Lemma represents_depended_by ns Out In from to :
  to ∈ names → represents names ns Out In →
  represents names (alter (add_depended_by from) to ns) Out (λ n d, In n d ∨ (n = from ∧ d = to)).
Proof.
  intros Hto [Hd Hn Ho Hi]. split.
  - intros k. by rewrite lookup_alter_is_Some.
  - intros k node [(-> & x & Hx & ->)|[_ Hk]]%lookup_alter_Some; [|auto].
    apply Hn in Hx as (? & ? & ?). split_and!; [done|done|by apply push_new_NoDup].
  - intros n d. rewrite <-Ho. unfold dependencies_of. rewrite lookup_alter. case_decide; subst; [|done].
    by destruct (ns !! n).
  - intros n d. unfold dependents_of. rewrite lookup_alter. case_decide as E.
    + subst d. apply Hd in Hto as [x Hx]. rewrite Hx. cbn. rewrite push_new_elem.
      rewrite <-Hi. unfold dependents_of. rewrite Hx. cbn. naive_solver.
    + rewrite <-Hi. unfold dependents_of. naive_solver.
Qed.

Lemma represents_add_edge ns Out In from to :
  from ∈ names → to ∈ names → represents names ns Out In →
  represents names (add_edge from ns to) (λ n d, Out n d ∨ (n = from ∧ d = to)) (λ n d, In n d ∨ (n = from ∧ d = to)).
Proof. intros. by apply represents_depended_by, represents_depends_on. Qed.

(** A loop adds what its rounds add. *)
Lemma represents_foldl {A} (f : gmap str DependencyNode → A → gmap str DependencyNode)
    (S T : A → str → str → Prop) (l : list A) ns Out In :
  (∀ ns Out In x, x ∈ l → represents names ns Out In →
     represents names (f ns x) (λ n d, Out n d ∨ S x n d) (λ n d, In n d ∨ T x n d)) →
  represents names ns Out In →
  represents names (foldl f ns l) (λ n d, Out n d ∨ ∃ x, x ∈ l ∧ S x n d) (λ n d, In n d ∨ ∃ x, x ∈ l ∧ T x n d).
Proof.
  revert ns Out In. induction l as [|y l IH]; intros ns Out In Hstep Hrep; cbn.
  - eapply represents_iff; [| |done]; intros n d; (split; [by left|]); intros [?|(x & Hx & _)];
      try done; by apply not_elem_of_nil in Hx.
  - eapply represents_iff; [| |apply IH; [|apply (Hstep _ _ _ y (list_elem_of_here _ _) Hrep)]].
    1,2: intros n d; setoid_rewrite elem_of_cons; naive_solver.
    intros ns' Out' In' x Hx. apply Hstep. by right.
Qed.

End represents.

Section phases.
Context `{Unicode} (details : list TableSchemaDetail) (tables : list TableInfo) (functions : list FunctionInfo).
Notation names := (all_names tables).

Definition foreign_key_refers (n d : str) : Prop :=
  d ∈ table_names tables ∧
  ∃ det fk, detail_map details !! n = Some det ∧ fk ∈ det_foreign_keys det ∧ fk_ref_table fk = d.
Definition view_refers (n d : str) : Prop :=
  d ∈ table_names tables ∧
  ∃ det ddl, detail_map details !! n = Some det ∧ det_ddl det = Some ddl ∧ mentions ddl d = true.
Definition trigger_refers (n d : str) : Prop :=
  d ∈ table_names tables ∧
  ∃ det trg stmt, detail_map details !! n = Some det ∧ trg ∈ det_triggers det ∧
    trg_statement trg = Some stmt ∧ mentions stmt d = true.
Definition function_refers (n d : str) : Prop :=
  d ∈ table_names tables ∧ ∃ f, function_by_name functions !! n = Some f ∧ mentions (fn_definition f) d = true.

(** What the source takes as a dependency of [n]. *)
Definition refers (n d : str) : Prop :=
  (n ∈ table_names tables ∧ foreign_key_refers n d) ∨ (n ∈ view_names tables ∧ view_refers n d) ∨
  (n ∈ names ∧ trigger_refers n d).

Lemma table_names_all : table_names tables ⊆ names.
Proof.
  intros x. unfold table_names, all_names. rewrite !elem_of_list_to_set, !list_elem_of_fmap.
  intros (t & -> & [_ Ht]%list_elem_of_filter). eauto.
Qed.
Lemma view_names_all : view_names tables ⊆ names.
Proof.
  intros x. unfold view_names, all_names. rewrite !elem_of_list_to_set, !list_elem_of_fmap.
  intros (t & -> & [_ Ht]%list_elem_of_filter). eauto.
Qed.

Lemma represents_empty : represents names (empty_nodes tables) (λ _ _, False) (λ _ _, False).
Proof.
  assert (Hl : ∀ k, empty_nodes tables !! k = if decide (k ∈ names) then Some (mkNode k [] []) else None).
  { intros k. unfold empty_nodes. case_decide as Hk.
    - apply lookup_set_to_map; [done|]. eauto.
    - apply eq_None_not_Some. intros [node Hn]. apply lookup_set_to_map in Hn as (y & Hy & ?); [|done]. by simplify_eq. }
  split.
  - intros k. rewrite Hl. case_decide; naive_solver.
  - intros k node. rewrite Hl. case_decide; [|done]. intros [= <-]. split_and!; [done|constructor..].
  - intros n d. unfold dependencies_of. rewrite Hl. case_decide; cbn; by rewrite elem_of_nil.
  - intros n d. unfold dependents_of. rewrite Hl. case_decide; cbn; by rewrite elem_of_nil.
Qed.

(** The references found in one text. *)
Lemma represents_text known ns Out In n sql :
  (∀ x, x ∈ known ↔ x ∈ table_names tables) → n ∈ names → represents names ns Out In →
  represents names (foldl (add_edge n) ns (extract_ddl_references sql known))
    (λ m d, Out m d ∨ (m = n ∧ d ∈ table_names tables ∧ mentions sql d = true))
    (λ m d, In m d ∨ (m = n ∧ d ∈ table_names tables ∧ mentions sql d = true)).
Proof.
  intros Hknown Hn Hrep.
  eapply represents_iff; [| |apply (represents_foldl names (add_edge n)
    (λ to m d, m = n ∧ d = to) (λ to m d, m = n ∧ d = to)); [|exact Hrep]].
  1,2: intros m d; unfold extract_ddl_references; setoid_rewrite list_elem_of_filter; setoid_rewrite Hknown; naive_solver.
  intros ns' Out' In' to Hto. apply represents_add_edge; [done|]. apply table_names_all, Hknown.
  by apply list_elem_of_filter in Hto as [_ ?].
Qed.

Lemma represents_foreign_keys ns Out In n :
  n ∈ names → represents names ns Out In →
  represents names (foreign_key_edges details tables ns n)
    (λ m d, Out m d ∨ (m = n ∧ foreign_key_refers n d)) (λ m d, In m d ∨ (m = n ∧ foreign_key_refers n d)).
Proof.
  intros Hn Hrep. unfold foreign_key_edges, foreign_key_refers.
  destruct (detail_map details !! n) as [det|] eqn:Edet.
  - eapply represents_iff; [| |apply (represents_foldl names _
      (λ fk m d, m = n ∧ d = fk_ref_table fk ∧ d ∈ table_names tables)
      (λ fk m d, m = n ∧ d = fk_ref_table fk ∧ d ∈ table_names tables)); [|exact Hrep]].
    1,2: intros m d; naive_solver.
    intros ns' Out' In' fk _ Hrep'. case_decide as Hfk.
    + eapply represents_iff; [| |apply represents_add_edge; [exact Hn|exact (table_names_all _ Hfk)|exact Hrep']];
        naive_solver.
    + eapply represents_iff; [| |exact Hrep']; naive_solver.
  - eapply represents_iff; [| |exact Hrep]; naive_solver.
Qed.

Lemma represents_view known ns Out In n :
  (∀ x, x ∈ known ↔ x ∈ table_names tables) → n ∈ names → represents names ns Out In →
  represents names (view_edges details known ns n)
    (λ m d, Out m d ∨ (m = n ∧ view_refers n d)) (λ m d, In m d ∨ (m = n ∧ view_refers n d)).
Proof.
  intros Hknown Hn Hrep. unfold view_edges, view_refers.
  destruct (detail_map details !! n) as [det|] eqn:Edet; [destruct (det_ddl det) as [ddl|] eqn:Eddl|].
  - eapply represents_iff; [| |apply (represents_text _ _ _ _ n ddl Hknown Hn Hrep)]; naive_solver.
  - eapply represents_iff; [| |exact Hrep]; naive_solver.
  - eapply represents_iff; [| |exact Hrep]; naive_solver.
Qed.

Lemma represents_triggers known ns Out In n :
  (∀ x, x ∈ known ↔ x ∈ table_names tables) → n ∈ names → represents names ns Out In →
  represents names (trigger_edges details known ns n)
    (λ m d, Out m d ∨ (m = n ∧ trigger_refers n d)) (λ m d, In m d ∨ (m = n ∧ trigger_refers n d)).
Proof.
  intros Hknown Hn Hrep. unfold trigger_edges, trigger_refers.
  destruct (detail_map details !! n) as [det|] eqn:Edet.
  - pose (S trg m d := m = n ∧ d ∈ table_names tables ∧
      ∃ stmt, trg_statement trg = Some stmt ∧ mentions stmt d = true).
    eapply represents_iff; [| |apply (represents_foldl names _ S S); [|exact Hrep]].
    1,2: intros m d; subst S; cbn; naive_solver.
    intros ns' Out' In' trg _ Hrep'. subst S; cbn. destruct (trg_statement trg) as [stmt|] eqn:Estmt.
    + eapply represents_iff; [| |apply (represents_text _ _ _ _ n stmt Hknown Hn Hrep')]; naive_solver.
    + eapply represents_iff; [| |exact Hrep']; naive_solver.
  - eapply represents_iff; [| |exact Hrep]; naive_solver.
Qed.

Lemma represents_function known ns Out In n :
  (∀ x, x ∈ known ↔ x ∈ table_names tables) → represents names ns Out In →
  represents names (function_edges functions known ns n)
    (λ m d, Out m d ∨ False) (λ m d, In m d ∨ (m = n ∧ function_refers n d)).
Proof.
  intros Hknown Hrep. unfold function_edges, function_refers.
  destruct (function_by_name functions !! n) as [f|] eqn:Ef.
  - eapply represents_iff; [| |apply (represents_foldl names (λ ns to, alter (add_depended_by n) to ns)
      (λ _ _ _, False) (λ to m d, m = n ∧ d = to)); [|exact Hrep]].
    + naive_solver.
    + intros m d. unfold extract_ddl_references. setoid_rewrite list_elem_of_filter. setoid_rewrite Hknown. naive_solver.
    + intros ns' Out' In' to [_ Hto]%list_elem_of_filter Hrep'.
      eapply represents_iff; [| |apply (represents_depended_by names ns' _ _ n to (table_names_all _ (proj1 (Hknown _) Hto)) Hrep')]; naive_solver.
  - eapply represents_iff; [| |exact Hrep]; naive_solver.
Qed.

(** The graph holds exactly the references of the schema. *)
Lemma build_nodes_represents o :
  orders_ok tables functions o →
  represents names (build_nodes details tables functions o) refers
    (λ n d, refers n d ∨ function_refers n d).
Proof.
  intros (Ht & Hv & Ha & Hf & _ & _).
  assert (Hknown : ∀ x, x ∈ by_table o ↔ x ∈ table_names tables) by (intros x; rewrite Ht; apply elem_of_elements).
  assert (Hviews : ∀ x, x ∈ by_view o ↔ x ∈ view_names tables) by (intros x; rewrite Hv; apply elem_of_elements).
  assert (Hnames : ∀ x, x ∈ by_name o ↔ x ∈ names) by (intros x; rewrite Ha; apply elem_of_elements).
  assert (Hfuns : ∀ x, x ∈ by_function o ↔ is_Some (function_by_name functions !! x))
    by (intros x; rewrite Hf, elem_of_elements; apply elem_of_dom).
  unfold build_nodes.
  pose proof (represents_foldl names (foreign_key_edges details tables)
    (λ x m d, m = x ∧ foreign_key_refers x d) (λ x m d, m = x ∧ foreign_key_refers x d) (by_table o) _ _ _
    (λ ns Out In x Hx, represents_foreign_keys ns Out In x (table_names_all x (proj1 (Hknown x) Hx)))
    represents_empty) as H1.
  pose proof (represents_foldl names (view_edges details (by_table o))
    (λ x m d, m = x ∧ view_refers x d) (λ x m d, m = x ∧ view_refers x d) (by_view o) _ _ _
    (λ ns Out In x Hx, represents_view (by_table o) ns Out In x Hknown (view_names_all x (proj1 (Hviews x) Hx))) H1) as H2.
  pose proof (represents_foldl names (trigger_edges details (by_table o))
    (λ x m d, m = x ∧ trigger_refers x d) (λ x m d, m = x ∧ trigger_refers x d) (by_name o) _ _ _
    (λ ns Out In x Hx, represents_triggers (by_table o) ns Out In x Hknown (proj1 (Hnames x) Hx)) H2) as H3.
  pose proof (represents_foldl names (function_edges functions (by_table o))
    (λ x m d, False) (λ x m d, m = x ∧ function_refers x d) (by_function o) _ _ _
    (λ ns Out In x Hx, represents_function (by_table o) ns Out In x Hknown) H3) as H4.
  clear H1 H2 H3. eapply represents_iff; [| |exact H4]; intros n d; unfold refers; cbn.
  - setoid_rewrite Hknown. setoid_rewrite Hviews. setoid_rewrite Hnames. naive_solver.
  - setoid_rewrite Hknown. setoid_rewrite Hviews. setoid_rewrite Hnames. setoid_rewrite Hfuns.
    assert (function_refers n d → is_Some (function_by_name functions !! n)) by (unfold function_refers; naive_solver).
    naive_solver.
Qed.

(** No function shares its name with a table or view. *)
Definition functions_apart : Prop := ∀ x, is_Some (function_by_name functions !! x) → x ∉ names.

Lemma build_nodes_consistent o :
  orders_ok tables functions o → functions_apart → consistent (build_nodes details tables functions o).
Proof.
  intros Ho Hap. destruct (build_nodes_represents o Ho) as [Hd Hn Hout Hin]. split.
  - intros k node Hk. destruct (Hn k node Hk) as (? & ? & ?). split_and!; [done..|].
    intros d Hdep. apply Hd. apply table_names_all.
    assert (Hr : refers k d) by (apply Hout; unfold dependencies_of; by rewrite Hk).
    unfold refers, foreign_key_refers, view_refers, trigger_refers in Hr. naive_solver.
  - intros n d Hs. rewrite Hin, Hout. split; [|by left]. intros [?|Hf]; [done|].
    destruct (Hap n); [unfold function_refers in Hf; naive_solver|by apply Hd].
Qed.
End phases.

(** * Properties *)

Lemma well_founded_refers `{Unicode} details tables functions o n :
  orders_ok tables functions o → Acc (λ d n, refers details tables n d) n →
  well_founded_node (build_nodes details tables functions o) n.
Proof.
  intros Ho Hacc. destruct (build_nodes_represents details tables functions o Ho) as [_ _ Hout _].
  induction Hacc as [n _ IH]. constructor. intros d Hd%Hout. by apply IH.
Qed.

Lemma refers_well_founded `{Unicode} details tables functions o n :
  orders_ok tables functions o → well_founded_node (build_nodes details tables functions o) n →
  Acc (λ d n, refers details tables n d) n.
Proof.
  intros Ho Hacc. destruct (build_nodes_represents details tables functions o Ho) as [_ _ Hout _].
  induction Hacc as [n _ IH]. constructor. intros d Hd%Hout. by apply IH.
Qed.

Lemma build_spec `{Unicode} details tables functions o :
  orders_ok tables functions o → functions_apart tables functions →
  ∃ g, build_with_functions details tables functions o = Ok g ∧
    topological_order g ≡ₚ elements (all_names tables) ∧
    (∀ n d, refers details tables n d → Acc (λ d n, refers details tables n d) n → precedes d n (topological_order g)) ∧
    (∀ n m, n ∈ all_names tables → m ∈ all_names tables →
       Acc (λ d n, refers details tables n d) n → ¬ Acc (λ d n, refers details tables n d) m →
       precedes n m (topological_order g)).
Proof.
  intros Ho Hap. pose proof (build_nodes_represents details tables functions o Ho) as [Hdom _ Hout _].
  pose proof (build_nodes_consistent details tables functions o Ho Hap) as Hcons.
  assert (Hnames : elements (dom (build_nodes details tables functions o)) = elements (all_names tables)).
  { f_equal. apply set_eq. intros k. rewrite elem_of_dom. apply Hdom. }
  pose proof Ho as (_ & _ & _ & _ & Hnode & Hdegree). rewrite <-Hnames in Hnode, Hdegree.
  destruct (topological_sort_spec _ Hcons o Hnode Hdegree) as (order & Hsort & Hperm & Hdeps & Hcyc).
  exists (mkGraph (build_nodes details tables functions o) order).
  unfold build_with_functions. rewrite Hsort. cbn. split_and!; [done|by rewrite <-Hnames| |].
  - intros n d Hr Hacc. apply Hdeps; [by apply well_founded_refers|by apply Hout].
  - intros n m Hn Hm Hacc Hnot. apply Hcyc; [by apply Hdom|by apply Hdom|by apply well_founded_refers|].
    intros Hwf. apply Hnot. by eapply refers_well_founded.
Qed.

(** C21: Whatever the order in which the hash maps are walked, and as long as no function has the
    name of a table, the graph is built without overflow and Kahn's loop ends; the order lists every
    table and view once, everything a table that is not behind a cycle refers to comes before it,
    the reverse holds for removal, and what is caught in or behind a cycle comes last. *)
Theorem creation_order_follows_references `{Unicode} details tables functions o :
  orders_ok tables functions o → functions_apart tables functions →
  ∃ g, build_with_functions details tables functions o = Ok g ∧
    build_order g ≡ₚ elements (all_names tables) ∧
    (∀ n d, refers details tables n d → Acc (λ d n, refers details tables n d) n →
       precedes d n (build_order g) ∧ precedes n d (drop_order g)) ∧
    (∀ n m, n ∈ all_names tables → m ∈ all_names tables →
       Acc (λ d n, refers details tables n d) n → ¬ Acc (λ d n, refers details tables n d) m →
       precedes n m (build_order g)).
Proof.
  intros Ho Hap. destruct (build_spec details tables functions o Ho Hap) as (g & Hg & Hp & Hdeps & Hcyc).
  exists g. split_and!; [done..| |done]. intros n d Hr Hacc. split; [by apply Hdeps|by apply precedes_reverse, Hdeps].
Qed.

(** An order with a line item that references it, a view on both,
    and the walks of one run. *)
Definition sample_tables : list TableInfo :=
  [mkTable (lit "items") (lit "TABLE") None None None; mkTable (lit "orders") (lit "TABLE") None None None;
   mkTable (lit "recent") (lit "VIEW") None None None].
Definition sample_details : list TableSchemaDetail :=
  [mkDetail (lit "items") [] [] [mkForeignKey (lit "fk") (lit "order_id") None (lit "orders") (lit "id") None None] [] None;
   mkDetail (lit "recent") [] [] [] [] (Some (lit "SELECT 1 FROM items JOIN orders"))].
Definition sample_orders : HashOrders :=
  mkOrders (elements (table_names sample_tables)) (elements (view_names sample_tables))
    (elements (all_names sample_tables)) [] (elements (all_names sample_tables)) (elements (all_names sample_tables)).

Lemma sample_orders_ok `{Unicode} : orders_ok sample_tables [] sample_orders.
Proof. split_and!; reflexivity. Qed.

Lemma creation_order_follows_references_witness :
  match @build ascii_only sample_details sample_tables sample_orders with
  | Ok g => build_order g = [lit "orders"; lit "items"; lit "recent"]
  | Err _ => False
  end ∧ ∃ g, @build_with_functions ascii_only sample_details sample_tables [] sample_orders = Ok g ∧
    build_order g ≡ₚ elements (all_names sample_tables).
Proof.
  split; [vm_compute; reflexivity|].
  destruct (@creation_order_follows_references ascii_only sample_details sample_tables [] sample_orders
              (@sample_orders_ok ascii_only)) as (g & Hg & Hp & _).
  - intros x [f Hx]. discriminate Hx.
  - exists g. split; [exact Hg|exact Hp].
Defined.

(** A table with a foreign key to itself depends on itself, so it and every
    table that references it are left to the unordered end of the list: here
    the child is created before its parent. *)
Definition tree_tables : list TableInfo :=
  [mkTable (lit "node") (lit "TABLE") None None None; mkTable (lit "leaf") (lit "TABLE") None None None].
Definition tree_details : list TableSchemaDetail :=
  [mkDetail (lit "node") [] [] [mkForeignKey (lit "p") (lit "parent") None (lit "node") (lit "id") None None] [] None;
   mkDetail (lit "leaf") [] [] [mkForeignKey (lit "n") (lit "node") None (lit "node") (lit "id") None None] [] None].
Definition tree_orders (names : list str) : HashOrders := mkOrders names [] names [] names names.

Lemma self_reference_loses_the_order :
  @build ascii_only tree_details tree_tables (tree_orders [lit "leaf"; lit "node"]) =
    Ok (mkGraph (@build_nodes ascii_only tree_details tree_tables [] (tree_orders [lit "leaf"; lit "node"]))
                [lit "leaf"; lit "node"]).
Proof. vm_compute. reflexivity. Qed.

(** A function that has the name of a table it mentions is taken for a
    dependent of the table, whose degree is then decremented below zero. *)
Lemma function_named_like_table_overflows :
  @build_with_functions ascii_only [] [mkTable (lit "t") (lit "TABLE") None None None]
    [mkFunction (lit "t") [] [] (lit "SELECT 1 FROM t") []]
    (mkOrders [lit "t"] [] [lit "t"] [lit "t"] [lit "t"] [lit "t"]) = Err Overflow.
Proof. vm_compute. reflexivity. Qed.

(** The text scan does not look at where a name ends. *)
Lemma mentions_by_prefix : @mentions ascii_only (lit "SELECT * FROM users") (lit "user") = true.
Proof. vm_compute. reflexivity. Qed.

(** ** The coverage report *)
Definition at_level (l : N) (e : UncoveredEdge) : Prop := level e = l.
#[export] Instance at_level_dec l e : Decision (at_level l e).
Proof. unfold at_level. apply _. Defined.

Lemma count_sum (diffed : gset str) (a : str) (l : list str) (c : N * N) :
  foldl (λ c dep, count diffed c a dep) c l =
    (c.1 + N.of_nat (length (filter (λ b, both_covered diffed a b = true) l)), c.2 + N.of_nat (length l))%N.
Proof.
  revert c. induction l as [|b l IH]; intros [x y]; cbn [foldl length fst snd].
  - rewrite filter_nil. cbn. f_equal; lia.
  - rewrite IH, filter_cons. unfold count. cbn [fst snd].
    destruct (both_covered diffed a b); [rewrite decide_True by done|rewrite decide_False by done]; cbn; f_equal; lia.
Qed.

Lemma uncovered_length (diffed : gset str) node lv (l : list str) :
  length (l ≫= uncovered_edge diffed node lv) + length (filter (λ b, both_covered diffed (table_name node) b = true) l)
    = length l.
Proof.
  induction l as [|b l IH]; [done|]. cbn [mbind list_bind]. change (list_bind _ _ (uncovered_edge diffed node lv) l) with (l ≫= uncovered_edge diffed node lv).
  rewrite length_app, filter_cons. unfold uncovered_edge at 1.
  destruct (both_covered diffed (table_name node) b); [rewrite decide_True by done|rewrite decide_False by done]; cbn; lia.
Qed.

Lemma uncovered_level (diffed : gset str) node lv (l : list str) e :
  e ∈ l ≫= uncovered_edge diffed node lv → level e = lv.
Proof.
  intros (b & He & _)%list_elem_of_bind. unfold uncovered_edge in He. case_match; [by apply not_elem_of_nil in He|].
  by apply list_elem_of_singleton in He as ->.
Qed.

Section coverage_counts.
Context (order : list str) (ns : gmap str DependencyNode) (diffed : gset str).

(** The tables reached from a node over one other table. *)
Definition grand_dependencies (node : DependencyNode) : list str :=
  depends_on node ≫= λ indirect, default [] (depends_on <$> ns !! indirect).

Lemma uncovered_of_node_second node :
  uncovered_of_node ns diffed node =
    (depends_on node ≫= uncovered_edge diffed node 1) ++ (grand_dependencies node ≫= uncovered_edge diffed node 2).
Proof.
  unfold uncovered_of_node, grand_dependencies. f_equal.
  induction (depends_on node) as [|x l IH]; [done|]. cbn. rewrite bind_app. f_equal; [|exact IH]. by destruct (ns !! x).
Qed.

Lemma level_one node :
  filter (at_level 1) (uncovered_of_node ns diffed node) = depends_on node ≫= uncovered_edge diffed node 1.
Proof.
  rewrite uncovered_of_node_second, filter_app, filter_all, filter_none, app_nil_r; [done|..].
  - intros e He%uncovered_level. unfold at_level. by rewrite He.
  - intros e He%uncovered_level. done.
Qed.

Definition from_diffed (e : UncoveredEdge) : Prop := level e = 2%N ∧ from_table e ∈ diffed.
#[local] Instance from_diffed_dec e : Decision (from_diffed e).
Proof. unfold from_diffed. apply _. Defined.

Lemma level_two node :
  filter from_diffed (uncovered_of_node ns diffed node) =
    if bool_decide (table_name node ∈ diffed) then grand_dependencies node ≫= uncovered_edge diffed node 2 else [].
Proof.
  assert (Hfrom : ∀ l lv e, e ∈ l ≫= uncovered_edge diffed node lv → from_table e = table_name node).
  { intros l lv e (b & He & _)%list_elem_of_bind. unfold uncovered_edge in He. case_match; [by apply not_elem_of_nil in He|].
    by apply list_elem_of_singleton in He as ->. }
  rewrite uncovered_of_node_second, filter_app, filter_none.
  2: { intros e He%uncovered_level [Hl _]. by rewrite Hl in He. }
  cbn. case_bool_decide as Hin.
  - apply filter_all. intros e He. split; [by eapply uncovered_level|]. by rewrite (Hfrom _ _ _ He).
  - apply filter_none. intros e He [_ Hd]. by rewrite (Hfrom _ _ _ He) in Hd.
Qed.

Lemma count_grand node (c : N * N) :
  foldl (λ c indirect, match ns !! indirect with
                       | Some inner => foldl (λ c grand, count diffed c (table_name node) grand) c (depends_on inner)
                       | None => c
                       end) c (depends_on node) =
  foldl (λ c grand, count diffed c (table_name node) grand) c (grand_dependencies node).
Proof.
  unfold grand_dependencies. generalize (depends_on node) as l. intros l. revert c.
  induction l as [|x l IH]; intros c; [done|]. cbn. rewrite IH, foldl_app. by destruct (ns !! x).
Qed.

Lemma count_with_uncovered node lv (l : list str) (c : N * N) :
  let c' := foldl (λ c b, count diffed c (table_name node) b) c l in
  (c'.1 + N.of_nat (length (l ≫= uncovered_edge diffed node lv)) + c.2 = c'.2 + c.1)%N.
Proof. cbn. rewrite count_sum. pose proof (uncovered_length diffed node lv l). cbn. lia. Qed.

(** The covered edges and the ones listed as uncovered are all edges: on the
    first level for every table, on the second for the compared tables. *)
Theorem coverage_counts_are_exact :
  ((count_edges order ns diffed).1 + N.of_nat (length (filter (at_level 1) (collect_uncovered_edges order ns diffed)))
     = (count_edges order ns diffed).2)%N ∧
  ((count_transitive_edges order ns diffed).1
     + N.of_nat (length (filter from_diffed (collect_uncovered_edges order ns diffed)))
     = (count_transitive_edges order ns diffed).2)%N.
Proof.
  unfold count_edges, count_transitive_edges, collect_uncovered_edges.
  generalize (node_values order ns) as l. intros l. induction l as [|node l IH] using rev_ind; [done|].
  rewrite !foldl_app, !bind_app, !filter_app, !length_app. cbn. rewrite !app_nil_r, level_one, level_two, count_grand.
  destruct IH as [IH1 IH2]. split.
  - pose proof (count_with_uncovered node 1 (depends_on node)
      (foldl (λ c node, foldl (λ c dep, count diffed c (table_name node) dep) c (depends_on node)) (0, 0)%N l)) as Hc.
    cbn in Hc. lia.
  - case_bool_decide; [|cbn; lia].
    match goal with |- context [foldl _ ?c (grand_dependencies node)] =>
      pose proof (count_with_uncovered node 2 (grand_dependencies node) c) as Hc end.
    cbn in Hc. lia.
Qed.
End coverage_counts.

(** The second-level score leaves out the tables that were not compared, the
    list of uncovered edges does not: nothing is counted and the score is 1,
    yet an uncovered edge of level 2 is reported. *)
Lemma second_level_report_disagrees :
  let ns := list_to_map [(lit "a", mkNode (lit "a") [lit "b"] []); (lit "b", mkNode (lit "b") [lit "c"] [lit "a"]);
                         (lit "c", mkNode (lit "c") [] [lit "b"])] in
  count_transitive_edges [lit "a"; lit "b"; lit "c"] ns {[lit "b"; lit "c"]} = (0, 0)%N ∧
  mkUncovered (lit "a") (lit "c") 2 ∈ collect_uncovered_edges [lit "a"; lit "b"; lit "c"] ns {[lit "b"; lit "c"]}.
Proof. split; [vm_compute; reflexivity|]. vm_compute. right. left. Qed.
