(* ===== verification/MysqlView.v ===== *)
(** The comparison of MySQL view definitions
    ([crates/dbx-core/src/schema_diff.rs], [mysql_view_definitions_differ] and
    the functions below it): the definer is cut out, the schema qualifier of
    the view is replaced by a placeholder and white space is reduced to what
    separates tokens.

    The source walks bytes; all bytes it tests for are ASCII, so the walk over
    characters meets the same tokens.  A cursor is the text that is left. *)
From S2P Require Import Prelude Identifiers.
Local Open Scope dbx_scope.

(** [sql_dialect::descriptor::DialectKind] *)
Inductive DialectKind :=
| Mysql | Postgres | Sqlite | DuckDb | SqlServer | Oracle | H2 | ClickHouse | ManticoreSearch | Informix
| Questdb | Unsupported.
#[export] Instance dialect_kind_eq_dec : EqDecision DialectKind.
Proof. solve_decision. Defined.

Definition one_of (cs : str) (c : char) : bool := bool_decide (c ∈ cs).

Definition mysql_view_symbol (c : char) : bool := one_of (lit "()[]{},.;+-*/%<>=!|&^~?:@") c.

Definition skip_ascii_whitespace (s : str) : str := drop_while is_ascii_whitespace s.

(** [mysql_quoted_token_end], from behind the opening quote: the rest of the
    token and the text after it. *)
Fixpoint quoted_token (quote : char) (s : str) : str * str :=
  match s with
  | [] => ([], [])
  | c :: r =>
      if decide (c = BACKSLASH ∧ quote ≠ BACKTICK) then
        match r with
        | [] => ([c], [])
        | d :: r' => let '(tok, rest) := quoted_token quote r' in (c :: d :: tok, rest)
        end
      else if decide (c = quote) then
        match r with
        | d :: r' =>
            if decide (d = quote) then let '(tok, rest) := quoted_token quote r' in (c :: d :: tok, rest)
            else ([c], r)
        | [] => ([c], [])
        end
      else let '(tok, rest) := quoted_token quote r in (c :: tok, rest)
  end.

Definition is_quote (c : char) : bool := one_of [SQUOTE; DQUOTE; BACKTICK] c.
Definition starts_word (c : char) : bool := is_ascii_alphabetic c || bool_decide (c = chr "_").
Definition in_word (c : char) : bool := is_ascii_alphanumeric c || one_of (lit "_$") c.

(** The text before the first word [keyword] that starts among the next
    [limit] characters, and the text from it. *)
Fixpoint find_header_keyword (fuel : nat) (keyword : str) (limit : nat) (before s : str) : option (str * str) :=
  match fuel, limit, s with
  | 0, _, _ | _, 0, _ | _, _, [] => None
  | S fuel', S limit', c :: r =>
      if is_quote c then
        let '(tok, rest) := quoted_token c r in
        find_header_keyword fuel' keyword (limit' - length tok) (before ++ c :: tok) rest
      else if starts_word c then
        let more := take_while in_word (take limit' r) in
        if eq_ignore_ascii_case (c :: more) keyword then Some (before, s)
        else find_header_keyword fuel' keyword (limit' - length more) (before ++ c :: more) (drop (length more) r)
      else find_header_keyword fuel' keyword limit' (before ++ [c]) r
  end.
Definition find_mysql_header_keyword (ddl keyword : str) (limit : nat) : option (str * str) :=
  find_header_keyword (length ddl) keyword limit [] ddl.

(** [identifier.strip_prefix('`')..strip_suffix('`')..replace] *)
Definition strip_suffix (p s : str) : option str := reverse <$> strip_prefix (reverse p) (reverse s).
Definition decode_mysql_quoted_identifier (identifier : str) : str :=
  replace_str [BACKTICK; BACKTICK] [BACKTICK]
    (default identifier (strip_prefix [BACKTICK] identifier ≫= strip_suffix [BACKTICK])).

Definition parse_mysql_identifier (s : str) : option (str * str) :=
  match s with
  | c :: r =>
      if decide (c = BACKTICK) then
        let '(tok, rest) := quoted_token BACKTICK r in Some (decode_mysql_quoted_identifier (c :: tok), rest)
      else
        let name := take_while (λ c, negb (is_ascii_whitespace c || mysql_view_symbol c)) s in
        match name with [] => None | _ => Some (name, drop (length name) s) end
  | [] => None
  end.

(** The token and the text after it. *)
Definition parse_mysql_definer_principal (s : str) : option (str * str) :=
  match s with
  | c :: r =>
      if is_quote c then let '(tok, rest) := quoted_token c r in Some (c :: tok, rest)
      else
        let tok := take_while (λ c, negb (is_ascii_whitespace c || one_of (lit "@()") c)) s in
        match tok with [] => None | _ => Some (tok, drop (length tok) s) end
  | [] => None
  end.

(** What is left of the text after the account [user@host] or [CURRENT_USER],
    with or without parentheses. *)
Definition after_definer (s : str) : option str :=
  match parse_mysql_definer_principal s with
  | None => None
  | Some (tok, rest) =>
      let rest' := skip_ascii_whitespace rest in
      match rest' with
      | c :: r =>
          if decide (c = chr "@") then snd <$> parse_mysql_definer_principal (skip_ascii_whitespace r)
          else if eq_ignore_ascii_case (tok ++ take_while is_ascii_whitespace rest) (lit "CURRENT_USER") then
            Some (if decide (c = chr "(") then
                    match skip_ascii_whitespace r with
                    | d :: r' => if decide (d = chr ")") then r' else rest'
                    | [] => rest'
                    end
                  else rest')
          else None
      | [] => if eq_ignore_ascii_case (tok ++ take_while is_ascii_whitespace rest) (lit "CURRENT_USER")
              then Some [] else None
      end
  end.

Definition strip_mysql_view_definer (ddl : str) : str :=
  default ddl
    ('(header, _) ← find_mysql_header_keyword ddl (lit "VIEW") (length ddl);
     '(before, at_definer) ← find_mysql_header_keyword ddl (lit "DEFINER") (length header);
     match skip_ascii_whitespace (drop 7 at_definer) with
     | c :: r => if decide (c = chr "=") then
                   rest ← after_definer (skip_ascii_whitespace r); Some (before ++ skip_ascii_whitespace rest)
                 else None
     | [] => None
     end).

Definition mysql_view_schema (ddl : str) : option str :=
  '(_, at_view) ← find_mysql_header_keyword ddl (lit "VIEW") (length ddl);
  '(identifier, rest) ← parse_mysql_identifier (skip_ascii_whitespace (drop 4 at_view));
  match skip_ascii_whitespace rest with
  | c :: _ => if decide (c = chr ".") then Some identifier else None
  | [] => None
  end.

(** ** Tokens *)
Inductive MysqlViewTokenKind := Atom | Symbol.
#[export] Instance token_kind_eq_dec : EqDecision MysqlViewTokenKind.
Proof. solve_decision. Defined.

Definition SCHEMA_PLACEHOLDER : str := [BACKTICK] ++ lit "__dbx_schema__" ++ [BACKTICK].

(** [ddl[index..].find('\n')], else the end *)
Definition line_rest (s : str) : str * str :=
  let l := take_while (λ c, negb (bool_decide (c = NL))) s in (l, drop (length l) s).

(** The token at the cursor as it is written to the result, its kind, and the
    text after it. *)
Definition next_token (schema : option str) (c : char) (r : str) : str * MysqlViewTokenKind * str :=
  let s := c :: r in
  if one_of [SQUOTE; DQUOTE] c then
    let '(tok, rest) := quoted_token c r in (c :: tok, Atom, rest)
  else if decide (c = BACKTICK) then
    let '(tok, rest) := quoted_token c r in
    if bool_decide (schema = Some (decode_mysql_quoted_identifier (c :: tok)))
       && starts_with (lit ".") (trim_start rest)
    then (SCHEMA_PLACEHOLDER, Atom, rest) else (c :: tok, Atom, rest)
  else if decide (c = chr "#") then let '(l, rest) := line_rest s in (l, Atom, rest)
  else if bool_decide (c = chr "-") && match r with d :: e :: _ => bool_decide (d = chr "-") && is_ascii_whitespace e | _ => false end
  then let '(l, rest) := line_rest s in (l, Atom, rest)
  else if bool_decide (c = chr "/") && starts_with (lit "*") r then
    match split_once (lit "*/") (drop 1 r) with
    | Some (body, rest) => (lit "/*" ++ body ++ lit "*/", Atom, rest)
    | None => (s, Atom, [])
    end
  else if mysql_view_symbol c then ([c], Symbol, r)
  else
    let more := take_while (λ c, negb (is_ascii_whitespace c || one_of [SQUOTE; DQUOTE; BACKTICK; chr "#"] c
                                       || mysql_view_symbol c)) r in
    (c :: more, Atom, drop (length more) r).

(** The loop; [previous] and [pending_whitespace] are the locals. *)
Fixpoint normalize_tokens (fuel : nat) (schema : option str) (previous : option MysqlViewTokenKind)
    (pending_whitespace : bool) (s : str) : str :=
  match fuel, s with
  | 0, _ | _, [] => []
  | S fuel', c :: r =>
      if is_ascii_whitespace c then normalize_tokens fuel' schema previous true r
      else
        let '(text, kind, rest) := next_token schema c r in
        (if pending_whitespace && bool_decide (previous = Some kind) then [32%N] else []) ++ text ++
        normalize_tokens fuel' schema (Some kind) false rest
  end.

Definition normalize_mysql_view_ddl (ddl : str) : str :=
  let ddl := strip_mysql_view_definer ddl in
  normalize_tokens (length ddl) (mysql_view_schema ddl) None false ddl.

Definition mysql_view_definitions_differ (source_ddl target_ddl : str) (source_dialect target_dialect : option DialectKind)
  : bool :=
  if bool_decide (source_dialect ≠ Some Mysql) || bool_decide (target_dialect ≠ Some Mysql) then false
  else bool_decide (normalize_mysql_view_ddl source_ddl ≠ normalize_mysql_view_ddl target_ddl).

(** * The definer does not take part in the comparison *)
Section header.
Context (kw : str).

Lemma take_while_length_le (f : char → bool) s : length (take_while f s) ≤ length s.
Proof. induction s as [|c s IH]; cbn; [lia|]. destruct (f c); cbn; lia. Qed.

Lemma quoted_token_length q s : length (quoted_token q s).1 + length (quoted_token q s).2 = length s.
Proof.
  remember (length s) as n eqn:Hn. revert s Hn. induction (lt_wf n) as [n _ IH]. intros [|c r] ->; [done|].
  cbn. case_decide; [|case_decide].
  - destruct r as [|d r']; [done|]. specialize (IH (length r') ltac:(cbn; lia) r' eq_refl).
    destruct (quoted_token q r'). cbn in *. lia.
  - destruct r as [|d r']; [done|]. case_decide; [|done]. specialize (IH (length r') ltac:(cbn; lia) r' eq_refl).
    destruct (quoted_token q r'). cbn in *. lia.
  - specialize (IH (length r) ltac:(cbn; lia) r eq_refl). destruct (quoted_token q r). cbn in *. lia.
Qed.

(** Any fuel that covers the text gives the same result. *)
Lemma find_fuel f1 f2 limit before s : length s ≤ f1 → length s ≤ f2 →
  find_header_keyword f1 kw limit before s = find_header_keyword f2 kw limit before s.
Proof.
  revert f2 limit before s. induction f1 as [|f1 IH]; intros f2 limit before [|c r] H1 H2; cbn in H1; try lia.
  - by destruct f2, limit.
  - by destruct f2, limit.
  - destruct f2 as [|f2]; cbn in H2; [lia|]. destruct limit as [|limit]; [done|]. cbn.
    destruct (is_quote c).
    + pose proof (quoted_token_length c r). destruct (quoted_token c r) as [tok rest]. cbn in *. apply IH; lia.
    + destruct (starts_word c); [|apply IH; lia]. case_match; [done|].
      apply IH; rewrite length_drop; lia.
Qed.

(** A quoted name is passed over. *)
Lemma find_quoted fuel limit before q tok rest :
  is_quote q = true → quoted_token q (tok ++ rest) = (tok, rest) → S (length tok + length rest) ≤ fuel →
  find_header_keyword fuel kw (S (length tok + limit)) before (q :: tok ++ rest) =
  find_header_keyword (length rest) kw limit (before ++ q :: tok) rest.
Proof.
  intros Hq Htok Hfuel. destruct fuel as [|fuel]; [lia|]. cbn. rewrite Hq, Htok.
  replace (length tok + limit - length tok) with limit by lia. apply find_fuel; lia.
Qed.

Definition plain (s : str) : bool := forallb (λ c, negb (is_quote c)) s.
Definition word_ends (s : str) : bool := match last s with Some c => negb (in_word c) | None => true end.

Lemma word_ends_cons c s : s ≠ [] → word_ends (c :: s) = word_ends s.
Proof. destruct s; [done|]. intros _. unfold word_ends. by rewrite last_cons_cons. Qed.

(** A word of [p] ends within [p]. *)
Lemma take_while_within c p s limit : plain p = true → word_ends (c :: p) = true → in_word c = true →
  take_while in_word (take (length p + limit) (p ++ s)) = take_while in_word p ∧
  drop (length (take_while in_word p)) p ≠ [] ∧
  word_ends (drop (length (take_while in_word p)) p) = true ∧ plain (drop (length (take_while in_word p)) p) = true.
Proof.
  revert c. induction p as [|d p IH]; intros c Hp Hend Hc.
  - unfold word_ends in Hend. cbn in Hend. by rewrite Hc in Hend.
  - rewrite word_ends_cons in Hend by done. unfold plain in Hp. cbn [forallb] in Hp. apply andb_prop in Hp as [Hd Hp].
    cbn. destruct (in_word d) eqn:Ed; cbn.
    + destruct (IH d Hp Hend Ed) as (-> & ? & ? & ?). done.
    + split_and!; [done|done|done|]. unfold plain. cbn. by rewrite Hd.
Qed.

Lemma drop_app_prefix (n : nat) (p s : str) : n ≤ length p → drop n (p ++ s) = drop n p ++ s.
Proof. intros Hn. rewrite drop_app. replace (n - length p) with 0 by lia. done. Qed.

Lemma starts_word_in_word c : starts_word c = true → in_word c = true.
Proof.
  unfold starts_word, in_word, is_ascii_alphanumeric. rewrite !orb_true_iff. intros [->|Hc]; [tauto|].
  apply bool_decide_eq_true in Hc as ->. by right.
Qed.

(** A piece of text without quotes that does not end inside a word is
    searched on its own. *)
Lemma find_app n fuel p s limit before :
  length p ≤ n → plain p = true → word_ends p = true → length p + length s ≤ fuel →
  find_header_keyword fuel kw (length p + limit) before (p ++ s) =
  match find_header_keyword n kw (length p) before p with
  | Some (b, r) => Some (b, r ++ s)
  | None => find_header_keyword (length s) kw limit (before ++ p) s
  end.
Proof.
  revert fuel p before. induction n as [|n IH]; intros fuel [|c p] before Hn Hp Hend Hfuel; try (cbn in Hn; lia).
  - cbn [app length]. rewrite app_nil_r. apply find_fuel; [done|lia].
  - cbn [app length]. rewrite app_nil_r. apply find_fuel; [done|lia].
  - destruct fuel as [|fuel]; [cbn in Hfuel; lia|]. pose proof Hp as Hp'. unfold plain in Hp. cbn [forallb] in Hp.
    apply andb_prop in Hp as [Hc Hp]. fold (plain p) in Hp. apply negb_true_iff in Hc.
    cbn [length app] in *. cbn. rewrite Hc. destruct (starts_word c) eqn:Ec.
    + destruct (take_while_within c p s limit Hp Hend (starts_word_in_word c Ec)) as (Ht & Hne & He & Hpl).
      rewrite Ht. pose proof (proj1 (take_while_within c p [] 0 Hp Hend (starts_word_in_word c Ec))) as Ht0.
      rewrite Nat.add_0_r, app_nil_r in Ht0. rewrite Ht0.
      destruct (eq_ignore_ascii_case (c :: take_while in_word p) kw); [done|].
      pose proof (take_while_length_le in_word p) as Hle.
      rewrite drop_app_prefix by done.
      replace (length p + limit - length (take_while in_word p))
        with (length (drop (length (take_while in_word p)) p) + limit) by (rewrite length_drop; lia).
      rewrite IH; [|rewrite length_drop; lia|done|done|rewrite length_drop; lia].
      rewrite length_drop. case_match; [done|]. rewrite <-app_assoc. cbn. do 3 f_equal.
      rewrite <-(take_drop (length (take_while in_word p)) p) at 3. f_equal.
      clear. induction p as [|d p IH]; cbn; [done|]. destruct (in_word d); cbn; [by f_equal|done].
    + destruct p as [|d p].
      * destruct n; cbn; apply find_fuel; cbn in Hfuel; lia.
      * rewrite IH; [|cbn in *; lia|done|by rewrite word_ends_cons in Hend|lia].
        case_match; [done|]. by rewrite <-app_assoc.
Qed.
End header.

(** A name as MySQL prints it: in backticks, with its backticks doubled. *)
Definition quoted_name (name : str) : str :=
  BACKTICK :: replace_str [BACKTICK] [BACKTICK; BACKTICK] name ++ [BACKTICK].

Lemma double_backticks c name :
  replace_str [BACKTICK] [BACKTICK; BACKTICK] (c :: name) =
    (if decide (c = BACKTICK) then [BACKTICK; BACKTICK] else [c]) ++ replace_str [BACKTICK] [BACKTICK; BACKTICK] name.
Proof.
  assert (Hs : starts_with [BACKTICK] (c :: name) = bool_decide (c = BACKTICK)).
  { unfold starts_with. cbn. destruct (decide (BACKTICK = c)) as [<-|Hc]; [done|].
    rewrite !bool_decide_eq_false_2; [done|congruence|by intros [? ?]]. }
  unfold replace_str. cbn [replace_from length]. rewrite Hs. case_bool_decide as E;
    [by rewrite decide_True|by rewrite decide_False].
Qed.

Lemma quoted_name_token name rest :
  match rest with [] => True | c :: _ => c ≠ BACKTICK end →
  quoted_token BACKTICK ((replace_str [BACKTICK] [BACKTICK; BACKTICK] name ++ [BACKTICK]) ++ rest) =
    (replace_str [BACKTICK] [BACKTICK; BACKTICK] name ++ [BACKTICK], rest).
Proof.
  intros Hrest. induction name as [|c name IH].
  - destruct rest as [|d rest]; [done|]. cbn [replace_str replace_from app quoted_token].
    rewrite decide_False by (intros [_ Hq]; by apply Hq). rewrite decide_True by done. by rewrite decide_False.
  - rewrite double_backticks. destruct (decide (c = BACKTICK)) as [->|Hc].
    + cbn [app quoted_token]. rewrite decide_False by (intros [_ Hq]; by apply Hq). rewrite !decide_True by done. by rewrite IH.
    + cbn [app quoted_token]. rewrite decide_False by (intros [_ Hq]; by apply Hq). rewrite decide_False by done. by rewrite IH.
Qed.

(** The statement [SHOW CREATE VIEW] prints. *)
Definition definer_prefix : str := lit "CREATE ALGORITHM=UNDEFINED DEFINER=".
Definition security_clause : str := lit " SQL SECURITY DEFINER ".
Definition defined_by (user host rest : str) : str :=
  definer_prefix ++ quoted_name user ++ lit "@" ++ quoted_name host ++ security_clause ++ lit "VIEW " ++ rest.

(** The steps of a search over such a statement. *)
Lemma find_name kw name limit before rest :
  match rest with [] => True | c :: _ => c ≠ BACKTICK end →
  find_header_keyword (length (quoted_name name ++ rest)) kw (length (quoted_name name) + limit) before (quoted_name name ++ rest) =
  find_header_keyword (length rest) kw limit (before ++ quoted_name name) rest.
Proof.
  intros Hrest. unfold quoted_name. cbn [length app]. apply find_quoted; [done|by apply quoted_name_token|].
  rewrite !length_app. lia.
Qed.

Lemma find_piece kw p limit before s :
  plain p = true → word_ends p = true →
  find_header_keyword (length (p ++ s)) kw (length p + limit) before (p ++ s) =
  match find_header_keyword (length p) kw (length p) [] p with
  | Some (b, r) => Some (before ++ b, r ++ s)
  | None => find_header_keyword (length s) kw limit (before ++ p) s
  end.
Proof.
  intros Hp He. rewrite (find_app kw (length p)) by (try done; rewrite length_app; lia).
  assert (Hb : ∀ n l b1 b2 t, find_header_keyword n kw l (b1 ++ b2) t =
     match find_header_keyword n kw l b2 t with Some (b, r) => Some (b1 ++ b, r) | None => None end).
  { clear. induction n as [|n IH]; intros l b1 b2 [|c r]; destruct l as [|l]; cbn; try done.
    destruct (is_quote c); [destruct (quoted_token c r); rewrite <-app_assoc; apply IH|].
    destruct (starts_word c); [|rewrite <-app_assoc; apply IH]. case_match; [done|]. rewrite <-app_assoc. apply IH. }
  rewrite <-(app_nil_r before) at 1. rewrite Hb. by destruct (find_header_keyword _ _ _ [] p) as [[? ?]|].
Qed.

Lemma find_after_account kw user host limit rest :
  find_header_keyword (length definer_prefix) kw (length definer_prefix) [] definer_prefix = None →
  find_header_keyword 1 kw 1 [] (lit "@") = None →
  find_header_keyword (length (definer_prefix ++ quoted_name user ++ lit "@" ++ quoted_name host ++ security_clause ++ rest)) kw
    (length definer_prefix + (length (quoted_name user) + (1 + (length (quoted_name host) + limit)))) []
    (definer_prefix ++ quoted_name user ++ lit "@" ++ quoted_name host ++ security_clause ++ rest) =
  find_header_keyword (length (security_clause ++ rest)) kw limit
    (definer_prefix ++ quoted_name user ++ lit "@" ++ quoted_name host) (security_clause ++ rest).
Proof.
  intros Hp Ha. rewrite find_piece, Hp by done. rewrite find_name by done.
  change 1 with (length (lit "@")) at 1. rewrite find_piece by done. change (length (lit "@")) with 1. rewrite Ha.
  rewrite find_name by done. by rewrite <-!app_assoc.
Qed.

Lemma find_view_keyword user host rest :
  find_mysql_header_keyword (defined_by user host rest) (lit "VIEW") (length (defined_by user host rest)) =
    Some (definer_prefix ++ quoted_name user ++ lit "@" ++ quoted_name host ++ security_clause, lit "VIEW " ++ rest).
Proof.
  unfold find_mysql_header_keyword, defined_by.
  replace (length (definer_prefix ++ quoted_name user ++ lit "@" ++ quoted_name host ++ security_clause ++ lit "VIEW " ++ rest))
    with (length definer_prefix + (length (quoted_name user) + (1 + (length (quoted_name host) +
            (length (security_clause ++ lit "VIEW ") + length rest))))) at 2
    by (rewrite !length_app; cbn [length lit]; lia).
  rewrite find_after_account by reflexivity. rewrite app_assoc, find_piece by reflexivity.
  change (find_header_keyword _ _ _ [] (security_clause ++ lit "VIEW ")) with (Some (security_clause, lit "VIEW ")).
  by rewrite <-!app_assoc.
Qed.

Lemma find_definer_keyword user host rest :
  find_mysql_header_keyword (defined_by user host rest) (lit "DEFINER")
      (length (definer_prefix ++ quoted_name user ++ lit "@" ++ quoted_name host ++ security_clause)) =
    Some (lit "CREATE ALGORITHM=UNDEFINED ",
          lit "DEFINER=" ++ quoted_name user ++ lit "@" ++ quoted_name host ++ security_clause ++ lit "VIEW " ++ rest).
Proof.
  unfold find_mysql_header_keyword, defined_by. 
  rewrite (length_app definer_prefix (quoted_name user ++ lit "@" ++ quoted_name host ++ security_clause)).
  by rewrite find_piece.
Qed.

Lemma principal_name name rest :
  match rest with [] => True | c :: _ => c ≠ BACKTICK end →
  parse_mysql_definer_principal (quoted_name name ++ rest) = Some (quoted_name name, rest).
Proof.
  intros Hrest. unfold quoted_name. cbn [app parse_mysql_definer_principal].
  change (is_quote BACKTICK) with true. cbv iota. by rewrite quoted_name_token.
Qed.

Lemma strip_definer user host rest :
  strip_mysql_view_definer (defined_by user host rest) =
    lit "CREATE ALGORITHM=UNDEFINED SQL SECURITY DEFINER VIEW " ++ rest.
Proof.
  unfold strip_mysql_view_definer. rewrite find_view_keyword. cbn [mbind option_bind].
  rewrite find_definer_keyword. cbn [mbind option_bind].
  change (skip_ascii_whitespace (drop 7 (lit "DEFINER=" ++ quoted_name user ++ lit "@" ++ quoted_name host ++ security_clause ++ lit "VIEW " ++ rest)))
    with (chr "=" :: quoted_name user ++ lit "@" ++ quoted_name host ++ security_clause ++ lit "VIEW " ++ rest).
  cbv iota. rewrite decide_True by done.
  change (skip_ascii_whitespace (quoted_name user ++ lit "@" ++ quoted_name host ++ security_clause ++ lit "VIEW " ++ rest))
    with (quoted_name user ++ lit "@" ++ quoted_name host ++ security_clause ++ lit "VIEW " ++ rest).
  unfold after_definer. rewrite principal_name by done.
  change (skip_ascii_whitespace (lit "@" ++ quoted_name host ++ security_clause ++ lit "VIEW " ++ rest))
    with (chr "@" :: quoted_name host ++ security_clause ++ lit "VIEW " ++ rest).
  cbv iota zeta. rewrite decide_True by done.
  change (skip_ascii_whitespace (quoted_name host ++ security_clause ++ lit "VIEW " ++ rest))
    with (quoted_name host ++ security_clause ++ lit "VIEW " ++ rest).
  by rewrite principal_name.
Qed.

(** Two MySQL view definitions in the form the server prints that differ only in the account of
    the definer are not reported as different, whatever characters the account names contain. *)
Theorem definer_is_ignored user host user' host' rest source_dialect target_dialect :
  mysql_view_definitions_differ (defined_by user host rest) (defined_by user' host' rest) source_dialect target_dialect
    = false.
Proof.
  unfold mysql_view_definitions_differ, normalize_mysql_view_ddl. rewrite !strip_definer.
  destruct (_ || _); [done|]. apply bool_decide_eq_false_2. intros Hn. by apply Hn.
Qed.

(** [CURRENT_USER] is compared together with the white space behind it, so it
    is only recognised when a parenthesis follows at once. *)
Lemma current_user_definer_is_kept :
  strip_mysql_view_definer (lit "CREATE DEFINER=CURRENT_USER VIEW v AS SELECT 1") =
    lit "CREATE DEFINER=CURRENT_USER VIEW v AS SELECT 1" ∧
  strip_mysql_view_definer (lit "CREATE DEFINER=CURRENT_USER() VIEW v AS SELECT 1") =
    lit "CREATE VIEW v AS SELECT 1".
Proof. split; vm_compute; reflexivity. Qed.

(** Formatting and the name of the schema do not count, string literals do. *)
Example views_compared_by_tokens :
  normalize_mysql_view_ddl (lit "CREATE VIEW `a`.`v` AS  select `a`.`t`.`x`,  'a  b' from `a`.`t`") =
  normalize_mysql_view_ddl (lit "CREATE VIEW `b`.`v` AS select `b`.`t`.`x`, 'a  b' from `b`.`t`") ∧
  mysql_view_definitions_differ (lit "CREATE VIEW v AS SELECT 'a  b'") (lit "CREATE VIEW v AS SELECT 'a b'")
    (Some Mysql) (Some Mysql) = true.
Proof. split; vm_compute; reflexivity. Qed.
