(* ===== verification/ObjectDiff.v ===== *)
(** The comparison of the named objects of two schemas
    ([crates/dbx-core/src/schema_diff.rs], [diff_indexes] to [diff_owners] and
    [diff_permissions]) and its inversion for a rollback, which indexes, foreign
    keys and triggers have ([invert_indexes], [invert_fks], [invert_triggers]).

    The six comparisons of the source share one shape, [diff_objects]; what
    differs from kind to kind is the class [Comparable]: the key under which
    objects are matched, the objects left out and the list of changes.  The
    kinds with an inversion are the instances of [Invertible].  The theorems are
    proved for the classes. *)
From S2P Require Import Prelude SchemaTypes RowCompare Identifiers Calibrator.
Local Open Scope dbx_scope.

(** ** Differences *)
Record ObjectDiff (A : Type) := mkDiff {
  diff_type : str;
  diff_name : str;
  diff_source : option A;
  diff_target : option A;
  diff_changes : list str;
}.
Arguments mkDiff {A}.
Arguments diff_type {A}.
Arguments diff_name {A}.
Arguments diff_source {A}.
Arguments diff_target {A}.
Arguments diff_changes {A}.
Definition IndexDiff := ObjectDiff IndexInfo.
Definition ForeignKeyDiff := ObjectDiff ForeignKeyInfo.
Definition TriggerDiff := ObjectDiff TriggerInfo.
Definition FunctionDiff := ObjectDiff FunctionInfo.
Definition SequenceDiff := ObjectDiff SequenceInfo.
Definition RuleDiff := ObjectDiff RuleInfo.
Definition OwnerDiff := ObjectDiff OwnerInfo.

Definition ADDED : str := lit "added".
Definition REMOVED : str := lit "removed".
Definition MODIFIED : str := lit "modified".
Definition RENAMED : str := lit "renamed".

(** ["kind: {target} → {source}"] *)
Definition ARROW : str := [32; 8594; 32]%N.
Definition change (kind target source : str) : str := kind ++ lit ": " ++ target ++ ARROW ++ source.
Definition when (b : bool) (text : str) : list str := if b then [text] else [].
Definition differ {T : Type} `{EqDecision T} (a b : T) : bool := bool_decide (a ≠ b).
Definition yes_no (b : bool) : str := if b then lit "YES" else lit "NO".
Definition true_false (b : bool) : str := if b then lit "true" else lit "false".

(** What a kind of object promises to its comparison. *)
Class Comparable (A K : Type) `{Countable K} := {
  obj_key : A → K;
  obj_name : A → str;
  obj_skip : A → bool;
  obj_changes : A → A → list str;
  obj_changes_refl : ∀ a, obj_changes a a = [];
  obj_changes_sym : ∀ a b, obj_changes a b = [] → obj_changes b a = [];
}.

Section diff.
Context {A K : Type} `{Countable K} `{!Comparable A K}.

(** [list.iter().map(|x| (key, x)).collect::<HashMap<_, _>>()] *)
Definition by_key (l : list A) : gmap K A := foldl (λ m a, <[obj_key a := a]> m) ∅ l.

Definition source_diff (target_map : gmap K A) (s : A) : list (ObjectDiff A) :=
  if obj_skip s then []
  else match target_map !! obj_key s with
       | None => [mkDiff ADDED (obj_name s) (Some s) None []]
       | Some t =>
           let changes := obj_changes s t in
           if decide (changes = []) then [] else [mkDiff MODIFIED (obj_name s) (Some s) (Some t) changes]
       end.
Definition target_diff (source_map : gmap K A) (t : A) : list (ObjectDiff A) :=
  if obj_skip t then []
  else match source_map !! obj_key t with
       | None => [mkDiff REMOVED (obj_name t) None (Some t) []]
       | Some _ => []
       end.
Definition diff_objects (source target : list A) : list (ObjectDiff A) :=
  (source ≫= source_diff (by_key target)) ++ (target ≫= target_diff (by_key source)).
End diff.

(** ** The kinds of objects *)
Definition index_changes (s t : IndexInfo) : list str :=
  when (differ (idx_is_unique s) (idx_is_unique t))
    (change (lit "unique") (yes_no (idx_is_unique t)) (yes_no (idx_is_unique s))) ++
  when (differ (join (lit ",") (idx_columns s)) (join (lit ",") (idx_columns t)))
    (change (lit "columns") (join (lit ", ") (idx_columns t)) (join (lit ", ") (idx_columns s))) ++
  when (differ (default [] (idx_index_type s)) (default [] (idx_index_type t)))
    (change (lit "type") (default (lit "default") (idx_index_type t)) (default (lit "default") (idx_index_type s))) ++
  when (differ (default [] (idx_filter s)) (default [] (idx_filter t)))
    (change (lit "filter") (default (lit "none") (idx_filter t)) (default (lit "none") (idx_filter s))) ++
  let source_included := default [] (idx_included_columns s) in
  let target_included := default [] (idx_included_columns t) in
  when (differ (join (lit ",") source_included) (join (lit ",") target_included))
    (change (lit "include")
       (if decide (target_included = []) then lit "none" else join (lit ", ") target_included)
       (if decide (source_included = []) then lit "none" else join (lit ", ") source_included)).

Definition normalized_foreign_key_action (action : option str) : option str :=
  value ← action;
  let value := to_ascii_uppercase (join (lit " ") (split_whitespace value)) in
  if decide (value = []) then None else Some value.

Definition foreign_key_changes (s t : ForeignKeyInfo) : list str :=
  when (differ (fk_column s) (fk_column t)) (change (lit "column") (fk_column t) (fk_column s)) ++
  when (differ (fk_ref_table s) (fk_ref_table t)) (change (lit "ref table") (fk_ref_table t) (fk_ref_table s)) ++
  when (differ (fk_ref_schema s) (fk_ref_schema t))
    (change (lit "ref schema") (default [] (fk_ref_schema t)) (default [] (fk_ref_schema s))) ++
  when (differ (fk_ref_column s) (fk_ref_column t)) (change (lit "ref column") (fk_ref_column t) (fk_ref_column s)) ++
  let source_on_delete := normalized_foreign_key_action (fk_on_delete s) in
  let target_on_delete := normalized_foreign_key_action (fk_on_delete t) in
  when (differ source_on_delete target_on_delete)
    (change (lit "delete") (default [] target_on_delete) (default [] source_on_delete)) ++
  let source_on_update := normalized_foreign_key_action (fk_on_update s) in
  let target_on_update := normalized_foreign_key_action (fk_on_update t) in
  when (differ source_on_update target_on_update)
    (change (lit "update") (default [] target_on_update) (default [] source_on_update)).

Definition trigger_changes (s t : TriggerInfo) : list str :=
  when (differ (trg_event s) (trg_event t)) (change (lit "event") (trg_event t) (trg_event s)) ++
  when (differ (trg_timing s) (trg_timing t)) (change (lit "timing") (trg_timing t) (trg_timing s)).

Definition function_changes (s t : FunctionInfo) : list str :=
  when (differ (fn_function_type s) (fn_function_type t)) (change (lit "type") (fn_function_type t) (fn_function_type s)) ++
  when (differ (fn_data_type s) (fn_data_type t)) (change (lit "return type") (fn_data_type t) (fn_data_type s)) ++
  when (differ (normalize_definition (fn_definition s)) (normalize_definition (fn_definition t)))
    (lit "definition changed").

Definition sequence_changes (s t : SequenceInfo) : list str :=
  when (differ (seq_data_type s) (seq_data_type t)) (change (lit "data_type") (seq_data_type t) (seq_data_type s)) ++
  when (differ (seq_start_value s) (seq_start_value t)) (change (lit "start") (seq_start_value t) (seq_start_value s)) ++
  when (differ (seq_min_value s) (seq_min_value t)) (change (lit "min") (seq_min_value t) (seq_min_value s)) ++
  when (differ (seq_max_value s) (seq_max_value t)) (change (lit "max") (seq_max_value t) (seq_max_value s)) ++
  when (differ (seq_increment s) (seq_increment t)) (change (lit "increment") (seq_increment t) (seq_increment s)) ++
  when (differ (seq_cycle s) (seq_cycle t)) (change (lit "cycle") (true_false (seq_cycle t)) (true_false (seq_cycle s))) ++
  match seq_last_value s, seq_last_value t with
  | Some a, Some b => when (differ a b) (change (lit "last_value") b a)
  | _, _ => []
  end.

Definition rule_changes (s t : RuleInfo) : list str :=
  when (differ (rule_definition s) (rule_definition t)) (lit "definition changed").

(** Proves the two laws from the definition of a list of changes. *)
Lemma when_nil b text : when b text = [] ↔ b = false.
Proof. by destruct b. Qed.
Lemma differ_false `{EqDecision T} (a b : T) : differ a b = false ↔ a = b.
Proof. unfold differ. rewrite bool_decide_eq_false. split; [apply dec_stable|by intros -> ?]. Qed.

Ltac changes_law :=
  intros; unfold index_changes, foreign_key_changes, trigger_changes, function_changes, sequence_changes, rule_changes in *;
  cbv zeta in *;
  repeat match goal with
         | _ : context [seq_last_value ?a] |- _ => destruct (seq_last_value a)
         | |- context [seq_last_value ?a] => destruct (seq_last_value a)
         end;
  rewrite ?app_nil, ?when_nil, ?differ_false in *; destruct_and?; split_and?; congruence.

#[export] Program Instance index_comparable : Comparable IndexInfo str :=
  {| obj_key := idx_name; obj_name := idx_name; obj_skip := idx_is_primary; obj_changes := index_changes |}.
Solve Obligations with changes_law.
#[export] Program Instance foreign_key_comparable : Comparable ForeignKeyInfo str :=
  {| obj_key := fk_name; obj_name := fk_name; obj_skip := λ _, false; obj_changes := foreign_key_changes |}.
Solve Obligations with changes_law.
#[export] Program Instance trigger_comparable : Comparable TriggerInfo str :=
  {| obj_key := trg_name; obj_name := trg_name; obj_skip := λ _, false; obj_changes := trigger_changes |}.
Solve Obligations with changes_law.
(** Functions may be overloaded: the arguments are part of the key. *)
#[export] Program Instance function_comparable : Comparable FunctionInfo (str * str) :=
  {| obj_key f := (fn_name f, fn_arguments f); obj_name := fn_name; obj_skip := λ _, false;
     obj_changes := function_changes |}.
Solve Obligations with changes_law.
#[export] Program Instance sequence_comparable : Comparable SequenceInfo str :=
  {| obj_key := seq_name; obj_name := seq_name; obj_skip := λ _, false; obj_changes := sequence_changes |}.
Solve Obligations with changes_law.
#[export] Program Instance rule_comparable : Comparable RuleInfo str :=
  {| obj_key := rule_name; obj_name := rule_name; obj_skip := λ _, false; obj_changes := rule_changes |}.
Solve Obligations with changes_law.

Definition diff_indexes : list IndexInfo → list IndexInfo → list IndexDiff := diff_objects.
Definition diff_foreign_keys : list ForeignKeyInfo → list ForeignKeyInfo → list ForeignKeyDiff := diff_objects.
Definition diff_triggers : list TriggerInfo → list TriggerInfo → list TriggerDiff := diff_objects.
Definition diff_functions : list FunctionInfo → list FunctionInfo → list FunctionDiff := diff_objects.
Definition diff_sequences : list SequenceInfo → list SequenceInfo → list SequenceDiff := diff_objects.
Definition diff_rules : list RuleInfo → list RuleInfo → list RuleDiff := diff_objects.

(** Owners are only compared for the objects of both sides. *)
Definition owner_changes (s t : OwnerInfo) : list str :=
  when (differ (own_owner s) (own_owner t)) (change (lit "owner") (own_owner t) (own_owner s)).
Definition diff_owners (source target : list OwnerInfo) : list OwnerDiff :=
  let target_map := collect_map ((λ o, (own_object_name o, o)) <$> target) in
  source ≫= λ s,
    match target_map !! own_object_name s with
    | None => []
    | Some t =>
        let changes := owner_changes s t in
        if decide (changes = []) then [] else [mkDiff MODIFIED (own_object_name s) (Some s) (Some t) changes]
    end.

(** ** Permissions *)
Record PermissionInfo := mkPermission {
  perm_grantee : str;
  perm_object_type : str;
  perm_object_name : str;
  perm_privilege : str;
  perm_is_grantable : bool;
}.
Record PermissionDiff := mkPermissionDiff {
  pd_type : str;
  pd_grantee : str;
  pd_object_name : str;
  pd_privilege : str;
  pd_source : option PermissionInfo;
  pd_target : option PermissionInfo;
}.
Definition permission_key (p : PermissionInfo) : str * str * str :=
  (perm_grantee p, perm_object_name p, perm_privilege p).
Definition diff_permissions (source target : list PermissionInfo) : list PermissionDiff :=
  let target_keys : gset (str * str * str) := list_to_set (permission_key <$> target) in
  let source_keys : gset (str * str * str) := list_to_set (permission_key <$> source) in
  (source ≫= λ p, if decide (permission_key p ∈ target_keys) then []
                  else [mkPermissionDiff ADDED (perm_grantee p) (perm_object_name p) (perm_privilege p) (Some p) None]) ++
  (target ≫= λ p, if decide (permission_key p ∈ source_keys) then []
                  else [mkPermissionDiff REMOVED (perm_grantee p) (perm_object_name p) (perm_privilege p) None (Some p)]).

(** ** Rollback *)
Definition invert_diff_type (dt : str) : str :=
  if decide (dt = ADDED) then REMOVED
  else if decide (dt = REMOVED) then ADDED
  else if decide (dt = RENAMED) then RENAMED
  else MODIFIED.
Definition invert_indexes (idxs : list IndexDiff) : list IndexDiff :=
  (λ i, mkDiff (invert_diff_type (diff_type i)) (diff_name i) (diff_target i) (diff_source i) (diff_changes i)) <$> idxs.
Definition invert_fks (fks : list ForeignKeyDiff) : list ForeignKeyDiff :=
  (λ fk, mkDiff (invert_diff_type (diff_type fk)) (diff_name fk) (diff_target fk) (diff_source fk) (diff_changes fk)) <$> fks.
Definition invert_triggers (trgs : list TriggerDiff) : list TriggerDiff :=
  (λ t, mkDiff (invert_diff_type (diff_type t)) (diff_name t) (diff_target t) (diff_source t) (diff_changes t)) <$> trgs.

(** The kinds of objects that have an inversion: indexes, foreign keys and
    triggers.  It keeps the name of a difference and swaps its sides. *)
Definition swapped {A} (d d' : ObjectDiff A) : Prop :=
  diff_type d' = invert_diff_type (diff_type d) ∧ diff_name d' = diff_name d ∧
  diff_source d' = diff_target d ∧ diff_target d' = diff_source d.
Class Invertible (A : Type) := {
  invert : list (ObjectDiff A) → list (ObjectDiff A);
  invert_swaps : ∀ ds, Forall2 swapped ds (invert ds);
}.
Ltac inversion_swaps := intros ds; induction ds; constructor; done.
#[export] Program Instance index_invertible : Invertible IndexInfo := {| invert := invert_indexes |}.
Next Obligation. inversion_swaps. Qed.
#[export] Program Instance foreign_key_invertible : Invertible ForeignKeyInfo := {| invert := invert_fks |}.
Next Obligation. inversion_swaps. Qed.
#[export] Program Instance trigger_invertible : Invertible TriggerInfo := {| invert := invert_triggers |}.
Next Obligation. inversion_swaps. Qed.

(** * What the differences do *)

Section laws.
Context {A K : Type} `{Countable K} `{!Comparable A K}.
Implicit Types (m : gmap K A) (d : ObjectDiff A) (ds : list (ObjectDiff A)).

(** The effect of a difference on the objects of a schema: the source's object
    takes the place of the target's, or the target's is dropped. *)
Definition apply_diff (m : gmap K A) (d : ObjectDiff A) : gmap K A :=
  match diff_source d, diff_target d with
  | Some s, _ => <[obj_key s := s]> m
  | None, Some t => delete (obj_key t) m
  | None, None => m
  end.
Definition apply_diffs (m : gmap K A) (ds : list (ObjectDiff A)) : gmap K A := foldl apply_diff m ds.

Definition diff_key (d : ObjectDiff A) : option K :=
  match diff_source d with Some s => Some (obj_key s) | None => obj_key <$> diff_target d end.

(** A difference with [k] on both sides. *)
Definition diff_at (k : K) (d : ObjectDiff A) : Prop :=
  diff_key d = Some k ∧ ∀ t, diff_target d = Some t → obj_key t = k.

Lemma apply_diff_lookup m d k k' : diff_at k d →
  apply_diff m d !! k' = if decide (k' = k) then diff_source d else m !! k'.
Proof.
  intros [Hk Ht]. unfold apply_diff, diff_key in *. destruct (diff_source d) as [s|]; simplify_eq.
  - case_decide; subst; [by rewrite lookup_insert_eq|by rewrite lookup_insert_ne].
  - destruct (diff_target d) as [t|]; simplify_eq/=. case_decide; subst; [by rewrite lookup_delete_eq|by rewrite lookup_delete_ne].
Qed.

Lemma apply_diffs_lookup m ds k :
  (∀ d, d ∈ ds → ∃ k, diff_at k d) → NoDup (diff_key <$> ds) →
  (∀ d, d ∈ ds → diff_key d = Some k → apply_diffs m ds !! k = diff_source d) ∧
  (Some k ∉ diff_key <$> ds → apply_diffs m ds !! k = m !! k).
Proof.
  revert m. induction ds as [|e ds IH]; intros m Hat Hnd.
  - split; [by intros d ?%not_elem_of_nil|done].
  - rewrite fmap_cons in Hnd |- *. apply NoDup_cons in Hnd as [He Hnd].
    change (apply_diffs m (e :: ds)) with (apply_diffs (apply_diff m e) ds). destruct (Hat e (list_elem_of_here _ _)) as [ke Hke].
    specialize (IH (apply_diff m e) (λ d Hd, Hat d (list_elem_of_further _ _ _ Hd)) Hnd) as [IH1 IH2].
    assert (Hkey : diff_key e = Some ke) by apply Hke. split.
    + intros d [->|Hd]%elem_of_cons Hk; [|by apply IH1].
      rewrite IH2 by congruence. rewrite (apply_diff_lookup m e ke) by done. by rewrite decide_True by congruence.
    + intros Hout. apply not_elem_of_cons in Hout as [Hne Hout].
      rewrite IH2, (apply_diff_lookup m e ke) by done. by rewrite decide_False by congruence.
Qed.

(** *** The objects by key *)
Lemma by_key_snoc l a : by_key (l ++ [a]) = <[obj_key a := a]> (by_key l).
Proof. unfold by_key. by rewrite foldl_app. Qed.

Lemma by_key_lookup_Some l k a : by_key l !! k = Some a → a ∈ l ∧ obj_key a = k.
Proof.
  induction l as [|b l IH] using rev_ind; [done|].
  rewrite by_key_snoc, lookup_insert_Some, elem_of_app, list_elem_of_singleton. naive_solver.
Qed.

Lemma by_key_lookup l a : NoDup (obj_key <$> l) → a ∈ l → by_key l !! obj_key a = Some a.
Proof.
  induction l as [|b l IH] using rev_ind; [by intros _ ?%not_elem_of_nil|].
  rewrite fmap_app, NoDup_app, by_key_snoc, elem_of_app, list_elem_of_singleton.
  intros (Hl & Hb & _) [Ha| ->]; [|by rewrite lookup_insert_eq].
  rewrite lookup_insert_ne; [auto|]. intros Heq. apply (Hb (obj_key a)).
  - by apply list_elem_of_fmap_2.
  - rewrite <-Heq. left.
Qed.

Lemma by_key_None l k : by_key l !! k = None ↔ k ∉ obj_key <$> l.
Proof.
  induction l as [|b l IH] using rev_ind; [split; [intros _; apply not_elem_of_nil|done]|].
  rewrite by_key_snoc, lookup_insert_None, fmap_app, not_elem_of_app, IH. cbn.
  rewrite list_elem_of_singleton. naive_solver.
Qed.

(** The differences, one by one. *)
Lemma elem_of_diff_objects (source target : list A) d :
  d ∈ diff_objects source target ↔
  (∃ s, s ∈ source ∧ obj_skip s = false ∧ by_key target !! obj_key s = None ∧
     d = mkDiff ADDED (obj_name s) (Some s) None []) ∨
  (∃ s t, s ∈ source ∧ obj_skip s = false ∧ by_key target !! obj_key s = Some t ∧ obj_changes s t ≠ [] ∧
     d = mkDiff MODIFIED (obj_name s) (Some s) (Some t) (obj_changes s t)) ∨
  (∃ t, t ∈ target ∧ obj_skip t = false ∧ by_key source !! obj_key t = None ∧
     d = mkDiff REMOVED (obj_name t) None (Some t) []).
Proof.
  unfold diff_objects. rewrite elem_of_app, !list_elem_of_bind. unfold source_diff, target_diff. split.
  - intros [(s & Hd & Hs)|(t & Hd & Ht)].
    + destruct (obj_skip s) eqn:Es; [by apply not_elem_of_nil in Hd|].
      destruct (by_key target !! obj_key s) as [t|] eqn:Et.
      * case_decide; [by apply not_elem_of_nil in Hd|]. apply list_elem_of_singleton in Hd. right. left. naive_solver.
      * apply list_elem_of_singleton in Hd. left. naive_solver.
    + destruct (obj_skip t) eqn:Es; [by apply not_elem_of_nil in Hd|].
      destruct (by_key source !! obj_key t) eqn:Et; [by apply not_elem_of_nil in Hd|].
      apply list_elem_of_singleton in Hd. right. right. naive_solver.
  - intros [(s & Hs & Hk & Hn & ->)|[(s & t & Hs & Hk & Hn & Hc & ->)|(t & Ht & Hk & Hn & ->)]].
    + left. exists s. rewrite Hk, Hn. split; [left|done].
    + left. exists s. rewrite Hk, Hn, decide_False by done. split; [left|done].
    + right. exists t. rewrite Hk, Hn. split; [left|done].
Qed.

Context (source target : list A) (Hsource : NoDup (obj_key <$> source)) (Htarget : NoDup (obj_key <$> target)).
Context (Hskip : ∀ s t, s ∈ source → t ∈ target → obj_key s = obj_key t → obj_skip s = obj_skip t).

Lemma diff_objects_at d : d ∈ diff_objects source target →
  ∃ k, diff_at k d ∧ by_key target !! k = diff_target d ∧
    match diff_source d with Some s => by_key source !! k = Some s | None => by_key source !! k = None end.
Proof.
  intros [(s & Hs & _ & Hn & ->)|[(s & t & Hs & _ & Hn & _ & ->)|(t & Ht & _ & Hn & ->)]]%elem_of_diff_objects.
  - exists (obj_key s). cbn. split_and!; [split; [done|done]|done|by apply by_key_lookup].
  - pose proof (by_key_lookup_Some _ _ _ Hn) as [_ Hk]. exists (obj_key s). cbn.
    split_and!; [split; [done|naive_solver]|done|by apply by_key_lookup].
  - exists (obj_key t). cbn. split_and!; [split; [done|naive_solver]|by apply by_key_lookup|done].
Qed.

Lemma keyed_bind {B} (f : A → list B) (g : B → option K) (l : list A) :
  NoDup (obj_key <$> l) → (∀ a b, b ∈ f a → g b = Some (obj_key a)) → (∀ a, length (f a) ≤ 1) →
  NoDup (g <$> (l ≫= f)) ∧ ∀ k, k ∈ g <$> (l ≫= f) → ∃ a, a ∈ l ∧ k = Some (obj_key a).
Proof.
  intros Hl Hg Hone. assert (Hin : ∀ l k, k ∈ g <$> (l ≫= f) → ∃ a, a ∈ l ∧ k = Some (obj_key a)).
  { intros l' k (b & -> & (a & Hb & Ha)%list_elem_of_bind)%list_elem_of_fmap. eauto. }
  split; [|apply Hin]. induction l as [|a l IH]; [constructor|].
  rewrite fmap_cons in Hl. apply NoDup_cons in Hl as [Ha Hl]. rewrite bind_cons, fmap_app. apply NoDup_app. split_and!.
  - specialize (Hone a). destruct (f a) as [|b [|c r]]; cbn in *; [constructor|apply NoDup_singleton|lia].
  - intros k (b & -> & Hb)%list_elem_of_fmap (a' & Ha' & Heq)%Hin. apply Hg in Hb. apply Ha.
    rewrite Hb in Heq. injection Heq as ->. by apply list_elem_of_fmap_2.
  - auto.
Qed.

Lemma diff_objects_NoDup : NoDup (diff_key <$> diff_objects source target).
Proof.
  unfold diff_objects. rewrite fmap_app.
  destruct (keyed_bind (source_diff (by_key target)) diff_key source Hsource) as [Hs Hs2].
  { intros a b. unfold source_diff. repeat case_match; rewrite ?elem_of_nil, ?list_elem_of_singleton; naive_solver. }
  { intros a. unfold source_diff. repeat case_match; cbn; lia. }
  destruct (keyed_bind (target_diff (by_key source)) diff_key target Htarget) as [Ht Ht2].
  { intros a b. unfold target_diff. repeat case_match; rewrite ?elem_of_nil, ?list_elem_of_singleton; naive_solver. }
  { intros a. unfold target_diff. repeat case_match; cbn; lia. }
  apply NoDup_app. split_and!; [done| |done].
  intros k (s & Hs' & ->)%Hs2 (d & Hd & (t & Hdt & Ht')%list_elem_of_bind)%list_elem_of_fmap.
  unfold target_diff in Hdt. destruct (obj_skip t); [by apply not_elem_of_nil in Hdt|].
  destruct (by_key source !! obj_key t) eqn:Et; [by apply not_elem_of_nil in Hdt|].
  apply list_elem_of_singleton in Hdt as ->. cbn in Hd. injection Hd as Hd.
  apply by_key_None in Et. apply Et. rewrite <-Hd. by apply list_elem_of_fmap_2.
Qed.

Lemma diff_objects_well_formed d : d ∈ diff_objects source target → ∃ k, diff_at k d.
Proof. intros (k & Hk & _)%diff_objects_at. eauto. Qed.

(** Split the tests of the next two definitions. *)
Ltac split_cases :=
  repeat match goal with
         | |- context [obj_skip ?x] => destruct (obj_skip x) eqn:?
         | |- context [decide (obj_changes ?x ?y = [])] => destruct (decide (obj_changes x y = []))
         end; cbn.

(** What the target holds after the differences are applied. *)
Definition merged (s t : option A) : option A :=
  match s, t with
  | Some s, Some t => if obj_skip s then Some t else if decide (obj_changes s t = []) then Some t else Some s
  | Some s, None => if obj_skip s then None else Some s
  | None, Some t => if obj_skip t then Some t else None
  | None, None => None
  end.

(** The difference of the objects under one key. *)
Definition diff_of (s t : option A) : option (ObjectDiff A) :=
  match s, t with
  | Some s, Some t => if obj_skip s then None else if decide (obj_changes s t = []) then None
                      else Some (mkDiff MODIFIED (obj_name s) (Some s) (Some t) (obj_changes s t))
  | Some s, None => if obj_skip s then None else Some (mkDiff ADDED (obj_name s) (Some s) None [])
  | None, Some t => if obj_skip t then None else Some (mkDiff REMOVED (obj_name t) None (Some t) [])
  | None, None => None
  end.

Lemma diff_objects_under_key d k :
  d ∈ diff_objects source target ∧ diff_key d = Some k ↔ diff_of (by_key source !! k) (by_key target !! k) = Some d.
Proof.
  rewrite elem_of_diff_objects. split.
  - intros [[(s & Hs & Hsk & Hn & ->)|[(s & t & Hs & Hsk & Hn & Hc & ->)|(t & Ht & Hsk & Hn & ->)]] Hk];
      cbn in Hk; injection Hk as <-.
    + rewrite (by_key_lookup source s), Hn by done. cbn. by rewrite Hsk.
    + rewrite (by_key_lookup source s), Hn by done. cbn. by rewrite Hsk, decide_False.
    + rewrite (by_key_lookup target t), Hn by done. cbn. by rewrite Hsk.
  - unfold diff_of. destruct (by_key source !! k) as [s|] eqn:Es, (by_key target !! k) as [t|] eqn:Et; [| | |done];
      [pose proof (by_key_lookup_Some _ _ _ Es) as [Hs Hk]|pose proof (by_key_lookup_Some _ _ _ Es) as [Hs Hk]
      |pose proof (by_key_lookup_Some _ _ _ Et) as [Ht Hk]].
    + destruct (obj_skip s) eqn:Hsk; [done|]. case_decide; [done|]. intros [= <-].
      rewrite <-Hk in Et |- *. split; [|done]. right. left. eauto 10.
    + destruct (obj_skip s) eqn:Hsk; [done|]. intros [= <-]. rewrite <-Hk in Et |- *. split; [|done]. left. eauto 10.
    + destruct (obj_skip t) eqn:Hsk; [done|]. intros [= <-]. rewrite <-Hk in Es |- *. split; [|done]. right. right. eauto 10.
Qed.

Lemma apply_under_key m k ds :
  Forall2 (λ d e, ∀ k, diff_at k d → diff_at k e) (diff_objects source target) ds →
  match diff_of (by_key source !! k) (by_key target !! k) with
  | Some d => ∃ i e, diff_objects source target !! i = Some d ∧ ds !! i = Some e ∧ apply_diffs m ds !! k = diff_source e
  | None => apply_diffs m ds !! k = m !! k
  end.
Proof.
  intros Hf. assert (Hat : ∀ i d e, diff_objects source target !! i = Some d → ds !! i = Some e → ∃ k', diff_at k' d ∧ diff_at k' e).
  { intros i d e Hd He. destruct (diff_objects_well_formed d) as [k' Hk']; [by eapply list_elem_of_lookup_2 |].
    exists k'. split; [done |]. by eapply (Forall2_lookup_lr _ _ _ _ _ _ Hf Hd He). }
  assert (Hkeys : diff_key <$> ds = diff_key <$> diff_objects source target).
  { apply list_eq. intros i. rewrite !list_lookup_fmap.
    destruct (diff_objects source target !! i) as [d |] eqn:Hd, (ds !! i) as [e |] eqn:He; [| | | done].
    - destruct (Hat i d e Hd He) as (k' & [Hk _] & [Hk' _]). cbn. congruence.
    - apply lookup_lt_Some in Hd. apply lookup_ge_None in He. apply Forall2_length in Hf. lia.
    - apply lookup_lt_Some in He. apply lookup_ge_None in Hd. apply Forall2_length in Hf. lia. }
  destruct (apply_diffs_lookup m ds k) as [Hin Hout].
  { intros e [i He]%list_elem_of_lookup. destruct (Forall2_lookup_r _ _ _ _ _ Hf He) as (d & Hd & _).
    destruct (Hat i d e Hd He) as (k' & _ & ?). eauto. }
  { rewrite Hkeys. apply diff_objects_NoDup. }
  destruct (diff_of _ _) as [d |] eqn:Ed.
  - apply diff_objects_under_key in Ed as [[i Hd]%list_elem_of_lookup Hk]. destruct (Forall2_lookup_l _ _ _ _ _ Hf Hd) as (e & He & _).
    exists i, e. split_and!; [done.. |]. apply Hin; [by eapply list_elem_of_lookup_2 |].
    destruct (Hat i d e Hd He) as (k' & [? _] & [? _]). congruence.
  - apply Hout. rewrite Hkeys. intros (d & Hk & Hd)%list_elem_of_fmap.
    assert (Hc : diff_of (by_key source !! k) (by_key target !! k) = Some d) by (by apply diff_objects_under_key).
    congruence.
Qed.

Lemma apply_diffs_merged k :
  apply_diffs (by_key target) (diff_objects source target) !! k = merged (by_key source !! k) (by_key target !! k).
Proof.
  pose proof (apply_under_key (by_key target) k (diff_objects source target) ltac:(by apply Forall_Forall2_diag, Forall_true)) as Ha.
  destruct (diff_of (by_key source !! k) (by_key target !! k)) as [d |] eqn:E;
    [destruct Ha as (i & e & H1 & H2 & ->); assert (e = d) as -> by congruence | rewrite Ha]; revert E;
    unfold diff_of, merged; destruct (by_key source !! k), (by_key target !! k) as [t |] eqn:Et; split_cases; naive_solver.
Qed.

Lemma swapped_at d e k : swapped d e → diff_at k d → diff_at k e.
Proof.
  intros (_ & _ & Hs & Ht) [Hk Hkt]. unfold diff_at, diff_key in *. rewrite Hs, Ht.
  destruct (diff_source d), (diff_target d); cbn in *; simplify_eq; split; intros; simplify_eq; auto. f_equal. auto.
Qed.

(** Undoing the differences gives the target back. *)
Lemma rollback_restores `{!Invertible A} :
  apply_diffs (apply_diffs (by_key target) (diff_objects source target)) (invert (diff_objects source target)) = by_key target.
Proof.
  apply map_eq. intros k. pose proof (invert_swaps (diff_objects source target)) as Hi.
  pose proof (apply_under_key (apply_diffs (by_key target) (diff_objects source target)) k (invert (diff_objects source target))) as Ha.
  lapply Ha; [clear Ha; intros Ha | eapply Forall2_impl; [apply Hi |]; intros d e He k'; by apply swapped_at].
  destruct (diff_of (by_key source !! k) (by_key target !! k)) as [d |] eqn:E.
  - destruct Ha as (i & e & Hd & He & ->). destruct (Forall2_lookup_lr _ _ _ _ _ _ Hi Hd He) as (_ & _ & -> & _). revert E.
    unfold diff_of. destruct (by_key source !! k), (by_key target !! k) as [t |] eqn:Et; split_cases; naive_solver.
  - rewrite Ha, apply_diffs_merged. revert E.
    unfold diff_of, merged. destruct (by_key source !! k), (by_key target !! k) as [t |] eqn:Et; split_cases; naive_solver.
Qed.

(** Comparing again finds nothing. *)
Lemma diff_after_apply l :
  by_key l = apply_diffs (by_key target) (diff_objects source target) → NoDup (obj_key <$> l) →
  diff_objects source l = [].
Proof.
  intros Hl Hnd. apply elem_of_nil_inv. intros d [(s & Hs & Hsk & Hn & ->)|[(s & t & Hs & Hsk & Hn & Hc & ->)|
    (t & Ht & Hsk & Hn & ->)]]%elem_of_diff_objects.
  - rewrite Hl, apply_diffs_merged, (by_key_lookup source s) in Hn by done. cbn in Hn. rewrite Hsk in Hn.
    repeat case_match; done.
  - rewrite Hl, apply_diffs_merged, (by_key_lookup source s) in Hn by done. cbn in Hn. rewrite Hsk in Hn.
    repeat case_match; simplify_eq; try congruence; by apply Hc, obj_changes_refl.
  - pose proof (by_key_lookup l t Hnd Ht) as Hk. rewrite Hl, apply_diffs_merged, Hn in Hk. cbn in Hk.
    repeat case_match; simplify_eq; congruence.
Qed.

(** The difference in the other direction has the same objects, swapped. *)
Definition reversed (d d' : ObjectDiff A) : Prop :=
  diff_type d' = invert_diff_type (diff_type d) ∧ diff_source d' = diff_target d ∧ diff_target d' = diff_source d.

Lemma diff_of_reverse s t : (∀ a b, s = Some a → t = Some b → obj_skip a = obj_skip b) →
  match diff_of s t, diff_of t s with
  | Some d, Some d' => reversed d d'
  | None, None => True
  | _, _ => False
  end.
Proof.
  intros Hsk. destruct s as [a|], t as [b|]; cbn; [|by split_cases..|done].
  rewrite (Hsk a b) by done. destruct (obj_skip b); [done|].
  destruct (decide (obj_changes a b = [])) as [Hc|Hc], (decide (obj_changes b a = [])) as [Hd|Hd]; try done.
  - by apply Hd, obj_changes_sym.
  - by apply Hc, obj_changes_sym.
Qed.
End laws.

Section reverse.
Context {A K : Type} `{Countable K} `{!Comparable A K} (source target : list A).
Context (Hsource : NoDup (obj_key <$> source)) (Htarget : NoDup (obj_key <$> target)).
Context (Hskip : ∀ s t, s ∈ source → t ∈ target → obj_key s = obj_key t → obj_skip s = obj_skip t).

Lemma diff_reverse d : d ∈ diff_objects source target → ∃ d', d' ∈ diff_objects target source ∧ reversed d d'.
Proof.
  intros Hd. destruct (diff_objects_well_formed source target Hsource Htarget d Hd) as [k [Hk _]].
  pose proof (proj1 (diff_objects_under_key source target Hsource Htarget d k) (conj Hd Hk)) as Hof.
  pose proof (diff_of_reverse (by_key source !! k) (by_key target !! k)) as Hr. rewrite Hof in Hr.
  destruct (diff_of (by_key target !! k) (by_key source !! k)) as [d'|] eqn:Ed'.
  - exists d'. split; [|apply Hr].
    + by apply (diff_objects_under_key target source Htarget Hsource) in Ed' as [? _].
    + intros a b [Ha Hka]%by_key_lookup_Some [Hb Hkb]%by_key_lookup_Some. apply Hskip; congruence.
  - destruct Hr. intros a b [Ha Hka]%by_key_lookup_Some [Hb Hkb]%by_key_lookup_Some. apply Hskip; congruence.
Qed.

(** C22: For indexes, foreign keys and triggers, the objects with an inversion for a rollback, with
    unique names on each side and the same ones left out on both sides (primary indexes): a target
    to which the differences are applied, each putting the object of the source in place of that of
    the target or dropping it, has none left; applying the inverted differences after that restores
    the target exactly; and every difference is found, with its sides swapped, in the comparison in
    the other direction. *)
Theorem differences_synchronise_and_roll_back `{!Invertible A} :
  let synced := apply_diffs (by_key target) (diff_objects source target) in
  (∀ l, by_key l = synced → NoDup (obj_key <$> l) → diff_objects source l = []) ∧
  apply_diffs synced (invert (diff_objects source target)) = by_key target ∧
  (∀ d, d ∈ diff_objects source target → ∃ d', d' ∈ diff_objects target source ∧ reversed d d').
Proof.
  cbv zeta. split_and!.
  - intros l Hl Hnd. by eapply (diff_after_apply source target).
  - by apply rollback_restores.
  - apply diff_reverse.
Qed.
End reverse.

(** Two tables with one index changed, one added and one removed. *)
Definition sample_index (name : string) (unique : bool) : IndexInfo := mkIndex (lit name) [lit "c"] unique false None None None None [].
Definition sample_source : list IndexInfo := [sample_index "a" false; sample_index "b" true].
Definition sample_target : list IndexInfo := [sample_index "b" false; sample_index "c" false].

Lemma differences_synchronise_and_roll_back_witness :
  (diff_type <$> diff_indexes sample_source sample_target) = [ADDED; MODIFIED; REMOVED] ∧
  apply_diffs (apply_diffs (by_key sample_target) (diff_indexes sample_source sample_target))
    (invert_indexes (diff_indexes sample_source sample_target)) = by_key sample_target.
Proof.
  split; [vm_compute; reflexivity|].
  refine (proj1 (proj2 (differences_synchronise_and_roll_back sample_source sample_target _ _ _))).
  - apply (bool_decide_unpack _). vm_compute. exact I.
  - apply (bool_decide_unpack _). vm_compute. exact I.
  - intros s t Hs Ht _. apply elem_of_cons in Hs as [-> | Hs]; [| apply list_elem_of_singleton in Hs as ->];
      apply elem_of_cons in Ht as [-> | Ht]; try apply list_elem_of_singleton in Ht as ->; reflexivity.
Defined.

(** Only the event and the timing of a trigger are compared: a new body is not
    a difference. *)
Lemma trigger_body_is_not_compared (t : TriggerInfo) (body : option str) :
  let changed := mkTrigger (trg_name t) (trg_event t) (trg_timing t) (trg_level t) (trg_condition t) (trg_language t)
                   (trg_enabled t) (trg_valid t) (trg_comment t) (trg_created_at t) body in
  diff_triggers [changed] [t] = [].
Proof.
  cbv zeta. unfold diff_triggers, diff_objects. cbn -[trigger_changes]. unfold source_diff, target_diff. cbn -[trigger_changes].
  rewrite !lookup_insert_eq. cbn -[trigger_changes]. by rewrite decide_True by (unfold trigger_changes; cbn [trg_event trg_timing]; changes_law).
Qed.

(** A column whose name holds a comma looks like two columns. *)
Lemma index_columns_compared_joined :
  diff_indexes [mkIndex (lit "i") [lit "a,b"] false false None None None None []]
               [mkIndex (lit "i") [lit "a"; lit "b"] false false None None None None []] = [].
Proof. vm_compute. reflexivity. Qed.

(** The grant option is not compared. *)
Lemma grant_option_is_not_compared g ty o p :
  diff_permissions [mkPermission g ty o p true] [mkPermission g ty o p false] = [].
Proof.
  unfold diff_permissions. cbn. rewrite !decide_True; [done|..]; apply elem_of_union; left; by apply elem_of_singleton.
Qed.
