(* ===== verification/SchemaDiff.v ===== *)
(** The comparison of two schemas ([crates/dbx-core/src/schema_diff.rs],
    [diff_columns_with_dialect_options], [diff_schema], [shard_diff]) and the
    graph of forward and rollback differences ([RollbackGraph]).

    The similarity scores of renamed columns are the 64-bit numbers of the
    source, written as fractions; a threshold is a finite number. *)
From Stdlib Require Import QArith.
From S2P Require Import Prelude Identifiers RowCompare SchemaTypes DependencyGraph MysqlView Calibrator ObjectDiff.
Local Open Scope nat_scope.
Local Open Scope dbx_scope.

(** ** Columns *)
Inductive ColumnAddPosition := First | After (column : str).
#[export] Instance add_position_eq_dec : EqDecision ColumnAddPosition.
Proof. solve_decision. Defined.

Record ColumnDiff := mkColumnDiff {
  cd_type : str;
  cd_name : str;
  cd_source : option ColumnInfo;
  cd_target : option ColumnInfo;
  cd_changes : list str;
  cd_add_position : option ColumnAddPosition;
}.
#[export] Instance column_diff_eq_dec : EqDecision ColumnDiff.
Proof. solve_decision. Defined.

(** [columns[index - 1]] exists for every index the callers pass. *)
Definition column_add_position (columns : list ColumnInfo) (index : nat) : ColumnAddPosition :=
  match index with
  | 0 => First
  | S i => After (default [] (col_name <$> columns !! i))
  end.

Definition mysql_integer_types : list str :=
  [lit "tinyint"; lit "smallint"; lit "mediumint"; lit "int"; lit "integer"; lit "bigint"; lit "year"].

Definition normalize_mysql_integer_type_for_comparison (data_type : str) : str :=
  let normalized := to_ascii_lowercase (join (lit " ") (split_whitespace data_type)) in
  match split_once (lit "(") normalized with
  | None => normalized
  | Some (before, after) =>
      match split_once (lit ")") after with
      | None => normalized
      | Some (inside, behind) =>
          let base := trim before in
          let width := trim inside in
          if negb (bool_decide (base ∈ mysql_integer_types)) || bool_decide (width = []) ||
             negb (forallb is_ascii_digit width)
          then normalized
          else let suffix := trim behind in
               if decide (suffix = []) then base else base ++ lit " " ++ suffix
      end
  end.

Definition column_types_equal_for_dialects (source_type target_type : str)
    (source_dialect target_dialect : option DialectKind) : bool :=
  if eq_ignore_ascii_case source_type target_type then true
  else bool_decide (source_dialect = Some Mysql) && bool_decide (target_dialect = Some Mysql) &&
       bool_decide (normalize_mysql_integer_type_for_comparison source_type =
                    normalize_mysql_integer_type_for_comparison target_type).

(** [sql_dialect::inference::ColumnType::parse(..).base_type] *)
Definition parse_base_type (type_str : str) : str :=
  let trimmed := trim type_str in
  let base_type :=
    match split_once (lit "(") trimmed with
    | Some (before, _) => if ends_with (lit ")") trimmed then trim before else trimmed
    | None => trimmed
    end in
  trim (replace_str (lit "[]") [] (replace_str (lit " UNSIGNED") [] (replace_str (lit " unsigned") [] base_type))).

(** The 64-bit numbers 0.8 and 0.8 * 0.8. *)
Definition SCORE_FAMILY : Q := 3602879701896397 # 4503599627370496.
Definition SCORE_FAMILY_NULL : Q := 1441151880758559 # 2251799813685248.

Definition exact_matches : list (str * str) :=
  [(lit "int", lit "integer"); (lit "integer", lit "int"); (lit "float", lit "real"); (lit "real", lit "float");
   (lit "double", lit "double precision"); (lit "double precision", lit "double"); (lit "bool", lit "boolean");
   (lit "boolean", lit "bool"); (lit "timestamp", lit "datetime"); (lit "datetime", lit "timestamp")].
Definition integer_family : list str :=
  [lit "tinyint"; lit "smallint"; lit "mediumint"; lit "int"; lit "integer"; lit "bigint"; lit "serial"; lit "bigserial"].
Definition text_family : list str :=
  [lit "char"; lit "varchar"; lit "text"; lit "tinytext"; lit "mediumtext"; lit "longtext"; lit "clob"; lit "nclob"].

Definition column_type_similarity_score (source_type target_type : str) : Q :=
  let s := to_ascii_lowercase (parse_base_type source_type) in
  let t := to_ascii_lowercase (parse_base_type target_type) in
  if decide (s = t) then 1
  else if bool_decide ((s, t) ∈ exact_matches) then 1
  else if bool_decide (s ∈ integer_family) && bool_decide (t ∈ integer_family) then SCORE_FAMILY
  else if bool_decide (s ∈ text_family) && bool_decide (t ∈ text_family) then SCORE_FAMILY
  else 0.

(** [score *= 0.8] when the columns differ in being nullable. *)
Definition rename_score (removed added : ColumnInfo) : Q :=
  let type_score := column_type_similarity_score (col_data_type removed) (col_data_type added) in
  if Bool.eqb (col_is_nullable removed) (col_is_nullable added) then type_score
  else if Qeq_bool type_score 1 then SCORE_FAMILY
  else if Qeq_bool type_score SCORE_FAMILY then SCORE_FAMILY_NULL
  else 0.

Record ColumnOptions := mkColumnOptions {
  co_ignore_comments : bool;
  co_compare_column_order : bool;
  co_detect_renames : bool;
  co_rename_threshold : Q;
  co_source_dialect : option DialectKind;
  co_target_dialect : option DialectKind;
}.

Section columns.
Context (o : ColumnOptions) (source target : list ColumnInfo).

Definition column_map (l : list ColumnInfo) : gmap str ColumnInfo := collect_map ((λ c, (col_name c, c)) <$> l).
Definition position_map (l : list ColumnInfo) : gmap str nat := collect_map (imap (λ i c, (col_name c, i)) l).

Definition can_compare_order : bool :=
  co_compare_column_order o && bool_decide (length source = length target) &&
  forallb (λ c, bool_decide (is_Some (column_map target !! col_name c))) source.

Definition column_changes (source_index : nat) (s t : ColumnInfo) : list str :=
  when (negb (column_types_equal_for_dialects (col_data_type s) (col_data_type t) (co_source_dialect o) (co_target_dialect o)))
    (change (lit "type") (col_data_type t) (col_data_type s)) ++
  when (differ (col_is_nullable s) (col_is_nullable t))
    (change (lit "nullable") (yes_no (col_is_nullable t)) (yes_no (col_is_nullable s))) ++
  when (differ (default [] (col_default s)) (default [] (col_default t)))
    (change (lit "default") (default (lit "NULL") (col_default t)) (default (lit "NULL") (col_default s))) ++
  when (negb (co_ignore_comments o) && differ (default [] (col_comment s)) (default [] (col_comment t)))
    (change (lit "comment") (default [] (col_comment t)) (default [] (col_comment s))) ++
  (if can_compare_order then
     match position_map target !! col_name s with
     | Some target_index =>
         when (differ source_index target_index)
           (change (lit "order") (show_nat (target_index + 1)) (show_nat (source_index + 1)))
     | None => []
     end
   else []).

Definition source_column_diff (source_index : nat) (s : ColumnInfo) : list ColumnDiff :=
  match column_map target !! col_name s with
  | Some t =>
      let changes := column_changes source_index s t in
      if decide (changes = []) then []
      else [mkColumnDiff MODIFIED (col_name s) (Some s) (Some t) changes None]
  | None => [mkColumnDiff ADDED (col_name s) (Some s) None [] (Some (column_add_position source source_index))]
  end.
Definition target_column_diff (target_index : nat) (t : ColumnInfo) : list ColumnDiff :=
  match column_map source !! col_name t with
  | Some _ => []
  | None => [mkColumnDiff REMOVED (col_name t) None (Some t) [] (Some (column_add_position target target_index))]
  end.

(** The differences before renames are looked for. *)
Definition plain_column_diffs : list ColumnDiff :=
  concat (imap source_column_diff source) ++ concat (imap target_column_diff target).
End columns.

(** *** Renames *)
Definition indices_of (ty : str) (diffs : list ColumnDiff) : list nat :=
  concat (imap (λ i d, if decide (cd_type d = ty) then [i] else []) diffs).

(** The added column with the highest score above 0 that no removed column has
    taken yet; the first of several. *)
Definition best_match (diffs : list ColumnDiff) (threshold : Q) (added_indices matched_added : list nat)
    (removed : ColumnInfo) : option nat :=
  snd (foldl (λ best ai,
    if bool_decide (ai ∈ matched_added) then best
    else match diffs !! ai ≫= cd_source with
         | None => best
         | Some added =>
             if negb (Qle_bool threshold (column_type_similarity_score (col_data_type removed) (col_data_type added)))
             then best
             else let score := rename_score removed added in
                  if negb (Qle_bool score (fst best)) then (score, Some ai) else best
         end) (0%Q, None) added_indices).

Definition find_rename (diffs : list ColumnDiff) (threshold : Q) (added_indices : list nat)
    (acc : list (nat * nat) * list nat) (ri : nat) : list (nat * nat) * list nat :=
  let '(rename_pairs, matched_added) := acc in
  match diffs !! ri ≫= cd_target with
  | None => acc
  | Some removed =>
      match best_match diffs threshold added_indices matched_added removed with
      | Some ai => (rename_pairs ++ [(ri, ai)], ai :: matched_added)
      | None => acc
      end
  end.

Definition MATCHED : str := lit "_matched_rename".

(** [diffs[*ri] = ..; diffs[*ai] = ..]; the columns are there for every pair. *)
Definition apply_rename (diffs : list ColumnDiff) (pair : nat * nat) : list ColumnDiff :=
  let '(ri, ai) := pair in
  match diffs !! ri, diffs !! ri ≫= cd_target, diffs !! ai ≫= cd_source with
  | Some old, Some old_col, Some new_col =>
      <[ai := mkColumnDiff MATCHED [] None None [] None]>
        (<[ri := mkColumnDiff RENAMED (col_name new_col) (Some new_col) (Some old_col)
                   [cd_name old ++ ARROW ++ col_name new_col] None]> diffs)
  | _, _, _ => diffs
  end.

Definition detect_column_renames (threshold : Q) (diffs : list ColumnDiff) : list ColumnDiff :=
  let '(rename_pairs, _) :=
    foldl (find_rename diffs threshold (indices_of ADDED diffs)) ([], []) (indices_of REMOVED diffs) in
  filter (λ d, cd_type d ≠ MATCHED) (foldl apply_rename diffs rename_pairs).

Definition diff_columns_with_dialect_options (o : ColumnOptions) (source target : list ColumnInfo) : list ColumnDiff :=
  let diffs := plain_column_diffs o source target in
  if co_detect_renames o && negb (Qle_bool (co_rename_threshold o) 0)
  then detect_column_renames (co_rename_threshold o) diffs else diffs.

(** [diff_columns] *)
Definition diff_columns (source target : list ColumnInfo) : list ColumnDiff :=
  diff_columns_with_dialect_options (mkColumnOptions false false false (1 # 2) None None) source target.

(** ** Inverting columns for a rollback *)
Definition invert_change_string (ch : str) : str :=
  match split_once ARROW ch with
  | None => ch
  | Some (before, after) =>
      match split_once (lit ": ") before with
      | Some (kind, value) => kind ++ lit ": " ++ after ++ ARROW ++ value
      | None => after ++ ARROW ++ before
      end
  end.
Definition invert_column (c : ColumnDiff) : ColumnDiff :=
  mkColumnDiff (invert_diff_type (cd_type c))
    (if decide (cd_type c = RENAMED) then default (cd_name c) (col_name <$> cd_target c) else cd_name c)
    (cd_target c) (cd_source c) (invert_change_string <$> cd_changes c) (cd_add_position c).
Definition invert_columns (cols : list ColumnDiff) : list ColumnDiff := invert_column <$> cols.

(** * The rollback of the columns is the comparison in the other direction *)

Definition ARROW_CHAR : char := 8594.

Lemma split_arrow (x s : str) : ARROW_CHAR ∉ x → split_once ARROW (x ++ ARROW ++ s) = Some (x, s).
Proof.
  induction x as [|c x IH]; intros Hx.
  - cbn [app]. unfold ARROW. cbn. done.
  - apply not_elem_of_cons in Hx as [Hc Hx]. specialize (IH Hx). cbn [app split_once].
    assert (Hs : strip_prefix ARROW (c :: x ++ ARROW ++ s) = None).
    { apply eq_None_not_Some. intros [r Hr%strip_prefix_Some]. destruct x as [|d x]; cbn in Hr; [done|].
      injection Hr as _ Hd _. apply Hx. subst d. left. }
    rewrite Hs, IH. done.
Qed.

Lemma lit_small c s : c ∈ lit s → (c < 256)%N.
Proof.
  induction s as [|a s IH]; [by intros ?%not_elem_of_nil|]. cbn. intros [->|Hc]%elem_of_cons; [|auto].
  apply N_ascii_bounded.
Qed.
Lemma lit_arrow_free s : ARROW_CHAR ∉ lit s.
Proof. intros Hc%lit_small. done. Qed.

(** The words in front of a change. *)
Definition column_kinds : list str := [lit "type"; lit "nullable"; lit "default"; lit "comment"; lit "order"].

Lemma invert_change kind t s : kind ∈ column_kinds → ARROW_CHAR ∉ t →
  invert_change_string (change kind t s) = change kind s t.
Proof.
  intros Hkind Ht. unfold invert_change_string, change.
  assert (Hk : ARROW_CHAR ∉ kind ++ lit ": ") by (repeat (apply elem_of_cons in Hkind as [->|Hkind];
    [apply not_elem_of_app; split; apply lit_arrow_free|]); by apply not_elem_of_nil in Hkind).
  rewrite (app_assoc (lit ": ") t), (app_assoc kind), split_arrow.
  - assert (Hs : split_once (lit ": ") (kind ++ lit ": " ++ t) = Some (kind, t)).
    { repeat (apply elem_of_cons in Hkind as [->|Hkind]; [reflexivity|]). by apply not_elem_of_nil in Hkind. }
    by rewrite Hs.
  - rewrite app_assoc. by apply not_elem_of_app.
Qed.

Definition swap_options (o : ColumnOptions) : ColumnOptions :=
  mkColumnOptions (co_ignore_comments o) (co_compare_column_order o) (co_detect_renames o) (co_rename_threshold o)
    (co_target_dialect o) (co_source_dialect o).

(** No text of a column that may stand before an arrow holds one. *)
Definition arrow_free (c : ColumnInfo) : Prop :=
  ARROW_CHAR ∉ col_data_type c ∧ ARROW_CHAR ∉ default [] (col_default c) ∧ ARROW_CHAR ∉ default [] (col_comment c).

(** The changes of a pair of columns at known positions. *)
Definition changes_at (o : ColumnOptions) (ordered : bool) (i j : nat) (s t : ColumnInfo) : list str :=
  when (negb (column_types_equal_for_dialects (col_data_type s) (col_data_type t) (co_source_dialect o) (co_target_dialect o)))
    (change (lit "type") (col_data_type t) (col_data_type s)) ++
  when (differ (col_is_nullable s) (col_is_nullable t))
    (change (lit "nullable") (yes_no (col_is_nullable t)) (yes_no (col_is_nullable s))) ++
  when (differ (default [] (col_default s)) (default [] (col_default t)))
    (change (lit "default") (default (lit "NULL") (col_default t)) (default (lit "NULL") (col_default s))) ++
  when (negb (co_ignore_comments o) && differ (default [] (col_comment s)) (default [] (col_comment t)))
    (change (lit "comment") (default [] (col_comment t)) (default [] (col_comment s))) ++
  when (ordered && differ i j) (change (lit "order") (show_nat (j + 1)) (show_nat (i + 1))).

Lemma differ_sym `{EqDecision T} (a b : T) : differ a b = differ b a.
Proof. unfold differ. apply bool_decide_ext. split; congruence. Qed.

Lemma types_equal_sym a b d e :
  column_types_equal_for_dialects a b d e = column_types_equal_for_dialects b a e d.
Proof.
  unfold column_types_equal_for_dialects, eq_ignore_ascii_case.
  rewrite (bool_decide_ext (to_ascii_lowercase a = to_ascii_lowercase b) (to_ascii_lowercase b = to_ascii_lowercase a)) by (split; congruence).
  destruct (bool_decide (to_ascii_lowercase b = _)); [done|].
  rewrite (bool_decide_ext (normalize_mysql_integer_type_for_comparison a = normalize_mysql_integer_type_for_comparison b)
    (normalize_mysql_integer_type_for_comparison b = normalize_mysql_integer_type_for_comparison a)) by (split; congruence).
  destruct (bool_decide (d = _)), (bool_decide (e = _)); done.
Qed.

Lemma invert_when b (text text' : str) : (b = true → invert_change_string text = text') →
  invert_change_string <$> when b text = when b text'.
Proof. destruct b; cbn; [by intros ->|done]. Qed.

Lemma changes_at_swap o ordered i j s t : arrow_free t →
  changes_at (swap_options o) ordered j i t s = invert_change_string <$> changes_at o ordered i j s t.
Proof.
  intros (Hty & Hdef & Hcom). unfold changes_at. rewrite !fmap_app. cbn [swap_options co_source_dialect co_target_dialect co_ignore_comments].
  rewrite (types_equal_sym (col_data_type t)), (differ_sym (col_is_nullable t)), (differ_sym (default [] (col_default t))),
    (differ_sym (default [] (col_comment t))), (differ_sym j).
  f_equal; [|f_equal; [|f_equal; [|f_equal]]]; symmetry; apply invert_when; intros _; apply invert_change;
    unfold column_kinds.
  - left.
  - done.
  - right; left.
  - destruct (col_is_nullable t); apply lit_arrow_free.
  - right; right; left.
  - destruct (col_default t); [done|apply lit_arrow_free].
  - right; right; right; left.
  - done.
  - right; right; right; right; left.
  - apply lit_arrow_free.
Qed.

(** *** Columns by name and position *)
Lemma collect_map_NoDup {A} (l : list (str * A)) k v : NoDup l.*1 → (k, v) ∈ l → collect_map l !! k = Some v.
Proof.
  induction l as [|[k' v'] l IH] using rev_ind; [by intros _ ?%not_elem_of_nil|].
  rewrite fmap_app, NoDup_app, collect_map_snoc, elem_of_app, list_elem_of_singleton. cbn.
  intros (Hl & Hk & _) [Hin|[= -> ->]]; [|by rewrite lookup_insert_eq].
  rewrite lookup_insert_ne; [auto|]. intros ->. apply (Hk k); [|left].
  apply list_elem_of_fmap. by exists (k, v).
Qed.

Section by_name.
Context (l : list ColumnInfo) (Hl : NoDup (col_name <$> l)).

Lemma column_map_lookup i c : l !! i = Some c → column_map l !! col_name c = Some c.
Proof.
  intros Hi. unfold column_map. apply collect_map_NoDup.
  - by rewrite <-list_fmap_compose.
  - apply list_elem_of_fmap. exists c. split; [done|]. by eapply list_elem_of_lookup_2.
Qed.
Lemma position_map_lookup i c : l !! i = Some c → position_map l !! col_name c = Some i.
Proof.
  intros Hi. unfold position_map. apply collect_map_NoDup.
  - assert (Hn : (imap (λ i c, (col_name c, i)) l).*1 = col_name <$> l); [|by rewrite Hn].
    rewrite fmap_imap. apply list_eq. intros k. by rewrite list_lookup_imap, list_lookup_fmap.
  - apply elem_of_lookup_imap. eauto.
Qed.
Lemma column_map_Some k c : column_map l !! k = Some c → col_name c = k ∧ ∃ i, l !! i = Some c.
Proof.
  intros Hk. assert (Hin : k ∈ col_name <$> l).
  { apply dec_stable. intros Hout. assert (Hn : column_map l !! k = None); [|congruence].
    apply collect_map_lookup_None. by rewrite <-list_fmap_compose. }
  apply list_elem_of_fmap in Hin as (c' & -> & [i Hi]%list_elem_of_lookup).
  rewrite (column_map_lookup i c' Hi) in Hk. simplify_eq. eauto.
Qed.
Lemma column_map_None k : column_map l !! k = None ↔ k ∉ col_name <$> l.
Proof. unfold column_map. rewrite collect_map_lookup_None, <-list_fmap_compose. done. Qed.
End by_name.

Lemma elem_of_concat_imap {A B} (f : nat → A → list B) (l : list A) b :
  b ∈ concat (imap f l) ↔ ∃ i a, l !! i = Some a ∧ b ∈ f i a.
Proof.
  rewrite list_elem_of_In, in_concat. setoid_rewrite <-list_elem_of_In. split.
  - intros (x & Hx & Hb). apply elem_of_lookup_imap in Hx as (i & a & -> & Hi). eauto.
  - intros (i & a & Hi & Hb). exists (f i a). split; [|done]. apply elem_of_lookup_imap. eauto.
Qed.

Lemma concat_imap_NoDup {A B} (f : nat → A → list B) (g : B → str) (nm : A → str) (l : list A) :
  NoDup (nm <$> l) → (∀ i a b, b ∈ f i a → g b = nm a) → (∀ i a, length (f i a) ≤ 1) →
  NoDup (g <$> concat (imap f l)).
Proof.
  revert f. induction l as [|a l IH]; intros f Hl Hg Hone; [constructor|].
  rewrite fmap_cons in Hl. apply NoDup_cons in Hl as [Ha Hl]. rewrite imap_cons. cbn [concat]. rewrite fmap_app.
  apply NoDup_app. split_and!.
  - specialize (Hone 0 a). destruct (f 0 a) as [|b [|c r]]; cbn in *; [constructor|apply NoDup_singleton|lia].
  - intros k (b & -> & Hb)%list_elem_of_fmap (b' & Heq & (i & a' & Hi & Hb')%elem_of_concat_imap)%list_elem_of_fmap.
    cbn in Hb'. apply Hg in Hb, Hb'. apply Ha. rewrite <-Hb, Heq, Hb'.
    apply list_elem_of_fmap_2. by eapply list_elem_of_lookup_2.
  - apply IH; [done|..]; intros; cbn in *; eauto.
Qed.

Section plain_diffs.
Context (o : ColumnOptions) (source target : list ColumnInfo).
Context (Hsource : NoDup (col_name <$> source)) (Htarget : NoDup (col_name <$> target)).

Lemma column_changes_at i j s t : target !! j = Some t → col_name s = col_name t →
  column_changes o source target i s t = changes_at o (can_compare_order o source target) i j s t.
Proof.
  intros Hj Hname. unfold column_changes, changes_at. do 4 f_equal.
  rewrite Hname, (position_map_lookup target Htarget j t Hj). by destruct (can_compare_order _ _ _).
Qed.

Lemma elem_of_plain_column_diffs d :
  d ∈ plain_column_diffs o source target ↔
  (∃ i s j t, source !! i = Some s ∧ target !! j = Some t ∧ col_name s = col_name t ∧
     changes_at o (can_compare_order o source target) i j s t ≠ [] ∧
     d = mkColumnDiff MODIFIED (col_name s) (Some s) (Some t)
           (changes_at o (can_compare_order o source target) i j s t) None) ∨
  (∃ i s, source !! i = Some s ∧ col_name s ∉ col_name <$> target ∧
     d = mkColumnDiff ADDED (col_name s) (Some s) None [] (Some (column_add_position source i))) ∨
  (∃ j t, target !! j = Some t ∧ col_name t ∉ col_name <$> source ∧
     d = mkColumnDiff REMOVED (col_name t) None (Some t) [] (Some (column_add_position target j))).
Proof.
  unfold plain_column_diffs. rewrite elem_of_app, !elem_of_concat_imap. unfold source_column_diff, target_column_diff. split.
  - intros [(i & s & Hi & Hd)|(j & t & Hj & Hd)].
    + destruct (column_map target !! col_name s) as [t|] eqn:Et.
      * apply (column_map_Some target Htarget) in Et as (Hn & j & Hj).
        rewrite (column_changes_at i j s t) in Hd by done. case_decide; [by apply not_elem_of_nil in Hd|].
        apply list_elem_of_singleton in Hd as ->. left. eauto 10.
      * apply column_map_None in Et. apply list_elem_of_singleton in Hd as ->. right. left. eauto.
    + destruct (column_map source !! col_name t) eqn:Et; [by apply not_elem_of_nil in Hd|].
      apply column_map_None in Et. apply list_elem_of_singleton in Hd as ->. right. right. eauto.
  - intros [(i & s & j & t & Hi & Hj & Hn & Hc & ->)|[(i & s & Hi & Hn & ->)|(j & t & Hj & Hn & ->)]].
    + left. exists i, s. split; [done|]. rewrite Hn, (column_map_lookup target Htarget j t Hj).
      rewrite (column_changes_at i j s t) by done. rewrite decide_False by done. rewrite <-Hn. left.
    + left. exists i, s. split; [done|]. apply column_map_None in Hn. rewrite Hn. left.
    + right. exists j, t. split; [done|]. apply column_map_None in Hn. rewrite Hn. left.
Qed.

Lemma plain_column_diffs_NoDup : NoDup (cd_name <$> plain_column_diffs o source target).
Proof.
  unfold plain_column_diffs. rewrite fmap_app. apply NoDup_app. split_and!.
  - eapply concat_imap_NoDup; [exact Hsource|..].
    + intros i s d. unfold source_column_diff. repeat case_match; rewrite ?elem_of_nil, ?list_elem_of_singleton; naive_solver.
    + intros i s. unfold source_column_diff. repeat case_match; cbn; lia.
  - intros k (d & -> & (i & s & Hi & Hd)%elem_of_concat_imap)%list_elem_of_fmap
      (e & Heq & (j & t & Hj & He)%elem_of_concat_imap)%list_elem_of_fmap.
    assert (Hd' : cd_name d = col_name s).
    { unfold source_column_diff in Hd. repeat case_match; rewrite ?elem_of_nil, ?list_elem_of_singleton in Hd; naive_solver. }
    unfold target_column_diff in He. destruct (column_map source !! col_name t) eqn:Et; [by apply not_elem_of_nil in He|].
    apply list_elem_of_singleton in He as ->. cbn in Heq. apply column_map_None in Et. apply Et.
    rewrite <-Heq, Hd'. apply list_elem_of_fmap_2. by eapply list_elem_of_lookup_2.
  - eapply concat_imap_NoDup; [exact Htarget|..].
    + intros i s d. unfold target_column_diff. repeat case_match; rewrite ?elem_of_nil, ?list_elem_of_singleton; naive_solver.
    + intros i s. unfold target_column_diff. repeat case_match; cbn; lia.
Qed.
End plain_diffs.

(** A comparison of positions is possible in both directions or in none. *)
Lemma can_compare_order_sym o source target :
  NoDup (col_name <$> source) → NoDup (col_name <$> target) →
  can_compare_order (swap_options o) target source = can_compare_order o source target.
Proof.
  assert (Hone : ∀ o s t, NoDup (col_name <$> s) → NoDup (col_name <$> t) →
    can_compare_order o s t = true → can_compare_order (swap_options o) t s = true).
  { clear. intros o s t Hs Ht. unfold can_compare_order. cbn [swap_options co_compare_column_order].
    rewrite !andb_true_iff, !bool_decide_eq_true, !forallb_forall. intros [[-> Hlen] Hall]. split; [by split|].
    intros c Hc. apply bool_decide_eq_true. apply not_eq_None_Some. intros Hn%column_map_None. apply Hn.
    assert (Hperm : col_name <$> s ≡ₚ col_name <$> t).
    { apply submseteq_length_Permutation; [|by rewrite !length_fmap, Hlen]. apply NoDup_submseteq; [done|].
      intros x (a & -> & Ha)%list_elem_of_fmap. apply dec_stable. intros Hout%column_map_None.
      specialize (Hall a ltac:(by apply list_elem_of_In)). apply bool_decide_eq_true in Hall as [? ?]. congruence. }
    rewrite Hperm. apply list_elem_of_fmap_2. by apply list_elem_of_In. }
  intros Hs Ht. assert (Ho : swap_options (swap_options o) = o) by (by destruct o).
  destruct (can_compare_order o source target) eqn:E.
  - by apply Hone.
  - destruct (can_compare_order (swap_options o) target source) eqn:E2; [|done].
    apply Hone in E2; [|done..]. rewrite Ho in E2. congruence.
Qed.

Lemma invert_plain_column_diffs o source target d' :
  NoDup (col_name <$> source) → NoDup (col_name <$> target) → Forall arrow_free target →
  d' ∈ invert_columns (plain_column_diffs o source target) ↔ d' ∈ plain_column_diffs (swap_options o) target source.
Proof.
  intros Hs Ht Hfree. unfold invert_columns. rewrite list_elem_of_fmap.
  setoid_rewrite elem_of_plain_column_diffs; [|done..]. rewrite can_compare_order_sym by done. split.
  - intros (d & -> & [(i & s & j & t & Hi & Hj & Hn & Hc & ->)|[(i & s & Hi & Hn & ->)|(j & t & Hj & Hn & ->)]]).
    + left. exists j, t, i, s. rewrite changes_at_swap by (by eapply Forall_lookup_1).
      split_and!; [done..| |]; [by intros ?%fmap_nil_inv|by rewrite <-Hn].
    + right. right. by exists i, s.
    + right. left. by exists j, t.
  - intros [(j & t & i & s & Hj & Hi & Hn & Hc & ->)|[(j & t & Hj & Hn & ->)|(i & s & Hi & Hn & ->)]].
    + rewrite changes_at_swap in Hc |- * by (by eapply Forall_lookup_1).
      eexists. split; [|left; exists i, s, j, t; split_and!; [done..| |reflexivity]].
      * unfold invert_column. cbn. by rewrite Hn.
      * intros Hnil. by rewrite Hnil in Hc.
    + eexists. split; [|right; right; by exists j, t]. done.
    + eexists. split; [|right; left; by exists i, s]. done.
Qed.

(** C28: Without renames, for columns with unique names and no arrow in the texts of the target, the
    inverted column differences are the differences of the comparison in the other direction, texts
    and positions included, up to order. *)
Theorem column_rollback_is_the_reverse_comparison o source target :
  co_detect_renames o = false →
  NoDup (col_name <$> source) → NoDup (col_name <$> target) → Forall arrow_free target →
  invert_columns (diff_columns_with_dialect_options o source target) ≡ₚ
  diff_columns_with_dialect_options (swap_options o) target source.
Proof.
  intros Hren Hs Ht Hfree. unfold diff_columns_with_dialect_options. cbn [swap_options co_detect_renames co_rename_threshold].
  rewrite Hren. cbn [andb]. apply NoDup_Permutation.
  - apply (NoDup_fmap_1 cd_name).
    assert (Hn : cd_name <$> invert_columns (plain_column_diffs o source target) = cd_name <$> plain_column_diffs o source target).
    { unfold invert_columns. rewrite <-list_fmap_compose. apply list_fmap_ext. intros i d Hd%list_elem_of_lookup_2.
      apply elem_of_plain_column_diffs in Hd; [|done..]. cbn. naive_solver. }
    rewrite Hn. by apply plain_column_diffs_NoDup.
  - apply (NoDup_fmap_1 cd_name). by apply plain_column_diffs_NoDup.
  - intros d. by apply invert_plain_column_diffs.
Qed.

Definition sample_column (name ty : str) (nullable : bool) : ColumnInfo :=
  mkColumn name ty None nullable None false false None None None None None None None None.

Lemma column_rollback_is_the_reverse_comparison_witness :
  let o := mkColumnOptions false true false 0 None None in
  let source := [sample_column (lit "id") (lit "bigint") false; sample_column (lit "name") (lit "text") true] in
  let target := [sample_column (lit "id") (lit "int") false; sample_column (lit "age") (lit "int") true] in
  (cd_changes <$> diff_columns_with_dialect_options o source target) =
    [[lit "type: int" ++ ARROW ++ lit "bigint"]; []; []] ∧
  invert_columns (diff_columns_with_dialect_options o source target) ≡ₚ
  diff_columns_with_dialect_options (swap_options o) target source.
Proof.
  cbv zeta. split; [vm_compute; reflexivity|]. apply column_rollback_is_the_reverse_comparison.
  - reflexivity.
  - apply (bool_decide_unpack _). vm_compute. exact I.
  - apply (bool_decide_unpack _). vm_compute. exact I.
  - repeat constructor; cbn; apply (bool_decide_unpack _); vm_compute; exact I.
Defined.

(** The text of a changed index is not inverted: the rollback of NO → YES
    still reads NO → YES. *)
Lemma index_rollback_keeps_the_text :
  let s := mkIndex (lit "i") [lit "a"] true false None None None None [] in
  let t := mkIndex (lit "i") [lit "a"] false false None None None None [] in
  diff_changes <$> invert_indexes (diff_indexes [s] [t]) = [[lit "unique: NO" ++ ARROW ++ lit "YES"]] ∧
  diff_changes <$> diff_indexes [t] [s] = [[lit "unique: YES" ++ ARROW ++ lit "NO"]].
Proof. split; vm_compute; reflexivity. Qed.

(** * Renames keep every column *)

Lemma omap_insert {A B} (f : A → option B) (l : list A) i x y :
  l !! i = Some y → option_list (f y) ++ omap f (<[i:=x]> l) ≡ₚ option_list (f x) ++ omap f l.
Proof.
  revert i. induction l as [|z l IH]; intros [|i] Hi; simplify_eq/=.
  - destruct (f x), (f y); cbn; [apply Permutation_swap|done..].
  - specialize (IH i Hi). destruct (f z) as [b|]; cbn; [|done].
    rewrite <-!Permutation_middle. by rewrite IH.
Qed.

Lemma elem_of_indices_of ty diffs i :
  i ∈ indices_of ty diffs ↔ ∃ d, diffs !! i = Some d ∧ cd_type d = ty.
Proof.
  unfold indices_of. rewrite elem_of_concat_imap. split.
  - intros (j & d & Hj & Hi). case_decide; [|by apply not_elem_of_nil in Hi].
    apply list_elem_of_singleton in Hi as ->. eauto.
  - intros (d & Hd & Hty). exists i, d. rewrite decide_True by done. split; [done|left].
Qed.

Lemma indices_of_NoDup ty diffs : NoDup (indices_of ty diffs).
Proof.
  assert (Hgen : ∀ (f : nat → nat) (l : list ColumnDiff), (∀ i j, f i = f j → i = j) →
    NoDup (concat (imap (λ i d, if decide (cd_type d = ty) then [f i] else []) l))).
  { intros f l. revert f. induction l as [|d l IH]; intros f Hf; [constructor|]. rewrite imap_cons. cbn [concat].
    apply NoDup_app. split_and!.
    - case_decide; [apply NoDup_singleton|constructor].
    - intros i Hi (j & e & Hj & Hin)%elem_of_concat_imap. unfold compose in Hin. cbv beta in Hi, Hin.
      destruct (decide (cd_type d = ty)); [|by apply not_elem_of_nil in Hi].
      destruct (decide (cd_type e = ty)); [|by apply not_elem_of_nil in Hin].
      apply list_elem_of_singleton in Hi, Hin. subst. by apply Hf in Hin.
    - apply (IH (f ∘ S)). intros i j Hij. apply Hf in Hij. by injection Hij. }
  apply (Hgen id). done.
Qed.

Lemma best_match_spec diffs threshold added_indices matched removed ai :
  best_match diffs threshold added_indices matched removed = Some ai → ai ∈ added_indices ∧ ai ∉ matched.
Proof.
  unfold best_match. induction added_indices as [|i l IH] using rev_ind; [done|].
  rewrite foldl_app. cbn [foldl]. set (best := foldl _ _ l) in *. intros Hai.
  assert (Hcase : best.2 = Some ai ∨ (ai = i ∧ i ∉ matched)).
  { case_bool_decide as Hm; [by left|]. case_match; [|by left]. case_match; [by left|]. case_match; [|by left].
    right. cbn in Hai. by simplify_eq. }
  rewrite elem_of_app, list_elem_of_singleton. destruct Hcase as [Hb|[-> ?]]; [destruct (IH Hb)|]; auto.
Qed.

(** The pairs of removed and added columns found so far. *)
Definition pairs_ok (processed added : list nat) (acc : list (nat * nat) * list nat) : Prop :=
  NoDup acc.1.*1 ∧ (∀ i, i ∈ acc.1.*1 → i ∈ processed) ∧ NoDup acc.1.*2 ∧
  (∀ i, i ∈ acc.1.*2 → i ∈ added ∧ i ∈ acc.2).

Lemma find_renames_ok diffs threshold added removed_indices :
  NoDup removed_indices →
  pairs_ok removed_indices added (foldl (find_rename diffs threshold added) ([], []) removed_indices).
Proof.
  induction removed_indices as [|ri l IH] using rev_ind; intros Hnd.
  - cbn. split_and!; cbn; [constructor|by intros i Hi%not_elem_of_nil|constructor|by intros i Hi%not_elem_of_nil].
  - apply NoDup_app in Hnd as (Hl & Hri & _). specialize (IH Hl). rewrite foldl_app. cbn [foldl].
    destruct (foldl _ _ l) as [pairs matched]. destruct IH as (Hf & Hin & Hs & Hm). cbn [fst snd] in *.
    assert (Hkeep : pairs_ok (l ++ [ri]) added (pairs, matched)).
    { split_and!; cbn; [done| |done|done]. intros i Hi. apply elem_of_app. left. auto. }
    unfold find_rename. destruct (diffs !! ri ≫= cd_target) as [removed|]; [|done].
    destruct (best_match _ _ _ _ _) as [ai|] eqn:Eb; [|done]. apply best_match_spec in Eb as [Ha Hna].
    unfold pairs_ok. cbn [fst snd]. rewrite !fmap_app. cbn. split_and!.
    + apply NoDup_app. split_and!; [done| |apply NoDup_singleton]. intros i Hi ->%list_elem_of_singleton.
      eapply Hri; [by apply Hin|left].
    + intros i. rewrite !elem_of_app. intros [Hi|Hi]; [left; auto|by right].
    + apply NoDup_app. split_and!; [done| |apply NoDup_singleton]. intros i Hi ->%list_elem_of_singleton.
      by apply Hna, Hm.
    + intros i. rewrite elem_of_app, list_elem_of_singleton, elem_of_cons. intros [Hi| ->]; [|by auto]. destruct (Hm i Hi). auto.
Qed.

Definition matched_empty (diffs : list ColumnDiff) : Prop :=
  ∀ d, d ∈ diffs → cd_type d = MATCHED → cd_source d = None ∧ cd_target d = None.

Lemma apply_rename_conserves diffs ri ai r a :
  ri ≠ ai → diffs !! ri = Some r → diffs !! ai = Some a → cd_source r = None → cd_target a = None →
  matched_empty diffs →
  omap cd_source (apply_rename diffs (ri, ai)) ≡ₚ omap cd_source diffs ∧
  omap cd_target (apply_rename diffs (ri, ai)) ≡ₚ omap cd_target diffs ∧
  matched_empty (apply_rename diffs (ri, ai)) ∧
  (∀ k, k ≠ ri → k ≠ ai → apply_rename diffs (ri, ai) !! k = diffs !! k).
Proof.
  intros Hne Hr Ha Hsr Hta Hm. unfold apply_rename. rewrite Hr, Ha. cbn [mbind option_bind].
  destruct (cd_target r) as [old|] eqn:Etr; [|done]. destruct (cd_source a) as [new|] eqn:Esa; [|done].
  set (ren := mkColumnDiff RENAMED (col_name new) (Some new) (Some old) [cd_name r ++ ARROW ++ col_name new] None).
  set (gone := mkColumnDiff MATCHED [] None None [] None).
  assert (Ha' : <[ri:=ren]> diffs !! ai = Some a) by (by rewrite list_lookup_insert_ne). split_and!.
  - pose proof (omap_insert cd_source diffs ri ren r Hr) as H1.
    pose proof (omap_insert cd_source _ ai gone a Ha') as H2. rewrite Hsr in H1. rewrite Esa in H2. cbn in H1, H2.
    rewrite H1 in H2. by apply Permutation_cons_inv in H2.
  - pose proof (omap_insert cd_target diffs ri ren r Hr) as H1.
    pose proof (omap_insert cd_target _ ai gone a Ha') as H2. rewrite Etr in H1. rewrite Hta in H2. cbn in H1, H2.
    rewrite H2. by apply Permutation_cons_inv in H1.
  - intros d [k Hk]%list_elem_of_lookup Hty. apply list_lookup_insert_Some in Hk as [(<- & <- & _)|[_ Hk]]; [done|].
    apply list_lookup_insert_Some in Hk as [(<- & <- & _)|[_ Hk]]; [done|]. apply Hm; [|done]. by eapply list_elem_of_lookup_2.
  - intros k Hk1 Hk2. by rewrite !list_lookup_insert_ne.
Qed.

Lemma added_not_removed : ADDED ≠ REMOVED.
Proof. done. Qed.

Lemma apply_renames_conserve pairs diffs :
  NoDup pairs.*1 → NoDup pairs.*2 → matched_empty diffs →
  (∀ i, i ∈ pairs.*1 → ∃ r, diffs !! i = Some r ∧ cd_type r = REMOVED ∧ cd_source r = None) →
  (∀ i, i ∈ pairs.*2 → ∃ a, diffs !! i = Some a ∧ cd_type a = ADDED ∧ cd_target a = None) →
  omap cd_source (foldl apply_rename diffs pairs) ≡ₚ omap cd_source diffs ∧
  omap cd_target (foldl apply_rename diffs pairs) ≡ₚ omap cd_target diffs ∧
  matched_empty (foldl apply_rename diffs pairs).
Proof.
  pose proof added_not_removed as Hdistinct.
  revert diffs. induction pairs as [|[ri ai] pairs IH]; intros diffs H1 H2 Hm Hr Ha; [done|].
  cbn in H1, H2. apply NoDup_cons in H1 as [Hri H1]. apply NoDup_cons in H2 as [Hai H2].
  destruct (Hr ri (list_elem_of_here _ _)) as (r & Hr1 & Hr2 & Hr3).
  destruct (Ha ai (list_elem_of_here _ _)) as (a & Ha1 & Ha2 & Ha3).
  assert (Hne : ri ≠ ai) by (intros ->; simplify_eq; congruence).
  destruct (apply_rename_conserves diffs ri ai r a Hne Hr1 Ha1 Hr3 Ha3 Hm) as (Hs & Ht & Hm' & Hsame).
  cbn [foldl]. destruct (IH (apply_rename diffs (ri, ai)) H1 H2 Hm') as (IHs & IHt & IHm).
  - intros i Hi. destruct (Hr i (list_elem_of_further _ _ _ Hi)) as (r' & Hr' & ? & ?).
    exists r'. rewrite Hsame; [done|by intros ->|]. intros ->. simplify_eq. congruence.
  - intros i Hi. destruct (Ha i (list_elem_of_further _ _ _ Hi)) as (a' & Ha' & ? & ?).
    exists a'. rewrite Hsame; [done| |by intros ->]. intros ->. simplify_eq. congruence.
  - split_and!; [by rewrite IHs|by rewrite IHt|done].
Qed.

Lemma omap_filter_empty {B} (f : ColumnDiff → option B) (diffs : list ColumnDiff) :
  (∀ d, d ∈ diffs → cd_type d = MATCHED → f d = None) →
  omap f (filter (λ d, cd_type d ≠ MATCHED) diffs) = omap f diffs.
Proof.
  induction diffs as [|d diffs IH]; intros Hf; [done|]. rewrite filter_cons.
  specialize (IH (λ e He, Hf e (list_elem_of_further _ _ _ He))). case_decide as Hd; csimpl; rewrite IH; [done|].
  by rewrite (Hf d (list_elem_of_here _ _) Hd).
Qed.

Lemma plain_column_diffs_shape o source target d : d ∈ plain_column_diffs o source target →
  (cd_type d = MODIFIED) ∨ (cd_type d = ADDED ∧ cd_target d = None) ∨ (cd_type d = REMOVED ∧ cd_source d = None).
Proof.
  unfold plain_column_diffs, source_column_diff, target_column_diff. rewrite elem_of_app, !elem_of_concat_imap.
  intros [(i & s & _ & Hd)|(i & s & _ & Hd)]; repeat case_match;
    try (by apply not_elem_of_nil in Hd); apply list_elem_of_singleton in Hd as ->; auto.
Qed.

(** The detection of renamed columns, for every threshold, pairs differences without losing,
    duplicating or inventing a column of either side. *)
Theorem renames_keep_every_column o source target :
  let plain := plain_column_diffs o source target in
  let diffs := diff_columns_with_dialect_options o source target in
  omap cd_source diffs ≡ₚ omap cd_source plain ∧ omap cd_target diffs ≡ₚ omap cd_target plain.
Proof.
  cbv zeta. unfold diff_columns_with_dialect_options. destruct (_ && _); [|done]. unfold detect_column_renames.
  set (plain := plain_column_diffs o source target).
  pose proof (find_renames_ok plain (co_rename_threshold o) (indices_of ADDED plain) _ (indices_of_NoDup REMOVED plain)) as Hok.
  destruct (foldl _ _ _) as [pairs matched]. destruct Hok as (H1 & Hin1 & H2 & Hin2). cbn [fst snd] in *.
  destruct (apply_renames_conserve pairs plain H1 H2) as (Hs & Ht & Hm).
  - intros d Hd Hty. apply plain_column_diffs_shape in Hd as [Hd|[[Hd _]|[Hd _]]]; by rewrite Hd in Hty.
  - intros i Hi%Hin1. apply elem_of_indices_of in Hi as (d & Hd & Hty). exists d. split_and!; [done..|].
    pose proof (plain_column_diffs_shape o source target d (list_elem_of_lookup_2 _ _ _ Hd)) as [E|[[E _]|[_ ?]]];
      [by rewrite E in Hty..|done].
  - intros i [Hi _]%Hin2. apply elem_of_indices_of in Hi as (d & Hd & Hty). exists d. split_and!; [done..|].
    pose proof (plain_column_diffs_shape o source target d (list_elem_of_lookup_2 _ _ _ Hd)) as [E|[[_ ?]|[E _]]];
      [by rewrite E in Hty|done|by rewrite E in Hty].
  - rewrite !omap_filter_empty by (intros d Hd Hty; destruct (Hm d Hd Hty); done). done.
Qed.
