(* ===== verification/SchemaTables.v ===== *)
(** The comparison of the tables and views of two schemas
    ([crates/dbx-core/src/schema_diff.rs], [diff_schema] and [shard_diff]) and
    the graph of forward and rollback differences ([RollbackGraph]).  The
    statements generated from the differences are not modelled; the comparison
    leaves [sync_sql] empty.  The functions, sequences, rules and owners that
    the options also carry are compared by [ObjectDiff] and play no part
    here. *)
From Stdlib Require Import QArith.
From S2P Require Import Prelude Identifiers RowCompare SchemaTypes DependencyGraph MysqlView Calibrator ObjectDiff SchemaDiff.
Local Open Scope nat_scope.
Local Open Scope dbx_scope.

Record TableDiff := mkTableDiff {
  td_type : str;
  td_object_type : option str;
  td_name : str;
  td_columns : option (list ColumnDiff);
  td_indexes : option (list IndexDiff);
  td_foreign_keys : option (list ForeignKeyDiff);
  td_triggers : option (list TriggerDiff);
  td_ddl : option str;
  td_target_ddl : option str;
  td_source_table_comment : option (option str);
  td_target_table_comment : option (option str);
  td_sync_sql : option str;
}.

Record SchemaOptions := mkSchemaOptions {
  source_tables : list TableInfo;
  target_tables : list TableInfo;
  source_details : list TableSchemaDetail;
  target_details : list TableSchemaDetail;
  column_options : ColumnOptions;
}.

Definition TABLE : str := lit "table".
Definition VIEW : str := lit "view".
Definition NONE : str := lit "none".

(** ** Names *)
Definition diff_names (source target : list str) : list str * list str * list str :=
  let source_set : gset str := list_to_set source in
  let target_set : gset str := list_to_set target in
  (filter (λ name, name ∉ target_set) source, filter (λ name, name ∉ source_set) target,
   filter (λ name, name ∈ target_set) source).

Definition named_tables (tables : list TableInfo) : list str := tbl_name <$> filter (λ t, is_view t = false) tables.
Definition named_views (tables : list TableInfo) : list str := tbl_name <$> filter (λ t, is_view t = true) tables.
Definition details_map (details : list TableSchemaDetail) : gmap str TableSchemaDetail :=
  collect_map ((λ d, (det_name d, d)) <$> details).
Definition comments_map (tables : list TableInfo) : gmap str (option str) :=
  collect_map ((λ t, (tbl_name t, tbl_comment t)) <$> tables).

(** A reference to a table of the same schema does not name its schema. *)
Definition normalize_self_referencing_fk (own_table_names : gset str) (fk : ForeignKeyInfo) : ForeignKeyInfo :=
  if bool_decide (is_Some (fk_ref_schema fk)) && bool_decide (fk_ref_table fk ∈ own_table_names)
  then mkForeignKey (fk_name fk) (fk_column fk) None (fk_ref_table fk) (fk_ref_column fk) (fk_on_update fk) (fk_on_delete fk)
  else fk.

(** ** Tables of one side *)
Definition all_added {A} (name : A → str) (l : list A) : list (ObjectDiff A) :=
  (λ a, mkDiff ADDED (name a) (Some a) None []) <$> l.
Definition all_removed {A} (name : A → str) (l : list A) : list (ObjectDiff A) :=
  (λ a, mkDiff REMOVED (name a) None (Some a) []) <$> l.

Definition added_table (own : gset str) (details : gmap str TableSchemaDetail) (name : str) : TableDiff :=
  let detail := details !! name in
  mkTableDiff ADDED (Some TABLE) name
    ((λ d, imap (λ i c, mkColumnDiff ADDED (col_name c) (Some c) None [] (Some (column_add_position (det_columns d) i)))
                (det_columns d)) <$> detail)
    ((λ d, all_added idx_name (det_indexes d)) <$> detail)
    ((λ d, all_added fk_name (normalize_self_referencing_fk own <$> det_foreign_keys d)) <$> detail)
    (d ← detail; if decide (det_triggers d = []) then None else Some (all_added trg_name (det_triggers d)))
    (detail ≫= det_ddl) None None None None.

Definition removed_table (details : gmap str TableSchemaDetail) (comments : gmap str (option str)) (name : str) : TableDiff :=
  let detail := details !! name in
  mkTableDiff REMOVED (Some TABLE) name
    ((λ d, imap (λ i c, mkColumnDiff REMOVED (col_name c) None (Some c) [] (Some (column_add_position (det_columns d) i)))
                (det_columns d)) <$> detail)
    ((λ d, all_removed idx_name (det_indexes d)) <$> detail)
    ((λ d, all_removed fk_name (det_foreign_keys d)) <$> detail)
    ((λ d, all_removed trg_name (det_triggers d)) <$> detail)
    None (detail ≫= det_ddl) None (comments !! name) None.

Definition added_view (details : gmap str TableSchemaDetail) (name : str) : TableDiff :=
  mkTableDiff ADDED (Some VIEW) name None None None None (details !! name ≫= det_ddl) None None None None.
Definition removed_view (details : gmap str TableSchemaDetail) (name : str) : TableDiff :=
  mkTableDiff REMOVED (Some VIEW) name None None None None None (details !! name ≫= det_ddl) None None None.

(** ** Tables and views of both sides *)
Definition common_view (o : SchemaOptions) (name : str) : list TableDiff :=
  match details_map (source_details o) !! name ≫= det_ddl, details_map (target_details o) !! name ≫= det_ddl with
  | Some source_ddl, Some target_ddl =>
      if mysql_view_definitions_differ source_ddl target_ddl (co_source_dialect (column_options o))
           (co_target_dialect (column_options o))
      then [mkTableDiff MODIFIED (Some VIEW) name None None None None (Some source_ddl) (Some target_ddl) None None None]
      else []
  | _, _ => []
  end.

Definition then_some {A} (b : bool) (a : A) : option A := if b then Some a else None.
Definition not_empty {A} (l : list A) : bool := match l with [] => false | _ => true end.

Record TableParts := mkParts {
  part_columns : list ColumnDiff;
  part_indexes : list IndexDiff;
  part_foreign_keys : list ForeignKeyDiff;
  part_triggers : list TriggerDiff;
  part_comment_changed : bool;
}.

(** What differs between two tables of the same name. *)
Definition compare_parts (o : SchemaOptions) (name : str) (source target : TableSchemaDetail) : TableParts :=
  let source_names : gset str := list_to_set (named_tables (source_tables o)) in
  let target_names : gset str := list_to_set (named_tables (target_tables o)) in
  let source_comment := default None (comments_map (source_tables o) !! name) in
  let target_comment := default None (comments_map (target_tables o) !! name) in
  mkParts
    (diff_columns_with_dialect_options (column_options o) (det_columns source) (det_columns target))
    (diff_indexes (det_indexes source) (det_indexes target))
    (diff_foreign_keys (normalize_self_referencing_fk source_names <$> det_foreign_keys source)
                       (normalize_self_referencing_fk target_names <$> det_foreign_keys target))
    (diff_triggers (det_triggers source) (det_triggers target))
    (negb (co_ignore_comments (column_options o)) && differ (default [] source_comment) (default [] target_comment)).

Definition has_diff (p : TableParts) : bool :=
  not_empty (part_columns p) || not_empty (part_indexes p) || not_empty (part_foreign_keys p) ||
  not_empty (part_triggers p) || part_comment_changed p.

Definition common_table (o : SchemaOptions) (name : str) : list TableDiff :=
  match details_map (source_details o) !! name, details_map (target_details o) !! name with
  | Some source, Some target =>
      let p := compare_parts o name source target in
      let some {A} (l : list A) := if has_diff p then then_some (not_empty l) l else None in
      let comment c := if has_diff p then then_some (part_comment_changed p) c else None in
      [mkTableDiff (if has_diff p then MODIFIED else NONE) (Some TABLE) name
         (some (part_columns p)) (some (part_indexes p)) (some (part_foreign_keys p)) (some (part_triggers p))
         (det_ddl source) (det_ddl target)
         (comment (default None (comments_map (source_tables o) !! name)))
         (comment (default None (comments_map (target_tables o) !! name))) None]
  | _, _ => []
  end.

Definition diff_schema (o : SchemaOptions) : list TableDiff :=
  let '(added, removed, common) := diff_names (named_tables (source_tables o)) (named_tables (target_tables o)) in
  let '(added_views, removed_views, common_views) := diff_names (named_views (source_tables o)) (named_views (target_tables o)) in
  let own : gset str := list_to_set (named_tables (source_tables o)) in
  filter (λ d, td_type d ≠ NONE)
    ((added_table own (details_map (source_details o)) <$> added) ++
     (removed_table (details_map (target_details o)) (comments_map (target_tables o)) <$> removed) ++
     (added_view (details_map (source_details o)) <$> added_views) ++
     (removed_view (details_map (target_details o)) <$> removed_views) ++
     (common_views ≫= common_view o) ++ (common ≫= common_table o)).

(** ** Comparison in shards *)
Inductive ShardBy := ByTable | BySchema | RoundRobin.

(** [s[i % shard_count].push(name)] for every name in turn *)
Definition deal {A} (shard_count : nat) (items : list (list A)) : list (list A) :=
  (λ n, concat (imap (λ i names, if decide (i `mod` shard_count = n) then names else []) items)) <$> seq 0 shard_count.

(** [entry(schema).or_default().push(name)], and the groups in the order
    [schema_order] of the hash map. *)
Definition schema_groups (tables : list TableInfo) (schema_order : list str) : list (list str) :=
  (λ schema, tbl_name <$> filter (λ t, default (lit "default") (tbl_parent_schema t) = schema) tables) <$> schema_order.

Definition shard_options (o : SchemaOptions) (shard : list str) : SchemaOptions :=
  let shard_set : gset str := list_to_set shard in
  let co := column_options o in
  mkSchemaOptions
    (filter (λ t, tbl_name t ∈ shard_set) (source_tables o)) (filter (λ t, tbl_name t ∈ shard_set) (target_tables o))
    (filter (λ d, det_name d ∈ shard_set) (source_details o)) (filter (λ d, det_name d ∈ shard_set) (target_details o))
    (mkColumnOptions (co_ignore_comments co) (co_compare_column_order co) false 0%Q (co_source_dialect co) (co_target_dialect co)).

(** [sort_by(|a, b| a.name.cmp(&b.name))], which keeps the order of equals. *)
Fixpoint insert_diff (d : TableDiff) (l : list TableDiff) : list TableDiff :=
  match l with
  | [] => [d]
  | e :: r => if str_leb (td_name d) (td_name e) then d :: l else e :: insert_diff d r
  end.
Definition sort_diffs (l : list TableDiff) : list TableDiff := foldr insert_diff [] l.

(** [dedup_by]: drops what equals the last one kept. *)
Fixpoint dedup_from (last : str * str) (l : list TableDiff) : list TableDiff :=
  match l with
  | [] => []
  | d :: r => if decide ((td_name d, td_type d) = last) then dedup_from last r
              else d :: dedup_from (td_name d, td_type d) r
  end.
Definition dedup_diffs (l : list TableDiff) : list TableDiff :=
  match l with [] => [] | d :: r => d :: dedup_from (td_name d, td_type d) r end.

Definition shard_diff (o : SchemaOptions) (strategy_count : nat) (shard_by : ShardBy) (schema_order : list str)
  : list TableDiff :=
  let table_count := length (source_tables o) `max` length (target_tables o) in
  let shard_count := strategy_count `min` (table_count `max` 1) in
  if decide (shard_count ≤ 1) then diff_schema o
  else
    let source_all := named_tables (source_tables o) ++ named_views (source_tables o) in
    let shards :=
      match shard_by with
      | ByTable | RoundRobin => deal shard_count ((λ name, [name]) <$> source_all)
      | BySchema => deal shard_count (schema_groups (source_tables o) schema_order)
      end in
    dedup_diffs (sort_diffs (filter (λ shard, shard ≠ []) shards ≫= λ shard, diff_schema (shard_options o shard))).

(** ** Forward and rollback differences *)
Inductive DiffDirection := Forward | Rollback.

Record RenameCandidate := mkRename {
  rc_source_name : str;
  rc_target_name : str;
  rc_score : Q;
}.

Record DiffNode := mkDiffNode {
  dn_table_diff : TableDiff;
  dn_direction : DiffDirection;
  dn_dependency_order : N;
  dn_rename_source : option str;
  dn_rename_target : option str;
  dn_rename_score : option Q;
}.

Record RollbackGraph := mkRollbackGraph {
  forward_nodes : list DiffNode;
  rollback_nodes : list DiffNode;
  is_consistent : bool;
  consistency_issues : list str;
}.

Definition invert_diff (diff : TableDiff) : TableDiff :=
  let inverted_type := invert_diff_type (td_type diff) in
  let '(source_comment, target_comment) :=
    if decide (inverted_type = REMOVED) then (td_source_table_comment diff, td_target_table_comment diff)
    else (td_target_table_comment diff, td_source_table_comment diff) in
  let recreates_removed_table :=
    bool_decide (td_type diff = REMOVED) && bool_decide (inverted_type = ADDED) &&
    bool_decide (td_object_type diff = Some TABLE) in
  mkTableDiff inverted_type (td_object_type diff) (td_name diff)
    (invert_columns <$> td_columns diff) (invert_indexes <$> td_indexes diff) (invert_fks <$> td_foreign_keys diff)
    (invert_triggers <$> td_triggers diff)
    (if recreates_removed_table then None else td_target_ddl diff)
    (if recreates_removed_table then td_target_ddl diff else td_ddl diff)
    source_comment target_comment None.

Definition order_map (order : list str) : gmap str N := collect_map (imap (λ i name, (name, N.of_nat i)) order).

Definition rename_fields (renames : list RenameCandidate) (diff : TableDiff) : option str * option str * option Q :=
  let rename_map := collect_map ((λ r, (rc_target_name r, r)) <$> renames) in
  let rename_reverse := collect_map ((λ r, (rc_source_name r, rc_target_name r)) <$> renames) in
  if decide (td_type diff = ADDED) then
    match rename_reverse !! td_name diff with
    | Some rc => (Some rc, Some (td_name diff), None)
    | None => (None, None, None)
    end
  else if decide (td_type diff = REMOVED) then
    match rename_map !! td_name diff with
    | Some rc => (Some (td_name diff), Some (rc_source_name rc), Some (rc_score rc))
    | None => (None, None, None)
    end
  else (None, None, None).

Definition from_forward_diffs (forward_diffs : list TableDiff) (renames : list RenameCandidate) (dep_graph : DependencyGraph)
  : RollbackGraph :=
  let order diff := default usize_max (order_map (topological_order dep_graph) !! td_name diff) in
  mkRollbackGraph
    ((λ diff, let '(a, b, c) := rename_fields renames diff in mkDiffNode diff Forward (order diff) a b c) <$> forward_diffs)
    ((λ diff, mkDiffNode (invert_diff diff) Rollback (order diff) None None None) <$> forward_diffs)
    false [].

(** The pairs of types that [validate_consistency] accepts. *)
Definition matching_types (forward rollback : str) : bool :=
  (bool_decide (forward = ADDED) && bool_decide (rollback = REMOVED)) ||
  (bool_decide (forward = REMOVED) && bool_decide (rollback = ADDED)) ||
  (bool_decide (forward = MODIFIED) && bool_decide (rollback = MODIFIED)) ||
  (bool_decide (forward = NONE) && bool_decide (rollback = NONE)).

Definition no_rollback_issue (d : TableDiff) : str :=
  lit "No rollback entry for forward " ++ td_type d ++ lit ": " ++ td_name d.
Definition mismatch_issue (d ror : TableDiff) : str :=
  lit "Forward" ++ [8728%N] ++ lit "Rollback mismatch for " ++ td_name d ++ lit ": forward=" ++ td_type d ++
  lit ", rollback" ++ [8728%N] ++ lit "rollback=" ++ td_type ror.

Definition node_issues (rollbacks : list DiffNode) (fwd : DiffNode) : list str :=
  let d := dn_table_diff fwd in
  let same_name := filter (λ r, td_name (dn_table_diff r) = td_name d) rollbacks in
  (if existsb (λ r, matching_types (td_type d) (td_type (dn_table_diff r))) same_name then [] else [no_rollback_issue d]) ++
  (same_name ≫= λ r,
     let ror := invert_diff (dn_table_diff r) in
     if decide (td_type ror = td_type d) then [] else [mismatch_issue d ror]).

(** The graph with its verdict; the verdict is also what is returned. *)
Definition validate_consistency (g : RollbackGraph) : RollbackGraph :=
  let issues := forward_nodes g ≫= node_issues (rollback_nodes g) in
  mkRollbackGraph (forward_nodes g) (rollback_nodes g) (bool_decide (issues = [])) issues.

(** * Every difference has a name of its own *)

Lemma named_bind_sublist (f : str → list TableDiff) (l : list str) :
  (∀ x, f x = [] ∨ ∃ d, f x = [d] ∧ td_name d = x) → td_name <$> (l ≫= f) `sublist_of` l.
Proof.
  intros Hf. induction l as [|x l IH]; [constructor|]. rewrite bind_cons, fmap_app.
  destruct (Hf x) as [->|(d & -> & Hd)]; cbn; [by constructor|]. rewrite Hd. by constructor.
Qed.

Lemma named_fmap (f : str → TableDiff) (l : list str) : (∀ x, td_name (f x) = x) → td_name <$> (f <$> l) = l.
Proof. intros Hf. rewrite <-list_fmap_compose. rewrite (list_fmap_ext _ id); [apply list_fmap_id|]. intros i x _. apply Hf. Qed.

Section unique_names.
Context (o : SchemaOptions).
Context (Hsource : NoDup (tbl_name <$> source_tables o)) (Htarget : NoDup (tbl_name <$> target_tables o)).
Context (Hkind : ∀ s t, s ∈ source_tables o → t ∈ target_tables o → tbl_name s = tbl_name t → is_view s = is_view t).

Lemma tables_and_views (l : list TableInfo) : named_tables l ++ named_views l ≡ₚ tbl_name <$> l.
Proof.
  unfold named_tables, named_views. rewrite <-fmap_app. f_equiv.
  rewrite <-(filter_app_complement (λ t, is_view t = false) l) at 3. f_equiv. apply reflexive_eq, filter_same.
  intros t _. destruct (is_view t); naive_solver.
Qed.

(** A name of one side only is on the other side neither a table nor a view. *)
Lemma only_in_target x : x ∈ tbl_name <$> target_tables o →
  (x ∈ named_tables (target_tables o) → x ∉ named_tables (source_tables o)) →
  (x ∈ named_views (target_tables o) → x ∉ named_views (source_tables o)) → x ∉ tbl_name <$> source_tables o.
Proof.
  intros (t & -> & Ht)%list_elem_of_fmap Htab Hview (s & Heq & Hs)%list_elem_of_fmap.
  pose proof (Hkind s t Hs Ht (eq_sym Heq)) as Hk. destruct (is_view t) eqn:Ev.
  - apply Hview; [apply list_elem_of_fmap_2, list_elem_of_filter; by split|]. rewrite Heq.
    apply list_elem_of_fmap_2, list_elem_of_filter. by split.
  - apply Htab; [apply list_elem_of_fmap_2, list_elem_of_filter; by split|]. rewrite Heq.
    apply list_elem_of_fmap_2, list_elem_of_filter. by split.
Qed.

Lemma names_disjoint (l : list TableInfo) x : NoDup (tbl_name <$> l) → x ∈ named_tables l → x ∈ named_views l → False.
Proof. rewrite <-tables_and_views, NoDup_app. intros (_ & Hd & _) Ht Hv. by apply (Hd x). Qed.

Lemma named_subset (l : list TableInfo) x : x ∈ named_tables l ∨ x ∈ named_views l → x ∈ tbl_name <$> l.
Proof. intros Hx. rewrite <-tables_and_views. by apply elem_of_app. Qed.

(** Every name of the schemas falls into one of the six lists. *)
Lemma names_partition (a r av rv cv c : list str) :
  a ++ r ++ av ++ rv ++ cv ++ c ≡ₚ ((c ++ a) ++ (cv ++ av)) ++ (r ++ rv).
Proof.
  apply (Permutation_count_occ (decide_rel (=@{str}))). intros x. rewrite !count_occ_app. lia.
Qed.

Lemma common_view_name x : common_view o x = [] ∨ ∃ d, common_view o x = [d] ∧ td_name d = x.
Proof. unfold common_view. repeat case_match; eauto. Qed.
Lemma common_table_name x : common_table o x = [] ∨ ∃ d, common_table o x = [d] ∧ td_name d = x.
Proof. unfold common_table. repeat case_match; eauto. Qed.

Lemma diff_schema_names : NoDup (td_name <$> diff_schema o).
Proof.
  unfold diff_schema, diff_names.
  set (ts := named_tables (source_tables o)). set (tt := named_tables (target_tables o)).
  set (vs := named_views (source_tables o)). set (vt := named_views (target_tables o)).
  set (rt := filter (λ name, name ∉@{gset str} list_to_set ts) tt).
  set (rv := filter (λ name, name ∉@{gset str} list_to_set vs) vt).
  eapply sublist_NoDup; [|apply sublist_fmap, sublist_filter]. rewrite !fmap_app, !named_fmap by done.
  eapply sublist_NoDup; cycle 1.
  { do 4 (apply sublist_app; [reflexivity|]). apply sublist_app; apply named_bind_sublist;
      [apply common_view_name|apply common_table_name]. }
  rewrite names_partition. rewrite (filter_app_complement (λ name, name ∈@{gset str} list_to_set tt) ts).
  rewrite (filter_app_complement (λ name, name ∈@{gset str} list_to_set vt) vs). unfold ts, vs. rewrite tables_and_views.
  assert (Hrt : ∀ x, x ∈ rt → x ∈ tt ∧ x ∉ ts) by (intros x [Hn Hx]%list_elem_of_filter; by rewrite elem_of_list_to_set in Hn).
  assert (Hrv : ∀ x, x ∈ rv → x ∈ vt ∧ x ∉ vs) by (intros x [Hn Hx]%list_elem_of_filter; by rewrite elem_of_list_to_set in Hn).
  pose proof Htarget as Hall. rewrite <-tables_and_views in Hall. apply NoDup_app in Hall as (Htt & _ & Hvt).
  apply NoDup_app. split_and!; [done| |].
  - intros x Hx Hr. revert Hx. apply elem_of_app in Hr as [[H1 H2]%Hrt|[H1 H2]%Hrv].
    + apply only_in_target; [apply named_subset; by left|done|].
      intros Hv. by destruct (names_disjoint (target_tables o) x).
    + apply only_in_target; [apply named_subset; by right| |done].
      intros Ht. by destruct (names_disjoint (target_tables o) x).
  - apply NoDup_app. split_and!; [by apply NoDup_filter| |by apply NoDup_filter].
    intros x [H1 _]%Hrt [H2 _]%Hrv. by apply (names_disjoint (target_tables o) x).
Qed.
End unique_names.

(** * The rollback graph *)

Definition simple_type (d : TableDiff) : Prop := td_type d = ADDED ∨ td_type d = REMOVED ∨ td_type d = MODIFIED.

Lemma diff_schema_types o d : d ∈ diff_schema o → simple_type d.
Proof.
  unfold diff_schema, diff_names, simple_type. intros [Hnone Hd]%list_elem_of_filter. revert Hd. rewrite !elem_of_app.
  intros [(x & -> & _)%list_elem_of_fmap|[(x & -> & _)%list_elem_of_fmap|[(x & -> & _)%list_elem_of_fmap|
    [(x & -> & _)%list_elem_of_fmap|[(x & Hd & _)%list_elem_of_bind|(x & Hd & _)%list_elem_of_bind]]]]]; cbn; auto.
  - unfold common_view in Hd. repeat case_match; try (by apply not_elem_of_nil in Hd).
    apply list_elem_of_singleton in Hd as ->. auto.
  - unfold common_table in Hd. destruct (details_map (source_details o) !! x) as [s|]; [|by apply not_elem_of_nil in Hd].
    destruct (details_map (target_details o) !! x) as [t|]; [|by apply not_elem_of_nil in Hd].
    apply list_elem_of_singleton in Hd as ->. cbn [td_type] in *. destruct (has_diff _); [auto|done].
Qed.

Lemma invert_simple d : simple_type d →
  matching_types (td_type d) (td_type (invert_diff d)) = true ∧ td_type (invert_diff (invert_diff d)) = td_type d.
Proof.
  assert (Hty : ∀ d, td_type (invert_diff d) = invert_diff_type (td_type d)).
  { clear. intros d. unfold invert_diff. by destruct (decide _). }
  rewrite !Hty. intros [-> | [-> | ->]]; done.
Qed.

Lemma invert_name d : td_name (invert_diff d) = td_name d.
Proof. unfold invert_diff. by destruct (decide _). Qed.

Lemma forward_diff renames g diffs n : n ∈ forward_nodes (from_forward_diffs diffs renames g) → dn_table_diff n ∈ diffs.
Proof. intros (d & -> & Hd)%list_elem_of_fmap. by destruct (rename_fields renames d) as [[? ?] ?]. Qed.

(** Distinct names and types that have an inverse are enough. *)
Lemma validate_simple diffs renames g :
  NoDup (td_name <$> diffs) → (∀ d, d ∈ diffs → simple_type d) →
  consistency_issues (validate_consistency (from_forward_diffs diffs renames g)) = [].
Proof.
  intros Hnd Hty. apply elem_of_nil_inv. intros issue (n & Hi & Hn)%list_elem_of_bind.
  apply forward_diff in Hn. set (d := dn_table_diff n) in *. revert Hi. unfold node_issues. fold d.
  destruct (invert_simple d (Hty d Hn)) as [Hmatch Hback]. rewrite elem_of_app. intros [Hi|Hi].
  - assert (Hex : existsb (λ r, matching_types (td_type d) (td_type (dn_table_diff r)))
        (filter (λ r, td_name (dn_table_diff r) = td_name d) (rollback_nodes (from_forward_diffs diffs renames g))) = true).
    { apply existsb_exists.
      exists (mkDiffNode (invert_diff d) Rollback (default usize_max (order_map (topological_order g) !! td_name d)) None None None).
      split; [|exact Hmatch].
      apply list_elem_of_In, list_elem_of_filter. split; [apply invert_name|].
      apply list_elem_of_fmap. exists d. split; [reflexivity|done]. }
    rewrite Hex in Hi. by apply not_elem_of_nil in Hi.
  - apply list_elem_of_bind in Hi as (r & Hi & [Hname (d' & -> & Hd')%list_elem_of_fmap]%list_elem_of_filter).
    cbn in Hname, Hi. rewrite invert_name in Hname.
    assert (Hdd : d' = d).
    { apply list_elem_of_lookup in Hd' as [i Hi'], Hn as [j Hj].
      assert (i = j) as ->; [|congruence]. eapply NoDup_lookup; [exact Hnd|..]; rewrite list_lookup_fmap, ?Hi', ?Hj; cbn; [done|].
      by rewrite Hname. }
    subst d'. rewrite Hback, decide_True in Hi by done. by apply not_elem_of_nil in Hi.
Qed.

(** Positions in the order of the dependency graph. *)
Lemma order_map_lookup order i name : NoDup order → order !! i = Some name → order_map order !! name = Some (N.of_nat i).
Proof.
  intros Hnd Hi. unfold order_map. apply collect_map_NoDup.
  - assert (Hid : (imap (λ n x, (x, N.of_nat n)) order).*1 = order); [|by rewrite Hid].
    rewrite fmap_imap. apply list_eq. intros k. rewrite list_lookup_imap. by destruct (order !! k).
  - apply elem_of_lookup_imap. eauto.
Qed.

Lemma precedes_order order a b : NoDup order → precedes a b order →
  ∃ i j, order_map order !! a = Some i ∧ order_map order !! b = Some j ∧ (i < j)%N.
Proof.
  intros Hnd (l1 & l2 & l3 & Heq). exists (N.of_nat (length l1)), (N.of_nat (length (l1 ++ a :: l2))). split_and!.
  - apply order_map_lookup; [done|]. by rewrite Heq, list_lookup_middle.
  - apply order_map_lookup; [done|]. rewrite Heq. rewrite app_comm_cons, app_assoc. by rewrite list_lookup_middle.
  - rewrite length_app. cbn. lia.
Qed.

(** C29: For schemas with unique names in which no name changes between table and view, the
    dependency graph of the source is built, the graph of forward and rollback differences is judged
    consistent, without issues, has every difference and its inverse in order, and ranks a
    referenced table before the table that refers to it unless that table is behind a cycle. *)
Theorem rollback_graph_is_consistent `{Unicode} o orders renames :
  NoDup (tbl_name <$> source_tables o) → NoDup (tbl_name <$> target_tables o) →
  (∀ s t, s ∈ source_tables o → t ∈ target_tables o → tbl_name s = tbl_name t → is_view s = is_view t) →
  orders_ok (source_tables o) [] orders →
  ∃ dep_graph, build (source_details o) (source_tables o) orders = Ok dep_graph ∧
    let g := validate_consistency (from_forward_diffs (diff_schema o) renames dep_graph) in
    is_consistent g = true ∧ consistency_issues g = [] ∧
    dn_table_diff <$> forward_nodes g = diff_schema o ∧
    dn_table_diff <$> rollback_nodes g = invert_diff <$> diff_schema o ∧
    (∀ a b, a ∈ forward_nodes g → b ∈ forward_nodes g →
       refers (source_details o) (source_tables o) (td_name (dn_table_diff a)) (td_name (dn_table_diff b)) →
       Acc (λ d n, refers (source_details o) (source_tables o) n d) (td_name (dn_table_diff a)) →
       (dn_dependency_order b < dn_dependency_order a)%N).
Proof.
  intros Hs Ht Hkind Ho.
  destruct (build_spec (source_details o) (source_tables o) [] orders Ho) as (g & Hg & Hperm & Hdeps & _);
    [by intros x [f Hx]|].
  assert (Hnd : NoDup (topological_order g)) by (rewrite Hperm; apply NoDup_elements).
  exists g. split; [exact Hg|]. cbv zeta.
  pose proof (validate_simple (diff_schema o) renames g (diff_schema_names o Hs Ht Hkind) (diff_schema_types o)) as Hissues.
  assert (Horder : ∀ n, n ∈ forward_nodes (from_forward_diffs (diff_schema o) renames g) →
     dn_dependency_order n = default usize_max (order_map (topological_order g) !! td_name (dn_table_diff n))).
  { intros n (d & -> & _)%list_elem_of_fmap. by destruct (rename_fields renames d) as [[? ?] ?]. }
  split_and!.
  - cbn in *. rewrite Hissues. done.
  - done.
  - cbn. rewrite <-list_fmap_compose. rewrite (list_fmap_ext _ id); [apply list_fmap_id|].
    intros i d _. cbn. by destruct (rename_fields renames d) as [[? ?] ?].
  - cbn. rewrite <-list_fmap_compose. done.
  - intros a b Ha Hb Hr Hacc. rewrite (Horder a Ha), (Horder b Hb).
    destruct (precedes_order _ _ _ Hnd (Hdeps _ _ Hr Hacc)) as (i & j & -> & -> & Hij). done.
Qed.

(** The tables of [sample_tables] against a target with only [orders]. *)
Definition no_renames : ColumnOptions := mkColumnOptions false false false 0%Q None None.
Definition sample_schema : SchemaOptions :=
  mkSchemaOptions sample_tables [mkTable (lit "orders") (lit "TABLE") None None None] sample_details [] no_renames.

Lemma rollback_graph_is_consistent_witness :
  (td_name <$> diff_schema sample_schema) = [lit "items"; lit "recent"] ∧
  ∃ dep_graph, @build ascii_only sample_details sample_tables sample_orders = Ok dep_graph ∧
    is_consistent (validate_consistency (from_forward_diffs (diff_schema sample_schema) [] dep_graph)) = true.
Proof.
  split; [vm_compute; reflexivity|].
  destruct (@rollback_graph_is_consistent ascii_only sample_schema sample_orders []) as (g & Hg & Hc & _).
  - apply (bool_decide_unpack _). vm_compute. exact I.
  - apply (bool_decide_unpack _). vm_compute. exact I.
  - intros s t Hs Ht Hn. apply list_elem_of_singleton in Ht. subst t.
    repeat (apply elem_of_cons in Hs as [-> | Hs]; [first [reflexivity|discriminate Hn]|]).
    apply elem_of_nil in Hs. destruct Hs.
  - exact (@sample_orders_ok ascii_only).
  - exists g. split; [exact Hg|exact Hc].
Defined.

(** A renamed table has no accepted counterpart, so a graph that holds one is
    always reported as inconsistent. *)
Lemma renamed_table_is_inconsistent diffs renames g d :
  d ∈ diffs → td_type d = RENAMED →
  is_consistent (validate_consistency (from_forward_diffs diffs renames g)) = false.
Proof.
  intros Hd Hty. cbn [validate_consistency is_consistent]. apply bool_decide_eq_false_2. intros Hnil.
  assert (Hin : no_rollback_issue d ∈ forward_nodes (from_forward_diffs diffs renames g) ≫=
      node_issues (rollback_nodes (from_forward_diffs diffs renames g))); [|rewrite Hnil in Hin; by apply not_elem_of_nil in Hin].
  destruct (rename_fields renames d) as [[a b] c] eqn:Er. apply list_elem_of_bind.
  exists (mkDiffNode d Forward (default usize_max (order_map (topological_order g) !! td_name d)) a b c). split.
  - unfold node_issues. cbn [dn_table_diff]. apply elem_of_app. left.
    assert (Hex : ∀ l, existsb (λ r, matching_types (td_type d) (td_type (dn_table_diff r))) l = false).
    { intros l. induction l as [|r l IH]; [done|]. cbn [existsb]. by rewrite IH, Hty. }
    rewrite Hex. left.
  - apply list_elem_of_fmap. exists d. by rewrite Er.
Qed.

(** * When nothing is reported *)
Lemma not_empty_false {A} (l : list A) : not_empty l = false ↔ l = [].
Proof. by destruct l. Qed.

Definition same_names (a b : list str) : Prop := ∀ n, n ∈ a ↔ n ∈ b.

Lemma diff_names_none (a b : list str) : (diff_names a b).1.1 = [] ∧ (diff_names a b).1.2 = [] ↔ same_names a b.
Proof.
  unfold diff_names, same_names. cbn. split.
  - intros [H1 H2] n. split; intros Hn; apply dec_stable; intros Hout.
    + assert (Hin : n ∈ filter (λ name, name ∉@{gset str} list_to_set b) a)
        by (apply list_elem_of_filter; by rewrite elem_of_list_to_set).
      rewrite H1 in Hin. by apply not_elem_of_nil in Hin.
    + assert (Hin : n ∈ filter (λ name, name ∉@{gset str} list_to_set a) b)
        by (apply list_elem_of_filter; by rewrite elem_of_list_to_set).
      rewrite H2 in Hin. by apply not_elem_of_nil in Hin.
  - intros Hab. split; apply filter_none; intros n Hn; rewrite elem_of_list_to_set; naive_solver.
Qed.

Lemma bind_nil {A B} (f : A → list B) (l : list A) : l ≫= f = [] ↔ ∀ a, a ∈ l → f a = [].
Proof.
  split.
  - intros Hnil a Ha. apply elem_of_nil_inv. intros b Hb.
    assert (Hin : b ∈ l ≫= f) by (apply list_elem_of_bind; eauto). rewrite Hnil in Hin. by apply not_elem_of_nil in Hin.
  - intros Hf. apply elem_of_nil_inv. intros b (a & Hb & Ha)%list_elem_of_bind. rewrite (Hf a Ha) in Hb. by apply not_elem_of_nil in Hb.
Qed.

(** Two tables with the same parts. *)
Definition same_parts (o : SchemaOptions) (name : str) (s t : TableSchemaDetail) : Prop :=
  let p := compare_parts o name s t in
  part_columns p = [] ∧ part_indexes p = [] ∧ part_foreign_keys p = [] ∧ part_triggers p = [] ∧
  part_comment_changed p = false.

Lemma has_diff_false p : has_diff p = false ↔
  part_columns p = [] ∧ part_indexes p = [] ∧ part_foreign_keys p = [] ∧ part_triggers p = [] ∧ part_comment_changed p = false.
Proof. unfold has_diff. rewrite !orb_false_iff, !not_empty_false. tauto. Qed.

Lemma fmap_nil_iff {A B} (f : A → B) (l : list A) : f <$> l = [] ↔ l = [].
Proof. by destruct l. Qed.

Lemma diff_schema_nil o :
  diff_schema o = [] ↔
  let '(added, removed, common) := diff_names (named_tables (source_tables o)) (named_tables (target_tables o)) in
  let '(added_v, removed_v, common_v) := diff_names (named_views (source_tables o)) (named_views (target_tables o)) in
  added = [] ∧ removed = [] ∧ added_v = [] ∧ removed_v = [] ∧
  (∀ name a b, name ∈ common_v →
     details_map (source_details o) !! name ≫= det_ddl = Some a → details_map (target_details o) !! name ≫= det_ddl = Some b →
     mysql_view_definitions_differ a b (co_source_dialect (column_options o)) (co_target_dialect (column_options o)) = false) ∧
  (∀ name s t, name ∈ common →
     details_map (source_details o) !! name = Some s → details_map (target_details o) !! name = Some t → same_parts o name s t).
Proof.
  unfold diff_schema, diff_names. rewrite !filter_app, !app_nil.
  rewrite !(filter_all (λ d, td_type d ≠ NONE) (_ <$> _)) by (by intros d (x & -> & _)%list_elem_of_fmap).
  rewrite !fmap_nil_iff. apply and_iff_compat_l, and_iff_compat_l, and_iff_compat_l, and_iff_compat_l.
  rewrite (filter_all _ (_ ≫= common_view o)).
  2: { intros d (x & Hd & _)%list_elem_of_bind. unfold common_view in Hd. repeat case_match;
       try (by apply not_elem_of_nil in Hd). by apply list_elem_of_singleton in Hd as ->. }
  rewrite bind_nil. f_equiv.
  - unfold common_view. split.
    + intros Hall name a b Hn Ha Hb. specialize (Hall name Hn). rewrite Ha, Hb in Hall. by destruct (mysql_view_definitions_differ _ _ _ _).
    + intros Hall name Hn. destruct (details_map (source_details o) !! name ≫= det_ddl) as [a|] eqn:Ea; [|done].
      destruct (details_map (target_details o) !! name ≫= det_ddl) as [b|] eqn:Eb; [|done]. by rewrite (Hall name a b).
  - split.
    + intros Hnil name s t Hn Hs Ht. unfold same_parts. apply has_diff_false.
      destruct (has_diff (compare_parts o name s t)) eqn:Eh; [|done].
      assert (Hin : ∃ d, d ∈ filter (λ d, td_type d ≠ NONE) (filter (λ n, n ∈@{gset str} list_to_set (named_tables (target_tables o))) (named_tables (source_tables o)) ≫= common_table o)).
      { eexists. apply list_elem_of_filter. split; cycle 1.
        - apply list_elem_of_bind. exists name. unfold common_table. rewrite Hs, Ht. split; [left|done].
        - cbn [td_type]. by rewrite Eh. }
      destruct Hin as [d Hd]. rewrite Hnil in Hd. by apply not_elem_of_nil in Hd.
    + intros Hall. apply filter_none. intros d (name & Hd & Hn)%list_elem_of_bind Hty. apply Hty. unfold common_table in Hd.
      destruct (details_map (source_details o) !! name) as [s|] eqn:Es; [|by apply not_elem_of_nil in Hd].
      destruct (details_map (target_details o) !! name) as [t|] eqn:Et; [|by apply not_elem_of_nil in Hd].
      apply list_elem_of_singleton in Hd as ->. cbn [td_type].
      specialize (Hall name s t Hn Es Et). apply has_diff_false in Hall. by rewrite Hall.
Qed.

(** The comparison reports nothing exactly when both sides have the same tables
    and views and what is known of each of them agrees. *)
Theorem nothing_reported_iff_schemas_agree o :
  diff_schema o = [] ↔
  same_names (named_tables (source_tables o)) (named_tables (target_tables o)) ∧
  same_names (named_views (source_tables o)) (named_views (target_tables o)) ∧
  (∀ name s t, name ∈ named_tables (source_tables o) →
     details_map (source_details o) !! name = Some s → details_map (target_details o) !! name = Some t →
     same_parts o name s t) ∧
  (∀ name a b, name ∈ named_views (source_tables o) →
     details_map (source_details o) !! name ≫= det_ddl = Some a → details_map (target_details o) !! name ≫= det_ddl = Some b →
     mysql_view_definitions_differ a b (co_source_dialect (column_options o)) (co_target_dialect (column_options o)) = false).
Proof.
  rewrite diff_schema_nil, <-!diff_names_none. unfold diff_names. cbn [fst snd].
  assert (Hc : ∀ (name : str) (a b : list str), name ∈ filter (λ n, n ∈@{gset str} list_to_set b) a ↔ name ∈ b ∧ name ∈ a).
  { intros name a b. by rewrite list_elem_of_filter, elem_of_list_to_set. }
  split.
  - intros (H1 & H2 & H3 & H4 & Hv & Ht). split_and!; [done..| |].
    + intros name s t Hn. apply Ht, Hc. split; [|done].
      assert (Hsame : same_names (named_tables (source_tables o)) (named_tables (target_tables o))) by (by apply diff_names_none).
      by apply Hsame.
    + intros name a b Hn. apply Hv, Hc. split; [|done].
      assert (Hsame : same_names (named_views (source_tables o)) (named_views (target_tables o))) by (by apply diff_names_none).
      by apply Hsame.
  - intros ([H1 H2] & [H3 H4] & Ht & Hv). split_and!; [done..| |].
    + intros name a b [_ Hn]%Hc. by apply Hv.
    + intros name s t [_ Hn]%Hc. by apply Ht.
Qed.

(** Shards are made of the names of the source, so what only the target has is
    never reported. *)
Lemma shards_lose_removed_tables :
  let t name := mkTable name (lit "TABLE") None None None in
  let o := mkSchemaOptions [t (lit "a"); t (lit "b")] [t (lit "a"); t (lit "b"); t (lit "old")] [] [] no_renames in
  (td_name <$> diff_schema o) = [lit "old"] ∧ shard_diff o 2 ByTable [] = [].
Proof. split; vm_compute; reflexivity. Qed.

(** A foreign key into another shard is not recognised as one of the same
    schema: the sharded comparison reports a change of schema. *)
Lemma shards_change_foreign_keys :
  let t name := mkTable name (lit "TABLE") None None None in
  let d schema := mkDetail (lit "a") [] [] [mkForeignKey (lit "f") (lit "x") (Some schema) (lit "b") (lit "id") None None] [] None in
  let o := mkSchemaOptions [t (lit "a"); t (lit "b")] [t (lit "a"); t (lit "b")] [d (lit "dev")] [d (lit "prod")] no_renames in
  diff_schema o = [] ∧ (td_name <$> shard_diff o 2 ByTable []) = [lit "a"].
Proof. split; vm_compute; reflexivity. Qed.
